(* ===== verification/_CoqProject ===== *)
-Q . S2P
Prelude.v
LifecycleStore.v
OrchestratorTypes.v
Idempotency.v
Msp.v
EndorsementPolicy.v
PolicyResolver.v
Instances.v
EndorsementSearch.v
Collect.v
Finality.v
Submission.v
ExecContext.v
Shim.v
GoStrings.v
GoText.v
Json.v
Proto.v
Helper.v
Requests.v
Auth.v
Framing.v
JsonTree.v
ResponseJson.v
Events.v
Packager.v
LifecycleAuth.v
Config.v
Network.v
ChaincodeResolver.v
Binding.v
Invocation.v
LifecycleLedger.v
Package.v
PackageBuild.v
LifecycleRPC.v
RemoteResolver.v
Startup.v
RecoveryPass.v
LedgerSync.v
PendingLifecycle.v
RecoveryShutdown.v
Service.v
Gateway.v
Acceptance.v
Coordination.v
LifecycleCLI.v
Client.v
Chaincode.v
AssetTransfer.v
SampleResolver.v
Unary.v
LifecycleTransport.v
LifecyclePayloads.v
ResolverTransport.v
BlockDump.v
RwsSmoke.v
OrchestratorMain.v
