(* ===== verification/Prelude.v ===== *)
(** * The Fabric-X chaincode compatibility service

    This development models the packages under [src/compatibility_service/pkg/], the programs under
    [src/compatibility_service/cmd/] and [src/cmd/], and the samples under
    [src/sample_external_chaincode/] and [src/sample_external_resolver/]. The service lets Fabric
    clients and Fabric chaincode run on a Fabric-X network. One process, the orchestrator, receives
    signed Fabric proposals (its own ProcessProposal API and the Fabric Gateway API), runs the
    chaincode through an in-process helper endorser, collects endorsements of other organizations'
    orchestrators until the namespace's policy is satisfied, submits the native transaction and
    waits for its status. A lifecycle service with its own store decides which chaincode definition
    is active.

    ** Parts and files

    Shared:
    - [Prelude.v]: Go errors and gRPC codes, the result monad, machine integers, tactics.
    - [GoStrings.v]: number formatting and parsing, [url.PathEscape], [strings.TrimSpace].
    - [GoText.v]: UTF-8 and [strconv.Quote].
    - [Json.v]: flat JSON objects over an abstract text codec, base64.
    - [JsonTree.v]: nested JSON values and a codec for each kind of Go value.
    - [Unary.v]: unary gRPC methods with JSON messages, over an abstract connection.
    - [Proto.v]: the protobuf records of proposals over abstract codecs.
    - [OrchestratorTypes.v]: the records the orchestrator's parts exchange.
    - [Instances.v]: concrete instances of the library classes, for witnesses.

    Lifecycle ([pkg/lifecycle]):
    - [LifecycleStore.v], [store.go]: the four tables as finite maps, every operation.
    - [LifecycleLedger.v], [ledger.go]: keys and codecs of the records on the ledger.
    - [LifecycleAuth.v], [request.go] and [auth.go]: signed requests and who may make them.
    - [Package.v] and [PackageBuild.v], [package.go]: the inspection of an uploaded package, and
      building one from a directory.
    - [LifecycleRPC.v], [rpc.go]: the server's handlers, the ledger mirror, propagation.
    - [LedgerSync.v], [orchestrator/lifecycle_ledger.go] and [lifecycle_sync.go]: reading the
      ledger, the transactions that change it, and hydration at startup.
    - [PendingLifecycle.v], [orchestrator/lifecycle_ledger.go] and [init.go]: operations whose
      transaction or propagation is unfinished.
    - [LifecycleTransport.v] and [LifecyclePayloads.v], [rpc.go]: the JSON of the messages and of
      the request payloads, the registered methods and the client's calls.
    - [LifecycleCLI.v], [cli/command.go]: the lifecycle commands.
    - [Coordination.v], [rpc.go] and [RemotePeers] of [orchestrator/service.go]: the handlers of
      several organizations' orchestrators composed through their resolvers.

    Execution ([pkg/helper], [pkg/shim]):
    - [ExecContext.v], [helper/service.go]: the state of one invocation and its query view.
    - [Shim.v], [shim/connector.go] and [shim/handler.go]: the chaincode stream.
    - [Helper.v], [helper/service.go], [executor.go], [proposal.go]: endorsing a proposal.

    Orchestrator ([pkg/orchestrator], [pkg/auth]):
    - [Msp.v], [auth/msp.go]: identities and signatures.
    - [Auth.v], [proposal_auth.go]: which clients may invoke what.
    - [Requests.v], [service.go] and [init.go]: requests from proposals and their digest.
    - [EndorsementPolicy.v] and [EndorsementSearch.v], [policy.go] and
      [endorsement_policy.go]: policies, and the search for a satisfying selection.
    - [Collect.v], [execution.go]: collecting endorsements from other organizations.
    - [Idempotency.v], [idempotency.go]: the records that make retries safe.
    - [Submission.v], [execution.go]: submitting, replaying, reconciling.
    - [Finality.v], [service.go] and [execution.go]: waiting for a transaction's status.
    - [PolicyResolver.v], [policy.go]: reading a namespace's policy and keeping the last one.
    - [Network.v]: the SDK's connections, as a state with the open ones.
    - [Config.v], [config] and [service.go]: the configuration, its defaults and [Validate].
    - [ChaincodeResolver.v], [resolver.go]: where a chaincode's service is, from the
      configuration or from a resolver service.
    - [RemoteResolver.v], [remote_resolver.go] and [contact.go]: the other organizations'
      orchestrators, their cache and their connections.
    - [Binding.v], [lifecycle_executor.go] and [lifecycle_binding.go]: which service executes a
      definition, and the evidence of it; executions interleaved with each other and with
      lifecycle operations, one store statement at a time.
    - [Framing.v] and [Packager.v], [fabricx_packager.go]: the wire frames, the native
      transaction, the Gateway's prepared transaction and its parser.
    - [Events.v], [chaincode_events.go]: the block stream and the chaincode events.
    - [Invocation.v], [Service.v] and [Gateway.v], [service.go] and [execution.go]: the whole
      flows of the two client APIs, composed of the parts above in the code's order.
    - [Acceptance.v]: Endorse and Submit of the Gateway composed, with the client between them.
    - [Startup.v], [service.go]: construction and [Close].
    - [RecoveryPass.v], [execution.go]: the background recovery passes, their triggers and the
      shutdown, as interleaved steps.
    - [RecoveryShutdown.v], [execution.go] and [lifecycle_ledger.go]: the body of a pass, statement
      by statement, while other goroutines use the same records and operations.
    - [ResolverTransport.v], [pkg/ccresolver/rpc.go]: the resolver service over gRPC.

    Programs and samples:
    - [OrchestratorMain.v], [cmd/orchestrator/main.go]: the orchestrator's process.
    - [ResponseJson.v], [service.go] and [lifecycle_binding.go]: the response of an invocation in
      JSON, and what [encoding/json] does to bytes that are not text.
    - [Client.v], [cmd/client/main.go]: the command-line client.
    - [BlockDump.v] and [RwsSmoke.v], [src/cmd/block-dump/main.go] and
      [src/cmd/rws-smoke/main.go]: the inspection tools.
    - [Chaincode.v], [sample_external_chaincode/cmd/]: the key-value chaincodes, as programs of stub
      calls run against the handler of [Shim.v].
    - [AssetTransfer.v], [asset_transfer/chaincode/smartcontract.go]: the asset contract.
    - [SampleResolver.v], [sample_external_resolver/cmd/server/main.go]: the resolver service.

    ** Conventions

    A Go function that returns [(T, error)] returns [result T]; [(T, bool, error)] returns [result
    (option T)]. A method that writes its receiver takes the state and returns the new one. A map
    iterated in Go's unspecified order is a map of the model with the order as an argument or a
    sorted list, as the code has it. [ctx.Err()] at a check is an [option goerr] argument and
    [time.Now()] an argument. Third-party code is a class or a record argument ([MSPLib],
    [PolicyLib], [ProtoUtil], [JSONText], [TreeText], [Grpc], [PackageLib], ...), whose laws are the
    named classes [JSONLaws], [TreeLaws], [ReplacingLaws] and the like, each with an instance in a witness. A copy
    that only protects against later changes ([cloneByteMap] and the like) is the value itself.
    Error texts keep the format string and drop the arguments. A nil and an empty byte slice are one
    value, but in [BlockDump.v], where the program prints them differently. Integers are [Z],
    wrapped to 64 bits where the code's arithmetic can overflow.

    ** What the theorems show

    - Whole flows: [Service.Execute_submits_endorsed] and [Gateway.Submit_admits] (only an
      endorsed transaction of an authorized client reaches ordering),
      [Gateway.acknowledged_verified] (an acknowledged repetition stands for a verified submission),
      [Service.ProcessProposal_admits], [Service.Execute_completes] (no submission record is
      left unsettled), [Acceptance.endorsed_accepted] (what Endorse prepared, Submit orders) and
      [Gateway.evaluateRemote_once].
    - Agreement of organizations: [Coordination.commit_unanimous] (a commit needs the approval, in
      its own store, of every organization the resolvers find) and [Coordination.mirrors_agree]
      (a finished propagation leaves their mirrors showing the definition).
    - Admission: [Auth.gatewayInvocation_admits], [Auth.gateway_readers_authentic],
      [LifecycleAuth.check_exact], [LifecycleAuth.signing_bytes_bind] and
      [Payloads.signature_means]: who passes, exactly on which signed bytes, and what those ask.
    - Background passes: [Passes.recovery_exclusive] and [Shutdown.shutdown_returns], under every
      interleaving; [Shutdown.pass_body_refined] ties the statements of a pass to the functions.
    - Calls: [Transport.lifecycle_call_served], [Transport.decoded_in_range],
      [Payloads.payload_read] and [ResolverTransport.resolution_over_wire].
    - Packages and commands: [Build.build_package_exact], [Cli.install_exact],
      [Cli.parse_host_exact], [Client.call_end_to_end].  A response arrives with its invalid UTF-8
      replaced; text arrives as it is ([Response.received_text]) and a payload of any bytes in
      base64 ([Response.received_payload]).
    - Programs: [OrchestratorMain.orchestrator_ends], [BlockDump.dump_identifies],
      [BlockDump.main_prints_range], [RwsSmoke.main_submits].
    - Samples: [Chaincode.chaincode_served], [Chaincode.compat_reads_committed],
      [AssetTransfer.asset_history_exact], [SampleResolver.sample_resolves_orchestrators].
    - Which service runs a chaincode: [Ccr.resolver_answers],
      [Binding.approved_package_runs], [Binding.evidence_names_endpoint].  The former needs that
      no lookup that has passed its approval check is under way when the local organization
      approves; [Binding.late_answer_wins] shows that it is needed.
    - Connections: [Startup.startup_releases], [Remote.resolver_releases],
      [Remote.resolved_contacts]; configurations: [Config.Validate_exact].
    - Transactions and events: [Packager.parseGatewayTransaction_sound],
      [Packager.prepared_parsed], [Events.ChaincodeEvents_exact],
      [Events.subscription_resumes].
    - Endorsement: [Search.selectEndorsements_sound] and [_complete], [Collect.collect_sound],
      [Helper.ProcessProposal_endorses]: a returned
      endorsement satisfies the policy, or has one endorsement of each organization that was
      asked for by name, and every contribution is authentic and the same result; a satisfying
      ordering is found when there is one, though not necessarily a shortest one.
    - Isolation of an execution: [Exec.invocation_one_view], [Exec.reads_are_snapshot],
      [Exec.read_failure_sticks], [Helper.ProcessProposal_releases_view] and the properties of
      the shim.
    - Submission at most once: the properties of [Idempotency] and [Submission], with
      [Requests.digest_identifies].
    - Lifecycle: progress and refinement of the store, [RPC.committed_from_ledger],
      [RPC.Commit_approved], [RPC.propagation_resumes], the codecs of the ledger;
      [LedgerSync.ledger_definitions_advance] (concurrent transactions of several
      orchestrators), [LedgerSync.sync_reproduces_ledger], [Pending.lifecycle_never_resent].
      [Pending.FinalizeLifecycleDefinition_mirrors] shows that the service meets what
      [RPC.committed_from_ledger] asks of a finalizer.
    - Finality: [Finality.waitForTransactionStatus_sound].

    ** Bounds and fuel

    [EndorsementSearch.search_orders] recurses on the number of candidates not yet in the
    order, so its fuel, their number, is never exhausted ([search_orders_none] shows that a
    failed search tried every order).  [EndorsementPolicy.inspect_principal] descends into the
    encoding of a combined principal; its fuel exceeds the number of bytes of the outermost
    one, and every level of nesting in the wire format takes at least one byte.  Waiting loops
    and stream loops consume an explicit list of the events they observe, so every list of
    events has a defined outcome, and [None] stands for a loop still waiting when the list
    ends.  All other recursion is structural.

    ** Not modelled

    - Failures of the SQL driver, logging, health checks and registration with the gRPC server.
    - The transport and its timeouts: a call is its answer, and a timeout is one of its errors.
    - Reading and parsing configuration files and command lines: the decoded configuration and the
      flags' values are arguments.
    - The file system while a package is built does not change.
    - The [main] functions of the sample chaincodes, which start the chaincode library's server, and
      the sample resolver's gRPC server.
    - The test support under [internal/testutil], which makes certificates.
    - Functions that nothing calls, such as [newOrchestratorContacts] and [lifecycleRemotes]. *)
From Stdlib Require Import ZArith Lia.
From stdpp Require Import base option list strings gmap fin_maps sorting.

(** * Errors

    A Go error is kept by its construction.  [ENew] is [errors.New] or
    [fmt.Errorf] without [%w]: it keeps the literal (format) text and drops the
    formatted arguments.  [EWrap] is [fmt.Errorf] with [%w].  [EStatus] is a
    gRPC status error made from another error's text, so it is opaque to
    [errors.Is].  [EOrdering] is the package's own [orderingSubmissionError].
    [EExt] is an error value produced by code outside the repository. *)
Inductive code : Set :=
  | CodeOK | CodeCanceled | CodeUnknown | CodeInvalidArgument
  | CodeDeadlineExceeded | CodeNotFound | CodeAlreadyExists
  | CodePermissionDenied | CodeFailedPrecondition | CodeAborted
  | CodeUnimplemented | CodeInternal | CodeUnavailable | CodeDataLoss
  | CodeUnauthenticated.

#[export] Instance code_eq_dec : EqDecision code.
Proof. solve_decision. Defined.

Inductive goerr : Type :=
  | ENew (msg : string)
  | EWrap (msg : string) (e : goerr)
  | EJoin (e1 e2 : goerr)
  | EStatus (c : code) (e : goerr)
  | EOrdering (uncertain : bool) (e : goerr)
  | ECanceled
  | EDeadlineExceeded
  | EExt (tag : string).

#[export] Instance goerr_eq_dec : EqDecision goerr.
Proof. solve_decision. Defined.

(** [errors.Is(e, target)]: the sentinel itself or anything it wraps. *)
Fixpoint errors_Is (e target : goerr) : bool :=
  bool_decide (e = target) ||
  match e with
  | EWrap _ e' => errors_Is e' target
  | EJoin e1 e2 => errors_Is e1 target || errors_Is e2 target
  | EOrdering _ e' => errors_Is e' target
  | _ => false
  end.

(** [errors.As(e, &orderingError)]: the first ordering error of the chain. *)
Fixpoint errors_As_ordering (e : goerr) : option bool :=
  match e with
  | EOrdering uncertain _ => Some uncertain
  | EWrap _ e' => errors_As_ordering e'
  | EJoin e1 e2 =>
      match errors_As_ordering e1 with
      | Some u => Some u
      | None => errors_As_ordering e2
      end
  | _ => None
  end.

(** gRPC's [status.FromError]: the code of the first status error of the chain. *)
Fixpoint status_FromError (e : goerr) : option code :=
  match e with
  | EStatus c _ => Some c
  | EWrap _ e' => status_FromError e'
  | EOrdering _ e' => status_FromError e'
  | EJoin e1 e2 =>
      match status_FromError e1 with
      | Some c => Some c
      | None => status_FromError e2
      end
  | _ => None
  end.

(** [status.Code] of a non-nil error. *)
Definition status_Code (e : goerr) : code := default CodeUnknown (status_FromError e).

(** [status.FromContextError(err).Err()]. *)
Definition status_FromContextError (e : goerr) : goerr :=
  EStatus (if errors_Is e EDeadlineExceeded then CodeDeadlineExceeded
           else if errors_Is e ECanceled then CodeCanceled else CodeUnknown) e.

(** * Results

    A Go pair [(value, error)]; a triple [(value, ok, error)] is a
    [result (option A)]. *)
Inductive result (A : Type) : Type :=
  | Ok (x : A)
  | Err (e : goerr).
Arguments Ok {_} _.
Arguments Err {_} _.

#[export] Instance result_mret : MRet result := @Ok.
#[export] Instance result_mbind : MBind result := fun _ _ k m =>
  match m with Ok x => k x | Err e => Err e end.
#[export] Instance result_fmap : FMap result := fun _ _ f m =>
  match m with Ok x => Ok (f x) | Err e => Err e end.

#[export] Instance result_eq_dec {A} `{EqDecision A} : EqDecision (result A).
Proof. solve_decision. Defined.

Definition is_ok {A} (m : result A) : bool :=
  match m with Ok _ => true | Err _ => false end.

(** [if cond { return err }]. *)
Definition guard_err (cond : bool) (e : goerr) : result () :=
  if cond then Err e else Ok ().

Lemma bind_ok {A B} (m : result A) (k : A → result B) y :
  (m ≫= k) = Ok y ↔ ∃ x, m = Ok x ∧ k x = Ok y.
Proof. destruct m; naive_solver. Qed.

Lemma bind_err {A B} (m : result A) (k : A → result B) e :
  (m ≫= k) = Err e ↔ m = Err e ∨ ∃ x, m = Ok x ∧ k x = Err e.
Proof. destruct m; naive_solver. Qed.

Lemma guard_err_ok cond e u : guard_err cond e = Ok u ↔ cond = false.
Proof. destruct cond, u; naive_solver. Qed.

(** A context is what [ctx.Err()] returns when it is consulted. *)
Notation ctx_err := (option goerr) (only parsing).

(** Go strings and byte slices are both byte sequences. *)
Notation bytes := string (only parsing).

(** * Machine integers *)
Section Integers.
Local Open Scope Z_scope.

Definition int64_max : Z := 2 ^ 63 - 1.
Definition uint64_max : Z := 2 ^ 64 - 1.
Definition int64_wrap (z : Z) : Z := (z + 2 ^ 63) mod 2 ^ 64 - 2 ^ 63.
Definition uint64_wrap (z : Z) : Z := z mod 2 ^ 64.
Definition is_int64 (z : Z) : Prop := - 2 ^ 63 <= z < 2 ^ 63.
Definition is_uint64 (z : Z) : Prop := 0 <= z < 2 ^ 64.

Lemma int64_wrap_id z : is_int64 z → int64_wrap z = z.
Proof. unfold is_int64, int64_wrap. intros. rewrite Z.mod_small; lia. Qed.

Lemma uint64_wrap_id z : is_uint64 z → uint64_wrap z = z.
Proof. unfold is_uint64, uint64_wrap. intros. by rewrite Z.mod_small. Qed.
End Integers.

(** * Tactics *)

(** Inverts hypotheses that say a chain of binds, guards and matches returned. *)
Ltac inv_ok_step :=
  match goal with
  | H : Ok _ = Ok _ |- _ => injection H as H; try subst
  | H : Ok _ = Err _ |- _ => discriminate H
  | H : Err _ = Ok _ |- _ => discriminate H
  | H : Some _ = Some _ |- _ => injection H as H; try subst
  | H : None = Some _ |- _ => discriminate H
  | H : Some _ = None |- _ => discriminate H
  | H : (_, _) = (_, _) |- _ => injection H as H; try subst
  | H : mbind _ _ = Ok _ |- _ =>
      let x := fresh "x" in let Hx := fresh "Hx" in
      apply bind_ok in H as (x & Hx & H)
  | H : guard_err _ _ = Ok _ |- _ => apply guard_err_ok in H
  end.
Ltac inv_ok := repeat (inv_ok_step; simpl in *).

(** Runs the binds of the goal whose steps are known to return. *)
Ltac run_ok :=
  repeat match goal with
  | H : ?m = Ok _ |- context [mbind _ ?m] => rewrite H; cbn [mbind result_mbind]
  end.

(** Splits every [match]/[if] of the goal, keeping the equations. *)
Ltac split_matches := repeat (case_match; simplify_eq/=; try done).

(** Turns boolean tests of the hypotheses into propositions. *)
Ltac bool_props :=
  repeat match goal with
  | H : _ && _ = true |- _ => apply andb_true_iff in H as [? ?]
  | H : _ || _ = false |- _ => apply orb_false_iff in H as [? ?]
  | H : negb _ = true |- _ => apply negb_true_iff in H
  | H : negb _ = false |- _ => apply negb_false_iff in H
  | H : bool_decide _ = true |- _ => apply bool_decide_eq_true in H
  | H : bool_decide _ = false |- _ => apply bool_decide_eq_false in H
  | H : (_ =? _)%Z = true |- _ => apply Z.eqb_eq in H
  | H : (_ =? _)%Z = false |- _ => apply Z.eqb_neq in H
  | H : (_ <=? _)%Z = true |- _ => apply Z.leb_le in H
  | H : (_ <=? _)%Z = false |- _ => apply Z.leb_gt in H
  | H : (_ <? _)%Z = true |- _ => apply Z.ltb_lt in H
  | H : (_ <? _)%Z = false |- _ => apply Z.ltb_ge in H
  | H : (?x >? ?y)%Z = _ |- _ => rewrite Z.gtb_ltb in H
  | H : (?x >=? ?y)%Z = _ |- _ => rewrite Z.geb_leb in H
  end.

Create HintDb compat discriminated.
#[export] Hint Rewrite @lookup_insert_eq @lookup_delete_eq : compat.
