(* ===== verification/LifecycleStore.v ===== *)
(** The lifecycle store of one orchestrator, [pkg/lifecycle/store.go].

    The SQLite tables are finite maps from their primary keys; each operation
    executes the code's SQL statements on them.  The database is in memory and
    its statements are taken to succeed: driver failures are not modelled.
    [time.Now().UTC().Format(...)] is the argument [now]. *)
From Stdlib Require Import ZArith Lia.
From stdpp Require Import base option list strings gmap fin_maps sorting.
From S2P Require Import Prelude.
Local Open Scope Z_scope.

Module Store.

(** ** Data *)

Record InstalledPackage := mkInstalledPackage {
  pkg_PackageID : string;
  pkg_Label : string;
  pkg_Type : string;
  pkg_Address : string;
  pkg_InstalledByMSP : string;
  pkg_InstalledAt : string;
  pkg_MetadataJSON : bytes;
  pkg_ConnectionJSON : bytes;
  pkg_PackageTGZ : bytes }.

Record ChaincodeDefinition := mkDefinition {
  Name : string;
  Version : string;
  Sequence : Z;
  InitRequired : bool }.

#[export] Instance ChaincodeDefinition_eq_dec : EqDecision ChaincodeDefinition.
Proof. solve_decision. Defined.

Record ApprovedDefinition := mkApproved {
  app_Definition : ChaincodeDefinition;
  app_PackageID : string;
  app_ApprovingMSP : string;
  app_ApprovedAt : string;
  app_PackageAddress : string }.

Record CommittedDefinition := mkCommitted {
  com_Definition : ChaincodeDefinition;
  com_CommittedAt : string;
  com_Initialized : bool }.

Record ResolvedChaincodeConnection := mkConnection {
  conn_MSPID : string;
  conn_Name : string;
  conn_Version : string;
  conn_Sequence : Z;
  conn_Address : string;
  conn_TLSMode : string;
  conn_PackageID : string;
  conn_CachedAt : string }.

(** Rows, without the columns of the primary key. *)
Record approved_row := mkApprovedRow {
  apr_version : string;
  apr_package_id : string;
  apr_init_required : Z;
  apr_approved_at : string }.

Record committed_row := mkCommittedRow {
  cmr_version : string;
  cmr_sequence : Z;
  cmr_init_required : Z;
  cmr_initialized : Z;
  cmr_committed_at : string }.

Record resolved_row := mkResolvedRow {
  rsr_version : string;
  rsr_address : string;
  rsr_tls_mode : string;
  rsr_package_id : string;
  rsr_cached_at : string }.

(** [Store] with the four tables of [init]. *)
Record Store := mkStore {
  channelID : string;
  installed_packages : gmap string InstalledPackage;
  approved_definitions : gmap (string * Z * string) approved_row;
  committed_definitions : gmap string committed_row;
  resolved_connections : gmap (string * string * Z) resolved_row }.

Definition set_installed (f : gmap string InstalledPackage → gmap string InstalledPackage)
    (s : Store) : Store :=
  mkStore (channelID s) (f (installed_packages s)) (approved_definitions s)
    (committed_definitions s) (resolved_connections s).

Definition set_approved
    (f : gmap (string * Z * string) approved_row → gmap (string * Z * string) approved_row)
    (s : Store) : Store :=
  mkStore (channelID s) (installed_packages s) (f (approved_definitions s))
    (committed_definitions s) (resolved_connections s).

Definition set_committed (f : gmap string committed_row → gmap string committed_row)
    (s : Store) : Store :=
  mkStore (channelID s) (installed_packages s) (approved_definitions s)
    (f (committed_definitions s)) (resolved_connections s).

Definition set_resolved
    (f : gmap (string * string * Z) resolved_row → gmap (string * string * Z) resolved_row)
    (s : Store) : Store :=
  mkStore (channelID s) (installed_packages s) (approved_definitions s)
    (committed_definitions s) (f (resolved_connections s)).

Definition NewMemoryStore (channel : string) : result Store :=
  if bool_decide (channel = "") then Err (ENew "channel ID is required")
  else Ok (mkStore channel ∅ ∅ ∅ ∅).

(** ** Pure helpers *)

Definition boolInt (value : bool) : Z := if value then 1 else 0.

Definition validateDefinition (def : ChaincodeDefinition) : result () :=
  guard_err (bool_decide (Name def = "")) (ENew "chaincode name is required");;
  guard_err (bool_decide (Version def = "")) (ENew "version is required");;
  guard_err (Sequence def <=? 0) (ENew "sequence must be greater than zero").

Definition definitionMatches (left right : ChaincodeDefinition) : bool :=
  bool_decide (Name left = Name right) &&
  bool_decide (Version left = Version right) &&
  (Sequence left =? Sequence right) &&
  eqb (InitRequired left) (InitRequired right).

Definition approvalMatches (approval : ApprovedDefinition) (def : ChaincodeDefinition)
    (packageID : string) : bool :=
  bool_decide (app_PackageID approval = packageID) &&
  definitionMatches (app_Definition approval) def.

Definition ValidateNextSequence (current : option ChaincodeDefinition)
    (next : ChaincodeDefinition) : result () :=
  validateDefinition next;;
  match current with
  | None =>
      guard_err (negb (Sequence next =? 1))
        (ENew "initial sequence for chaincode=%s must be 1; requested sequence=%d")
  | Some current =>
      guard_err (negb (bool_decide (Name current = Name next)))
        (ENew "chaincode name cannot change within a definition revision");;
      let expected := int64_wrap (Sequence current + 1) in
      guard_err (negb (Sequence next =? expected))
        (ENew "next sequence for chaincode=%s must be %d; active sequence=%d requested sequence=%d")
  end.

Definition scanApproval (name : string) (sequence : Z) (msp : string) (row : approved_row)
    (address : string) : ApprovedDefinition :=
  mkApproved
    (mkDefinition name (apr_version row) sequence (negb (apr_init_required row =? 0)))
    (apr_package_id row) msp (apr_approved_at row) address.

Definition scanCommitted (name : string) (row : committed_row) : CommittedDefinition :=
  mkCommitted
    (mkDefinition name (cmr_version row) (cmr_sequence row)
       (negb (cmr_init_required row =? 0)))
    (cmr_committed_at row) (negb (cmr_initialized row =? 0)).

Definition scanResolvedConnection (msp name : string) (sequence : Z) (row : resolved_row)
    : ResolvedChaincodeConnection :=
  mkConnection msp name (rsr_version row) sequence (rsr_address row)
    (rsr_tls_mode row) (rsr_package_id row) (rsr_cached_at row).

(** SQLite's default BINARY collation on two text columns. *)
Definition order_by2 (a b : string * string) : Prop :=
  (if String.eqb a.1 b.1 then String.leb a.2 b.2 else String.leb a.1 b.1) = true.

#[export] Instance order_by2_dec a b : Decision (order_by2 a b).
Proof. unfold order_by2. apply _. Defined.

(** ** Installed packages *)

Definition Install (now : string) (s : Store) (pkg : InstalledPackage) : Store * result () :=
  if bool_decide (pkg_PackageID pkg = "") then (s, Err (ENew "package id is required"))
  else
    let pkg :=
      if bool_decide (pkg_InstalledAt pkg = "")
      then mkInstalledPackage (pkg_PackageID pkg) (pkg_Label pkg) (pkg_Type pkg)
             (pkg_Address pkg) (pkg_InstalledByMSP pkg) now (pkg_MetadataJSON pkg)
             (pkg_ConnectionJSON pkg) (pkg_PackageTGZ pkg)
      else pkg in
    (set_installed <[pkg_PackageID pkg := pkg]> s, Ok ()).

Definition GetInstalled (s : Store) (packageID : string) : result (option InstalledPackage) :=
  if bool_decide (packageID = "") then Err (ENew "package id is required")
  else Ok (installed_packages s !! packageID).

Definition by_label_id (a b : InstalledPackage) : Prop :=
  order_by2 (pkg_Label a, pkg_PackageID a) (pkg_Label b, pkg_PackageID b).

#[export] Instance by_label_id_dec a b : Decision (by_label_id a b).
Proof. unfold by_label_id. apply _. Defined.

Definition ListInstalled (s : Store) : list InstalledPackage :=
  merge_sort by_label_id (map_to_list (installed_packages s)).*2.

(** ** Committed definitions: lookups *)

Definition GetCommitted (s : Store) (name : string) : result (option CommittedDefinition) :=
  if bool_decide (name = "") then Err (ENew "chaincode name is required")
  else Ok (scanCommitted name <$> committed_definitions s !! name).

Definition validateNextSequence (s : Store) (def : ChaincodeDefinition) : result () :=
  existing ← GetCommitted s (Name def);
  ValidateNextSequence (com_Definition <$> existing) def.

Definition by_name_version (a b : CommittedDefinition) : Prop :=
  order_by2 (Name (com_Definition a), Version (com_Definition a))
            (Name (com_Definition b), Version (com_Definition b)).

#[export] Instance by_name_version_dec a b : Decision (by_name_version a b).
Proof. unfold by_name_version. apply _. Defined.

(** The optional [WHERE] clause: an empty filter selects every row. *)
Definition filter_matches (wanted actual : string) : bool :=
  bool_decide (wanted = "") || bool_decide (actual = wanted).

Definition ListCommitted (s : Store) (name version : string) : list CommittedDefinition :=
  merge_sort by_name_version
    (filter (fun c => filter_matches name (Name (com_Definition c)) = true ∧
                      filter_matches version (Version (com_Definition c)) = true)
       ((fun kr => scanCommitted kr.1 kr.2) <$> map_to_list (committed_definitions s))).

(** ** Approvals *)

Definition GetApproval (s : Store) (def : ChaincodeDefinition) (approvingMSP : string)
    : result (option ApprovedDefinition) :=
  validateDefinition def;;
  Ok (row ← approved_definitions s !! (Name def, Sequence def, approvingMSP);
      pkg ← installed_packages s !! apr_package_id row;
      Some (scanApproval (Name def) (Sequence def) approvingMSP row (pkg_Address pkg))).

Definition HasMatchingApproval (s : Store) (def : ChaincodeDefinition) (approvingMSP : string)
    : result bool :=
  validateDefinition def;;
  approval ← GetApproval s def approvingMSP;
  Ok (match approval with
      | None => false
      | Some approval => definitionMatches (app_Definition approval) def
      end).

(** The checks of [ApproveForMyOrg], in the code's order. *)
Definition approve_checks (s : Store) (def : ChaincodeDefinition)
    (packageID approvingMSP : string) : result InstalledPackage :=
  validateDefinition def;;
  guard_err (bool_decide (packageID = "")) (ENew "package id is required");;
  guard_err (bool_decide (approvingMSP = "")) (ENew "approving MSP is required");;
  pkg ← GetInstalled s packageID;
  pkg ← match pkg with
        | Some pkg => Ok pkg
        | None => Err (ENew "package %s is not installed")
        end;
  current ← GetCommitted s (Name def);
  match current with
  | Some current =>
      if Sequence (com_Definition current) =? Sequence def
      then guard_err (negb (definitionMatches (com_Definition current) def))
             (ENew "approval does not match committed definition name=%s sequence=%d")
      else validateNextSequence s def
  | None => validateNextSequence s def
  end;;
  Ok pkg.

(** The [INSERT ... ON CONFLICT DO UPDATE] and the cache [DELETE] after it. *)
Definition write_approval (now : string) (s : Store) (def : ChaincodeDefinition)
    (packageID approvingMSP : string) : Store :=
  set_resolved (delete (approvingMSP, Name def, Sequence def))
    (set_approved <[(Name def, Sequence def, approvingMSP) :=
       mkApprovedRow (Version def) packageID (boolInt (InitRequired def)) now]> s).

Definition ApproveForMyOrg (now : string) (s : Store) (def : ChaincodeDefinition)
    (packageID approvingMSP : string) : Store * result ApprovedDefinition :=
  match (pkg ← approve_checks s def packageID approvingMSP;
         existing ← GetApproval s def approvingMSP;
         Ok (pkg, existing)) with
  | Err e => (s, Err e)
  | Ok (pkg, existing) =>
      match existing ≫= (fun a => if approvalMatches a def packageID then Some a else None) with
      | Some existing => (s, Ok existing)
      | None =>
          (write_approval now s def packageID approvingMSP,
           Ok (mkApproved def packageID approvingMSP now (pkg_Address pkg)))
      end
  end.

(** ** Committed definitions: updates *)

Definition ValidateCommitDefinition (s : Store) (def : ChaincodeDefinition)
    (localMSP : string) : result () :=
  approved ← HasMatchingApproval s def localMSP;
  guard_err (negb approved) (ENew "definition name=%s sequence=%d is not approved by %s");;
  validateNextSequence s def.

(** The row of [INSERT ... ON CONFLICT(name) DO UPDATE ... WHERE]: [None] when
    the conflict's [WHERE] clause leaves the existing row alone. *)
Definition upsert_row (existing : option committed_row) (excluded : committed_row)
    : option committed_row :=
  match existing with
  | None => Some excluded
  | Some row =>
      if (cmr_sequence excluded >? cmr_sequence row) ||
         ((cmr_sequence excluded =? cmr_sequence row) &&
          bool_decide (cmr_version excluded = cmr_version row) &&
          (cmr_init_required excluded =? cmr_init_required row))
      then Some (mkCommittedRow (cmr_version excluded) (cmr_sequence excluded)
             (cmr_init_required excluded)
             (if cmr_sequence row =? cmr_sequence excluded
              then Z.max (cmr_initialized row) (cmr_initialized excluded)
              else cmr_initialized excluded)
             (cmr_committed_at excluded))
      else None
  end.

Definition upsertCommitted (now : string) (s : Store) (committed : CommittedDefinition)
    : Store * result CommittedDefinition :=
  let def := com_Definition committed in
  match validateDefinition def with
  | Err e => (s, Err e)
  | Ok _ =>
      let at_ := if bool_decide (com_CommittedAt committed = "") then now
                 else com_CommittedAt committed in
      let excluded := mkCommittedRow (Version def) (Sequence def)
        (boolInt (InitRequired def)) (boolInt (com_Initialized committed)) at_ in
      let s' := match upsert_row (committed_definitions s !! Name def) excluded with
                | Some row => set_committed <[Name def := row]> s
                | None => s
                end in
      (s',
       active ← GetCommitted s' (Name def);
       match active with
       | None => Ok (mkCommitted (mkDefinition "" "" 0 false) "" false)
       | Some active =>
           if (Sequence (com_Definition active) =? Sequence def) &&
              negb (definitionMatches (com_Definition active) def)
           then Err (ENew "conflicting ledger definition name=%s sequence=%d")
           else Ok active
       end)
  end.

Definition CommitDefinition (now : string) (s : Store) (def : ChaincodeDefinition)
    (localMSP : string) : Store * result CommittedDefinition :=
  match ValidateCommitDefinition s def localMSP with
  | Err e => (s, Err e)
  | Ok _ => upsertCommitted now s (mkCommitted def now (negb (InitRequired def)))
  end.

Definition UpsertCommittedFromLedger (now : string) (s : Store) (def : ChaincodeDefinition)
    (initialized : bool) : Store * result CommittedDefinition :=
  match (validateDefinition def;; GetCommitted s (Name def)) with
  | Err e => (s, Err e)
  | Ok existing =>
      let upsert := upsertCommitted now s (mkCommitted def now initialized) in
      match existing with
      | None => upsert
      | Some existing =>
          if Sequence (com_Definition existing) >? Sequence def then (s, Ok existing)
          else if Sequence (com_Definition existing) =? Sequence def then
            if negb (definitionMatches (com_Definition existing) def)
            then (s, Err (ENew "conflicting ledger definition name=%s sequence=%d"))
            else if com_Initialized existing || eqb (com_Initialized existing) initialized
            then (s, Ok existing)
            else upsert
          else upsert
      end
  end.

(** [UPDATE committed_definitions SET initialized = 1, committed_at = ? WHERE ...]. *)
Definition mark_row (now : string) (def : ChaincodeDefinition) (row : committed_row)
    : committed_row :=
  if (cmr_sequence row =? Sequence def) && bool_decide (cmr_version row = Version def) &&
     (cmr_init_required row =? 1)
  then mkCommittedRow (cmr_version row) (cmr_sequence row) (cmr_init_required row) 1 now
  else row.

Definition MarkInitialized (now : string) (s : Store) (def : ChaincodeDefinition)
    (localMSP : string) : Store * result CommittedDefinition :=
  match (validateDefinition def;;
         committed ← GetCommitted s (Name def);
         committed ← match committed with
                     | Some c => Ok c
                     | None => Err (ENew "definition name=%s version=%s is not committed")
                     end;
         guard_err (negb (definitionMatches (com_Definition committed) def))
           (ENew "committed definition does not match init definition name=%s version=%s sequence=%d");;
         guard_err (negb (InitRequired (com_Definition committed)))
           (ENew "definition name=%s version=%s does not require init");;
         Ok committed) with
  | Err e => (s, Err e)
  | Ok committed =>
      if com_Initialized committed then (s, Ok committed)
      else (set_committed (alter (mark_row now def) (Name def)) s,
            Ok (mkCommitted (com_Definition committed) now true))
  end.

(** ** Resolution *)

Definition ResolveCommittedPackage (s : Store) (name localMSP : string)
    : result (option (CommittedDefinition * InstalledPackage)) :=
  match ListCommitted s name "" with
  | [] => Ok None
  | committed :: others =>
      guard_err (bool_decide (name = "") && negb (bool_decide (others = [])))
        (ENew "%d committed definitions are active; chaincode name is required");;
      approval ← GetApproval s (com_Definition committed) localMSP;
      match approval with
      | Some approval =>
          guard_err (negb (definitionMatches (app_Definition approval) (com_Definition committed)))
            (ENew "local MSP %s has no package approval for committed definition name=%s sequence=%d");;
          pkg ← GetInstalled s (app_PackageID approval);
          match pkg with
          | None => Err (ENew "approved package %s is no longer installed")
          | Some pkg => Ok (Some (committed, pkg))
          end
      | None =>
          Err (ENew "local MSP %s has no package approval for committed definition name=%s sequence=%d")
      end
  end.

Definition GetResolvedConnection (s : Store) (mspID : string) (def : ChaincodeDefinition)
    : result (option ResolvedChaincodeConnection) :=
  guard_err (bool_decide (mspID = "")) (ENew "MSP ID is required");;
  validateDefinition def;;
  Ok (row ← resolved_connections s !! (mspID, Name def, Sequence def);
      if bool_decide (rsr_version row = Version def)
      then Some (scanResolvedConnection mspID (Name def) (Sequence def) row) else None).

Definition PutResolvedConnection (now : string) (s : Store) (conn : ResolvedChaincodeConnection)
    : Store * result ResolvedChaincodeConnection :=
  match (guard_err (bool_decide (conn_MSPID conn = "")) (ENew "MSP ID is required");;
         validateDefinition
           (mkDefinition (conn_Name conn) (conn_Version conn) (conn_Sequence conn) false);;
         guard_err (bool_decide (conn_Address conn = ""))
           (ENew "chaincode connection address is required")) with
  | Err e => (s, Err e)
  | Ok _ =>
      let tls := if bool_decide (conn_TLSMode conn = "") then "none" else conn_TLSMode conn in
      let at_ := if bool_decide (conn_CachedAt conn = "") then now else conn_CachedAt conn in
      let conn := mkConnection (conn_MSPID conn) (conn_Name conn) (conn_Version conn)
        (conn_Sequence conn) (conn_Address conn) tls (conn_PackageID conn) at_ in
      (set_resolved <[(conn_MSPID conn, conn_Name conn, conn_Sequence conn) :=
         mkResolvedRow (conn_Version conn) (conn_Address conn) (conn_TLSMode conn)
           (conn_PackageID conn) (conn_CachedAt conn)]> s,
       Ok conn)
  end.

(** ** Well-formed stores *)

Definition flag (z : Z) : Prop := z = 0 ∨ z = 1.

Definition committed_row_ok (name : string) (r : committed_row) : Prop :=
  name ≠ "" ∧ cmr_version r ≠ "" ∧ 0 < cmr_sequence r ∧
  flag (cmr_init_required r) ∧ flag (cmr_initialized r).

Definition approved_row_ok (installed : gmap string InstalledPackage)
    (key : string * Z * string) (r : approved_row) : Prop :=
  key.1.1 ≠ "" ∧ 0 < key.1.2 ∧ key.2 ≠ "" ∧ apr_version r ≠ "" ∧
  flag (apr_init_required r) ∧ is_Some (installed !! apr_package_id r).

Definition resolved_row_ok (key : string * string * Z) (r : resolved_row) : Prop :=
  key.1.1 ≠ "" ∧ key.1.2 ≠ "" ∧ 0 < key.2 ∧ rsr_version r ≠ "" ∧
  rsr_address r ≠ "" ∧ rsr_tls_mode r ≠ "".

Record store_ok (s : Store) : Prop := mkStoreOk {
  ok_installed : map_Forall (fun id p => id = pkg_PackageID p ∧ id ≠ "") (installed_packages s);
  ok_approved : map_Forall (approved_row_ok (installed_packages s)) (approved_definitions s);
  ok_committed : map_Forall committed_row_ok (committed_definitions s);
  ok_resolved : map_Forall resolved_row_ok (resolved_connections s) }.

(** One call of an operation that writes to the store. *)
Inductive step (s : Store) : Store → Prop :=
  | step_Install now pkg : step s (Install now s pkg).1
  | step_Approve now def pkg msp : step s (ApproveForMyOrg now s def pkg msp).1
  | step_Commit now def msp : step s (CommitDefinition now s def msp).1
  | step_Upsert now def init : step s (UpsertCommittedFromLedger now s def init).1
  | step_MarkInitialized now def msp : step s (MarkInitialized now s def msp).1
  | step_PutResolved now conn : step s (PutResolvedConnection now s conn).1.

Inductive reachable : Store → Prop :=
  | reachable_new channel s : NewMemoryStore channel = Ok s → reachable s
  | reachable_step s s' : reachable s → step s s' → reachable s'.

(** What the rest of the orchestrator sees of a committed row. *)
Definition committed_view (s : Store) (name : string) : option (ChaincodeDefinition * bool) :=
  (fun r => (com_Definition (scanCommitted name r), com_Initialized (scanCommitted name r)))
    <$> committed_definitions s !! name.

(** Progress of one chaincode: a later sequence, or the same definition whose
    initialization is not taken back. *)
Definition view_le (a b : option (ChaincodeDefinition * bool)) : Prop :=
  match a, b with
  | None, _ => True
  | Some _, None => False
  | Some (d, i), Some (d', i') => Sequence d < Sequence d' ∨ (d = d' ∧ (i = true → i' = true))
  end.

Definition store_le (s s' : Store) : Prop :=
  ∀ name, view_le (committed_view s name) (committed_view s' name).

(** ** Helper lemmas *)

Lemma validateDefinition_ok def u :
  validateDefinition def = Ok u ↔ Name def ≠ "" ∧ Version def ≠ "" ∧ 0 < Sequence def.
Proof.
  unfold validateDefinition. destruct u. split.
  - intros H. inv_ok. bool_props. split_and!; first [done | lia].
  - intros (H1 & H2 & H3). rewrite !bool_decide_eq_false_2 by done.
    by replace (Sequence def <=? 0) with false by lia.
Qed.

Lemma definitionMatches_eq d d' : definitionMatches d d' = true ↔ d = d'.
Proof.
  unfold definitionMatches. rewrite !andb_true_iff, !bool_decide_eq_true, Z.eqb_eq, eqb_true_iff.
  destruct d, d'; naive_solver.
Qed.

Lemma definitionMatches_neq d d' : definitionMatches d d' = false ↔ d ≠ d'.
Proof. rewrite <- not_true_iff_false, definitionMatches_eq. done. Qed.

Lemma boolInt_flag b : flag (boolInt b).
Proof. destruct b; [by right | by left]. Qed.

Lemma boolInt_scan b : negb (boolInt b =? 0) = b.
Proof. by destruct b. Qed.

Lemma flag_scan_inj z z' : flag z → flag z' → negb (z =? 0) = negb (z' =? 0) → z = z'.
Proof. by intros [->| ->] [->| ->]. Qed.

Lemma flag_max z z' : flag z → flag z' → flag (Z.max z z').
Proof. unfold flag. lia. Qed.

Lemma view_le_refl a : view_le a a.
Proof. destruct a as [[d i]|]; simpl; auto. Qed.

Lemma view_le_trans a b c : view_le a b → view_le b c → view_le a c.
Proof.
  destruct a as [[d i]|], b as [[d' i']|], c as [[d'' i'']|]; simpl; try done.
  intros [?|[-> ?]] [?|[-> ?]]; auto; left; lia.
Qed.

#[export] Instance store_le_preorder : PreOrder store_le.
Proof.
  split.
  - intros s name. apply view_le_refl.
  - intros s1 s2 s3 H1 H2 name. eapply view_le_trans; eauto.
Qed.

#[export] Hint Resolve boolInt_flag flag_max view_le_refl : compat.

Lemma store_le_same s s' : committed_definitions s = committed_definitions s' → store_le s s'.
Proof. intros E name. unfold committed_view. rewrite E. apply view_le_refl. Qed.

Lemma store_le_insert s name row :
  view_le (committed_view s name)
    (Some (com_Definition (scanCommitted name row), com_Initialized (scanCommitted name row))) →
  store_le s (set_committed <[name := row]> s).
Proof.
  intros H n. unfold committed_view at 2. simpl.
  destruct (decide (n = name)) as [->|].
  - by rewrite lookup_insert_eq.
  - rewrite lookup_insert_ne by done. apply view_le_refl.
Qed.

Lemma set_committed_ok s f :
  store_ok s → map_Forall committed_row_ok (f (committed_definitions s)) →
  store_ok (set_committed f s).
Proof. intros [] ?. by constructor. Qed.

Lemma upsert_row_ok name existing excluded row :
  (∀ r, existing = Some r → committed_row_ok name r) → committed_row_ok name excluded →
  upsert_row existing excluded = Some row → committed_row_ok name row.
Proof.
  unfold upsert_row, committed_row_ok. intros He (? & ? & ? & ? & ?).
  destruct existing as [r|]; [|naive_solver].
  destruct (He r eq_refl) as (? & ? & ? & ? & ?).
  case_match; [|done]. intros [= <-]. simpl. split_and!; try done.
  case_match; auto with compat.
Qed.

Lemma upsert_row_le name existing excluded row :
  (∀ r, existing = Some r → committed_row_ok name r) → committed_row_ok name excluded →
  upsert_row existing excluded = Some row →
  view_le ((fun r => (com_Definition (scanCommitted name r), com_Initialized (scanCommitted name r)))
             <$> existing)
    (Some (com_Definition (scanCommitted name row), com_Initialized (scanCommitted name row))).
Proof.
  unfold upsert_row. intros He (? & ? & ? & ? & Hi).
  destruct existing as [r|]; [|done]. destruct (He r eq_refl) as (? & ? & ? & ? & Hr).
  case_match eqn:E; [|done]. intros [= <-]. simpl.
  apply orb_true_iff in E as [E|E]; bool_props; [left; simpl; lia|].
  right. destruct (cmr_sequence r =? cmr_sequence excluded) eqn:E2; bool_props; [|lia].
  split; [congruence|]. simpl. rewrite !negb_true_iff, !Z.eqb_neq. unfold flag in *. lia.
Qed.

Lemma upsertCommitted_step now s c :
  store_ok s → store_ok (upsertCommitted now s c).1 ∧ store_le s (upsertCommitted now s c).1.
Proof.
  intros Hs. unfold upsertCommitted.
  destruct (validateDefinition _) as [u|] eqn:Hv; [|done].
  apply validateDefinition_ok in Hv as (? & ? & ?).
  set (excluded := mkCommittedRow _ _ _ _ _). simpl.
  assert (Hx : committed_row_ok (Name (com_Definition c)) excluded).
  { unfold committed_row_ok; simpl; auto with compat. }
  assert (He : ∀ r, committed_definitions s !! Name (com_Definition c) = Some r →
                committed_row_ok (Name (com_Definition c)) r).
  { intros r Hr. exact (ok_committed s Hs _ _ Hr). }
  destruct (upsert_row _ excluded) as [row|] eqn:Hu; [|done]. split.
  - apply set_committed_ok; [done|]. apply map_Forall_insert_2; [|apply Hs].
    eapply upsert_row_ok; eauto.
  - apply store_le_insert. eapply upsert_row_le; eauto.
Qed.

Lemma mark_row_ok now def name row : committed_row_ok name row → committed_row_ok name (mark_row now def row).
Proof.
  unfold mark_row, committed_row_ok. intros (? & ? & ? & ? & ?).
  case_match; simpl; split_and!; auto. by right.
Qed.

Lemma mark_row_le now def name row :
  view_le (Some (com_Definition (scanCommitted name row), com_Initialized (scanCommitted name row)))
    (Some (com_Definition (scanCommitted name (mark_row now def row)),
           com_Initialized (scanCommitted name (mark_row now def row)))).
Proof. unfold mark_row. simpl. right. by case_match; simpl. Qed.

Lemma store_le_alter now def s name :
  store_le s (set_committed (alter (mark_row now def) name) s).
Proof.
  intros n. unfold committed_view. cbn [committed_definitions set_committed].
  rewrite lookup_alter. case_decide as Hn; [subst n|apply view_le_refl].
  destruct (committed_definitions s !! name) as [r|]; [|done]. apply mark_row_le.
Qed.

Lemma map_Forall_alter {K V} `{Countable K} (P : K → V → Prop) (f : V → V) (m : gmap K V) i :
  map_Forall P m → (∀ x, P i x → P i (f x)) → map_Forall P (alter f i m).
Proof.
  intros HP Hf j x Hx. apply lookup_alter_Some in Hx as [(-> & y & Hy & ->)|[? Hy]]; eauto.
Qed.

(** ** Every operation keeps the store well formed and makes progress *)

Lemma write_approval_ok now s def packageID msp pkg :
  store_ok s → validateDefinition def = Ok () → msp ≠ "" →
  installed_packages s !! packageID = Some pkg →
  store_ok (write_approval now s def packageID msp).
Proof.
  intros Hs (? & ? & ?)%validateDefinition_ok ? Hp. constructor; simpl; try apply Hs.
  - apply map_Forall_insert_2; [|apply Hs].
    unfold approved_row_ok; simpl. split_and!; eauto with compat.
  - apply map_Forall_delete, Hs.
Qed.

Lemma approve_checks_ok s def packageID msp pkg :
  approve_checks s def packageID msp = Ok pkg →
  validateDefinition def = Ok () ∧ msp ≠ "" ∧ packageID ≠ "" ∧
  installed_packages s !! packageID = Some pkg.
Proof.
  unfold approve_checks, GetInstalled. intros H. inv_ok. bool_props.
  rewrite bool_decide_eq_false_2 in * by done. inv_ok.
  destruct (validateDefinition def) as [[]|]; inv_ok.
  destruct (installed_packages s !! packageID) eqn:E; inv_ok. done.
Qed.

Lemma Install_step now s pkg :
  store_ok s → store_ok (Install now s pkg).1 ∧ store_le s (Install now s pkg).1.
Proof.
  intros Hs. unfold Install. case_bool_decide as E; [done|].
  set (p := if bool_decide _ then _ else _).
  assert (Hp : pkg_PackageID p = pkg_PackageID pkg) by (unfold p; by case_bool_decide).
  split; [|by apply store_le_same]. constructor; simpl; try apply Hs.
  - apply map_Forall_insert_2; [|apply Hs]. by rewrite Hp.
  - intros k r Hr. destruct (ok_approved s Hs k r Hr) as (? & ? & ? & ? & ? & Hi).
    unfold approved_row_ok. split_and!; try done. apply lookup_insert_is_Some'. by right.
Qed.

Lemma Approve_step now s def packageID msp :
  store_ok s → store_ok (ApproveForMyOrg now s def packageID msp).1 ∧
               store_le s (ApproveForMyOrg now s def packageID msp).1.
Proof.
  intros Hs. unfold ApproveForMyOrg.
  destruct (approve_checks s def packageID msp) as [pkg|] eqn:Hc; [|done].
  apply approve_checks_ok in Hc as (? & ? & ? & ?).
  destruct (GetApproval s def msp) as [existing|]; [|done]. simpl.
  destruct (existing ≫= _); [done|].
  split; [by eapply write_approval_ok | by apply store_le_same].
Qed.

Lemma Commit_step now s def msp :
  store_ok s → store_ok (CommitDefinition now s def msp).1 ∧
               store_le s (CommitDefinition now s def msp).1.
Proof.
  intros Hs. unfold CommitDefinition.
  destruct (ValidateCommitDefinition s def msp); [by apply upsertCommitted_step | done].
Qed.

Lemma Upsert_step now s def init :
  store_ok s → store_ok (UpsertCommittedFromLedger now s def init).1 ∧
               store_le s (UpsertCommittedFromLedger now s def init).1.
Proof.
  intros Hs. unfold UpsertCommittedFromLedger.
  destruct (validateDefinition def;; _) as [[c|]|]; try done; [|by apply upsertCommitted_step].
  repeat case_match; try done; by apply upsertCommitted_step.
Qed.

Lemma MarkInitialized_step now s def msp :
  store_ok s → store_ok (MarkInitialized now s def msp).1 ∧
               store_le s (MarkInitialized now s def msp).1.
Proof.
  intros Hs. unfold MarkInitialized. case_match; [|done]. case_match; [done|].
  split; [|apply store_le_alter]. apply set_committed_ok; [done|].
  apply map_Forall_alter; [apply Hs|]. apply mark_row_ok.
Qed.

Lemma PutResolved_step now s conn :
  store_ok s → store_ok (PutResolvedConnection now s conn).1 ∧
               store_le s (PutResolvedConnection now s conn).1.
Proof.
  intros Hs. unfold PutResolvedConnection. case_match eqn:E; [|done]. inv_ok. bool_props.
  apply validateDefinition_ok in Hx0 as (? & ? & ?).
  split; [|by apply store_le_same]. constructor; simpl; try apply Hs.
  apply map_Forall_insert_2; [|apply Hs].
  unfold resolved_row_ok; simpl. split_and!; try done. by case_bool_decide.
Qed.

Lemma step_inv s s' : store_ok s → step s s' → store_ok s' ∧ store_le s s'.
Proof.
  intros Hs []; auto using Install_step, Approve_step, Commit_step, Upsert_step,
    MarkInitialized_step, PutResolved_step.
Qed.

Lemma new_store_ok channel s : NewMemoryStore channel = Ok s → store_ok s.
Proof.
  unfold NewMemoryStore. case_bool_decide; [done|]. intros [= <-].
  constructor; apply map_Forall_empty.
Qed.

Lemma reachable_store_ok s : reachable s → store_ok s.
Proof. induction 1; eauto using new_store_ok. by eapply step_inv. Qed.

#[export] Hint Resolve reachable_store_ok : compat.

(** ** Lookups in terms of the view *)

Lemma GetCommitted_view s name :
  name ≠ "" →
  GetCommitted s name = Ok (scanCommitted name <$> committed_definitions s !! name).
Proof. intros. unfold GetCommitted. by rewrite bool_decide_eq_false_2. Qed.

Lemma scanCommitted_view name r c :
  c = scanCommitted name r →
  (com_Definition c, com_Initialized c) =
  (com_Definition (scanCommitted name r), com_Initialized (scanCommitted name r)).
Proof. by intros ->. Qed.

Lemma committed_view_insert s name row n :
  committed_view (set_committed <[name := row]> s) n =
  if decide (n = name)
  then Some (com_Definition (scanCommitted name row), com_Initialized (scanCommitted name row))
  else committed_view s n.
Proof.
  unfold committed_view. simpl. case_decide as E; [subst n; by rewrite lookup_insert_eq|].
  by rewrite lookup_insert_ne.
Qed.

Lemma committed_view_def s name d i :
  store_ok s → committed_view s name = Some (d, i) →
  Name d = name ∧ validateDefinition d = Ok ().
Proof.
  intros Hs. unfold committed_view.
  destruct (committed_definitions s !! name) as [r|] eqn:E; simpl; [|done].
  intros [= <- <-]. destruct (ok_committed s Hs _ _ E) as (? & ? & ? & ? & ?).
  split; [done|]. by apply validateDefinition_ok.
Qed.

(** The written row when [def] advances the chaincode or repeats its definition. *)
Lemma upsertCommitted_spec now s def at_ init :
  store_ok s → validateDefinition def = Ok () → at_ ≠ "" →
  match committed_view s (Name def) with
  | None => True
  | Some (d, _) => Sequence d < Sequence def ∨ d = def
  end →
  ∃ row,
    upsertCommitted now s (mkCommitted def at_ init) =
      (set_committed <[Name def := row]> s, Ok (scanCommitted (Name def) row)) ∧
    com_Definition (scanCommitted (Name def) row) = def ∧
    com_CommittedAt (scanCommitted (Name def) row) = at_ ∧
    com_Initialized (scanCommitted (Name def) row) =
      match committed_view s (Name def) with
      | Some (d, i) => if decide (d = def) then i || init else init
      | None => init
      end.
Proof.
  intros Hs Hv Hat Hcase. unfold upsertCommitted. simpl. rewrite Hv.
  apply validateDefinition_ok in Hv as (Hn & Hver & Hseq).
  rewrite (bool_decide_eq_false_2 (at_ = "")) by done.
  set (x := mkCommittedRow _ _ _ _ _).
  assert (Hx : com_Definition (scanCommitted (Name def) x) = def).
  { unfold scanCommitted; simpl. rewrite boolInt_scan. by destruct def. }
  assert (Hu : ∃ row, upsert_row (committed_definitions s !! Name def) x = Some row ∧
     com_Definition (scanCommitted (Name def) row) = def ∧
     com_CommittedAt (scanCommitted (Name def) row) = at_ ∧
     com_Initialized (scanCommitted (Name def) row) =
      match committed_view s (Name def) with
      | Some (d, i) => if decide (d = def) then i || init else init
      | None => init
      end).
  { unfold committed_view in *.
    destruct (committed_definitions s !! Name def) as [r|] eqn:E; simpl in *.
    2:{ exists x. simpl. split_and!; try done. apply boolInt_scan. }
    destruct (ok_committed s Hs _ _ E) as (? & ? & ? & Hi & Hj).
    destruct Hcase as [Hlt|Heq].
    - rewrite (proj2 (Z.gtb_gt (Sequence def) (cmr_sequence r))) by lia. simpl.
      eexists. split; [done|]. simpl. split; [done|]. split; [done|].
      rewrite decide_False by (intros Heq; rewrite <- Heq in Hlt; simpl in Hlt; lia).
      replace (cmr_sequence r =? Sequence def) with false by lia. apply boolInt_scan.
    - destruct def as [n v q b]; simpl in *. 
      assert (cmr_version r = v ∧ cmr_sequence r = q ∧
              negb (cmr_init_required r =? 0) = b) as (-> & -> & Hb) by naive_solver.
      assert (cmr_init_required r = boolInt b) as ->.
      { apply flag_scan_inj; auto with compat. by rewrite boolInt_scan. }
      rewrite !Z.eqb_refl, bool_decide_eq_true_2, orb_true_r by done.
      eexists. split; [done|]. simpl. split; [done|]. split; [done|].
      rewrite decide_True by (by rewrite boolInt_scan).
      destruct Hj as [-> | ->], init; done. }
  destruct Hu as (row & Hu & Hd & Hc & Hi). rewrite Hu. exists row. split; [|done].
  rewrite GetCommitted_view by done. simpl. rewrite lookup_insert_eq.
  cbn [fmap option_fmap option_map mbind result_mbind].
  rewrite Hd, (proj2 (definitionMatches_eq def def)) by done. simpl.
  by rewrite andb_false_r.
Qed.

(** ** Hydration from ledger records *)

(** Applying ledger records in order, as startup synchronization does. *)
Definition hydrate (s : Store) (l : list (string * ChaincodeDefinition * bool)) : Store :=
  foldl (fun s x => (UpsertCommittedFromLedger x.1.1 s x.1.2 x.2).1) s l.

Definition record_of (x : string * ChaincodeDefinition * bool) : ChaincodeDefinition * bool :=
  (x.1.2, x.2).

(** Records the ledger can hold: valid, stamped, and with one definition for
    each name and sequence. *)
Definition ledger_records_ok (l : list (string * ChaincodeDefinition * bool)) : Prop :=
  (∀ x, x ∈ l → x.1.1 ≠ "" ∧ validateDefinition x.1.2 = Ok ()) ∧
  (∀ x y, x ∈ l → y ∈ l → Name x.1.2 = Name y.1.2 → Sequence x.1.2 = Sequence y.1.2 →
     x.1.2 = y.1.2).

(** The active definition of [name] among the records: the greatest sequence,
    initialized when some record of that definition is. *)
Definition active_of (l : list (string * ChaincodeDefinition * bool)) (name : string)
    (v : option (ChaincodeDefinition * bool)) : Prop :=
  match v with
  | None => ∀ x, x ∈ l → Name x.1.2 ≠ name
  | Some (d, i) =>
      Name d = name ∧ (∃ j, (d, j) ∈ record_of <$> l) ∧
      (∀ x, x ∈ l → Name x.1.2 = name → Sequence x.1.2 ≤ Sequence d) ∧
      (i = true ↔ (d, true) ∈ record_of <$> l)
  end.

(** One upsert joins the record into the view of its name. *)
Definition join_view (v : option (ChaincodeDefinition * bool)) (def : ChaincodeDefinition)
    (init : bool) : ChaincodeDefinition * bool :=
  match v with
  | None => (def, init)
  | Some (d, i) =>
      if Sequence d >? Sequence def then (d, i)
      else if Sequence d =? Sequence def then (d, i || init) else (def, init)
  end.

Lemma upsert_join now s def init :
  store_ok s → now ≠ "" → validateDefinition def = Ok () →
  (∀ d i, committed_view s (Name def) = Some (d, i) → Sequence d = Sequence def → d = def) →
  ∀ name, committed_view (UpsertCommittedFromLedger now s def init).1 name =
    if decide (name = Name def)
    then Some (join_view (committed_view s (Name def)) def init)
    else committed_view s name.
Proof.
  intros Hs Hnow Hv Hc name. unfold UpsertCommittedFromLedger. rewrite Hv. simpl.
  pose proof (proj1 (validateDefinition_ok _ _) Hv) as (Hn & _ & _).
  rewrite GetCommitted_view by done.
  assert (Hup : match committed_view s (Name def) with
                | None => True | Some (d, _) => Sequence d < Sequence def ∨ d = def end →
    committed_view (upsertCommitted now s (mkCommitted def now init)).1 name =
    if decide (name = Name def)
    then Some (def, match committed_view s (Name def) with
                    | Some (d, i) => if decide (d = def) then i || init else init
                    | None => init end)
    else committed_view s name).
  { intros H. destruct (upsertCommitted_spec now s def now init Hs Hv Hnow H)
      as (row & -> & Hd & _ & Hi). simpl fst.
    rewrite committed_view_insert. case_decide; [|done]. by rewrite Hd, Hi. }
  pose proof (eq_refl : committed_view s (Name def) =
    (fun r => (com_Definition (scanCommitted (Name def) r),
               com_Initialized (scanCommitted (Name def) r)))
      <$> committed_definitions s !! Name def) as Hview.
  destruct (committed_definitions s !! Name def) as [r|] eqn:E;
    cbn [fmap option_fmap option_map] in *; rewrite Hview in Hup, Hc |- *; [|by apply Hup].
  cbn [join_view]. simpl in Hup, Hc |- *.
  assert (Hsame : (if decide (name = Name def)
     then Some (com_Definition (scanCommitted (Name def) r),
                com_Initialized (scanCommitted (Name def) r))
     else committed_view s name) = committed_view s name).
  { case_decide; [by subst|done]. }
  destruct (cmr_sequence r >? Sequence def) eqn:E1; [exact (eq_sym Hsame)|].
  destruct (cmr_sequence r =? Sequence def) eqn:E2; bool_props.
  - specialize (Hc _ _ eq_refl E2).
    rewrite (proj2 (definitionMatches_eq _ _)) by exact Hc. simpl.
    destruct (negb (cmr_initialized r =? 0) || eqb _ _) eqn:E3; simpl.
    + etrans; [exact (eq_sym Hsame)|]. simpl. case_decide; [|done].
      f_equal. f_equal. destruct (negb (cmr_initialized r =? 0)), init; done.
    + rewrite Hup by (by right). case_decide; [|done]. rewrite decide_True by done.
      unfold scanCommitted in Hc. simpl in Hc. congruence.
  - rewrite Hup by (left; lia). case_decide; [|done].
    rewrite decide_False; [done|]. intros Heq.
    apply (f_equal Sequence) in Heq. simpl in Heq. lia.
Qed.

Lemma hydrate_app s l1 l2 : hydrate s (l1 ++ l2) = hydrate (hydrate s l1) l2.
Proof. unfold hydrate. by rewrite foldl_app. Qed.

Lemma hydrate_ok s l : store_ok s → store_ok (hydrate s l).
Proof.
  revert s. induction l as [|x l IH]; simpl; [done|]. intros s Hs.
  apply IH, Upsert_step, Hs.
Qed.

Lemma elem_record_of (l : list (string * ChaincodeDefinition * bool)) d i : (d, i) ∈ record_of <$> l ↔ ∃ now, (now, d, i) ∈ l.
Proof.
  rewrite list_elem_of_fmap. split.
  - intros ([[now d'] i'] & [= -> ->] & ?). eauto.
  - intros [now H]. by exists (now, d, i).
Qed.

(** Adding one more record to the declarative reading of the ledger. *)
Lemma active_of_snoc l now def init name v :
  active_of l name v →
  (∀ x, x ∈ l → Name x.1.2 = Name def → Sequence x.1.2 = Sequence def → x.1.2 = def) →
  active_of (l ++ [(now, def, init)]) name
    (if decide (name = Name def) then Some (join_view v def init) else v).
Proof.
  intros Hv Hc.
  assert (Hsnoc : ∀ y, y ∈ l ++ [(now, def, init)] ↔ y ∈ l ∨ y = (now, def, init)).
  { intros y. by rewrite elem_of_app, list_elem_of_singleton. }
  case_decide as E.
  2:{ destruct v as [[d i]|]; simpl in *; [|intros x [?| ->]%Hsnoc; simpl; auto].
      setoid_rewrite elem_record_of in Hv. setoid_rewrite elem_record_of.
      setoid_rewrite Hsnoc. destruct Hv as (Hn & [j [t Hj]] & Hmax & Hi).
      split_and!; [done|by exists j, t; left|intros x [?| ->]; simpl; [auto|congruence]|].
      rewrite Hi. split; [naive_solver|]. intros (? & [?|[= _ -> _]]); [eauto|congruence]. }
  subst name. destruct v as [[d i]|].
  2:{ simpl. setoid_rewrite elem_record_of. setoid_rewrite Hsnoc. simpl in Hv.
      split_and!; [done|exists init, now; by right| |].
      - intros x [Hx| ->] ?; [by apply Hv in Hx|simpl; lia].
      - split; [intros ->; eauto|]. intros (t & [Hx|[= _ ->]]); [by apply Hv in Hx|done]. }
  simpl in Hv.
  setoid_rewrite elem_record_of in Hv. destruct Hv as (Hn & [j [t Hj]] & Hmax & Hi).
  simpl join_view. destruct (Sequence d >? Sequence def) eqn:E1;
    [|destruct (Sequence d =? Sequence def) eqn:E2];
    bool_props; simpl; setoid_rewrite elem_record_of; setoid_rewrite Hsnoc.
  { split_and!; [done|by exists j, t; left| |].
    - intros x [?| ->] ?; [auto|simpl; lia].
    - rewrite Hi. split; [naive_solver|].
      intros (? & [?|[= _ -> _]]); [eauto|lia]. }
  - assert (d = def) as -> by (by apply (Hc _ Hj)).
    split_and!; [done|exists init, now; by right| |].
    + intros x [?| ->] ?; [auto|simpl; lia].
    + rewrite orb_true_iff, Hi. split; [intros [[? ?]| ->]; eauto|].
      intros (? & [?|[= _ ->]]); eauto.
  - split_and!; [done|exists init, now; by right| |].
    + intros x [Hx| ->] Hxn; [|simpl; lia]. specialize (Hmax x Hx Hxn). lia.
    + split; [intros ->; eauto|]. intros (t' & [Hx|[= _ ->]]); [|done].
      specialize (Hmax _ Hx eq_refl). simpl in Hmax. lia.
Qed.

Lemma ledger_records_ok_app l1 l2 : ledger_records_ok (l1 ++ l2) → ledger_records_ok l1.
Proof.
  intros [H1 H2]. split; [intros x Hx; apply H1; set_solver|].
  intros x y Hx Hy. apply H2; set_solver.
Qed.

Lemma hydrate_active channel s l name :
  NewMemoryStore channel = Ok s → ledger_records_ok l →
  active_of l name (committed_view (hydrate s l) name).
Proof.
  intros Hs. revert name.
  induction l as [|[[now def] init] l IH] using rev_ind; intros name Hl.
  { unfold NewMemoryStore in Hs. case_bool_decide; [done|]. injection Hs as <-.
    unfold committed_view. simpl. rewrite lookup_empty. simpl. set_solver. }
  pose proof (ledger_records_ok_app _ _ Hl) as Hl'. destruct Hl as [Hv Hcons].
  destruct (Hv (now, def, init)) as [Hnow Hd]; [set_solver|]. simpl in Hnow, Hd.
  assert (Hx : (now, def, init) ∈ l ++ [(now, def, init)]) by set_solver.
  rewrite hydrate_app. cbn [hydrate foldl fst snd].
  rewrite upsert_join; [|by apply hydrate_ok, (new_store_ok channel)|done|done|].
  - replace (if decide (name = Name def)
       then Some (join_view (committed_view (hydrate s l) (Name def)) def init)
       else committed_view (hydrate s l) name)
      with (if decide (name = Name def)
       then Some (join_view (committed_view (hydrate s l) name) def init)
       else committed_view (hydrate s l) name) by (by case_decide; subst).
    apply active_of_snoc; [by apply IH|].
    intros x Hxl Hn Hq. apply (Hcons x _ ltac:(set_solver) Hx); done.
  - intros d i Hview Hq. specialize (IH (Name def) Hl'). rewrite Hview in IH.
    destruct IH as (Hn & [j Hj] & _). apply elem_record_of in Hj as [t Hj].
    apply (Hcons (t, d, j) _ ltac:(set_solver) Hx); done.
Qed.

Lemma active_of_unique l name v v' :
  ledger_records_ok l → active_of l name v → active_of l name v' → v = v'.
Proof.
  intros [_ Hc]. unfold active_of.
  destruct v as [[d i]|], v' as [[d' i']|]; [| | |done];
    setoid_rewrite elem_record_of.
  - intros (Hn & [j [t Hj]] & Hm & Hi) (Hn' & [j' [t' Hj']] & Hm' & Hi').
    assert (d = d') as <-.
    { pose proof (Hm _ Hj' Hn'). pose proof (Hm' _ Hj Hn). simpl in *.
      apply (Hc _ _ Hj Hj'); simpl; [congruence|lia]. }
    f_equal. f_equal. destruct i, i'; naive_solver.
  - intros (Hn & [j [t Hj]] & _) H. by destruct (H _ Hj).
  - intros H (Hn & [j [t Hj]] & _). by destruct (H _ Hj).
Qed.

Lemma active_of_permutation (l l' : list (string * ChaincodeDefinition * bool)) name v : l ≡ₚ l' → active_of l name v → active_of l' name v.
Proof.
  intros HP. assert (HF : record_of <$> l ≡ₚ record_of <$> l') by by rewrite HP.
  destruct v as [[d i]|]; simpl.
  - intros (? & (j & Hj) & Hm & Hi). split; [done|].
    split; [exists j; by rewrite <- HF|]. split; [|by rewrite <- HF].
    intros x Hx. apply Hm. by rewrite HP.
  - intros H x. rewrite <- HP. apply H.
Qed.

(** ** Sorted listings *)

#[export] Instance order_by2_total : Total order_by2.
Proof.
  intros [a1 a2] [b1 b2]. unfold order_by2; simpl.
  rewrite (String.eqb_sym b1 a1). destruct (String.eqb a1 b1).
  - destruct (String.leb_total a2 b2); auto.
  - destruct (String.leb_total a1 b1); auto.
Qed.

#[export] Instance by_label_id_total : Total by_label_id.
Proof. intros a b. apply order_by2_total. Qed.

Lemma filter_matches_name name n : name ≠ "" → filter_matches name n = true ↔ n = name.
Proof.
  intros. unfold filter_matches. rewrite bool_decide_eq_false_2 by done. simpl.
  apply bool_decide_eq_true.
Qed.

(** A named listing is the one active row. *)
Lemma ListCommitted_named s name :
  name ≠ "" →
  ListCommitted s name "" =
    match committed_definitions s !! name with
    | Some r => [scanCommitted name r]
    | None => []
    end.
Proof.
  intros Hn. assert (HP : ListCommitted s name "" ≡ₚ
    match committed_definitions s !! name with
    | Some r => [scanCommitted name r] | None => [] end).
  2:{ case_match; [by apply Permutation_singleton_r|by apply Permutation_nil_r]. }
  unfold ListCommitted. rewrite merge_sort_Permutation.
  apply NoDup_Permutation.
  - apply NoDup_filter, NoDup_fmap_2_strong; [|apply NoDup_map_to_list].
    intros [k r] [k' r'] Hk Hk' [=]. simpl in *. subst k'.
    apply elem_of_map_to_list in Hk, Hk'. congruence.
  - by case_match; repeat constructor; set_solver.
  - intros c. rewrite list_elem_of_filter, list_elem_of_fmap.
    rewrite filter_matches_name by done. split.
    + intros [[Hc _] [[k r] [-> Hk]]]. apply elem_of_map_to_list in Hk.
      simpl in *. subst k. rewrite Hk. by apply list_elem_of_singleton.
    + destruct (_ !! name) as [r|] eqn:E; [|set_solver]. intros ->%list_elem_of_singleton.
      split; [done|]. exists (name, r). by rewrite elem_of_map_to_list.
Qed.

Lemma ValidateNextSequence_ok current next u :
  (∀ d, current = Some d → is_int64 (Sequence d)) → is_int64 (Sequence next) →
  ValidateNextSequence current next = Ok u ↔
  validateDefinition next = Ok () ∧
  match current with
  | None => Sequence next = 1
  | Some d => Name d = Name next ∧ Sequence next = Sequence d + 1
  end.
Proof.
  intros Hc Hn. unfold ValidateNextSequence. destruct u.
  destruct (validateDefinition next) as [[]|] eqn:Hv; simpl; [|naive_solver].
  apply validateDefinition_ok in Hv as (_ & _ & Hpos).
  destruct current as [d|]; simpl.
  - specialize (Hc d eq_refl). unfold is_int64, int64_wrap in *.
    destruct (bool_decide (Name d = Name next)) eqn:E1; simpl; bool_props; [|naive_solver].
    rewrite guard_err_ok, negb_false_iff, Z.eqb_eq.
    destruct (decide (Sequence d = 2 ^ 63 - 1)) as [E|].
    + rewrite E. vm_compute (_ - 2 ^ 63). split; [|intros (_ & _ & ?)]; lia.
    + rewrite Z.mod_small by lia.
      split; [intros Heq; split_and!; try done; lia|intros (_ & _ & ?); lia].
  - rewrite guard_err_ok, negb_false_iff, Z.eqb_eq. naive_solver.
Qed.

(** The active sequence is a value of its Go type. *)
Definition active_int64 (s : Store) (name : string) : Prop :=
  ∀ d i, committed_view s name = Some (d, i) → is_int64 (Sequence d).

Lemma validateNextSequence_ok s def u :
  store_ok s → is_int64 (Sequence def) →
  active_int64 s (Name def) →
  validateNextSequence s def = Ok u ↔
  validateDefinition def = Ok () ∧
  match committed_view s (Name def) with
  | None => Sequence def = 1
  | Some (d, _) => Sequence def = Sequence d + 1
  end.
Proof.
  intros Hs Hd Hi. unfold validateNextSequence, active_int64 in *.
  destruct (decide (Name def = "")) as [E|E].
  { unfold GetCommitted. rewrite bool_decide_eq_true_2 by done. split; [done|].
    intros [(? & _)%validateDefinition_ok _]. done. }
  rewrite GetCommitted_view by done. simpl. unfold committed_view in *.
  destruct (committed_definitions s !! Name def) as [r|]; simpl in *.
  - rewrite ValidateNextSequence_ok; simpl; [naive_solver| |done].
    intros d [= <-]. by eapply (Hi _ _ eq_refl).
  - by rewrite ValidateNextSequence_ok.
Qed.

Lemma CommitDefinition_Ok now s def msp s' c :
  store_ok s → now ≠ "" → is_int64 (Sequence def) → active_int64 s (Name def) →
  CommitDefinition now s def msp = (s', Ok c) →
  ∃ row, s' = set_committed <[Name def := row]> s ∧ c = scanCommitted (Name def) row ∧
    com_Definition c = def ∧ com_CommittedAt c = now ∧
    com_Initialized c = negb (InitRequired def).
Proof.
  intros Hs Hnow Hd Hi. unfold CommitDefinition, ValidateCommitDefinition.
  pose proof (validateNextSequence_ok s def () Hs Hd Hi) as Hnext.
  destruct (HasMatchingApproval s def msp) as [[]|]; simpl; try done.
  destruct (validateNextSequence s def) as [[]|]; simpl; [|done].
  destruct Hnext as [[Hv Hseq] _]; [done|].
  destruct (upsertCommitted_spec now s def now (negb (InitRequired def)) Hs Hv Hnow)
    as (row & -> & Hrow & Hat & Hinit).
  { destruct (committed_view s (Name def)) as [[d i]|]; [left; lia|done]. }
  intros [= <- <-]. exists row. split_and!; try done. rewrite Hinit.
  destruct (committed_view s (Name def)) as [[d i]|]; [|done].
  rewrite decide_False; [done|]. intros ->. lia.
Qed.

Lemma CommitDefinition_Err now s def msp s' e :
  store_ok s → now ≠ "" → is_int64 (Sequence def) → active_int64 s (Name def) →
  CommitDefinition now s def msp = (s', Err e) → s' = s ∧ ValidateCommitDefinition s def msp = Err e.
Proof.
  intros Hs Hnow Hd Hi. unfold CommitDefinition.
  destruct (ValidateCommitDefinition s def msp) as [[]|] eqn:Hvc; [|naive_solver].
  unfold ValidateCommitDefinition in Hvc. inv_ok.
  apply validateNextSequence_ok in Hvc as [Hv Hseq]; try done.
  destruct (upsertCommitted_spec now s def now (negb (InitRequired def)) Hs Hv Hnow)
    as (row & -> & _); [|done].
  destruct (committed_view s (Name def)) as [[d i]|]; [left; lia|done].
Qed.

Lemma GetApproval_written now s def packageID msp pkg :
  validateDefinition def = Ok () → installed_packages s !! packageID = Some pkg →
  GetApproval (write_approval now s def packageID msp) def msp =
    Ok (Some (mkApproved def packageID msp now (pkg_Address pkg))).
Proof.
  intros Hv Hp. unfold GetApproval. rewrite Hv. simpl. rewrite lookup_insert_eq. simpl.
  rewrite Hp. simpl. unfold scanApproval. simpl. rewrite boolInt_scan. by destruct def.
Qed.

(** A successful approval is the one recorded; nothing else is touched but the
    cached connection of that binding. *)
Lemma ApproveForMyOrg_Ok now s def packageID msp s' a :
  ApproveForMyOrg now s def packageID msp = (s', Ok a) →
  GetApproval s' def msp = Ok (Some a) ∧
  app_Definition a = def ∧ app_PackageID a = packageID ∧
  is_Some (installed_packages s !! packageID) ∧
  (s' = s ∨ s' = write_approval now s def packageID msp).
Proof.
  unfold ApproveForMyOrg.
  destruct (approve_checks s def packageID msp) as [pkg|] eqn:Hc; [|done].
  apply approve_checks_ok in Hc as (Hv & _ & _ & Hp). simpl.
  destruct (GetApproval s def msp) as [existing|] eqn:Ha; [|done]. simpl.
  destruct (existing ≫= _) as [a'|] eqn:Hm; intros [= <- <-].
  - destruct existing as [a|]; [|done]. simpl in Hm. case_match eqn:E; [|done].
    injection Hm as <-. unfold approvalMatches in E. bool_props.
    split_and!; eauto. by apply definitionMatches_eq.
  - split_and!; eauto. by apply GetApproval_written.
Qed.

Lemma app_PackageID_installed s def msp a :
  GetApproval s def msp = Ok (Some a) → is_Some (installed_packages s !! app_PackageID a).
Proof.
  unfold GetApproval. intros H. inv_ok.
  destruct (approved_definitions s !! _) as [row|]; [|done]. simpl in *.
  destruct (installed_packages s !! apr_package_id row) eqn:E; simplify_eq/=. by rewrite E.
Qed.

(** ** Properties *)

(** C32: From any reachable store, any sequence of lifecycle operations keeps the
    tables well formed, and for every chaincode the active definition only moves
    to a later sequence; at one sequence the definition never changes and an
    initialization is never taken back. *)
Theorem store_progress s s' :
  reachable s → rtc step s s' → store_ok s' ∧ store_le s s'.
Proof.
  intros Hs Hsteps. induction Hsteps as [s|s1 s2 s3 H12 _ IH].
  - split; [by apply reachable_store_ok|done].
  - destruct (step_inv s1 s2) as [_ Hle]; [by apply reachable_store_ok|done|].
    destruct IH as [Hok Hle']; [by eapply reachable_step|].
    split; [done|]. by etrans.
Qed.

(** C35: [CommitDefinition] succeeds exactly when the definition is valid, this
    MSP approved exactly it, and its sequence is 1 for a new chaincode or the
    successor of the active one.  It then activates the definition, uninitialized
    when it requires init; otherwise it changes nothing. *)
Theorem CommitDefinition_exact now s def msp :
  store_ok s → now ≠ "" → is_int64 (Sequence def) →
  active_int64 s (Name def) →
  let '(s', r) := CommitDefinition now s def msp in
  (is_ok r = true ↔
     validateDefinition def = Ok () ∧ HasMatchingApproval s def msp = Ok true ∧
     match committed_view s (Name def) with
     | None => Sequence def = 1
     | Some (d, _) => Sequence def = Sequence d + 1
     end) ∧
  (∀ c, r = Ok c → com_Definition c = def ∧ com_CommittedAt c = now ∧
     com_Initialized c = negb (InitRequired def) ∧
     ∀ name, committed_view s' name =
       if decide (name = Name def) then Some (def, negb (InitRequired def))
       else committed_view s name) ∧
  (∀ e, r = Err e → s' = s).
Proof.
  intros Hs Hnow Hd Hi. destruct (CommitDefinition now s def msp) as [s' [c|e]] eqn:E.
  - pose proof E as E'. unfold CommitDefinition in E'.
    destruct (ValidateCommitDefinition s def msp) as [[]|] eqn:Hv; [|done].
    unfold ValidateCommitDefinition in Hv. inv_ok. bool_props. subst.
    apply validateNextSequence_ok in Hv; [|done..]. split; [naive_solver|].
    apply CommitDefinition_Ok in E as (row & -> & -> & Hrow & Hat & Hinit); [|done..].
    split; [|done]. intros c [= <-]. split_and!; try done.
    intros name. by rewrite committed_view_insert, Hrow, Hinit.
  - apply CommitDefinition_Err in E as [-> Hv]; [|done..]. split_and!; [|done|done].
    split; [done|]. intros (H1 & H2 & H3). unfold ValidateCommitDefinition in Hv.
    rewrite H2 in Hv. simpl in Hv.
    rewrite (proj2 (validateNextSequence_ok s def () Hs Hd Hi)) in Hv; done.
Qed.

(** Startup hydration does not depend on the order of the ledger records:
    for every name the active definition is the one of greatest sequence, and it
    is initialized exactly when some record of that definition is. *)
Theorem hydrate_order_irrelevant channel s (l l' : list (string * ChaincodeDefinition * bool)) name :
  NewMemoryStore channel = Ok s → ledger_records_ok l → l ≡ₚ l' →
  active_of l name (committed_view (hydrate s l) name) ∧
  committed_view (hydrate s l') name = committed_view (hydrate s l) name.
Proof.
  intros Hs Hl HP. pose proof (hydrate_active channel s l name Hs Hl) as H. split; [done|].
  assert (Hl' : ledger_records_ok l').
  { destruct Hl as [H1 H2]. split; [intros x Hx; apply H1; by rewrite HP|].
    intros x y Hx Hy. apply H2; by rewrite HP. }
  eapply active_of_unique; [exact Hl'|by eapply hydrate_active|].
  by eapply active_of_permutation.
Qed.

(** A package that an organization approves for a definition which is then
    committed is the package that resolution returns, with that definition. *)
Theorem approve_commit_resolve now now' s def packageID msp s1 a s2 c :
  store_ok s → now' ≠ "" → is_int64 (Sequence def) → active_int64 s (Name def) →
  ApproveForMyOrg now s def packageID msp = (s1, Ok a) →
  CommitDefinition now' s1 def msp = (s2, Ok c) →
  ∃ pkg, installed_packages s !! packageID = Some pkg ∧
    com_Definition c = def ∧
    ResolveCommittedPackage s2 (Name def) msp = Ok (Some (c, pkg)).
Proof.
  intros Hs Hnow Hd Hi Ha Hc.
  pose proof (Approve_step now s def packageID msp Hs) as [Hs1 _]. rewrite Ha in Hs1.
  apply ApproveForMyOrg_Ok in Ha as (Hget & Hdef & Hpid & [pkg Hpkg] & Hs').
  assert (installed_packages s1 = installed_packages s ∧
          committed_definitions s1 = committed_definitions s) as [HI HC]
    by by destruct Hs' as [->| ->].
  assert (Hi1 : active_int64 s1 (Name def)).
  { unfold active_int64, committed_view in *. by rewrite HC. }
  apply CommitDefinition_Ok in Hc as (row & -> & -> & Hrow & _); [|done..].
  exists pkg. split_and!; try done.
  assert (Name def ≠ "" ∧ validateDefinition def = Ok ()) as [Hn Hv].
  { unfold GetApproval in Hget. destruct (validateDefinition def) as [[]|] eqn:Hv; [|done].
    by apply validateDefinition_ok in Hv as (? & _). }
  unfold ResolveCommittedPackage. rewrite ListCommitted_named by done.
  cbn [committed_definitions set_committed].
  rewrite lookup_insert_eq, (bool_decide_eq_false_2 (Name def = "")) by done.
  cbn [andb guard_err mbind result_mbind].
  rewrite Hrow. change (GetApproval _ def msp) with (GetApproval s1 def msp).
  rewrite Hget. simpl. rewrite Hdef, (proj2 (definitionMatches_eq def def)) by done. simpl.
  unfold GetInstalled. rewrite Hpid. destruct (ok_installed s Hs _ _ Hpkg) as [_ Hp0].
  rewrite bool_decide_eq_false_2 by done. simpl. by rewrite HI, Hpkg.
Qed.

(** Approving another package for a definition never changes what is active,
    the approvals of other organizations or sequences, nor any other cached
    connection.  The connection cached for that binding survives only when the
    approval already recorded is the requested one. *)
Theorem ApproveForMyOrg_isolated now s def packageID msp s' a :
  ApproveForMyOrg now s def packageID msp = (s', Ok a) →
  committed_definitions s' = committed_definitions s ∧
  installed_packages s' = installed_packages s ∧
  (∀ k, k ≠ (Name def, Sequence def, msp) →
     approved_definitions s' !! k = approved_definitions s !! k) ∧
  (∀ k, k ≠ (msp, Name def, Sequence def) →
     resolved_connections s' !! k = resolved_connections s !! k) ∧
  (GetApproval s' def msp = Ok (Some a)) ∧
  (s' = s ∧ GetApproval s def msp = Ok (Some a) ∨
   resolved_connections s' !! (msp, Name def, Sequence def) = None ∧ app_ApprovedAt a = now).
Proof.
  intros H. pose proof (ApproveForMyOrg_Ok _ _ _ _ _ _ _ H) as (Hget & _ & _ & _ & Hs').
  assert (Hlast : s' = s ∧ GetApproval s def msp = Ok (Some a) ∨
    s' = write_approval now s def packageID msp ∧ app_ApprovedAt a = now).
  { unfold ApproveForMyOrg in H. destruct (approve_checks _ _ _ _); [|done]. simpl in H.
    destruct (GetApproval s def msp) as [y|]; [|done]. simpl in H.
    destruct y as [a'|]; simpl in H; [destruct (approvalMatches a' def packageID); simpl in H|]; simplify_eq; auto. }
  split_and!; [by destruct Hs' as [->| ->]..| | | |].
  - intros k Hk. destruct Hs' as [->| ->]; [done|]. simpl. by rewrite lookup_insert_ne.
  - intros k Hk. destruct Hs' as [->| ->]; [done|]. simpl. by rewrite lookup_delete_ne.
  - done.
  - destruct Hlast as [?|[-> ?]]; [by left|right]. simpl. by rewrite lookup_delete_eq.
Qed.

(** [MarkInitialized] succeeds exactly on the active definition when it
    requires init, and makes exactly that chaincode initialized. *)
Theorem MarkInitialized_exact now s def msp :
  store_ok s →
  let '(s', r) := MarkInitialized now s def msp in
  (is_ok r = true ↔ InitRequired def = true ∧ ∃ i, committed_view s (Name def) = Some (def, i)) ∧
  (is_ok r = true → ∀ name, committed_view s' name =
     if decide (name = Name def) then Some (def, true) else committed_view s name) ∧
  (∀ c, r = Ok c → com_Definition c = def ∧ com_Initialized c = true) ∧
  (is_ok r = false → s' = s).
Proof.
  intros Hs. unfold MarkInitialized.
  destruct (validateDefinition def) as [[]|] eqn:Hv; simpl.
  2:{ split_and!; try done. split; [done|]. intros (_ & i & Hc).
      apply committed_view_def in Hc as [_ Hc]; [|done]. by rewrite Hc in Hv. }
  pose proof (proj1 (validateDefinition_ok _ _) Hv) as (Hn & _ & _).
  rewrite GetCommitted_view by done. simpl. unfold committed_view at 1.
  destruct (committed_definitions s !! Name def) as [r|] eqn:E; simpl.
  2:{ split_and!; try done. naive_solver. }
  destruct (definitionMatches _ def) eqn:Hm; cbn [negb guard_err mbind result_mbind].
  2:{ apply definitionMatches_neq in Hm. split_and!; try done. split; [done|].
      intros (_ & i & [= ? _]). done. }
  apply definitionMatches_eq in Hm. rewrite Hm. 
  assert (Hview : ∀ i, committed_view s (Name def) = Some (def, i) ↔
            i = com_Initialized (scanCommitted (Name def) r)).
  { intros i. unfold committed_view. rewrite E. simpl. rewrite Hm. naive_solver. }
  assert (Hri : negb (cmr_init_required r =? 0) = InitRequired def) by (by rewrite <- Hm).
  rewrite Hri. destruct (InitRequired def) eqn:Hreq; simpl;
    [|split_and!; try done; naive_solver].
  destruct (negb (cmr_initialized r =? 0)) eqn:Hinit.
  - simpl. split_and!; try done; [naive_solver| |naive_solver].
    intros _ name. case_decide as En; [|done]. rewrite En. apply Hview. by rewrite <- Hinit.
  - simpl. split_and!; try done; [naive_solver| |].
    + intros _ name. unfold committed_view. cbn [committed_definitions set_committed].
      rewrite lookup_alter. case_decide as En.
      * subst name. rewrite decide_True, E by done. simpl.
        destruct (ok_committed s Hs _ _ E) as (_ & _ & _ & Hf & _).
        assert (cmr_version r = Version def ∧ cmr_sequence r = Sequence def ∧
                cmr_init_required r = 1) as (Ev & Es & Ei).
        { split_and!; [by rewrite <- Hm..|]. destruct Hf as [Hf|Hf]; [|done].
          by rewrite Hf in Hri. }
        unfold mark_row. rewrite Ev, Es, Ei, Z.eqb_refl, bool_decide_eq_true_2 by done. simpl.
        destruct def; simpl in *; congruence.
      * by rewrite decide_False by congruence.
    + intros c [= <-]. done.
Qed.

(** [ListInstalled] returns every installed package once, ordered by label
    and then by package ID. *)
Theorem ListInstalled_sorted s :
  store_ok s →
  Sorted by_label_id (ListInstalled s) ∧ NoDup (pkg_PackageID <$> ListInstalled s) ∧
  ∀ p, p ∈ ListInstalled s ↔ GetInstalled s (pkg_PackageID p) = Ok (Some p).
Proof.
  intros Hs. assert (HP : ListInstalled s ≡ₚ (map_to_list (installed_packages s)).*2).
  { apply merge_sort_Permutation. }
  assert (Hkey : ∀ k p, (k, p) ∈ map_to_list (installed_packages s) → k = pkg_PackageID p ∧ k ≠ "").
  { intros k p Hk. apply elem_of_map_to_list in Hk. apply (ok_installed s Hs _ _ Hk). }
  split_and!.
  - apply Sorted_merge_sort, _.
  - rewrite HP, <- list_fmap_compose.
    rewrite (list_fmap_ext _ fst); [apply NoDup_fst_map_to_list|].
    intros i [k p] Hk%list_elem_of_lookup_2. simpl. by destruct (Hkey k p Hk).
  - intros p. rewrite HP, list_elem_of_fmap. unfold GetInstalled. split.
    + intros ([k p'] & -> & Hk). destruct (Hkey k p' Hk) as [-> ?]. simpl.
      rewrite bool_decide_eq_false_2 by done. f_equal. by apply elem_of_map_to_list in Hk.
    + case_bool_decide; [done|]. intros [= Hk]. exists (pkg_PackageID p, p).
      split; [done|]. by apply elem_of_map_to_list.
Qed.

(** ** Concrete instances *)

Definition ex_def : ChaincodeDefinition := mkDefinition "basic" "1.0" 1 true.
Definition ex_def2 : ChaincodeDefinition := mkDefinition "basic" "2.0" 2 false.
Definition ex_pkg : InstalledPackage :=
  mkInstalledPackage "basic:ab12" "basic" "ccaas" "host:9999" "Org1MSP" "" "{}" "{}" "tgz".
Definition ex_empty : Store := mkStore "mychannel" ∅ ∅ ∅ ∅.
Definition ex_installed : Store := (Install "t0" ex_empty ex_pkg).1.
Definition ex_approved : Store := (ApproveForMyOrg "t1" ex_installed ex_def "basic:ab12" "Org1MSP").1.
Definition ex_committed : Store := (CommitDefinition "t2" ex_approved ex_def "Org1MSP").1.

Lemma ex_empty_reachable : reachable ex_empty.
Proof. apply (reachable_new "mychannel"). reflexivity. Qed.

Lemma ex_installed_reachable : reachable ex_installed.
Proof. eapply reachable_step; [apply ex_empty_reachable|apply step_Install]. Qed.

Lemma ex_committed_reachable : reachable ex_committed.
Proof.
  eapply reachable_step; [|apply step_Commit].
  eapply reachable_step; [apply ex_installed_reachable|apply step_Approve].
Qed.

Lemma store_progress_witness :
  committed_view ex_committed "basic" = Some (ex_def, false) ∧
  store_ok (MarkInitialized "t3" ex_committed ex_def "Org1MSP").1 ∧
  store_le ex_empty (MarkInitialized "t3" ex_committed ex_def "Org1MSP").1.
Proof.
  split; [vm_compute; reflexivity|]. apply store_progress; [apply ex_empty_reachable|].
  eapply rtc_l; [apply (step_Install _ "t0" ex_pkg)|].
  eapply rtc_l; [apply (step_Approve _ "t1" ex_def "basic:ab12" "Org1MSP")|].
  eapply rtc_l; [apply (step_Commit _ "t2" ex_def "Org1MSP")|].
  eapply rtc_l; [apply (step_MarkInitialized _ "t3" ex_def "Org1MSP")|]. apply rtc_refl.
Defined.

Lemma CommitDefinition_exact_witness :
  let '(s', r) := CommitDefinition "t2" ex_approved ex_def "Org1MSP" in
  is_ok r = true ∧
  (∀ c, r = Ok c → com_Definition c = ex_def ∧ com_CommittedAt c = "t2" ∧
     com_Initialized c = negb (InitRequired ex_def) ∧
     ∀ name, committed_view s' name =
       if decide (name = Name ex_def) then Some (ex_def, negb (InitRequired ex_def))
       else committed_view ex_approved name).
Proof.
  assert (Hs : store_ok ex_approved).
  { apply reachable_store_ok. eapply reachable_step;
      [apply ex_installed_reachable|apply step_Approve]. }
  pose proof (CommitDefinition_exact "t2" ex_approved ex_def "Org1MSP" Hs) as H.
  destruct (CommitDefinition "t2" ex_approved ex_def "Org1MSP") as [s' r] eqn:E.
  destruct H as (_ & H & _);
    [done | unfold is_int64; simpl; lia | intros d i Hv; vm_compute in Hv; done |].
  split; [|exact H]. apply (f_equal snd) in E. simpl in E. rewrite <- E. vm_compute. reflexivity.
Defined.

Lemma approve_commit_resolve_witness :
  ∃ pkg, installed_packages ex_installed !! "basic:ab12" = Some pkg ∧
    com_Definition (mkCommitted ex_def "t2" false) = ex_def ∧
    ResolveCommittedPackage ex_committed "basic" "Org1MSP" =
      Ok (Some (mkCommitted ex_def "t2" false, pkg)).
Proof.
  refine (approve_commit_resolve "t1" "t2" ex_installed ex_def "basic:ab12" "Org1MSP"
    ex_approved (mkApproved ex_def "basic:ab12" "Org1MSP" "t1" "host:9999")
    ex_committed (mkCommitted ex_def "t2" false) _ _ _ _ _ _).
  - apply reachable_store_ok, ex_installed_reachable.
  - done.
  - unfold is_int64; simpl; lia.
  - intros d i Hv; vm_compute in Hv; done.
  - vm_compute. reflexivity.
  - vm_compute. reflexivity.
Defined.

Lemma hydrate_order_irrelevant_witness :
  let l := [("t1", ex_def, false); ("t2", ex_def2, true); ("t3", ex_def, true)] in
  active_of l "basic" (committed_view (hydrate ex_empty l) "basic") ∧
  committed_view (hydrate ex_empty (reverse l)) "basic" = committed_view (hydrate ex_empty l) "basic".
Proof.
  apply (hydrate_order_irrelevant "mychannel"); [reflexivity| |by rewrite reverse_Permutation].
  split.
  - intros x. rewrite !elem_of_cons, elem_of_nil. intros [->|[->|[->|[]]]]; split; try done;
      vm_compute; reflexivity.
  - intros x y. rewrite !elem_of_cons, !elem_of_nil.
    intros [->|[->|[->|[]]]] [->|[->|[->|[]]]]; done.
Defined.

Lemma ApproveForMyOrg_isolated_witness :
  let s' := (ApproveForMyOrg "t9" ex_committed ex_def2 "basic:ab12" "Org1MSP").1 in
  committed_definitions s' = committed_definitions ex_committed ∧
  GetApproval s' ex_def2 "Org1MSP" =
    Ok (Some (mkApproved ex_def2 "basic:ab12" "Org1MSP" "t9" "host:9999")).
Proof.
  destruct (ApproveForMyOrg_isolated "t9" ex_committed ex_def2 "basic:ab12" "Org1MSP"
    (ApproveForMyOrg "t9" ex_committed ex_def2 "basic:ab12" "Org1MSP").1
    (mkApproved ex_def2 "basic:ab12" "Org1MSP" "t9" "host:9999")) as (H1 & _ & _ & _ & H2 & _).
  - vm_compute. reflexivity.
  - split; [exact H1|exact H2].
Defined.

Lemma MarkInitialized_exact_witness :
  let '(s', r) := MarkInitialized "t3" ex_committed ex_def "Org1MSP" in
  is_ok r = true ∧ committed_view s' "basic" = Some (ex_def, true).
Proof.
  pose proof (MarkInitialized_exact "t3" ex_committed ex_def "Org1MSP"
    (reachable_store_ok _ ex_committed_reachable)) as H.
  destruct (MarkInitialized "t3" ex_committed ex_def "Org1MSP") as [s' r].
  destruct H as (Hok & Hview & _).
  assert (Hr : is_ok r = true).
  { apply Hok. split; [reflexivity|]. exists false. vm_compute. reflexivity. }
  split; [exact Hr|]. rewrite (Hview Hr "basic"). reflexivity.
Defined.

Lemma ListInstalled_sorted_witness :
  ListInstalled ex_committed = [mkInstalledPackage "basic:ab12" "basic" "ccaas" "host:9999"
    "Org1MSP" "t0" "{}" "{}" "tgz"] ∧
  NoDup (pkg_PackageID <$> ListInstalled ex_committed).
Proof.
  split; [vm_compute; reflexivity|].
  apply (ListInstalled_sorted ex_committed), reachable_store_ok, ex_committed_reachable.
Defined.

End Store.
