(* ===== verification/OrchestratorTypes.v ===== *)
(** Data shared by the orchestrator's components: the protobuf messages its code
    reads (only the fields it uses) and the invocation types of
    [pkg/orchestrator/service.go], [execution.go] and [lifecycle_binding.go]. *)
From Stdlib Require Import ZArith Lia.
From stdpp Require Import base option list strings gmap.
From S2P Require Import Prelude LifecycleStore.
Local Open Scope Z_scope.

Module Types.

(** ** Protobuf messages; a pointer field is an [option] *)

Record Response := mkResponse { Status : Z; Message : string; Payload : bytes }.

Record Endorsement := mkEndorsement { Endorser : bytes; Signature : bytes }.

Record ProposalResponse := mkProposalResponse {
  pr_Response : option Response;
  pr_Payload : bytes;
  pr_Endorsement : option Endorsement }.

Record SignedProposal := mkSignedProposal { ProposalBytes : bytes; sp_Signature : bytes }.

Record Proposal := mkProposal { Header : bytes; pp_Payload : bytes; Extension : bytes }.

(** [applicationpb.Tx]: reads carry the version they saw, absent for a new key. *)
Record TxNamespace := mkTxNamespace {
  NsId : string;
  NsVersion : Z;
  ReadsOnly : list (bytes * option Z);
  ReadWrites : list (bytes * option Z * bytes);
  BlindWrites : list (bytes * bytes) }.

Record Tx := mkTx { Namespaces : list TxNamespace; Metadata : list bytes }.

#[export] Instance Response_eq_dec : EqDecision Response.
Proof. solve_decision. Defined.
#[export] Instance Endorsement_eq_dec : EqDecision Endorsement.
Proof. solve_decision. Defined.
#[export] Instance ProposalResponse_eq_dec : EqDecision ProposalResponse.
Proof. solve_decision. Defined.
#[export] Instance SignedProposal_eq_dec : EqDecision SignedProposal.
Proof. solve_decision. Defined.

(** [sdk.Endorsement]: a proposal and the responses that endorse it. *)
Record SdkEndorsement := mkSdkEndorsement {
  end_Proposal : option Proposal;
  end_Responses : list (option ProposalResponse) }.

(** ** Invocations *)

Record ChaincodeEvent := mkChaincodeEvent {
  ev_ChaincodeID : string;
  ev_TxID : string;
  ev_EventName : string;
  ev_Payload : bytes;
  ev_PayloadBase64 : string }.

Record LifecycleExecutionBinding := mkBinding {
  b_MSPID : string;
  b_Namespace : string;
  b_ChaincodeName : string;
  b_ChaincodeVersion : string;
  b_Sequence : Z;
  b_PackageID : string;
  b_PackageAddress : string }.

Record InvocationRequest := mkRequest {
  definition : option Store.CommittedDefinition;
  ClientTxID : string;
  ClientCreator : bytes;
  ClientNonce : bytes;
  ClientSignedProposal : option SignedProposal;
  ClientTransient : gmap string bytes;
  EndorsingOrganizations : list string;
  IdempotencyKey : string;
  RequestDigest : string;
  Namespace : string;
  ChaincodeName : string;
  ChaincodeVersion : string;
  IsInit : bool;
  Function : string;
  Args : list string }.

Record InvocationResponse := mkInvocationResponse {
  TxID : string;
  out_Status : Z;
  out_Message : string;
  out_Payload : bytes;
  out_PayloadBase64 : string;
  Submitted : bool;
  FinalityPending : bool;
  CommitStatus : string;
  BlockNum : Z;
  TxNum : Z;
  out_IdempotencyKey : string;
  IdempotentReplay : bool;
  out_ChaincodeEvent : option ChaincodeEvent;
  LifecycleBindings : list LifecycleExecutionBinding }.

#[export] Instance ChaincodeEvent_eq_dec : EqDecision ChaincodeEvent.
Proof. solve_decision. Defined.
#[export] Instance LifecycleExecutionBinding_eq_dec : EqDecision LifecycleExecutionBinding.
Proof. solve_decision. Defined.
#[export] Instance InvocationResponse_eq_dec : EqDecision InvocationResponse.
Proof. solve_decision. Defined.

Definition zero_response : InvocationResponse :=
  mkInvocationResponse "" 0 "" "" "" false false "" 0 0 "" false None [].

(** The assignments [out.F = v] of the code. *)
Definition with_IdempotencyKey (k : string) (o : InvocationResponse) : InvocationResponse :=
  mkInvocationResponse (TxID o) (out_Status o) (out_Message o) (out_Payload o)
    (out_PayloadBase64 o) (Submitted o) (FinalityPending o) (CommitStatus o) (BlockNum o)
    (TxNum o) k (IdempotentReplay o) (out_ChaincodeEvent o) (LifecycleBindings o).

Definition with_FinalityPending (b : bool) (o : InvocationResponse) : InvocationResponse :=
  mkInvocationResponse (TxID o) (out_Status o) (out_Message o) (out_Payload o)
    (out_PayloadBase64 o) (Submitted o) b (CommitStatus o) (BlockNum o)
    (TxNum o) (out_IdempotencyKey o) (IdempotentReplay o) (out_ChaincodeEvent o)
    (LifecycleBindings o).

Definition with_Submitted (b : bool) (o : InvocationResponse) : InvocationResponse :=
  mkInvocationResponse (TxID o) (out_Status o) (out_Message o) (out_Payload o)
    (out_PayloadBase64 o) b (FinalityPending o) (CommitStatus o) (BlockNum o)
    (TxNum o) (out_IdempotencyKey o) (IdempotentReplay o) (out_ChaincodeEvent o)
    (LifecycleBindings o).

Definition with_IdempotentReplay (b : bool) (o : InvocationResponse) : InvocationResponse :=
  mkInvocationResponse (TxID o) (out_Status o) (out_Message o) (out_Payload o)
    (out_PayloadBase64 o) (Submitted o) (FinalityPending o) (CommitStatus o) (BlockNum o)
    (TxNum o) (out_IdempotencyKey o) b (out_ChaincodeEvent o) (LifecycleBindings o).

Definition with_finality (status : string) (block txnum : Z) (o : InvocationResponse)
    : InvocationResponse :=
  mkInvocationResponse (TxID o) (out_Status o) (out_Message o) (out_Payload o)
    (out_PayloadBase64 o) (Submitted o) false status block txnum
    (out_IdempotencyKey o) (IdempotentReplay o) (out_ChaincodeEvent o) (LifecycleBindings o).

Definition with_ChaincodeEvent (e : option ChaincodeEvent) (o : InvocationResponse)
    : InvocationResponse :=
  mkInvocationResponse (TxID o) (out_Status o) (out_Message o) (out_Payload o)
    (out_PayloadBase64 o) (Submitted o) (FinalityPending o) (CommitStatus o) (BlockNum o)
    (TxNum o) (out_IdempotencyKey o) (IdempotentReplay o) e (LifecycleBindings o).

Definition with_LifecycleBindings (l : list LifecycleExecutionBinding) (o : InvocationResponse)
    : InvocationResponse :=
  mkInvocationResponse (TxID o) (out_Status o) (out_Message o) (out_Payload o)
    (out_PayloadBase64 o) (Submitted o) (FinalityPending o) (CommitStatus o) (BlockNum o)
    (TxNum o) (out_IdempotencyKey o) (IdempotentReplay o) (out_ChaincodeEvent o) l.

(** Result of one helper execution. *)
Record helperExecutionResult := mkResult {
  res_Endorsement : SdkEndorsement;
  res_TxID : string;
  res_Response : option Response;
  res_Binding : option LifecycleExecutionBinding }.

(** The status range of a successful chaincode response. *)
Definition status_ok (status : Z) : bool := negb ((status <? 200) || (status >=? 400)).

End Types.
