(* ===== verification/Idempotency.v ===== *)
(** The in-memory submission records of [pkg/orchestrator/idempotency.go].

    Records are shared by pointer, so the store has a heap.  A channel that is
    only ever closed is a boolean, the one-slot finality channel is the boolean
    "occupied", and an operation that would panic (closing a closed channel)
    returns [None].  Every operation runs under the store's mutex and is one
    atomic step of [step]. *)
From Stdlib Require Import ZArith Lia.
From stdpp Require Import base option list strings gmap fin_maps relations.
From S2P Require Import Prelude LifecycleStore OrchestratorTypes.
Import Types.
Local Open Scope Z_scope.

Module Idempotency.

(** ** Data *)

Inductive idempotencyState : Set :=
  | idempotencyInProgress | idempotencyExecuted | idempotencySubmitted
  | idempotencyCompleted | idempotencyFailed.

#[export] Instance idempotencyState_eq_dec : EqDecision idempotencyState.
Proof. solve_decision. Defined.

(** [afterCommit] is the definition captured by the one closure the code
    stores there: marking a chaincode initialized. *)
Record idempotencyRecord := mkRecord {
  Key : string;
  Digest : string;
  State : idempotencyState;
  HelperTxID : string;
  rec_Response : InvocationResponse;
  rec_Err : option goerr;
  CreatedAt : Z;
  UpdatedAt : Z;
  submitted : bool;
  done : bool;
  finalityCheck : bool;
  afterCommit : option Store.ChaincodeDefinition;
  event : option ChaincodeEvent }.

Record submittedInvocation := mkSubmitted {
  si_Response : InvocationResponse;
  si_Event : option ChaincodeEvent;
  si_AfterCommit : option Store.ChaincodeDefinition }.

(** [idempotencyStore]; the heap also holds records that were evicted. *)
Record idempotencyStore := mkIdem {
  heap : gmap positive idempotencyRecord;
  next_ptr : positive;
  records : gmap string positive }.

Definition newIdempotencyStore : idempotencyStore := mkIdem ∅ 1 ∅.

Definition with_record (p : positive) (r : idempotencyRecord) (s : idempotencyStore)
    : idempotencyStore :=
  mkIdem (<[p := r]> (heap s)) (next_ptr s) (records s).

Definition set_lock (b : bool) (r : idempotencyRecord) : idempotencyRecord :=
  mkRecord (Key r) (Digest r) (State r) (HelperTxID r) (rec_Response r) (rec_Err r)
    (CreatedAt r) (UpdatedAt r) (submitted r) (done r) b (afterCommit r) (event r).

(** Go's [close]: closing twice panics. *)
Definition close (closed : bool) : option bool := if closed then None else Some true.

Definition in_state (r : idempotencyRecord) (st : idempotencyState) : bool :=
  bool_decide (State r = st).

Definition terminal (r : idempotencyRecord) : bool :=
  in_state r idempotencyCompleted || in_state r idempotencyFailed.

(** ** Operations *)

Definition existing (s : idempotencyStore) (key digest : string) : result (option positive) :=
  match records s !! key with
  | Some p =>
      match heap s !! p with
      | Some r => if bool_decide (Digest r = digest) then Ok (Some p)
                  else Err (ENew "idempotency conflict for key %s")
      | None => Ok None
      end
  | None => Ok None
  end.

Definition begin (now : Z) (s : idempotencyStore) (key digest : string)
    : idempotencyStore * result (positive * bool) :=
  if bool_decide (key = "") || bool_decide (digest = "")
  then (s, Err (ENew "idempotency key and digest are required"))
  else
    match records s !! key ≫= (fun p => pair p <$> heap s !! p) with
    | Some (p, r) =>
        (s, if bool_decide (Digest r = digest) then Ok (p, false)
            else Err (ENew "idempotency conflict for key %s"))
    | None =>
        let r := mkRecord key digest idempotencyInProgress "" zero_response None now now
                   false false false None None in
        (mkIdem (<[next_ptr s := r]> (heap s)) (Pos.succ (next_ptr s))
           (<[key := next_ptr s]> (records s)),
         Ok (next_ptr s, true))
    end.

Definition waitResult (s : idempotencyStore) (p : positive) (waitErr : option goerr)
    : option (InvocationResponse * option goerr) :=
  r ← heap s !! p;
  let out := with_IdempotencyKey (Key r) (rec_Response r) in
  Some (if in_state r idempotencySubmitted then (with_FinalityPending true out, None)
        else if terminal r then (out, rec_Err r)
        else (out, waitErr)).

(** The arm [select] takes; [None] while none of the arms is ready. *)
Inductive wait_arm : Type := arm_done | arm_submitted | arm_ctx (e : goerr).

Definition wait (s : idempotencyStore) (record : option positive) (arm : wait_arm)
    : option (InvocationResponse * option goerr) :=
  match record with
  | None => Some (zero_response, Some (ENew "idempotency record is nil"))
  | Some p =>
      r ← heap s !! p;
      match arm with
      | arm_done => if done r then waitResult s p None else None
      | arm_submitted => if submitted r then waitResult s p None else None
      | arm_ctx e => waitResult s p (Some e)
      end
  end.

(** Caller holds the mutex. *)
Definition remove (s : idempotencyStore) (p : positive) (key : string) : idempotencyStore :=
  if bool_decide (records s !! key = Some p)
  then mkIdem (heap s) (next_ptr s) (delete key (records s)) else s.

Definition markExecuted (now : Z) (s : idempotencyStore) (record : option positive)
    (helperTxID : string) : idempotencyStore :=
  match record with
  | None => s
  | Some p =>
      match heap s !! p with
      | None => s
      | Some r =>
          with_record p (mkRecord (Key r) (Digest r) idempotencyExecuted helperTxID
            (rec_Response r) (rec_Err r) (CreatedAt r) now (submitted r) (done r)
            (finalityCheck r) (afterCommit r) (event r)) s
      end
  end.

Definition submitted_or_terminal (r : idempotencyRecord) : bool :=
  in_state r idempotencySubmitted || in_state r idempotencyCompleted ||
  in_state r idempotencyFailed.

Section Events.
(** [eventFromEndorsement] of service.go, which decodes protobuf. *)
Variable eventFromEndorsement : SdkEndorsement → string → option ChaincodeEvent.

Definition markSubmission (now : Z) (s : idempotencyStore) (record : option positive)
    (response : InvocationResponse) (end_ : SdkEndorsement)
    (afterCommit : option Store.ChaincodeDefinition) (submitErr : option goerr)
    : option idempotencyStore :=
  match record with
  | None => Some s
  | Some p =>
      match heap s !! p with
      | None => Some s
      | Some r =>
          if submitted_or_terminal r then Some s
          else
            let event := eventFromEndorsement end_ (TxID response) in
            closed ← close (submitted r);
            Some (with_record p (mkRecord (Key r) (Digest r) idempotencySubmitted
              (HelperTxID r) (with_FinalityPending true response) submitErr (CreatedAt r) now
              closed (done r) (finalityCheck r) afterCommit event) s)
      end
  end.

Definition markSubmitted (now : Z) (s : idempotencyStore) (record : option positive)
    (response : InvocationResponse) (end_ : SdkEndorsement)
    (afterCommit : option Store.ChaincodeDefinition) : option idempotencyStore :=
  markSubmission now s record response end_ afterCommit None.
End Events.

Definition submissionOutcome (s : idempotencyStore) (p : positive)
    : option (bool * option goerr) :=
  r ← heap s !! p;
  Some (if in_state r idempotencySubmitted then (Submitted (rec_Response r), rec_Err r)
        else if Submitted (rec_Response r) then (true, None)
        else (false, rec_Err r)).

Definition complete (now : Z) (s : idempotencyStore) (record : option positive)
    (response : InvocationResponse) (err : option goerr) : option idempotencyStore :=
  match record with
  | None => Some s
  | Some p =>
      match heap s !! p with
      | None => Some s
      | Some r =>
          if submitted_or_terminal r then Some s
          else
            let st := match err with Some _ => idempotencyFailed | None => idempotencyCompleted end in
            closed ← close (done r);
            Some (remove (with_record p (mkRecord (Key r) (Digest r) st (HelperTxID r) response
              err (CreatedAt r) now (submitted r) closed (finalityCheck r) (afterCommit r)
              (event r)) s) p (Key r))
      end
  end.

Definition pending (s : idempotencyStore) (record : option positive)
    : option submittedInvocation :=
  p ← record; r ← heap s !! p;
  if in_state r idempotencySubmitted
  then Some (mkSubmitted (rec_Response r) (event r) (afterCommit r)) else None.

(** [order] is the order in which Go iterates over the map. *)
Definition pendingRecordsBefore (s : idempotencyStore) (order : list string) (limit : nat)
    (cutoff : option Z) : list positive :=
  let found := omap (fun k =>
    p ← records s !! k; r ← heap s !! p;
    if in_state r idempotencySubmitted &&
       match cutoff with None => true | Some t => UpdatedAt r <=? t end
    then Some p else None) order in
  if decide (limit = O) then found else take limit found.

Definition pendingRecords (s : idempotencyStore) (order : list string) (limit : nat)
    : list positive := pendingRecordsBefore s order limit None.

Definition tryLockFinality (s : idempotencyStore) (p : positive) : idempotencyStore * bool :=
  match heap s !! p with
  | Some r => if finalityCheck r then (s, false) else (with_record p (set_lock true r) s, true)
  | None => (s, false)
  end.

(** [ctx_done] is what [ctx.Err()] returns first, and [select_done] the error of
    the [ctx.Done()] arm when [select] takes it; [None] while it blocks. *)
Definition lockFinality (s : idempotencyStore) (p : positive) (ctx_done select_done : option goerr)
    : option (idempotencyStore * result ()) :=
  match ctx_done, select_done with
  | Some e, _ => Some (s, Err e)
  | None, Some e => Some (s, Err e)
  | None, None =>
      let '(s', locked) := tryLockFinality s p in
      if locked then Some (s', Ok ()) else None
  end.

(** Receiving from the empty channel blocks. *)
Definition unlockFinality (s : idempotencyStore) (p : positive) : option idempotencyStore :=
  r ← heap s !! p;
  if finalityCheck r then Some (with_record p (set_lock false r) s) else None.

Definition confirmFinality (now : Z) (s : idempotencyStore) (record : option positive)
    (response : InvocationResponse) (err : option goerr) : option idempotencyStore :=
  match record with
  | None => Some s
  | Some p =>
      match heap s !! p with
      | None => Some s
      | Some r =>
          if negb (in_state r idempotencySubmitted) || bool_decide (CommitStatus response = "")
          then Some s
          else
            closed ← close (done r);
            Some (remove (with_record p (mkRecord (Key r) (Digest r) idempotencyCompleted
              (HelperTxID r) (with_FinalityPending false response) err (CreatedAt r) now
              (submitted r) closed (finalityCheck r) None None) s) p (Key r))
      end
  end.

(** ** Interleavings

    [Execute] and [Submit] run, for the record they created with [begin]: at most
    one [markExecuted], then at most one [markSubmission] (in
    [submitTransaction]), and [complete] when they return.  [phase] is how far the
    creating call has come; everything else may happen at any time, from any
    goroutine, with any arguments. *)
Inductive phase : Set := Begun | Executed | Handed | Returned.

Record system := mkSystem { store : idempotencyStore; owner : gmap positive phase }.

Definition initial : system := mkSystem newIdempotencyStore ∅.

Section Steps.
Variable eventOf : SdkEndorsement → string → option ChaincodeEvent.

Inductive step (σ : system) : system → Prop :=
  | step_begin now k d s' p :
      begin now (store σ) k d = (s', Ok (p, true)) →
      step σ (mkSystem s' (<[p := Begun]> (owner σ)))
  | step_markExecuted now p tx :
      owner σ !! p = Some Begun →
      step σ (mkSystem (markExecuted now (store σ) (Some p) tx) (<[p := Executed]> (owner σ)))
  | step_markSubmission now p out end_ after err s' :
      owner σ !! p = Some Executed →
      markSubmission eventOf now (store σ) (Some p) out end_ after err = Some s' →
      step σ (mkSystem s' (<[p := Handed]> (owner σ)))
  | step_complete now p ph out err s' :
      owner σ !! p = Some ph → ph ≠ Returned →
      complete now (store σ) (Some p) out err = Some s' →
      step σ (mkSystem s' (<[p := Returned]> (owner σ)))
  | step_confirm now p out err s' :
      confirmFinality now (store σ) p out err = Some s' →
      step σ (mkSystem s' (owner σ))
  | step_tryLock p : step σ (mkSystem (tryLockFinality (store σ) p).1 (owner σ))
  | step_unlock p s' :
      unlockFinality (store σ) p = Some s' → step σ (mkSystem s' (owner σ)).

(** The steps above that the code takes but whose [close] panics. *)
Definition panics (σ : system) : Prop :=
  (∃ now p out end_ after err, owner σ !! p = Some Executed ∧
     markSubmission eventOf now (store σ) (Some p) out end_ after err = None) ∨
  (∃ now p ph out err, owner σ !! p = Some ph ∧ complete now (store σ) (Some p) out err = None) ∨
  (∃ now p out err, confirmFinality now (store σ) p out err = None).

Definition reachable (σ : system) : Prop := rtc step initial σ.
End Steps.

(** ** Invariant *)

(** The channels agree with the state, and the creating call's progress too. *)
Definition record_ok (ph : phase) (r : idempotencyRecord) : Prop :=
  match State r with
  | idempotencyInProgress => submitted r = false ∧ done r = false ∧ ph = Begun
  | idempotencyExecuted => submitted r = false ∧ done r = false ∧ ph = Executed
  | idempotencySubmitted => submitted r = true ∧ done r = false ∧ (ph = Handed ∨ ph = Returned)
  | idempotencyCompleted => done r = true ∧ (ph = Handed ∨ ph = Returned)
  | idempotencyFailed => done r = true ∧ ph = Returned
  end.

Record system_ok (σ : system) : Prop := mkSystemOk {
  so_fresh : ∀ p, (next_ptr (store σ) ≤ p)%positive → heap (store σ) !! p = None;
  so_records : ∀ p r, heap (store σ) !! p = Some r →
    ∃ ph, owner σ !! p = Some ph ∧ record_ok ph r;
  so_owner : ∀ p ph, owner σ !! p = Some ph → is_Some (heap (store σ) !! p);
  (** The map holds exactly the records that are not terminal. *)
  so_live : ∀ k p, records (store σ) !! k = Some p ↔
    ∃ r, heap (store σ) !! p = Some r ∧ Key r = k ∧ terminal r = false }.

(** What never changes back in a record. *)
Definition record_le (r r' : idempotencyRecord) : Prop :=
  Key r' = Key r ∧ Digest r' = Digest r ∧
  match State r with
  | idempotencyInProgress | idempotencyExecuted => True
  | idempotencySubmitted =>
      (State r' = idempotencySubmitted ∧ rec_Response r' = rec_Response r ∧
       rec_Err r' = rec_Err r ∧ event r' = event r ∧ afterCommit r' = afterCommit r) ∨
      (State r' = idempotencyCompleted ∧ CommitStatus (rec_Response r') ≠ "" ∧
       FinalityPending (rec_Response r') = false)
  | _ => State r' = State r ∧ rec_Response r' = rec_Response r ∧ rec_Err r' = rec_Err r
  end.

Definition heap_le (σ σ' : system) : Prop :=
  ∀ p r, heap (store σ) !! p = Some r →
    ∃ r', heap (store σ') !! p = Some r' ∧ record_le r r'.

Lemma record_le_refl r : record_le r r.
Proof. unfold record_le. split_and!; try done. destruct (State r); auto 10. Qed.

Lemma record_le_trans r1 r2 r3 : record_le r1 r2 → record_le r2 r3 → record_le r1 r3.
Proof.
  unfold record_le. intros (K1 & D1 & H1) (K2 & D2 & H2).
  split_and!; [congruence..|].
  destruct (State r1); try done.
  - destruct H1 as [(E1 & ? & ? & ? & ?)|(E1 & ? & ?)]; rewrite E1 in H2.
    + destruct H2 as [(? & ? & ? & ? & ?)|?]; [left; split_and!; congruence|by right].
    + destruct H2 as (? & Er & ?). right. rewrite Er. split_and!; congruence.
  - destruct H1 as (E1 & ? & ?). rewrite E1 in H2. destruct H2 as (? & ? & ?).
    split_and!; congruence.
  - destruct H1 as (E1 & ? & ?). rewrite E1 in H2. destruct H2 as (? & ? & ?).
    split_and!; congruence.
Qed.

#[export] Instance heap_le_preorder : PreOrder heap_le.
Proof.
  split.
  - intros σ p r H. exists r. split; [done|apply record_le_refl].
  - intros σ1 σ2 σ3 H12 H23 p r H. destruct (H12 _ _ H) as (r2 & H2 & Hle).
    destruct (H23 _ _ H2) as (r3 & H3 & Hle'). exists r3. split; [done|].
    by eapply record_le_trans.
Qed.

Lemma in_state_true r st : in_state r st = true ↔ State r = st.
Proof. unfold in_state. apply bool_decide_eq_true. Qed.

Lemma terminal_true r :
  terminal r = true ↔ State r = idempotencyCompleted ∨ State r = idempotencyFailed.
Proof. unfold terminal. rewrite orb_true_iff, !in_state_true. done. Qed.

Lemma terminal_false r :
  terminal r = false ↔ State r ≠ idempotencyCompleted ∧ State r ≠ idempotencyFailed.
Proof. rewrite <- not_true_iff_false, terminal_true. tauto. Qed.

Lemma submitted_or_terminal_false r :
  submitted_or_terminal r = false ↔ State r = idempotencyInProgress ∨ State r = idempotencyExecuted.
Proof.
  unfold submitted_or_terminal. rewrite !orb_false_iff. unfold in_state.
  rewrite !bool_decide_eq_false. destruct (State r); naive_solver.
Qed.

(** Replacing one record by a later version of it, as live as before. *)
Lemma update_ok σ p r r' ph :
  system_ok σ → heap (store σ) !! p = Some r → Key r' = Key r →
  record_ok ph r' → terminal r' = terminal r →
  system_ok (mkSystem (with_record p r' (store σ)) (<[p := ph]> (owner σ))).
Proof.
  intros [Hf Hr Ho Hl] Hp Hk Hok Ht. constructor; simpl.
  - intros q Hq. rewrite lookup_insert_ne; [by apply Hf|]. intros <-.
    by rewrite Hf in Hp.
  - intros q r0. destruct (decide (q = p)) as [->|].
    + rewrite !lookup_insert_eq. intros [= <-]. eauto.
    + rewrite !lookup_insert_ne by done. apply Hr.
  - intros q ph'. destruct (decide (q = p)) as [->|].
    + rewrite !lookup_insert_eq. eauto.
    + rewrite !lookup_insert_ne by done. apply Ho.
  - intros k q. rewrite Hl. destruct (decide (q = p)) as [->|].
    + rewrite lookup_insert_eq, Hp. naive_solver congruence.
    + by rewrite lookup_insert_ne.
Qed.

(** Replacing one live record by a terminal one and evicting it. *)
Lemma evict_ok σ p r r' ph :
  system_ok σ → heap (store σ) !! p = Some r → Key r' = Key r →
  record_ok ph r' → terminal r = false → terminal r' = true →
  system_ok (mkSystem (remove (with_record p r' (store σ)) p (Key r)) (<[p := ph]> (owner σ))).
Proof.
  intros [Hf Hr Ho Hl] Hp Hk Hok Ht Ht'. unfold remove.
  assert (Hin : records (store σ) !! Key r = Some p) by (apply Hl; eauto).
  simpl. rewrite bool_decide_eq_true_2 by done. constructor; simpl.
  - intros q Hq. rewrite lookup_insert_ne; [by apply Hf|]. intros <-. by rewrite Hf in Hp.
  - intros q r0. destruct (decide (q = p)) as [->|].
    + rewrite !lookup_insert_eq. intros [= <-]. eauto.
    + rewrite !lookup_insert_ne by done. apply Hr.
  - intros q ph'. destruct (decide (q = p)) as [->|].
    + rewrite !lookup_insert_eq. eauto.
    + rewrite !lookup_insert_ne by done. apply Ho.
  - intros k q. destruct (decide (q = p)) as [->|Hq].
    + rewrite lookup_insert_eq. destruct (decide (k = Key r)) as [->|].
      * rewrite lookup_delete_eq. naive_solver congruence.
      * rewrite lookup_delete_ne, Hl, Hp by done. naive_solver congruence.
    + rewrite lookup_insert_ne by done. destruct (decide (k = Key r)) as [->|].
      * rewrite lookup_delete_eq. split; [done|]. intros Hx. apply Hl in Hx. congruence.
      * by rewrite lookup_delete_ne, Hl.
Qed.

Lemma heap_le_update σ p r r' o :
  heap (store σ) !! p = Some r → record_le r r' →
  heap_le σ (mkSystem (with_record p r' (store σ)) o).
Proof.
  intros Hp Hle q r0 Hq. simpl. destruct (decide (q = p)) as [->|].
  - rewrite lookup_insert_eq. exists r'. split; [done|]. congruence.
  - rewrite lookup_insert_ne by done. exists r0. split; [done|apply record_le_refl].
Qed.

Lemma heap_remove s p k : heap (remove s p k) = heap s.
Proof. unfold remove. by case_bool_decide. Qed.

Lemma heap_le_evict σ p r r' k o :
  heap (store σ) !! p = Some r → record_le r r' →
  heap_le σ (mkSystem (remove (with_record p r' (store σ)) p k) o).
Proof.
  intros Hp Hle q r0 Hq. simpl. rewrite heap_remove.
  by apply (heap_le_update σ p r r' o Hp Hle q r0 Hq).
Qed.

(** Progress of the creating call that leaves the record alone. *)
Lemma owner_ok σ p r ph :
  system_ok σ → heap (store σ) !! p = Some r → record_ok ph r →
  system_ok (mkSystem (store σ) (<[p := ph]> (owner σ))).
Proof.
  intros [Hf Hr Ho Hl] Hp Hok. constructor; simpl; try done.
  - intros q r0 Hq. destruct (decide (q = p)) as [->|].
    + rewrite lookup_insert_eq. exists ph. split; [done|]. congruence.
    + rewrite lookup_insert_ne by done. by apply Hr.
  - intros q ph'. destruct (decide (q = p)) as [->|].
    + rewrite lookup_insert_eq. eauto.
    + rewrite lookup_insert_ne by done. apply Ho.
Qed.

Lemma owner_record σ p ph :
  system_ok σ → owner σ !! p = Some ph →
  ∃ r, heap (store σ) !! p = Some r ∧ record_ok ph r.
Proof.
  intros Hok Hp. destruct (so_owner σ Hok _ _ Hp) as [r Hr]. exists r. split; [done|].
  destruct (so_records σ Hok _ _ Hr) as (ph' & Hp' & ?). congruence.
Qed.

Lemma record_owner σ p r :
  system_ok σ → heap (store σ) !! p = Some r →
  ∃ ph, owner σ !! p = Some ph ∧ record_ok ph r ∧ owner σ = <[p := ph]> (owner σ).
Proof.
  intros Hok Hp. destruct (so_records σ Hok _ _ Hp) as (ph & Ho & ?).
  exists ph. by rewrite insert_id.
Qed.

Lemma begin_new now s k d s' p :
  begin now s k d = (s', Ok (p, true)) →
  k ≠ "" ∧ d ≠ "" ∧ p = next_ptr s ∧ records s !! k ≫= (fun p => pair p <$> heap s !! p) = None ∧
  s' = mkIdem (<[p := mkRecord k d idempotencyInProgress "" zero_response None now now
                   false false false None None]> (heap s))
         (Pos.succ (next_ptr s)) (<[k := p]> (records s)).
Proof.
  unfold begin. destruct (bool_decide (k = "") || bool_decide (d = "")) eqn:E; [done|].
  bool_props. destruct (records s !! k ≫= _) as [[q r]|]; [by case_match|].
  by intros [= <- <-].
Qed.

Lemma begin_ok now σ k d s' p :
  system_ok σ → begin now (store σ) k d = (s', Ok (p, true)) →
  system_ok (mkSystem s' (<[p := Begun]> (owner σ))) ∧
  heap_le σ (mkSystem s' (<[p := Begun]> (owner σ))).
Proof.
  intros [Hf Hr Ho Hl] (Hk & Hd & -> & Hnone & ->)%begin_new.
  assert (Hp : heap (store σ) !! next_ptr (store σ) = None) by (apply Hf; lia).
  assert (Hrec : records (store σ) !! k = None).
  { destruct (records (store σ) !! k) as [q|] eqn:E; [|done].
    pose proof E as E'. apply Hl in E' as (r & Hq & _). simpl in Hnone.
    by rewrite Hq in Hnone. }
  split; [constructor; simpl|].
  - intros q Hq. rewrite lookup_insert_ne by lia. apply Hf. lia.
  - intros q r. destruct (decide (q = next_ptr (store σ))) as [->|].
    + rewrite !lookup_insert_eq. intros [= <-]. by exists Begun.
    + rewrite !lookup_insert_ne by done. apply Hr.
  - intros q ph. destruct (decide (q = next_ptr (store σ))) as [->|].
    + rewrite !lookup_insert_eq. eauto.
    + rewrite !lookup_insert_ne by done. apply Ho.
  - intros k' q. destruct (decide (q = next_ptr (store σ))) as [->|Hq].
    + rewrite lookup_insert_eq. destruct (decide (k' = k)) as [->|].
      * rewrite lookup_insert_eq. split; [|done]. intros _. by eexists.
      * rewrite lookup_insert_ne, Hl, Hp by done. naive_solver.
    + rewrite (lookup_insert_ne (heap (store σ))) by done. destruct (decide (k' = k)) as [->|].
      * rewrite lookup_insert_eq. split; [naive_solver|]. intros Hx. apply Hl in Hx. congruence.
      * by rewrite lookup_insert_ne, Hl.
  - intros q r Hq. simpl. rewrite lookup_insert_ne by (intros <-; congruence).
    exists r. split; [done|apply record_le_refl].
Qed.

Lemma markSubmission_spec eventOf now s p r out end_ after err :
  heap s !! p = Some r → State r = idempotencyExecuted → submitted r = false →
  markSubmission eventOf now s (Some p) out end_ after err =
    Some (with_record p (mkRecord (Key r) (Digest r) idempotencySubmitted (HelperTxID r)
      (with_FinalityPending true out) err (CreatedAt r) now true (done r) (finalityCheck r)
      after (eventOf end_ (TxID out))) s).
Proof.
  intros Hp Hst Hsub. unfold markSubmission. rewrite Hp.
  rewrite (proj2 (submitted_or_terminal_false r)) by auto. by rewrite Hsub.
Qed.

Lemma complete_spec now s p r out err :
  heap s !! p = Some r →
  complete now s (Some p) out err =
    if submitted_or_terminal r then Some s
    else if done r then None
    else Some (remove (with_record p (mkRecord (Key r) (Digest r)
      match err with Some _ => idempotencyFailed | None => idempotencyCompleted end
      (HelperTxID r) out err (CreatedAt r) now (submitted r) true (finalityCheck r)
      (afterCommit r) (event r)) s) p (Key r)).
Proof. intros Hp. unfold complete. rewrite Hp. case_match; [done|]. by destruct (done r). Qed.

Lemma confirm_spec now s p r out err :
  heap s !! p = Some r →
  confirmFinality now s (Some p) out err =
    if negb (in_state r idempotencySubmitted) || bool_decide (CommitStatus out = "") then Some s
    else if done r then None
    else Some (remove (with_record p (mkRecord (Key r) (Digest r) idempotencyCompleted
      (HelperTxID r) (with_FinalityPending false out) err (CreatedAt r) now (submitted r) true
      (finalityCheck r) None None) s) p (Key r)).
Proof. intros Hp. unfold confirmFinality. rewrite Hp. case_match; [done|]. by destruct (done r). Qed.

Lemma complete_step now σ p ph out err :
  system_ok σ → owner σ !! p = Some ph →
  ∃ s', complete now (store σ) (Some p) out err = Some s' ∧
    (ph ≠ Returned → system_ok (mkSystem s' (<[p := Returned]> (owner σ)))) ∧
    heap_le σ (mkSystem s' (<[p := Returned]> (owner σ))).
Proof.
  intros Hok Hp. destruct (owner_record σ p ph Hok Hp) as (r & Hr & Hrec).
  rewrite (complete_spec _ _ _ r) by done.
  destruct (submitted_or_terminal r) eqn:Hst.
  - eexists. split; [done|]. split; [|intros q r0 Hq; exists r0; split; [done|apply record_le_refl]].
    intros Hne. apply (owner_ok σ p r); [done..|].
    unfold submitted_or_terminal in Hst. rewrite !orb_true_iff, !in_state_true in Hst.
    unfold record_ok in *. destruct (State r); naive_solver.
  - apply submitted_or_terminal_false in Hst.
    assert (Hd : done r = false) by (unfold record_ok in Hrec; destruct Hst as [E|E]; rewrite E in Hrec; tauto).
    rewrite Hd. eexists. split; [done|]. split.
    + intros _. apply (evict_ok σ p r); [done|done|done| | |].
      * unfold record_ok. simpl. destruct err; auto.
      * apply terminal_false. destruct Hst as [->| ->]; done.
      * apply terminal_true. destruct err; auto.
    + apply (heap_le_evict σ p r); [done|].
      unfold record_le. simpl. split_and!; try done. destruct Hst as [->| ->]; done.
Qed.

Lemma confirm_step now σ p out err :
  system_ok σ →
  ∃ s', confirmFinality now (store σ) p out err = Some s' ∧
    system_ok (mkSystem s' (owner σ)) ∧ heap_le σ (mkSystem s' (owner σ)).
Proof.
  intros Hok. assert (Hsame : system_ok (mkSystem (store σ) (owner σ)) ∧
                              heap_le σ (mkSystem (store σ) (owner σ))).
  { destruct σ. split; [done|reflexivity]. }
  destruct p as [p|]; [|by exists (store σ)].
  destruct (heap (store σ) !! p) as [r|] eqn:Hr.
  2:{ exists (store σ). split; [|done]. unfold confirmFinality. by rewrite Hr. }
  rewrite (confirm_spec _ _ _ r) by done.
  destruct (_ || _) eqn:E; [by exists (store σ)|]. bool_props.
  apply in_state_true in H. destruct (record_owner σ p r Hok Hr) as (ph & Ho & Hrec & Hown).
  unfold record_ok in Hrec. rewrite H in Hrec. destruct Hrec as (_ & -> & Hph).
  eexists. split; [done|]. rewrite Hown. split.
  - apply (evict_ok σ p r); [done..| | |].
    + by unfold record_ok.
    + apply terminal_false. by rewrite H.
    + apply terminal_true. auto.
  - apply (heap_le_evict σ p r); [done|]. unfold record_le. simpl. rewrite H. auto 10.
Qed.

Lemma lock_ok σ p r b :
  system_ok σ → heap (store σ) !! p = Some r →
  system_ok (mkSystem (with_record p (set_lock b r) (store σ)) (owner σ)) ∧
  heap_le σ (mkSystem (with_record p (set_lock b r) (store σ)) (owner σ)).
Proof.
  intros Hok Hr. destruct (record_owner σ p r Hok Hr) as (ph & Ho & Hrec & Hown). split.
  - rewrite Hown. by apply (update_ok σ p r).
  - apply (heap_le_update σ p r); [done|]. by apply (record_le_refl r).
Qed.

Lemma idem_step_inv eventOf σ σ' :
  system_ok σ → step eventOf σ σ' → system_ok σ' ∧ heap_le σ σ'.
Proof.
  intros Hok [now k d s' p Hb|now p tx Hp|now p out end_ after err s' Hp Hm
    |now p ph out err s' Hp Hne Hc|now p out err s' Hc|p|p s' Hu].
  - by eapply begin_ok.
  - destruct (owner_record σ p _ Hok Hp) as (r & Hr & Hrec).
    assert (State r = idempotencyInProgress ∧ submitted r = false ∧ done r = false) as (E & ? & ?)
      by (unfold record_ok in Hrec; destruct (State r); naive_solver).
    unfold markExecuted. rewrite Hr. split.
    + apply (update_ok σ p r); [done..| |]; unfold record_ok, terminal, in_state; simpl; by rewrite ?E.
    + apply (heap_le_update σ p r); [done|]. unfold record_le. by rewrite E.
  - destruct (owner_record σ p _ Hok Hp) as (r & Hr & Hrec).
    assert (State r = idempotencyExecuted ∧ submitted r = false ∧ done r = false) as (E & ? & ?)
      by (unfold record_ok in Hrec; destruct (State r); naive_solver).
    rewrite (markSubmission_spec _ _ _ _ r) in Hm by done. injection Hm as <-. split.
    + apply (update_ok σ p r); [done..| |]; unfold record_ok, terminal, in_state; simpl;
        rewrite ?E; auto.
    + apply (heap_le_update σ p r); [done|]. unfold record_le. by rewrite E.
  - destruct (complete_step now σ p ph out err Hok Hp) as (s1 & Hs1 & ? & ?). simplify_eq. auto.
  - destruct (confirm_step now σ p out err Hok) as (s1 & Hs1 & ?). by simplify_eq.
  - unfold tryLockFinality. destruct (heap (store σ) !! p) as [r|] eqn:Hr.
    + destruct (finalityCheck r); [destruct σ; split; [done|reflexivity]|].
      by apply lock_ok.
    + destruct σ; split; [done|reflexivity].
  - unfold unlockFinality in Hu. destruct (heap (store σ) !! p) as [r|] eqn:Hr; [|done].
    simpl in Hu. destruct (finalityCheck r); [|done]. injection Hu as <-. by apply lock_ok.
Qed.

Lemma steps_inv eventOf σ σ' :
  system_ok σ → rtc (step eventOf) σ σ' → system_ok σ' ∧ heap_le σ σ'.
Proof.
  intros Hok Hs. induction Hs as [σ|σ1 σ2 σ3 H12 _ IH]; [split; [done|reflexivity]|].
  apply (idem_step_inv eventOf) in H12 as [H2 Hle]; [|done]. destruct (IH H2) as [H3 Hle'].
  split; [done|]. by etrans.
Qed.

Lemma initial_ok : system_ok initial.
Proof. constructor; simpl; intros *; rewrite ?lookup_empty; naive_solver. Qed.

Lemma reachable_ok eventOf σ : reachable eventOf σ → system_ok σ.
Proof. intros H. exact (proj1 (steps_inv eventOf initial σ initial_ok H)). Qed.

#[export] Hint Resolve reachable_ok initial_ok : compat.

(** A caller that waits on the record of a call that has returned gets an answer. *)
Lemma returned_answers σ p :
  system_ok σ → owner σ !! p = Some Returned →
  ∃ arm, (arm = arm_done ∨ arm = arm_submitted) ∧ is_Some (wait (store σ) (Some p) arm).
Proof.
  intros Hok Hp. destruct (owner_record σ p _ Hok Hp) as (r & Hr & Hrec). unfold record_ok in Hrec.
  destruct (State r) eqn:E; try (destruct Hrec as (_ & _ & [=]); done).
  all: first
    [ by (exists arm_submitted; split; [by right|]; destruct Hrec as (Hc & _);
          unfold wait, waitResult; rewrite Hr; simpl; rewrite Hc)
    | by (exists arm_done; split; [by left|]; destruct Hrec as (Hc & _);
          unfold wait, waitResult; rewrite Hr; simpl; rewrite Hc) ].
Qed.

(** ** Properties *)

(** Whatever the interleaving of submissions, retries, finality observations
    and finality locks, no step closes a closed channel: the code never panics. *)
Theorem records_never_panic eventOf σ : reachable eventOf σ → ¬ panics eventOf σ.
Proof.
  intros Hok%reachable_ok [(now & p & out & end_ & after & err & Hp & Hm)|
    [(now & p & ph & out & err & Hp & Hc)|(now & p & out & err & Hc)]].
  - destruct (owner_record σ p _ Hok Hp) as (r & Hr & Hrec).
    rewrite (markSubmission_spec _ _ _ _ r) in Hm; [done..| |];
      unfold record_ok in Hrec; destruct (State r); naive_solver.
  - destruct (complete_step now σ p ph out err Hok Hp) as (s' & ? & _). congruence.
  - destruct (confirm_step now σ p out err Hok) as (s' & ? & _). congruence.
Qed.

(** At most one live record exists for a key, and [begin] answers by it: a
    caller becomes the owner exactly when no live record has the key, shares the
    live record when the digest is its own, and is refused otherwise. *)
Theorem begin_exact eventOf σ now k d :
  reachable eventOf σ → k ≠ "" → d ≠ "" →
  (∀ p q r r', heap (store σ) !! p = Some r → heap (store σ) !! q = Some r' →
     Key r = Key r' → terminal r = false → terminal r' = false → p = q) ∧
  (∀ p, (begin now (store σ) k d).2 = Ok (p, true) ↔
     p = next_ptr (store σ) ∧
     ∀ q r, heap (store σ) !! q = Some r → Key r = k → terminal r = true) ∧
  (∀ p, (begin now (store σ) k d).2 = Ok (p, false) ↔
     ∃ r, heap (store σ) !! p = Some r ∧ Key r = k ∧ terminal r = false ∧ Digest r = d) ∧
  (is_ok (begin now (store σ) k d).2 = false ↔
     ∃ p r, heap (store σ) !! p = Some r ∧ Key r = k ∧ terminal r = false ∧ Digest r ≠ d).
Proof.
  intros Hok%reachable_ok Hk Hd. pose proof (so_live σ Hok) as Hl.
  assert (Huniq : ∀ p q r r', heap (store σ) !! p = Some r → heap (store σ) !! q = Some r' →
     Key r = Key r' → terminal r = false → terminal r' = false → p = q).
  { intros p q r r' Hp Hq E Ht Ht'.
    assert (H1 : records (store σ) !! Key r = Some p) by (apply Hl; eauto).
    assert (H2 : records (store σ) !! Key r = Some q) by (apply Hl; eauto). congruence. }
  split; [done|]. unfold begin. rewrite !bool_decide_eq_false_2 by done. simpl.
  destruct (records (store σ) !! k) as [q|] eqn:E; simpl.
  - pose proof (proj1 (Hl k q) E) as (r & Hq & Ek & Ht). rewrite Hq. simpl.
    assert (Hr : ∀ p r', heap (store σ) !! p = Some r' → Key r' = k → terminal r' = false →
                   p = q ∧ r' = r).
    { intros p r' Hp E' Ht'. assert (p = q) by (eapply Huniq; eauto; congruence).
      split; congruence. }
    case_bool_decide as Edig; simpl; split_and!; try done; naive_solver congruence.
  - assert (Hnone : ∀ q r, heap (store σ) !! q = Some r → Key r = k → terminal r = true).
    { intros q r Hq Ek. destruct (terminal r) eqn:Ht; [done|].
      assert (records (store σ) !! k = Some q) by (apply Hl; eauto). congruence. }
    split_and!.
    + intros p. split; [intros [= <-]; done|by intros [-> _]].
    + intros p. split; [done|]. intros (r & Hp & Ek & Ht & _). by rewrite (Hnone p r) in Ht.
    + split; [done|]. intros (p & r & Hp & Ek & Ht & _). by rewrite (Hnone p r) in Ht.
Qed.

(** C31: A submission whose outcome is unknown is never forgotten nor given a made-up
    result: from the moment it is recorded, whatever runs next, it stays registered
    with the response it was submitted with, until a final commit status arrives. *)
Theorem submission_kept eventOf σ σ' p r :
  reachable eventOf σ → rtc (step eventOf) σ σ' →
  heap (store σ) !! p = Some r → State r = idempotencySubmitted →
  ∃ r', heap (store σ') !! p = Some r' ∧ Key r' = Key r ∧
    ((State r' = idempotencySubmitted ∧ records (store σ') !! Key r = Some p ∧
      rec_Response r' = rec_Response r ∧ afterCommit r' = afterCommit r) ∨
     (State r' = idempotencyCompleted ∧ records (store σ') !! Key r ≠ Some p ∧
      CommitStatus (rec_Response r') ≠ "" ∧ FinalityPending (rec_Response r') = false)).
Proof.
  intros Hok%reachable_ok Hs Hp Hst. destruct (steps_inv eventOf σ σ' Hok Hs) as [Hok' Hle].
  destruct (Hle p r Hp) as (r' & Hr' & Hk & _ & Hcase). exists r'. split_and!; [done..|].
  rewrite Hst in Hcase. destruct Hcase as [(E & ? & _ & _ & ?)|(E & ? & ?)].
  - left. split_and!; try done. apply (so_live σ' Hok'). exists r'. split_and!; try done.
    apply terminal_false. by rewrite E.
  - right. split_and!; try done. intros Hin.
    apply (so_live σ' Hok') in Hin as (r0 & Hr0 & _ & Ht).
    assert (r0 = r') as -> by congruence. apply terminal_false in Ht. by destruct Ht.
Qed.

(** Once the creating call has returned, no duplicate waits forever, and once a
    record is finished every caller holding it gets the same answer at any later
    time. *)
Theorem waiters_agree eventOf σ :
  reachable eventOf σ →
  (∀ p, owner σ !! p = Some Returned →
     ∃ arm, (arm = arm_done ∨ arm = arm_submitted) ∧ is_Some (wait (store σ) (Some p) arm)) ∧
  (∀ p r σ', heap (store σ) !! p = Some r → terminal r = true → rtc (step eventOf) σ σ' →
     wait (store σ') (Some p) arm_done =
       Some (with_IdempotencyKey (Key r) (rec_Response r), rec_Err r) ∧
     wait (store σ') (Some p) arm_done = wait (store σ) (Some p) arm_done).
Proof.
  intros Hok%reachable_ok. split; [intros p; by apply returned_answers|].
  intros p r σ' Hr Ht Hs. destruct (steps_inv eventOf σ σ' Hok Hs) as [Hok' Hle].
    assert (Hw : ∀ σ r', system_ok σ → heap (store σ) !! p = Some r' → terminal r' = true →
      wait (store σ) (Some p) arm_done =
        Some (with_IdempotencyKey (Key r') (rec_Response r'), rec_Err r')).
    { intros σ0 r' Hok0 Hr' Ht'. destruct (so_records σ0 Hok0 _ _ Hr') as (ph & _ & Hrec).
      apply terminal_true in Ht' as Hst. unfold record_ok in Hrec.
      assert (done r' = true) as Hd by (destruct Hst as [E|E]; rewrite E in Hrec; tauto).
      unfold wait, waitResult. rewrite Hr'. simpl. rewrite Hd, Ht'.
      unfold in_state. by destruct Hst as [->| ->]. }
    destruct (Hle p r Hr) as (r' & Hr' & Hk & _ & Hcase).
    apply terminal_true in Ht as Hst.
    assert (State r' = State r ∧ rec_Response r' = rec_Response r ∧ rec_Err r' = rec_Err r)
      as (Es & E1 & E2) by (destruct Hst as [E|E]; rewrite E in Hcase |- *; done).
    rewrite (Hw σ r), (Hw σ' r'); try done.
    + by rewrite Hk, E1, E2.
    + apply terminal_true. by rewrite Es.
Qed.

(** ** Concrete instances: one submission, from [begin] to its commit status *)

Definition ex_event (_ : SdkEndorsement) (_ : string) : option ChaincodeEvent := None.
Definition ex_out : InvocationResponse := with_Submitted true
  (mkInvocationResponse "tx1" 200 "" "" "" false false "" 0 0 "" false None []).
Definition ex_end : SdkEndorsement := mkSdkEndorsement None [].
Definition ex_begun : system :=
  mkSystem (begin 10 (store initial) "tx1" "digest").1 (<[1%positive := Begun]> (owner initial)).
Definition ex_executed : system :=
  mkSystem (markExecuted 11 (store ex_begun) (Some 1%positive) "tx1")
    (<[1%positive := Executed]> (owner ex_begun)).
Definition ex_submitted : system :=
  mkSystem (default newIdempotencyStore
    (markSubmission ex_event 12 (store ex_executed) (Some 1%positive) ex_out ex_end None None))
    (<[1%positive := Handed]> (owner ex_executed)).
Definition ex_returned : system :=
  mkSystem (default newIdempotencyStore
    (complete 13 (store ex_submitted) (Some 1%positive) ex_out None))
    (<[1%positive := Returned]> (owner ex_submitted)).
Definition ex_confirmed : system :=
  mkSystem (default newIdempotencyStore
    (confirmFinality 14 (store ex_returned) (Some 1%positive)
       (with_finality "COMMITTED" 7 0 ex_out) None)) (owner ex_returned).

Lemma ex_begun_reachable : reachable ex_event ex_begun.
Proof. apply rtc_once. apply (step_begin _ _ 10 "tx1" "digest"). reflexivity. Qed.

Lemma ex_executed_reachable : reachable ex_event ex_executed.
Proof.
  eapply rtc_r; [apply ex_begun_reachable|]. apply (step_markExecuted _ _ 11 1 "tx1"). reflexivity.
Qed.

Lemma ex_submitted_reachable : reachable ex_event ex_submitted.
Proof.
  eapply rtc_r; [apply ex_executed_reachable|].
  apply (step_markSubmission _ _ 12 1 ex_out ex_end None None); reflexivity.
Qed.

Lemma ex_returned_step : step ex_event ex_submitted ex_returned.
Proof. apply (step_complete _ _ 13 1 Handed ex_out None); done. Qed.

Lemma ex_confirmed_step : step ex_event ex_returned ex_confirmed.
Proof.
  by apply (step_confirm _ _ 14 (Some 1%positive) (with_finality "COMMITTED" 7 0 ex_out) None).
Qed.

Lemma records_never_panic_witness :
  records (store ex_submitted) !! "tx1" = Some 1%positive ∧ ¬ panics ex_event ex_submitted.
Proof.
  split; [vm_compute; reflexivity|]. apply records_never_panic, ex_submitted_reachable.
Defined.

Lemma begin_exact_witness :
  (begin 20 (store ex_submitted) "tx1" "digest").2 = Ok (1%positive, false) ∧
  (begin 20 (store ex_submitted) "tx2" "digest").2 = Ok (2%positive, true).
Proof.
  destruct (begin_exact ex_event ex_submitted 20 "tx1" "digest" ex_submitted_reachable)
    as (_ & _ & H & _); [done..|].
  split; [|vm_compute; reflexivity]. apply H.
  eexists. split; [vm_compute; reflexivity|]. split_and!; reflexivity.
Defined.

Lemma submission_kept_witness :
  ∃ r', heap (store ex_confirmed) !! 1%positive = Some r' ∧ Key r' = "tx1" ∧
    ((State r' = idempotencySubmitted ∧
      records (store ex_confirmed) !! "tx1" = Some 1%positive ∧
      rec_Response r' = with_FinalityPending true ex_out ∧ afterCommit r' = None) ∨
     (State r' = idempotencyCompleted ∧
      records (store ex_confirmed) !! "tx1" ≠ Some 1%positive ∧
      CommitStatus (rec_Response r') ≠ "" ∧ FinalityPending (rec_Response r') = false)).
Proof.
  refine (submission_kept ex_event ex_submitted ex_confirmed 1
    (mkRecord "tx1" "digest" idempotencySubmitted "tx1" (with_FinalityPending true ex_out)
       None 10 12 true false false None None) ex_submitted_reachable _ _ _).
  - eapply rtc_l; [apply ex_returned_step|]. eapply rtc_l; [apply ex_confirmed_step|].
    apply rtc_refl.
  - vm_compute. reflexivity.
  - reflexivity.
Defined.

Lemma waiters_agree_witness :
  ∃ arm, (arm = arm_done ∨ arm = arm_submitted) ∧
    is_Some (wait (store ex_returned) (Some 1%positive) arm).
Proof.
  apply (waiters_agree ex_event ex_returned).
  - eapply rtc_r; [apply ex_submitted_reachable|apply ex_returned_step].
  - vm_compute. reflexivity.
Defined.

End Idempotency.
