(* ===== verification/Msp.v ===== *)
(** MSP trust, [pkg/auth/msp.go].

    The identity library (Fabric's [msp], [cauthdsl], [policydsl], X.509 and PEM
    decoding, protobuf) is the class [MSPLib]: its types and functions are
    parameters of everything that authenticates.  Times are nanoseconds. *)
From Stdlib Require Import ZArith Lia.
From stdpp Require Import base option list strings gmap sets.
From S2P Require Import Prelude.
Local Open Scope Z_scope.

Module Msp.

(** The external identity library. *)
Class MSPLib := {
  identity : Type;
  manager : Type;
  provider : Type;
  policy : Type;
  envelope_t : Type;
  (** [msppb.Identity], as made by [msppb.NewIdentity] or decoded from bytes. *)
  serialized : Type;
  NewIdentity : string → bytes → serialized;
  MspId : serialized → string;
  unmarshal_Identity : bytes → result serialized;
  unmarshal_SerializedIdentity : bytes → result (string * bytes);
  LoadVerifyingMspDir : string → string → result provider;
  Setup : list provider → result manager;
  DeserializeIdentity : manager → serialized → result identity;
  Validate : identity → option goerr;
  Verify : identity → bytes → bytes → option goerr;
  GetMSPIdentifier : identity → string;
  GetIdentifier : identity → string * string;
  GetCertificatePEM : identity → result bytes;
  pem_Decode : bytes → option bytes;
  ParseCertificate : bytes → result (Z * Z);
  policydsl_FromString : string → result envelope_t;
  (** The principals of an envelope, decoded as [MSPRole]. *)
  role_principals : envelope_t → list (result string);
  (** The deserializer may be nil. *)
  NewPolicy : option manager → envelope_t → result policy;
  EvaluateIdentities : policy → list identity → option goerr }.

Section Verifier.
Context {L : MSPLib}.

Record MSPConfig := mkMSPConfig { cfg_MSPID : string; cfg_MSPDir : string }.

Record Verifier := mkVerifier { identities : option manager; known : gset string }.

(** [return nil, fmt.Errorf("...: %w", err)] of a step of the library. *)
Definition wrap_err {A} (msg : string) (m : result A) : result A :=
  match m with Ok x => Ok x | Err e => Err (EWrap msg e) end.

(** [if err := f(); err != nil { return err }]. *)
Definition check_err (e : option goerr) : result () :=
  match e with Some e => Err e | None => Ok () end.

(** The loop of [NewVerifier] over the configured MSPs. *)
Fixpoint load_msps (configs : list MSPConfig) (trusted : list provider) (known : gset string)
    : result (list provider * gset string) :=
  match configs with
  | [] => Ok (trusted, known)
  | entry :: rest =>
      guard_err (bool_decide (cfg_MSPID entry = "") || bool_decide (cfg_MSPDir entry = "") ||
                 bool_decide (cfg_MSPID entry ∈ known))
        (ENew "invalid or duplicate trusted MSP %q");;
      p ← wrap_err "load MSP %s: %w" (LoadVerifyingMspDir (cfg_MSPID entry) (cfg_MSPDir entry));
      load_msps rest (trusted ++ [p]) ({[cfg_MSPID entry]} ∪ known)
  end.

Definition NewVerifier (configs : list MSPConfig) : result Verifier :=
  guard_err (bool_decide (length configs = 0%nat)) (ENew "trusted MSPs are required");;
  loaded ← load_msps configs [] ∅;
  m ← wrap_err "set up MSP manager: %w" (Setup loaded.1);
  Ok (mkVerifier (Some m) loaded.2).

Definition ValidateIdentityTime (id : identity) (now : Z) : result () :=
  certPEM ← wrap_err "read identity certificate: %w" (GetCertificatePEM id);
  match pem_Decode certPEM with
  | None => Err (ENew "identity certificate is not PEM")
  | Some block =>
      validity ← wrap_err "parse identity certificate: %w" (ParseCertificate block);
      guard_err ((now <? validity.1) || (validity.2 <? now))
        (ENew "identity certificate is outside its validity period")
  end.

(** [v = None] is a nil verifier. *)
Definition Identity (v : option Verifier) (creator : bytes) (now : Z) : result identity :=
  match v ≫= identities with
  | None => Err (ENew "MSP verification is not configured")
  | Some m =>
      s ← wrap_err "decode creator: %w" (unmarshal_SerializedIdentity creator);
      guard_err (bool_decide (s.1 = "") || bool_decide (s.2 = ""))
        (ENew "creator requires MSP ID and certificate");;
      id ← wrap_err "deserialize creator: %w" (DeserializeIdentity m (NewIdentity s.1 s.2));
      wrap_err "untrusted creator: %w" (check_err (Validate id));;
      ValidateIdentityTime id now;;
      Ok id
  end.

Definition Authenticate (v : option Verifier) (creator message signature : bytes) (now : Z)
    : result identity :=
  guard_err (bool_decide (message = "") || bool_decide (signature = ""))
    (ENew "signed message and signature are required");;
  id ← Identity v creator now;
  wrap_err "invalid request signature: %w" (check_err (Verify id message signature));;
  Ok id.

(** The loop of [CompilePolicy] over the principals of the expression. *)
Fixpoint check_principals (known : gset string) (l : list (result string)) : result () :=
  match l with
  | [] => Ok ()
  | r :: rest =>
      mspid ← r;
      guard_err (negb (bool_decide (mspid ∈ known)))
        (ENew "policy references untrusted MSP %q");;
      check_principals known rest
  end.

Definition CompilePolicy (v : option Verifier) (expression : string) : result policy :=
  match v with
  | None => Err (ENew "MSP verification is not configured")
  | Some v =>
      env ← policydsl_FromString expression;
      check_principals (known v) (role_principals env);;
      NewPolicy (identities v) env
  end.

(** What a successful authentication establishes. *)
Record authentic (v : Verifier) (creator message signature : bytes) (now : Z) (id : identity)
    : Prop := mkAuthentic {
  au_identity : ∃ m s cert, identities v = Some m ∧
    unmarshal_SerializedIdentity creator = Ok (s, cert) ∧ s ≠ "" ∧ cert ≠ "" ∧
    DeserializeIdentity m (NewIdentity s cert) = Ok id;
  au_valid : Validate id = None;
  au_time : ∃ pem block from to, GetCertificatePEM id = Ok pem ∧ pem_Decode pem = Some block ∧
    ParseCertificate block = Ok (from, to) ∧ from ≤ now ≤ to;
  au_message : message ≠ "" ∧ signature ≠ "" ∧ Verify id message signature = None }.

Lemma wrap_err_ok {A} msg (m : result A) x : wrap_err msg m = Ok x ↔ m = Ok x.
Proof. by destruct m. Qed.

Lemma check_err_ok e u : check_err e = Ok u ↔ e = None.
Proof. destruct e, u; naive_solver. Qed.

Lemma ValidateIdentityTime_ok id now u :
  ValidateIdentityTime id now = Ok u ↔
  ∃ pem block from to, GetCertificatePEM id = Ok pem ∧ pem_Decode pem = Some block ∧
    ParseCertificate block = Ok (from, to) ∧ from ≤ now ≤ to.
Proof.
  unfold ValidateIdentityTime. destruct u. split.
  - intros H. inv_ok. apply wrap_err_ok in Hx.
    destruct (pem_Decode x) as [block|] eqn:E; inv_ok. apply wrap_err_ok in Hx0.
    destruct x0 as [from to]. bool_props. exists x, block, from, to. auto.
  - intros (pem & block & from & to & H1 & H2 & H3 & Hle).
    rewrite H1. simpl. rewrite H2, H3. simpl. apply guard_err_ok.
    rewrite orb_false_iff, !Z.ltb_ge. lia.
Qed.

Lemma Authenticate_ok v creator message signature now id :
  Authenticate (Some v) creator message signature now = Ok id ↔
  authentic v creator message signature now id.
Proof.
  unfold Authenticate, Identity. simpl. split.
  - intros H. inv_ok. bool_props.
    destruct (identities v) as [m|] eqn:Em; inv_ok. bool_props.
    repeat match goal with
    | H : wrap_err _ _ = Ok _ |- _ => apply wrap_err_ok in H
    | H : check_err _ = Ok _ |- _ => apply check_err_ok in H
    end.
    match goal with p : (string * bytes)%type |- _ => destruct p as [s cert] end. simpl in *.
    constructor; [by exists m, s, cert|done| |done].
    match goal with H : ValidateIdentityTime _ _ = Ok _ |- _ =>
      by apply ValidateIdentityTime_ok in H end.
  - intros [(m & s & cert & Em & Hs & ? & ? & Hid) Hv Ht (? & ? & Hver)].
    rewrite !bool_decide_eq_false_2 by done. simpl. rewrite Em, Hs. simpl.
    rewrite !bool_decide_eq_false_2 by done. simpl. rewrite Hid. simpl. rewrite Hv. simpl.
    rewrite (proj2 (ValidateIdentityTime_ok id now ())) by done. simpl. by rewrite Hver.
Qed.

End Verifier.
End Msp.
