(* ===== verification/EndorsementPolicy.v ===== *)
(** Namespace endorsement policies, [pkg/orchestrator/endorsement_policy.go].

    Fabric's policy evaluator, its principals, the namespace signature verifier
    and protobuf decoding are the class [PolicyLib].  [ctx.Err()] is consulted at
    many points of the searches: [ctx k] is its answer at the k-th consultation,
    counted in the search state. *)
From Stdlib Require Import Ascii ZArith Lia.
From stdpp Require Import base option list strings gmap.
From S2P Require Import Prelude LifecycleStore OrchestratorTypes Msp.
Import Types.
Local Open Scope Z_scope.

Module Policy.

(** ** Data *)

Inductive PrincipalClassification : Set :=
  | ROLE | ORGANIZATION_UNIT | IDENTITY | ANONYMITY | COMBINED | OTHER_CLASSIFICATION (n : Z).

Record MSPPrincipal := mkPrincipal { Classification : PrincipalClassification; Principal : bytes }.

(** A [SignaturePolicy] and its nil cases. *)
Inductive SignaturePolicy : Type :=
  | SP_SignedBy (i : Z)
  | SP_NOutOf (n : Z) (rules : list (option SignaturePolicy))
  | SP_NOutOfNil
  | SP_unset.

Record SignaturePolicyEnvelope := mkEnvelope {
  Rule : option SignaturePolicy;
  Identities : list (option MSPPrincipal) }.

Inductive NamespaceRule : Type :=
  | MspRule (envelope : bytes)
  | ThresholdRule (scheme_key : option (string * bytes))
  | RuleUnset.

Record NamespacePolicySnapshot := mkSnapshot {
  snap_Namespace : string;
  snap_Version : Z;
  RawPolicy : bytes;
  snap_Policy : option NamespaceRule }.

(** Policy evaluation, signature verification and protobuf decoding. *)
Class PolicyLib `{Msp.MSPLib} := {
  unmarshal_Envelope : bytes → result SignaturePolicyEnvelope;
  unmarshal_MSPRole : bytes → result string;
  unmarshal_OrganizationUnit : bytes → result string;
  unmarshal_CombinedPrincipal : bytes → result (list (option MSPPrincipal));
  unmarshal_Anonymity : bytes → result ();
  unmarshal_Tx : bytes → result Tx;
  cauthdsl_NewPolicy : Msp.manager → bytes → result Msp.policy;
  SatisfiesPrincipal : Msp.identity → MSPPrincipal → option goerr;
  ASN1Marshal : TxNamespace → string → list bytes → result bytes;
  nsVerifier : Type;
  NewNsVerifier : NamespaceRule → option Msp.manager → result nsVerifier;
  (** The transaction, its endorsements and the namespace index. *)
  VerifyNs : nsVerifier → string → Tx → list (Msp.serialized * bytes) → nat → option goerr }.

(** [strings.EqualFold] against an ASCII word: besides the other letter case,
    only U+017F folds to S and U+212A to K. *)
Definition ascii_lower (c : Ascii.ascii) : Ascii.ascii :=
  let n := Ascii.nat_of_ascii c in
  if (65 <=? n)%nat && (n <=? 90)%nat then Ascii.ascii_of_nat (n + 32) else c.

Fixpoint EqualFold (s word : string) : bool :=
  match word, s with
  | EmptyString, EmptyString => true
  | String w word', String c s' =>
      let w := ascii_lower w in
      (Ascii.eqb (ascii_lower c) w && EqualFold s' word') ||
      (Ascii.eqb w "s"%char && Ascii.eqb c (Ascii.ascii_of_nat 197) &&
       match s' with
       | String c2 s'' => Ascii.eqb c2 (Ascii.ascii_of_nat 191) && EqualFold s'' word'
       | EmptyString => false
       end) ||
      (Ascii.eqb w "k"%char && Ascii.eqb c (Ascii.ascii_of_nat 226) &&
       match s' with
       | String c2 (String c3 s'') => Ascii.eqb c2 (Ascii.ascii_of_nat 132) &&
           Ascii.eqb c3 (Ascii.ascii_of_nat 170) && EqualFold s'' word'
       | _ => false
       end)
  | _, _ => false
  end.

Section Policies.
Context `{P : PolicyLib}.

(** [deserializer = None] is a nil interface. *)
Record namespaceEndorsementPolicy := mkPolicy {
  snapshot : NamespacePolicySnapshot;
  deserializer : option Msp.manager;
  envelope : option SignaturePolicyEnvelope;
  policy : option Msp.policy;
  verifier : nsVerifier;
  targetMSPs : list string;
  unscoped : bool }.

Record verifiedEndorsement := mkVerified {
  ve_result : helperExecutionResult;
  ve_identity : option Msp.identity;
  ve_key : string;
  ve_mspID : string }.

(** ** Routing hints: [p.targetMSPs] and [p.unscoped], threaded through *)

Definition hints : Type := list string * bool.

Definition add_target (mspID : string) (st : hints) : hints :=
  if bool_decide (mspID ∈ st.1) then st else (st.1 ++ [mspID], st.2).

Definition with_msp (mspID : result string) (msg : string) (st : hints) : result hints :=
  mspID ← Msp.wrap_err msg mspID;
  guard_err (bool_decide (mspID = "")) (ENew "MSP principal requires an MSP ID");;
  Ok (add_target mspID st).

(** Combined principals nest through their encoded bytes, so the recursion runs
    on fuel; [inspectPrincipal] gives it more than the number of bytes. *)
Fixpoint inspect_principal (fuel : nat) (principal : option MSPPrincipal) (st : hints)
    : result hints :=
  match fuel, principal with
  | O, _ => Err (ENew "out of fuel")
  | _, None => Err (ENew "nil MSP principal")
  | S fuel, Some p =>
      match Classification p with
      | ROLE => with_msp (unmarshal_MSPRole (Principal p)) "decode MSP role: %w" st
      | ORGANIZATION_UNIT =>
          with_msp (unmarshal_OrganizationUnit (Principal p)) "decode organizational unit: %w" st
      | IDENTITY =>
          with_msp (Msp.MspId <$> Msp.unmarshal_Identity (Principal p))
            "decode identity principal: %w" st
      | COMBINED =>
          children ← Msp.wrap_err "decode combined principal: %w"
                       (unmarshal_CombinedPrincipal (Principal p));
          guard_err (bool_decide (length children = O)) (ENew "empty combined principal");;
          foldl (fun acc child => st ← acc; inspect_principal fuel child st) (Ok st) children
      | ANONYMITY =>
          Msp.wrap_err "decode anonymity principal: %w" (unmarshal_Anonymity (Principal p));;
          Ok (st.1, true)
      | OTHER_CLASSIFICATION _ => Err (ENew "unsupported MSP principal classification %s")
      end
  end.

Definition principal_size (p : option MSPPrincipal) : nat :=
  match p with Some p => String.length (Principal p) | None => O end.

Definition inspectPrincipal (p : option MSPPrincipal) (st : hints) : result hints :=
  inspect_principal (S (principal_size p)) p st.

Fixpoint inspect_rule (ids : list (option MSPPrincipal)) (rule : SignaturePolicy) (st : hints)
    {struct rule} : result hints :=
  match rule with
  | SP_SignedBy i =>
      guard_err ((i <? 0) || (i >=? Z.of_nat (length ids)))
        (ENew "signed_by index %d out of range");;
      inspectPrincipal (default None (ids !! Z.to_nat i)) st
  | SP_NOutOfNil => Err (ENew "invalid n_out_of signature policy threshold")
  | SP_NOutOf n rules =>
      guard_err ((n <? 0) || (n >? Z.of_nat (length rules)))
        (ENew "invalid n_out_of signature policy threshold");;
      (fix inspect_rules (rules : list (option SignaturePolicy)) (st : hints) : result hints :=
         match rules with
         | [] => Ok st
         | None :: _ => Err (ENew "empty signature policy rule")
         | Some child :: rest => st ← inspect_rule ids child st; inspect_rules rest st
         end) rules st
  | SP_unset => Err (ENew "unsupported signature policy rule %T")
  end.

Definition inspectRule (ids : list (option MSPPrincipal)) (rule : option SignaturePolicy)
    (st : hints) : result hints :=
  match rule with
  | None => Err (ENew "empty signature policy rule")
  | Some rule => inspect_rule ids rule st
  end.

(** ** Construction *)

Definition newNamespaceEndorsementPolicy (snap : NamespacePolicySnapshot)
    (deser : option Msp.manager) : result namespaceEndorsementPolicy :=
  match snap_Policy snap with
  | None => Err (ENew "namespace %q policy is nil")
  | Some rule =>
      parts ← match rule with
        | MspRule raw =>
            match deser with
            | None => Err (ENew "trusted MSPs are required to verify namespace endorsements")
            | Some m =>
                env ← Msp.wrap_err "decode namespace MSP policy: %w" (unmarshal_Envelope raw);
                st ← inspectRule (Identities env) (Rule env) ([], false);
                pol ← Msp.wrap_err "compile namespace MSP policy: %w" (cauthdsl_NewPolicy m raw);
                Ok (Some env, Some pol, st)
            end
        | ThresholdRule None => Err (ENew "namespace threshold policy is nil")
        | ThresholdRule (Some (scheme, key)) =>
            guard_err (bool_decide (scheme = ""))
              (ENew "namespace threshold policy scheme is empty");;
            guard_err (bool_decide (key = "") && negb (EqualFold scheme "NONE"))
              (ENew "namespace threshold policy public key is empty");;
            guard_err (EqualFold scheme "EDDSA" && negb (bool_decide (String.length key = 32%nat)))
              (ENew "invalid EdDSA namespace public key length");;
            Ok (None, None, ([], false))
        | RuleUnset => Err (ENew "unsupported namespace policy rule %T")
        end;
      let '(env, pol, st) := parts in
      v ← Msp.wrap_err "compile namespace signature verifier: %w" (NewNsVerifier rule deser);
      Ok (mkPolicy snap deser env pol v st.1 st.2)
  end.

(** ** Verifying endorsements *)

Fixpoint endorsements_with_identity (responses : list (option ProposalResponse))
    : result (list (Msp.serialized * bytes)) :=
  match responses with
  | [] => Ok []
  | r :: rest =>
      let e := default (mkEndorsement "" "") (r ≫= pr_Endorsement) in
      id ← Msp.unmarshal_Identity (Endorser e);
      l ← endorsements_with_identity rest;
      Ok ((id, Signature e) :: l)
  end.

(** The responses come from [authenticate], which rejects nil endorsements. *)
Definition verifySelection (p : namespaceEndorsementPolicy) (end_ : SdkEndorsement) (txID : string)
    : result () :=
  match end_Responses end_ with
  | [] => Err (ENew "no selected endorsements")
  | first :: _ =>
      tx ← unmarshal_Tx (default "" (pr_Payload <$> first));
      l ← endorsements_with_identity (end_Responses end_);
      Msp.check_err (VerifyNs (verifier p) txID tx l 0)
  end.

Definition identity_key (id : Msp.identity) : string :=
  (Msp.GetIdentifier id).1 +:+ String (Ascii.ascii_of_nat 0) (Msp.GetIdentifier id).2.

Definition authenticate (now : Z) (p : namespaceEndorsementPolicy) (r : helperExecutionResult)
    (expectedMSP : string) (requireMSP : bool) : result verifiedEndorsement :=
  match end_Responses (res_Endorsement r) with
  | [Some response] =>
      match pr_Response response, pr_Endorsement response with
      | Some resp, Some e =>
          guard_err (bool_decide (Signature e = ""))
            (ENew "execution response is missing its endorsement");;
          guard_err (negb (status_ok (Status resp))) (ENew "execution failed with status %d");;
          tx ← Msp.wrap_err "decode endorsed native transaction: %w"
                 (unmarshal_Tx (pr_Payload response));
          match Namespaces tx with
          | [ns] =>
              guard_err (negb (bool_decide (NsId ns = snap_Namespace (snapshot p))) ||
                         negb (NsVersion ns =? snap_Version (snapshot p)))
                (ENew "endorsement namespace or policy version does not match the invocation");;
              if negb (bool_decide (is_Some (envelope p))) && negb requireMSP
              then Ok (mkVerified r None (Endorser e) expectedMSP)
              else
                (if bool_decide (is_Some (envelope p)) then Ok ()
                 else
                   Msp.wrap_err "invalid namespace endorsement signature: %w"
                     (verifySelection p (res_Endorsement r) (res_TxID r));;
                   guard_err (negb (bool_decide (is_Some (deserializer p))))
                     (ENew "explicit organization selection requires MSP verification"));;
                ser ← Msp.wrap_err "decode endorser identity: %w" (Msp.unmarshal_Identity (Endorser e));
                id ← match deserializer p with
                     | Some m => Msp.wrap_err "deserialize endorser: %w" (Msp.DeserializeIdentity m ser)
                     | None => Err (EExt "nil deserializer")
                     end;
                guard_err (negb (bool_decide (Msp.GetMSPIdentifier id = expectedMSP)))
                  (ENew "endorser MSP %q does not match requested MSP %q");;
                Msp.wrap_err "untrusted endorser: %w" (Msp.check_err (Msp.Validate id));;
                Msp.ValidateIdentityTime id now;;
                data ← ASN1Marshal ns (res_TxID r) (Metadata tx);
                Msp.wrap_err "invalid namespace endorsement signature: %w"
                  (Msp.check_err (Msp.Verify id data (Signature e)));;
                Ok (mkVerified r (Some id) (identity_key id) (Msp.GetMSPIdentifier id))
          | _ =>
              Err (ENew "endorsement namespace or policy version does not match the invocation")
          end
      | _, _ => Err (ENew "execution response is missing its endorsement")
      end
  | [None] => Err (ENew "execution response is missing its endorsement")
  | _ => Err (ENew "expected exactly one execution endorsement")
  end.

(** What an authenticated endorsement is under an MSP policy: a successful response to this
    transaction, for the policy's namespace and version, whose signature over exactly that
    namespace verifies for a valid certificate of the expected organization. *)
Record endorser_authentic (now : Z) (p : namespaceEndorsementPolicy) (r : helperExecutionResult)
    (mspID : string) (v : verifiedEndorsement) : Prop := mkEndorserAuthentic {
  ea_signed : ∃ response resp e tx ns m ser id data,
    end_Responses (res_Endorsement r) = [Some response] ∧
    pr_Response response = Some resp ∧ status_ok (Status resp) = true ∧
    pr_Endorsement response = Some e ∧ unmarshal_Tx (pr_Payload response) = Ok tx ∧
    Namespaces tx = [ns] ∧ NsId ns = snap_Namespace (snapshot p) ∧
    NsVersion ns = snap_Version (snapshot p) ∧
    deserializer p = Some m ∧ Msp.unmarshal_Identity (Endorser e) = Ok ser ∧
    Msp.DeserializeIdentity m ser = Ok id ∧ Msp.GetMSPIdentifier id = mspID ∧
    Msp.Validate id = None ∧ Msp.ValidateIdentityTime id now = Ok () ∧
    ASN1Marshal ns (res_TxID r) (Metadata tx) = Ok data ∧
    Signature e ≠ "" ∧ Msp.Verify id data (Signature e) = None ∧
    v = mkVerified r (Some id) (identity_key id) mspID }.

Lemma authenticate_authentic now p r mspID requireMSP v :
  is_Some (envelope p) → authenticate now p r mspID requireMSP = Ok v →
  endorser_authentic now p r mspID v.
Proof.
  intros Henv Ha. unfold authenticate in Ha. rewrite bool_decide_eq_true_2 in Ha by done. cbn [negb andb] in Ha.
  destruct (end_Responses _) as [|[response|] [|]] eqn:Er; try done.
  destruct (pr_Response response) as [resp|] eqn:Hresp; [|done].
  destruct (pr_Endorsement response) as [e|] eqn:He; [|done].
  apply bind_ok in Ha as ([] & Hsig & Ha). apply bind_ok in Ha as ([] & Hst & Ha).
  apply guard_err_ok in Hsig, Hst.
  apply bind_ok in Ha as (tx & Htx & Ha). apply Msp.wrap_err_ok in Htx.
  destruct (Namespaces tx) as [|ns [|]] eqn:Hns; try done.
  apply bind_ok in Ha as ([] & Hg & Ha). apply guard_err_ok in Hg.
  apply bind_ok in Ha as ([] & _ & Ha).
  apply bind_ok in Ha as (ser & Hser & Ha). apply Msp.wrap_err_ok in Hser.
  apply bind_ok in Ha as (id & Hid & Ha). destruct (deserializer p) as [m|] eqn:Hm; [|done].
  apply Msp.wrap_err_ok in Hid.
  apply bind_ok in Ha as ([] & Hmsp & Ha). apply guard_err_ok in Hmsp.
  apply bind_ok in Ha as ([] & Hval & Ha). apply Msp.wrap_err_ok, Msp.check_err_ok in Hval.
  apply bind_ok in Ha as ([] & Htime & Ha).
  apply bind_ok in Ha as (data & Hdata & Ha).
  apply bind_ok in Ha as ([] & Hver & Ha). apply Msp.wrap_err_ok, Msp.check_err_ok in Hver.
  injection Ha as <-. apply orb_false_iff in Hg as [Hg1 Hg2]. bool_props. constructor.
  exists response, resp, e, tx, ns, m, ser, id, data. split_and!; congruence.
Qed.

End Policies.

End Policy.
