(* ===== verification/PolicyResolver.v ===== *)
(** Loading namespace policies and the cache of the last ones seen,
    [orchestrator/policy.go].

    The answer of the Query Service is an argument; its client may be nil.  The resolver is
    [None] for nil, else its map.  A snapshot is a value here, so cloning it is the identity:
    nothing in the code changes a snapshot in place. *)
From Stdlib Require Import ZArith Lia.
From stdpp Require Import base option list strings gmap.
From S2P Require Import Prelude LifecycleStore OrchestratorTypes Msp EndorsementPolicy.
Import Policy.
Local Open Scope Z_scope.

Module PolicyResolver.

(** An item of [NamespacePolicies]. *)
Record PolicyItem := mkItem { pi_Namespace : string; pi_Version : Z; pi_Policy : bytes }.

(** [proto.Unmarshal] of an [applicationpb.NamespacePolicy]. *)
Class PolicyProto := { unmarshal_NamespacePolicy : bytes → result NamespaceRule }.

Section Resolver.
Context {PP : PolicyProto}.

(** The loop of [loadNamespacePolicy]. *)
Fixpoint find_policy (namespace : string) (items : list PolicyItem) : result NamespacePolicySnapshot :=
  match items with
  | [] => Err (ENew "namespace %q policy not found")
  | item :: rest =>
      if negb (bool_decide (pi_Namespace item = namespace)) then find_policy namespace rest
      else if bool_decide (pi_Policy item = "") then Err (ENew "namespace %q has empty policy")
      else
        match unmarshal_NamespacePolicy (pi_Policy item) with
        | Err e => Err (EWrap "decode namespace %q policy: %w" e)
        | Ok policy =>
            Ok (mkSnapshot (pi_Namespace item) (pi_Version item) (pi_Policy item) (Some policy))
        end
  end.

Definition loadNamespacePolicy (query : option (result (list PolicyItem))) (namespace : string)
    : result NamespacePolicySnapshot :=
  match query with
  | None => Err (ENew "query service client is required")
  | Some (Err e) => Err e
  | Some (Ok items) => find_policy namespace items
  end.

(** The map [seen]. *)
Notation seen_policies := (gmap string NamespacePolicySnapshot) (only parsing).

Definition Resolve (r : option seen_policies) (query : option (result (list PolicyItem)))
    (namespace : string) : option seen_policies * result NamespacePolicySnapshot :=
  match r with
  | None => (None, Err (ENew "namespace policy resolver is required"))
  | Some seen =>
      match loadNamespacePolicy query namespace with
      | Err e => (Some seen, Err e)
      | Ok snapshot => (Some (<[namespace := snapshot]> seen), Ok snapshot)
      end
  end.

Definition Snapshot (r : option seen_policies) (namespace : string) : option NamespacePolicySnapshot :=
  r ≫= λ seen, seen !! namespace.

(** [Service.CachedNamespacePolicy]. *)
Definition CachedNamespacePolicy (r : option seen_policies) (namespace : string)
    : option NamespacePolicySnapshot := Snapshot r namespace.

(** [Service.resolveNamespacePolicy]. *)
Definition resolveNamespacePolicy (r : option seen_policies) (query : option (result (list PolicyItem)))
    (namespace : string) : option seen_policies * result NamespacePolicySnapshot :=
  match r with
  | None => (None, Err (ENew "namespace policy resolver is not configured"))
  | Some _ => Resolve r query namespace
  end.

Definition RuleName (p : NamespacePolicySnapshot) : string :=
  match snap_Policy p with
  | Some (MspRule _) => "msp"
  | Some (ThresholdRule _) => "threshold"
  | _ => "unknown"
  end.

(** ** Lemmas *)

Lemma find_policy_ok namespace items snap :
  find_policy namespace items = Ok snap →
  snap_Namespace snap = namespace ∧ RawPolicy snap ≠ "" ∧
  (∃ rule, unmarshal_NamespacePolicy (RawPolicy snap) = Ok rule ∧ snap_Policy snap = Some rule) ∧
  ∃ before after, items = before ++ mkItem namespace (snap_Version snap) (RawPolicy snap) :: after ∧
    Forall (λ i, pi_Namespace i ≠ namespace) before.
Proof.
  induction items as [|i items IH]; simpl; [done|]. case_bool_decide as Hn; cbn [negb].
  - case_bool_decide as Hp; [done|]. destruct (unmarshal_NamespacePolicy (pi_Policy i)) as [rule|e] eqn:Hu;
      [|intros H; discriminate H].
    intros H. injection H as <-. simpl. split_and!; [done|done|by exists rule|].
    exists [], items. destruct i as [n v p]. simpl in *. by subst n.
  - intros H. destruct (IH H) as (H1 & H2 & H3 & before & after & -> & Hb).
    split_and!; [done..|]. exists (i :: before), after. split; [done|]. by constructor.
Qed.

(** Resolutions in the order they finish, from an empty cache. *)
Fixpoint resolved (ops : list (string * option (result (list PolicyItem))))
    : option seen_policies :=
  match ops with
  | [] => Some ∅
  | (ns, query) :: earlier => (Resolve (resolved earlier) query ns).1
  end.

(** The snapshot of the last successful resolution of a namespace; the latest comes first. *)
Fixpoint last_loaded (namespace : string) (ops : list (string * option (result (list PolicyItem))))
    : option NamespacePolicySnapshot :=
  match ops with
  | [] => None
  | (ns, query) :: earlier =>
      if bool_decide (ns = namespace)
      then match loadNamespacePolicy query ns with
           | Ok snap => Some snap
           | Err _ => last_loaded namespace earlier
           end
      else last_loaded namespace earlier
  end.

(** The cache answers with the last policy that was loaded for the namespace, which is the first
    the Query Service listed for it; a failed resolution changes nothing. *)
Theorem policy_cache_latest ops namespace :
  CachedNamespacePolicy (resolved ops) namespace = last_loaded namespace ops ∧
  ∀ snap, last_loaded namespace ops = Some snap → snap_Namespace snap = namespace ∧ RawPolicy snap ≠ "".
Proof.
  unfold CachedNamespacePolicy, Snapshot. induction ops as [|[ns query] ops [IH1 IH2]]; simpl; [done|].
  assert (Hsome : is_Some (resolved ops)).
  { clear. induction ops as [|[n q] ops [s Hs]]; simpl; [by eexists|]. rewrite Hs. simpl.
    by destruct (loadNamespacePolicy q n). }
  destruct Hsome as [s Hs]. rewrite Hs in *. cbn [mbind option_bind Resolve] in *.
  destruct (loadNamespacePolicy query ns) as [snap|e] eqn:El; cbn [fst mbind option_bind].
  - case_bool_decide as Hn.
    + subst ns. rewrite lookup_insert_eq. split; [done|]. intros ? [= <-].
      unfold loadNamespacePolicy in El. destruct query as [[items|]|]; [|done..].
      by apply find_policy_ok in El as (? & ? & _).
    + by rewrite lookup_insert_ne.
  - by case_bool_decide.
Qed.

End Resolver.

End PolicyResolver.
