(* ===== verification/Instances.v ===== *)
(** Concrete instances of the classes that stand for the identity and policy
    libraries, on which the witnesses evaluate.  An identity is its MSP and its
    name, serialized as [msp:name]; its signature is its name; a policy or a
    principal is the MSP it requires. *)
From Stdlib Require Import Ascii ZArith Lia.
From stdpp Require Import base option list strings gmap.
From S2P Require Import Prelude LifecycleStore OrchestratorTypes Msp EndorsementPolicy.
Import Types Policy.
Local Open Scope Z_scope.

Module Instances.

Fixpoint split_colon (s : string) : option (string * string) :=
  match s with
  | EmptyString => None
  | String c rest =>
      if Ascii.eqb c ":"%char then Some (EmptyString, rest)
      else (λ p, (String c p.1, p.2)) <$> split_colon rest
  end.

Definition decode_pair (b : bytes) : result (string * string) :=
  match split_colon b with Some p => Ok p | None => Err (EExt "malformed identity") end.

Definition test (b : bool) : option goerr := if b then None else Some (EExt "refused").

#[export] Instance example_msp : Msp.MSPLib := {|
  Msp.identity := string * string;
  Msp.manager := ();
  Msp.provider := string;
  Msp.policy := string;
  Msp.envelope_t := string;
  Msp.serialized := string * string;
  Msp.NewIdentity := pair;
  Msp.MspId := fst;
  Msp.unmarshal_Identity := decode_pair;
  Msp.unmarshal_SerializedIdentity := decode_pair;
  Msp.LoadVerifyingMspDir name _ := Ok name;
  Msp.Setup _ := Ok ();
  Msp.DeserializeIdentity _ s := Ok s;
  Msp.Validate id := test (negb (bool_decide (id.2 = "revoked")));
  Msp.Verify id _ signature := test (bool_decide (signature = id.2));
  Msp.GetMSPIdentifier id := id.1;
  Msp.GetIdentifier id := id;
  Msp.GetCertificatePEM id := Ok id.2;
  Msp.pem_Decode pem := Some pem;
  Msp.ParseCertificate _ := Ok (0, 100);
  Msp.policydsl_FromString s := Ok s;
  Msp.role_principals s := [Ok s];
  Msp.NewPolicy _ s := Ok s;
  Msp.EvaluateIdentities pol ids := test (existsb (λ id, bool_decide (id.1 = pol)) ids) |}.

#[export] Instance example_policy : PolicyLib := {|
  unmarshal_Envelope b := Ok (mkEnvelope (Some (SP_SignedBy 0)) [Some (mkPrincipal ROLE b)]);
  unmarshal_MSPRole b := Ok b;
  unmarshal_OrganizationUnit b := Ok b;
  unmarshal_CombinedPrincipal b := Ok [];
  unmarshal_Anonymity b := Ok ();
  unmarshal_Tx b := Ok (mkTx [mkTxNamespace b 1 [] [] []] []);
  cauthdsl_NewPolicy _ b := Ok b;
  SatisfiesPrincipal id p := test (bool_decide (id.1 = Principal p));
  ASN1Marshal ns tx _ := Ok (NsId ns +:+ tx);
  nsVerifier := ();
  NewNsVerifier _ _ := Ok ();
  VerifyNs _ _ _ endorsements _ := test (negb (bool_decide (endorsements = []))) |}.

Definition org (msp name : string) : Msp.identity (MSPLib := example_msp) := (msp, name).

Definition ex_endorsement (ns endorser signature : string) : SdkEndorsement :=
  mkSdkEndorsement (Some (mkProposal "header" "payload" ""))
    [Some (mkProposalResponse (Some (mkResponse 200 "" "result")) ns
             (Some (mkEndorsement endorser signature)))].

Definition ex_result (endorser signature : string) : helperExecutionResult :=
  mkResult (ex_endorsement "ns" endorser signature) "tx1"
    (Some (mkResponse 200 "" "result")) None.

Definition ex_snapshot : NamespacePolicySnapshot :=
  mkSnapshot "ns" 1 "Org1MSP" (Some (MspRule "Org1MSP")).

Definition ex_policy : namespaceEndorsementPolicy :=
  mkPolicy ex_snapshot (Some ()) (Some (mkEnvelope (Some (SP_SignedBy 0))
    [Some (mkPrincipal ROLE "Org1MSP")])) (Some "Org1MSP") () ["Org1MSP"] false.

Definition ex_verified (msp name : string) : verifiedEndorsement :=
  mkVerified (ex_result (msp +:+ ":" +:+ name) name) (Some (org msp name))
    (identity_key (org msp name)) msp.

End Instances.
