(* ===== verification/EndorsementSearch.v ===== *)
(** The search for a satisfying set of endorsements: [selectEndorsements] and
    [searchSignatureOrders] of [pkg/orchestrator/endorsement_policy.go].

    The backtracking closures are kept in the code's continuation-passing form;
    the variables they capture and mutate ([used], [selected], [hasWitness]) and
    the number of context checks are the state [St]. *)
From Stdlib Require Import ZArith Lia.
From stdpp Require Import base option list strings gmap.
From S2P Require Import Prelude LifecycleStore OrchestratorTypes Msp EndorsementPolicy Instances.
Import Types Policy.
Local Open Scope nat_scope.

Module Search.

Record St := mkSt {
  used : list bool;
  ticks : nat;
  selected : list nat;
  hasWitness : bool }.

Definition set_used (i : nat) (b : bool) (st : St) : St :=
  mkSt (<[i := b]> (used st)) (ticks st) (selected st) (hasWitness st).

Definition is_used (st : St) (i : nat) : bool := default false (used st !! i).

Section Search.
(** [ctx k]: the [k]-th answer of [ctx.Err()]. *)
Variable ctx : nat → option goerr.
(** [matches !! i !! j]: principal [i] is satisfied by candidate [j]. *)
Variable matches : list (list bool).
(** [p.policy.EvaluateIdentities] on the candidates of these indices is nil. *)
Variable evaluate : list nat → bool.

Definition check_ctx (st : St) : option goerr * St :=
  (ctx (ticks st), mkSt (used st) (S (ticks st)) (selected st) (hasWitness st)).

Definition next_fn : Type := list nat → St → bool * St.

(** The [SignedBy] case: every unused candidate that matches the principal. *)
Fixpoint search_signed (row : list bool) (i : nat) (order : list nat) (next : next_fn) (st : St)
    : bool * St :=
  match row with
  | [] => (false, st)
  | m :: row =>
      if is_used st i || negb m then search_signed row (S i) order next st
      else
        let '(found, st) := next (order ++ [i]) (set_used i true st) in
        let st := set_used i false st in
        if found then (true, st) else search_signed row (S i) order next st
  end.

(** The [NOutOf] case: choose [remaining] of the rules, in their order.  [srch]
    is the recursive search of a child rule. *)
Section Choose.
Variable srch : SignaturePolicy → list nat → next_fn → St → bool * St.

Fixpoint choose (rules : list (option SignaturePolicy)) (remaining : nat) (next : next_fn)
    (order : list nat) (st : St) {struct rules} : bool * St :=
  let '(err, st) := check_ctx st in
  match err with
  | Some _ => (false, st)
  | None =>
      match remaining with
      | O => next order st
      | S remaining' =>
          if length rules <? remaining then (false, st)
          else match rules with
               | [] => (false, st)
               | child :: rest =>
                   let '(found, st) :=
                     match child with
                     | Some child => srch child order (choose rest remaining' next) st
                     | None => (false, (check_ctx st).2)
                     end in
                   if found then (true, st) else choose rest remaining next order st
               end
      end
  end.
End Choose.

Fixpoint search (rule : SignaturePolicy) (order : list nat) (next : next_fn) (st : St)
    {struct rule} : bool * St :=
  let '(err, st) := check_ctx st in
  match err with
  | Some _ => (false, st)
  | None =>
      match rule with
      | SP_SignedBy k => search_signed (default [] (matches !! Z.to_nat k)) 0 order next st
      | SP_NOutOf n rules => choose search rules (Z.to_nat n) next order st
      | _ => (false, st)
      end
  end.

(** The continuation of the outermost call. *)
Definition try_order (order : list nat) (st : St) : bool * St :=
  let st := mkSt (used st) (ticks st) (selected st) true in
  let order := match order with [] => [0] | _ => order end in
  if evaluate order then (true, mkSt (used st) (ticks st) order (hasWitness st))
  else (false, st).

(** ** All orders, one candidate for each principal profile *)

(** The principals a candidate matches; empty when it matches none. *)
Definition profile (i : nat) : list bool :=
  let bits := (fun row => default false (row !! i)) <$> matches in
  if existsb id bits then bits else [].

(** The loop over the candidates, from [i] on with profiles [profs]; [rec] is
    the recursive search with one more candidate chosen. *)
Section Loop.
Variable rec : list nat → St → option (list nat) * St.

Fixpoint search_loop (i : nat) (profs : list (list bool)) (seen : list (list bool))
    (order : list nat) (st : St) {struct profs} : option (list nat) * St :=
  match profs with
  | [] => (None, st)
  | p :: rest =>
      if is_used st i || bool_decide (p = []) || bool_decide (p ∈ seen)
      then search_loop (S i) rest seen order st
      else
        let '(r, st) := rec (order ++ [i]) (set_used i true st) in
        match r with
        | Some l => (Some l, st)
        | None => search_loop (S i) rest (p :: seen) order (set_used i false st)
        end
  end.
End Loop.

(** The depth is bounded by the number of candidates: [fuel]. *)
Fixpoint search_orders (fuel : nat) (profiles : list (list bool)) (order : list nat) (st : St)
    : option (list nat) * St :=
  let '(err, st) := check_ctx st in
  match err with
  | Some _ => (None, st)
  | None =>
      if negb (bool_decide (order = [])) && evaluate order then (Some order, st)
      else match fuel with
           | O => (None, st)
           | S fuel => search_loop (search_orders fuel profiles) 0 profiles [] order st
           end
  end.

(** [n] candidates; [tick] context checks were made before. *)
Definition searchSignatureOrders (n tick : nat) : list nat * option goerr :=
  let profiles := profile <$> seq 0 n in
  let '(r, st) := search_orders n profiles [] (mkSt (replicate n false) tick [] false) in
  (default [] r, ctx (ticks st)).

(** The searching part of [selectEndorsements]. *)
Definition search_selection (rule : option SignaturePolicy) (n tick : nat)
    : list nat * option goerr :=
  let st0 := mkSt (replicate n false) tick [] false in
  let '(_, st) := match rule with
                  | Some rule => search rule [] try_order st0
                  | None => (false, (check_ctx st0).2)
                  end in
  let none_selected := bool_decide (selected st = []) in
  let '(live, st) := if none_selected
                     then let '(e, st) := check_ctx st in (bool_decide (e = None), st)
                     else (false, st) in
  if live && evaluate (seq 0 n) then (seq 0 n, None)
  else if negb none_selected then (selected st, ctx (ticks st))
  else
    let '(e, st) := check_ctx st in
    if negb (bool_decide (e = None)) || negb (hasWitness st) then (selected st, ctx (ticks st))
    else searchSignatureOrders n (ticks st).

End Search.

Section Select.
Context `{P : PolicyLib}.

Definition nil_err (e : option goerr) : bool := bool_decide (e = None).

Definition principal_matches (ids : list (option Msp.identity)) (p : option MSPPrincipal)
    : list bool :=
  match p with
  | None => replicate (length ids) false
  | Some p => (fun id => match id with
                         | Some id => nil_err (SatisfiesPrincipal id p)
                         | None => false
                         end) <$> ids
  end.

Definition identities_at (ids : list (option Msp.identity)) (order : list nat)
    : list Msp.identity :=
  omap (fun i => mjoin (ids !! i)) order.

(** With an MSP policy every candidate carries its identity. *)
Definition selectEndorsements (ctx : nat → option goerr) (p : namespaceEndorsementPolicy)
    (candidates : list verifiedEndorsement) : list nat * option goerr :=
  match ctx 0 with
  | Some e => ([], Some e)
  | None =>
      let n := length candidates in
      if bool_decide (n = 0) then ([], None)
      else match policy p with
           | None => ([0], None)
           | Some pol =>
               let ids := ve_identity <$> candidates in
               let evaluate := fun order => nil_err (Msp.EvaluateIdentities pol (identities_at ids order)) in
               if bool_decide (n = 1) && evaluate (seq 0 n) then (seq 0 n, None)
               else
                 let env := default (mkEnvelope None []) (envelope p) in
                 search_selection ctx (principal_matches ids <$> Identities env) evaluate
                   (Rule env) n 1
           end
  end.

End Select.

(** ** Helper lemmas *)

Section Proofs.
Variable ctx : nat → option goerr.
Variable matches : list (list bool).
Variable evaluate : list nat → bool.
(** The number of candidates. *)
Variable n : nat.

(** [used] marks exactly the candidates of [order], which are distinct. *)
Definition consistent (order : list nat) (st : St) : Prop :=
  length (used st) = n ∧ NoDup order ∧ (∀ i, i ∈ order → i < n) ∧
  ∀ i, i < n → (is_used st i = true ↔ i ∈ order).

(** Predicates on the captured results, [selected] and [hasWitness]. *)
Definition res_pred : Type := list nat → bool → Prop.
Definition holds (I : res_pred) (st : St) : Prop := I (selected st) (hasWitness st).

(** A call keeps [I] when it fails and establishes [J] when it succeeds. *)
Definition call_ok (I J : res_pred) (order : list nat) (r : bool * St) : Prop :=
  consistent order r.2 ∧ holds (if r.1 then J else I) r.2.

Definition next_ok (I J : res_pred) (next : next_fn) : Prop :=
  ∀ order st, consistent order st → holds I st → call_ok I J order (next order st).

Lemma is_used_set st i b j :
  i < length (used st) →
  is_used (set_used i b st) j = if decide (j = i) then b else is_used st j.
Proof.
  intros Hi. unfold is_used, set_used. simpl. case_decide; [subst|].
  - by rewrite list_lookup_insert_eq.
  - by rewrite list_lookup_insert_ne.
Qed.

Lemma consistent_use order st i :
  consistent order st → i < n → is_used st i = false →
  consistent (order ++ [i]) (set_used i true st).
Proof.
  intros (Hl & Hnd & Hr & Hu) Hi Hn. split_and!.
  - simpl. by rewrite length_insert.
  - apply NoDup_app. split_and!; [done| |apply NoDup_singleton].
    intros x Hx ->%list_elem_of_singleton. apply Hu in Hx; [congruence|done].
  - intros j [?| ->%list_elem_of_singleton]%elem_of_app; auto.
  - intros j Hj. rewrite is_used_set, elem_of_app, list_elem_of_singleton by lia.
    case_decide; [naive_solver|]. rewrite Hu by done. naive_solver.
Qed.

Lemma consistent_release order st i :
  consistent (order ++ [i]) st → consistent order (set_used i false st).
Proof.
  intros (Hl & (Hnd & Hni & _)%NoDup_app & Hr & Hu).
  assert (Hi : i < n) by (apply Hr; set_solver). split_and!.
  - simpl. by rewrite length_insert.
  - done.
  - intros j Hj. apply Hr. set_solver.
  - intros j Hj. rewrite is_used_set by lia. case_decide as E.
    + subst j. split; [done|]. intros Hin. exfalso. apply (Hni i Hin). set_solver.
    + rewrite Hu, elem_of_app, list_elem_of_singleton by done. naive_solver.
Qed.

Lemma consistent_check order st : consistent order st → consistent order (check_ctx ctx st).2.
Proof. done. Qed.

Lemma holds_check I st : holds I st → holds I (check_ctx ctx st).2.
Proof. done. Qed.

Lemma search_signed_ok I J row i order next st :
  next_ok I J next → (∀ j, row !! j = Some true → i + j < n) →
  consistent order st → holds I st →
  call_ok I J order (search_signed row i order next st).
Proof.
  intros Hnext. revert i st. induction row as [|m row IH]; intros i st Hrow Hc Hi; simpl; [done|].
  assert (Hrow' : ∀ j, row !! j = Some true → S i + j < n).
  { intros j Hj. specialize (Hrow (S j) Hj). lia. }
  destruct (is_used st i || negb m) eqn:E; [by apply IH|]. bool_props. subst m.
  assert (i < n) by (specialize (Hrow 0 eq_refl); lia).
  pose proof (Hnext (order ++ [i]) (set_used i true st)) as Hn.
  destruct (next (order ++ [i]) (set_used i true st)) as [found st'].
  destruct Hn as [Hc' Hh]; [by apply consistent_use|done|]. simpl in Hc', Hh.
  apply consistent_release in Hc'. destruct found; [done|]. by apply IH.
Qed.

(** The rows of [matches] do not go beyond the candidates. *)
Definition rows_ok : Prop := ∀ row, row ∈ matches → length row = n.

Lemma rows_bound k j :
  rows_ok → default [] (matches !! k) !! j = Some true → 0 + j < n.
Proof.
  intros Hr Hj. destruct (matches !! k) as [row|] eqn:E; [|done]. simpl in Hj.
  apply list_elem_of_lookup_2, Hr in E. apply lookup_lt_Some in Hj. lia.
Qed.

Lemma choose_ok I J srch rules remaining next :
  (∀ child next order st, Some child ∈ rules → next_ok I J next → consistent order st →
     holds I st → call_ok I J order (srch child order next st)) →
  next_ok I J next → next_ok I J (choose ctx srch rules remaining next).
Proof.
  intros Hs Hnext. revert remaining. induction rules as [|child rules IH]; intros rem order st Hc Hi.
  all: simpl; destruct (ctx (ticks st)); [done|].
  all: destruct rem as [|rem]; [by apply Hnext|].
  { done. }
  case_match; [done|].
  assert (IH' : ∀ rem, next_ok I J (choose ctx srch rules rem next)).
  { intros rem'. apply IH. intros c nx o s Hin. apply Hs. by right. }
  destruct child as [child|].
  - match goal with |- context [srch child order ?nx ?s] =>
      pose proof (Hs child nx order s) as H1; destruct (srch child order nx s) as [found st'] end.
    destruct H1 as [Hc' Hh]; [by left|by apply IH'|done|done|].
    destruct found; [done|]. by apply (IH' (S rem)).
  - by apply (IH' (S rem)).
Qed.

Fixpoint rule_size (rule : SignaturePolicy) : nat :=
  match rule with
  | SP_NOutOf _ rules => S (foldr (fun c size => from_option rule_size 0 c + size) 0 rules)
  | _ => 1
  end.

Lemma rule_size_child k rules child :
  Some child ∈ rules → rule_size child < rule_size (SP_NOutOf k rules).
Proof.
  simpl. intros Hin. apply Nat.lt_succ_r. induction rules as [|c rules IH]; [by apply elem_of_nil in Hin|].
  apply elem_of_cons in Hin as [<-|Hin]; simpl; [lia|]. specialize (IH Hin). lia.
Qed.

Lemma search_ok I J rule order next st :
  rows_ok → next_ok I J next → consistent order st → holds I st →
  call_ok I J order (search ctx matches rule order next st).
Proof.
  intros Hr. revert order next st.
  induction rule as [rule IH] using (induction_ltof1 _ rule_size).
  intros order next st Hnext Hc Hi.
  destruct rule as [k|k rules| |]; simpl; destruct (ctx (ticks st)); try done.
  - apply search_signed_ok; [done| |done..]. intros j. by apply rows_bound.
  - apply (choose_ok I J); [|done..]. intros child nx o s Hin Hnx Hcs His.
    apply IH; [by apply rule_size_child|done..].
Qed.

(** ** The orders the search tries *)

Inductive witness : SignaturePolicy → list nat → list nat → Prop :=
  | witness_signed k order i :
      default [] (matches !! Z.to_nat k) !! i = Some true → i ∉ order →
      witness (SP_SignedBy k) order [i]
  | witness_n_out_of k rules order w :
      witnesses rules (Z.to_nat k) order w → witness (SP_NOutOf k rules) order w
with witnesses : list (option SignaturePolicy) → nat → list nat → list nat → Prop :=
  | witnesses_done rules order : witnesses rules 0 order []
  | witnesses_take child rest k order w w' :
      witness child order w → witnesses rest k (order ++ w) w' →
      witnesses (Some child :: rest) (S k) order (w ++ w')
  | witnesses_skip child rest k order w :
      witnesses rest (S k) order w → witnesses (child :: rest) (S k) order w.

Scheme witness_mut := Induction for witness Sort Prop
  with witnesses_mut := Induction for witnesses Sort Prop.

(** With a live context, [search] calls its continuation on every witness: it
    succeeds, or the continuation has been reached. *)
Definition reached (r : bool * St) : Prop := r.1 = true ∨ hasWitness r.2 = true.

Definition keeps_witness : res_pred := λ _ hw, hw = true.
Definition anything : res_pred := λ _ _, True.

Definition monotone (next : next_fn) : Prop :=
  next_ok anything anything next ∧ next_ok keeps_witness anything next.

Definition reaches (order : list nat) (next : next_fn) : Prop :=
  ∀ st, consistent order st → reached (next order st).

Lemma witnesses_length rules k order w : witnesses rules k order w → k ≤ length rules.
Proof. induction 1; simpl; lia. Qed.

Hypothesis live : ∀ k, ctx k = None.

Lemma search_signed_reaches row i j order next st :
  monotone next → (∀ j, row !! j = Some true → i + j < n) →
  row !! j = Some true → i + j ∉ order → reaches (order ++ [i + j]) next →
  consistent order st → reached (search_signed row i order next st).
Proof.
  intros [Hmono Hkeep]. revert i j st.
  induction row as [|m row IH]; intros i j st Hrow Hj Hni Hreach Hc; [done|]. simpl.
  assert (Hrow' : ∀ j, row !! j = Some true → S i + j < n).
  { intros j' Hj'. specialize (Hrow (S j') Hj'). lia. }
  destruct j as [|j].
  - simpl in Hj. injection Hj as ->. rewrite Nat.add_0_r in Hni, Hreach.
    assert (Hin : i < n) by (specialize (Hrow 0 eq_refl); lia).
    assert (Hu : is_used st i = false).
    { apply not_true_iff_false. destruct Hc as (_ & _ & _ & Hu). by rewrite Hu. }
    rewrite Hu. simpl.
    assert (Hc1 : consistent (order ++ [i]) (set_used i true st)) by by apply consistent_use.
    pose proof (Hreach _ Hc1) as Hnx.
    destruct (Hmono (order ++ [i]) (set_used i true st) Hc1 I) as [Hc2 _].
    destruct (next (order ++ [i]) (set_used i true st)) as [[] st']; [by left|].
    destruct Hnx as [?|Hw]; [done|]. simpl in *.
    destruct (search_signed_ok keeps_witness anything row (S i) order next
      (set_used i false st') Hkeep Hrow' (consistent_release _ _ _ Hc2) Hw) as [_ Hh].
    destruct (search_signed row (S i) order next (set_used i false st')) as [[] st2]; simpl in *;
      [by left|by right].
  - rewrite Nat.add_succ_r in Hni, Hreach. simpl in Hj.
    destruct (is_used st i || negb m) eqn:E; [by apply (IH (S i) j)|]. bool_props.
    assert (Hin : i < n) by (specialize (Hrow 0); subst m; specialize (Hrow eq_refl); lia).
    assert (Hc1 : consistent (order ++ [i]) (set_used i true st)) by by apply consistent_use.
    destruct (Hmono (order ++ [i]) (set_used i true st) Hc1 I) as [Hc2 _].
    destruct (next (order ++ [i]) (set_used i true st)) as [[] st']; [by left|].
    apply (IH (S i) j); try done. by eapply consistent_release.
Qed.
Lemma choose_monotone rules k next :
  rows_ok → monotone next → monotone (choose ctx (search ctx matches) rules k next).
Proof. intros Hr [H1 H2]. split; apply choose_ok; try done; intros; by apply search_ok. Qed.

Lemma monotone_reached next order st :
  monotone next → consistent order st → hasWitness st = true → reached (next order st).
Proof.
  intros [_ Hk] Hc Hw. destruct (Hk order st Hc Hw) as [_ Hh].
  destruct (next order st) as [[] st']; [by left|by right].
Qed.

Definition search_reaches_at (rule : SignaturePolicy) (order w : list nat) : Prop :=
  ∀ next, monotone next → reaches (order ++ w) next →
    reaches order (fun order st => search ctx matches rule order next st).

Definition choose_reaches_at (rules : list (option SignaturePolicy)) (k : nat)
    (order w : list nat) : Prop :=
  ∀ next, monotone next → reaches (order ++ w) next →
    reaches order (choose ctx (search ctx matches) rules k next).

Lemma choose_take child rest k order w w' :
  rows_ok → witnesses rest k (order ++ w) w' →
  search_reaches_at child order w → choose_reaches_at rest k (order ++ w) w' →
  choose_reaches_at (Some child :: rest) (S k) order (w ++ w').
Proof.
  intros Hr Hw IHc IHr next Hm Hreach st Hc. simpl. rewrite live.
  apply witnesses_length in Hw.
  rewrite (proj2 (Nat.ltb_ge (S (length rest)) (S k))) by lia.
  set (st1 := mkSt (used st) (S (ticks st)) (selected st) (hasWitness st)).
  assert (Hc1 : consistent order st1) by done.
  pose proof (choose_monotone rest k next Hr Hm) as Hm'.
  pose proof (IHc _ Hm' (IHr next Hm ltac:(by rewrite <- app_assoc)) st1 Hc1) as Hcall.
  simpl in Hcall. destruct Hm' as [Hm1 _].
  destruct (search_ok anything anything child order _ st1 Hr Hm1 Hc1 I) as [Hc2 _].
  destruct (search ctx matches child order (choose ctx (search ctx matches) rest k next) st1)
    as [[] st2]; [by left|].
  destruct Hcall as [?|Hw2]; [done|].
  by apply monotone_reached; [apply choose_monotone|..].
Qed.

Lemma choose_skip child rest k order w :
  rows_ok → witnesses rest (S k) order w → choose_reaches_at rest (S k) order w →
  choose_reaches_at (child :: rest) (S k) order w.
Proof.
  intros Hr Hw IHr next Hm Hreach st Hc. simpl. rewrite live.
  apply witnesses_length in Hw.
  rewrite (proj2 (Nat.ltb_ge (S (length rest)) (S k))) by lia.
  set (st1 := mkSt (used st) (S (ticks st)) (selected st) (hasWitness st)).
  assert (Hc1 : consistent order st1) by done.
  destruct child as [child|]; [|by apply (IHr next)].
  destruct (choose_monotone rest k next Hr Hm) as [Hm1 _].
  destruct (search_ok anything anything child order _ st1 Hr Hm1 Hc1 I) as [Hc2 _].
  destruct (search ctx matches child order (choose ctx (search ctx matches) rest k next) st1)
    as [[] st2]; [by left|]. by apply (IHr next).
Qed.

Lemma search_reaches rule order w :
  rows_ok → witness rule order w → search_reaches_at rule order w.
Proof.
  intros Hr. revert rule order w.
  apply (witness_mut (fun rule order w _ => search_reaches_at rule order w)
                     (fun rules k order w _ => choose_reaches_at rules k order w)).
  - intros k order i Hi Hni next Hm Hreach st Hc. simpl. rewrite live.
    apply (search_signed_reaches _ 0 i); try done. intros j. by apply rows_bound.
  - intros k rules order w _ IH next Hm Hreach st Hc. simpl. rewrite live. by apply IH.
  - intros rules order next Hm Hreach st Hc. rewrite app_nil_r in Hreach.
    destruct rules; simpl; rewrite live; by apply Hreach.
  - intros child rest k order w w' _ IHc Hw IHr. by apply choose_take.
  - intros child rest k order w Hw IHr. by apply choose_skip.
Qed.

(** ** The outermost continuation *)

(** A selection Fabric accepts: distinct candidates, at least one. *)
Definition good (l : list nat) : Prop :=
  l ≠ [] ∧ NoDup l ∧ (∀ i, i ∈ l → i < n) ∧ evaluate l = true.

Lemma try_order_ok : 0 < n → next_ok (λ sel _, sel = []) (λ sel _, good sel) (try_order evaluate).
Proof.
  intros Hn order st Hc Hs. unfold try_order, call_ok, holds in *.
  destruct (evaluate _) eqn:E; simpl; [|done]. split; [done|].
  destruct Hc as (_ & Hnd & Hr & _). destruct order as [|i order].
  - split_and!; [done|apply NoDup_singleton| |done]. by intros i ->%list_elem_of_singleton.
  - by split_and!.
Qed.

Lemma try_order_monotone : monotone (try_order evaluate).
Proof.
  split; intros order st Hc Hs; unfold try_order, call_ok, holds in *;
    destruct (evaluate _); simpl; done.
Qed.

Lemma try_order_reaches order : reaches order (try_order evaluate).
Proof. intros st _. unfold try_order. destruct (evaluate _); by right. Qed.

(** ** All orders *)

Notation profiles := (profile matches <$> seq 0 n).

Definition orders_ok (order : list nat) (r : option (list nat) * St) : Prop :=
  match r.1 with Some l => good l | None => consistent order r.2 end.

Lemma profile_at i : i < n → profiles !! i = Some (profile matches i).
Proof. intros Hi. by rewrite list_lookup_fmap, lookup_seq_lt. Qed.

Lemma profiles_drop i p rest :
  drop i profiles = p :: rest → i < n ∧ p = profile matches i ∧ drop (S i) profiles = rest.
Proof.
  intros Hd. assert (Hi : profiles !! i = Some p).
  { rewrite <- (Nat.add_0_r i), <- lookup_drop, Hd. done. }
  assert (i < n) by (apply lookup_lt_Some in Hi; by rewrite length_fmap, length_seq in Hi).
  rewrite profile_at in Hi by done. injection Hi as <-.
  by rewrite (drop_S _ (profile matches i) i) in Hd by (by apply profile_at); simplify_eq.
Qed.

Lemma search_loop_ok rec order i profs seen st :
  (∀ j st, j < n → consistent (order ++ [j]) st → orders_ok (order ++ [j]) (rec (order ++ [j]) st)) →
  drop i profiles = profs → consistent order st →
  orders_ok order (search_loop rec i profs seen order st).
Proof.
  intros Hrec. revert i seen st. induction profs as [|p rest IH]; intros i seen st Hd Hc; [done|].
  apply profiles_drop in Hd as (Hi & -> & Hd). simpl.
  destruct (is_used st i || _ || _) eqn:E; [by apply IH|]. bool_props.
  pose proof (Hrec i (set_used i true st) Hi) as Hr.
  destruct (rec (order ++ [i]) (set_used i true st)) as [[l|] st'].
  - apply Hr. by apply consistent_use.
  - apply IH; [done|]. apply consistent_release, Hr. by apply consistent_use.
Qed.

Lemma search_orders_ok fuel order st :
  consistent order st → orders_ok order (search_orders ctx evaluate fuel profiles order st).
Proof.
  revert order st. induction fuel as [|fuel IH]; intros order st Hc; simpl;
    (destruct (ctx (ticks st)); [done|]);
    (destruct (negb _ && evaluate order) eqn:E;
      [bool_props; destruct Hc as (_ & ? & ? & _); by split_and!|]); [done|].
  apply search_loop_ok; [|by rewrite drop_0|done]. intros j st' _ Hc'. by apply IH.
Qed.

(** A loop that fails has tried, for every free candidate, one of its profile. *)
Lemma search_loop_tried rec order i profs seen st st' :
  (∀ j st, j < n → consistent (order ++ [j]) st → orders_ok (order ++ [j]) (rec (order ++ [j]) st)) →
  drop i profiles = profs → consistent order st →
  search_loop rec i profs seen order st = (None, st') →
  ∀ j, i ≤ j < n → j ∉ order → profile matches j ≠ [] → profile matches j ∉ seen →
  ∃ j' st0 st1, profile matches j' = profile matches j ∧ j' < n ∧ j' ∉ order ∧
    consistent (order ++ [j']) st0 ∧ rec (order ++ [j']) st0 = (None, st1).
Proof.
  intros Hrec. revert i seen st. induction profs as [|p rest IH]; intros i seen st Hd Hc Hl j Hj Hni Hp Hs.
  { assert (Hlen : length (drop i profiles) = 0) by by rewrite Hd.
    rewrite length_drop, length_fmap, length_seq in Hlen. lia. }
  apply profiles_drop in Hd as (Hi & -> & Hd). simpl in Hl.
  assert (Hu : is_used st i = true ↔ i ∈ order) by by apply Hc.
  destruct (is_used st i || _ || _) eqn:E.
  - destruct (decide (j = i)) as [->|]; [|apply (IH (S i) seen st); try done; lia].
    exfalso. rewrite !orb_true_iff, !bool_decide_eq_true, Hu in E. naive_solver.
  - bool_props. assert (Hc1 : consistent (order ++ [i]) (set_used i true st)) by by apply consistent_use.
    pose proof (Hrec i _ Hi Hc1) as Hr.
    destruct (rec (order ++ [i]) (set_used i true st)) as [[l|] st1] eqn:Erec; [done|].
    destruct (decide (profile matches j = profile matches i)) as [Ep|Ep].
    + exists i, (set_used i true st), st1. split_and!; try done.
      rewrite <- Hu. congruence.
    + assert (j ≠ i) by (by intros ->).
      apply (IH (S i) (profile matches i :: seen) (set_used i false st1)); try done.
      * by apply consistent_release.
      * lia.
      * rewrite not_elem_of_cons. done.
Qed.

(** The evaluator only sees which principals each signer satisfies. *)
Hypothesis eval_profile : ∀ l l', NoDup l → NoDup l' → (∀ i, i ∈ l ++ l' → i < n) →
  profile matches <$> l = profile matches <$> l' → evaluate l = evaluate l'.

(** [ext] with the candidates [i] and [j] exchanged. *)
Definition swap_index (i j x : nat) : nat :=
  if decide (x = i) then j else if decide (x = j) then i else x.

Definition exchange (i j : nat) (ext : list nat) : list nat := swap_index i j <$> ext.

#[local] Instance swap_index_inj i j : Inj (=) (=) (swap_index i j).
Proof. intros x y. unfold swap_index. repeat case_decide; congruence. Qed.

Lemma exchange_spec i j order ext :
  NoDup (order ++ i :: ext) → j ∉ order →
  NoDup ((order ++ [j]) ++ exchange i j ext) ∧
  (∀ x, x ∈ exchange i j ext → x = i ∨ x ∈ ext).
Proof.
  intros Hnd Hj. assert (Hex : ∀ x, x ∈ exchange i j ext → x = i ∧ j ∈ ext ∨ x ∈ ext ∧ x ≠ j).
  { intros x (y & -> & Hy)%list_elem_of_fmap. unfold swap_index.
    assert (i ∉ ext) by (apply NoDup_app in Hnd as (_ & _ & Hnd); by inversion Hnd).
    repeat case_decide; subst; auto. done. }
  apply NoDup_app in Hnd as (Hno & Hdis & [Hi Hne]%NoDup_cons). split.
  - rewrite <- app_assoc. apply NoDup_app. split_and!; [done| |].
    + intros x Hx. rewrite elem_of_app, list_elem_of_singleton.
      specialize (Hdis x Hx). rewrite elem_of_cons in Hdis.
      intros [->|Hin]; [done|]. apply Hex in Hin. naive_solver.
    + simpl. apply NoDup_cons. split; [intros Hin; apply Hex in Hin; naive_solver|].
      by apply (NoDup_fmap_2 _).
  - intros x Hx. apply Hex in Hx. naive_solver.
Qed.

Lemma exchange_profile i j ext :
  profile matches i = profile matches j →
  profile matches <$> exchange i j ext = profile matches <$> ext.
Proof.
  intros Hp. unfold exchange. rewrite <- list_fmap_compose. apply list_fmap_ext.
  intros k x _. simpl. unfold swap_index. repeat case_decide; congruence.
Qed.

Lemma NoDup_bounded (l : list nat) : NoDup l → (∀ i, i ∈ l → i < n) → length l ≤ n.
Proof.
  intros Hnd Hb. rewrite <- (length_seq n 0). apply submseteq_length, NoDup_submseteq; [done|].
  intros x Hx. apply elem_of_seq. specialize (Hb x Hx). lia.
Qed.

Lemma search_orders_none fuel order st st' :
  consistent order st → length order + fuel = n →
  search_orders ctx evaluate fuel profiles order st = (None, st') →
  ∀ ext, NoDup (order ++ ext) → (∀ i, i ∈ order ++ ext → i < n) →
  (∀ i, i ∈ ext → profile matches i ≠ []) → order ++ ext ≠ [] → evaluate (order ++ ext) = false.
Proof.
  revert order st st'. induction fuel as [|fuel IH];
    intros order st st' Hc Hf Hs ext Hnd Hb Hp Hne; simpl in Hs; rewrite live in Hs;
    (destruct (negb _ && evaluate order) eqn:E; [done|]);
    (destruct ext as [|i ext];
      [rewrite app_nil_r in *; rewrite bool_decide_eq_false_2 in E by done; exact E|]).
  { apply NoDup_bounded in Hnd; [|done]. rewrite length_app in Hnd. simpl in Hnd. lia. }
  assert (Hdis : i ∉ order).
  { apply NoDup_app in Hnd as (_ & Hdis & _). intros Hin. apply (Hdis i Hin). by left. }
  destruct (search_loop_tried (search_orders ctx evaluate fuel profiles) order 0 profiles []
    (check_ctx ctx st).2 st') with (j := i) as (j & st0 & st1 & Hpj & Hjn & Hj & Hc0 & Hrec).
  - intros j st2 _ Hc2. by apply search_orders_ok.
  - by rewrite drop_0.
  - done.
  - done.
  - split; [lia|]. apply Hb, elem_of_app. right. by left.
  - done.
  - apply Hp. by left.
  - by apply not_elem_of_nil.
  - destruct (exchange_spec i j order ext Hnd Hj) as [Hnd' Hin].
    rewrite (eval_profile _ ((order ++ [j]) ++ exchange i j ext)); try done.
    + apply (IH _ st0 st1 Hc0); [rewrite length_app; simpl; lia|done|done| | |].
      * intros x. rewrite !elem_of_app, list_elem_of_singleton.
        intros [[?| ->]|Hx]; [apply Hb; set_solver|done|].
        apply Hb, elem_of_app. right. apply elem_of_cons. by apply Hin.
      * intros x Hx. apply Hp, elem_of_cons. by apply Hin.
      * by destruct order.
    + intros x [Hx|Hx]%elem_of_app; [by apply Hb|].
      rewrite !elem_of_app, list_elem_of_singleton in Hx.
      destruct Hx as [[?| ->]|Hx]; [apply Hb; set_solver|done|].
      apply Hb, elem_of_app. right. apply elem_of_cons. by apply Hin.
    + rewrite !fmap_app. simpl. rewrite exchange_profile by done. rewrite <- app_assoc. simpl.
      by rewrite Hpj.
Qed.

End Proofs.

(** ** Fabric's evaluator

    What the code relies on of [EvaluateIdentities] on [n] candidates: it depends
    on the principals each signer satisfies and ignores signers that satisfy none;
    it succeeds only when the rule can be met by distinct signers; and a rule that
    needs no signature accepts any. *)
Definition valid_order (n : nat) (l : list nat) : Prop := NoDup l ∧ ∀ i, i ∈ l → i < n.

Record fabric_evaluator (rule : option SignaturePolicy) (matches : list (list bool))
    (evaluate : list nat → bool) (n : nat) : Prop := mkFabricEvaluator {
  ev_profile : ∀ l l', NoDup l → NoDup l' → (∀ i, i ∈ l ++ l' → i < n) →
    profile matches <$> l = profile matches <$> l' → evaluate l = evaluate l';
  ev_unmatched : ∀ l, valid_order n l → evaluate l = true →
    evaluate (filter (λ i, profile matches i ≠ []) l) = true;
  ev_witness : ∀ l, valid_order n l → evaluate l = true →
    ∃ r w, rule = Some r ∧ witness matches r [] w;
  ev_unconditional : ∀ l, valid_order n l → evaluate [] = true → evaluate l = true }.

Lemma initial_consistent n tick : consistent n [] (mkSt (replicate n false) tick [] false).
Proof.
  split_and!; [apply length_replicate|constructor|by intros i ?%elem_of_nil|].
  intros i Hi. unfold is_used. simpl. rewrite lookup_replicate_2 by done. simpl.
  split; [done|]. by intros ?%elem_of_nil.
Qed.

Lemma seq_valid n : valid_order n (seq 0 n).
Proof. split; [apply NoDup_seq|]. intros i Hi%elem_of_seq. lia. Qed.

Lemma searchSignatureOrders_sound ctx matches evaluate n tick l e :
  searchSignatureOrders ctx matches evaluate n tick = (l, e) → l ≠ [] → good evaluate n l.
Proof.
  unfold searchSignatureOrders. intros H Hl.
  pose proof (search_orders_ok ctx matches evaluate n n [] _ (initial_consistent n tick)) as Hok.
  destruct (search_orders _ _ _ _ _ _) as [[l'|] st]; simplify_eq/=; done.
Qed.

Lemma search_selection_sound ctx matches evaluate rule n tick l e :
  0 < n → rows_ok matches n →
  search_selection ctx matches evaluate rule n tick = (l, e) → l ≠ [] → good evaluate n l.
Proof.
  intros Hn Hr. unfold search_selection.
  set (st0 := mkSt _ _ _ _).
  assert (Hcall : (match rule with Some rule => search ctx matches rule [] (try_order evaluate) st0
     | None => (false, (check_ctx ctx st0).2) end).2.(selected) = [] ∨
     good evaluate n (match rule with Some rule => search ctx matches rule [] (try_order evaluate) st0
     | None => (false, (check_ctx ctx st0).2) end).2.(selected)).
  { destruct rule as [r|]; [|by left].
    destruct (search_ok ctx matches evaluate n (λ sel _, sel = []) (λ sel _, good evaluate n sel) r []
      (try_order evaluate) st0 Hr (try_order_ok evaluate n Hn) (initial_consistent n tick) eq_refl)
      as [_ Hh].
    unfold holds in Hh. destruct (search _ _ _ _ _ _) as [[] st]; [by right|by left]. }
  destruct (match rule with Some _ => _ | None => _ end) as [found st]. simpl in Hcall.
  case_bool_decide as Hsel; simpl.
  - destruct (bool_decide _ && evaluate (seq 0 n)) eqn:E1.
    + intros [= <- _] _. bool_props. destruct (seq_valid n). split_and!; try done.
      destruct n; [lia|done].
    + destruct (negb _ || negb _) eqn:E2; [intros [= <- _]; by rewrite Hsel|].
      apply searchSignatureOrders_sound.
  - intros [= <- _] _. by destruct Hcall.
Qed.

Lemma search_selection_complete ctx matches evaluate rule n tick :
  0 < n → rows_ok matches n → (∀ k, ctx k = None) → fabric_evaluator rule matches evaluate n →
  (∃ l, good evaluate n l) → (search_selection ctx matches evaluate rule n tick).1 ≠ [].
Proof.
  intros Hn Hr Hlive Hev (l & Hne & Hnd & Hb & Hl).
  destruct (ev_witness _ _ _ _ Hev l (conj Hnd Hb) Hl) as (r & w & -> & Hw).
  unfold search_selection. set (st0 := mkSt _ _ _ _).
  assert (Hreach : reached (search ctx matches r [] (try_order evaluate) st0)).
  { apply (search_reaches ctx matches evaluate n Hlive r [] w Hr Hw (try_order evaluate));
      [apply try_order_monotone|apply try_order_reaches|apply initial_consistent]. }
  destruct (search_ok ctx matches evaluate n (λ sel _, sel = []) (λ sel _, good evaluate n sel) r []
    (try_order evaluate) st0 Hr (try_order_ok evaluate n Hn) (initial_consistent n tick) eq_refl)
    as [_ Hh].
  destruct (search ctx matches r [] (try_order evaluate) st0) as [[] st];
    unfold holds in Hh; simpl in Hh.
  { destruct Hh as (Hs & _). rewrite bool_decide_eq_false_2 by done. by simpl. }
  destruct Hreach as [?|Hwit]; [done|]. simpl in Hwit.
  rewrite bool_decide_eq_true_2 by done. simpl. rewrite !Hlive. simpl.
  destruct (evaluate (seq 0 n)) eqn:Eall; simpl; [by destruct n; [lia|]|].
  rewrite Hwit. simpl. unfold searchSignatureOrders.
  set (st1 := mkSt (replicate n false) _ _ _).
  destruct (search_orders ctx evaluate n (profile matches <$> seq 0 n) [] st1)
    as [[l'|] st'] eqn:Es; simpl.
  - pose proof (search_orders_ok ctx matches evaluate n n [] st1 (initial_consistent n _)) as Hok.
    rewrite Es in Hok. by destruct Hok.
  - exfalso. set (ext := filter (λ i, profile matches i ≠ []) l).
    pose proof (ev_unmatched _ _ _ _ Hev l (conj Hnd Hb) Hl) as Hext.
    change (evaluate ext = true) in Hext.
    destruct (decide (ext = [])) as [E|E].
    { rewrite E in Hext.
      by rewrite (ev_unconditional _ _ _ _ Hev _ (seq_valid n) Hext) in Eall. }
    assert (Hf : evaluate ([] ++ ext) = false); [|simpl in Hf; by rewrite Hf in Hext].
    apply (search_orders_none ctx matches evaluate n Hlive (ev_profile _ _ _ _ Hev)
      n [] st1 st' (initial_consistent n _) eq_refl Es ext); try done.
    + by apply NoDup_filter.
    + intros i Hi. apply list_elem_of_filter in Hi as [_ Hi]. by apply Hb.
    + intros i Hi. by apply list_elem_of_filter in Hi as [? _].
Qed.

Section SelectProofs.
Context `{P : PolicyLib}.

(** The candidate identities, the principals they satisfy and the evaluator. *)
Definition candidate_ids (candidates : list verifiedEndorsement) : list (option Msp.identity) :=
  ve_identity <$> candidates.

Definition evaluate_order (pol : Msp.policy) (candidates : list verifiedEndorsement)
    (order : list nat) : bool :=
  nil_err (Msp.EvaluateIdentities pol (identities_at (candidate_ids candidates) order)).

Definition policy_matches (p : namespaceEndorsementPolicy) (candidates : list verifiedEndorsement)
    : list (list bool) :=
  principal_matches (candidate_ids candidates) <$>
    Identities (default (mkEnvelope None []) (envelope p)).

Lemma policy_rows_ok p candidates : rows_ok (policy_matches p candidates) (length candidates).
Proof.
  intros row (q & -> & _)%list_elem_of_fmap. unfold principal_matches, candidate_ids.
  destruct q; by rewrite ?length_replicate, ?length_fmap.
Qed.

Lemma selectEndorsements_sound_aux ctx p candidates pol l e :
  policy p = Some pol → selectEndorsements ctx p candidates = (l, e) → l ≠ [] →
  NoDup l ∧ (∀ i, i ∈ l → i < length candidates) ∧
  Msp.EvaluateIdentities pol (identities_at (candidate_ids candidates) l) = None.
Proof.
  intros Hp Hs Hl. assert (Hgood : good (evaluate_order pol candidates) (length candidates) l).
  2:{ destruct Hgood as (_ & ? & ? & Hev). split_and!; try done.
      by apply bool_decide_eq_true in Hev. }
  unfold selectEndorsements in Hs. destruct (ctx 0); [congruence|]. rewrite Hp in Hs.
  case_bool_decide as Hn; [congruence|].
  destruct (bool_decide (length candidates = 1) && _) eqn:E.
  - injection Hs as <- <-. bool_props. destruct (seq_valid (length candidates)).
    split_and!; done.
  - eapply search_selection_sound; [|apply (policy_rows_ok p candidates)|exact Hs|done]. lia.
Qed.

(** The candidates as [authenticate] returned them: when, for which response and organization. *)
Definition authenticated (p : namespaceEndorsementPolicy)
    (calls : list (Z * helperExecutionResult * string * bool)) (candidates : list verifiedEndorsement)
    : Prop :=
  Forall2 (λ '(now, r, mspID, requireMSP) v, authenticate now p r mspID requireMSP = Ok v)
    calls candidates.

Lemma authenticated_lookup p calls candidates i :
  is_Some (envelope p) → authenticated p calls candidates → i < length candidates →
  ∃ now r mspID requireMSP v, calls !! i = Some (now, r, mspID, requireMSP) ∧
    candidates !! i = Some v ∧ endorser_authentic now p r mspID v.
Proof.
  intros Henv Hall Hi. destruct (lookup_lt_is_Some_2 candidates i Hi) as [v Hv].
  destruct (Forall2_lookup_r _ _ _ _ _ Hall Hv) as ([[[now r] mspID] requireMSP] & Hc & Ha).
  exists now, r, mspID, requireMSP, v. split_and!; [done..|]. by eapply authenticate_authentic.
Qed.

Lemma authentic_identity now p r mspID v :
  endorser_authentic now p r mspID v → is_Some (ve_identity v).
Proof. intros [(? & ? & ? & ? & ? & ? & ? & id & ? & Ha)]. destruct_and! Ha. subst v. by eexists. Qed.

(** C8: Whatever [selectEndorsements] selects under an MSP policy from candidates that
    [authenticate] accepted is a list of distinct candidates; each of them is authentic: a
    successful response for the namespace and version of the policy, whose signature verifies for
    a valid and current certificate of the organization it was asked of; and Fabric's own
    evaluator accepts exactly their identities, in that order.  This holds even when the context
    ends meanwhile. *)
Theorem selectEndorsements_sound ctx p calls candidates pol l e :
  policy p = Some pol → is_Some (envelope p) → authenticated p calls candidates →
  selectEndorsements ctx p candidates = (l, e) → l ≠ [] →
  NoDup l ∧
  (∀ i, i ∈ l → ∃ now r mspID requireMSP v, calls !! i = Some (now, r, mspID, requireMSP) ∧
     candidates !! i = Some v ∧ endorser_authentic now p r mspID v) ∧
  ∃ ids, Forall2 (λ i id, ∃ v, candidates !! i = Some v ∧ ve_identity v = Some id) l ids ∧
    Msp.EvaluateIdentities pol ids = None.
Proof.
  intros Hp Henv Hall Hs Hl.
  destruct (selectEndorsements_sound_aux ctx p candidates pol l e Hp Hs Hl) as (Hnd & Hb & Hev).
  split_and!; [done| |].
  - intros i Hi. by apply authenticated_lookup; [| |apply Hb].
  - eexists. split; [|exact Hev]. clear - Henv Hall Hb. unfold identities_at, candidate_ids.
    induction l as [|i l IH]; cbn [omap list_omap]; [constructor|].
    destruct (authenticated_lookup p calls candidates i Henv Hall ltac:(apply Hb; by left))
      as (now & r & mspID & req & v & _ & Hv & Ha).
    destruct (authentic_identity _ _ _ _ _ Ha) as [id Hid].
    rewrite list_lookup_fmap, Hv. cbn [fmap option_fmap option_map]. rewrite Hid.
    cbn [mjoin option_join]. constructor; [by exists v|]. apply IH. intros j Hj. apply Hb. by right.
Qed.

Lemma search_selection_error ctx matches evaluate rule n tick :
  (∀ k, ctx k = None) → (search_selection ctx matches evaluate rule n tick).2 = None.
Proof.
  intros Hlive. unfold search_selection, searchSignatureOrders.
  destruct (match rule with Some _ => _ | None => _ end) as [found st].
  destruct (bool_decide (selected st = [])); unfold check_ctx; rewrite ?Hlive; cbn [fst snd];
    repeat (case_match; simplify_eq/=; rewrite ?Hlive; try done).
Qed.

(** C9: As long as the context lives, [selectEndorsements] reports no error and finds a
    selection exactly when some arrangement of distinct candidates satisfies the namespace
    policy: neither the backtracking over the rule nor the pruning of equal principal profiles
    loses the last one.  It need not be a smallest one. *)
Theorem selectEndorsements_complete ctx p candidates pol :
  policy p = Some pol → (∀ k, ctx k = None) →
  fabric_evaluator (Rule (default (mkEnvelope None []) (envelope p)))
    (policy_matches p candidates) (evaluate_order pol candidates) (length candidates) →
  (selectEndorsements ctx p candidates).2 = None ∧
  ((selectEndorsements ctx p candidates).1 ≠ [] ↔
   ∃ l, l ≠ [] ∧ valid_order (length candidates) l ∧
     Msp.EvaluateIdentities pol (identities_at (candidate_ids candidates) l) = None).
Proof.
  intros Hp Hlive Hev. split; [|split].
  - unfold selectEndorsements. rewrite Hlive, Hp. case_bool_decide; [done|].
    case_match; [done|]. by apply search_selection_error.
  - intros Hne. destruct (selectEndorsements ctx p candidates) as [l e] eqn:Hs. simpl in Hne.
    destruct (selectEndorsements_sound_aux ctx p candidates pol l e) as (? & ? & ?); try done.
    exists l. done.
  - intros (l & Hne & [Hnd Hb] & Hl). unfold selectEndorsements. rewrite Hlive, Hp.
    rewrite bool_decide_eq_false_2.
    2:{ intros Hn. destruct l as [|i l]; [done|]. specialize (Hb i ltac:(by left)). lia. }
    destruct (bool_decide (length candidates = 1) && _) eqn:E.
    + bool_props. simpl. match goal with H : length _ = 1 |- _ => by rewrite H end.
    + apply search_selection_complete; try done; [|apply (policy_rows_ok p candidates)|].
      * destruct l as [|i l]; [done|]. specialize (Hb i ltac:(by left)). lia.
      * exists l. split_and!; try done. by apply bool_decide_eq_true.
Qed.

End SelectProofs.

(** ** Concrete instances: one principal, of [Org1MSP] *)

Import Instances.

Definition ex_candidates : list verifiedEndorsement :=
  [ex_verified "Org2MSP" "peer"; ex_verified "Org1MSP" "peer"].

Lemma ex_evaluate l :
  (∀ i, i ∈ l → i < 2) →
  evaluate_order "Org1MSP" ex_candidates l =
    existsb (λ i, bool_decide (profile (policy_matches ex_policy ex_candidates) i ≠ [])) l.
Proof.
  intros Hb.
  assert (Heq : existsb (λ id : string * string, bool_decide (id.1 = "Org1MSP"))
            (identities_at (candidate_ids ex_candidates) l) =
          existsb (λ i, bool_decide (profile (policy_matches ex_policy ex_candidates) i ≠ [])) l).
  { induction l as [|i l IH]; [done|].
    assert (Hi : i = 0 ∨ i = 1) by (specialize (Hb i ltac:(by left)); lia).
    specialize (IH ltac:(intros j Hj; apply Hb; by right)).
    cbn [existsb]. rewrite <- IH. by destruct Hi as [-> | ->]. }
  rewrite <- Heq. unfold evaluate_order, nil_err.
  change (Msp.EvaluateIdentities _ ?ids) with
    (test (existsb (λ id : string * string, bool_decide (id.1 = "Org1MSP")) ids)).
  by destruct (existsb _ _).
Qed.

Lemma ex_fabric_evaluator :
  fabric_evaluator (Rule (default (mkEnvelope None []) (envelope ex_policy)))
    (policy_matches ex_policy ex_candidates) (evaluate_order "Org1MSP" ex_candidates)
    (length ex_candidates).
Proof.
  constructor.
  - intros l l' _ _ Hb Hp.
    rewrite !ex_evaluate by (intros i Hi; apply Hb, elem_of_app; auto). clear Hb.
    revert l' Hp. induction l as [|i l IH]; intros [|j l'] Hp; try done.
    rewrite !fmap_cons in Hp. pose proof (f_equal (hd []) Hp) as Hi.
    pose proof (f_equal tail Hp) as Ht. cbn [hd tail] in Hi, Ht.
    cbn [existsb]. rewrite (IH l' Ht). f_equal. apply bool_decide_ext. by rewrite Hi.
  - intros l [_ Hb]. rewrite (ex_evaluate l) by done.
    rewrite ex_evaluate.
    2:{ intros i [_ Hi]%list_elem_of_filter. by apply Hb. }
    rewrite !existsb_exists. intros (i & Hi & Hp). exists i. split; [|done].
    pose proof (proj1 (bool_decide_eq_true _) Hp) as Hp'.
    apply list_elem_of_In, list_elem_of_filter. split; [exact Hp'|]. by apply list_elem_of_In.
  - intros l _ _. exists (SP_SignedBy 0%Z), [1]. split; [reflexivity|].
    apply witness_signed; [reflexivity|]. by intros ?%elem_of_nil.
  - intros l _ He. vm_compute in He. done.
Qed.

Definition ex_calls : list (Z * helperExecutionResult * string * bool) :=
  [(50%Z, ex_result "Org2MSP:peer" "peer", "Org2MSP", false);
   (50%Z, ex_result "Org1MSP:peer" "peer", "Org1MSP", false)].

Lemma selectEndorsements_sound_witness :
  selectEndorsements (λ _, None) ex_policy ex_candidates = ([1], None) ∧
  (∀ i, i ∈ [1] → ∃ now r mspID requireMSP v, ex_calls !! i = Some (now, r, mspID, requireMSP) ∧
     ex_candidates !! i = Some v ∧ endorser_authentic now ex_policy r mspID v) ∧
  ∃ ids, Forall2 (λ i id, ∃ v, ex_candidates !! i = Some v ∧ ve_identity v = Some id) [1] ids ∧
    Msp.EvaluateIdentities (MSPLib := example_msp) "Org1MSP" ids = None.
Proof.
  assert (Hs : selectEndorsements (λ _, None) ex_policy ex_candidates = ([1], None))
    by (vm_compute; reflexivity).
  split; [exact Hs|].
  refine (proj2 (selectEndorsements_sound (λ _, None) ex_policy ex_calls ex_candidates "Org1MSP"
    [1] None _ _ _ Hs _)); [reflexivity|by eexists| |done].
  unfold authenticated. repeat (constructor; [vm_compute; reflexivity|]). constructor.
Defined.

Lemma selectEndorsements_complete_witness :
  (selectEndorsements (λ _, None) ex_policy ex_candidates).1 ≠ [].
Proof.
  apply (selectEndorsements_complete (λ _, None) ex_policy ex_candidates "Org1MSP");
    [reflexivity|reflexivity|apply ex_fabric_evaluator|].
  exists [1]. split; [done|]. split; [|vm_compute; reflexivity]. split.
  - apply NoDup_singleton.
  - intros i ->%list_elem_of_singleton. simpl. lia.
Defined.

End Search.
