(* ===== verification/Collect.v ===== *)
(** Collecting endorsements from the local and the remote orchestrators:
    [assembleSelection], [compareCanonicalResults], [mergeEndorsements] and
    [collectNamespaceEndorsements] of [pkg/orchestrator/execution.go].

    The Go interface [remoteOrchestratorResolver] and the contacts it returns are
    the class [RemoteOrchestrators].  [ctxs k] is the stream of [ctx.Err()] answers
    of the [k]-th consultation point of the collection loop. *)
From Stdlib Require Import ZArith Lia.
From stdpp Require Import base option list strings gmap sets sorting.
From S2P Require Import Prelude LifecycleStore OrchestratorTypes Msp EndorsementPolicy.
From S2P Require Import EndorsementSearch Instances.
Import Types Policy Search.
Local Open Scope Z_scope.

Module Collect.

Record remoteOrchestratorResolveRequest := mkResolveRequest {
  RequesterMSPID : string;
  TargetMSPID : string;
  rr_ChannelID : string;
  rr_Namespace : string;
  rr_ChaincodeName : string;
  rr_ChaincodeVersion : string;
  rr_Sequence : Z }.

(** Remote discovery and one RPC to a contact; a contact may be nil. *)
Class RemoteOrchestrators := {
  contact : Type;
  Address : contact → string;
  AvailableMSPs : gset string;
  Resolve : remoteOrchestratorResolveRequest → result (option (list (option contact)));
  EndorseOnly : contact → InvocationRequest → result helperExecutionResult }.

Section Compare.

(** [binding_conflict]: the two lifecycle definition checks of the loop body. *)
Definition binding_conflict (l r : option LifecycleExecutionBinding) : bool :=
  match l, r with
  | None, None => false
  | Some l, Some r =>
      negb (bool_decide (b_ChaincodeName l = b_ChaincodeName r)) ||
      negb (bool_decide (b_ChaincodeVersion l = b_ChaincodeVersion r)) ||
      negb (b_Sequence l =? b_Sequence r)
  | _, _ => true
  end.

(** The payload of [Responses[0]]; entries are not nil here. *)
Definition first_payload (e : SdkEndorsement) : option bytes :=
  match end_Responses e with
  | [] => None
  | r :: _ => Some (default "" (pr_Payload <$> r))
  end.

Definition compare_one (local : helperExecutionResult) (lr : Response)
    (r : helperExecutionResult) : result () :=
  guard_err (binding_conflict (res_Binding local) (res_Binding r))
    (ENew "remote helper result %d lifecycle definition mismatch");;
  match res_Response r with
  | None => Err (ENew "remote helper result %d response is nil")
  | Some rr =>
      guard_err (negb (Status lr =? Status rr)) (ENew "remote helper result %d status mismatch");;
      guard_err (negb (bool_decide (Message lr = Message rr)))
        (ENew "remote helper result %d message mismatch");;
      guard_err (negb (bool_decide (Payload lr = Payload rr)))
        (ENew "remote helper result %d response payload mismatch");;
      match first_payload (res_Endorsement local), first_payload (res_Endorsement r) with
      | Some p, Some q =>
          guard_err (negb (bool_decide (p = q)))
            (ENew "remote helper result %d transaction payload mismatch")
      | _, _ => Err (ENew "remote helper result %d missing endorsement response")
      end
  end.

Fixpoint compare_all (local : helperExecutionResult) (lr : Response)
    (remote : list helperExecutionResult) : result () :=
  match remote with
  | [] => Ok ()
  | r :: rest => compare_one local lr r;; compare_all local lr rest
  end.

Definition compareCanonicalResults (local : helperExecutionResult)
    (remote : list helperExecutionResult) : result () :=
  match res_Response local with
  | None => Err (ENew "local helper response is nil")
  | Some lr => compare_all local lr remote
  end.

Definition mergeEndorsements (local : helperExecutionResult) (remote : list helperExecutionResult)
    : result SdkEndorsement :=
  match end_Proposal (res_Endorsement local) with
  | None => Err (ENew "local endorsement has no proposal")
  | Some proposal =>
      let responses := end_Responses (res_Endorsement local) ++
        mjoin ((λ r, end_Responses (res_Endorsement r)) <$> remote) in
      guard_err (bool_decide (responses = [])) (ENew "no endorsement responses to merge");;
      Ok (mkSdkEndorsement (Some proposal) responses)
  end.

End Compare.

#[export] Instance option_response_eq_dec : EqDecision (option ProposalResponse).
Proof. apply _. Defined.

Section Assemble.
Context `{P : PolicyLib}.

(** The first candidate of an MSP. *)
Fixpoint first_of_msp (i : nat) (candidates : list verifiedEndorsement) (mspID : string)
    : option nat :=
  match candidates with
  | [] => None
  | c :: rest => if bool_decide (ve_mspID c = mspID) then Some i else first_of_msp (S i) rest mspID
  end.

(** One candidate for each requested organization; [None] when one is missing. *)
Fixpoint requested_indices (candidates : list verifiedEndorsement) (requested : list string)
    (seen : gset string) : option (list nat) :=
  match requested with
  | [] => Some []
  | mspID :: rest =>
      if bool_decide (mspID ∈ seen) then requested_indices candidates rest seen
      else
        index ← first_of_msp 0 candidates mspID;
        cons index <$> requested_indices candidates rest ({[mspID]} ∪ seen)
  end.

(** [Ok None] is the code's [ok = false] with a nil error. *)
Definition assembleSelection (ctx : nat → option goerr) (p : namespaceEndorsementPolicy)
    (local : helperExecutionResult) (candidates : list verifiedEndorsement)
    (requestedMSPs : list string)
    : result (option (SdkEndorsement * list helperExecutionResult)) :=
  let found := match requestedMSPs with
    | [] => Some (selectEndorsements ctx p candidates)
    | _ => (λ l, (l, ctx 0%nat)) <$> requested_indices candidates requestedMSPs ∅
    end in
  match found with
  | None => Ok None
  | Some (_, Some e) => Err e
  | Some ([], None) => Ok None
  | Some (indices, None) =>
      let chosen := omap (λ i, ve_result <$> candidates !! i) indices in
      let remote := omap (λ i : nat, if bool_decide (i = 0%nat) then None
                                     else ve_result <$> candidates !! i) indices in
      match chosen with
      | [] => Ok None
      | first :: others =>
          merged ← mergeEndorsements first others;
          let end_ := mkSdkEndorsement (end_Proposal (res_Endorsement local)) (end_Responses merged) in
          (if bool_decide (requestedMSPs = [])
           then Msp.wrap_err "verify collected namespace endorsements: %w"
                  (verifySelection p end_ (res_TxID local))
           else Ok ());;
          Ok (Some (end_, remote))
      end
  end.

End Assemble.

Section Collection.
Context `{P : PolicyLib} {R : RemoteOrchestrators}.
(** [s.cfg.ChannelID], the local MSP and the trusted MSPs of the service. *)
Variable channelID : string.
Variable localMSPID : string.
Variable deser : option Msp.manager.
Variable now : Z.
Variable ctxs : nat → nat → option goerr.

Record loop_state := mkLoop {
  candidates : list verifiedEndorsement;
  seenSigners : gset string;
  failures : list goerr;
  stage : nat }.

(** A loop either returns from the function or goes on. *)
Inductive outcome : Type :=
  | Return (r : result (SdkEndorsement * list helperExecutionResult))
  | Continue (st : loop_state).

Definition add_failure (e : goerr) (st : loop_state) : loop_state :=
  mkLoop (candidates st) (seenSigners st) (failures st ++ [e]) (stage st).

Definition next_stage (st : loop_state) : loop_state :=
  mkLoop (candidates st) (seenSigners st) (failures st) (S (stage st)).

Section OneCollection.
Variable compiled : namespaceEndorsementPolicy.
Variable req : InvocationRequest.
Variable local : helperExecutionResult.

Definition requireMSP : bool := negb (bool_decide (EndorsingOrganizations req = [])).

(** [if end, remote, ok, err := assembleSelection(...); ok || err != nil]. *)
Definition try_assemble (st : loop_state) : outcome :=
  match assembleSelection (ctxs (stage st)) compiled local (candidates st)
          (EndorsingOrganizations req) with
  | Err e => Return (Err e)
  | Ok (Some r) => Return (Ok r)
  | Ok None => Continue (next_stage st)
  end.

(** The result of one contact, when it answered. *)
Definition handle_result (mspID : string) (r : helperExecutionResult) (st : loop_state) : outcome :=
  if negb (bool_decide (res_TxID r = res_TxID local))
  then Return (Err (ENew "remote execution transaction ID mismatch"))
  else match authenticate now compiled r mspID requireMSP with
       | Err e => Continue (add_failure (EWrap "endorser %s at %s: %w" e) st)
       | Ok verified =>
           match compareCanonicalResults local [r] with
           | Err e => Return (Err e)
           | Ok _ =>
               if bool_decide (ve_key verified ∈ seenSigners st) then Continue st
               else try_assemble (mkLoop (candidates st ++ [verified])
                      ({[ve_key verified]} ∪ seenSigners st) (failures st) (stage st))
           end
       end.

(** The loop over the contacts of one organization. *)
Fixpoint collect_contacts (mspID : string) (remotes : list (option contact))
    (visited : gset string) (st : loop_state) : outcome :=
  match remotes with
  | [] => Continue st
  | remote :: rest =>
      match ctxs (stage st) 0%nat with
      | Some e => Return (Err e)
      | None =>
          let st := next_stage st in
          match remote with
          | None => collect_contacts mspID rest visited st
          | Some remote =>
              if bool_decide (Address remote ∈ visited)
              then collect_contacts mspID rest visited st
              else
                let visited := {[Address remote]} ∪ visited in
                match EndorseOnly remote req with
                | Err e => collect_contacts mspID rest visited (add_failure e st)
                | Ok r =>
                    match handle_result mspID r st with
                    | Return r => Return r
                    | Continue st => collect_contacts mspID rest visited st
                    end
                end
          end
      end
  end.

(** The loop over the target organizations. *)
Fixpoint collect_orgs (namespace : string) (targets : list string) (visited : gset string)
    (st : loop_state) : outcome :=
  match targets with
  | [] => Continue st
  | mspID :: rest =>
      match ctxs (stage st) 0%nat with
      | Some e => Return (Err e)
      | None =>
          let st := next_stage st in
          if bool_decide (mspID ∈ visited) then collect_orgs namespace rest visited st
          else
            let visited := {[mspID]} ∪ visited in
            if negb (bool_decide (mspID ∈ AvailableMSPs))
            then collect_orgs namespace rest visited st
            else
              match Resolve (mkResolveRequest localMSPID mspID channelID namespace
                              (ChaincodeName req) (ChaincodeVersion req) 0) with
              | Err e =>
                  collect_orgs namespace rest visited
                    (add_failure (EWrap "resolve endorsers for %s: %w" e) st)
              | Ok None => collect_orgs namespace rest visited st
              | Ok (Some remotes) =>
                  match collect_contacts mspID remotes ∅ st with
                  | Return r => Return r
                  | Continue st => collect_orgs namespace rest visited st
                  end
              end
      end
  end.
End OneCollection.

(** [sort.Strings]. *)
#[local] Instance string_leb_dec a b : Decision (String.leb a b = true).
Proof. apply _. Defined.

Definition sort_strings (l : list string) : list string :=
  merge_sort (λ a b, String.leb a b = true) l.

Definition target_orgs (compiled : namespaceEndorsementPolicy) (req : InvocationRequest)
    : list string :=
  match EndorsingOrganizations req with
  | [] => if unscoped compiled
          then targetMSPs compiled ++ sort_strings (elements AvailableMSPs)
          else targetMSPs compiled
  | l => l
  end.

Definition with_namespace (ns : string) (req : InvocationRequest) : InvocationRequest :=
  mkRequest (definition req) (ClientTxID req) (ClientCreator req) (ClientNonce req)
    (ClientSignedProposal req) (ClientTransient req) (EndorsingOrganizations req)
    (IdempotencyKey req) (RequestDigest req) ns (ChaincodeName req) (ChaincodeVersion req)
    (IsInit req) (Function req) (Args req).

Definition errors_Join (first : goerr) (rest : list goerr) : goerr := foldl EJoin first rest.

Definition collectNamespaceEndorsements (policy : NamespacePolicySnapshot)
    (req : InvocationRequest) (local : helperExecutionResult)
    : result (SdkEndorsement * list helperExecutionResult) :=
  compiled ← newNamespaceEndorsementPolicy policy deser;
  guard_err (negb (bool_decide (ClientTxID req = "")) &&
             negb (bool_decide (ClientTxID req = res_TxID local)))
    (ENew "local execution transaction ID does not match client proposal");;
  verified ← Msp.wrap_err "local endorsement: %w"
               (authenticate now compiled local localMSPID (requireMSP req));
  match try_assemble compiled req local (mkLoop [verified] {[ve_key verified]} [] 0) with
  | Return r => r
  | Continue st =>
      match ClientSignedProposal req with
      | None => Err (ENew "remote orchestrator execution requires the original signed proposal")
      | Some _ =>
          let targets := target_orgs compiled req in
          match collect_orgs compiled (with_namespace (snap_Namespace policy) req) local
                  (snap_Namespace policy) targets ∅ st with
          | Return r => r
          | Continue st =>
              let first := if requireMSP req
                then ENew "could not obtain endorsements from all requested organizations: %v"
                else ENew "namespace %s endorsement policy is not satisfied by the available distinct signing identities" in
              Err (errors_Join first (failures st))
          end
      end
  end.

End Collection.

(** ** Helper lemmas *)

Section Lemmas.
Context `{P : PolicyLib}.

Lemma authenticate_result now p r msp req v :
  authenticate now p r msp req = Ok v → ve_result v = r.
Proof.
  unfold authenticate. intros Hauth. repeat (case_match; try done); inv_ok; repeat case_match; inv_ok;
    done.
Qed.

Lemma first_of_msp_spec k (cands : list verifiedEndorsement) msp i :
  first_of_msp k cands msp = Some i →
  ∃ c, (k ≤ i)%nat ∧ cands !! (i - k)%nat = Some c ∧ ve_mspID c = msp.
Proof.
  revert k. induction cands as [|c cands IH]; intros k; simpl; [done|].
  case_bool_decide as E.
  - intros [= ->]. exists c. split; [lia|]. by rewrite Nat.sub_diag.
  - intros (c' & Hle & Hc & Hm)%IH. exists c'. split; [lia|].
    by replace (i - k)%nat with (S (i - S k)) by lia.
Qed.

Lemma requested_indices_spec (cands : list verifiedEndorsement) requested seen l :
  requested_indices cands requested seen = Some l →
  NoDup l ∧
  (∀ i, i ∈ l → ∃ c, cands !! i = Some c ∧ ve_mspID c ∈ requested ∧ ve_mspID c ∉ seen) ∧
  (∀ m, m ∈ requested → m ∉ seen → ∃ i c, i ∈ l ∧ cands !! i = Some c ∧ ve_mspID c = m).
Proof.
  revert seen l. induction requested as [|m requested IH]; intros seen l; simpl.
  { intros [= <-]. split_and!; [constructor|set_solver|set_solver]. }
  case_bool_decide as Hs.
  - intros (Hnd & Hin & Hall)%IH. split_and!; [done| |].
    + intros i (c & ? & ? & ?)%Hin. exists c. split_and!; [done|by right|done].
    + intros m' [->|?]%elem_of_cons ?; [done|]. by apply Hall.
  - destruct (first_of_msp 0 cands m) as [i|] eqn:Ef; [|done]. simpl.
    destruct (requested_indices cands requested ({[m]} ∪ seen)) as [l'|] eqn:Er; [|done].
    intros [= <-]. apply IH in Er as (Hnd & Hin & Hall).
    apply first_of_msp_spec in Ef as (c & _ & Hc & Hm). rewrite Nat.sub_0_r in Hc.
    split_and!.
    + constructor; [|done]. intros (c' & Hc' & _ & Hn)%Hin. simplify_eq. set_solver.
    + intros j [->|Hj]%elem_of_cons.
      * exists c. split_and!; [done|rewrite Hm; by left|by rewrite Hm].
      * apply Hin in Hj as (c' & ? & ? & ?). exists c'. split_and!; [done|by right|set_solver].
    + intros m' [->|Hm']%elem_of_cons Hns; [exists i, c; split_and!; [by left|done|done]|].
      destruct (decide (m' = m)) as [->|]; [exists i, c; split_and!; [by left|done|done]|].
      destruct (Hall m' Hm') as (j & c' & ? & ? & ?); [set_solver|].
      exists j, c'. split_and!; [by right|done|done].
Qed.

Lemma selectEndorsements_NoDup ctx p cands l e :
  selectEndorsements ctx p cands = (l, e) → NoDup l ∧ ∀ i, i ∈ l → (i < length cands)%nat.
Proof.
  intros Hs. destruct (decide (l = [])) as [->|Hl]; [split; [constructor|set_solver]|].
  destruct (policy p) as [pol|] eqn:Hp.
  - by destruct (selectEndorsements_sound_aux ctx p cands pol l e Hp Hs Hl) as (? & ? & _).
  - unfold selectEndorsements in Hs. destruct (ctx 0%nat); [congruence|]. rewrite Hp in Hs.
    case_bool_decide; simplify_eq. split; [apply NoDup_singleton|].
    intros i ->%list_elem_of_singleton. lia.
Qed.

(** The candidates at distinct indices keep distinct keys. *)
Lemma chosen_spec (cands : list verifiedEndorsement) (indices : list nat) :
  NoDup indices → NoDup (ve_key <$> cands) → (∀ i, i ∈ indices → (i < length cands)%nat) →
  ∃ chosen, omap (λ i, ve_result <$> cands !! i) indices = ve_result <$> chosen ∧
    length chosen = length indices ∧
    NoDup (ve_key <$> chosen) ∧ (∀ v, v ∈ chosen ↔ ∃ i, i ∈ indices ∧ cands !! i = Some v).
Proof.
  intros Hnd Hk. induction Hnd as [|i indices Hi Hnd IH]; intros Hb.
  { exists []. split_and!; try done; [constructor|set_solver]. }
  destruct (IH ltac:(intros j Hj; apply Hb; by right)) as (ch & Hr & Hl & Hndk & Hin).
  destruct (lookup_lt_is_Some_2 cands i) as [v Hv]; [apply Hb; by left|].
  exists (v :: ch). csimpl. rewrite Hv. csimpl. rewrite Hr. split_and!; [done|by simpl; rewrite Hl| |].
  - simpl. constructor; [|done]. intros (v' & Ek & Hv')%list_elem_of_fmap.
    apply Hin in Hv' as (j & Hj & Hvj).
    assert (i = j) as ->; [|done].
    apply (NoDup_lookup (ve_key <$> cands) i j (ve_key v)); [done| |].
    + by rewrite list_lookup_fmap, Hv.
    + rewrite list_lookup_fmap, Hvj. simpl. by rewrite Ek.
  - intros v'. rewrite elem_of_cons, Hin. split.
    + intros [->|(j & ? & ?)]; [exists i; split; [by left|done]|exists j; split; [by right|done]].
    + intros (j & [->|Hj]%elem_of_cons & ?); [left; congruence|right; eauto].
Qed.

Lemma mergeEndorsements_ok first others m :
  mergeEndorsements first others = Ok m →
  end_Responses m = mjoin ((λ r, end_Responses (res_Endorsement r)) <$> (first :: others)).
Proof.
  unfold mergeEndorsements. case_match; [|done]. intros H'. inv_ok. done.
Qed.

End Lemmas.

Section Soundness.
Context `{P : PolicyLib} {R : RemoteOrchestrators}.
Variable channelID : string.
Variable localMSPID : string.
Variable deser : option Msp.manager.
Variable now : Z.
Variable ctxs : nat → nat → option goerr.
Variable compiled : namespaceEndorsementPolicy.
Variable req : InvocationRequest.
Variable local : helperExecutionResult.

(** A candidate: it was authenticated, it executed this transaction, and its
    canonical results are the local ones. *)
Definition candidate_ok (v : verifiedEndorsement) : Prop :=
  (∃ msp, authenticate now compiled (ve_result v) msp (requireMSP req) = Ok v) ∧
  res_TxID (ve_result v) = res_TxID local ∧
  (ve_result v = local ∨ compareCanonicalResults local [ve_result v] = Ok ()).

Definition loop_ok (st : loop_state) : Prop :=
  Forall candidate_ok (candidates st) ∧ NoDup (ve_key <$> candidates st) ∧
  ∀ k, k ∈ seenSigners st ↔ k ∈ ve_key <$> candidates st.

(** What a returned endorsement is made of. *)
Definition endorsement_ok (end_ : SdkEndorsement) : Prop :=
  ∃ chosen, chosen ≠ [] ∧ Forall candidate_ok chosen ∧ NoDup (ve_key <$> chosen) ∧
    end_Responses end_ = mjoin ((λ v, end_Responses (res_Endorsement (ve_result v))) <$> chosen) ∧
    end_Proposal end_ = end_Proposal (res_Endorsement local) ∧
    (EndorsingOrganizations req = [] → verifySelection compiled end_ (res_TxID local) = Ok ()) ∧
    (∀ m, m ∈ EndorsingOrganizations req → ∃ v, v ∈ chosen ∧ ve_mspID v = m).

Definition outcome_ok (o : outcome) : Prop :=
  match o with
  | Return (Ok (end_, _)) => endorsement_ok end_
  | Return (Err _) => True
  | Continue st => loop_ok st
  end.

Lemma assemble_ok ctx st end_ remote :
  loop_ok st →
  assembleSelection ctx compiled local (candidates st) (EndorsingOrganizations req) =
    Ok (Some (end_, remote)) →
  endorsement_ok end_.
Proof.
  intros (Hall & Hnd & _). unfold assembleSelection.
  set (found := match EndorsingOrganizations req with [] => _ | _ => _ end).
  assert (Hfound : ∀ l e, found = Some (l, e) →
    NoDup l ∧ (∀ i, i ∈ l → (i < length (candidates st))%nat) ∧
    ∀ m, m ∈ EndorsingOrganizations req → ∃ i c, i ∈ l ∧ candidates st !! i = Some c ∧ ve_mspID c = m).
  { intros l e Hf. unfold found in Hf. destruct (EndorsingOrganizations req) as [|m ms] eqn:Er.
    - injection Hf as Hf. apply selectEndorsements_NoDup in Hf as [? ?]. split_and!; [done|done|set_solver].
    - destruct (requested_indices (candidates st) (m :: ms) ∅) as [l'|] eqn:Ei; [|done].
      injection Hf as -> _. apply requested_indices_spec in Ei as (? & Hin & Hm). split_and!; [done| |].
      + intros i (c & ? & _)%Hin. by eapply lookup_lt_Some.
      + intros m' Hm'. apply Hm; set_solver. }
  destruct found as [[[|i l] [e|]]|] eqn:Ef; try done.
  destruct (Hfound (i :: l) None eq_refl) as (Hl & Hb & Hm).
  destruct (chosen_spec (candidates st) (i :: l) Hl Hnd Hb) as (ch & Hres & Hlen & Hndk & Hin).
  rewrite Hres. destruct ch as [|v ch]; [done|]. intros Hok. simpl in Hok. inv_ok.
  apply mergeEndorsements_ok in Hx. exists (v :: ch). split_and!; try done.
  - rewrite Forall_forall in Hall |- *. intros w (j & _ & Hj)%Hin.
    apply Hall. by eapply list_elem_of_lookup_2.
  - simpl. rewrite Hx. simpl. by rewrite <- list_fmap_compose.
  - intros Hreq. rewrite bool_decide_eq_true_2 in Hx0 by done. match goal with u : () |- _ => destruct u end. by apply Msp.wrap_err_ok in Hx0.
  - intros m (j & c & Hj & Hc & Hmc)%Hm. exists c. split; [|done]. apply Hin. eauto.
Qed.

Lemma try_assemble_ok st : loop_ok st → outcome_ok (try_assemble ctxs compiled req local st).
Proof.
  intros Hst. unfold try_assemble.
  destruct (assembleSelection _ _ _ _ _) as [[[end_ remote]|]|] eqn:E; [|done|done].
  by eapply assemble_ok.
Qed.

Lemma handle_result_ok msp r st :
  loop_ok st → outcome_ok (handle_result now ctxs compiled req local msp r st).
Proof.
  intros Hst. unfold handle_result. case_match eqn:Etx; [done|].
  apply negb_false_iff, bool_decide_eq_true in Etx.
  destruct (authenticate now compiled r msp (requireMSP req)) as [v|] eqn:Ea; [|done].
  pose proof (authenticate_result _ _ _ _ _ _ Ea) as Hr.
  destruct (compareCanonicalResults local [r]) as [[]|] eqn:Ec; [|done].
  case_bool_decide as Hseen; [done|]. apply try_assemble_ok.
  destruct Hst as (Hall & Hnd & Hs). split_and!; simpl.
  - apply Forall_app. split; [done|]. apply Forall_singleton. unfold candidate_ok.
    rewrite Hr. split_and!; [by exists msp|done|by right].
  - rewrite fmap_app. apply NoDup_app. split_and!; [done| |apply NoDup_singleton].
    intros k Hk ->%list_elem_of_singleton. by apply Hs in Hk.
  - intros k. rewrite fmap_app, elem_of_app, <- Hs. set_solver.
Qed.

Lemma collect_contacts_ok msp remotes visited st :
  loop_ok st → outcome_ok (collect_contacts now ctxs compiled req local msp remotes visited st).
Proof.
  revert visited st. induction remotes as [|remote rest IH]; intros visited st Hst; simpl; [done|].
  case_match; [done|]. destruct remote as [remote|]; [|by apply IH].
  case_bool_decide; [by apply IH|].
  destruct (EndorseOnly remote req) as [r|e]; [|by apply IH].
  pose proof (handle_result_ok msp r (next_stage st) Hst) as Hh.
  destruct (handle_result _ _ _ _ _ _ _ _); [done|]. by apply IH.
Qed.

Lemma collect_orgs_ok ns targets visited st :
  loop_ok st →
  outcome_ok (collect_orgs channelID localMSPID now ctxs compiled req local ns targets visited st).
Proof.
  revert visited st. induction targets as [|msp rest IH]; intros visited st Hst; simpl; [done|].
  case_match; [done|]. repeat (case_bool_decide; simpl; try by apply IH).
  destruct (Resolve _) as [[remotes|]|e]; [|by apply IH|by apply IH].
  pose proof (collect_contacts_ok msp remotes ∅ (next_stage st) Hst) as Hc.
  destruct (collect_contacts _ _ _ _ _ _ _ _ _); [done|]. by apply IH.
Qed.

End Soundness.

Section Collected.
Context `{P : PolicyLib} {R : RemoteOrchestrators}.

Lemma collect_endorsement channelID localMSPID deser now ctxs policy req local end_ remote :
  collectNamespaceEndorsements channelID localMSPID deser now ctxs policy req local =
    Ok (end_, remote) →
  ∃ compiled, newNamespaceEndorsementPolicy policy deser = Ok compiled ∧
    endorsement_ok now compiled req local end_ ∧
    (ClientTxID req = "" ∨ ClientTxID req = res_TxID local).
Proof.
  unfold collectNamespaceEndorsements.
  destruct (newNamespaceEndorsementPolicy policy deser) as [compiled|] eqn:Ecomp; [|done].
  intros H1. exists compiled. split; [done|]. simpl in H1.
  destruct (negb _ && negb _) eqn:Etx; [done|]. simpl in H1.
  destruct (authenticate now compiled local localMSPID (requireMSP req)) as [v|] eqn:Ev; [|done].
  simpl in H1. pose proof (authenticate_result _ _ _ _ _ _ Ev) as Hv.
  split.
  2:{ apply andb_false_iff in Etx. rewrite !negb_false_iff, !bool_decide_eq_true in Etx. tauto. }
  assert (Hst : loop_ok now compiled req local (mkLoop [v] {[ve_key v]} [] 0)).
  { split_and!; simpl.
    - apply Forall_singleton. split_and!; [exists localMSPID; by rewrite Hv|by rewrite Hv|by left].
    - apply NoDup_singleton.
    - intros k. set_solver. }
  pose proof (try_assemble_ok now ctxs compiled req local _ Hst) as Ho.
  destruct (try_assemble _ _ _ _ _) as [r|st]; [by subst r|].
  destruct (ClientSignedProposal req); [|done].
  pose proof (collect_orgs_ok channelID localMSPID now ctxs compiled
    (with_namespace (snap_Namespace policy) req) local (snap_Namespace policy)
    (target_orgs compiled req) ∅ st Ho) as Hc.
  destruct (collect_orgs _ _ _ _ _ _ _ _ _ _ _) as [r|st']; [|done]. by subst r.
Qed.

End Collected.

(** ** Properties *)

Section Properties.
Context `{P : PolicyLib} {R : RemoteOrchestrators}.

(** C10: Every endorsement that collection returns is made of authenticated endorsements
    of distinct signers, all for this transaction and with the local canonical results;
    without explicit organizations it has passed the namespace signature verifier, and
    otherwise it holds one endorsement of each requested organization. *)
Theorem collect_sound channelID localMSPID deser now ctxs policy req local end_ remote :
  collectNamespaceEndorsements channelID localMSPID deser now ctxs policy req local =
    Ok (end_, remote) →
  ∃ compiled, newNamespaceEndorsementPolicy policy deser = Ok compiled ∧
    endorsement_ok now compiled req local end_ ∧
    (ClientTxID req = "" ∨ ClientTxID req = res_TxID local).
Proof. exact (collect_endorsement channelID localMSPID deser now ctxs policy req local end_ remote). Qed.

(** Remote results pass the comparison exactly when the local response exists and
    each of them has the same lifecycle binding, response and transaction payload. *)
Theorem compareCanonicalResults_exact local remote :
  compareCanonicalResults local remote = Ok () ↔
  ∃ lr, res_Response local = Some lr ∧ ∀ r, r ∈ remote →
    (match res_Binding local, res_Binding r with
     | None, None => True
     | Some l, Some b => b_ChaincodeName l = b_ChaincodeName b ∧
         b_ChaincodeVersion l = b_ChaincodeVersion b ∧ b_Sequence l = b_Sequence b
     | _, _ => False
     end) ∧
    res_Response r = Some lr ∧
    ∃ payload, first_payload (res_Endorsement local) = Some payload ∧
      first_payload (res_Endorsement r) = Some payload.
Proof.
  unfold compareCanonicalResults. destruct (res_Response local) as [lr|]; [|naive_solver].
  assert (Hone : ∀ r, compare_one local lr r = Ok () ↔
    (match res_Binding local, res_Binding r with
     | None, None => True
     | Some l, Some b => b_ChaincodeName l = b_ChaincodeName b ∧
         b_ChaincodeVersion l = b_ChaincodeVersion b ∧ b_Sequence l = b_Sequence b
     | _, _ => False
     end) ∧ res_Response r = Some lr ∧
    ∃ payload, first_payload (res_Endorsement local) = Some payload ∧
      first_payload (res_Endorsement r) = Some payload).
  { intros r. unfold compare_one. split.
    - intros Ho. inv_ok. destruct (res_Response r) as [rr|]; inv_ok.
      destruct (first_payload (res_Endorsement local)), (first_payload (res_Endorsement r)); inv_ok.
      bool_props. subst. split; [|split; [destruct lr, rr; simpl in *; congruence|eauto]].
      unfold binding_conflict in *. destruct (res_Binding local), (res_Binding r); try done.
      by bool_props.
    - intros (Hb & -> & payload & -> & ->).
      assert (binding_conflict (res_Binding local) (res_Binding r) = false) as ->.
      { unfold binding_conflict. destruct (res_Binding local), (res_Binding r); try done.
        destruct Hb as (-> & -> & ->). by rewrite !bool_decide_eq_true_2, Z.eqb_refl. }
      simpl. by rewrite Z.eqb_refl, !bool_decide_eq_true_2. }
  induction remote as [|r rest IH]; simpl.
  { split; [|done]. intros _. exists lr. split; [done|]. intros r ?%elem_of_nil. done. }
  destruct (compare_one local lr r) as [[]|] eqn:E; simpl.
  - rewrite IH. apply Hone in E. split; intros (lr' & [= <-] & Hall); exists lr; (split; [done|]).
    + intros r' [->|?]%elem_of_cons; auto.
    + intros r' ?. apply Hall. by right.
  - split; [done|]. intros (lr' & [= <-] & Hall). specialize (Hall r ltac:(by left)).
    apply Hone in Hall. congruence.
Qed.

End Properties.

(** ** Concrete instances: [Org2MSP] collects from [Org1MSP] *)

Import Instances.

Definition ex_remotes : RemoteOrchestrators := {|
  contact := string;
  Address c := c;
  AvailableMSPs := {["Org1MSP"]};
  Resolve q := Ok (if bool_decide (TargetMSPID q = "Org1MSP") then Some [Some "Org1MSP:peer"] else None);
  EndorseOnly c _ := Ok (ex_result c "peer") |}.

Definition ex_request (orgs : list string) : InvocationRequest :=
  mkRequest None "tx1" "creator" "nonce" (Some (mkSignedProposal "proposal" "sig")) ∅ orgs "" ""
    "ns" "basic" "1.0" false "put" ["k"; "v"].

Definition ex_local : helperExecutionResult := ex_result "Org2MSP:peer" "peer".

Lemma collect_sound_witness :
  ∃ compiled, newNamespaceEndorsementPolicy (P := example_policy) ex_snapshot (Some ()) = Ok compiled ∧
    endorsement_ok (P := example_policy) 50 compiled (ex_request ["Org1MSP"; "Org2MSP"]) ex_local
      (mkSdkEndorsement (end_Proposal (res_Endorsement ex_local))
         (end_Responses (res_Endorsement (ex_result "Org1MSP:peer" "peer")) ++
          end_Responses (res_Endorsement ex_local))).
Proof.
  destruct (collect_sound (P := example_policy) (R := ex_remotes) "mychannel" "Org2MSP" (Some ()) 50 (λ _ _, None)
    ex_snapshot (ex_request ["Org1MSP"; "Org2MSP"]) ex_local
    (mkSdkEndorsement (end_Proposal (res_Endorsement ex_local))
         (end_Responses (res_Endorsement (ex_result "Org1MSP:peer" "peer")) ++
          end_Responses (res_Endorsement ex_local)))
    [ex_result "Org1MSP:peer" "peer"]) as (compiled & H1 & H2 & _).
  - vm_compute. reflexivity.
  - exists compiled. split; [exact H1|exact H2].
Defined.

End Collect.
