(* ===== verification/Finality.v ===== *)
(** Observing transaction outcomes: final statuses, notifications and status
    queries of [pkg/orchestrator/execution.go] and [service.go].

    The committer's status values are an inductive type with the constructors the
    code names; [Status_known n] is any other value of the protobuf enum and
    [Status_unknown n] a number outside it. *)
From Stdlib Require Import ZArith Lia.
From stdpp Require Import base option list strings sets.
From S2P Require Import Prelude.
Local Open Scope Z_scope.

Module Finality.

Inductive CommitterStatus : Set :=
  | STATUS_UNSPECIFIED
  | COMMITTED
  | ABORTED_SIGNATURE_INVALID
  | ABORTED_MVCC_CONFLICT
  | REJECTED_DUPLICATE_TX_ID
  | MALFORMED_MISSING_SIGNATURE
  | MALFORMED_NAMESPACE_POLICY_INVALID
  | MALFORMED_BAD_ENVELOPE
  | MALFORMED_BAD_ENVELOPE_PAYLOAD
  | MALFORMED_MISSING_TX_ID
  | MALFORMED_TX_ID_CONFLICT
  | MALFORMED_UNSUPPORTED_ENVELOPE_PAYLOAD
  | MALFORMED_EMPTY_NAMESPACES
  | MALFORMED_DUPLICATE_NAMESPACE
  | MALFORMED_NAMESPACE_ID_INVALID
  | MALFORMED_EMPTY_KEY
  | MALFORMED_DUPLICATE_KEY_IN_READ_WRITE_SET
  | MALFORMED_BLIND_WRITES_NOT_ALLOWED
  | MALFORMED_NO_WRITES
  | MALFORMED_CONFIG_TX_INVALID
  | Status_known (n : Z)
  | Status_unknown (n : Z).

#[export] Instance CommitterStatus_eq_dec : EqDecision CommitterStatus.
Proof. solve_decision. Defined.

(** [TxStatus] with its [TxRef]; a nil [Ref] reads as zero values. *)
Record TxStatus := mkTxStatus {
  ref_TxId : string;
  ref_BlockNum : Z;
  ref_TxNum : Z;
  st_Status : CommitterStatus }.

#[export] Instance TxStatus_eq_dec : EqDecision TxStatus.
Proof. solve_decision. Defined.

Definition isFinalStatus (txID : string) (status : option TxStatus) : bool :=
  match status with
  | None => false
  | Some st =>
      bool_decide (ref_TxId st = txID) &&
      match st_Status st with
      | STATUS_UNSPECIFIED => false
      | Status_unknown _ => false
      | _ => true
      end
  end.

(** Fabric's validation codes that the code names. *)
Inductive TxValidationCode : Set :=
  | VALID | ENDORSEMENT_POLICY_FAILURE | MVCC_READ_CONFLICT | DUPLICATE_TXID | BAD_PAYLOAD
  | BAD_PROPOSAL_TXID | UNSUPPORTED_TX_PAYLOAD | BAD_RWSET | INVALID_WRITESET
  | INVALID_CONFIG_TRANSACTION | INVALID_OTHER_REASON.

#[export] Instance TxValidationCode_eq_dec : EqDecision TxValidationCode.
Proof. solve_decision. Defined.

Definition gatewayValidationCode (result : CommitterStatus) : TxValidationCode :=
  match result with
  | COMMITTED => VALID
  | ABORTED_SIGNATURE_INVALID | MALFORMED_MISSING_SIGNATURE
  | MALFORMED_NAMESPACE_POLICY_INVALID => ENDORSEMENT_POLICY_FAILURE
  | ABORTED_MVCC_CONFLICT => MVCC_READ_CONFLICT
  | REJECTED_DUPLICATE_TX_ID => DUPLICATE_TXID
  | MALFORMED_BAD_ENVELOPE | MALFORMED_BAD_ENVELOPE_PAYLOAD => BAD_PAYLOAD
  | MALFORMED_MISSING_TX_ID | MALFORMED_TX_ID_CONFLICT => BAD_PROPOSAL_TXID
  | MALFORMED_UNSUPPORTED_ENVELOPE_PAYLOAD => UNSUPPORTED_TX_PAYLOAD
  | MALFORMED_EMPTY_NAMESPACES | MALFORMED_DUPLICATE_NAMESPACE
  | MALFORMED_NAMESPACE_ID_INVALID | MALFORMED_EMPTY_KEY
  | MALFORMED_DUPLICATE_KEY_IN_READ_WRITE_SET => BAD_RWSET
  | MALFORMED_BLIND_WRITES_NOT_ALLOWED | MALFORMED_NO_WRITES => INVALID_WRITESET
  | MALFORMED_CONFIG_TX_INVALID => INVALID_CONFIG_TRANSACTION
  | _ => INVALID_OTHER_REASON
  end.

(** ** Notifications *)

Record NotificationResponse := mkNotification {
  TxStatusEvents : list TxStatus;
  TimeoutTxIds : list string;
  RejectedTxIds : option (list string * string) }.

Record finalityResult := mkFinalityResult { fr_status : option TxStatus; fr_err : option goerr }.

Fixpoint find_status (txID : string) (l : list TxStatus) : option TxStatus :=
  match l with
  | [] => None
  | st :: rest => if bool_decide (ref_TxId st = txID) then Some st else find_status txID rest
  end.

(** [None] is [ok = false]. *)
Definition matchNotification (txID : string) (res : NotificationResponse) : option finalityResult :=
  match find_status txID (TxStatusEvents res) with
  | Some st => Some (mkFinalityResult (Some st) None)
  | None =>
      if bool_decide (txID ∈ TimeoutTxIds res)
      then Some (mkFinalityResult None (Some (ENew "notification timeout for tx %s")))
      else match RejectedTxIds res with
           | Some (ids, _) =>
               if bool_decide (txID ∈ ids)
               then Some (mkFinalityResult None (Some (ENew "notification rejected tx %s: %s")))
               else None
           | None => None
           end
  end.

(** One [stream.Recv()]: a message, or an error with what [ctx.Err()] then is. *)
Inductive received : Type :=
  | Received (res : NotificationResponse)
  | RecvFailed (is_eof : bool) (err : goerr) (ctx_err_ : ctx_err).

(** [None] while the goroutine is still receiving. *)
Fixpoint waitForNotification (txID : string) (stream : list received) : option finalityResult :=
  match stream with
  | [] => None
  | RecvFailed is_eof err ctx :: _ =>
      Some (mkFinalityResult None (Some
        match ctx with
        | Some e => e
        | None => if is_eof then ENew "notification stream closed before transaction status"
                  else EWrap "receive notification: %w" err
        end))
  | Received res :: rest =>
      match matchNotification txID res with
      | Some r => Some r
      | None => waitForNotification txID rest
      end
  end.

(** The notification client as one subscription meets it: opening the stream, sending the
    subscription and what is received then. *)
Record notifier := mkNotifier {
  nt_Open : option goerr;
  nt_Send : option goerr;
  nt_Stream : list received }.

(** A nil client gives a nil subscription, without an error. *)
Definition subscribeFinality (notify : option notifier) : result (option (list received)) :=
  match notify with
  | None => Ok None
  | Some n =>
      match nt_Open n with
      | Some e => Err (EWrap "open notification stream: %w" e)
      | None =>
          match nt_Send n with
          | Some e => Err (EWrap "send tx status subscription: %w" e)
          | None => Ok (Some (nt_Stream n))
          end
      end
  end.

(** The subscription a caller is left with that only logs the error. *)
Definition subscription_or_nil (notify : option notifier) : option (list received) :=
  match subscribeFinality notify with Ok subscription => subscription | Err _ => None end.

(** [Wait] on a nil subscription returns nil values at once. *)
Definition Wait (txID : string) (subscription : option (list received)) : option finalityResult :=
  match subscription with
  | None => Some (mkFinalityResult None None)
  | Some stream => waitForNotification txID stream
  end.

(** ** Status queries *)

Fixpoint find_final (txID : string) (l : list TxStatus) : option TxStatus :=
  match l with
  | [] => None
  | st :: rest => if isFinalStatus txID (Some st) then Some st else find_final txID rest
  end.

(** [configured] is whether the service has a query client; [response] what
    [GetTransactionStatus] answers. *)
Definition queryTransactionStatus (configured : bool) (response : result (list TxStatus))
    (txID : string) : result (option TxStatus) :=
  if negb configured then Err (ENew "transaction status query service is not configured")
  else match response with
       | Err e => Err (EWrap "query transaction status: %w" e)
       | Ok statuses => Ok (find_final txID statuses)
       end.

(** The arm [select] takes.  [arm_notification] carries the received outcome, or
    [None] for a closed channel. *)
Inductive select_arm : Type :=
  | arm_ctx_done (e : goerr)
  | arm_recheck
  | arm_last_check
  | arm_notification (r : option finalityResult).

(** One iteration of the waiting loop: the answer to its query, what [ctx.Err()]
    is after it, and the arm its [select] takes. *)
Record iteration := mkIteration {
  it_response : result (list TxStatus);
  it_ctx : ctx_err;
  it_arm : select_arm }.

(** [None] while the loop goes on. *)
Fixpoint status_loop (txID : string) (its : list iteration) : option (result TxStatus) :=
  match its with
  | [] => None
  | it :: rest =>
      let q := queryTransactionStatus true (it_response it) txID in
      match it_ctx it with
      | Some e => Some (Err e)
      | None =>
          match q with
          | Ok (Some st) => Some (Ok st)
          | _ =>
              match it_arm it with
              | arm_ctx_done e => Some (Err e)
              | arm_recheck | arm_last_check => status_loop txID rest
              | arm_notification (Some r) =>
                  match fr_status r with
                  | Some st => if isFinalStatus txID (Some st) then Some (Ok st)
                               else status_loop txID rest
                  | None => status_loop txID rest
                  end
              | arm_notification None => status_loop txID rest
              end
          end
      end
  end.

Definition waitForTransactionStatus (configured : bool) (first : result (list TxStatus))
    (its : list iteration) (txID : string) : option (result TxStatus) :=
  match queryTransactionStatus configured first txID with
  | Err e => Some (Err e)
  | Ok (Some st) => Some (Ok st)
  | Ok None => status_loop txID its
  end.

(** ** Helper lemmas *)

Lemma isFinalStatus_spec txID st :
  isFinalStatus txID (Some st) = true ↔
  ref_TxId st = txID ∧ st_Status st ≠ STATUS_UNSPECIFIED ∧ ∀ n, st_Status st ≠ Status_unknown n.
Proof.
  unfold isFinalStatus. rewrite andb_true_iff, bool_decide_eq_true.
  destruct (st_Status st); naive_solver.
Qed.

Lemma find_final_spec txID l st :
  find_final txID l = Some st → st ∈ l ∧ isFinalStatus txID (Some st) = true.
Proof.
  induction l as [|x l IH]; cbn [find_final]; [done|]. case_match eqn:E.
  - intros [= ->]. split; [by left|done].
  - intros [? ?]%IH. split; [by right|done].
Qed.

Lemma find_final_none txID l st :
  find_final txID l = None → st ∈ l → isFinalStatus txID (Some st) = false.
Proof.
  induction l as [|x l IH]; cbn [find_final]; [set_solver|]. case_match eqn:E; [done|].
  intros Hn [->|Hin]%elem_of_cons; auto.
Qed.

(** The statuses that the environment reported during the wait. *)
Definition reported (first : result (list TxStatus)) (its : list iteration) (st : TxStatus) : Prop :=
  (∃ l, first = Ok l ∧ st ∈ l) ∨
  ∃ it, it ∈ its ∧ ((∃ l, it_response it = Ok l ∧ st ∈ l) ∨
    ∃ r, it_arm it = arm_notification (Some r) ∧ fr_status r = Some st).

Lemma status_loop_reported txID its st :
  status_loop txID its = Some (Ok st) →
  isFinalStatus txID (Some st) = true ∧
  ∃ it, it ∈ its ∧ ((∃ l, it_response it = Ok l ∧ st ∈ l) ∨
    ∃ r, it_arm it = arm_notification (Some r) ∧ fr_status r = Some st).
Proof.
  induction its as [|it its IH]; cbn [status_loop]; [done|].
  assert (Hrest : status_loop txID its = Some (Ok st) →
    isFinalStatus txID (Some st) = true ∧
    ∃ it', it' ∈ it :: its ∧ ((∃ l, it_response it' = Ok l ∧ st ∈ l) ∨
      ∃ r, it_arm it' = arm_notification (Some r) ∧ fr_status r = Some st)).
  { intros (? & it' & ? & ?)%IH. split; [done|]. exists it'. split; [by right|done]. }
  assert (Harm : match it_arm it with
    | arm_ctx_done e => Some (Err e)
    | arm_recheck | arm_last_check => status_loop txID its
    | arm_notification (Some r) =>
        match fr_status r with
        | Some st => if isFinalStatus txID (Some st) then Some (Ok st) else status_loop txID its
        | None => status_loop txID its
        end
    | arm_notification None => status_loop txID its
    end = Some (Ok st) → isFinalStatus txID (Some st) = true ∧
    ∃ it', it' ∈ it :: its ∧ ((∃ l, it_response it' = Ok l ∧ st ∈ l) ∨
      ∃ r, it_arm it' = arm_notification (Some r) ∧ fr_status r = Some st)).
  { destruct (it_arm it) as [e| | |[r|]] eqn:Ea; try done.
    destruct (fr_status r) as [st'|] eqn:Er; [|done].
    destruct (isFinalStatus txID (Some st')) eqn:Ef; [|done].
    intros [= <-]. split; [done|]. exists it. split; [by left|]. right. eauto. }
  destruct (it_ctx it); [done|]. unfold queryTransactionStatus. simpl.
  destruct (it_response it) as [l|] eqn:Eq; [|done].
  destruct (find_final txID l) as [st'|] eqn:Ef; [|done].
  intros [= ->]. apply find_final_spec in Ef as [Hin Hf]. split; [done|].
  exists it. split; [by left|]. left. eauto.
Qed.

(** ** Properties *)

(** C39: [CommitStatus] never invents an outcome: a status it waits for is a known
    final status of the requested transaction that the committer reported, in a query
    answer or a notification; and it never misses one that a query reports while the
    context lives. *)
Theorem waitForTransactionStatus_sound configured first its txID :
  (∀ st, waitForTransactionStatus configured first its txID = Some (Ok st) →
     ref_TxId st = txID ∧ st_Status st ≠ STATUS_UNSPECIFIED ∧
     (∀ n, st_Status st ≠ Status_unknown n) ∧ reported first its st) ∧
  (∀ l it its' st, configured = true → first = Ok l → its = its' ++ [it] →
     Forall (λ i, it_ctx i = None ∧ ∀ e, it_arm i ≠ arm_ctx_done e) its →
     it_response it = Ok [st] → isFinalStatus txID (Some st) = true →
     ∃ st', waitForTransactionStatus configured first its txID = Some (Ok st')).
Proof.
  split.
  - intros st Hw. assert (Hf : isFinalStatus txID (Some st) = true ∧ reported first its st).
    { unfold waitForTransactionStatus, queryTransactionStatus in Hw.
      destruct configured; [|done]. simpl in Hw. destruct first as [l|]; [|done].
      destruct (find_final txID l) as [st'|] eqn:Ef.
      - injection Hw as ->. apply find_final_spec in Ef as [? ?]. split; [done|]. left. eauto.
      - apply status_loop_reported in Hw as [? Hit]. split; [done|by right]. }
    destruct Hf as [Hf Hr]. apply isFinalStatus_spec in Hf as (? & ? & ?). done.
  - intros l it its' st -> -> -> Hall Hresp Hf.
    unfold waitForTransactionStatus, queryTransactionStatus. cbn [negb].
    destruct (find_final txID l) as [st'|]; [eauto|].
    apply Forall_app in Hall as [Hall Hit]. apply Forall_singleton in Hit as [Hctx _].
    clear l. induction Hall as [|i its' [Hi Harm] Hall IH].
    + exists st. cbn [app status_loop]. rewrite Hctx, Hresp. unfold queryTransactionStatus.
      cbn [negb find_final]. by rewrite Hf.
    + cbn [app status_loop]. rewrite Hi. unfold queryTransactionStatus. cbn [negb].
      assert (Hrest : ∃ st', match it_arm i with
        | arm_ctx_done e => Some (Err e)
        | arm_recheck | arm_last_check => status_loop txID (its' ++ [it])
        | arm_notification (Some r) =>
            match fr_status r with
            | Some st => if isFinalStatus txID (Some st) then Some (Ok st)
                         else status_loop txID (its' ++ [it])
            | None => status_loop txID (its' ++ [it])
            end
        | arm_notification None => status_loop txID (its' ++ [it])
        end = Some (Ok st')).
      { destruct (it_arm i) as [e| | |[r|]]; try done; [by destruct (Harm e)|].
        destruct (fr_status r) as [st'|]; [|done]. case_match; eauto. }
      destruct (it_response i) as [l|]; [|done]. destruct (find_final txID l); eauto.
Qed.


Lemma waitForTransactionStatus_sound_witness :
  ∃ st', waitForTransactionStatus true (Ok [])
    [mkIteration (Ok []) None (arm_notification None);
     mkIteration (Ok [mkTxStatus "tx1" 7 0 COMMITTED]) None arm_recheck] "tx1" = Some (Ok st').
Proof.
  apply (proj2 (waitForTransactionStatus_sound true (Ok [])
    [mkIteration (Ok []) None (arm_notification None);
     mkIteration (Ok [mkTxStatus "tx1" 7 0 COMMITTED]) None arm_recheck] "tx1"))
    with (l := []) (it := mkIteration (Ok [mkTxStatus "tx1" 7 0 COMMITTED]) None arm_recheck)
      (its' := [mkIteration (Ok []) None (arm_notification None)])
      (st := mkTxStatus "tx1" 7 0 COMMITTED); try reflexivity.
  repeat constructor; done.
Defined.

End Finality.
