(* ===== verification/Submission.v ===== *)
(** Ordering submission and its aftermath, [pkg/orchestrator/execution.go]:
    the submitter, the shared ordering stage, duplicates, finality records and
    the lazy reconciliation pass.

    Everything works on the record store of [Idempotency].  [None] as a result of
    an operation means that the goroutine panics or blocks there.  The orderer's
    and the committer's answers, [ctx.Err()] and the arm of a [select] are
    arguments. *)
From Stdlib Require Import ZArith Lia.
From stdpp Require Import base option list strings gmap fin_maps.
From S2P Require Import Prelude LifecycleStore OrchestratorTypes Idempotency Finality.
Import Types Idempotency Finality.
Local Open Scope Z_scope.

Module Submission.

(** ** [fabricXSubmitter.Submit] *)

Inductive OrdererStatus : Set := SUCCESS | OtherStatus (n : Z).

(** What the packager and the broadcast stream do with one transaction. *)
Record broadcast := mkBroadcast {
  bc_package : option goerr;
  bc_open : option goerr;
  bc_send : option goerr;
  bc_recv : result OrdererStatus }.

Definition Submit (b : broadcast) : option goerr :=
  match bc_package b with
  | Some e => Some (EWrap "package transaction: %w" e)
  | None =>
      match bc_open b with
      | Some e => Some (EOrdering false e)
      | None =>
          match bc_send b with
          | Some e => Some (EOrdering true e)
          | None =>
              match bc_recv b with
              | Err e => Some (EOrdering true e)
              | Ok SUCCESS => None
              | Ok _ => Some (EOrdering false (ENew "orderer rejected transaction: %s: %s"))
              end
          end
      end
  end.

(** The envelope may have reached ordering: it was sent, and no rejection came. *)
Definition may_be_ordered (b : broadcast) : Prop :=
  bc_package b = None ∧ bc_open b = None ∧
  (bc_send b = None → bc_recv b = Ok SUCCESS ∨ ∃ e, bc_recv b = Err e).

Definition uncertain (e : goerr) : bool := default false (errors_As_ordering e).

(** [submissionRPCError]; [ctx] is [ctx.Err()]. *)
Definition submissionRPCError (ctx : ctx_err) (err : goerr) : goerr :=
  match ctx with
  | Some e => status_FromContextError e
  | None =>
      if errors_Is err EDeadlineExceeded || errors_Is err ECanceled
      then status_FromContextError err
      else match status_FromError err with
           | Some _ => err
           | None =>
               match errors_As_ordering err with
               | Some false => EStatus CodeAborted err
               | _ => EStatus CodeUnavailable err
               end
           end
  end.

Section Flow.
(** [eventFromEndorsement] and the enum's [String] method. *)
Variable eventOf : SdkEndorsement → string → option ChaincodeEvent.
Variable Status_String : CommitterStatus → string.

(** ** The ordering stage *)

(** [submitter = false] is a nil submitter.  The result also says whether
    [Submit] was called. *)
Definition submitTransaction (now : Z) (ctx : ctx_err) (submitter : bool) (b : broadcast)
    (s : idempotencyStore) (end_ : SdkEndorsement) (out : InvocationResponse)
    (record : option positive) (afterCommit : option Store.ChaincodeDefinition)
    : option (idempotencyStore * InvocationResponse * option goerr * bool) :=
  if bool_decide (record = None) || negb submitter
  then Some (s, out, Some (ENew "submission requires a transaction record and ordering client"), false)
  else match ctx with
       | Some e => Some (s, out, Some e, false)
       | None =>
           let submitted_out := with_FinalityPending true (with_Submitted true out) in
           match Submit b with
           | Some e =>
               let err := Some (EWrap "submit failed: %w" e) in
               if uncertain e
               then s' ← markSubmission eventOf now s record submitted_out end_ afterCommit (Some e);
                    Some (s', submitted_out, err, true)
               else Some (s, out, err, true)
           | None =>
               s' ← markSubmitted eventOf now s record submitted_out end_ afterCommit;
               Some (s', submitted_out, None, true)
           end
       end.

(** ** Duplicates *)

(** The end of [replayOrderingSubmission]. *)
Definition final_outcome (s : idempotencyStore) (p : positive) : option (option goerr) :=
  '(submitted, outcome) ← submissionOutcome s p;
  match outcome with
  | Some e => Some (Some e)
  | None => Some (if negb submitted
                  then Some (ENew "transaction has not been acknowledged by ordering") else None)
  end.

(** [s], [s1] and [s2] are the stores when the code waits and when it reads the
    outcome, once or twice. *)
Definition replayOrderingSubmission (s s1 s2 : idempotencyStore) (p : positive) (arm : wait_arm)
    : option (option goerr) :=
  '(_, err) ← wait s (Some p) arm;
  '(submitted1, _) ← submissionOutcome s1 p;
  match err with
  | Some e => if negb submitted1 then Some (Some e) else final_outcome s2 p
  | None => final_outcome s2 p
  end.

(** [lock] is what [lockFinality] meets: [ctx.Err()] and the [select] arm.  [later]
    is the store once the lock was obtained or given up. *)
Definition replaySubmission (s : idempotencyStore) (p : positive) (arm : wait_arm)
    (lock_ctx lock_done : option goerr) (later : idempotencyStore)
    : option (idempotencyStore * InvocationResponse * option goerr) :=
  '(out, err) ← wait s (Some p) arm;
  if bool_decide (is_Some err) || negb (FinalityPending out) then Some (s, out, err)
  else
    '(s1, locked) ← lockFinality later p lock_ctx lock_done;
    match locked with
    | Err e => '(out, err) ← waitResult s1 p (Some e); Some (s1, out, err)
    | Ok _ =>
        '(out, err) ← waitResult s1 p None;
        s2 ← unlockFinality s1 p;
        Some (s2, out, err)
    end.

(** ** Finality *)

(** [after_commit def] is the error of the deferred callback, which marks [def]
    initialized.  Returns the new store, the error, and the callback that ran. *)
Definition recordFinality (now : Z) (s : idempotencyStore) (record : option positive)
    (status : option TxStatus) (after_commit : Store.ChaincodeDefinition → option goerr)
    : option (idempotencyStore * option goerr * option Store.ChaincodeDefinition) :=
  match pending s record with
  | None => Some (s, None, None)
  | Some inv =>
      let out := si_Response inv in
      match status with
      | None => Some (s, None, None)
      | Some st =>
          if negb (isFinalStatus (TxID out) (Some st)) then Some (s, None, None)
          else
            let out := with_finality (Status_String (st_Status st)) (ref_BlockNum st) (ref_TxNum st) out in
            let committed := bool_decide (st_Status st = COMMITTED) in
            let out := if committed then with_ChaincodeEvent (si_Event inv) out else out in
            let ran := if committed then si_AfterCommit inv else None in
            let err := ran ≫= after_commit in
            s' ← confirmFinality now s record out err;
            Some (s', err, ran)
      end
  end.

(** [submitAndWaitFinality] after the submission: [timer_ctx] says that the [WaitAfterSubmit]
    select ended by the context, [subscription] is the notification stream, if any. *)
Definition awaitOutcome (now : Z) (s : idempotencyStore) (p : positive) (txID : string)
    (timer_ctx : bool) (subscription : option (list received))
    (after_commit : Store.ChaincodeDefinition → option goerr)
    : option (idempotencyStore * InvocationResponse * option goerr) :=
  if timer_ctx then '(o, e) ← waitResult s p None; Some (s, o, e)
  else
    f ← Wait txID subscription;
    if bool_decide (is_Some (fr_err f)) || negb (isFinalStatus txID (fr_status f))
    then '(o, e) ← waitResult s p None; Some (s, o, e)
    else
      '(s', _, _) ← recordFinality now s (Some p) (fr_status f) after_commit;
      '(o, e) ← waitResult s' p None; Some (s', o, e).

(** [lock_ctx] and [lock_done] are what [lockFinality] meets, [ctx] is [ctx.Err()] when the
    ordering stage asks for it later. *)
Definition submitAndWaitFinality (now : Z) (lock_ctx lock_done ctx : ctx_err) (submitter : bool)
    (b : broadcast) (s : idempotencyStore) (end_ : SdkEndorsement) (out : InvocationResponse)
    (record : option positive) (afterCommit : option Store.ChaincodeDefinition)
    (timer_ctx : bool) (notify : option notifier)
    (after_commit : Store.ChaincodeDefinition → option goerr)
    : option (idempotencyStore * InvocationResponse * option goerr) :=
  match record with
  | None => Some (s, out, Some (ENew "submission requires an idempotency record"))
  | Some p =>
      '(s0, locked) ← lockFinality s p lock_ctx lock_done;
      match locked with
      | Err e => Some (s0, out, Some e)
      | Ok _ =>
          '(s1, out1, err, _) ← submitTransaction now ctx submitter b s0 end_ out record afterCommit;
          '(s2, out2, err2) ← match err with
            | Some e => Some (s1, out1, Some e)
            | None => awaitOutcome now s1 p (TxID out) timer_ctx (subscription_or_nil notify) after_commit
            end;
          s3 ← unlockFinality s2 p;
          Some (s3, out2, err2)
      end
  end.

(** ** Lazy reconciliation *)

Definition recoveryBatchSize : nat := 32.

(** Locking the batch: the records to query, by transaction ID, and their IDs. *)
Fixpoint reconcile_lock (s : idempotencyStore) (batch : list positive)
    (locked : gmap string positive) (txIDs : list string)
    : option (idempotencyStore * gmap string positive * list string) :=
  match batch with
  | [] => Some (s, locked, txIDs)
  | p :: rest =>
      let '(s, ok) := tryLockFinality s p in
      if negb ok then reconcile_lock s rest locked txIDs
      else match pending s (Some p) with
           | None => s ← unlockFinality s p; reconcile_lock s rest locked txIDs
           | Some inv =>
               let txID := TxID (si_Response inv) in
               reconcile_lock s rest (<[txID := p]> locked) (txIDs ++ [txID])
           end
  end.

Fixpoint reconcile_statuses (now : Z) (s : idempotencyStore) (locked : gmap string positive)
    (statuses : list TxStatus) (after_commit : Store.ChaincodeDefinition → option goerr)
    : option idempotencyStore :=
  match statuses with
  | [] => Some s
  | st :: rest =>
      match locked !! ref_TxId st with
      | Some p =>
          if isFinalStatus (ref_TxId st) (Some st)
          then '(s, _, _) ← recordFinality now s (Some p) (Some st) after_commit;
               reconcile_statuses now s locked rest after_commit
          else reconcile_statuses now s locked rest after_commit
      | None => reconcile_statuses now s locked rest after_commit
      end
  end.

(** The deferred unlocking, in the map's iteration order. *)
Fixpoint unlock_all (s : idempotencyStore) (ps : list positive) : option idempotencyStore :=
  match ps with
  | [] => Some s
  | p :: rest => s ← unlockFinality s p; unlock_all s rest
  end.

(** [order] is the iteration order of the record map and [unlocks] that of the
    locked map; [response] answers the status query. *)
Definition reconcilePendingBefore (now : Z) (ctx : ctx_err) (queryService : bool)
    (s : idempotencyStore) (order : list string) (cutoff : option Z)
    (response : result (list TxStatus)) (unlocks : gmap string positive → list positive)
    (after_commit : Store.ChaincodeDefinition → option goerr) : option idempotencyStore :=
  if negb queryService || bool_decide (is_Some ctx) then Some s
  else
    '(s1, locked, txIDs) ←
      reconcile_lock s (pendingRecordsBefore s order recoveryBatchSize cutoff) ∅ [];
    if bool_decide (txIDs = []) then Some s1
    else
      s2 ← match response with
           | Err _ => Some s1
           | Ok statuses => reconcile_statuses now s1 locked statuses after_commit
           end;
      unlock_all s2 (unlocks locked).

(** [refreshObservedFinality] over the pending records [batch]. *)
Fixpoint refresh_records (now : Z) (s : idempotencyStore) (batch : list positive) (st : TxStatus)
    (after_commit : Store.ChaincodeDefinition → option goerr) : option idempotencyStore :=
  match batch with
  | [] => Some s
  | p :: rest =>
      match pending s (Some p) with
      | None => refresh_records now s rest st after_commit
      | Some inv =>
          if negb (bool_decide (TxID (si_Response inv) = ref_TxId st))
          then refresh_records now s rest st after_commit
          else
            let '(s, ok) := tryLockFinality s p in
            if negb ok then refresh_records now s rest st after_commit
            else
              '(s, _, _) ← recordFinality now s (Some p) (Some st) after_commit;
              s ← unlockFinality s p;
              refresh_records now s rest st after_commit
      end
  end.

Definition refreshObservedFinality (now : Z) (s : idempotencyStore) (order : list string)
    (st : TxStatus) (after_commit : Store.ChaincodeDefinition → option goerr)
    : option idempotencyStore :=
  refresh_records now s (pendingRecords s order 0) st after_commit.

End Flow.

(** ** Helper lemmas *)

Lemma uncertain_Submit b e :
  (∀ e, bc_package b = Some e → errors_As_ordering e = None) →
  Submit b = Some e → (uncertain e = true ↔ may_be_ordered b).
Proof.
  unfold Submit, may_be_ordered, uncertain. intros Hp.
  destruct (bc_package b) as [e1|] eqn:E1.
  { intros [= <-]. simpl. rewrite Hp by done. naive_solver. }
  destruct (bc_open b) as [e2|]; [intros [= <-]; simpl; naive_solver|].
  destruct (bc_send b) as [e3|]; [intros [= <-]; simpl; naive_solver|].
  destruct (bc_recv b) as [[]|e4]; intros [= <-]; simpl; naive_solver.
Qed.

Lemma Submit_ok b : Submit b = None → may_be_ordered b.
Proof.
  unfold Submit, may_be_ordered. repeat case_match; naive_solver.
Qed.

(** The finality lock of a record. *)
Definition lock_of (s : idempotencyStore) (p : positive) : option bool :=
  finalityCheck <$> heap s !! p.

Lemma lock_of_with_record s p r q :
  lock_of (with_record p r s) q = if decide (q = p) then Some (finalityCheck r) else lock_of s q.
Proof.
  unfold lock_of, with_record. simpl. case_decide as E; [subst; by rewrite lookup_insert_eq|].
  by rewrite lookup_insert_ne.
Qed.

Lemma lock_of_remove s p k q : lock_of (remove s p k) q = lock_of s q.
Proof. unfold lock_of. by rewrite heap_remove. Qed.

Lemma confirm_locks now s p out err s' q :
  confirmFinality now s p out err = Some s' → lock_of s' q = lock_of s q.
Proof.
  destruct p as [p|]; [|by intros [= <-]].
  destruct (heap s !! p) as [r|] eqn:Hr; [|unfold confirmFinality; rewrite Hr; by intros [= <-]].
  rewrite (confirm_spec _ _ _ r) by done.
  destruct (_ || _); [by intros [= <-]|]. destruct (done r); [done|]. intros [= <-].
  rewrite lock_of_remove, lock_of_with_record. case_decide; [|done]. subst.
  unfold lock_of. by rewrite Hr.
Qed.

Section FlowProofs.
Variable eventOf : SdkEndorsement → string → option ChaincodeEvent.
Variable Status_String : CommitterStatus → string.

Lemma recordFinality_step now s o p st after :
  system_ok (mkSystem s o) →
  ∃ s' err ran, recordFinality Status_String now s p st after = Some (s', err, ran) ∧
    system_ok (mkSystem s' o) ∧ heap_le (mkSystem s o) (mkSystem s' o) ∧
    ∀ q, lock_of s' q = lock_of s q.
Proof.
  intros Hok. unfold recordFinality.
  assert (Hsame : ∃ s' (err : option goerr) (ran : option Store.ChaincodeDefinition),
    Some (s, None, None) = Some (s', err, ran) ∧ system_ok (mkSystem s' o) ∧ heap_le (mkSystem s o) (mkSystem s' o) ∧
    ∀ q, lock_of s' q = lock_of s q).
  { exists s, None, None. split_and!; done. }
  destruct (pending s p) as [inv|]; [|exact Hsame]. destruct st as [st|]; [|exact Hsame].
  destruct (negb _); [exact Hsame|].
  match goal with |- context [confirmFinality now s p ?out ?err] =>
    destruct (confirm_step now (mkSystem s o) p out err Hok) as (s' & Hc & Hok' & Hle) end.
  simpl in Hc. rewrite Hc. simpl. do 3 eexists. split; [done|]. split_and!; try done.
  intros q. by eapply confirm_locks.
Qed.

End FlowProofs.

(** Stores that differ in finality locks only. *)
Definition same_records (s s' : idempotencyStore) : Prop :=
  records s' = records s ∧ next_ptr s' = next_ptr s ∧
  ∀ p, set_lock false <$> heap s' !! p = set_lock false <$> heap s !! p.

Lemma same_records_lock s p r b :
  heap s !! p = Some r → same_records s (with_record p (set_lock b r) s).
Proof.
  intros Hr. split_and!; [done..|]. intros q. simpl. destruct (decide (q = p)) as [->|].
  - by rewrite lookup_insert_eq, Hr.
  - by rewrite lookup_insert_ne.
Qed.

Lemma same_records_trans s1 s2 s3 :
  same_records s1 s2 → same_records s2 s3 → same_records s1 s3.
Proof.
  intros (? & ? & H1) (? & ? & H2). split_and!; [congruence..|]. intros p. by rewrite H2.
Qed.

Lemma same_records_lookup s s' p r :
  same_records s s' → heap s' !! p = Some r →
  ∃ r0, heap s !! p = Some r0 ∧ set_lock false r = set_lock false r0.
Proof.
  intros (_ & _ & H) Hr. specialize (H p). rewrite Hr in H.
  destruct (heap s !! p) as [r0|]; [|done]. exists r0. simpl in H. split; [done|congruence].
Qed.

Definition submitted_tx (s : idempotencyStore) (p : positive) (t : string) : Prop :=
  ∃ r, heap s !! p = Some r ∧ State r = idempotencySubmitted ∧ TxID (rec_Response r) = t.

Lemma submitted_tx_same s s' p t : same_records s s' → submitted_tx s' p t → submitted_tx s p t.
Proof.
  intros Hs (r & Hr & Hst & Ht). destruct (same_records_lookup s s' p r Hs Hr) as (r0 & H0 & E).
  exists r0. split; [done|].
  pose proof (f_equal State E) as E1. pose proof (f_equal rec_Response E) as E2. simpl in E1, E2.
  by rewrite <- E1, <- E2.
Qed.

(** Two submitted records never share a transaction ID. *)
Definition distinct_txids (s : idempotencyStore) : Prop :=
  ∀ p q t, submitted_tx s p t → submitted_tx s q t → p = q.

(** The pass holds exactly the locks of [locked], which were free in [s0]. *)
Record locks_inv (s0 s : idempotencyStore) (locked : gmap string positive) : Prop := mkLocksInv {
  li_held : ∀ t q, locked !! t = Some q →
    lock_of s q = Some true ∧ lock_of s0 q = Some false ∧ submitted_tx s0 q t;
  li_others : ∀ q, (∀ t, locked !! t ≠ Some q) → lock_of s q = lock_of s0 q }.

Lemma reconcile_lock_ok s0 o batch s locked txIDs :
  distinct_txids s0 → system_ok (mkSystem s o) → same_records s0 s → locks_inv s0 s locked →
  (∀ t, t ∈ txIDs ↔ is_Some (locked !! t)) →
  ∃ s' locked' txIDs', reconcile_lock s batch locked txIDs = Some (s', locked', txIDs') ∧
    system_ok (mkSystem s' o) ∧ heap_le (mkSystem s o) (mkSystem s' o) ∧
    same_records s0 s' ∧ locks_inv s0 s' locked' ∧
    (∀ t, t ∈ txIDs' ↔ is_Some (locked' !! t)).
Proof.
  intros Hdist. revert s locked txIDs.
  induction batch as [|p batch IH]; intros s locked txIDs Hok Hsame Hinv Htx; simpl.
  { do 3 eexists. split; [done|]. split_and!; try done. }
  unfold tryLockFinality. destruct (heap s !! p) as [r|] eqn:Hr; [|by apply IH].
  destruct (finalityCheck r) eqn:Hlock; [by apply IH|]. cbn [negb].
  destruct (lock_ok (mkSystem s o) p r true Hok Hr) as [Hok1 Hle1].
  pose proof (same_records_lock s p r true Hr) as Hsame1.
  set (s1 := with_record p (set_lock true r) s) in *.
  assert (Hr1 : heap s1 !! p = Some (set_lock true r)) by (by simpl; rewrite lookup_insert_eq).
  assert (Hfree : ∀ t, locked !! t ≠ Some p).
  { intros t Ht. destruct (li_held _ _ _ Hinv t p Ht) as (Hl & _).
    unfold lock_of in Hl. rewrite Hr in Hl. simpl in Hl. congruence. }
  assert (Hs0p : lock_of s0 p = Some false).
  { rewrite <- (li_others _ _ _ Hinv p Hfree). unfold lock_of. rewrite Hr. simpl. by rewrite Hlock. }
  unfold pending. cbn [mbind option_bind]. rewrite Hr1. cbn [mbind option_bind].
  destruct (in_state (set_lock true r) idempotencySubmitted) eqn:Hst.
  - cbn [si_Response]. apply in_state_true in Hst.
    assert (Htxp : submitted_tx s0 p (TxID (rec_Response (set_lock true r)))).
    { apply (submitted_tx_same s0 s); [done|]. by exists r. }
    destruct (IH s1 (<[TxID (rec_Response (set_lock true r)) := p]> locked)
      (txIDs ++ [TxID (rec_Response (set_lock true r))]))
      as (s' & l' & t' & Heq & ? & Hle & ? & ? & ?); try done.
    + by eapply same_records_trans.
    + constructor.
      * intros t q. destruct (decide (t = TxID (rec_Response (set_lock true r)))) as [->|Ht].
        { rewrite lookup_insert_eq. intros [= <-]. split_and!; try done.
          unfold lock_of. by rewrite Hr1. }
        rewrite lookup_insert_ne by done. intros Hq.
        destruct (li_held _ _ _ Hinv t q Hq) as (Hl & ? & ?). split_and!; try done.
        unfold s1. rewrite lock_of_with_record. case_decide; [done|]. done.
      * intros q Hq. unfold s1. rewrite lock_of_with_record. case_decide as E.
        { subst q. destruct (Hq (TxID (rec_Response (set_lock true r)))). by rewrite lookup_insert_eq. }
        apply (li_others _ _ _ Hinv). intros t Ht. apply (Hq t).
        rewrite lookup_insert_ne; [done|]. intros <-. apply E.
        destruct (li_held _ _ _ Hinv _ q Ht) as (_ & _ & Hsub). by eapply Hdist.
    + intros t. rewrite elem_of_app, list_elem_of_singleton, Htx.
      destruct (decide (t = TxID (rec_Response (set_lock true r)))) as [->|];
        [rewrite lookup_insert_eq; naive_solver|rewrite lookup_insert_ne by done; naive_solver].
    + do 3 eexists. split; [exact Heq|]. split_and!; try done. by etrans.
  - unfold unlockFinality. rewrite Hr1. cbn [mbind option_bind].
    destruct (lock_ok (mkSystem s1 o) p (set_lock true r) false Hok1 Hr1) as [Hok2 Hle2].
    set (s2 := with_record p (set_lock false (set_lock true r)) s1) in *.
    change (finalityCheck (set_lock true r)) with true. cbn iota.
    destruct (IH s2 locked txIDs) as (s' & l' & t' & Heq & ? & Hle & ? & ? & ?); try done.
    + eapply same_records_trans; [exact Hsame|]. eapply same_records_trans; [exact Hsame1|].
      by apply same_records_lock.
    + assert (Hl2 : ∀ q, lock_of s2 q = lock_of s q).
      { intros q. unfold s2, s1. rewrite !lock_of_with_record. case_decide; [subst|done].
        unfold lock_of. rewrite Hr. simpl. by rewrite Hlock. }
      constructor; intros *; rewrite Hl2; apply Hinv.
    + do 3 eexists. split; [exact Heq|]. split_and!; try done.
      etrans; [exact Hle1|]. by etrans.
Qed.

Lemma unlock_all_ok s o ps :
  system_ok (mkSystem s o) → NoDup ps → (∀ p, p ∈ ps → lock_of s p = Some true) →
  ∃ s', unlock_all s ps = Some s' ∧ system_ok (mkSystem s' o) ∧
    heap_le (mkSystem s o) (mkSystem s' o) ∧
    ∀ q, lock_of s' q = if decide (q ∈ ps) then Some false else lock_of s q.
Proof.
  intros Hok Hnd. revert s Hok. induction Hnd as [|p ps Hp Hnd IH]; intros s Hok Hl.
  { exists s. split_and!; try done. }
  simpl. unfold unlockFinality. pose proof (Hl p ltac:(by left)) as Hlp. unfold lock_of in Hlp.
  destruct (heap s !! p) as [r|] eqn:Hr; [|done]. simpl in *. injection Hlp as ->. simpl.
  destruct (lock_ok (mkSystem s o) p r false Hok Hr) as [Hok1 Hle1].
  destruct (IH (with_record p (set_lock false r) s) Hok1) as (s' & Hs' & ? & Hle & Hq).
  { intros q Hq. rewrite lock_of_with_record. case_decide; [by subst|]. apply Hl. by right. }
  exists s'. rewrite Hs'. split_and!; try done; [by etrans|].
  intros q. rewrite Hq, lock_of_with_record.
  destruct (decide (q ∈ ps)), (decide (q ∈ p :: ps)), (decide (q = p)); set_solver.
Qed.

Lemma reconcile_statuses_ok Status_String now s o locked statuses after :
  system_ok (mkSystem s o) →
  ∃ s', reconcile_statuses Status_String now s locked statuses after = Some s' ∧
    system_ok (mkSystem s' o) ∧ heap_le (mkSystem s o) (mkSystem s' o) ∧
    ∀ q, lock_of s' q = lock_of s q.
Proof.
  revert s. induction statuses as [|st rest IH]; intros s Hok; cbn [reconcile_statuses].
  { exists s. split_and!; done. }
  destruct (locked !! ref_TxId st) as [p|]; [|by apply IH].
  destruct (isFinalStatus _ _); [|by apply IH].
  destruct (recordFinality_step Status_String now s o (Some p) (Some st) after Hok)
    as (s1 & err & ran & -> & Hok1 & Hle1 & Hl1). cbn [mbind option_bind].
  destruct (IH s1 Hok1) as (s' & Hs' & ? & Hle & Hl). exists s'. split_and!; try done.
  - by etrans.
  - intros q. by rewrite Hl.
Qed.

(** ** Properties *)

Section Properties.
Variable eventOf : SdkEndorsement → string → option ChaincodeEvent.
Variable Status_String : CommitterStatus → string.

(** C11: Every outcome of the ordering stage, for a record that waits to be submitted.  Without
    an ordering client, or once the context has ended, nothing is sent, nothing changes and the
    caller gets that error.  Otherwise [Submit] is called, and the record becomes SUBMITTED if
    and only if the envelope was sent and not rejected: it then holds the acknowledgement or the
    delivery error, the deferred initialization and the event of the endorsement, every other
    record and the registry are untouched, and the caller gets the response marked submitted,
    with the wrapped delivery error when there is one.  When the transaction cannot be ordered,
    the store and the response are unchanged and the caller gets the wrapped error. *)
Theorem submitTransaction_exact σ now ctx submitter b end_ out p after :
  system_ok σ → owner σ !! p = Some Executed →
  (∀ e, bc_package b = Some e → errors_As_ordering e = None) →
  let run := submitTransaction eventOf now ctx submitter b (store σ) end_ out (Some p) after in
  let submitted_out := with_FinalityPending true (with_Submitted true out) in
  let failure := EWrap "submit failed: %w" <$> Submit b in
  (submitter = false →
     run = Some (store σ, out,
             Some (ENew "submission requires a transaction record and ordering client"), false)) ∧
  (∀ e, submitter = true → ctx = Some e → run = Some (store σ, out, Some e, false)) ∧
  (submitter = true → ctx = None → may_be_ordered b →
     ∃ s' r r', run = Some (s', submitted_out, failure, true) ∧
       records s' = records (store σ) ∧ next_ptr s' = next_ptr (store σ) ∧
       heap (store σ) !! p = Some r ∧ heap s' = <[p := r']> (heap (store σ)) ∧
       Key r' = Key r ∧ Digest r' = Digest r ∧ State r' = idempotencySubmitted ∧
       submitted r' = true ∧ done r' = false ∧
       rec_Response r' = submitted_out ∧ rec_Err r' = Submit b ∧
       afterCommit r' = after ∧ event r' = eventOf end_ (TxID out)) ∧
  (submitter = true → ctx = None → ¬ may_be_ordered b →
     run = Some (store σ, out, failure, true) ∧ failure ≠ None).
Proof.
  intros Hok Hp Hpkg run submitted_out failure. destruct (owner_record σ p _ Hok Hp) as (r & Hr & Hrec).
  assert (State r = idempotencyExecuted ∧ submitted r = false ∧ done r = false) as (Hst & Hsub & Hdone)
    by (unfold record_ok in Hrec; destruct (State r); naive_solver).
  subst run. unfold submitTransaction. rewrite bool_decide_eq_false_2 by done. cbn [orb].
  split; [by intros ->|]. split; [by intros e -> ->|].
  split; intros -> -> Hb; cbn [negb]; fold submitted_out.
  - assert (Hmark : ∀ err, ∃ s' r', markSubmission eventOf now (store σ) (Some p)
        submitted_out end_ after err = Some s' ∧
      records s' = records (store σ) ∧ next_ptr s' = next_ptr (store σ) ∧
      heap (store σ) !! p = Some r ∧ heap s' = <[p := r']> (heap (store σ)) ∧
      Key r' = Key r ∧ Digest r' = Digest r ∧ State r' = idempotencySubmitted ∧
      submitted r' = true ∧ done r' = false ∧
      rec_Response r' = submitted_out ∧ rec_Err r' = err ∧
      afterCommit r' = after ∧ event r' = eventOf end_ (TxID out)).
    { intros err. rewrite (markSubmission_spec _ _ _ _ r) by done. do 2 eexists. split; [done|].
      by split_and!. }
    destruct (Submit b) as [e|] eqn:Eb.
    + rewrite (proj2 (uncertain_Submit b e Hpkg Eb) Hb).
      destruct (Hmark (Some e)) as (s' & r' & -> & Hs). by exists s', r, r'.
    + unfold markSubmitted. destruct (Hmark None) as (s' & r' & -> & Hs). by exists s', r, r'.
  - destruct (Submit b) as [e|] eqn:Eb; [|by destruct Hb; apply Submit_ok].
    destruct (uncertain e) eqn:Eu; [|done]. by destruct Hb; apply (uncertain_Submit b e Hpkg Eb).
Qed.

(** A final status of its own transaction completes a submitted record with exactly
    that status, block and position, and evicts it; the event is published and the
    deferred initialization run only when the transaction committed.  Any other status
    changes nothing. *)
Theorem recordFinality_exact σ now p r st after_commit :
  system_ok σ → (∀ s, Status_String s ≠ "") →
  heap (store σ) !! p = Some r → State r = idempotencySubmitted →
  ∃ s' err ran,
    recordFinality Status_String now (store σ) (Some p) (Some st) after_commit = Some (s', err, ran) ∧
    (isFinalStatus (TxID (rec_Response r)) (Some st) = false →
       s' = store σ ∧ err = None ∧ ran = None) ∧
    (isFinalStatus (TxID (rec_Response r)) (Some st) = true →
       records s' !! Key r = None ∧
       (ran = if decide (st_Status st = COMMITTED) then afterCommit r else None) ∧
       err = ran ≫= after_commit ∧
       ∃ r', heap s' !! p = Some r' ∧ State r' = idempotencyCompleted ∧ rec_Err r' = err ∧
         TxID (rec_Response r') = TxID (rec_Response r) ∧
         CommitStatus (rec_Response r') = Status_String (st_Status st) ∧
         BlockNum (rec_Response r') = ref_BlockNum st ∧ TxNum (rec_Response r') = ref_TxNum st ∧
         FinalityPending (rec_Response r') = false ∧
         out_ChaincodeEvent (rec_Response r') =
           if decide (st_Status st = COMMITTED) then event r else out_ChaincodeEvent (rec_Response r)).
Proof.
  intros Hok Hstr Hr Hst. unfold recordFinality, pending.
  cbn [mbind option_bind]. rewrite Hr. cbn [mbind option_bind].
  rewrite (proj2 (in_state_true r _)) by done. cbn [si_Response si_Event si_AfterCommit].
  destruct (isFinalStatus (TxID (rec_Response r)) (Some st)) eqn:Ef; cbn [negb];
    [|do 3 eexists; split; [done|]; split; [done|]; done].
  rewrite (confirm_spec _ _ _ r) by done. rewrite (proj2 (in_state_true r _)) by done.
  assert (Hlive : records (store σ) !! Key r = Some p).
  { apply (so_live σ Hok). exists r. split_and!; try done. apply terminal_false. by rewrite Hst. }
  assert (Hd : done r = false).
  { destruct (so_records σ Hok _ _ Hr) as (ph & _ & Hrec). unfold record_ok in Hrec.
    rewrite Hst in Hrec. tauto. }
  rewrite Hd. cbn [negb orb].
  destruct (decide (st_Status st = COMMITTED)) as [E|E];
    [rewrite (bool_decide_eq_true_2 (st_Status st = COMMITTED)) by done
    |rewrite (bool_decide_eq_false_2 (st_Status st = COMMITTED)) by done];
    rewrite (bool_decide_eq_false_2 (CommitStatus _ = "")) by (apply Hstr); simpl;
    unfold remove; simpl; rewrite bool_decide_eq_true_2 by done;
    do 3 eexists; (split; [done|]); (split; [done|]); intros _; simpl;
    rewrite lookup_delete_eq, lookup_insert_eq;
    (split_and!; [done..|]); eexists; split_and!; done.
Qed.

(** A reconciliation pass never blocks or panics, moves records only towards their
    final state, and leaves every finality lock as it found it, whatever the query
    answers and in whatever order the maps are iterated. *)
Theorem reconcile_releases_locks σ now ctx qs order cutoff response unlocks after_commit :
  system_ok σ → distinct_txids (store σ) →
  (∀ m : gmap string positive, unlocks m ≡ₚ (map_to_list m).*2) →
  ∃ s', reconcilePendingBefore Status_String now ctx qs (store σ) order cutoff response unlocks
          after_commit = Some s' ∧
    system_ok (mkSystem s' (owner σ)) ∧ heap_le σ (mkSystem s' (owner σ)) ∧
    ∀ p, lock_of s' p = lock_of (store σ) p.
Proof.
  destruct σ as [s o]. simpl. intros Hok Hdist Hun. unfold reconcilePendingBefore.
  destruct (negb qs || _); [exists s; split_and!; done|].
  destruct (reconcile_lock_ok s o (pendingRecordsBefore s order recoveryBatchSize cutoff) s ∅ [])
    as (s1 & locked & txIDs & -> & Hok1 & Hle1 & _ & Hinv & Htx); try done.
  { intros t. rewrite lookup_empty, elem_of_nil. split; [done|]. by intros [? ?]. }
  cbn [mbind option_bind]. case_bool_decide as Enil.
  { subst txIDs. exists s1. split_and!; try done. intros p. apply Hinv.
    intros t Ht. assert (t ∈ []) as ?%elem_of_nil; [|done]. apply Htx. eauto. }
  assert (∃ s2, match response with
     | Ok statuses => reconcile_statuses Status_String now s1 locked statuses after_commit
     | Err _ => Some s1 end = Some s2 ∧ system_ok (mkSystem s2 o) ∧
     heap_le (mkSystem s1 o) (mkSystem s2 o) ∧ ∀ q, lock_of s2 q = lock_of s1 q)
    as (s2 & -> & Hok2 & Hle2 & Hl2).
  { destruct response as [statuses|]; [by apply reconcile_statuses_ok|].
    exists s1. split_and!; done. }
  cbn [mbind option_bind].
  assert (Hin : ∀ p, p ∈ unlocks locked ↔ ∃ t, locked !! t = Some p).
  { intros p. rewrite Hun, list_elem_of_fmap. split.
    - intros ([t q] & -> & Hq%elem_of_map_to_list). eauto.
    - intros [t Ht]. exists (t, p). by rewrite elem_of_map_to_list. }
  destruct (unlock_all_ok s2 o (unlocks locked)) as (s' & Hs' & Hok' & Hle' & Hl'); [done| | |].
  - rewrite Hun. apply NoDup_fmap_2_strong; [|apply NoDup_map_to_list].
    intros [t q] [t' q'] Ht%elem_of_map_to_list Ht'%elem_of_map_to_list Eq. simpl in *. subst q'.
    destruct (li_held _ _ _ Hinv t q Ht) as (_ & _ & r & Hr & _ & <-).
    destruct (li_held _ _ _ Hinv t' q Ht') as (_ & _ & r' & Hr' & _ & <-). congruence.
  - intros p [t Ht]%Hin. rewrite Hl2. by destruct (li_held _ _ _ Hinv t p Ht).
  - exists s'. split_and!; try done; [etrans; [exact Hle1|by etrans]|].
    intros p. rewrite Hl', Hl2. case_decide as E.
    + apply Hin in E as [t Ht]. by destruct (li_held _ _ _ Hinv t p Ht) as (_ & -> & _).
    + apply Hinv. intros t Ht. apply E, Hin. eauto.
Qed.

End Properties.

(** ** Concrete instances *)

Definition ex_status_string (st : CommitterStatus) : string :=
  match st with COMMITTED => "COMMITTED" | _ => "OTHER" end.

(** The stream accepted the envelope and then broke. *)
Definition ex_lost : broadcast := mkBroadcast None None None (Err (EStatus CodeUnavailable (EExt "eof"))).

Lemma submitTransaction_exact_witness :
  (∃ s' r', submitTransaction ex_event 12 None true ex_lost (store ex_executed) ex_end ex_out
      (Some 1%positive) None =
        Some (s', with_FinalityPending true (with_Submitted true ex_out),
          Some (EWrap "submit failed: %w" (EOrdering true (EStatus CodeUnavailable (EExt "eof")))), true) ∧
    heap s' !! 1%positive = Some r' ∧ State r' = idempotencySubmitted ∧
    rec_Err r' = Some (EOrdering true (EStatus CodeUnavailable (EExt "eof")))) ∧
  submitTransaction ex_event 12 (Some ECanceled) true ex_lost (store ex_executed) ex_end ex_out
    (Some 1%positive) None = Some (store ex_executed, ex_out, Some ECanceled, false).
Proof.
  assert (Hok : system_ok ex_executed) by (eapply reachable_ok, ex_executed_reachable).
  split.
  - destruct (submitTransaction_exact ex_event ex_executed 12 None true ex_lost ex_end ex_out 1 None)
      as (_ & _ & Hm & _); [exact Hok|vm_compute; reflexivity|done|].
    destruct Hm as (s' & r & r' & H & _ & _ & _ & Hh & _ & _ & ? & _ & _ & _ & ? & _).
    { done. }
    { done. }
    { split_and!; [done|done|]. intros _. right. by eexists. }
    exists s', r'. split; [exact H|]. rewrite Hh, lookup_insert_eq. done.
  - destruct (submitTransaction_exact ex_event ex_executed 12 (Some ECanceled) true ex_lost ex_end ex_out 1 None)
      as (_ & Hc & _); [exact Hok|vm_compute; reflexivity|done|].
    by apply Hc.
Defined.

Lemma recordFinality_exact_witness :
  ∃ s' err ran,
    recordFinality ex_status_string 14 (store ex_submitted) (Some 1%positive)
      (Some (mkTxStatus "tx1" 7 0 COMMITTED)) (λ _, None) = Some (s', err, ran) ∧
    records s' !! "tx1" = None.
Proof.
  destruct (recordFinality_exact ex_status_string ex_submitted 14 1
    (mkRecord "tx1" "digest" idempotencySubmitted "tx1" (with_FinalityPending true ex_out)
       None 10 12 true false false None None) (mkTxStatus "tx1" 7 0 COMMITTED) (λ _, None))
    as (s' & err & ran & H & _ & Hc).
  - eapply reachable_ok, ex_submitted_reachable.
  - by intros [].
  - vm_compute. reflexivity.
  - reflexivity.
  - exists s', err, ran. split; [exact H|]. apply Hc. reflexivity.
Defined.

Lemma reconcile_releases_locks_witness :
  ∃ s', reconcilePendingBefore ex_status_string 20 None true (store ex_submitted) ["tx1"] None
      (Ok [mkTxStatus "tx1" 7 0 COMMITTED]) (λ m, (map_to_list m).*2) (λ _, None) = Some s' ∧
    lock_of s' 1 = Some false.
Proof.
  destruct (reconcile_releases_locks ex_status_string ex_submitted 20 None true ["tx1"] None
    (Ok [mkTxStatus "tx1" 7 0 COMMITTED]) (λ m, (map_to_list m).*2) (λ _, None))
    as (s' & H & _ & _ & Hl).
  - eapply reachable_ok, ex_submitted_reachable.
  - intros p q t (r & Hp & _) (r' & Hq & _).
    assert (Hone : ∀ p r, heap (store ex_submitted) !! p = Some r → p = 1%positive).
    { clear. intros p r Hp.
      assert (E : heap (store ex_submitted) = {[1%positive := mkRecord "tx1" "digest"
        idempotencySubmitted "tx1" (with_FinalityPending true ex_out) None 10 12 true false false
        None None]}) by (vm_compute; reflexivity).
      rewrite E in Hp. by apply lookup_singleton_Some in Hp as [-> _]. }
    by rewrite (Hone p r Hp), (Hone q r' Hq).
  - done.
  - exists s'. split; [exact H|]. rewrite Hl. vm_compute. reflexivity.
Defined.

End Submission.
