(* ===== verification/ExecContext.v ===== *)
(** The state of one chaincode invocation, [pkg/helper/service.go]
    ([ExecutionContext], [QueryServiceStateReader]).

    The Query Service answers according to the calls made before: [env] gives its
    answers as functions of the history of calls, which every operation extends.
    The mutex makes each operation one atomic step. *)
From Stdlib Require Import ZArith Lia.
From stdpp Require Import base option list strings gmap sets.
From S2P Require Import Prelude LifecycleStore OrchestratorTypes.
Import Types.
Local Open Scope Z_scope.

Module Exec.

(** ** The Query Service *)

Record View := mkView { view_Id : string }.

#[export] Instance View_eq_dec : EqDecision View.
Proof. solve_decision. Defined.

(** [Version] is a block number; a missing key has none. *)
Record VersionedValue := mkVersioned { vv_Value : bytes; vv_Version : option Z }.

(** Rows of a [GetRows] answer: namespaces with key, value and version. *)
Definition rows : Type := list (string * list (bytes * bytes * Z)).

Fixpoint find_row (key : string) (l : list (bytes * bytes * Z)) : option VersionedValue :=
  match l with
  | [] => None
  | (k, v, ver) :: rest =>
      if negb (bool_decide (k = key)) then find_row key rest else Some (mkVersioned v (Some ver))
  end.

(** The loops of [QueryServiceStateReader.GetState]. *)
Fixpoint find_in_rows (namespace key : string) (l : rows) : VersionedValue :=
  match l with
  | [] => mkVersioned "" None
  | (ns, rs) :: rest =>
      if negb (bool_decide (ns = namespace)) then find_in_rows namespace key rest
      else match find_row key rs with
           | Some v => v
           | None => find_in_rows namespace key rest
           end
  end.

Definition reader_GetState (answer : result rows) (namespace key : string) : result VersionedValue :=
  l ← answer; Ok (find_in_rows namespace key l).

(** The timeout of [BeginView], in milliseconds; [remaining] is the time to the
    context's deadline in nanoseconds. *)
Definition begin_timeout (ctx : ctx_err) (remaining : option Z) : result (option Z) :=
  match ctx with
  | Some e => Err e
  | None =>
      match remaining with
      | None => Ok None
      | Some r => if r <=? 0 then Err EDeadlineExceeded else Ok (Some (Z.max 1 (r / 1000000)))
      end
  end.

Inductive call : Type :=
  | CallBegin
  | CallGet (v : View) (namespace key : string)
  | CallEnd (v : View).

Record env := mkEnv {
  ans_begin : list call → result (option View);
  ans_rows : list call → View → string → string → result rows;
  ans_end : list call → View → option goerr }.

(** ** The context *)

(** A write of [None] is a delete. *)
Record ExecutionContext := mkExec {
  reader : bool;
  namespace : string;
  queryView : option View;
  viewOwned : bool;
  closed : bool;
  readErr : option goerr;
  isInit : bool;
  clientCreator : bytes;
  clientNonce : bytes;
  signedProposal : option SignedProposal;
  decorations : gmap string bytes;
  reads : gmap string (option Z);
  writes : gmap string (option bytes) }.

Definition NewExecutionContextWithView (rd : bool) (ns : string) (view : option View)
    : ExecutionContext :=
  mkExec rd ns view false false None false "" "" None ∅ ∅ ∅.

Definition NewExecutionContext (rd : bool) (ns : string) : ExecutionContext :=
  NewExecutionContextWithView rd ns None.

Definition set_view (v : option View) (owned : bool) (c : ExecutionContext) : ExecutionContext :=
  mkExec (reader c) (namespace c) v owned (closed c) (readErr c) (isInit c) (clientCreator c)
    (clientNonce c) (signedProposal c) (decorations c) (reads c) (writes c).

Definition set_readErr (e : goerr) (c : ExecutionContext) : ExecutionContext :=
  mkExec (reader c) (namespace c) (queryView c) (viewOwned c) (closed c) (Some e) (isInit c)
    (clientCreator c) (clientNonce c) (signedProposal c) (decorations c) (reads c) (writes c).

Definition set_closed (c : ExecutionContext) : ExecutionContext :=
  mkExec (reader c) (namespace c) (queryView c) (viewOwned c) true (readErr c) (isInit c)
    (clientCreator c) (clientNonce c) (signedProposal c) (decorations c) (reads c) (writes c).

Definition add_read (key : string) (ver : option Z) (c : ExecutionContext) : ExecutionContext :=
  mkExec (reader c) (namespace c) (queryView c) (viewOwned c) (closed c) (readErr c) (isInit c)
    (clientCreator c) (clientNonce c) (signedProposal c) (decorations c)
    (<[key := ver]> (reads c)) (writes c).

Definition add_write (key : string) (w : option bytes) (c : ExecutionContext) : ExecutionContext :=
  mkExec (reader c) (namespace c) (queryView c) (viewOwned c) (closed c) (readErr c) (isInit c)
    (clientCreator c) (clientNonce c) (signedProposal c) (decorations c)
    (reads c) (<[key := w]> (writes c)).

Definition set_client (init : bool) (creator nonce : bytes) (sp : option SignedProposal)
    (decor : gmap string bytes) (c : ExecutionContext) : ExecutionContext :=
  mkExec (reader c) (namespace c) (queryView c) (viewOwned c) (closed c) (readErr c) init creator
    nonce sp decor (reads c) (writes c).

Definition SetClientCreator (creator : bytes) (c : ExecutionContext) : ExecutionContext :=
  set_client (isInit c) creator (clientNonce c) (signedProposal c) (decorations c) c.

Definition SetClientNonce (nonce : bytes) (c : ExecutionContext) : ExecutionContext :=
  set_client (isInit c) (clientCreator c) nonce (signedProposal c) (decorations c) c.

Definition SetClientSignedProposal (sp : option SignedProposal) (c : ExecutionContext)
    : ExecutionContext :=
  set_client (isInit c) (clientCreator c) (clientNonce c) sp (decorations c) c.

Definition SetDecorations (decor : gmap string bytes) (c : ExecutionContext) : ExecutionContext :=
  set_client (isInit c) (clientCreator c) (clientNonce c) (signedProposal c) decor c.

Definition SetQueryView (c : ExecutionContext) (view : option View) : ExecutionContext * option goerr :=
  if closed c || bool_decide (is_Some (queryView c)) || bool_decide (is_Some (readErr c))
  then (c, Some (ENew "execution query view is already initialized or closed"))
  else (set_view view (viewOwned c) c, None).

(** [Close]; closing again, or without a view of its own, calls nothing. *)
Definition Close (en : env) (c : ExecutionContext) (h : list call)
    : ExecutionContext * list call * option goerr :=
  if closed c then (c, h, None)
  else
    let c := set_closed c in
    match viewOwned c, queryView c with
    | true, Some v => (c, h ++ [CallEnd v], ans_end en h v)
    | _, _ => (c, h, None)
    end.

(** A read failure is remembered: [c.readErr = err; return nil, err]. *)
Definition fail_read (e : goerr) (c : ExecutionContext) (h : list call)
    : ExecutionContext * list call * result bytes :=
  (set_readErr e c, h, Err e).

(** The part of [GetState] after the view was obtained. *)
Definition read_in_view (en : env) (c : ExecutionContext) (h : list call) (v : View) (key : string)
    : ExecutionContext * list call * result bytes :=
  let h' := h ++ [CallGet v (namespace c) key] in
  match reader_GetState (ans_rows en h v (namespace c) key) (namespace c) key with
  | Err e => fail_read (EWrap "read committed state in execution query view: %w" e) c h'
  | Ok value => (add_read key (vv_Version value) c, h', Ok (vv_Value value))
  end.

(** [begin_ctx] is the context check inside [BeginView] and the time that is left. *)
Definition GetState (en : env) (ctx : ctx_err) (begin_ctx : ctx_err) (remaining : option Z)
    (c : ExecutionContext) (h : list call) (key : string)
    : ExecutionContext * list call * result bytes :=
  if closed c then (c, h, Err (ENew "execution context is closed"))
  else match readErr c with
  | Some e => (c, h, Err e)
  | None =>
      match ctx with
      | Some e => fail_read e c h
      | None =>
          if negb (reader c)
          then fail_read (ENew "committed-state reader is not configured") c h
          else match queryView c with
          | Some v => read_in_view en c h v key
          | None =>
              match begin_timeout begin_ctx remaining with
              | Err e => fail_read (EWrap "begin execution query view: %w" e) c h
              | Ok _ =>
                  let h' := h ++ [CallBegin] in
                  match ans_begin en h with
                  | Err e => fail_read (EWrap "begin execution query view: %w" e) c h'
                  | Ok None => fail_read (ENew "query service returned an empty execution view") c h'
                  | Ok (Some v) =>
                      if bool_decide (view_Id v = "")
                      then fail_read (ENew "query service returned an empty execution view") c h'
                      else read_in_view en (set_view (Some v) true c) h' v key
                  end
              end
          end
      end
  end.

Definition PutState (c : ExecutionContext) (key : string) (value : bytes) : ExecutionContext :=
  add_write key (Some value) c.

Definition DelState (c : ExecutionContext) (key : string) : ExecutionContext := add_write key None c.

Record ReadWriteSet := mkRWS {
  Reads : list (string * option Z);
  Writes : list (string * option bytes) }.

(** Go's map iteration order is [map_to_list] up to a permutation. *)
Definition Result (c : ExecutionContext) : ReadWriteSet :=
  mkRWS (map_to_list (reads c)) (map_to_list (writes c)).

(** [Err]. *)
Definition Err_ (c : ExecutionContext) : option goerr := readErr c.

(** ** Sequences of operations *)

Inductive op : Type :=
  | OpGet (ctx begin_ctx : ctx_err) (remaining : option Z) (key : string)
  | OpPut (key : string) (value : bytes)
  | OpDel (key : string)
  | OpClose
  | OpSetView (v : option View).

Definition step (en : env) (o : op) (ch : ExecutionContext * list call)
    : ExecutionContext * list call :=
  match o with
  | OpGet ctx bctx rem key => (GetState en ctx bctx rem ch.1 ch.2 key).1
  | OpPut key v => (PutState ch.1 key v, ch.2)
  | OpDel key => (DelState ch.1 key, ch.2)
  | OpClose => (Close en ch.1 ch.2).1
  | OpSetView v => ((SetQueryView ch.1 v).1, ch.2)
  end.

Definition run (en : env) (ops : list op) (ch : ExecutionContext * list call)
    : ExecutionContext * list call := foldl (λ ch o, step en o ch) ch ops.

(** A repeatable-read view: what it holds never changes. *)
Definition repeatable (en : env) (snap : View → string → string → VersionedValue) : Prop :=
  ∀ h v ns key l, ans_rows en h v ns key = Ok l → find_in_rows ns key l = snap v ns key.

(** The last write of a key among the operations, after [w]. *)
Fixpoint last_write (key : string) (ops : list op) (w : option (option bytes))
    : option (option bytes) :=
  match ops with
  | [] => w
  | OpPut k v :: rest => last_write key rest (if decide (k = key) then Some (Some v) else w)
  | OpDel k :: rest => last_write key rest (if decide (k = key) then Some None else w)
  | _ :: rest => last_write key rest w
  end.

(** ** Invariant *)

(** Reads of one namespace in one view. *)
Definition gets (ns : string) (v : View) (l : list call) : Prop :=
  Forall (λ c, ∃ key, c = CallGet v ns key) l.

(** The calls made so far: reads in the one view, which the context begins first
    when it was not given one, and ends last when it is closed. *)
Definition calls_ok (c : ExecutionContext) (h : list call) : Prop :=
  if viewOwned c
  then ∃ v l, queryView c = Some v ∧ gets (namespace c) v l ∧
         h = CallBegin :: l ++ (if closed c then [CallEnd v] else [])
  else match queryView c with
       | None => h = [] ∨ (h = [CallBegin] ∧ readErr c ≠ None)
       | Some v => gets (namespace c) v h
       end.

Definition reads_ok (snap : View → string → string → VersionedValue) (c : ExecutionContext) : Prop :=
  ∀ key ver, reads c !! key = Some ver →
    ∃ v, queryView c = Some v ∧ ver = vv_Version (snap v (namespace c) key).

Lemma gets_app ns v l key : gets ns v l → gets ns v (l ++ [CallGet v ns key]).
Proof. intros H. apply Forall_app. split; [done|]. apply Forall_singleton. eauto. Qed.

(** [GetState] in cases: refused without a call, failed to begin, or read. *)
Lemma GetState_cases en ctx bctx rem c h key c' h' r :
  GetState en ctx bctx rem c h key = (c', h', r) →
  (c' = c ∧ h' = h ∧ (closed c = true ∨ ∃ e, readErr c = Some e ∧ r = Err e) ∧ is_ok r = false) ∨
  (closed c = false ∧ readErr c = None ∧ ∃ e, r = Err e ∧ c' = set_readErr e c ∧
     (h' = h ∨ queryView c = None ∧ h' = h ++ [CallBegin])) ∨
  (closed c = false ∧ readErr c = None ∧ ∃ v c1 h1,
     (queryView c = Some v ∧ c1 = c ∧ h1 = h ∨
      queryView c = None ∧ c1 = set_view (Some v) true c ∧ h1 = h ++ [CallBegin]) ∧
     read_in_view en c1 h1 v key = (c', h', r)).
Proof.
  unfold GetState, fail_read. destruct (closed c) eqn:Hc.
  { intros [= <- <- <-]. left. auto. }
  destruct (readErr c) as [e|] eqn:He.
  { intros [= <- <- <-]. left. split_and!; eauto. }
  destruct ctx as [e|]; [intros [= <- <- <-]; right; left; eauto 10|].
  destruct (reader c); cbn [negb]; [|intros [= <- <- <-]; right; left; eauto 10].
  destruct (queryView c) as [v|] eqn:Hv.
  { intros H. right. right. split_and!; try done. exists v, c, h. auto. }
  destruct (begin_timeout bctx rem) as [t|e]; [|intros [= <- <- <-]; right; left; eauto 10].
  assert (Hfail : ∀ e0, (set_readErr e0 c, h ++ [CallBegin], Err e0) = (c', h', r) →
    ∃ e, r = Err e ∧ c' = set_readErr e c ∧
      (h' = h ∨ @None View = None ∧ h' = h ++ [CallBegin])) by (intros e0 [= <- <- <-]; eauto 10).
  destruct (ans_begin en h) as [[v|]|e]; try (intros Hf; right; left; split_and!; [done..|]; by eapply Hfail).
  case_bool_decide; [intros Hf; right; left; split_and!; [done..|]; by eapply Hfail|].
  intros H'. right. right. split_and!; try done. do 3 eexists. split; [right; eauto|exact H'].
Qed.

Lemma read_in_view_cases en c h v key c' h' r :
  read_in_view en c h v key = (c', h', r) →
  h' = h ++ [CallGet v (namespace c) key] ∧
  ((∃ e, r = Err e ∧ c' = set_readErr e c) ∨
   ∃ value l, ans_rows en h v (namespace c) key = Ok l ∧
     value = find_in_rows (namespace c) key l ∧
     r = Ok (vv_Value value) ∧ c' = add_read key (vv_Version value) c).
Proof.
  unfold read_in_view, reader_GetState, fail_read.
  destruct (ans_rows en h v (namespace c) key) as [l|e]; simpl; intros [= <- <- <-]; eauto 10.
Qed.

Lemma GetState_ok en ctx bctx rem c h key snap :
  calls_ok c h → let '(c', h', r) := GetState en ctx bctx rem c h key in
  calls_ok c' h' ∧ namespace c' = namespace c ∧ writes c' = writes c ∧
  (repeatable en snap → reads_ok snap c → reads_ok snap c') ∧
  (repeatable en snap → ∀ x, r = Ok x →
     ∃ v, queryView c' = Some v ∧ x = vv_Value (snap v (namespace c) key)).
Proof.
  intros Hok. destruct (GetState en ctx bctx rem c h key) as [[c' h'] r] eqn:E.
  apply GetState_cases in E as
    [(-> & -> & _ & Hr)|[(Hc & He & e & -> & -> & Hh)|(Hc & He & v & c1 & h1 & Hv & Hread)]].
  - split_and!; try done. intros _ x ->. done.
  - split_and!; try done. unfold calls_ok in *. simpl. destruct Hh as [-> |[Hv ->]].
    + destruct (viewOwned c); [done|]. destruct (queryView c); [done|]. destruct Hok as [?|[? ?]]; auto.
    + rewrite Hv in *. destruct (viewOwned c); [by destruct Hok as (? & ? & ? & _)|].
      destruct Hok as [-> |[-> ?]]; [by right|done].
  - assert (Hok1 : calls_ok c1 h1 ∧ closed c1 = false ∧ queryView c1 = Some v ∧
      namespace c1 = namespace c ∧ writes c1 = writes c ∧
      (reads_ok snap c → reads_ok snap c1)).
    { destruct Hv as [(Hv & -> & ->)|(Hv & -> & ->)]; [done|]. split_and!; try done.
      - unfold calls_ok in *. simpl. rewrite Hv in Hok.
        destruct (viewOwned c); [by destruct Hok as (? & ? & ? & _)|].
        destruct Hok as [-> |[_ ?]]; [|done]. exists v, []. rewrite Hc. by split_and!; [|apply Forall_nil|].
      - intros Hreads k ver Hk. destruct (Hreads k ver Hk) as (v' & ? & _). congruence. }
    clear Hv. destruct Hok1 as (Hok1 & Hc1 & Hv1 & Hns & Hw & Hreads).
    apply read_in_view_cases in Hread as [-> Hcase].
    assert (Hcalls : ∀ cc, queryView cc = queryView c1 → viewOwned cc = viewOwned c1 →
      namespace cc = namespace c1 → closed cc = closed c1 →
      calls_ok cc (h1 ++ [CallGet v (namespace c1) key])).
    { intros cc E1 E2 E3 E4. unfold calls_ok in *. rewrite E1, E2, E3, E4, Hv1, Hc1 in *.
      destruct (viewOwned c1).
      - destruct Hok1 as (v' & l & [= <-] & Hl & ->). exists v, (l ++ [CallGet v (namespace c1) key]).
        rewrite !app_nil_r. split_and!; [done|by apply gets_app|done].
      - by apply gets_app. }
    destruct Hcase as [(e & -> & ->)|(value & l & Hans & -> & -> & ->)].
    + split_and!; [by apply Hcalls|done|done| |done]. intros _ Hr. by apply Hreads.
    + split_and!; [by apply Hcalls|done|done| |].
      * intros Hrep Hr k ver. simpl. rewrite (Hrep h1 v (namespace c1) key l Hans).
        destruct (decide (k = key)) as [->|].
        -- rewrite lookup_insert_eq. intros [= <-]. eauto.
        -- rewrite lookup_insert_ne by done. by apply Hreads.
      * intros Hrep x [= <-]. exists v. split; [done|].
        by rewrite (Hrep h1 v (namespace c1) key l Hans), Hns.
Qed.

Lemma step_ok en o c h snap :
  calls_ok c h → let '(c', h') := step en o (c, h) in
  calls_ok c' h' ∧ namespace c' = namespace c ∧
  (repeatable en snap → reads_ok snap c → reads_ok snap c') ∧
  ∀ key, writes c' !! key = last_write key [o] (writes c !! key).
Proof.
  intros Hok. destruct o as [ctx bctx rem key|key value|key| |v]; simpl.
  - pose proof (GetState_ok en ctx bctx rem c h key snap Hok) as HG.
    destruct (GetState en ctx bctx rem c h key) as [[c' h'] r]. simpl.
    destruct HG as (? & ? & Hw & ? & _). split_and!; try done. by rewrite Hw.
  - split_and!; try done. intros k. case_decide as E; [subst; apply lookup_insert_eq|].
    by apply lookup_insert_ne.
  - split_and!; try done. intros k. case_decide as E; [subst; apply lookup_insert_eq|].
    by apply lookup_insert_ne.
  - unfold Close. destruct (closed c) eqn:Hc; [by split_and!|]. unfold calls_ok in *. simpl.
    destruct (viewOwned c) eqn:Ho; simpl in *.
    + destruct Hok as (v & l & Hv & Hl & ->). rewrite Hv, Hc in *. simpl. rewrite Ho, ?Hv.
      split_and!; try done. exists v, l. rewrite app_nil_r. by split_and!.
    + destruct (queryView c) eqn:Hv; simpl; rewrite ?Ho, ?Hv; by split_and!.
  - unfold SetQueryView. destruct (_ || _) eqn:E; [by split_and!|]. bool_props.
    repeat match goal with Hn : ¬ is_Some _ |- _ => apply eq_None_not_Some in Hn end.
    match goal with Hn : queryView c = None |- _ => rename Hn into Hv end. split_and!; try done.
    + unfold calls_ok in *. simpl. rewrite Hv in Hok.
      destruct (viewOwned c); [by destruct Hok as (? & ? & ? & _)|].
      destruct Hok as [-> |[_ ?]]; [|done]. destruct v; [apply Forall_nil_2|by left].
    + intros _ Hr k ver Hk. destruct (Hr k ver Hk) as (v' & ? & _). congruence.
Qed.

Lemma last_write_app key ops1 ops2 w :
  last_write key (ops1 ++ ops2) w = last_write key ops2 (last_write key ops1 w).
Proof. revert w. induction ops1 as [|[] ops1 IH]; intros w; simpl; auto. Qed.

Lemma run_ok en ops c h snap :
  calls_ok c h → let '(c', h') := run en ops (c, h) in
  calls_ok c' h' ∧ namespace c' = namespace c ∧
  (repeatable en snap → reads_ok snap c → reads_ok snap c') ∧
  ∀ key, writes c' !! key = last_write key ops (writes c !! key).
Proof.
  revert c h. induction ops as [|o ops IH]; intros c h Hok; [by split_and!|].
  change (run en (o :: ops) (c, h)) with (run en ops (step en o (c, h))).
  pose proof (step_ok en o c h snap Hok) as Hs. destruct (step en o (c, h)) as [c1 h1].
  destruct Hs as (Hok1 & Hns1 & Hr1 & Hw1). specialize (IH c1 h1 Hok1).
  destruct (run en ops (c1, h1)) as [c' h']. destruct IH as (Hok' & Hns' & Hr' & Hw').
  split_and!; [done|congruence|auto|]. intros key.
  rewrite Hw', Hw1. by rewrite <- (last_write_app key [o] ops).
Qed.

Lemma fresh_ok rd ns v : calls_ok (NewExecutionContextWithView rd ns v) [].
Proof. unfold calls_ok. simpl. destruct v; [apply Forall_nil_2|by left]. Qed.

(** A service whose view holds one row, at block 7. *)
Definition ex_env : env :=
  mkEnv (λ _, Ok (Some (mkView "v1"))) (λ _ _ _ _, Ok [("ns", [("k", "x", 7)])]) (λ _ _, None).

Definition ex_ops : list op :=
  [OpPut "k" "y"; OpGet None None (Some 5000000) "k"; OpDel "j"; OpClose].

Lemma ex_env_repeatable :
  repeatable ex_env (λ _ ns key, find_in_rows ns key [("ns", [("k", "x", 7)])]).
Proof. by intros h v ns key l [= <-]. Qed.

(** ** Properties *)

(** Whatever the chaincode does with its state, in any order and with any failures,
    the invocation uses one Query Service view: at most one [BeginView], then reads of
    its namespace in that view, then at most one [EndView], made exactly when a begun
    view was closed. *)
Theorem invocation_one_view en ops rd ns c h :
  run en ops (NewExecutionContext rd ns, []) = (c, h) →
  (∃ v l, gets ns v l ∧
     (h = CallBegin :: l ++ (if closed c then [CallEnd v] else []) ∧ viewOwned c = true ∧
        queryView c = Some v ∨
      h = l ∧ viewOwned c = false ∧ queryView c = Some v)) ∨
  (queryView c = None ∧ (h = [] ∨ (h = [CallBegin] ∧ readErr c ≠ None))).
Proof.
  intros Hrun. pose proof (run_ok en ops (NewExecutionContext rd ns) [] (λ _ _ _, mkVersioned "" None)
    (fresh_ok rd ns None)) as H. rewrite Hrun in H. destruct H as (Hok & Hns & _).
  unfold calls_ok in Hok. simpl in Hns. rewrite Hns in Hok.
  destruct (viewOwned c).
  - destruct Hok as (v & l & ? & ? & ->). left. exists v, l. split; [done|]. by left.
  - destruct (queryView c) as [v|]; [|by right]. left. exists v, h. split; [done|]. by right.
Qed.

Lemma invocation_one_view_witness :
  ∃ c h, run ex_env ex_ops (NewExecutionContext true "ns", []) = (c, h) ∧
    h = [CallBegin; CallGet (mkView "v1") "ns" "k"; CallEnd (mkView "v1")] ∧
    ((∃ v l, gets "ns" v l ∧
       (h = CallBegin :: l ++ (if closed c then [CallEnd v] else []) ∧ viewOwned c = true ∧
          queryView c = Some v ∨
        h = l ∧ viewOwned c = false ∧ queryView c = Some v)) ∨
     (queryView c = None ∧ (h = [] ∨ (h = [CallBegin] ∧ readErr c ≠ None)))).
Proof.
  do 2 eexists. split; [vm_compute; reflexivity|]. split; [reflexivity|].
  by apply (invocation_one_view ex_env ex_ops true "ns").
Defined.

(** Under a repeatable-read view, every read returns the committed value of the
    view's snapshot, never a pending write, and the read set records the snapshot's
    versions; the write set holds the last write or delete of each key. *)
Theorem reads_are_snapshot en ops rd ns c h snap :
  repeatable en snap → run en ops (NewExecutionContext rd ns, []) = (c, h) →
  (∀ key ver, (key, ver) ∈ Reads (Result c) →
     ∃ v, queryView c = Some v ∧ ver = vv_Version (snap v ns key)) ∧
  (∀ key w, (key, w) ∈ Writes (Result c) ↔ last_write key ops None = Some w) ∧
  ∀ ctx bctx rem key c' h' x, GetState en ctx bctx rem c h key = (c', h', Ok x) →
    ∃ v, queryView c' = Some v ∧ (∀ v0, queryView c = Some v0 → v = v0) ∧
      x = vv_Value (snap v ns key).
Proof.
  intros Hrep Hrun.
  pose proof (run_ok en ops (NewExecutionContext rd ns) [] snap (fresh_ok rd ns None)) as H.
  rewrite Hrun in H. destruct H as (Hok & Hns & Hreads & Hw). simpl in Hns. split_and!.
  - intros key ver Hk%elem_of_map_to_list. rewrite <- Hns. apply Hreads; [done| |done].
    intros k v'. simpl. by rewrite lookup_empty.
  - intros key w. simpl. rewrite elem_of_map_to_list, Hw. simpl. by rewrite lookup_empty.
  - intros ctx bctx rem key c' h' x HG.
    pose proof (GetState_ok en ctx bctx rem c h key snap Hok) as HGok. rewrite HG in HGok.
    destruct HGok as (_ & _ & _ & _ & Hx). destruct (Hx Hrep x eq_refl) as (v & Hv & ->).
    exists v. rewrite Hns. split_and!; try done. intros v0 Hv0.
    apply GetState_cases in HG as [(_ & _ & _ & ?)|[(_ & _ & e & ? & _)|(_ & _ & v1 & c1 & h1 & Hc1 & Hr)]];
      [done..|].
    apply read_in_view_cases in Hr as [_ [(e & ? & _)|(value & l & _ & _ & _ & ->)]]; [done|].
    simpl in Hv. destruct Hc1 as [(? & -> & _)|(? & -> & _)]; simpl in Hv; congruence.
Qed.

Lemma reads_are_snapshot_witness :
  ∃ c h, run ex_env (take 3 ex_ops) (NewExecutionContext true "ns", []) = (c, h) ∧
    Reads (Result c) = [("k", Some 7)] ∧
    ∀ ctx bctx rem key c' h' x, GetState ex_env ctx bctx rem c h key = (c', h', Ok x) →
      ∃ v, queryView c' = Some v ∧ (∀ v0, queryView c = Some v0 → v = v0) ∧
        x = vv_Value (find_in_rows "ns" key [("ns", [("k", "x", 7)])]).
Proof.
  do 2 eexists. split; [vm_compute; reflexivity|]. split; [vm_compute; reflexivity|].
  by apply (reads_are_snapshot ex_env (take 3 ex_ops) true "ns" _ _ _ ex_env_repeatable).
Defined.

(** The first failed read is final: whatever follows, the context keeps that error,
    every later read of the open context fails with it, and the Query Service is asked
    nothing more but to end the view. *)
Theorem read_failure_sticks en ops c h e c' h' :
  readErr c = Some e → run en ops (c, h) = (c', h') →
  Err_ c' = Some e ∧ reads c' = reads c ∧ queryView c' = queryView c ∧
  (h' = h ∨ ∃ v, h' = h ++ [CallEnd v]) ∧
  ∀ ctx bctx rem key, closed c' = false →
    GetState en ctx bctx rem c' h' key = (c', h', Err e).
Proof.
  intros He Hrun.
  assert (Hinv : readErr c' = Some e ∧ reads c' = reads c ∧ queryView c' = queryView c ∧
    (h' = h ∨ closed c = false ∧ ∃ v, h' = h ++ [CallEnd v])).
  { revert c h He Hrun. induction ops as [|o ops IH]; intros c h He.
    { intros [= <- <-]. split_and!; try done. by left. }
    change (run en (o :: ops) (c, h)) with (run en ops (step en o (c, h))).
    assert (Hget : ∀ ctx bctx rem key, (GetState en ctx bctx rem c h key).1 = (c, h)).
    { intros. unfold GetState. rewrite He. by destruct (closed c). }
    destruct o as [ctx bctx rem key|key value|key| |v]; simpl.
    - rewrite Hget. by apply IH.
    - intros Hr. by apply IH in Hr.
    - intros Hr. by apply IH in Hr.
    - unfold Close. destruct (closed c) eqn:Hc; [intros Hr; apply IH in Hr; [|done]; naive_solver|].
      simpl. destruct (viewOwned c), (queryView c) as [v|] eqn:Hv; intros Hr; apply IH in Hr;
        try done; simpl in Hr; destruct Hr as (? & ? & Hq & Hcase); split_and!; try done;
        try (by rewrite Hq); destruct Hcase as [-> |[? _]]; try done; eauto.
    - unfold SetQueryView. rewrite (bool_decide_eq_true_2 (is_Some (readErr c))) by (rewrite He; eauto).
      rewrite orb_true_r. by apply IH. }
  destruct Hinv as (He' & Hr & Hq & Hcase). unfold Err_. split_and!; try done; [naive_solver|].
  intros ctx bctx rem key Hc'. unfold GetState. by rewrite Hc', He'.
Qed.

Lemma read_failure_sticks_witness :
  ∃ c' h', run ex_env ex_ops
      (set_readErr (EExt "unavailable") (set_view (Some (mkView "v1")) true
         (NewExecutionContext true "ns")), [CallBegin]) = (c', h') ∧
    Err_ c' = Some (EExt "unavailable") ∧ reads c' = ∅ ∧
    (h' = [CallBegin] ∨ ∃ v, h' = [CallBegin] ++ [CallEnd v]).
Proof.
  do 2 eexists. split; [vm_compute; reflexivity|].
  match goal with |- Err_ ?c' = _ ∧ _ ∧ (?h' = _ ∨ _) =>
    destruct (read_failure_sticks ex_env ex_ops
      (set_readErr (EExt "unavailable") (set_view (Some (mkView "v1")) true
         (NewExecutionContext true "ns"))) [CallBegin] (EExt "unavailable") c' h' eq_refl eq_refl)
      as (H1 & H2 & H3 & H4 & H5) end.
  split; [exact H1|split; [exact H2|exact H4]].
Defined.

End Exec.
