(* ===== verification/Shim.v ===== *)
(** The peer side of the chaincode-as-a-service protocol, [pkg/shim/connector.go] and
    [pkg/shim/handler.go].

    A stream is the list of what [Recv] returns; a call that has not returned is
    [None].  The log keeps every use of the connection in order.  The invocation's
    state is behind [ShimState], the interface [State] of the package, which
    [Exec.ExecutionContext] implements. *)
From Stdlib Require Import ZArith Lia.
From stdpp Require Import base option list strings gmap sets.
From S2P Require Import Prelude LifecycleStore OrchestratorTypes ExecContext.
Import Types.
Local Open Scope Z_scope.

Module Shim.

(** ** Messages *)

Inductive msgtype : Set :=
  | REGISTER | REGISTERED | READY | INIT | TRANSACTION | COMPLETED | ERROR
  | GET_STATE | PUT_STATE | DEL_STATE | RESPONSE | KEEPALIVE | UNKNOWN (n : Z).

#[export] Instance msgtype_eq_dec : EqDecision msgtype.
Proof. solve_decision. Defined.

Record Event := mkEvent { EventName : string; ev_Payload : bytes }.

Record ChaincodeMessage := mkMsg {
  m_Type : msgtype;
  m_Payload : bytes;
  m_Txid : string;
  m_ChannelId : string;
  m_ChaincodeEvent : option Event }.

(** Payload of a sent message: bytes or the text of an error. *)
Inductive body : Type :=
  | Data (b : bytes)
  | ErrorText (e : goerr).

Record OutMsg := mkOut {
  o_Type : msgtype;
  o_Payload : body;
  o_Txid : string;
  o_ChannelId : string;
  o_Proposal : option SignedProposal }.

Record Invocation := mkInvocation {
  i_TxID : string;
  i_ChannelID : string;
  i_Namespace : string;
  i_Args : list bytes;
  i_Creator : bytes;
  i_Nonce : bytes;
  i_SignedProposal : option SignedProposal;
  i_Decorations : gmap string bytes;
  i_IsInit : bool }.

Record Result := mkShimResult {
  r_Status : Z;
  r_Message : string;
  r_Payload : bytes;
  r_Event : bytes;
  r_EventName : string;
  r_QueryView : option Exec.View }.

(** Protobuf coding; a state request decodes to its key, value and collection. *)
Class ShimProto := {
  UnmarshalGetState : bytes → result (string * string);
  UnmarshalPutState : bytes → result (string * bytes * string);
  UnmarshalDelState : bytes → result (string * string);
  UnmarshalResponse : bytes → result Response;
  UnmarshalChaincodeID : bytes → result string;
  MarshalChaincodeInput : list bytes → gmap string bytes → bool → result bytes;
  CreateChaincodeProposal :
    string → string → string → list bytes → gmap string bytes → bool → bytes → bytes →
    result Proposal;
  MarshalProposal : Proposal → result bytes }.

(** ** The state interface *)

(** What a read sees of its context: [ctx.Err()] at the read and in [BeginView], and
    the time left. *)
Record GetCtx := mkGetCtx { g_ctx : ctx_err; g_begin : ctx_err; g_remaining : option Z }.

Class ShimState (S : Type) := {
  st_QueryView : S → option Exec.View;
  st_GetState : GetCtx → string → S → S * result bytes;
  st_PutState : string → bytes → S → S;
  st_DelState : string → S → S }.

(** [helper.ExecutionContext] with the history of Query Service calls. *)
#[export] Instance ExecutionContext_State (en : Exec.env) :
  ShimState (Exec.ExecutionContext * list Exec.call) := {|
  st_QueryView s := Exec.queryView s.1;
  st_GetState g key s :=
    let '(c, h, r) := Exec.GetState en (g_ctx g) (g_begin g) (g_remaining g) s.1 s.2 key in
    (c, h, r);
  st_PutState key v s := (Exec.PutState s.1 key v, s.2);
  st_DelState key s := (Exec.DelState s.1 key, s.2) |}.

(** ** The connection *)

Inductive ioev : Type :=
  | IoDial (timeout : option Z)
  | IoConnect
  | IoSend (m : OutMsg)
  | IoCloseSend
  | IoClose.

(** Outcomes of the connection's calls, given the uses made before. *)
Record ioenv := mkIo {
  ans_dial : option goerr;
  ans_connect : option goerr;
  ans_send : list ioev → OutMsg → option goerr;
  ans_closeSend : list ioev → option goerr }.

(** One [Recv]: [ctx.Err()] before it, its outcome, [ctx.Err()] after a failure, and the
    context of the read it may ask for. *)
Record recv := mkRecv {
  rv_ctx : ctx_err;
  rv_got : result (option ChaincodeMessage);
  rv_ctx_err : ctx_err;
  rv_get : GetCtx }.

Definition io_EOF : goerr := EExt "EOF".

Definition defaultConnectTimeout : Z := 10000000000.

Definition eventPayload (event : option Event) : bytes :=
  match event with None => "" | Some e => ev_Payload e end.

Definition eventName (event : option Event) : string :=
  match event with None => "" | Some e => EventName e end.

Section Handler.
Context {S : Type} {SS : ShimState S} {SP : ShimProto}.
Variable io : ioenv.

Definition send (m : OutMsg) (log : list ioev) : list ioev * option goerr :=
  (log ++ [IoSend m], ans_send io log m).

Definition sendResponse (request : ChaincodeMessage) (payload : bytes) (log : list ioev)
    : list ioev * option goerr :=
  send (mkOut RESPONSE (Data payload) (m_Txid request) (m_ChannelId request) None) log.

Definition sendError (request : ChaincodeMessage) (e : goerr) (log : list ioev)
    : list ioev * option goerr :=
  send (mkOut ERROR (ErrorText e) (m_Txid request) (m_ChannelId request) None) log.

Definition handleGetState (g : GetCtx) (msg : ChaincodeMessage) (st : S) (log : list ioev)
    : S * (list ioev * option goerr) :=
  match UnmarshalGetState (m_Payload msg) with
  | Err e => (st, sendError msg (EWrap "unmarshal GET_STATE: %w" e) log)
  | Ok (key, collection) =>
      if negb (bool_decide (collection = ""))
      then (st, sendError msg (ENew "private data collections are not supported in V1") log)
      else
        let '(st', r) := st_GetState g key st in
        match r with
        | Err e => (st', sendError msg (EWrap "get state %q: %w" e) log)
        | Ok value => (st', sendResponse msg value log)
        end
  end.

Definition handlePutState (msg : ChaincodeMessage) (st : S) (log : list ioev)
    : S * (list ioev * option goerr) :=
  match UnmarshalPutState (m_Payload msg) with
  | Err e => (st, sendError msg (EWrap "unmarshal PUT_STATE: %w" e) log)
  | Ok (key, value, collection) =>
      if negb (bool_decide (collection = ""))
      then (st, sendError msg (ENew "private data collections are not supported in V1") log)
      else (st_PutState key value st, sendResponse msg "" log)
  end.

Definition handleDelState (msg : ChaincodeMessage) (st : S) (log : list ioev)
    : S * (list ioev * option goerr) :=
  match UnmarshalDelState (m_Payload msg) with
  | Err e => (st, sendError msg (EWrap "unmarshal DEL_STATE: %w" e) log)
  | Ok (key, collection) =>
      if negb (bool_decide (collection = ""))
      then (st, sendError msg (ENew "private data collections are not supported in V1") log)
      else (st_DelState key st, sendResponse msg "" log)
  end.

Definition completedResult (msg : ChaincodeMessage) (st : S) : result Result :=
  match UnmarshalResponse (m_Payload msg) with
  | Err e => Err (EWrap "unmarshal COMPLETED response: %w" e)
  | Ok response =>
      Ok (mkShimResult (Status response) (Message response) (Payload response)
            (eventPayload (m_ChaincodeEvent msg)) (eventName (m_ChaincodeEvent msg))
            (st_QueryView st))
  end.

Definition errorResult (msg : ChaincodeMessage) (st : S) : Result :=
  mkShimResult 500 (m_Payload msg) (m_Payload msg) (eventPayload (m_ChaincodeEvent msg))
    (eventName (m_ChaincodeEvent msg)) (st_QueryView st).

(** The loop of [messageHandler.Execute]. *)
Fixpoint loop (rs : list recv) (st : S) (log : list ioev)
    : option (result Result) * S * list ioev :=
  match rs with
  | [] => (None, st, log)
  | r :: rest =>
      match rv_ctx r with
      | Some e => (Some (Err e), st, log)
      | None =>
          match rv_got r with
          | Err e =>
              match rv_ctx_err r with
              | Some ctxErr => (Some (Err ctxErr), st, log)
              | None =>
                  if errors_Is e io_EOF
                  then (Some (Err (ENew "chaincode stream closed before COMPLETED")), st, log)
                  else (Some (Err (EWrap "receive chaincode message: %w" e)), st, log)
              end
          | Ok None => (Some (Err (ENew "chaincode service sent nil message")), st, log)
          | Ok (Some msg) =>
              let continue (res : S * (list ioev * option goerr)) :=
                let '(st', (log', e)) := res in
                match e with
                | Some e => (Some (Err e), st', log')
                | None => loop rest st' log'
                end in
              match m_Type msg with
              | KEEPALIVE => loop rest st log
              | GET_STATE => continue (handleGetState (rv_get r) msg st log)
              | PUT_STATE => continue (handlePutState msg st log)
              | DEL_STATE => continue (handleDelState msg st log)
              | COMPLETED => (Some (completedResult msg st), st, log)
              | ERROR => (Some (Ok (errorResult msg st)), st, log)
              | _ => continue (st, sendError msg (ENew "unsupported chaincode message type %s") log)
              end
          end
      end
  end.

(** [messageHandler.signedProposal]. *)
Definition signedProposal (inv : Invocation) : result (option SignedProposal) :=
  match i_SignedProposal inv with
  | Some p => Ok (Some p)
  | None =>
      if bool_decide (i_Creator inv = "") then Ok None
      else
        let nonce := if bool_decide (i_Nonce inv = "") then i_TxID inv else i_Nonce inv in
        match CreateChaincodeProposal (i_TxID inv) (i_ChannelID inv) (i_Namespace inv)
                (i_Args inv) (i_Decorations inv) (i_IsInit inv) nonce (i_Creator inv) with
        | Err e => Err (EWrap "create chaincode proposal context: %w" e)
        | Ok proposal =>
            match MarshalProposal proposal with
            | Err e => Err (EWrap "marshal chaincode proposal context: %w" e)
            | Ok proposalBytes => Ok (Some (mkSignedProposal proposalBytes ""))
            end
        end
  end.

Definition sendTransaction (inv : Invocation) (log : list ioev) : list ioev * option goerr :=
  match MarshalChaincodeInput (i_Args inv) (i_Decorations inv) (i_IsInit inv) with
  | Err e => (log, Some (EWrap "marshal transaction input: %w" e))
  | Ok payload =>
      match signedProposal inv with
      | Err e => (log, Some e)
      | Ok proposal =>
          let messageType := if i_IsInit inv then INIT else TRANSACTION in
          let '(log', e) :=
            send (mkOut messageType (Data payload) (i_TxID inv) (i_ChannelID inv) proposal) log in
          (log', EWrap "send %s to chaincode: %w" <$> e)
      end
  end.

(** [messageHandler.Execute]. *)
Definition handler_Execute (inv : Invocation) (rs : list recv) (st : S) (log : list ioev)
    : option (result Result) * S * list ioev :=
  match sendTransaction inv log with
  | (log', Some e) => (Some (Err e), st, log')
  | (log', None) => loop rs st log'
  end.

(** ** [Connector] *)

(** Returns what is left of the stream. *)
Fixpoint receiveRegister (rs : list recv) : option (result string * list recv) :=
  match rs with
  | [] => None
  | r :: rest =>
      match rv_got r with
      | Err e =>
          if errors_Is e io_EOF
          then Some (Err (ENew "chaincode service closed stream before REGISTER"), rest)
          else Some (Err (EWrap "receive REGISTER from chaincode service: %w" e), rest)
      | Ok None => Some (Err (ENew "chaincode service sent nil message before REGISTER"), rest)
      | Ok (Some msg) =>
          if bool_decide (m_Type msg = KEEPALIVE) then receiveRegister rest
          else if negb (bool_decide (m_Type msg = REGISTER))
          then Some (Err (ENew "expected REGISTER from chaincode service, got %s"), rest)
          else match UnmarshalChaincodeID (m_Payload msg) with
               | Err e => Some (Err (EWrap "unmarshal REGISTER chaincode id: %w" e), rest)
               | Ok name =>
                   if bool_decide (name = "")
                   then Some (Err (ENew "REGISTER message contains empty chaincode id"), rest)
                   else Some (Ok name, rest)
               end
      end
  end.

Definition NewConnector (endpoint : string) : result string :=
  if bool_decide (endpoint = "") then Err (ENew "chaincode service endpoint is required")
  else Ok endpoint.

(** Returns the log and whether a stream was opened. *)
Definition openStream (has_deadline : bool) : list ioev * result () :=
  let dial := IoDial (if has_deadline then None else Some defaultConnectTimeout) in
  match ans_dial io with
  | Some e => ([dial], Err (EWrap "connect to chaincode service %s: %w" e))
  | None =>
      match ans_connect io with
      | Some e =>
          ([dial; IoConnect; IoClose], Err (EWrap "open Chaincode/Connect stream to %s: %w" e))
      | None => ([dial; IoConnect], Ok ())
      end
  end.

(** The deferred [closeConn], when the call returns. *)
Definition closing {A B} (res : option A * B * list ioev) : option A * B * list ioev :=
  match res with
  | (Some r, st, log) => (Some r, st, log ++ [IoClose])
  | (None, st, log) => (None, st, log)
  end.

(** [Connector.Execute] after [openStream]. *)
Definition execute_stream (inv : Invocation) (rs : list recv) (st : S) (log : list ioev)
    : option (result Result) * S * list ioev :=
  match receiveRegister rs with
  | None => (None, st, log)
  | Some (Err e, _) => (Some (Err e), st, log)
  | Some (Ok ccid, rest) =>
      match send (mkOut REGISTERED (Data "") "" "" None) log with
      | (log, Some e) => (Some (Err (EWrap "send REGISTERED to chaincode service %s: %w" e)), st, log)
      | (log, None) =>
          match send (mkOut READY (Data "") "" "" None) log with
          | (log, Some e) => (Some (Err (EWrap "send READY to chaincode service %s: %w" e)), st, log)
          | (log, None) =>
              match handler_Execute inv rest st log with
              | (None, st, log) => (None, st, log)
              | (Some (Err e), st, log) => (Some (Err e), st, log ++ [IoCloseSend])
              | (Some (Ok res), st, log) =>
                  match ans_closeSend io log with
                  | Some e => (Some (Err (EWrap "close chaincode stream to %s: %w" e)), st,
                               log ++ [IoCloseSend])
                  | None => (Some (Ok res), st, log ++ [IoCloseSend])
                  end
              end
          end
      end
  end.

(** [Connector.Execute]; [st] is [None] for a nil state. *)
Definition Execute (ctx : ctx_err) (has_deadline : bool) (inv : Invocation) (rs : list recv)
    (st : option S) : option (result Result) * option S * list ioev :=
  match ctx with
  | Some e => (Some (Err e), st, [])
  | None =>
      match st with
      | None => (Some (Err (ENew "shim state adapter is nil")), None, [])
      | Some s =>
          match openStream has_deadline with
          | (log, Err e) => (Some (Err e), st, log)
          | (log, Ok _) =>
              let '(out, s', log') := closing (execute_stream inv rs s log) in (out, Some s', log')
          end
      end
  end.

(** ** Reference: the service of one request *)

Definition reply (request : ChaincodeMessage) (r : result bytes) : OutMsg :=
  match r with
  | Ok payload => mkOut RESPONSE (Data payload) (m_Txid request) (m_ChannelId request) None
  | Err e => mkOut ERROR (ErrorText e) (m_Txid request) (m_ChannelId request) None
  end.

(** The operation a request asks for: a read, a write, a delete, or none it may have. *)
Inductive request : Type :=
  | ReqGet (key : string)
  | ReqPut (key : string) (value : bytes)
  | ReqDel (key : string)
  | ReqNone (e : goerr).

Definition no_collection {A} (collection : string) (req : A) (none : goerr → A) : A :=
  if decide (collection = "") then req
  else none (ENew "private data collections are not supported in V1").

Definition request_of (msg : ChaincodeMessage) : request :=
  match m_Type msg with
  | GET_STATE =>
      match UnmarshalGetState (m_Payload msg) with
      | Err e => ReqNone (EWrap "unmarshal GET_STATE: %w" e)
      | Ok (key, collection) => no_collection collection (ReqGet key) ReqNone
      end
  | PUT_STATE =>
      match UnmarshalPutState (m_Payload msg) with
      | Err e => ReqNone (EWrap "unmarshal PUT_STATE: %w" e)
      | Ok (key, value, collection) => no_collection collection (ReqPut key value) ReqNone
      end
  | DEL_STATE =>
      match UnmarshalDelState (m_Payload msg) with
      | Err e => ReqNone (EWrap "unmarshal DEL_STATE: %w" e)
      | Ok (key, collection) => no_collection collection (ReqDel key) ReqNone
      end
  | _ => ReqNone (ENew "unsupported chaincode message type %s")
  end.

Definition perform (g : GetCtx) (req : request) (st : S) : S * result bytes :=
  match req with
  | ReqGet key =>
      let '(st', r) := st_GetState g key st in
      (st', match r with Ok v => Ok v | Err e => Err (EWrap "get state %q: %w" e) end)
  | ReqPut key value => (st_PutState key value st, Ok "")
  | ReqDel key => (st_DelState key st, Ok "")
  | ReqNone e => (st, Err e)
  end.

(** The requests of a stream, each with its context; other messages have none. *)
Definition requests (rs : list recv) : list (GetCtx * ChaincodeMessage) :=
  omap (λ r, match rv_got r with
             | Ok (Some msg) => if decide (m_Type msg = KEEPALIVE) then None else Some (rv_get r, msg)
             | _ => None
             end) rs.

(** Every request is performed once, in order, and answered. *)
Definition serve (s : S * list ioev) (q : GetCtx * ChaincodeMessage) : S * list ioev :=
  let '(st', r) := perform q.1 (request_of q.2) s.1 in (st', s.2 ++ [IoSend (reply q.2 r)]).

Definition is_terminal (msg : ChaincodeMessage) : bool :=
  bool_decide (m_Type msg = COMPLETED) || bool_decide (m_Type msg = ERROR).

(** A message that does not end the loop. *)
Definition goes_on (r : recv) : Prop :=
  rv_ctx r = None ∧ ∃ msg, rv_got r = Ok (Some msg) ∧ is_terminal msg = false.

(** How the loop ends at a message that ends it. *)
Definition ends (r : recv) (st : S) (res : result Result) : Prop :=
  match res with
  | Err e => rv_ctx r = Some e ∨ rv_got r = Ok None ∨ (∃ e', rv_got r = Err e') ∨
      ∃ msg, rv_got r = Ok (Some msg) ∧ m_Type msg = COMPLETED ∧
        is_ok (UnmarshalResponse (m_Payload msg)) = false
  | Ok x => rv_ctx r = None ∧ ∃ msg, rv_got r = Ok (Some msg) ∧
      r_QueryView x = st_QueryView st ∧
      (m_Type msg = COMPLETED ∧ (∃ rsp, UnmarshalResponse (m_Payload msg) = Ok rsp ∧
         r_Status x = Status rsp ∧ r_Message x = Message rsp ∧ r_Payload x = Payload rsp) ∨
       m_Type msg = ERROR ∧ r_Status x = 500 ∧ r_Message x = m_Payload msg)
  end.

(** The three handlers and the default branch are [serve] with its answer sent. *)
Definition handled (msg : ChaincodeMessage) (g : GetCtx) (st : S) (log : list ioev)
    : S * (list ioev * option goerr) :=
  match m_Type msg with
  | GET_STATE => handleGetState g msg st log
  | PUT_STATE => handlePutState msg st log
  | DEL_STATE => handleDelState msg st log
  | _ => (st, sendError msg (ENew "unsupported chaincode message type %s") log)
  end.

Lemma handled_serve msg g st log :
  is_terminal msg = false → m_Type msg ≠ KEEPALIVE →
  handled msg g st log =
    ((serve (st, log) (g, msg)).1,
     ((serve (st, log) (g, msg)).2,
      ans_send io log (reply msg (perform g (request_of msg) st).2))).
Proof.
  intros Ht Hk. unfold handled, serve, request_of, handleGetState, handlePutState,
    handleDelState, sendError, sendResponse, send, no_collection, perform. simpl.
  unfold is_terminal in Ht. bool_props.
  destruct (m_Type msg); try done.
  - destruct (UnmarshalGetState (m_Payload msg)) as [[key col]|e]; [|done].
    case_bool_decide; case_decide; try done. simpl.
    destruct (st_GetState g key st) as [st' [v|e]]; done.
  - destruct (UnmarshalPutState (m_Payload msg)) as [[[key v] col]|e]; [|done].
    case_bool_decide; case_decide; done.
  - destruct (UnmarshalDelState (m_Payload msg)) as [[key col]|e]; [|done].
    case_bool_decide; case_decide; done.
Qed.

Lemma loop_cons r rest st log :
  loop (r :: rest) st log =
    match rv_ctx r, rv_got r with
    | None, Ok (Some msg) =>
        if is_terminal msg then
          (Some (if decide (m_Type msg = COMPLETED) then completedResult msg st
                 else Ok (errorResult msg st)), st, log)
        else if decide (m_Type msg = KEEPALIVE) then loop rest st log
        else let '(st', (log', e)) := handled msg (rv_get r) st log in
             match e with
             | Some e => (Some (Err e), st', log')
             | None => loop rest st' log'
             end
    | _, _ => loop [r] st log
    end.
Proof.
  cbn [loop]. destruct (rv_ctx r); [done|]. destruct (rv_got r) as [[msg|]|e]; [|done..].
  unfold is_terminal, handled. by destruct (m_Type msg).
Qed.

Lemma loop_exact rs st log out st' log' :
  loop rs st log = (out, st', log') →
  ∃ n, (n ≤ length rs)%nat ∧ Forall goes_on (take n rs) ∧
    (st', log') = foldl serve (st, log) (requests (take n rs)) ∧
    match out with
    | None => n = length rs
    | Some res => (∃ r, rs !! n = Some r ∧ ends r st' res) ∨
        ∃ l m e, log' = l ++ [IoSend m] ∧ ans_send io l m = Some e ∧ res = Err e
    end.
Proof.
  revert st log. induction rs as [|r rest IH]; intros st log.
  { intros [= <- <- <-]. exists 0%nat. split_and!; try done; apply Forall_nil_2. }
  assert (Hstop : ∀ res, ends r st res → (Some res, st, log) = (out, st', log') →
    ∃ n, (n ≤ length (r :: rest))%nat ∧ Forall goes_on (take n (r :: rest)) ∧
      (st', log') = foldl serve (st, log) (requests (take n (r :: rest))) ∧
      match out with
      | None => n = length (r :: rest)
      | Some res => (∃ r0, (r :: rest) !! n = Some r0 ∧ ends r0 st' res) ∨
          ∃ l m e, log' = l ++ [IoSend m] ∧ ans_send io l m = Some e ∧ res = Err e
      end).
  { intros res He [= <- <- <-]. exists 0%nat. split_and!; [lia|apply Forall_nil_2|done|].
    left. by exists r. }
  rewrite loop_cons.
  destruct (rv_ctx r) as [e|] eqn:Hctx.
  { cbn [loop]. rewrite Hctx. apply Hstop. by left. }
  destruct (rv_got r) as [[msg|]|e] eqn:Hgot.
  2:{ cbn [loop]. rewrite Hctx, Hgot. apply Hstop. by right; left. }
  2:{ cbn [loop]. rewrite Hctx, Hgot. destruct (rv_ctx_err r), (errors_Is e io_EOF);
      apply Hstop; right; right; left; eauto. }
  destruct (is_terminal msg) eqn:Hterm.
  { apply Hstop. unfold is_terminal in Hterm. case_decide as Hc.
    - unfold completedResult. destruct (UnmarshalResponse (m_Payload msg)) as [rsp|e] eqn:Hu; simpl.
      + split; [done|]. exists msg. split_and!; try done. left. split; [done|]. by exists rsp.
      + right. right. right. exists msg. by rewrite Hu.
    - apply orb_true_iff in Hterm as [Ht|Ht]; bool_props; [done|]. simpl.
      split; [done|]. exists msg. split_and!; try done. by right. }
  assert (Hgo : goes_on r) by (split; [done|]; by exists msg).
  case_decide as Hk.
  { intros Hl. apply IH in Hl as (n & Hn & Hall & Hfold & Hout). exists (Datatypes.S n).
    assert (Hreq : ∀ l, requests (r :: l) = requests l).
    { intros l. unfold requests. simpl. rewrite Hgot. by rewrite decide_True. }
    rewrite firstn_cons, Hreq.
    split_and!; [simpl; lia|by constructor|done|]. destruct out; [done|simpl; lia]. }
  rewrite (handled_serve msg (rv_get r) st log Hterm Hk).
  assert (Hreq : ∀ l, requests (r :: l) = (rv_get r, msg) :: requests l).
  { intros l. unfold requests. simpl. rewrite Hgot. by rewrite decide_False. }
  destruct (serve (st, log) (rv_get r, msg)) as [st1 log1] eqn:Hserve. simpl.
  destruct (ans_send io log _) as [e|] eqn:Hsend.
  - intros [= <- <- <-]. exists 1%nat. rewrite firstn_cons, take_0, Hreq. cbn [foldl]. rewrite Hserve.
    split_and!; [simpl; lia|by apply Forall_singleton|done|]. right.
    exists log, (reply msg (perform (rv_get r) (request_of msg) st).2), e.
    split_and!; try done. unfold serve in Hserve. simpl in Hserve.
    destruct (perform (rv_get r) (request_of msg) st). by injection Hserve as _ <-.
  - intros Hl. apply IH in Hl as (n & Hn & Hall & Hfold & Hout). exists (Datatypes.S n).
    rewrite firstn_cons, Hreq. cbn [foldl]. rewrite Hserve.
    split_and!; [simpl; lia|by constructor|done|]. destruct out; [done|simpl; lia].
Qed.

(** The first message other than KEEPALIVE registers a named chaincode. *)
Definition registered (rs : list recv) : Prop :=
  ∃ k r msg name,
    Forall (λ r, ∃ m, rv_got r = Ok (Some m) ∧ m_Type m = KEEPALIVE) (take k rs) ∧
    rs !! k = Some r ∧ rv_got r = Ok (Some msg) ∧ m_Type msg = REGISTER ∧
    UnmarshalChaincodeID (m_Payload msg) = Ok name ∧ name ≠ "".

Lemma receiveRegister_ok rs ccid rest :
  receiveRegister rs = Some (Ok ccid, rest) → registered rs.
Proof.
  induction rs as [|r rs IH]; simpl; [done|].
  destruct (rv_got r) as [[msg|]|e] eqn:Hgot; [|done|by case_match].
  case_bool_decide as Hk.
  { intros H. apply IH in H as (k & r' & m & name & Hall & Hr). exists (Datatypes.S k), r', m, name.
    split; [|done]. simpl. constructor; [by exists msg|done]. }
  case_bool_decide as Hreg; [|done]. simpl.
  destruct (UnmarshalChaincodeID (m_Payload msg)) as [name|e] eqn:Hu; [|done].
  case_bool_decide as Hn; [done|]. intros [= <- <-].
  exists 0%nat, r, msg, name. split_and!; try done; apply Forall_nil_2.
Qed.

Definition is_reply (m : OutMsg) : Prop := o_Type m = RESPONSE ∨ o_Type m = ERROR.

Lemma serve_log qs st log :
  ∃ ms, (foldl serve (st, log) qs).2 = log ++ (IoSend <$> ms) ∧ Forall is_reply ms.
Proof.
  revert st log. induction qs as [|q qs IH]; intros st log.
  { exists []. by rewrite app_nil_r. }
  cbn [foldl]. unfold serve at 2. cbn [fst snd].
  destruct (perform q.1 (request_of q.2) st) as [st1 r]. cbn [fst snd].
  destruct (IH st1 (log ++ [IoSend (reply q.2 r)])) as (ms & -> & Hms).
  exists (reply q.2 r :: ms). split; [by rewrite <- app_assoc|]. constructor; [|done].
  destruct r; [by left|by right].
Qed.

Lemma handler_log inv rs st log out st' log' :
  handler_Execute inv rs st log = (out, st', log') →
  (st' = st ∧ log' = log ∧ out ≠ None) ∨
  ∃ tx ms, o_Type tx = (if i_IsInit inv then INIT else TRANSACTION) ∧ Forall is_reply ms ∧
    log' = log ++ IoSend tx :: (IoSend <$> ms).
Proof.
  unfold handler_Execute, sendTransaction.
  destruct (MarshalChaincodeInput _ _ _) as [payload|e]; [|intros [= <- <- <-]; by left].
  destruct (signedProposal inv) as [proposal|e]; [|intros [= <- <- <-]; by left].
  set (tx := mkOut (if i_IsInit inv then INIT else TRANSACTION) (Data payload)
    (i_TxID inv) (i_ChannelID inv) proposal).
  unfold send. destruct (ans_send io log tx) as [e|].
  - intros [= <- <- <-]. right. exists tx, []. by split_and!; [|apply Forall_nil_2|].
  - simpl. intros Hl. apply loop_exact in Hl as (n & _ & _ & Hfold & _). right.
    destruct (serve_log (requests (take n rs)) st (log ++ [IoSend tx])) as (ms & Hlog & Hms).
    rewrite <- Hfold in Hlog. simpl in Hlog. exists tx, ms.
    split_and!; [done|done|]. by rewrite Hlog, <- app_assoc.
Qed.

End Handler.

(** ** The execution context behind the protocol *)

Definition op_of {SP : ShimProto} (q : GetCtx * ChaincodeMessage) : option Exec.op :=
  match request_of q.2 with
  | ReqGet key => Some (Exec.OpGet (g_ctx q.1) (g_begin q.1) (g_remaining q.1) key)
  | ReqPut key value => Some (Exec.OpPut key value)
  | ReqDel key => Some (Exec.OpDel key)
  | ReqNone _ => None
  end.

Lemma serve_run {SP : ShimProto} en (qs : list (GetCtx * ChaincodeMessage)) s log :
  (foldl (serve (SS := ExecutionContext_State en)) (s, log) qs).1 = Exec.run en (omap op_of qs) s.
Proof.
  revert s log. induction qs as [|q qs IH]; intros s log; [done|]. cbn [foldl].
  unfold serve at 2. cbn [fst snd]. cbn [omap list_omap]. unfold op_of at 1. destruct s as [c h].
  assert (Hcons : ∀ o l s0, Exec.run en (o :: l) s0 = Exec.run en l (Exec.step en o s0)) by done.
  destruct (request_of q.2) as [key|key value|key|e]; try apply IH.
  rewrite Hcons. cbn [perform Exec.step fst snd st_GetState ExecutionContext_State].
  destruct (Exec.GetState _ _ _ _ _ _ _) as [[c1 h1] r] eqn:HG. cbn [fst snd]. apply IH.
Qed.

(** A coding in which a payload is the key, the written value and the response's message. *)
Definition example_proto : ShimProto := {|
  UnmarshalGetState b := Ok (b, "");
  UnmarshalPutState b := Ok (b, b, "");
  UnmarshalDelState b := Ok (b, "");
  UnmarshalResponse b := Ok (mkResponse 200 b b);
  UnmarshalChaincodeID b := Ok b;
  MarshalChaincodeInput _ _ _ := Ok "input";
  CreateChaincodeProposal _ _ _ _ _ _ _ _ := Ok (mkProposal "h" "p" "");
  MarshalProposal p := Ok (pp_Payload p) |}.

Definition ex_io : ioenv := mkIo None None (λ _ _, None) (λ _, None).

Definition ex_inv : Invocation := mkInvocation "t1" "ch" "ns" ["put"] "alice" "n1" None ∅ true.

Definition ex_recv (t : msgtype) (payload : bytes) : recv :=
  mkRecv None (Ok (Some (mkMsg t payload "t1" "ch" None))) None (mkGetCtx None None None).

Definition ex_stream : list recv :=
  [ex_recv GET_STATE "k"; ex_recv KEEPALIVE ""; ex_recv PUT_STATE "k"; ex_recv DEL_STATE "j";
   ex_recv COMPLETED "done"].

Definition ex_state : Exec.ExecutionContext * list Exec.call :=
  (Exec.NewExecutionContext true "ns", []).

(** ** Properties *)

(** The handler first sends one INIT or TRANSACTION message, by the invocation's init
    intent; then every state request of the stream is performed exactly once, in order,
    and answered with its own transaction and channel, up to the message that ends the
    execution; that message alone decides the result. *)
Theorem handler_serves_in_order {S : Type} {SS : ShimState S} {SP : ShimProto} io inv rs (st : S) log
    out st' log' :
  handler_Execute io inv rs st log = (out, st', log') →
  (st' = st ∧ (log' = log ∨ ∃ m, log' = log ++ [IoSend m]) ∧ ∃ e, out = Some (Err e)) ∨
  ∃ tx n, o_Type tx = (if i_IsInit inv then INIT else TRANSACTION) ∧ o_Txid tx = i_TxID inv ∧
    (i_SignedProposal inv ≠ None → o_Proposal tx = i_SignedProposal inv) ∧
    (n ≤ length rs)%nat ∧ Forall goes_on (take n rs) ∧
    (st', log') = foldl serve (st, log ++ [IoSend tx]) (requests (take n rs)) ∧
    match out with
    | None => n = length rs
    | Some res => (∃ r, rs !! n = Some r ∧ ends r st' res) ∨
        ∃ l m e, log' = l ++ [IoSend m] ∧ ans_send io l m = Some e ∧ res = Err e
    end.
Proof.
  unfold handler_Execute, sendTransaction.
  destruct (MarshalChaincodeInput _ _ _) as [payload|e]; [|intros [= <- <- <-]; left; eauto].
  destruct (signedProposal inv) as [proposal|e] eqn:Hsp; [|intros [= <- <- <-]; left; eauto].
  unfold send. destruct (ans_send io log _) as [e|]; [intros [= <- <- <-]; left; eauto 6|].
  simpl. intros Hl. apply loop_exact in Hl as (n & Hn & Hall & Hfold & Hout). right.
  do 2 eexists. split_and!; [..|exact Hn|exact Hall|exact Hfold|exact Hout]; try done.
  simpl. unfold signedProposal in Hsp. destruct (i_SignedProposal inv); [|done].
  by injection Hsp as <-.
Qed.

Lemma handler_serves_in_order_witness :
  ∃ st' log', handler_Execute (SP := example_proto) (SS := ExecutionContext_State Exec.ex_env)
      ex_io ex_inv ex_stream ex_state [] =
      (Some (Ok (mkShimResult 200 "done" "done" "" "" (Some (Exec.mkView "v1")))), st', log') ∧
    length log' = 4%nat ∧
    ∃ tx n, o_Type tx = INIT ∧
      (st', log') = foldl (serve (SP := example_proto) (SS := ExecutionContext_State Exec.ex_env))
        (ex_state, [] ++ [IoSend tx]) (requests (take n ex_stream)).
Proof.
  do 2 eexists. split; [vm_compute; reflexivity|]. split; [reflexivity|].
  match goal with |- ∃ tx n, _ ∧ (?st', ?log') = _ =>
    destruct (handler_serves_in_order (SP := example_proto)
      (SS := ExecutionContext_State Exec.ex_env) ex_io ex_inv ex_stream ex_state [] (Some (Ok
        (mkShimResult 200 "done" "done" "" "" (Some (Exec.mkView "v1"))))) st' log')
      as [(_ & _ & e & He)|(tx & n & Ht & _ & _ & _ & _ & Hf & _)]
  end; [vm_compute; reflexivity|discriminate He|].
  exists tx, n. split; [exact Ht|exact Hf].
Defined.

(** Behind the protocol, a chaincode execution acts on its execution context exactly as
    the reads, writes and deletes it asked for, in order: the pending writes are the last
    write or delete of each key it requested before the execution ended. *)
Theorem chaincode_writes_exact {SP : ShimProto} io en inv rs rd ns log out c' h' log' :
  handler_Execute (SS := ExecutionContext_State en) io inv rs
    (Exec.NewExecutionContext rd ns, []) log = (out, (c', h'), log') →
  ∃ n, Forall goes_on (take n rs) ∧
    (c', h') = Exec.run en (omap op_of (requests (take n rs))) (Exec.NewExecutionContext rd ns, []) ∧
    ∀ key w, (key, w) ∈ Exec.Writes (Exec.Result c') ↔
      Exec.last_write key (omap op_of (requests (take n rs))) None = Some w.
Proof.
  unfold handler_Execute. destruct (sendTransaction io inv log) as [log1 [e|]].
  { intros [= <- <- <- <-]. exists 0%nat. split_and!; [apply Forall_nil_2|done|].
    intros key w. simpl. by rewrite elem_of_map_to_list, lookup_empty. }
  intros Hl. apply loop_exact in Hl as (n & _ & Hall & Hfold & _). exists n.
  assert (Hrun : (c', h') = Exec.run en (omap op_of (requests (take n rs)))
    (Exec.NewExecutionContext rd ns, [])).
  { rewrite <- (serve_run en _ _ log1). by rewrite <- Hfold. }
  split_and!; [done..|]. intros key w. simpl. rewrite elem_of_map_to_list.
  pose proof (Exec.run_ok en (omap op_of (requests (take n rs))) (Exec.NewExecutionContext rd ns) []
    (λ _ _ _, Exec.mkVersioned "" None) (Exec.fresh_ok rd ns None)) as Hok.
  rewrite <- Hrun in Hok. destruct Hok as (_ & _ & _ & Hw). rewrite Hw. simpl.
  by rewrite lookup_empty.
Qed.

Lemma chaincode_writes_exact_witness :
  ∃ c' h' log', handler_Execute (SP := example_proto) (SS := ExecutionContext_State Exec.ex_env)
      ex_io ex_inv ex_stream (Exec.NewExecutionContext true "ns", []) [] =
      (Some (Ok (mkShimResult 200 "done" "done" "" "" (Some (Exec.mkView "v1")))), (c', h'), log') ∧
    Exec.writes c' = {["k" := Some "k"; "j" := None]} ∧
    ∃ n, (c', h') = Exec.run Exec.ex_env (omap (op_of (SP := example_proto))
      (requests (take n ex_stream))) (Exec.NewExecutionContext true "ns", []).
Proof.
  do 3 eexists. split; [vm_compute; reflexivity|]. split; [vm_compute; reflexivity|].
  edestruct (chaincode_writes_exact (SP := example_proto) ex_io Exec.ex_env ex_inv
      ex_stream true "ns" []
      (Some (Ok (mkShimResult 200 "done" "done" "" "" (Some (Exec.mkView "v1"))))))
    as (n & _ & Hrun & _); [vm_compute; reflexivity|]. exists n. exact Hrun.
Defined.

(** The connector sends the chaincode nothing but REGISTERED and READY, and touches no
    state, unless a chaincode with a name registered first; then it sends exactly one
    INIT or TRANSACTION, and after it only answers.  A call that returns closes the
    connection it opened, last. *)
Theorem connector_protocol {S : Type} {SS : ShimState S} {SP : ShimProto} io ctx deadline inv rs
    (st : S) out st' log' :
  Execute io ctx deadline inv rs (Some st) = (out, st', log') →
  (st' = Some st ∧ (∀ m, IoSend m ∈ log' → o_Type m = REGISTERED ∨ o_Type m = READY) ∧
   (out ≠ None → IoConnect ∈ log' → last log' = Some IoClose)) ∨
  (registered rs ∧ ∃ tx ms, o_Type tx = (if i_IsInit inv then INIT else TRANSACTION) ∧
     Forall is_reply ms ∧
     log' = IoDial (if deadline then None else Some defaultConnectTimeout) :: IoConnect ::
       IoSend (mkOut REGISTERED (Data "") "" "" None) :: IoSend (mkOut READY (Data "") "" "" None) ::
       IoSend tx :: (IoSend <$> ms) ++ (if out then [IoCloseSend; IoClose] else [])).
Proof.
  unfold Execute. destruct ctx as [e|].
  { intros [= <- <- <-]. left. split_and!; [done| |]; intros; set_solver. }
  unfold openStream. destruct (ans_dial io) as [e|].
  { intros [= <- <- <-]. left. split_and!; [done| |]; intros; set_solver. }
  destruct (ans_connect io) as [e|].
  { intros [= <- <- <-]. left. split_and!; [done| |done]. intros; set_solver. }
  unfold execute_stream, send.
  destruct (receiveRegister rs) as [[[ccid|e] rest]|] eqn:Hreg; simpl.
  2:{ intros [= <- <- <-]. left. split_and!; [done| |done]. intros; set_solver. }
  2:{ intros [= <- <- <-]. left. split_and!; [done| |done]. intros; set_solver. }
  apply receiveRegister_ok in Hreg.
  destruct (ans_send io _ _) as [e|].
  { intros [= <- <- <-]. left. split_and!; [done| |done]. intros; set_solver. }
  destruct (ans_send io _ _) as [e|].
  { intros [= <- <- <-]. left. split_and!; [done| |done]. intros; set_solver. }
  destruct (handler_Execute io inv rest st _) as [[o s'] log1] eqn:Hh.
  apply handler_log in Hh as [(-> & -> & Ho)|(tx & ms & Htx & Hms & ->)].
  - destruct o as [[res|e]|]; [destruct (ans_closeSend io _)| |]; intros [= <- <- <-]; try done;
      left; (split_and!; [done| |done]); intros; set_solver.
  - intros Hout. right. split; [done|]. exists tx, ms. split_and!; [done..|].
    destruct o as [[res|e]|]; [destruct (ans_closeSend io _)| |]; simpl in Hout;
      injection Hout as <- _ <-; simpl; by rewrite ?app_nil_r, <- ?app_assoc.
Qed.

Lemma connector_protocol_witness :
  ∃ st' log', Execute (SP := example_proto) (SS := ExecutionContext_State Exec.ex_env)
      ex_io None true ex_inv (ex_recv KEEPALIVE "" :: ex_recv REGISTER "cc" :: ex_stream)
      (Some ex_state) =
      (Some (Ok (mkShimResult 200 "done" "done" "" "" (Some (Exec.mkView "v1")))), st', log') ∧
    registered (SP := example_proto) (ex_recv KEEPALIVE "" :: ex_recv REGISTER "cc" :: ex_stream) ∧
    length log' = 10%nat.
Proof.
  do 2 eexists. split; [vm_compute; reflexivity|]. split; [|reflexivity].
  edestruct (connector_protocol (SP := example_proto) (SS := ExecutionContext_State Exec.ex_env)
      ex_io None true ex_inv (ex_recv KEEPALIVE "" :: ex_recv REGISTER "cc" :: ex_stream) ex_state)
    as [(Hst & _)|(Hr & _)]; [vm_compute; reflexivity|discriminate Hst|exact Hr].
Defined.

End Shim.
