(* ===== verification/GoStrings.v ===== *)
(** What the program uses of [strconv], [strings] and [net/url]: decimal numbers,
    [TrimSpace] on ASCII text and [PathEscape]. *)
From Stdlib Require Import ZArith Lia Ascii.
From stdpp Require Import base option list strings.
From S2P Require Import Prelude.
Local Open Scope Z_scope.

Module GoStrings.

Definition byte_of (a : ascii) : Z := Z.of_N (N_of_ascii a).
Definition byte_at (z : Z) : ascii := ascii_of_N (Z.to_N z).

(** ** Decimal numbers *)

Definition digit (z : Z) : ascii := byte_at (z + 48).

Definition digit_val (a : ascii) : option Z :=
  let c := byte_of a in if (48 <=? c) && (c <=? 57) then Some (c - 48) else None.

Fixpoint parse_digits (s : string) (acc : Z) : option Z :=
  match s with
  | EmptyString => Some acc
  | String a r => d ← digit_val a; parse_digits r (acc * 10 + d)
  end.

Definition ErrSyntax : goerr := ENew "invalid syntax".
Definition ErrRange : goerr := ENew "value out of range".

(** [strconv.ParseUint(s, 10, 64)]. *)
Definition ParseUint (s : string) : result Z :=
  if decide (s = "") then Err ErrSyntax
  else match parse_digits s 0 with
       | None => Err ErrSyntax
       | Some z => if z <? 2 ^ 64 then Ok z else Err ErrRange
       end.

(** [strconv.ParseInt(s, 10, 64)]. *)
Definition ParseInt (s : string) : result Z :=
  let unsigned (r : string) (neg : bool) :=
    if decide (r = "") then Err ErrSyntax
    else match parse_digits r 0 with
         | None => Err ErrSyntax
         | Some z =>
             if neg then if z <=? 2 ^ 63 then Ok (- z) else Err ErrRange
             else if z <? 2 ^ 63 then Ok z else Err ErrRange
         end in
  match s with
  | String a r =>
      if decide (a = "-"%char) then unsigned r true
      else if decide (a = "+"%char) then unsigned r false else unsigned s false
  | EmptyString => Err ErrSyntax
  end.

(** [n] decimal digits of [z], leading zeros kept. *)
Fixpoint fixed_digits (n : nat) (z : Z) : string :=
  match n with
  | O => ""
  | S n => fixed_digits n (z / 10) +:+ String (digit (z mod 10)) ""
  end.

(** [fmt.Sprintf("%020d", z)] for a uint64. *)
Definition Sprintf020d (z : Z) : string := fixed_digits 20 z.

Fixpoint format_digits (n : nat) (z : Z) : string :=
  match n with
  | O => ""
  | S n => if z <? 10 then String (digit z) ""
           else format_digits n (z / 10) +:+ String (digit (z mod 10)) ""
  end.

(** [strconv.FormatUint(z, 10)]; a uint64 has at most twenty digits. *)
Definition FormatUint (z : Z) : string := format_digits 20 z.

(** [strconv.FormatInt(z, 10)]. *)
Definition FormatInt (z : Z) : string :=
  if z <? 0 then String "-" (format_digits 20 (- z)) else format_digits 20 z.

(** ** [url.PathEscape] *)

Definition hex (z : Z) : ascii := byte_at (if z <? 10 then z + 48 else z + 55).

(** [shouldEscape] for a path segment. *)
Definition should_escape (a : ascii) : bool :=
  let c := byte_of a in
  negb (((97 <=? c) && (c <=? 122)) || ((65 <=? c) && (c <=? 90)) || ((48 <=? c) && (c <=? 57)) ||
        existsb (Ascii.eqb a) (String.list_ascii_of_string "-_.~$&+:=@")).

Fixpoint PathEscape (s : string) : string :=
  match s with
  | EmptyString => ""
  | String a r =>
      if should_escape a
      then String "%" (String (hex (byte_of a / 16)) (String (hex (byte_of a mod 16)) (PathEscape r)))
      else String a (PathEscape r)
  end.

(** ** [strings.TrimSpace] *)

Definition is_space (a : ascii) : bool :=
  let c := byte_of a in ((9 <=? c) && (c <=? 13)) || (c =? 32).

Fixpoint trim_left (s : string) : string :=
  match s with
  | EmptyString => ""
  | String a r => if is_space a then trim_left r else s
  end.

Fixpoint trim_right (s : string) : string :=
  match s with
  | EmptyString => ""
  | String a r =>
      match trim_right r with
      | EmptyString => if is_space a then "" else String a ""
      | t => String a t
      end
  end.

(** White space outside ASCII is not removed here. *)
Definition TrimSpace (s : string) : string := trim_right (trim_left s).

(** ** Lemmas *)

Lemma byte_of_range a : 0 <= byte_of a < 256.
Proof. unfold byte_of. pose proof (N_ascii_bounded a). lia. Qed.

Lemma byte_of_at z : 0 <= z < 256 → byte_of (byte_at z) = z.
Proof. intros. unfold byte_of, byte_at. rewrite N_ascii_embedding; lia. Qed.

Lemma byte_of_inj a b : byte_of a = byte_of b → a = b.
Proof.
  intros H. rewrite <- (ascii_N_embedding a), <- (ascii_N_embedding b). f_equal.
  unfold byte_of in H. lia.
Qed.

Lemma digit_val_digit z : 0 <= z < 10 → digit_val (digit z) = Some z.
Proof.
  intros H. unfold digit_val, digit. rewrite byte_of_at by lia.
  replace (48 <=? z + 48) with true by lia. replace (z + 48 <=? 57) with true by lia.
  simpl. f_equal. lia.
Qed.

Lemma parse_digits_snoc s a acc :
  parse_digits (s +:+ String a "") acc =
    (acc' ← parse_digits s acc; d ← digit_val a; Some (acc' * 10 + d)).
Proof.
  revert acc. induction s as [|b s IH]; intros acc; simpl; [by destruct (digit_val a)|].
  destruct (digit_val b); simpl; [apply IH|done].
Qed.

Lemma parse_fixed_digits n z : 0 <= z < 10 ^ Z.of_nat n → parse_digits (fixed_digits n z) 0 = Some z.
Proof.
  revert z. induction n as [|n IH]; intros z Hz.
  { simpl in *. f_equal. lia. }
  assert (Hn : 10 ^ Z.of_nat (S n) = 10 * 10 ^ Z.of_nat n).
  { rewrite Nat2Z.inj_succ, Z.pow_succ_r; lia. }
  cbn [fixed_digits]. rewrite parse_digits_snoc, IH by (Z.to_euclidean_division_equations; lia).
  cbn [mbind option_bind]. rewrite digit_val_digit by (apply Z.mod_pos_bound; lia).
  cbn [mbind option_bind]. f_equal. Z.to_euclidean_division_equations; lia.
Qed.

Lemma parse_format_digits n z :
  0 <= z < 10 ^ Z.of_nat n → (0 < n)%nat →
  parse_digits (format_digits n z) 0 = Some z ∧ format_digits n z ≠ "".
Proof.
  revert z. induction n as [|n IH]; intros z Hz Hpos; [lia|].
  assert (Hn : 10 ^ Z.of_nat (S n) = 10 * 10 ^ Z.of_nat n).
  { rewrite Nat2Z.inj_succ, Z.pow_succ_r; lia. }
  cbn [format_digits]. destruct (Z.ltb_spec z 10) as [Hlt|Hge].
  { split; [|done]. simpl. rewrite digit_val_digit by lia. done. }
  assert (Hn0 : (0 < n)%nat) by (destruct n; [simpl in Hz; lia|lia]).
  destruct (IH (z / 10)) as [Hp _]; [Z.to_euclidean_division_equations; lia|done|].
  split; [|by destruct (format_digits n (z / 10))].
  rewrite parse_digits_snoc, Hp. cbn [mbind option_bind].
  rewrite digit_val_digit by (apply Z.mod_pos_bound; lia).
  cbn [mbind option_bind]. f_equal. Z.to_euclidean_division_equations; lia.
Qed.

Lemma ParseUint_FormatUint z : is_uint64 z → ParseUint (FormatUint z) = Ok z.
Proof.
  intros Hz. unfold is_uint64 in Hz.
  destruct (parse_format_digits 20 z) as [Hp Hne]; [|lia|].
  { split; [lia|]. transitivity (2 ^ 64); [lia|]. by vm_compute. }
  unfold ParseUint, FormatUint. rewrite decide_False by done. rewrite Hp.
  by replace (z <? 2 ^ 64) with true by lia.
Qed.

Lemma Sprintf020d_inj z1 z2 :
  is_uint64 z1 → is_uint64 z2 → Sprintf020d z1 = Sprintf020d z2 → z1 = z2.
Proof.
  intros H1 H2 He. assert (Hb : 2 ^ 64 < 10 ^ Z.of_nat 20) by (by vm_compute).
  assert (Some z1 = Some z2) as [= ->]; [|done].
  rewrite <- (parse_fixed_digits 20 z1), <- (parse_fixed_digits 20 z2);
    [|unfold is_uint64 in *; lia..]. unfold Sprintf020d in He. by rewrite He.
Qed.

Lemma hex_inj x y : 0 <= x < 16 → 0 <= y < 16 → hex x = hex y → x = y.
Proof.
  intros Hx Hy He. apply (f_equal byte_of) in He. unfold hex in He.
  rewrite !byte_of_at in He by (destruct (Z.ltb_spec x 10), (Z.ltb_spec y 10); lia).
  destruct (Z.ltb_spec x 10), (Z.ltb_spec y 10); lia.
Qed.

Lemma escape_percent : should_escape "%"%char = true.
Proof. reflexivity. Qed.

Lemma PathEscape_inj s1 s2 : PathEscape s1 = PathEscape s2 → s1 = s2.
Proof.
  revert s2. induction s1 as [|a s1 IH]; intros [|b s2]; cbn [PathEscape]; [done| | |].
  - by destruct (should_escape b).
  - by destruct (should_escape a).
  - destruct (should_escape a) eqn:Ea, (should_escape b) eqn:Eb.
    + intros [= H1 H2 H3]. f_equal; [|by apply IH]. apply byte_of_inj.
      apply hex_inj in H1, H2;
        try (pose proof (byte_of_range a); pose proof (byte_of_range b);
             Z.to_euclidean_division_equations; lia).
    + intros [= <- _]. by rewrite escape_percent in Eb.
    + intros [= -> _]. by rewrite escape_percent in Ea.
    + intros [= -> H]. f_equal. by apply IH.
Qed.

Lemma unescaped_ascii a : should_escape a = false → byte_of a < 128.
Proof. destruct a as [[] [] [] [] [] [] [] []]; vm_compute; done. Qed.

(** Every character of an escaped segment is ASCII. *)
Lemma PathEscape_ascii s :
  forallb (λ a, byte_of a <? 128) (String.list_ascii_of_string (PathEscape s)) = true.
Proof.
  induction s as [|a s IH]; [done|]. cbn [PathEscape]. pose proof (byte_of_range a).
  assert (Hhex : ∀ z, 0 <= z < 16 → byte_of (hex z) <? 128 = true).
  { intros z Hz. apply Z.ltb_lt. unfold hex. destruct (Z.ltb_spec z 10); rewrite byte_of_at; lia. }
  destruct (should_escape a) eqn:Ea; cbn [String.list_ascii_of_string forallb]; rewrite IH.
  - rewrite !Hhex by (Z.to_euclidean_division_equations; lia). done.
  - rewrite andb_true_r. apply Z.ltb_lt. by apply unescaped_ascii.
Qed.

Lemma ascii_app (s1 s2 : string) :
  forallb (λ a, byte_of a <? 128) (String.list_ascii_of_string s1) = true →
  forallb (λ a, byte_of a <? 128) (String.list_ascii_of_string s2) = true →
  forallb (λ a, byte_of a <? 128) (String.list_ascii_of_string (s1 +:+ s2)) = true.
Proof.
  intros H1 H2. induction s1 as [|a s1 IH]; [done|].
  change (String a s1 +:+ s2) with (String a (s1 +:+ s2)).
  cbn [String.list_ascii_of_string forallb] in *.
  apply andb_true_iff in H1 as [-> H1]. by rewrite IH.
Qed.

Lemma str_length_app (a b : string) :
  String.length (a +:+ b) = (String.length a + String.length b)%nat.
Proof.
  induction a as [|x a IH]; [done|].
  change (S (String.length (a +:+ b)) = S (String.length a + String.length b))%nat. by rewrite IH.
Qed.

(** An escaped segment has no separator. *)
Fixpoint has_char (c : ascii) (s : string) : bool :=
  match s with EmptyString => false | String a r => Ascii.eqb a c || has_char c r end.

Lemma hex_not_slash z : 0 <= z < 16 → Ascii.eqb (hex z) "/" = false.
Proof.
  intros Hz. apply Ascii.eqb_neq. intros He. apply (f_equal byte_of) in He. unfold hex in He.
  rewrite byte_of_at in He by (destruct (Z.ltb_spec z 10); lia).
  change (byte_of "/") with 47 in He. destruct (Z.ltb_spec z 10); lia.
Qed.

Lemma PathEscape_no_slash s : has_char "/" (PathEscape s) = false.
Proof.
  induction s as [|a s IH]; [done|]. cbn [PathEscape]. destruct (should_escape a) eqn:Ea.
  - cbn [has_char]. pose proof (byte_of_range a).
    rewrite !hex_not_slash by (Z.to_euclidean_division_equations; lia). by rewrite IH.
  - cbn [has_char]. rewrite IH, orb_false_r. apply Ascii.eqb_neq. intros ->. discriminate Ea.
Qed.

(** A separator splits a text in one way when the first part has none. *)
Lemma split_at_char c x1 x2 y1 y2 :
  has_char c x1 = false → has_char c x2 = false →
  x1 +:+ String c y1 = x2 +:+ String c y2 → x1 = x2 ∧ y1 = y2.
Proof.
  revert x2. induction x1 as [|a x1 IH]; intros [|b x2]; simpl; intros H1 H2 He.
  - by injection He as <-.
  - injection He as <- _. by rewrite Ascii.eqb_refl in H2.
  - injection He as -> _. by rewrite Ascii.eqb_refl in H1.
  - injection He as <- He. apply orb_false_iff in H1 as [_ H1], H2 as [_ H2].
    destruct (IH x2 H1 H2 He) as [-> ->]. done.
Qed.

(** ** [net.JoinHostPort] and [net.SplitHostPort] *)

(** The text before and after the first [c]. *)
Fixpoint cut_first (c : ascii) (s : string) : option (string * string) :=
  match s with
  | EmptyString => None
  | String a r => if Ascii.eqb a c then Some ("", r) else (λ p, (String a p.1, p.2)) <$> cut_first c r
  end.

(** The text before and after the last [c]. *)
Fixpoint cut_last (c : ascii) (s : string) : option (string * string) :=
  match s with
  | EmptyString => None
  | String a r =>
      match cut_last c r with
      | Some p => Some (String a p.1, p.2)
      | None => if Ascii.eqb a c then Some ("", r) else None
      end
  end.

Definition JoinHostPort (host port : string) : string :=
  if has_char ":" host then "[" +:+ host +:+ "]:" +:+ port else host +:+ ":" +:+ port.

Definition AddrError {A} (why : string) : result A := Err (ENew why).

Definition SplitHostPort (hostport : string) : result (string * string) :=
  match cut_last ":" hostport with
  | None => AddrError "missing port in address"
  | Some (before, port) =>
      match hostport with
      | String "[" inner =>
          match cut_first "]" inner with
          | None => AddrError "missing ']' in address"
          | Some (host, rest) =>
              if bool_decide (rest = "") then AddrError "missing port in address"
              else if negb (bool_decide (before = "[" +:+ host +:+ "]")) then
                match rest with
                | String ":" _ => AddrError "too many colons in address"
                | _ => AddrError "missing port in address"
                end
              else if has_char "[" inner then AddrError "unexpected '[' in address"
              else if has_char "]" rest then AddrError "unexpected ']' in address"
              else Ok (host, port)
          end
      | _ =>
          if has_char ":" before then AddrError "too many colons in address"
          else if has_char "[" hostport then AddrError "unexpected '[' in address"
          else if has_char "]" hostport then AddrError "unexpected ']' in address"
          else Ok (before, port)
      end
  end.

Lemma has_char_app c s t : has_char c (s +:+ t) = has_char c s || has_char c t.
Proof. induction s as [|a s IH]; [done|]. simpl. rewrite <- orb_assoc. by f_equal. Qed.

Lemma cut_first_app c s t : has_char c s = false → cut_first c (s +:+ String c t) = Some (s, t).
Proof.
  induction s as [|a s IH]; simpl; [by rewrite Ascii.eqb_refl|].
  intros [Ha Hs]%orb_false_iff. by rewrite Ha, IH.
Qed.

Lemma cut_last_none c s : has_char c s = false → cut_last c s = None.
Proof. induction s as [|a s IH]; [done|]. simpl. intros [Ha Hs]%orb_false_iff. by rewrite IH, Ha. Qed.

Lemma cut_last_app c s t : has_char c t = false → cut_last c (s +:+ String c t) = Some (s, t).
Proof.
  intros Ht. induction s as [|a s IH]; simpl; [by rewrite cut_last_none, Ascii.eqb_refl|].
  by rewrite IH.
Qed.

Lemma app_assoc_str (a b c : string) : a +:+ (b +:+ c) = (a +:+ b) +:+ c.
Proof.
  induction a as [|x a IH]; [done|].
  change (String x (a +:+ (b +:+ c)) = String x ((a +:+ b) +:+ c)). by rewrite IH.
Qed.

(** Splitting a joined address gives back a host without brackets. *)
Lemma SplitHostPort_JoinHostPort host port :
  has_char "[" host = false → has_char "]" host = false →
  has_char ":" port = false → has_char "[" port = false → has_char "]" port = false →
  SplitHostPort (JoinHostPort host port) = Ok (host, port).
Proof.
  intros Hh1 Hh2 Hp Hp1 Hp2. unfold JoinHostPort. destruct (has_char ":" host) eqn:Hc.
  - assert (Heq : "[" +:+ host +:+ "]:" +:+ port = ("[" +:+ host +:+ "]") +:+ String ":" port).
    { change ("]:" +:+ port) with ("]" +:+ String ":" port). by rewrite (app_assoc_str host). }
    unfold SplitHostPort. rewrite Heq, cut_last_app, <- Heq by done.
    change ("[" +:+ host +:+ "]:" +:+ port) with (String "[" (host +:+ String "]" (String ":" port))).
    cbv beta iota. rewrite cut_first_app by done.
    rewrite (bool_decide_eq_false_2 (String ":" port = "")) by done.
    rewrite bool_decide_eq_true_2 by done. cbn [negb]. rewrite has_char_app, Hh1. cbn [has_char orb].
    by rewrite Hp1, Hp2.
  - unfold SplitHostPort. change (host +:+ ":" +:+ port) with (host +:+ String ":" port).
    rewrite cut_last_app by done.
    assert (Hall : (if has_char ":" host then AddrError "too many colons in address"
      else if has_char "[" (host +:+ String ":" port) then AddrError "unexpected '[' in address"
      else if has_char "]" (host +:+ String ":" port) then AddrError "unexpected ']' in address"
      else Ok (host, port)) = Ok (host, port)).
    { rewrite Hc, !has_char_app, Hh1, Hh2. cbn [has_char orb]. by rewrite Hp1, Hp2. }
    destruct host as [|a host]; [exact Hall|]. cbn [has_char] in Hh1. apply orb_false_iff in Hh1 as [Ha _].
    cbn [String.append]. destruct (Ascii.eqb_spec a "["); [done|].
    destruct a as [[] [] [] [] [] [] [] []]; try exact Hall. done.
Qed.

(** A number has digits only. *)
Lemma parse_digits_chars c s acc z :
  digit_val c = None → parse_digits s acc = Some z → has_char c s = false.
Proof.
  intros Hc. revert acc. induction s as [|a s IH]; intros acc; [done|]. cbn [parse_digits has_char].
  destruct (digit_val a) as [d|] eqn:Hd; [|done]. intros H. rewrite (IH _ H), orb_false_r.
  apply Ascii.eqb_neq. congruence.
Qed.

Lemma format_digits_int64 z : 0 <= z <= 2 ^ 63 →
  parse_digits (format_digits 20 z) 0 = Some z ∧ format_digits 20 z ≠ "".
Proof.
  intros Hz. apply parse_format_digits; [|lia]. split; [lia|].
  apply Z.le_lt_trans with (2 ^ 63); [lia|]. by vm_compute.
Qed.

Lemma ParseInt_FormatInt z : is_int64 z → ParseInt (FormatInt z) = Ok z.
Proof.
  intros Hz. unfold is_int64 in Hz. unfold FormatInt. destruct (Z.ltb_spec z 0) as [Hneg|Hpos].
  - destruct (format_digits_int64 (- z)) as [Hp Hne]; [lia|]. cbn [ParseInt].
    rewrite decide_True by done. rewrite decide_False by done. rewrite Hp.
    replace (- z <=? 2 ^ 63) with true by lia. f_equal. lia.
  - destruct (format_digits_int64 z) as [Hp Hne]; [lia|].
    destruct (format_digits 20 z) as [|a r] eqn:Hf; [done|].
    assert (Ha : ∀ c, digit_val c = None → a ≠ c).
    { intros c Hc ->. pose proof (parse_digits_chars c _ _ _ Hc Hp) as Hno.
      cbn [has_char] in Hno. by rewrite Ascii.eqb_refl in Hno. }
    cbn [ParseInt]. rewrite !decide_False by (try by apply Ha; done). rewrite Hp.
    by replace (z <? 2 ^ 63) with true by lia.
Qed.

Lemma FormatInt_chars c z :
  is_int64 z → digit_val c = None → c ≠ "-"%char → has_char c (FormatInt z) = false.
Proof.
  intros Hz Hc Hm. unfold is_int64 in Hz. unfold FormatInt. destruct (Z.ltb_spec z 0).
  - destruct (format_digits_int64 (- z)) as [Hp _]; [lia|]. cbn [has_char].
    rewrite (parse_digits_chars c _ _ _ Hc Hp), orb_false_r. apply Ascii.eqb_neq. congruence.
  - destruct (format_digits_int64 z) as [Hp _]; [lia|]. by apply (parse_digits_chars c _ _ _ Hc Hp).
Qed.

End GoStrings.
