(* ===== verification/GoText.v ===== *)
(** What the program uses of [unicode/utf8] and of [strconv.Quote]: decoding UTF-8 and quoting
    text without control characters.  Bytes are their values. *)
From Stdlib Require Import ZArith Lia Ascii.
From stdpp Require Import base option list strings.
From S2P Require Import Prelude GoStrings.
Import GoStrings.
Local Open Scope Z_scope.

Module GoText.

(** ** UTF-8 *)

Definition bytes_of (s : string) : list Z := byte_of <$> String.list_ascii_of_string s.
Definition text_of (l : list Z) : string := String.string_of_list_ascii (byte_at <$> l).

(** A continuation byte. *)
Definition cont (b : Z) : bool := (128 <=? b) && (b <? 192).

(** The first two bytes of a sequence of three, and of four: no overlong form, no surrogate,
    nothing above U+10FFFF. *)
Definition lead3 (a b : Z) : bool :=
  ((a =? 224) && (160 <=? b) && (b <? 192)) || ((a =? 237) && (128 <=? b) && (b <? 160)) ||
  ((225 <=? a) && (a <=? 239) && negb (a =? 237) && cont b).

Definition lead4 (a b : Z) : bool :=
  ((a =? 240) && (144 <=? b) && (b <? 192)) || ((241 <=? a) && (a <=? 243) && cont b) ||
  ((a =? 244) && (128 <=? b) && (b <? 144)).

(** The runes of valid UTF-8; [None] is [!utf8.Valid]. *)
Fixpoint runes (s : list Z) : option (list Z) :=
  match s with
  | [] => Some []
  | a :: s1 =>
      if a <? 128 then cons a <$> runes s1
      else
        match s1 with
        | [] => None
        | b :: s2 =>
            if (194 <=? a) && (a <=? 223) && cont b
            then cons ((a - 192) * 64 + (b - 128)) <$> runes s2
            else
              match s2 with
              | [] => None
              | c :: s3 =>
                  if lead3 a b && cont c
                  then cons (((a - 224) * 64 + (b - 128)) * 64 + (c - 128)) <$> runes s3
                  else
                    match s3 with
                    | [] => None
                    | d :: s4 =>
                        if lead4 a b && cont c && cont d
                        then cons ((((a - 240) * 64 + (b - 128)) * 64 + (c - 128)) * 64 + (d - 128)) <$> runes s4
                        else None
                    end
              end
        end
  end.

Definition encode_rune (v : Z) : list Z :=
  if v <? 128 then [v]
  else if v <? 2048 then [192 + v / 64; 128 + v mod 64]
  else if v <? 65536 then [224 + v / 4096; 128 + v / 64 mod 64; 128 + v mod 64]
  else [240 + v / 262144; 128 + v / 4096 mod 64; 128 + v / 64 mod 64; 128 + v mod 64].

(** ** [strconv.Quote] *)

(** The digits of [strconv]. *)
Definition lower_hex (z : Z) : Z := if z <? 10 then z + 48 else z + 87.

(** [n] hexadecimal digits. *)
Fixpoint hex_digits (n : nat) (v : Z) : list Z :=
  match n with
  | O => []
  | S n => hex_digits n (v / 16) ++ [lower_hex (v mod 16)]
  end.

Section Quote.
(** [strconv.IsPrint], whose tables are not modelled. *)
Variable IsPrint : Z → bool.

(** A rune that is not a control character. *)
Definition escape_rune (v : Z) : list Z :=
  if (v =? 34) || (v =? 92) then [92; v]
  else if IsPrint v then encode_rune v
  else if v <? 65536 then [92; 117] ++ hex_digits 4 v
  else [92; 85] ++ hex_digits 8 v.

Definition quote_runes (l : list Z) : list Z := [34] ++ (l ≫= escape_rune) ++ [34].

End Quote.

(** ** Lemmas *)

Definition is_rune (v : Z) : Prop := 0 <= v < 1114112.

Lemma lead3_range a b : lead3 a b = true →
  224 <= a <= 239 ∧ 128 <= b < 192 ∧ (a = 224 → 160 <= b).
Proof. unfold lead3, cont. rewrite !orb_true_iff, !andb_true_iff, negb_true_iff. lia. Qed.

Lemma lead4_range a b : lead4 a b = true →
  240 <= a <= 244 ∧ 128 <= b < 192 ∧ (a = 240 → 144 <= b) ∧ (a = 244 → b < 144).
Proof. unfold lead4, cont. rewrite !orb_true_iff, !andb_true_iff. lia. Qed.

Lemma cont_range b : cont b = true → 128 <= b < 192.
Proof. unfold cont. rewrite andb_true_iff. lia. Qed.

(** Valid UTF-8 is the encoding of its runes. *)
Lemma runes_encode s l :
  Forall (λ b, 0 <= b) s → runes s = Some l → s = l ≫= encode_rune ∧ Forall is_rune l.
Proof.
  revert l. remember (length s) as n eqn:Hn. revert s Hn.
  induction (lt_wf n) as [n _ IH]. intros s -> l Hpos H.
  assert (Hrec : ∀ s' v l', (length s' < length s)%nat → Forall (λ b, 0 <= b) s' → cons v <$> runes s' = Some l' →
    ∃ l0, l' = v :: l0 ∧ s' = l0 ≫= encode_rune ∧ Forall is_rune l0).
  { intros s' v l' Hl Hp Hr. destruct (runes s') as [l0|] eqn:E; [|done]. injection Hr as <-.
    destruct (IH (length s') Hl s' eq_refl l0 Hp E) as [H1 H2]. by exists l0. }
  destruct s as [|a s1]; cbn [runes] in H; [injection H as <-; by split|].
  apply Forall_cons in Hpos as [Ha Hpos]. destruct (Z.ltb_spec a 128) as [Ha1|Ha1].
  { apply Hrec in H as (l0 & -> & -> & Hl0); [|cbn; lia|done]. split; [|constructor; [unfold is_rune; lia|done]].
    rewrite bind_cons. unfold encode_rune at 2. by rewrite (proj2 (Z.ltb_lt a 128)). }
  destruct s1 as [|b s2]; [done|]. apply Forall_cons in Hpos as [Hb Hpos].
  destruct ((194 <=? a) && (a <=? 223) && cont b) eqn:E2.
  { rewrite !andb_true_iff in E2. destruct E2 as [E2 Hcb%cont_range].
    apply Hrec in H as (l0 & -> & -> & Hl0); [|cbn; lia|done]. split; [|constructor; [unfold is_rune; lia|done]].
    rewrite bind_cons. unfold encode_rune at 2. set (v := (a - 192) * 64 + (b - 128)).
    assert (Hv : 128 <= v < 2048) by lia.
    rewrite (proj2 (Z.ltb_ge v 128)), (proj2 (Z.ltb_lt v 2048)) by lia. cbn [app].
    do 2 (apply (f_equal2 cons); [subst v; Z.to_euclidean_division_equations; lia|]). done. }
  destruct s2 as [|d s3]; [done|]. apply Forall_cons in Hpos as [Hd Hpos].
  destruct (lead3 a b && cont d) eqn:E3.
  { rewrite andb_true_iff in E3. destruct E3 as [E3%lead3_range Hcd%cont_range].
    apply Hrec in H as (l0 & -> & -> & Hl0); [|cbn; lia|done]. split; [|constructor; [unfold is_rune; lia|done]].
    rewrite bind_cons. unfold encode_rune at 2. set (v := ((a - 224) * 64 + (b - 128)) * 64 + (d - 128)).
    assert (Hv : 2048 <= v < 65536) by lia.
    rewrite (proj2 (Z.ltb_ge v 128)), (proj2 (Z.ltb_ge v 2048)), (proj2 (Z.ltb_lt v 65536)) by lia. cbn [app].
    do 3 (apply (f_equal2 cons); [subst v; Z.to_euclidean_division_equations; lia|]). done. }
  destruct s3 as [|e s4]; [done|]. apply Forall_cons in Hpos as [He Hpos].
  destruct (lead4 a b && cont d && cont e) eqn:E4; [|done].
  rewrite !andb_true_iff in E4. destruct E4 as [[E4%lead4_range Hcd%cont_range] Hce%cont_range].
  apply Hrec in H as (l0 & -> & -> & Hl0); [|cbn; lia|done]. split; [|constructor; [unfold is_rune; lia|done]].
  rewrite bind_cons. unfold encode_rune at 2.
  set (v := (((a - 240) * 64 + (b - 128)) * 64 + (d - 128)) * 64 + (e - 128)).
  assert (Hv : 65536 <= v) by lia.
  rewrite (proj2 (Z.ltb_ge v 128)), (proj2 (Z.ltb_ge v 2048)), (proj2 (Z.ltb_ge v 65536)) by lia. cbn [app].
  do 4 (apply (f_equal2 cons); [subst v; Z.to_euclidean_division_equations; lia|]). done.
Qed.

Lemma encode_rune_prefix v w s t :
  is_rune v → is_rune w → encode_rune v ++ s = encode_rune w ++ t → v = w ∧ s = t.
Proof.
  unfold is_rune, encode_rune. intros Hv Hw.
  repeat match goal with |- context [Z.ltb ?a ?b] => destruct (Z.ltb_spec a b) end;
    cbn [app]; intros Heq; simplify_eq; try (exfalso; Z.to_euclidean_division_equations; lia);
    (split; [Z.to_euclidean_division_equations; lia|done]).
Qed.

(** Only the quote and the backslash encode to them. *)
Lemma encode_rune_head v :
  is_rune v → ∃ a t, encode_rune v = a :: t ∧ (a < 128 → a = v).
Proof.
  unfold is_rune, encode_rune. intros Hv. case_match; [by eexists _, _|].
  case_match; [|case_match]; eexists _, _; (split; [reflexivity|]);
    intros; Z.to_euclidean_division_equations; lia.
Qed.

Lemma lower_hex_inj x y : 0 <= x < 16 → 0 <= y < 16 → lower_hex x = lower_hex y → x = y.
Proof. unfold lower_hex. intros. destruct (Z.ltb_spec x 10), (Z.ltb_spec y 10); lia. Qed.

Lemma hex_digits_length n v : length (hex_digits n v) = n.
Proof. revert v. induction n as [|n IH]; intros v; cbn; [done|]. rewrite length_app, IH. cbn. lia. Qed.

Lemma hex_digits_inj n v w :
  0 <= v < 16 ^ Z.of_nat n → 0 <= w < 16 ^ Z.of_nat n → hex_digits n v = hex_digits n w → v = w.
Proof.
  revert v w. induction n as [|n IH]; intros v w Hv Hw; [cbn in *; lia|]. cbn [hex_digits].
  rewrite Nat2Z.inj_succ, Z.pow_succ_r in Hv, Hw by lia. intros H.
  apply app_inj_2 in H as [H1 H2]; [|done]. injection H2 as H2.
  pose proof (Z.mod_pos_bound v 16 ltac:(lia)) as Hm. pose proof (Z.mod_pos_bound w 16 ltac:(lia)) as Hm'.
  apply lower_hex_inj in H2; [|done..]. apply IH in H1; [|Z.to_euclidean_division_equations; lia..].
  rewrite (Z.div_mod v 16), (Z.div_mod w 16) by lia. congruence.
Qed.

Section QuoteLemmas.
Variable IsPrint : Z → bool.
Notation escape_rune := (escape_rune IsPrint).
Notation quote_runes := (quote_runes IsPrint).

(** No escaped rune is the start of another. *)
Lemma escape_rune_prefix v w s t :
  is_rune v → is_rune w → escape_rune v ++ s = escape_rune w ++ t → v = w ∧ s = t.
Proof.
  intros Hv Hw. destruct (encode_rune_head v Hv) as (a & x & Ea & Ha).
  destruct (encode_rune_head w Hw) as (b & y & Eb & Hb). unfold GoText.escape_rune.
  assert (Hhex : ∀ n, hex_digits n v ++ s = hex_digits n w ++ t → is_rune v → v < 16 ^ Z.of_nat n →
    w < 16 ^ Z.of_nat n → v = w ∧ s = t).
  { intros n H _ H1 H2. apply app_inj_1 in H as [H ?]; [|by rewrite !hex_digits_length].
    split; [|done]. apply (hex_digits_inj n); [unfold is_rune in *; lia..|done]. }
  destruct ((v =? 34) || (v =? 92)) eqn:E1; destruct ((w =? 34) || (w =? 92)) eqn:E2;
    rewrite ?orb_true_iff, ?orb_false_iff, ?Z.eqb_eq, ?Z.eqb_neq in E1, E2;
    try destruct (IsPrint v); try destruct (IsPrint w);
    try (destruct (Z.ltb_spec v 65536)); try (destruct (Z.ltb_spec w 65536));
    try (intros Heq; by apply encode_rune_prefix);
    rewrite ?Ea, ?Eb; intros Heq;
    rewrite <- ?app_assoc in Heq;
    try (apply app_inv_head in Heq;
         first [by apply (Hhex 4%nat)|apply (Hhex 8%nat); unfold is_rune in *; cbn; done || lia]);
    cbn [app] in Heq; simplify_eq; done || lia.
Qed.

Lemma escape_rune_open v : is_rune v → ∃ a t, escape_rune v = a :: t ∧ a ≠ 34.
Proof.
  intros Hv. destruct (encode_rune_head v Hv) as (a & x & Ea & Ha). unfold GoText.escape_rune.
  destruct ((v =? 34) || (v =? 92)) eqn:E; [by eexists _, _|]. rewrite orb_false_iff, !Z.eqb_neq in E.
  destruct (IsPrint v); [|case_match; by eexists _, _]. exists a, x. split; [done|]. lia.
Qed.

(** Quoted text is read back in one way. *)
Lemma quote_runes_inj l1 l2 :
  Forall is_rune l1 → Forall is_rune l2 → quote_runes l1 = quote_runes l2 → l1 = l2.
Proof.
  unfold GoText.quote_runes. intros H1 H2 H. cbn [app] in H. injection H as H. revert l2 H2 H.
  induction H1 as [|v l1 Hv H1 IH]; intros [|w l2] H2; [done|..].
  - apply Forall_cons in H2 as [Hw _]. rewrite bind_cons. destruct (escape_rune_open w Hw) as (a & t & -> & Hne).
    cbn. congruence.
  - rewrite bind_cons. destruct (escape_rune_open v Hv) as (a & t & -> & Hne). cbn. congruence.
  - apply Forall_cons in H2 as [Hw H2]. rewrite !bind_cons, <- !app_assoc. intros H.
    apply escape_rune_prefix in H as [-> H]; [|done..]. f_equal. by apply IH.
Qed.

(** ** Text *)

Lemma bytes_of_pos s : Forall (λ b, 0 <= b) (bytes_of s).
Proof.
  unfold bytes_of. apply Forall_fmap, Forall_true. intros a. cbn. pose proof (byte_of_range a). lia.
Qed.

Lemma bytes_of_inj s1 s2 : bytes_of s1 = bytes_of s2 → s1 = s2.
Proof.
  unfold bytes_of. revert s2. induction s1 as [|a s1 IH]; intros [|b s2]; cbn; [done..|].
  intros [= Ha H]. f_equal; [by apply byte_of_inj|by apply IH].
Qed.

Lemma text_of_inj l1 l2 :
  Forall (λ b, 0 <= b < 256) l1 → Forall (λ b, 0 <= b < 256) l2 → text_of l1 = text_of l2 → l1 = l2.
Proof.
  unfold text_of. intros H1. revert l2. induction H1 as [|a l1 Ha H1 IH]; intros [|b l2] H2; [done..|].
  apply Forall_cons in H2 as [Hb H2]. cbn. intros [= E H]. f_equal; [|by apply IH].
  rewrite <- (byte_of_at a), <- (byte_of_at b) by done. congruence.
Qed.

Lemma encode_rune_bytes v : is_rune v → Forall (λ b, 0 <= b < 256) (encode_rune v).
Proof.
  unfold is_rune, encode_rune. intros Hv. repeat case_match; repeat constructor;
    Z.to_euclidean_division_equations; lia.
Qed.

Lemma hex_digits_bytes n v : 0 <= v → Forall (λ b, 0 <= b < 256) (hex_digits n v).
Proof.
  revert v. induction n as [|n IH]; intros v Hv; cbn [hex_digits]; [constructor|].
  apply Forall_app. split; [apply IH; Z.to_euclidean_division_equations; lia|]. constructor; [|constructor].
  unfold lower_hex. pose proof (Z.mod_pos_bound v 16 ltac:(lia)). case_match; lia.
Qed.

Lemma escape_rune_bytes v : is_rune v → Forall (λ b, 0 <= b < 256) (escape_rune v).
Proof.
  intros Hv. unfold GoText.escape_rune. destruct ((v =? 34) || (v =? 92)) eqn:E.
  { rewrite orb_true_iff, !Z.eqb_eq in E. do 2 (apply Forall_cons; split; [lia|]). constructor. }
  destruct (IsPrint v); [by apply encode_rune_bytes|]. unfold is_rune in Hv.
  destruct (v <? 65536); (apply Forall_app; split;
    [do 2 (apply Forall_cons; split; [lia|]); constructor|apply hex_digits_bytes; lia]).
Qed.

Lemma quote_runes_bytes l : Forall is_rune l → Forall (λ b, 0 <= b < 256) (quote_runes l).
Proof.
  intros Hl. unfold GoText.quote_runes. apply Forall_app. split; [apply Forall_cons; split; [lia|constructor]|].
  apply Forall_app. split; [|apply Forall_cons; split; [lia|constructor]].
  apply Forall_bind. eapply Forall_impl; [exact Hl|]. intros v. apply escape_rune_bytes.
Qed.

End QuoteLemmas.

End GoText.
