(* ===== verification/Json.v ===== *)
(** What the program uses of [encoding/base64] and [encoding/json].

    All its JSON values are flat objects: the structs' fields in declaration order.
    Marshalling to and unmarshalling from such objects is defined here; their text
    syntax is the interface [JSONText]. *)
From Stdlib Require Import ZArith Lia Ascii String.
From stdpp Require Import base option list strings gmap countable numbers.
From S2P Require Import Prelude GoStrings.
Local Open Scope Z_scope.

Module Json.

(** ** Base64, standard alphabet with padding *)

Notation byte_of := GoStrings.byte_of (only parsing).
Notation byte_at := GoStrings.byte_at (only parsing).

Definition b64_char (z : Z) : ascii :=
  byte_at (if z <? 26 then z + 65 else if z <? 52 then z + 71 else if z <? 62 then z - 4
           else if z =? 62 then 43 else 47).

Definition b64_val (a : ascii) : option Z :=
  let c := byte_of a in
  if (65 <=? c) && (c <=? 90) then Some (c - 65)
  else if (97 <=? c) && (c <=? 122) then Some (c - 71)
  else if (48 <=? c) && (c <=? 57) then Some (c + 4)
  else if c =? 43 then Some 62 else if c =? 47 then Some 63 else None.

(** [base64.StdEncoding.EncodeToString]. *)
Fixpoint base64 (s : string) : string :=
  match s with
  | EmptyString => ""
  | String a r1 =>
      let x := byte_of a in
      match r1 with
      | EmptyString => String (b64_char (x / 4)) (String (b64_char (x mod 4 * 16)) "==")
      | String b r2 =>
          let y := byte_of b in
          match r2 with
          | EmptyString =>
              String (b64_char (x / 4)) (String (b64_char (x mod 4 * 16 + y / 16))
                (String (b64_char (y mod 16 * 4)) "="))
          | String c r3 =>
              let z := byte_of c in
              String (b64_char (x / 4)) (String (b64_char (x mod 4 * 16 + y / 16))
                (String (b64_char (y mod 16 * 4 + z / 64)) (String (b64_char (z mod 64))
                  (base64 r3))))
          end
      end
  end.

Definition pad : ascii := "="%char.

(** The quanta of a text without line breaks. *)
Fixpoint b64_decode (s : string) : option string :=
  match s with
  | EmptyString => Some ""
  | String p (String q (String r (String t rest))) =>
      x ← b64_val p; y ← b64_val q;
      if decide (r = pad) then
        if decide (t = pad ∧ rest = "") then Some (String (byte_at (x * 4 + y / 16)) "") else None
      else
        z ← b64_val r;
        if decide (t = pad) then
          if decide (rest = "") then
            Some (String (byte_at (x * 4 + y / 16)) (String (byte_at (y mod 16 * 16 + z / 4)) ""))
          else None
        else
          w ← b64_val t; tail ← b64_decode rest;
          Some (String (byte_at (x * 4 + y / 16)) (String (byte_at (y mod 16 * 16 + z / 4))
                 (String (byte_at (z mod 4 * 64 + w)) tail)))
  | _ => None
  end.

Fixpoint drop_newlines (s : string) : string :=
  match s with
  | EmptyString => ""
  | String a r =>
      if (byte_of a =? 10) || (byte_of a =? 13) then drop_newlines r else String a (drop_newlines r)
  end.

(** [base64.StdEncoding.DecodeString]. *)
Definition base64_decode (s : string) : result string :=
  match b64_decode (drop_newlines s) with
  | Some b => Ok b
  | None => Err (ENew "illegal base64 data")
  end.

(** ** JSON objects *)

(** A value of a field; [JOther] is an array or an object. *)
Inductive jscalar : Type :=
  | JString (s : string)
  | JNumber (z : Z)
  | JBool (b : bool)
  | JNull
  | JOther.

#[export] Instance jscalar_eq_dec : EqDecision jscalar.
Proof. solve_decision. Defined.

Definition jobject : Type := list (string * jscalar).

Class JSONText := {
  json_encode : jobject → bytes;
  json_decode : bytes → option jobject;
  valid_utf8 : string → bool }.

(** Text that can be kept: a string with invalid UTF-8 is altered by the encoder. *)
Definition valid_scalar {J : JSONText} (v : jscalar) : bool :=
  match v with JString s => valid_utf8 s | JOther => false | _ => true end.

Definition valid_object {J : JSONText} (o : jobject) : bool :=
  forallb (λ kv, valid_utf8 kv.1 && valid_scalar kv.2) o.

Class JSONLaws {J : JSONText} : Prop := {
  json_decode_encode o : valid_object o = true → json_decode (json_encode o) = Some o;
  valid_utf8_ascii s :
    forallb (λ a, byte_of a <? 128) (list_ascii_of_string s) = true → valid_utf8 s = true }.

(** ** Marshalling *)

(** A []byte field; nil and empty are one value of the model. *)
Definition JBytes (b : bytes) : jscalar := JString (base64 b).

(** A field with [omitempty]. *)
Definition omitempty (name : string) (v : jscalar) : jobject :=
  match v with
  | JString "" | JNumber 0 | JBool false => []
  | _ => [(name, v)]
  end.

(** ** Unmarshalling: the last value of a field counts, null is skipped *)

Definition lower (a : ascii) : ascii :=
  if (65 <=? byte_of a) && (byte_of a <=? 90) then byte_at (byte_of a + 32) else a.

Fixpoint fold_name (s : string) : string :=
  match s with EmptyString => "" | String a r => String (lower a) (fold_name r) end.

Definition type_error : goerr := ENew "json: cannot unmarshal into Go struct field".

Fixpoint json_field {A} (conv : jscalar → option A) (name : string) (o : jobject) (acc : A)
    : result A :=
  match o with
  | [] => Ok acc
  | (k, v) :: rest =>
      if decide (fold_name k = fold_name name) then
        match v with
        | JNull => json_field conv name rest acc
        | _ => match conv v with
               | Some x => json_field conv name rest x
               | None => Err type_error
               end
        end
      else json_field conv name rest acc
  end.

Definition as_string (v : jscalar) : option string :=
  match v with JString s => Some s | _ => None end.

Definition as_bool (v : jscalar) : option bool :=
  match v with JBool b => Some b | _ => None end.

(** An integer field of range [lo, hi). *)
Definition as_int (lo hi : Z) (v : jscalar) : option Z :=
  match v with
  | JNumber z => if (lo <=? z) && (z <? hi) then Some z else None
  | _ => None
  end.

Definition as_int64 : jscalar → option Z := as_int (- 2 ^ 63) (2 ^ 63).
Definition as_uint64 : jscalar → option Z := as_int 0 (2 ^ 64).

(** [json.Unmarshal(data, ...)]: the syntax first. *)
Definition json_object {J : JSONText} (data : bytes) : result jobject :=
  match json_decode data with
  | Some o => Ok o
  | None => Err (ENew "invalid JSON")
  end.

Lemma json_encode_inj {J : JSONText} {JL : JSONLaws} o1 o2 :
  valid_object o1 = true → valid_object o2 = true →
  json_encode o1 = json_encode o2 → o1 = o2.
Proof.
  intros H1 H2 He. apply json_decode_encode in H1, H2. rewrite He in H1. congruence.
Qed.

(** ** Fields: one field of an object, when the names before it differ *)

Lemma json_field_skip {A} (conv : jscalar → option A) name k v o acc :
  fold_name k ≠ fold_name name → json_field conv name ((k, v) :: o) acc = json_field conv name o acc.
Proof. intros H. cbn [json_field]. by rewrite decide_False. Qed.

Lemma json_field_take {A} (conv : jscalar → option A) name v x o acc :
  conv v = Some x → v ≠ JNull → json_field conv name ((name, v) :: o) acc = json_field conv name o x.
Proof. intros H Hn. cbn [json_field]. rewrite decide_True by done. rewrite H. by destruct v. Qed.

Ltac json_fields :=
  repeat first
    [ rewrite json_field_skip by (vm_compute; discriminate)
    | erewrite json_field_take by (first [reflexivity | eassumption | discriminate]) ].

(** ** Base64 round trip *)

Lemma byte_at_of a : byte_at (byte_of a) = a.
Proof. unfold GoStrings.byte_of, GoStrings.byte_at. by rewrite N2Z.id, ascii_N_embedding. Qed.

(** The alphabet, checked on all its characters. *)
Lemma b64_alphabet z : 0 <= z < 64 →
  b64_val (b64_char z) = Some z ∧ b64_char z ≠ pad ∧
  (byte_of (b64_char z) =? 10) || (byte_of (b64_char z) =? 13) = false ∧
  byte_of (b64_char z) < 128.
Proof.
  intros Hz.
  assert (H : Forall (λ z, b64_val (b64_char z) = Some z ∧ b64_char z ≠ pad ∧
    (byte_of (b64_char z) =? 10) || (byte_of (b64_char z) =? 13) = false ∧
    byte_of (b64_char z) < 128) (seqZ 0 64)).
  { repeat (constructor; [split_and!; [reflexivity|discriminate|reflexivity|reflexivity]|]).
    constructor. }
  rewrite Forall_forall in H. apply H, list_elem_of_In, elem_of_seqZ. lia.
Qed.

(** Recovers the bytes of a quantum from its sextets. *)
Lemma sextets x y z : 0 <= x < 256 → 0 <= y < 256 → 0 <= z < 256 →
  let p := x / 4 in let q := x mod 4 * 16 + y / 16 in
  let r := y mod 16 * 4 + z / 64 in let t := z mod 64 in
  0 <= p < 64 ∧ 0 <= q < 64 ∧ 0 <= r < 64 ∧ 0 <= t < 64 ∧
  p * 4 + q / 16 = x ∧ q mod 16 * 16 + r / 4 = y ∧ r mod 4 * 64 + t = z.
Proof. intros Hx Hy Hz. cbn zeta. Z.to_euclidean_division_equations; lia. Qed.

Lemma string_ind3 (P : string → Prop) :
  P "" → (∀ a, P (String a "")) → (∀ a b, P (String a (String b ""))) →
  (∀ a b c r, P r → P (String a (String b (String c r)))) → ∀ s, P s.
Proof.
  intros H0 H1 H2 H3. fix IH 1. intros [|a [|b [|c r]]]; [done|apply H1|apply H2|].
  apply H3, IH.
Qed.

Lemma base64_text s :
  drop_newlines (base64 s) = base64 s ∧
  forallb (λ a, byte_of a <? 128) (list_ascii_of_string (base64 s)) = true.
Proof.
  assert (Hc : ∀ z r, 0 <= z < 64 →
    drop_newlines r = r ∧ forallb (λ a, byte_of a <? 128) (list_ascii_of_string r) = true →
    drop_newlines (String (b64_char z) r) = String (b64_char z) r ∧
    forallb (λ a, byte_of a <? 128) (list_ascii_of_string (String (b64_char z) r)) = true).
  { intros z r Hz [Hd Hf]. destruct (b64_alphabet z Hz) as (_ & _ & Hn & Hlt).
    cbn [drop_newlines list_ascii_of_string forallb]. rewrite Hn, Hd, Hf. split; [done|].
    rewrite andb_true_r. by apply Z.ltb_lt. }
  induction s as [|a|a b|a b c r IH] using string_ind3; cbn [base64]; [done|..].
  - destruct (sextets (byte_of a) 0 0) as (? & ? & _); [apply GoStrings.byte_of_range|lia|lia|].
    rewrite Z.div_0_l, Z.add_0_r in * by lia. by repeat (apply Hc; [done|]).
  - destruct (sextets (byte_of a) (byte_of b) 0) as (? & ? & ? & _); [apply GoStrings.byte_of_range..|lia|].
    rewrite Z.div_0_l, Z.add_0_r in * by lia. by repeat (apply Hc; [done|]).
  - destruct (sextets (byte_of a) (byte_of b) (byte_of c)) as (? & ? & ? & ? & _);
      [apply GoStrings.byte_of_range..|]. by repeat (apply Hc; [done|]).
Qed.

Lemma b64_decode_encode s : b64_decode (base64 s) = Some s.
Proof.
  induction s as [|a|a b|a b c r IH] using string_ind3; cbn [base64]; [done|..].
  - destruct (sextets (byte_of a) 0 0) as (Hp & Hq & _ & _ & Hx & _); [apply GoStrings.byte_of_range|lia|lia|].
    rewrite Z.div_0_l, Z.add_0_r in * by lia. cbn [b64_decode].
    destruct (b64_alphabet _ Hp) as (-> & _), (b64_alphabet _ Hq) as (-> & _). simpl.
    by rewrite Hx, byte_at_of.
  - destruct (sextets (byte_of a) (byte_of b) 0) as (Hp & Hq & Hr & _ & Hx & Hy & _);
      [apply GoStrings.byte_of_range..|lia|].
    rewrite Z.div_0_l, Z.add_0_r in * by lia. cbn [b64_decode].
    destruct (b64_alphabet _ Hp) as (-> & _), (b64_alphabet _ Hq) as (-> & _),
      (b64_alphabet _ Hr) as (-> & Hnp & _). cbn [mbind option_bind].
    rewrite decide_False by done. simpl. by rewrite Hx, Hy, !byte_at_of.
  - destruct (sextets (byte_of a) (byte_of b) (byte_of c)) as (Hp & Hq & Hr & Ht & Hx & Hy & Hz);
      [apply GoStrings.byte_of_range..|]. cbn [b64_decode].
    destruct (b64_alphabet _ Hp) as (-> & _), (b64_alphabet _ Hq) as (-> & _),
      (b64_alphabet _ Hr) as (-> & Hnr & _), (b64_alphabet _ Ht) as (-> & Hnt & _).
    cbn [mbind option_bind]. rewrite !decide_False by done. rewrite IH. cbn [mbind option_bind].
    by rewrite Hx, Hy, Hz, !byte_at_of.
Qed.

Lemma base64_decode_encode s : base64_decode (base64 s) = Ok s.
Proof.
  unfold base64_decode. destruct (base64_text s) as [-> _]. by rewrite b64_decode_encode.
Qed.

Lemma base64_inj s1 s2 : base64 s1 = base64 s2 → s1 = s2.
Proof. intros H. pose proof (b64_decode_encode s1) as E. rewrite H, b64_decode_encode in E. by injection E. Qed.

Lemma JBytes_valid {J : JSONText} {JL : JSONLaws} b : valid_scalar (JBytes b) = true.
Proof. apply valid_utf8_ascii. apply base64_text. Qed.

(** ** A text syntax that keeps everything *)

#[export] Instance jscalar_countable : Countable jscalar.
Proof.
  apply (inj_countable'
    (λ v, match v with
          | JString s => inl s | JNumber z => inr (inl z) | JBool b => inr (inr (inl b))
          | JNull => inr (inr (inr true)) | JOther => inr (inr (inr false)) end)
    (λ v, match v with
          | inl s => JString s | inr (inl z) => JNumber z | inr (inr (inl b)) => JBool b
          | inr (inr (inr true)) => JNull | inr (inr (inr false)) => JOther end)).
  by intros [].
Defined.

Fixpoint bits (p : positive) : string :=
  match p with xH => "" | xO q => String "0" (bits q) | xI q => String "1" (bits q) end.

Fixpoint unbits (s : string) : positive :=
  match s with
  | EmptyString => xH
  | String a r => if decide (a = "0"%char) then xO (unbits r) else xI (unbits r)
  end.

Lemma unbits_bits p : unbits (bits p) = p.
Proof. induction p; simpl; by f_equal. Qed.

Definition example_json : JSONText := {|
  json_encode o := bits (encode o);
  json_decode b := decode (unbits b);
  valid_utf8 _ := true |}.

Lemma example_json_laws : @JSONLaws example_json.
Proof.
  split; [|done]. intros o _. unfold json_decode, json_encode. simpl.
  by rewrite unbits_bits, decode_encode.
Qed.

End Json.
