(* ===== verification/Proto.v ===== *)
(** The protobuf messages of Fabric proposals and envelopes that the program takes
    apart, and the library that decodes them ([protoutil], [proto], the SDK's proposal
    parser) as the class [ProtoUtil]. *)
From Stdlib Require Import ZArith Lia.
From stdpp Require Import base option list strings gmap.
From S2P Require Import Prelude LifecycleStore OrchestratorTypes.
Import Types.
Local Open Scope Z_scope.

Module Proto.

Record CommonHeader := mkHeader { ChannelHeader : bytes; SignatureHeader : bytes }.

Record ChannelHdr := mkChannelHdr {
  ChannelId : string;
  TxId : string;
  ch_Extension : bytes;
  ch_Type : Z }.

(** [peer.ChaincodeInput]. *)
Record ChaincodeInput := mkInput { in_Args : list bytes; in_IsInit : bool }.

(** [peer.ChaincodeSpec]; the getters of a nil message give the zero value. *)
Record ChaincodeSpec := mkSpec { spec_Name : string; spec_Input : option ChaincodeInput }.

Definition spec_GetName (s : option ChaincodeSpec) : string :=
  match s with Some s => spec_Name s | None => "" end.

(** [endorsement.Invocation], what the SDK makes of a signed proposal. *)
Record Invocation := mkInv {
  inv_TxID : string;
  inv_Channel : string;
  inv_Namespace : string;
  inv_Args : list bytes;
  inv_Creator : bytes;
  inv_Nonce : bytes;
  inv_ChaincodeVersion : string;
  inv_NsVersion : Z;
  inv_Proposal : option Proposal }.

Class ProtoUtil := {
  efab_Parse : option SignedProposal → Z → result Invocation;
  UnmarshalProposal : bytes → result Proposal;
  UnmarshalHeader : bytes → result CommonHeader;
  UnmarshalChannelHeader : bytes → result ChannelHdr;
  (** The creator of a signature header. *)
  UnmarshalSignatureHeader : bytes → result bytes;
  (** The header and the data of an envelope's payload. *)
  UnmarshalPayload : bytes → result (option CommonHeader * bytes);
  (** The chaincode name and version of a header extension. *)
  UnmarshalHeaderExtension : bytes → result (option (string * string));
  (** The input and the transient data of a proposal payload. *)
  UnmarshalChaincodeProposalPayload : bytes → result (bytes * gmap string bytes);
  UnmarshalChaincodeInvocationSpec : bytes → result (option ChaincodeSpec);
  GetProposalHash1 : CommonHeader → bytes → result bytes;
  UnmarshalTx : bytes → result Tx;
  MarshalTx : Tx → result bytes;
  NsASN1Marshal : TxNamespace → string → list bytes → result bytes }.

(** The SDK's transaction metadata, the first metadata entry of a native transaction. *)
Record SdkMetadata := mkMetadata {
  md_EventName : string;
  md_Event : bytes;
  md_Payload : bytes;
  md_InputArgs : list bytes }.

Class MetadataProto := { unmarshal_Metadata : bytes → result SdkMetadata }.

(** A coding of one proposal, on which the witnesses evaluate. *)
Definition example_util : ProtoUtil := {|
  efab_Parse p _ :=
    match p with
    | Some sp => Ok (mkInv "tx1" "ch" "cc:ns" ["put"] "Org1MSP:alice" "n1" "" 0
                       (Some (mkProposal "h" (ProposalBytes sp) "")))
    | None => Err (EExt "no proposal")
    end;
  UnmarshalProposal b := Ok (mkProposal "h" b "");
  UnmarshalHeader b := Ok (mkHeader "ch" b);
  UnmarshalChannelHeader _ := Ok (mkChannelHdr "ch" "tx1" "" 0);
  UnmarshalSignatureHeader b := Ok "Org1MSP:alice";
  UnmarshalPayload b := Ok (Some (mkHeader "ch" b), b);
  UnmarshalHeaderExtension _ := Ok (Some ("cc:ns", ""));
  UnmarshalChaincodeProposalPayload b := Ok (b, ∅);
  UnmarshalChaincodeInvocationSpec _ := Ok (Some (mkSpec "cc:ns" (Some (mkInput ["put"] false))));
  GetProposalHash1 _ b := Ok b;
  UnmarshalTx _ := Ok (mkTx [mkTxNamespace "ns" 1 [] [] []] ["sdk"]);
  MarshalTx tx := Ok "native";
  NsASN1Marshal ns tx md := Ok (NsId ns +:+ tx) |}.

End Proto.
