(* ===== verification/Helper.v ===== *)
(** The helper's endorser, [pkg/helper/service.go] ([ProcessProposal]), its chaincode
    executor, [pkg/helper/executor.go], and the metadata it signs,
    [pkg/helper/proposal.go].

    The SDK's endorsement builder and signer are parameters of the service; an executor
    is a function from the execution context, with the history of Query Service calls,
    to its outcome ([None] while it has not returned) and the context after it. *)
From Stdlib Require Import ZArith Lia.
From stdpp Require Import base option list strings gmap sets.
From S2P Require Import Prelude LifecycleStore OrchestratorTypes ExecContext Shim Json GoStrings.
From S2P Require Import Proto.
Import Types Proto Json.
Local Open Scope Z_scope.

Module Helper.

(** ** Client proposal context *)

Record ClientProposalContext := mkClient {
  cp_Creator : bytes;
  cp_Nonce : bytes;
  cp_SignedProposal : option SignedProposal;
  cp_Decorations : gmap string bytes;
  cp_IsInit : bool;
  cp_NamespaceVersion : Z }.

Definition zero_client : ClientProposalContext := mkClient "" "" None ∅ false 0.

(** A context is the value it carries. *)
Definition WithClientProposal (ctx : option ClientProposalContext) (p : ClientProposalContext)
    : option ClientProposalContext :=
  if bool_decide (cp_Creator p = "") && bool_decide (cp_Nonce p = "") &&
     bool_decide (cp_SignedProposal p = None) && bool_decide (cp_Decorations p = ∅) &&
     (cp_NamespaceVersion p =? 0) && negb (cp_IsInit p)
  then ctx else Some p.

Definition clientProposalFromContext (ctx : option ClientProposalContext) : ClientProposalContext :=
  default zero_client ctx.

(** ** Execution results *)

Record ExecutionResult := mkExecResult {
  xr_RWS : Exec.ReadWriteSet;
  xr_Event : bytes;
  xr_EventName : string;
  xr_Status : Z;
  xr_Message : string;
  xr_Payload : bytes }.

Definition exec_state : Type := Exec.ExecutionContext * list Exec.call.

(** The executor's result and the metadata's query view. *)
Definition Executor : Type :=
  exec_state → Invocation → option (result (ExecutionResult * option Exec.View)) * exec_state.

(** [ChaincodeServiceExecutor.Execute] over one stream; [connector] is false for nil. *)
Definition ChaincodeServiceExecutor {SP : Shim.ShimProto} (en : Exec.env) (io : Shim.ioenv)
    (connector : bool) (ctx : ctx_err) (has_deadline : bool) (rs : list Shim.recv) : Executor :=
  λ s inv,
    if negb connector then (Some (Err (ENew "shim connector is not configured")), s)
    else
      let c := s.1 in
      let creator := if bool_decide (Exec.clientCreator c = "") then inv_Creator inv
                     else Exec.clientCreator c in
      let nonce := if bool_decide (Exec.clientNonce c = "") then inv_Nonce inv
                   else Exec.clientNonce c in
      let '(out, s', _) :=
        Shim.Execute (SS := Shim.ExecutionContext_State en) io ctx has_deadline
          (Shim.mkInvocation (inv_TxID inv) (inv_Channel inv) (Exec.namespace c) (inv_Args inv)
             creator nonce (Exec.signedProposal c) (Exec.decorations c) (Exec.isInit c))
          rs (Some s) in
      let s' := default s s' in
      match out with
      | None => (None, s')
      | Some (Err e) => (Some (Err e), s')
      | Some (Ok res) =>
          (Some (Ok (mkExecResult (Exec.Result s'.1) (Shim.r_Event res) (Shim.r_EventName res)
                       (Shim.r_Status res) (Shim.r_Message res) (Shim.r_Payload res),
                     Shim.r_QueryView res)), s')
      end.

(** ** Signed metadata *)

Definition chaincodeIdentityType : string := "fabric-x-chaincode-identity".

Record ChaincodeIdentity := mkIdentity {
  ci_Type : string;
  ci_Version : Z;
  ci_ChannelID : string;
  ci_ChaincodeName : string;
  ci_Namespace : string }.

#[export] Instance ChaincodeIdentity_eq_dec : EqDecision ChaincodeIdentity.
Proof. solve_decision. Defined.

Definition identity_json (i : ChaincodeIdentity) : jobject :=
  [("type", JString (ci_Type i)); ("version", JNumber (ci_Version i));
   ("channel_id", JString (ci_ChannelID i)); ("chaincode_name", JString (ci_ChaincodeName i));
   ("namespace", JString (ci_Namespace i))].

Definition identity_of_json (o : jobject) : result ChaincodeIdentity :=
  t ← json_field as_string "type" o "";
  v ← json_field as_int64 "version" o 0;
  c ← json_field as_string "channel_id" o "";
  n ← json_field as_string "chaincode_name" o "";
  ns ← json_field as_string "namespace" o "";
  Ok (mkIdentity t v c n ns).

Section Metadata.
Context {J : JSONText}.

Definition MarshalChaincodeIdentity (channel name namespace : string) : result bytes :=
  if bool_decide (channel = "") || bool_decide (name = "") || bool_decide (namespace = "")
  then Err (ENew "chaincode identity requires channel, name and namespace")
  else Ok (json_encode (identity_json (mkIdentity chaincodeIdentityType 1 channel name namespace))).

(** The type of a record, if it is a JSON object with a string for it. *)
Definition record_kind (record : bytes) : result string :=
  o ← json_object record; json_field as_string "type" o "".

(** The loop of [ChaincodeIdentityFromMetadata] over [metadata[1:]]. *)
Fixpoint identity_records (records : list bytes) (identity : option ChaincodeIdentity)
    : result (option ChaincodeIdentity) :=
  match records with
  | [] => Ok identity
  | record :: rest =>
      if bool_decide (record_kind record = Ok chaincodeIdentityType) then
        match (o ← json_object record; identity_of_json o) with
        | Err e => Err (EWrap "decode chaincode identity: %w" e)
        | Ok candidate =>
            if bool_decide (is_Some identity) || negb (ci_Version candidate =? 1) ||
               bool_decide (ci_ChannelID candidate = "") ||
               bool_decide (ci_ChaincodeName candidate = "") ||
               bool_decide (ci_Namespace candidate = "")
            then Err (ENew "invalid or duplicate chaincode identity metadata")
            else identity_records rest (Some candidate)
        end
      else identity_records rest identity
  end.

Definition ChaincodeIdentityFromMetadata (metadata : list bytes) : result (option ChaincodeIdentity) :=
  if (length metadata <? 2)%nat then Ok None else identity_records (drop 1 metadata) None.

Context {PU : ProtoUtil}.

Definition binding_json (hash : bytes) (version : string) (sequence : Z) (r : Response) : jobject :=
  [("format", JNumber 1); ("proposal_hash", JBytes hash); ("chaincode_version", JString version);
   ("sequence", JNumber sequence); ("status", JNumber (Status r)); ("message", JString (Message r))].

Definition MarshalGatewayProposalBinding (proposal : option Proposal) (version : string)
    (sequence : Z) (response : option Response) : result bytes :=
  match proposal, response with
  | Some p, Some r =>
      if bool_decide (version = "") || (sequence <? 1)
      then Err (ENew "Gateway binding requires a proposal, response and committed definition")
      else
        header ← UnmarshalHeader (Header p);
        hash ← GetProposalHash1 header (pp_Payload p);
        Ok (json_encode (binding_json hash version sequence r))
  | _, _ => Err (ENew "Gateway binding requires a proposal, response and committed definition")
  end.

Definition ProposalIsInit (proposal : option Proposal) : result bool :=
  match proposal with
  | None => Err (ENew "proposal is required")
  | Some p =>
      match UnmarshalChaincodeProposalPayload (pp_Payload p) with
      | Err e => Err (EWrap "decode proposal payload: %w" e)
      | Ok payload =>
          match UnmarshalChaincodeInvocationSpec payload.1 with
          | Err e => Err (EWrap "decode chaincode invocation: %w" e)
          | Ok spec =>
              match spec ≫= spec_Input with
              | None => Err (ENew "chaincode input is required")
              | Some input => Ok (in_IsInit input)
              end
          end
      end
  end.

Definition decoration (decorations : gmap string bytes) (key : string) : string :=
  default "" (decorations !! key).

(** The metadata that binds a Gateway proposal, when the signed chaincode name is
    [name:namespace]. *)
Definition gateway_record (spec : option ChaincodeSpec) (original : Proposal) (namespace : string)
    (decorations : gmap string bytes) (response : option Response) : result (list bytes) :=
  if bool_decide (spec_GetName spec =
       decoration decorations "compat.chaincode_name" +:+ ":" +:+ namespace) then
    match GoStrings.ParseInt (decoration decorations "compat.chaincode_sequence") with
    | Err e => Err (EWrap "Gateway binding sequence: %w" e)
    | Ok sequence =>
        binding ← MarshalGatewayProposalBinding (Some original)
          (decoration decorations "compat.chaincode_version") sequence response;
        Ok [binding]
    end
  else Ok [].

(** [signer] is [None] for nil. *)
Definition bindChaincodeMetadata (signer : option (bytes → result bytes))
    (response : ProposalResponse) (original : Proposal) (namespace : string)
    (decorations : gmap string bytes) : result ProposalResponse :=
  let name := decoration decorations "compat.chaincode_name" in
  if bool_decide (name = "") then Ok response
  else
    cpp ← UnmarshalChaincodeProposalPayload (pp_Payload original);
    spec ← UnmarshalChaincodeInvocationSpec cpp.1;
    native ← UnmarshalTx (pr_Payload response);
    match Metadata native, Namespaces native, pr_Endorsement response, signer with
    | [sdk], [ns], Some endorsement, Some sign =>
        header ← UnmarshalHeader (Header original);
        channel ← UnmarshalChannelHeader (ChannelHeader header);
        binding ← gateway_record spec original namespace decorations (pr_Response response);
        identity ← MarshalChaincodeIdentity (ChannelId channel) name namespace;
        let metadata := [sdk] ++ binding ++ [identity] in
        data ← NsASN1Marshal ns (TxId channel) metadata;
        signature ← sign data;
        payload ← MarshalTx (mkTx [ns] metadata);
        Ok (mkProposalResponse (pr_Response response) payload
              (Some (mkEndorsement (Endorser endorsement) signature)))
    | _, _, _, _ => Err (ENew "invalid native endorsement for Gateway proposal binding")
    end.

(** ** [ProcessProposal] *)

Inductive outcome : Type :=
  | Returned (r : result ProposalResponse)
  | Panicked.

Record Service := mkService {
  s_channel : string;
  s_executors : gmap string Executor;
  s_builder : Invocation → ExecutionResult → result ProposalResponse;
  s_signer : option (bytes → result bytes);
  (** The SDK's [ExecutionResult.Response]. *)
  s_response : ExecutionResult → Response }.

Definition invalid (e : goerr) : outcome := Returned (Err (EStatus CodeInvalidArgument e)).
Definition internal (e : goerr) : outcome := Returned (Err (EStatus CodeInternal e)).

Definition with_version (version : string) (nsVersion : Z) (inv : Invocation) : Invocation :=
  mkInv (inv_TxID inv) (inv_Channel inv) (inv_Namespace inv) (inv_Args inv) (inv_Creator inv)
    (inv_Nonce inv) version nsVersion (inv_Proposal inv).

(** The endorsement of a completed execution; the log lines at its end read the first
    argument and the response. *)
Definition endorse (s : Service) (inv : Invocation) (original : Proposal)
    (decorations : gmap string bytes) (res : ExecutionResult) : outcome :=
  match s_builder s inv res with
  | Err e => internal (EWrap "endorsement: %s" e)
  | Ok end0 =>
      match bindChaincodeMetadata (s_signer s) end0 original (inv_Namespace inv) decorations with
      | Err e => internal (EWrap "bind chaincode metadata: %v" e)
      | Ok end1 =>
          match pr_Response end1, inv_Args inv with
          | Some _, _ :: _ => Returned (Ok end1)
          | _, _ => Panicked
          end
      end
  end.

(** From the creation of the execution context to the return. *)
Definition process_in_context (s : Service) (executor : Executor) (proposal : ClientProposalContext)
    (prop : option SignedProposal) (inv : Invocation) (st : exec_state)
    : option outcome * exec_state :=
  let inv := with_version (inv_ChaincodeVersion inv) (cp_NamespaceVersion proposal) inv in
  let creator := if bool_decide (cp_Creator proposal = "") then inv_Creator inv
                 else cp_Creator proposal in
  let nonce := if bool_decide (cp_Nonce proposal = "") then inv_Nonce inv else cp_Nonce proposal in
  match (match cp_SignedProposal proposal with Some sp => Some sp | None => prop end) with
  | None => (Some Panicked, st)
  | Some sp =>
      match UnmarshalProposal (ProposalBytes sp) with
      | Err e => (Some (invalid e), st)
      | Ok original =>
          if negb (bool_decide (ProposalIsInit (Some original) = Ok (Exec.isInit st.1)))
          then (Some (invalid (ENew "helper init intent differs from the original proposal")), st)
          else
            let c := Exec.SetDecorations (cp_Decorations proposal)
                       (Exec.SetClientSignedProposal (Some sp)
                         (Exec.SetClientNonce nonce (Exec.SetClientCreator creator st.1))) in
            match executor (c, st.2) inv with
            | (None, st') => (None, st')
            | (Some (Err e), st') => (Some (internal e), st')
            | (Some (Ok (res, _)), st') =>
                match Exec.Err_ st'.1 with
                | Some e => (Some (internal e), st')
                | None =>
                    if negb (status_ok (xr_Status res))
                    then (Some (Returned (Ok (mkProposalResponse (Some (s_response s res)) "" None))),
                          st')
                    else (Some (endorse s inv original (cp_Decorations proposal) res), st')
                end
            end
      end
  end.

(** The deferred close of the execution context. *)
Definition close_context (en : Exec.env) (r : option outcome * exec_state)
    : option outcome * option exec_state :=
  match r.1 with
  | None => (None, Some r.2)
  | Some o => (Some o, Some (Exec.Close en r.2.1 r.2.2).1)
  end.

Definition find_executor (s : Service) (namespace : string) : option Executor :=
  match s_executors s !! namespace with
  | Some x => Some x
  | None => s_executors s !! "*"
  end.

Definition ProcessProposal (s : Service) (en : Exec.env) (now : Z)
    (ctx : option ClientProposalContext) (prop : option SignedProposal)
    : option outcome * option exec_state :=
  match efab_Parse prop now with
  | Err e => (Some (invalid e), None)
  | Ok inv =>
      if negb (bool_decide (inv_Channel inv = s_channel s))
      then (Some (invalid (ENew "channel must be %s")), None)
      else
        match find_executor s (inv_Namespace inv) with
        | None => (Some (invalid (ENew "unknown namespace: %s")), None)
        | Some executor =>
            let inv := if bool_decide (inv_ChaincodeVersion inv = "")
                       then with_version "1.0" (inv_NsVersion inv) inv else inv in
            match ProposalIsInit (inv_Proposal inv) with
            | Err e => (Some (invalid e), None)
            | Ok isInit =>
                let c := Exec.set_client isInit "" "" None ∅
                           (Exec.NewExecutionContext true (inv_Namespace inv)) in
                close_context en
                  (process_in_context s executor (clientProposalFromContext ctx) prop inv (c, []))
            end
        end
  end.

(** ** Lemmas *)

(** The invocation and the state an executor is started with. *)
Definition started (s : Service) (now : Z) (ctx : option ClientProposalContext)
    (prop : option SignedProposal) (x : Executor) (inv : Invocation) (original : Proposal)
    (st : exec_state) : Prop :=
  ∃ inv0 sp creator nonce,
    efab_Parse prop now = Ok inv0 ∧ inv_Channel inv0 = s_channel s ∧
    find_executor s (inv_Namespace inv0) = Some x ∧
    (default prop (Some <$> cp_SignedProposal (clientProposalFromContext ctx))) = Some sp ∧
    UnmarshalProposal (ProposalBytes sp) = Ok original ∧
    ProposalIsInit (inv_Proposal inv0) = Ok (Exec.isInit st.1) ∧
    ProposalIsInit (Some original) = Ok (Exec.isInit st.1) ∧
    inv_Namespace inv = inv_Namespace inv0 ∧ inv_Args inv = inv_Args inv0 ∧
    inv_NsVersion inv = cp_NamespaceVersion (clientProposalFromContext ctx) ∧
    st = (Exec.set_client (Exec.isInit st.1) creator nonce (Some sp)
            (cp_Decorations (clientProposalFromContext ctx))
            (Exec.NewExecutionContext true (inv_Namespace inv0)), []).

Lemma process_cases s en now ctx prop o st' :
  ProcessProposal s en now ctx prop = (o, st') →
  (st' = None ∧ ∃ e, o = Some (invalid e)) ∨
  (∃ c, st' = Some (Exec.Close en c []).1 ∧ Exec.calls_ok c [] ∧ Exec.closed c = false ∧
     (o = Some Panicked ∨ ∃ e, o = Some (invalid e))) ∨
  ∃ x inv original st out st1,
    started s now ctx prop x inv original st ∧ x st inv = (out, st1) ∧
    match out with
    | None => o = None ∧ st' = Some st1
    | Some res =>
        st' = Some (Exec.Close en st1.1 st1.2).1 ∧
        o = Some (match res with
                  | Err e => internal e
                  | Ok (r, _) =>
                      match Exec.Err_ st1.1 with
                      | Some e => internal e
                      | None =>
                          if negb (status_ok (xr_Status r))
                          then Returned (Ok (mkProposalResponse (Some (s_response s r)) "" None))
                          else endorse s inv original
                                 (cp_Decorations (clientProposalFromContext ctx)) r
                      end
                  end)
    end.
Proof.
  unfold ProcessProposal. destruct (efab_Parse prop now) as [inv0|e] eqn:Hparse.
  2:{ intros [= <- <-]. left. eauto. }
  case_bool_decide as Hch; cbn [negb]; [|intros [= <- <-]; left; eauto].
  destruct (find_executor s (inv_Namespace inv0)) as [x|] eqn:Hx; [|intros [= <- <-]; left; eauto].
  set (inv1 := if bool_decide (inv_ChaincodeVersion inv0 = "")
    then with_version "1.0" (inv_NsVersion inv0) inv0 else inv0).
  assert (Hinv1 : inv_Proposal inv1 = inv_Proposal inv0 ∧ inv_Namespace inv1 = inv_Namespace inv0 ∧
    inv_Args inv1 = inv_Args inv0) by (unfold inv1; by case_bool_decide).
  destruct Hinv1 as (Hp1 & Hn1 & Ha1). rewrite Hp1, Hn1. clearbody inv1.
  destruct (ProposalIsInit (inv_Proposal inv0)) as [isInit|e] eqn:Hinit; [|intros [= <- <-]; left; eauto].
  set (c0 := Exec.set_client _ _ _ _ _ _). unfold close_context, process_in_context.
  set (cp := clientProposalFromContext ctx). cbn [fst snd].
  assert (Hearly : ∀ o', (o' = Panicked ∨ ∃ e, o' = invalid e) →
    (Some o', Some (Exec.Close en c0 []).1) = (o, st') →
    ∃ c, st' = Some (Exec.Close en c []).1 ∧ Exec.calls_ok c [] ∧ Exec.closed c = false ∧
      (o = Some Panicked ∨ ∃ e, o = Some (invalid e))).
  { intros o' Ho' [= <- <-]. exists c0. split_and!; [done|by left|done|naive_solver]. }
  assert (Hsp : (match cp_SignedProposal cp with Some sp => Some sp | None => prop end) =
    default prop (Some <$> cp_SignedProposal cp)) by (by destruct (cp_SignedProposal cp)).
  rewrite Hsp. destruct (default prop _) as [sp|] eqn:Hdef.
  2:{ intros H. right. left. eapply Hearly; [by left|exact H]. }
  destruct (UnmarshalProposal (ProposalBytes sp)) as [original|e] eqn:Horig.
  2:{ intros H. right. left. eapply Hearly; [by right; eexists|exact H]. }
  case_bool_decide as Hoi; cbn [negb].
  2:{ intros H. right. left. eapply Hearly; [by right; eexists|exact H]. }
  set (creator := if bool_decide (cp_Creator cp = "") then _ else _).
  set (nonce := if bool_decide (cp_Nonce cp = "") then _ else _).
  set (st := (Exec.SetDecorations _ _, [])). set (inv := with_version _ _ inv1).
  destruct (x st inv) as [out st1] eqn:Hexec. intros Ho. right. right.
  exists x, inv, original, st, out, st1.
  assert (Hst : started s now ctx prop x inv original st).
  { exists inv0, sp, creator, nonce. by split_and!. }
  split_and!; [done|done|].
  destruct out as [[[r meta]|e]|]; [|by injection Ho as <- <-..].
  destruct (Exec.Err_ st1.1); [by injection Ho as <- <-|].
  by destruct (negb _); injection Ho as <- <-.
Qed.

(** A read, a write or a delete. *)
Definition state_op (o : Exec.op) : Prop :=
  match o with
  | Exec.OpGet _ _ _ _ | Exec.OpPut _ _ | Exec.OpDel _ => True
  | _ => False
  end.

(** An executor that acts on the context by reads, writes and deletes. *)
Definition driven (en : Exec.env) (x : Executor) : Prop :=
  ∀ st inv, ∃ ops, (x st inv).2 = Exec.run en ops st ∧
    Forall state_op ops.

(** Without closing operations the context stays open. *)
Lemma run_open en ops c h :
  Forall state_op ops →
  Exec.closed (Exec.run en ops (c, h)).1 = Exec.closed c.
Proof.
  revert c h. induction ops as [|o ops IH]; intros c h Hops; [done|].
  apply Forall_cons in Hops as [Ho Hops].
  change (Exec.run en (o :: ops) (c, h)) with (Exec.run en ops (Exec.step en o (c, h))).
  destruct o as [gc bc rem key|key v|key| |v]; try done; cbn [Exec.step fst snd].
  - destruct (Exec.GetState en gc bc rem c h key) as [[c1 h1] r] eqn:HG. cbn [fst].
    rewrite (IH c1 h1 Hops).
    apply Exec.GetState_cases in HG as
      [(-> & _)|[(_ & _ & e & _ & -> & _)|(_ & _ & v & c2 & h2 & Hc2 & Hr)]]; [done..|].
    apply Exec.read_in_view_cases in Hr as [_ Hcase].
    assert (Hclosed : Exec.closed c2 = Exec.closed c).
    { destruct Hc2 as [(_ & -> & _)|(_ & -> & _)]; done. }
    destruct Hcase as [(e & _ & ->)|(value & l & _ & _ & _ & ->)]; done.
  - by rewrite IH.
  - by rewrite IH.
Qed.

(** Closing an open context ends the view it began. *)
Lemma close_released en c h ns :
  Exec.calls_ok c h → Exec.closed c = false → Exec.namespace c = ns →
  Exec.queryView c = None ∨ Exec.viewOwned c = true →
  let h' := (Exec.Close en c h).1.2 in
  h' = [] ∨ h' = [Exec.CallBegin] ∨
  ∃ v l, Exec.gets ns v l ∧ h' = Exec.CallBegin :: l ++ [Exec.CallEnd v].
Proof.
  unfold Exec.calls_ok, Exec.Close. intros Hok Hc Hns Hown. rewrite Hc in *. simpl.
  destruct (Exec.viewOwned c).
  - destruct Hok as (v & l & Hv & Hl & ->). rewrite Hv. simpl. right. right. exists v, l.
    rewrite <- Hns, app_nil_r. done.
  - destruct Hown as [Hv|]; [|done]. rewrite Hv in Hok. destruct Hok as [-> |[-> _]]; auto.
Qed.

(** A context that began without a view owns the one it has. *)
Lemma run_owned en ops c h :
  Forall state_op ops →
  Exec.queryView c = None ∨ Exec.viewOwned c = true →
  let c' := (Exec.run en ops (c, h)).1 in
  Exec.queryView c' = None ∨ Exec.viewOwned c' = true.
Proof.
  revert c h. induction ops as [|o ops IH]; intros c h Hops Hown; [done|].
  apply Forall_cons in Hops as [Ho Hops].
  change (Exec.run en (o :: ops) (c, h)) with (Exec.run en ops (Exec.step en o (c, h))).
  destruct o as [gc bc rem key|key v|key| |v]; try done; cbn [Exec.step fst snd].
  - destruct (Exec.GetState en gc bc rem c h key) as [[c1 h1] r] eqn:HG. cbn [fst].
    apply IH; [done|].
    apply Exec.GetState_cases in HG as
      [(-> & _)|[(_ & _ & e & _ & -> & _)|(_ & _ & v & c2 & h2 & Hc2 & Hr)]]; [done..|].
    apply Exec.read_in_view_cases in Hr as [_ Hcase].
    assert (Hown2 : Exec.queryView c2 = None ∨ Exec.viewOwned c2 = true).
    { destruct Hc2 as [(_ & -> & _)|(_ & -> & _)]; [done|by right]. }
    destruct Hcase as [(e & _ & ->)|(value & l & _ & _ & _ & ->)]; done.
  - by apply IH.
  - by apply IH.
Qed.

End Metadata.

(** ** The executor over the shim *)

Lemma omap_op_of_ops {SP : Shim.ShimProto} qs :
  Forall state_op (omap Shim.op_of qs).
Proof.
  apply Forall_forall. intros o (q & _ & Hq)%list_elem_of_omap. unfold Shim.op_of in Hq.
  destruct (Shim.request_of q.2); by simplify_eq.
Qed.

Lemma handler_driven {SP : Shim.ShimProto} en io inv rs st log :
  ∃ ops, (Shim.handler_Execute (SS := Shim.ExecutionContext_State en) io inv rs st log).1.2 =
      Exec.run en ops st ∧
    Forall state_op ops.
Proof.
  unfold Shim.handler_Execute. destruct (Shim.sendTransaction io inv log) as [log1 [e|]].
  { exists []. split; [done|apply Forall_nil_2]. }
  destruct (Shim.loop io rs st log1) as [[out st'] log'] eqn:Hl.
  apply Shim.loop_exact in Hl as (n & _ & _ & Hfold & _).
  exists (omap Shim.op_of (Shim.requests (take n rs))). split; [|apply omap_op_of_ops].
  rewrite <- (Shim.serve_run en _ _ log1). by rewrite <- Hfold.
Qed.

Lemma ChaincodeServiceExecutor_driven {SP : Shim.ShimProto} en io connector ctx dl rs :
  driven en (ChaincodeServiceExecutor en io connector ctx dl rs).
Proof.
  intros st inv. unfold ChaincodeServiceExecutor.
  destruct connector; cbn [negb]; [|exists []; split; [done|apply Forall_nil_2]].
  set (sinv := Shim.mkInvocation _ _ _ _ _ _ _ _ _).
  assert (Hdrive : ∃ ops, default st
      (Shim.Execute (SS := Shim.ExecutionContext_State en) io ctx dl sinv rs (Some st)).1.2 =
        Exec.run en ops st ∧
      Forall state_op ops).
  { unfold Shim.Execute. destruct ctx; [exists []; split; [done|apply Forall_nil_2]|].
    destruct (Shim.openStream io dl) as [log [u|e]]; [|exists []; split; [done|apply Forall_nil_2]].
    unfold Shim.execute_stream.
    destruct (Shim.receiveRegister rs) as [[[ccid|e] rest]|];
      [|exists []; split; [done|apply Forall_nil_2]..].
    destruct (Shim.send io _ _) as [log1 [e|]]; [exists []; split; [done|apply Forall_nil_2]|].
    destruct (Shim.send io _ _) as [log2 [e|]]; [exists []; split; [done|apply Forall_nil_2]|].
    destruct (handler_driven en io sinv rest st log2) as (ops & Hrun & Hops).
    exists ops. split; [|done]. rewrite <- Hrun.
    destruct (Shim.handler_Execute (SS := Shim.ExecutionContext_State en) io sinv rest st log2) as [[[[r|e]|] s'] log3]; simpl; [|done..].
    by destruct (Shim.ans_closeSend io log3). }
  destruct Hdrive as (ops & Hrun & Hops). exists ops. split; [|done]. rewrite <- Hrun.
  destruct (Shim.Execute (SS := Shim.ExecutionContext_State en) io ctx dl sinv rs (Some st)) as [[[[r|e]|] s'] log]; done.
Qed.

(** ** Properties *)

(** C34: The helper answers a proposal without error only after the chaincode executed for
    the proposal's namespace and channel, with the init intent of both the received and
    the original proposal, and no state read failed; a failing chaincode status gives the
    response alone, without an endorsement, and any other answer is the builder's
    endorsement of that very execution with its metadata bound and signed. *)
Theorem ProcessProposal_endorses {J : JSONText} {PU : ProtoUtil} s en now ctx prop rsp st' :
  ProcessProposal s en now ctx prop = (Some (Returned (Ok rsp)), st') →
  ∃ x inv original st r meta st1,
    started s now ctx prop x inv original st ∧ x st inv = (Some (Ok (r, meta)), st1) ∧
    Exec.Err_ st1.1 = None ∧ st' = Some (Exec.Close en st1.1 st1.2).1 ∧
    (status_ok (xr_Status r) = false ∧ pr_Endorsement rsp = None ∧ pr_Payload rsp = "" ∧
       pr_Response rsp = Some (s_response s r) ∨
     status_ok (xr_Status r) = true ∧ ∃ end0, s_builder s inv r = Ok end0 ∧
       bindChaincodeMetadata (s_signer s) end0 original (inv_Namespace inv)
         (cp_Decorations (clientProposalFromContext ctx)) = Ok rsp).
Proof.
  intros H. apply process_cases in H as
    [(-> & e & ?)|[(c & -> & _ & _ & [?|(e & ?)])|
      (x & inv & original & st & out & st1 & Hst & Hx & Hout)]]; [done..|].
  destruct out as [[[r meta]|e]|]; [|by destruct Hout as [_ ?]|by destruct Hout as [? _]].
  destruct Hout as [-> Hout]. exists x, inv, original, st, r, meta, st1.
  destruct (Exec.Err_ st1.1); [done|]. split_and!; try done.
  destruct (status_ok (xr_Status r)); cbn [negb] in Hout.
  - right. split; [done|]. unfold endorse in Hout.
    destruct (s_builder s inv r) as [end0|e]; [|done]. exists end0. split; [done|].
    destruct (bindChaincodeMetadata _ _ _ _ _) as [end1|e]; [|done].
    destruct (pr_Response end1), (inv_Args inv); simplify_eq; done.
  - left. by injection Hout as ->.
Qed.

Definition ex_executor : Executor := λ st inv,
  (Some (Ok (mkExecResult (Exec.Result st.1) "" "" 200 "" "ok", None)),
   Exec.run Exec.ex_env [Exec.OpGet None None None "k"; Exec.OpPut "k" "y"] st).

Definition ex_service : Service :=
  mkService "ch" {["*" := ex_executor]}
    (λ inv r, Ok (mkProposalResponse (Some (mkResponse (xr_Status r) "" (xr_Payload r))) "native"
                    (Some (mkEndorsement "endorser" "old"))))
    (Some (λ data, Ok ("signed:" +:+ data)))
    (λ r, mkResponse (xr_Status r) (xr_Message r) (xr_Payload r)).

Definition ex_decorations : gmap string bytes :=
  {["compat.chaincode_name" := "cc"; "compat.chaincode_version" := "1.0";
    "compat.chaincode_sequence" := "2"]}.

Definition ex_client : option ClientProposalContext :=
  WithClientProposal None (mkClient "" "" None ex_decorations false 1).

Definition ex_prop : option SignedProposal := Some (mkSignedProposal "proposal" "sig").

Lemma ProcessProposal_endorses_witness :
  ∃ rsp st', ProcessProposal (J := example_json) (PU := example_util) ex_service Exec.ex_env 0
      ex_client ex_prop = (Some (Returned (Ok rsp)), st') ∧
    Signature <$> pr_Endorsement rsp = Some "signed:nstx1" ∧
    ∃ inv original r end0, s_builder ex_service inv r = Ok end0 ∧
      bindChaincodeMetadata (J := example_json) (PU := example_util) (s_signer ex_service) end0
        original (inv_Namespace inv) ex_decorations = Ok rsp.
Proof.
  do 2 eexists. split; [vm_compute; reflexivity|]. split; [vm_compute; reflexivity|].
  edestruct (ProcessProposal_endorses (J := example_json) (PU := example_util) ex_service
    Exec.ex_env 0 ex_client ex_prop) as (x & inv & original & st & r & meta & st1 & _ & _ & _ & _ & Hcase);
    [vm_compute; reflexivity|].
  destruct Hcase as [(_ & He & _)|(_ & end0 & Hb & Hbind)]; [discriminate He|].
  exists inv, original, r, end0. split; [exact Hb|exact Hbind].
Defined.

(** Whatever the outcome, even a crash of the handler, a proposal whose execution came
    back leaves no Query Service view open: nothing was begun, or beginning it failed, or
    the calls are one [BeginView], reads of the namespace and the matching [EndView]. *)
Theorem ProcessProposal_releases_view {J : JSONText} {PU : ProtoUtil} s en now ctx prop o c' h' :
  (∀ ns x, s_executors s !! ns = Some x → driven en x) →
  ProcessProposal s en now ctx prop = (Some o, Some (c', h')) →
  h' = [] ∨ h' = [Exec.CallBegin] ∨
  ∃ v l ns, Exec.gets ns v l ∧ h' = Exec.CallBegin :: l ++ [Exec.CallEnd v].
Proof.
  intros Hdriven H. apply process_cases in H as
    [(? & _)|[(c & Hst' & Hok & Hc & _)|
      (x & inv & original & st & out & st1 & Hst & Hx & Hout)]]; [done|..].
  - injection Hst' as Hst'. assert (h' = (Exec.Close en c []).1.2) as -> by (by rewrite <- Hst').
    unfold Exec.Close. rewrite Hc. simpl. unfold Exec.calls_ok in Hok.
    destruct (Exec.viewOwned c); [by destruct Hok as (? & ? & _ & _ & ?)|by left].
  - destruct out as [res|]; [|by destruct Hout].
    destruct Hout as [Hst' _]. injection Hst' as Hst'.
    assert (h' = (Exec.Close en st1.1 st1.2).1.2) as -> by (by rewrite <- Hst').
    destruct Hst as (inv0 & sp & creator & nonce & _ & _ & Hfind & _ & _ & _ & _ & _ & _ & _ & Est).
    assert (Hd : driven en x).
    { unfold find_executor in Hfind. destruct (s_executors s !! inv_Namespace inv0) eqn:E;
        simplify_eq; eauto. }
    destruct (Hd st inv) as (ops & Hrun & Hops). rewrite Hx in Hrun. cbn [snd] in Hrun.
    set (c0 := st.1) in *. assert (Hst : st = (c0, [])) by (unfold c0; by rewrite Est).
    assert (Hc0 : Exec.calls_ok c0 [] ∧ Exec.closed c0 = false ∧ Exec.queryView c0 = None).
    { rewrite Hst in Est. injection Est as ->. split_and!; [by left|done|done]. }
    destruct Hc0 as (Hok0 & Hcl0 & Hv0). rewrite Hst in Hrun.
    pose proof (Exec.run_ok en ops c0 [] (λ _ _ _, Exec.mkVersioned "" None) Hok0) as Hok.
    pose proof (run_open en ops c0 [] Hops) as Hopen.
    pose proof (run_owned en ops c0 [] Hops (or_introl Hv0)) as Hown.
    rewrite <- Hrun in Hok, Hopen, Hown. destruct st1 as [c1 h1]. cbn [fst snd] in *.
    destruct Hok as (Hok & _). rewrite Hcl0 in Hopen.
    destruct (close_released en c1 h1 _ Hok Hopen eq_refl Hown) as [?|[?|(v & l & Hl & Hh)]]; [by left|by right; left|].
    right. right. by exists v, l, (Exec.namespace c1).
Qed.

Lemma ProcessProposal_releases_view_witness :
  ∃ o c' h', ProcessProposal (J := example_json) (PU := example_util) ex_service Exec.ex_env 0
      ex_client ex_prop = (Some o, Some (c', h')) ∧
    h' = [Exec.CallBegin; Exec.CallGet (Exec.mkView "v1") "cc:ns" "k"; Exec.CallEnd (Exec.mkView "v1")] ∧
    (h' = [] ∨ h' = [Exec.CallBegin] ∨
     ∃ v l ns, Exec.gets ns v l ∧ h' = Exec.CallBegin :: l ++ [Exec.CallEnd v]).
Proof.
  do 3 eexists. split; [vm_compute; reflexivity|]. split; [reflexivity|].
  eapply (ProcessProposal_releases_view (J := example_json) (PU := example_util) ex_service
    Exec.ex_env 0 ex_client ex_prop); [|vm_compute; reflexivity].
  intros ns x Hx. unfold ex_service in Hx. cbn [s_executors] in Hx.
  apply lookup_singleton_Some in Hx as [_ <-]. intros st inv.
  exists [Exec.OpGet None None None "k"; Exec.OpPut "k" "y"]. split; [reflexivity|].
  repeat constructor.
Defined.

(** The helper's own identity record is read back. *)
Lemma identity_record_read {J : JSONText} {JL : JSONLaws} channel name namespace record :
  valid_utf8 channel = true → valid_utf8 name = true → valid_utf8 namespace = true →
  MarshalChaincodeIdentity channel name namespace = Ok record →
  ∀ rest, identity_records (record :: rest) None =
    identity_records rest (Some (mkIdentity chaincodeIdentityType 1 channel name namespace)).
Proof.
  intros Hu1 Hu2 Hu3 H rest. unfold MarshalChaincodeIdentity in H.
  destruct (_ || _) eqn:Hne; [done|]. injection H as <-. bool_props.
  set (i := mkIdentity chaincodeIdentityType 1 channel name namespace).
  assert (Hi : json_decode (json_encode (identity_json i)) = Some (identity_json i)).
  { apply json_decode_encode. unfold valid_object, i.
    cbn [forallb identity_json fst snd valid_scalar ci_Type ci_Version ci_ChannelID
      ci_ChaincodeName ci_Namespace].
    assert (Hascii : ∀ s, forallb (λ a, byte_of a <? 128) (String.list_ascii_of_string s) = true →
      valid_utf8 s = true) by apply valid_utf8_ascii.
    rewrite Hu1, Hu2, Hu3, !Hascii by done. done. }
  cbn [identity_records]. unfold record_kind, json_object. rewrite Hi.
  rewrite bool_decide_eq_true_2 by done. cbn [mbind result_mbind].
  change (identity_of_json (identity_json i)) with (Ok i).
  rewrite (bool_decide_eq_false_2 (is_Some None)) by (by intros [? ?]).
  rewrite (bool_decide_eq_false_2 (ci_ChannelID i = "")) by done.
  rewrite (bool_decide_eq_false_2 (ci_ChaincodeName i = "")) by done.
  by rewrite (bool_decide_eq_false_2 (ci_Namespace i = "")) by done.
Qed.

(** The text of a binding is read back. *)
Lemma binding_text {J : JSONText} {JL : JSONLaws} hash version sequence r :
  valid_utf8 version = true → valid_utf8 (Message r) = true →
  json_decode (json_encode (binding_json hash version sequence r)) =
    Some (binding_json hash version sequence r).
Proof.
  intros Hu1 Hu2. apply json_decode_encode. unfold valid_object.
  cbn [forallb binding_json fst snd]. rewrite JBytes_valid. cbn [valid_scalar].
  assert (Hascii : ∀ s, forallb (λ a, byte_of a <? 128) (String.list_ascii_of_string s) = true →
    valid_utf8 s = true) by apply valid_utf8_ascii.
  rewrite Hu1, Hu2, !Hascii by done. done.
Qed.

(** A Gateway binding is another consumer's record. *)
Lemma gateway_record_skipped {J : JSONText} {JL : JSONLaws} {PU : ProtoUtil} spec original namespace
    decorations response records rest :
  valid_utf8 (decoration decorations "compat.chaincode_version") = true →
  valid_utf8 (from_option Message "" response) = true →
  gateway_record spec original namespace decorations response = Ok records →
  identity_records (records ++ rest) None = identity_records rest None.
Proof.
  intros Hu1 Hu2 H. unfold gateway_record in H. case_bool_decide; [|by injection H as <-].
  destruct (GoStrings.ParseInt _) as [seq|e]; [|done].
  apply bind_ok in H as (bnd & Hm & [= <-]). unfold MarshalGatewayProposalBinding in Hm.
  destruct response as [r|]; [|done]. destruct (_ || _); [done|].
  apply bind_ok in Hm as (hd & _ & Hm). apply bind_ok in Hm as (hash & _ & [= <-]).
  pose proof (binding_text hash (decoration decorations "compat.chaincode_version") seq r Hu1 Hu2) as Hb.
  set (o := binding_json _ _ _ _) in *.
  assert (Hk : record_kind (json_encode o) ≠ Ok chaincodeIdentityType).
  { unfold record_kind, json_object. by rewrite Hb. }
  cbn [app identity_records]. by rewrite (bool_decide_eq_false_2 _ Hk).
Qed.

(** The metadata the helper signs names the chaincode: reading it back, as the event
    service does from committed blocks, gives the proposal's channel, the decorated
    chaincode name and the namespace, whether or not a Gateway binding precedes it; and
    the endorsement's signature is over exactly that metadata. *)
Theorem chaincode_identity_roundtrip {J : JSONText} {JL : JSONLaws} {PU : ProtoUtil} sign response
    original namespace decorations rsp channel header :
  let name := decoration decorations "compat.chaincode_name" in
  name ≠ "" → UnmarshalHeader (Header original) = Ok header →
  UnmarshalChannelHeader (ChannelHeader header) = Ok channel →
  Forall (λ s, valid_utf8 s = true)
    [name; namespace; ChannelId channel; decoration decorations "compat.chaincode_version";
     from_option Message "" (pr_Response response)] →
  bindChaincodeMetadata (Some sign) response original namespace decorations = Ok rsp →
  ∃ ns metadata data,
    MarshalTx (mkTx [ns] metadata) = Ok (pr_Payload rsp) ∧
    ChaincodeIdentityFromMetadata metadata =
      Ok (Some (mkIdentity chaincodeIdentityType 1 (ChannelId channel) name namespace)) ∧
    NsASN1Marshal ns (TxId channel) metadata = Ok data ∧
    sign data = Signature <$> from_option Ok (Err (ENew "")) (pr_Endorsement rsp).
Proof.
  cbn zeta. set (name := decoration decorations "compat.chaincode_name").
  intros Hname Hh Hch Hutf H. unfold bindChaincodeMetadata in H. fold name in H.
  rewrite bool_decide_eq_false_2 in H by done. inv_ok.
  destruct (Metadata x1) as [|sdk [|]]; try done.
  destruct (Namespaces x1) as [|ns [|]]; try done.
  destruct (pr_Endorsement response) as [en|]; [|done]. inv_ok.
  repeat match goal with
  | Ha : UnmarshalHeader _ = Ok ?a |- _ =>
      tryif constr_eq a header then fail else (assert (a = header) by congruence; subst a; clear Ha)
  | Ha : UnmarshalChannelHeader _ = Ok ?a |- _ =>
      tryif constr_eq a channel then fail else (assert (a = channel) by congruence; subst a; clear Ha)
  end.
  match goal with Hb : gateway_record _ _ _ _ _ = Ok ?b, Hi : MarshalChaincodeIdentity _ _ _ = Ok ?i,
    Hd : NsASN1Marshal _ _ _ = Ok ?d |- _ =>
      rename b into binding; rename i into identity; rename Hb into Hbind; rename Hi into Hid;
      exists ns, (sdk :: binding ++ [identity]), d end.
  split_and!; [done| |done|done].
  apply Forall_cons in Hutf as [Hu1 Hutf]. apply Forall_cons in Hutf as [Hu2 Hutf].
  apply Forall_cons in Hutf as [Hu3 Hutf]. apply Forall_cons in Hutf as [Hu4 Hutf].
  apply Forall_cons in Hutf as [Hu5 _].
  assert (Hbinding : identity_records (binding ++ [identity]) None =
    Ok (Some (mkIdentity chaincodeIdentityType 1 (ChannelId channel) name namespace))).
  { rewrite (gateway_record_skipped _ _ _ _ _ _ _ Hu4 Hu5 Hbind).
    by rewrite (identity_record_read _ _ _ _ Hu3 Hu1 Hu2 Hid). }
  unfold ChaincodeIdentityFromMetadata. cbn [length].
  rewrite length_app. cbn [length]. rewrite Nat.add_1_r. exact Hbinding.
Qed.

Lemma chaincode_identity_roundtrip_witness :
  ∃ rsp, bindChaincodeMetadata (J := example_json) (PU := example_util) (Some (λ data, Ok data))
      (mkProposalResponse (Some (mkResponse 200 "ok" "")) "native" (Some (mkEndorsement "e" "s")))
      (mkProposal "h" "p" "") "ns" ex_decorations = Ok rsp ∧
    ∃ metadata, ChaincodeIdentityFromMetadata (J := example_json) metadata =
      Ok (Some (mkIdentity chaincodeIdentityType 1 "ch" "cc" "ns")).
Proof.
  eexists. split; [vm_compute; reflexivity|].
  edestruct (chaincode_identity_roundtrip (J := example_json) (JL := example_json_laws)
    (PU := example_util) (λ data, Ok data)
    (mkProposalResponse (Some (mkResponse 200 "ok" "")) "native" (Some (mkEndorsement "e" "s")))
    (mkProposal "h" "p" "") "ns" ex_decorations) as (ns & metadata & data & _ & Hid & _);
    [discriminate|reflexivity|reflexivity|repeat constructor|vm_compute; reflexivity|].
  exists metadata. exact Hid.
Defined.

End Helper.
