(* ===== verification/Requests.v ===== *)
(** Invocation requests: how [pkg/orchestrator/service.go] makes them from proposals and
    metadata, [init.go], the lifecycle selection of [lifecycle_executor.go], and the
    digest that tells a retry from another request.

    Incoming gRPC metadata is a function from keys to values; a nil lifecycle store is
    [None]. *)
From Stdlib Require Import ZArith Lia Ascii.
From stdpp Require Import base option list strings gmap sorting.
From S2P Require Import Prelude LifecycleStore OrchestratorTypes Proto ExecContext Shim Json.
From S2P Require Import GoStrings Helper Msp EndorsementPolicy EndorsementSearch Collect.
Import Types Proto.
Local Open Scope Z_scope.

Module Requests.

Definition incoming : Type := string → list string.

Definition GRPCOperationMetadata : string := "x-compat-operation".
Definition GRPCNamespaceMetadata : string := "x-compat-namespace".
Definition GRPCInitMetadata : string := "x-compat-is-init".
Definition GRPCOperationInvoke : string := "invoke".
Definition GRPCOperationQuery : string := "query".
Definition GRPCOperationEndorse : string := "endorse".

(** ** Assignments to a request *)

Definition with_route (name ns : string) (r : InvocationRequest) : InvocationRequest :=
  mkRequest (definition r) (ClientTxID r) (ClientCreator r) (ClientNonce r)
    (ClientSignedProposal r) (ClientTransient r) (EndorsingOrganizations r) (IdempotencyKey r)
    (RequestDigest r) ns name (ChaincodeVersion r) (IsInit r) (Function r) (Args r).

Definition with_client (txid : string) (creator nonce : bytes) (sp : option SignedProposal)
    (r : InvocationRequest) : InvocationRequest :=
  mkRequest (definition r) txid creator nonce sp (ClientTransient r) (EndorsingOrganizations r)
    (IdempotencyKey r) (RequestDigest r) (Namespace r) (ChaincodeName r) (ChaincodeVersion r)
    (IsInit r) (Function r) (Args r).

Definition with_definition (d : Store.CommittedDefinition) (r : InvocationRequest)
    : InvocationRequest :=
  mkRequest (Some d) (ClientTxID r) (ClientCreator r) (ClientNonce r) (ClientSignedProposal r)
    (ClientTransient r) (EndorsingOrganizations r) (IdempotencyKey r) (RequestDigest r)
    (Namespace r) (ChaincodeName r) (Store.Version (Store.com_Definition d)) (IsInit r)
    (Function r) (Args r).

Definition with_identity (key digest : string) (r : InvocationRequest) : InvocationRequest :=
  mkRequest (definition r) (ClientTxID r) (ClientCreator r) (ClientNonce r)
    (ClientSignedProposal r) (ClientTransient r) (EndorsingOrganizations r) key digest
    (Namespace r) (ChaincodeName r) (ChaincodeVersion r) (IsInit r) (Function r) (Args r).

Definition with_orgs (orgs : list string) (r : InvocationRequest) : InvocationRequest :=
  mkRequest (definition r) (ClientTxID r) (ClientCreator r) (ClientNonce r)
    (ClientSignedProposal r) (ClientTransient r) orgs (IdempotencyKey r) (RequestDigest r)
    (Namespace r) (ChaincodeName r) (ChaincodeVersion r) (IsInit r) (Function r) (Args r).

(** ** From proposals and metadata *)

Definition invocationArgs (req : InvocationRequest) : list bytes :=
  if bool_decide (Function req = "") then [] else Function req :: Args req.

(** [default_ns] is the configured namespace. *)
Definition prepareInvocation (default_ns : string) (req : InvocationRequest)
    : result (string * list bytes) :=
  let namespace := if bool_decide (Namespace req = "") then default_ns else Namespace req in
  if bool_decide (namespace = "") then Err (ENew "namespace is required")
  else match invocationArgs req with
       | [] => Err (ENew "function is required")
       | args => Ok (namespace, args)
       end.

Definition operationFromContext (md : incoming) : result string :=
  match md GRPCOperationMetadata with
  | [] => Err (ENew "missing %s metadata")
  | v :: _ =>
      if bool_decide (v = GRPCOperationInvoke) then Ok GRPCOperationInvoke
      else if bool_decide (v = GRPCOperationQuery) then Ok GRPCOperationQuery
      else if bool_decide (v = GRPCOperationEndorse) then Ok GRPCOperationEndorse
      else Err (ENew "unknown orchestrator operation %q")
  end.

Definition namespaceFromContext (md : incoming) : option string :=
  match md GRPCNamespaceMetadata with
  | [] => None
  | v :: _ => if bool_decide (v = "") then None else Some v
  end.

Definition empty_request : InvocationRequest :=
  mkRequest None "" "" "" None ∅ [] "" "" "" "" "" false "" [].

Definition requestFromProposal {PU : ProtoUtil} (inv : Invocation) : result InvocationRequest :=
  match inv_Args inv with
  | [] => Err (ENew "orchestrator proposal requires function")
  | f :: rest =>
      if bool_decide (f = "") then Err (ENew "orchestrator proposal requires function")
      else
        match inv_Proposal inv with
        | None =>
            Ok (mkRequest None "" "" "" None ∅ [] "" "" "" (inv_Namespace inv)
                  (inv_ChaincodeVersion inv) false f rest)
        | Some p =>
            match UnmarshalChaincodeProposalPayload (pp_Payload p) with
            | Err e => Err (EWrap "unmarshal proposal payload: %w" e)
            | Ok cpp =>
                isInit ← Helper.ProposalIsInit (Some p);
                Ok (mkRequest None "" "" "" None cpp.2 [] "" "" "" (inv_Namespace inv)
                      (inv_ChaincodeVersion inv) isInit f rest)
            end
        end
  end.

(** [strings.Cut(name, ":")]. *)
Fixpoint Cut (s : string) : option (string * string) :=
  match s with
  | EmptyString => None
  | String c r =>
      if Ascii.eqb c ":" then Some ("", r) else (λ p, (String c p.1, p.2)) <$> Cut r
  end.

Definition gatewayChaincodeRoute (name : string) : result (string * string) :=
  let e := ENew "Gateway chaincode name must be <name>:<namespace>" in
  match Cut name with
  | None => Err e
  | Some (chaincode, namespace) =>
      if bool_decide (chaincode = "") || bool_decide (namespace = "") ||
         GoStrings.has_char ":" namespace ||
         negb (bool_decide (GoStrings.TrimSpace chaincode = chaincode)) ||
         negb (bool_decide (GoStrings.TrimSpace namespace = namespace))
      then Err e else Ok (chaincode, namespace)
  end.

Definition txIDFromProposal {PU : ProtoUtil} (prop : option Proposal) : result string :=
  match prop with
  | None => Err (ENew "proposal is nil")
  | Some p =>
      match UnmarshalHeader (Header p) with
      | Err e => Err (EWrap "unmarshal proposal header: %w" e)
      | Ok hdr =>
          match UnmarshalChannelHeader (ChannelHeader hdr) with
          | Err e => Err (EWrap "unmarshal channel header: %w" e)
          | Ok chdr => Ok (TxId chdr)
          end
      end
  end.

Definition txIDFromEndorsement {PU : ProtoUtil} (en : SdkEndorsement) : result string :=
  match end_Proposal en with
  | None => Err (ENew "endorsement has no proposal")
  | p => txIDFromProposal p
  end.

Definition responseFromPeer (txID : string) (resp : Response) : InvocationResponse :=
  mkInvocationResponse txID (Status resp) (Message resp) (Payload resp)
    (Json.base64 (Payload resp)) false false "" 0 0 "" false None [].

Definition containsMSP (msps : list string) (target : string) : bool :=
  existsb (λ m, bool_decide (m = target)) msps.

Definition gatewayResponseError (response : option Response) : option goerr :=
  match response with
  | None => Some (EStatus CodeInternal (ENew "execution returned no chaincode response"))
  | Some r =>
      if negb (status_ok (Status r))
      then Some (EStatus CodeUnknown (ENew "chaincode response %d: %s")) else None
  end.

Definition gatewayEvaluationResponse (response : option Response) : result (option Response) :=
  match gatewayResponseError response with
  | Some e => Err e
  | None => Ok response
  end.

Definition compatibilityDecorations (namespace name version : string) : gmap string bytes :=
  {["compat.decorator" := "orchestrator"; "compat.namespace" := namespace;
    "compat.chaincode_name" := name; "compat.chaincode_version" := version]}.

Definition invocationRPCError (ctxErr : ctx_err) (e : goerr) : goerr :=
  match ctxErr with
  | Some c => status_FromContextError c
  | None =>
      match status_FromError e with
      | Some _ => e
      | None => EStatus CodeInternal e
      end
  end.

(** ** Init intent and the lifecycle definition *)

Fixpoint check_init_metadata (values : list string) (isInit : bool) : result () :=
  match values with
  | [] => Ok ()
  | v :: rest =>
      if negb (bool_decide (v = "true")) && negb (bool_decide (v = "false"))
      then Err (ENew "invalid is-init metadata %q")
      else if negb (eqb (bool_decide (v = "true")) isInit)
      then Err (ENew "is-init metadata conflicts with the signed proposal")
      else check_init_metadata rest isInit
  end.

Definition validateInitMetadata (md : incoming) (isInit : bool) : result () :=
  check_init_metadata (md GRPCInitMetadata) isInit.

Definition selectLifecycleDefinition (store : option Store.Store) (req : InvocationRequest)
    : result InvocationRequest :=
  match store with
  | None => Ok req
  | Some s =>
      if bool_decide (ChaincodeName req = "") then Ok req
      else
        match Store.GetCommitted s (ChaincodeName req) with
        | Err e => Err e
        | Ok (Some committed) => Ok (with_definition committed req)
        | Ok None => Ok req
        end
  end.

Definition validateInitState (store : option Store.Store) (req : InvocationRequest)
    (operation : string) : result (option Store.ChaincodeDefinition) :=
  if IsInit req && bool_decide (operation = GRPCOperationQuery)
  then Err (ENew "is-init is only valid for invoke")
  else
    match store with
    | None =>
        if IsInit req then Err (ENew "initialization requires a lifecycle definition") else Ok None
    | Some s =>
        if bool_decide (ChaincodeName req = "") then
          if IsInit req then Err (ENew "initialization requires a chaincode name") else Ok None
        else
          let committed :=
            match definition req with
            | Some d => Ok (Some d)
            | None => Store.GetCommitted s (ChaincodeName req)
            end in
          match committed with
          | Err e => Err e
          | Ok None =>
              if IsInit req
              then Err (ENew "initialization requires a committed definition for %s:%s") else Ok None
          | Ok (Some committed) =>
              let def := Store.com_Definition committed in
              if IsInit req then
                if negb (Store.InitRequired def)
                then Err (ENew "chaincode %s:%s does not require init")
                else if Store.com_Initialized committed
                then Err (ENew "chaincode %s:%s sequence %d is already initialized")
                else Ok (Some def)
              else if Store.InitRequired def && negb (Store.com_Initialized committed)
              then Err (ENew "chaincode %s:%s sequence %d requires init before invoke/query")
              else Ok None
          end
    end.

(** ** The request digest *)

(** [binary.BigEndian.PutUint64]. *)
Fixpoint be_bytes (n : nat) (z : Z) : string :=
  match n with
  | O => ""
  | S n => be_bytes n (z / 256) +:+ String (GoStrings.byte_at (z mod 256)) ""
  end.

Definition writeDigestBytes (value : bytes) : bytes :=
  be_bytes 8 (Z.of_nat (String.length value)) +:+ value.

Definition writeDigestString (value : string) : bytes := writeDigestBytes value.

Definition write_all (l : list bytes) : bytes := foldr (λ v acc, writeDigestBytes v +:+ acc) "" l.

(** What [writeDigestByteMap] writes: the keys in order, each before its value. *)
Definition map_fields (m : gmap string bytes) : list bytes :=
  k ← Collect.sort_strings (map_to_list m).*1; [k; default "" (m !! k)].

Definition writeDigestByteMap (m : gmap string bytes) : bytes := write_all (map_fields m).

Definition operationName (submit : bool) : string := if submit then "invoke" else "query".

(** All that is written before the digest is taken. *)
Definition digest_input (channel namespace : string) (req : InvocationRequest) (submit : bool)
    : bytes :=
  writeDigestString "v2" +:+ writeDigestString (operationName submit) +:+
  writeDigestString (ClientTxID req) +:+ writeDigestString channel +:+
  writeDigestString namespace +:+ writeDigestString (ChaincodeName req) +:+
  writeDigestString (ChaincodeVersion req) +:+
  writeDigestString (if IsInit req then "true" else "false") +:+
  writeDigestString (Function req) +:+ writeDigestBytes (ClientCreator req) +:+
  write_all (Args req) +:+ writeDigestByteMap (ClientTransient req).

(** [hash] is the hexadecimal SHA-256. *)
Definition requestDigest (hash : bytes → string) (channel namespace : string)
    (req : InvocationRequest) (submit : bool) : string :=
  hash (digest_input channel namespace req submit).

Definition idempotencyIdentity (hash : bytes → string) (channel namespace : string)
    (req : InvocationRequest) (submit : bool) : string * string :=
  let digest := requestDigest hash channel namespace req submit in
  if bool_decide (ClientTxID req = "") then (digest, digest) else (ClientTxID req, digest).

(** ** Lemmas *)

Lemma str_app_assoc (a b c : string) : (a +:+ b) +:+ c = a +:+ (b +:+ c).
Proof.
  induction a as [|x a IH]; [done|].
  change (String x ((a +:+ b) +:+ c) = String x (a +:+ (b +:+ c))). by rewrite IH.
Qed.

Lemma length_be_bytes n z : String.length (be_bytes n z) = n.
Proof.
  revert z. induction n as [|n IH]; intros z; [done|]. cbn [be_bytes].
  rewrite GoStrings.str_length_app, IH. simpl. lia.
Qed.

Lemma app_inv_length (a1 a2 b1 b2 : string) :
  String.length a1 = String.length a2 → a1 +:+ b1 = a2 +:+ b2 → a1 = a2 ∧ b1 = b2.
Proof.
  revert a2. induction a1 as [|c a1 IH]; intros [|c2 a2]; simpl; intros Hl H; try done.
  injection H as <- H. injection Hl as Hl. by destruct (IH a2 Hl H) as [-> ->].
Qed.

Lemma be_bytes_inj n z1 z2 :
  0 <= z1 < 256 ^ Z.of_nat n → 0 <= z2 < 256 ^ Z.of_nat n →
  be_bytes n z1 = be_bytes n z2 → z1 = z2.
Proof.
  revert z1 z2. induction n as [|n IH]; intros z1 z2 H1 H2 H; [simpl in *; lia|].
  assert (Hn : 256 ^ Z.of_nat (S n) = 256 * 256 ^ Z.of_nat n).
  { rewrite Nat2Z.inj_succ, Z.pow_succ_r; lia. }
  cbn [be_bytes] in H. apply app_inv_length in H as [Hd Hm]; [|by rewrite !length_be_bytes].
  apply IH in Hd; [|Z.to_euclidean_division_equations; lia..].
  injection Hm as Hm. apply (f_equal GoStrings.byte_of) in Hm.
  rewrite !GoStrings.byte_of_at in Hm by (apply Z.mod_pos_bound; lia).
  Z.to_euclidean_division_equations; lia.
Qed.

(** A value whose length a uint64 holds. *)
Definition short (v : bytes) : Prop := Z.of_nat (String.length v) < 2 ^ 64.

Lemma write_inj v1 v2 r1 r2 :
  short v1 → short v2 → writeDigestBytes v1 +:+ r1 = writeDigestBytes v2 +:+ r2 →
  v1 = v2 ∧ r1 = r2.
Proof.
  unfold short, writeDigestBytes. intros H1 H2 H. rewrite !str_app_assoc in H.
  apply app_inv_length in H as [Hn H]; [|by rewrite !length_be_bytes].
  apply be_bytes_inj in Hn; [|change (256 ^ Z.of_nat 8) with (2 ^ 64); lia..].
  apply app_inv_length in H; [done|lia].
Qed.

Lemma write_all_inj l1 l2 :
  Forall short l1 → Forall short l2 → write_all l1 = write_all l2 → l1 = l2.
Proof.
  revert l2. induction l1 as [|v1 l1 IH]; intros [|v2 l2] H1 H2 H; try done.
  apply Forall_cons in H1 as [Hv1 H1], H2 as [Hv2 H2].
  apply write_inj in H as [-> H]; [|done..]. f_equal. by apply IH.
Qed.

Lemma write_all_app l1 l2 : write_all (l1 ++ l2) = write_all l1 +:+ write_all l2.
Proof.
  induction l1 as [|v l1 IH]; [done|]. cbn [app write_all foldr]. fold (write_all (l1 ++ l2)).
  rewrite IH. symmetry; apply str_app_assoc.
Qed.

(** The fields a digest keeps apart. *)
Definition fixed_fields (channel namespace : string) (req : InvocationRequest) (submit : bool)
    : list bytes :=
  [operationName submit; ClientTxID req; channel; namespace; ChaincodeName req;
   ChaincodeVersion req; (if IsInit req then "true" else "false"); Function req;
   ClientCreator req].

Lemma digest_input_fields channel namespace req submit :
  digest_input channel namespace req submit =
  write_all ("v2" :: fixed_fields channel namespace req submit ++ Args req ++
    map_fields (ClientTransient req)).
Proof.
  unfold digest_input, writeDigestByteMap, writeDigestString, fixed_fields.
  cbn [app write_all foldr]. fold (write_all (Args req ++ map_fields (ClientTransient req))).
  by rewrite write_all_app.
Qed.

(** ** Properties *)

(** The digest that decides whether a submission is a retry is taken of exactly: the
    operation, the client's transaction, channel, namespace, chaincode name and version,
    init intent, function, creator, and the arguments followed by the sorted transient
    entries.  Two requests write the same bytes only if all of these agree. *)
Theorem digest_identifies c1 n1 r1 s1 c2 n2 r2 s2 :
  Forall short (fixed_fields c1 n1 r1 s1 ++ Args r1 ++ map_fields (ClientTransient r1)) →
  Forall short (fixed_fields c2 n2 r2 s2 ++ Args r2 ++ map_fields (ClientTransient r2)) →
  digest_input c1 n1 r1 s1 = digest_input c2 n2 r2 s2 ↔
  (s1 = s2 ∧ ClientTxID r1 = ClientTxID r2 ∧ c1 = c2 ∧ n1 = n2 ∧
   ChaincodeName r1 = ChaincodeName r2 ∧ ChaincodeVersion r1 = ChaincodeVersion r2 ∧
   IsInit r1 = IsInit r2 ∧ Function r1 = Function r2 ∧ ClientCreator r1 = ClientCreator r2) ∧
  Args r1 ++ map_fields (ClientTransient r1) = Args r2 ++ map_fields (ClientTransient r2).
Proof.
  intros H1 H2. rewrite !digest_input_fields. split.
  - intros H. apply write_all_inj in H; [|by constructor..].
    injection H as Hs Ht Hc Hn Hname Hv Hi Hf Hcr Hrest. split_and!; try done.
    + destruct s1, s2; done.
    + destruct (IsInit r1), (IsInit r2); done.
  - intros [(-> & Ht & -> & -> & Hn & Hv & Hi & Hf & Hc) Hrest].
    unfold fixed_fields. rewrite Ht, Hn, Hv, Hi, Hf, Hc. cbn [app]. by rewrite Hrest.
Qed.

Definition ex_req (args : list string) (transient : gmap string bytes) : InvocationRequest :=
  mkRequest None "tx1" "alice" "n1" None transient [] "" "" "ns" "cc" "1.0" false "put" args.

Lemma digest_identifies_witness :
  digest_input "ch" "ns" (ex_req ["a"; "b"] ∅) true ≠ digest_input "ch" "ns" (ex_req ["ab"] ∅) true.
Proof.
  intros H. apply (digest_identifies "ch" "ns" (ex_req ["a"; "b"] ∅) true "ch" "ns" (ex_req ["ab"] ∅) true)
    in H; [|repeat constructor..]. destruct H as [_ H]. discriminate H.
Defined.

(** The arguments and the transient data are not kept apart: moving a pair of arguments
    into the transient map leaves the digest as it was. *)
Lemma digest_args_transient_confused :
  ex_req ["k"; "v"] ∅ ≠ ex_req [] {["k" := "v"]} ∧
  ∀ hash, requestDigest hash "ch" "ns" (ex_req ["k"; "v"] ∅) true =
          requestDigest hash "ch" "ns" (ex_req [] {["k" := "v"]}) true.
Proof. split; [discriminate|]. intros hash. unfold requestDigest. f_equal. Qed.

End Requests.
