(* ===== verification/Auth.v ===== *)
(** Admission of client requests, [pkg/orchestrator/proposal_auth.go].

    The service is the part of [orchestrator.Service] that admission reads: the channel,
    the default namespace, the lifecycle store and the verifier, which may be nil.
    [time.Now()] is an argument. *)
From Stdlib Require Import ZArith Lia.
From stdpp Require Import base option list strings gmap sets.
From S2P Require Import Prelude LifecycleStore OrchestratorTypes Proto GoStrings Msp.
From S2P Require Import EndorsementPolicy Instances Requests.
Import Types Proto Requests.
Local Open Scope Z_scope.

Module Auth.

(** ** Gateway messages *)

Record Envelope := mkEnvelope { env_Payload : bytes; env_Signature : bytes }.

Record SubmitRequest := mkSubmitRequest {
  sr_TransactionId : string;
  sr_ChannelId : string;
  sr_PreparedTransaction : option Envelope }.

Record SignedRequest := mkSigned { sg_Request : bytes; sg_Signature : bytes }.

Record CommitStatusRequest := mkStatusRequest {
  cs_TransactionId : string;
  cs_ChannelId : string;
  cs_Identity : bytes }.

Inductive SeekPosition : Type :=
  | SeekNone | SeekNextCommit | SeekSpecified (number : Z) | SeekOther.

Record ChaincodeEventsRequest := mkEventsRequest {
  ce_ChannelId : string;
  ce_ChaincodeId : string;
  ce_Identity : bytes;
  ce_StartPosition : SeekPosition;
  ce_AfterTransactionId : string }.

Class GatewayProto := {
  unmarshal_CommitStatusRequest : bytes → result CommitStatusRequest;
  unmarshal_ChaincodeEventsRequest : bytes → result ChaincodeEventsRequest }.

Section Auth.
Context {L : Msp.MSPLib} {PU : ProtoUtil} {GP : GatewayProto}.

(** ** Configuration *)

Record ProposalAuthorizationRule := mkRule {
  r_Chaincode : string;
  r_Namespace : string;
  r_Policy : string }.

Record ProposalAuthConfig := mkAuthConfig {
  MSPs : list Msp.MSPConfig;
  Rules : list ProposalAuthorizationRule;
  CommitStatusPolicy : string;
  ChaincodeEventsPolicy : string }.

Fixpoint validate_msps (l : list Msp.MSPConfig) (seen : gset string) : result () :=
  match l with
  | [] => Ok ()
  | trusted :: rest =>
      if bool_decide (Msp.cfg_MSPID trusted = "") || bool_decide (Msp.cfg_MSPDir trusted = "")
      then Err (ENew "proposal-auth.msps[%d] requires msp-id and msp-dir")
      else if bool_decide (Msp.cfg_MSPID trusted ∈ seen)
      then Err (ENew "proposal-auth has duplicate MSP %q")
      else validate_msps rest ({[Msp.cfg_MSPID trusted]} ∪ seen)
  end.

Fixpoint validate_rules (l : list ProposalAuthorizationRule) : result () :=
  match l with
  | [] => Ok ()
  | rule :: rest =>
      if bool_decide (r_Chaincode rule = "") || bool_decide (r_Namespace rule = "") ||
         bool_decide (r_Policy rule = "")
      then Err (ENew "proposal-auth.rules[%d] requires chaincode, namespace, and policy")
      else validate_rules rest
  end.

Definition validate (cfg : ProposalAuthConfig) : result () :=
  guard_err (bool_decide (MSPs cfg = [])) (ENew "proposal-auth.msps is required");;
  validate_msps (MSPs cfg) ∅;;
  guard_err (bool_decide (Rules cfg = [])) (ENew "proposal-auth.rules is required");;
  validate_rules (Rules cfg).

Record proposalPermission := mkPermission {
  p_chaincode : string;
  p_namespace : string;
  p_policy : Msp.policy }.

Record proposalVerifier := mkVerifier {
  trust : option Msp.Verifier;
  rules : list proposalPermission;
  statusPolicy : option Msp.policy;
  eventPolicy : option Msp.policy }.

Definition compile_optional (v : option Msp.Verifier) (name expression : string)
    : result (option Msp.policy) :=
  if bool_decide (expression = "") then Ok None
  else p ← Msp.wrap_err name (Msp.CompilePolicy v expression); Ok (Some p).

Fixpoint compile_rules (v : option Msp.Verifier) (l : list ProposalAuthorizationRule)
    : result (list proposalPermission) :=
  match l with
  | [] => Ok []
  | rule :: rest =>
      p ← Msp.wrap_err "compile proposal-auth.rules[%d]: %w" (Msp.CompilePolicy v (r_Policy rule));
      ps ← compile_rules v rest;
      Ok (mkPermission (r_Chaincode rule) (r_Namespace rule) p :: ps)
  end.

Definition newProposalVerifier (cfg : ProposalAuthConfig) : result proposalVerifier :=
  validate cfg;;
  v ← Msp.NewVerifier (MSPs cfg);
  st ← compile_optional (Some v) "compile proposal-auth.commit-status-policy: %w"
         (CommitStatusPolicy cfg);
  ev ← compile_optional (Some v) "compile proposal-auth.chaincode-events-policy: %w"
         (ChaincodeEventsPolicy cfg);
  rs ← compile_rules (Some v) (Rules cfg);
  Ok (mkVerifier (Some v) rs st ev).

(** ** Proposals *)

Definition authenticate (v : option proposalVerifier) (prop : option SignedProposal)
    (creator : bytes) (now : Z) : result Msp.identity :=
  match v with
  | None => Err (ENew "proposal authentication is not configured")
  | Some v =>
      match prop with
      | None => Err (ENew "signed client proposal and signature are required")
      | Some p =>
          if bool_decide (ProposalBytes p = "") || bool_decide (sp_Signature p = "")
          then Err (ENew "signed client proposal and signature are required")
          else Msp.Authenticate (trust v) creator (ProposalBytes p) (sp_Signature p) now
      end
  end.

Definition rule_selects (rule : proposalPermission) (chaincode namespace : string) : bool :=
  (bool_decide (p_chaincode rule = "*") || bool_decide (p_chaincode rule = chaincode)) &&
  (bool_decide (p_namespace rule = "*") || bool_decide (p_namespace rule = namespace)).

Fixpoint authorize_rules (l : list proposalPermission) (id : Msp.identity)
    (chaincode namespace : string) : result () :=
  match l with
  | [] => Err (ENew "proposal creator from MSP %s is not authorized for chaincode %q in namespace %q")
  | rule :: rest =>
      if negb (rule_selects rule chaincode namespace)
      then authorize_rules rest id chaincode namespace
      else match Msp.EvaluateIdentities (p_policy rule) [id] with
           | None => Ok ()
           | Some _ => authorize_rules rest id chaincode namespace
           end
  end.

Definition authorize (v : option proposalVerifier) (id : option Msp.identity)
    (chaincode namespace : string) : result () :=
  match v, id with
  | Some v, Some id => authorize_rules (rules v) id chaincode namespace
  | _, _ => Err (ENew "authenticated proposal creator is required")
  end.

Record Service := mkService {
  s_ChannelID : string;
  s_Namespace : string;
  s_lifecycle : option Store.Store;
  s_proposalAuth : option proposalVerifier }.

Definition status_err {A} (c : code) (m : result A) : result A :=
  match m with Ok x => Ok x | Err e => Err (EStatus c e) end.

(** The chaincode of the signed channel header; the parser sets the proposal. *)
Definition header_chaincode (p : option Proposal) : result (option (string * string)) :=
  header ← status_err CodeInvalidArgument (UnmarshalHeader (from_option Header "" p));
  channel ← status_err CodeInvalidArgument (UnmarshalChannelHeader (ChannelHeader header));
  match UnmarshalHeaderExtension (ch_Extension channel) with
  | Err _ => Err (EStatus CodeInvalidArgument (ENew "invalid chaincode header extension"))
  | Ok ext => Ok ext
  end.

Definition authenticateClientProposal (s : Service) (now : Z) (prop : option SignedProposal)
    : result (Invocation * Msp.identity) :=
  if bool_decide (from_option ProposalBytes "" prop = "")
  then Err (EStatus CodeInvalidArgument (ENew "client proposal is required"))
  else
    inv ← status_err CodeInvalidArgument (efab_Parse prop now);
    guard_err (negb (bool_decide (inv_Channel inv = s_ChannelID s)))
      (EStatus CodeInvalidArgument (ENew "channel must be %s"));;
    id ← status_err CodeUnauthenticated
           (authenticate (s_proposalAuth s) prop (inv_Creator inv) now);
    ext ← header_chaincode (inv_Proposal inv);
    guard_err (negb (bool_decide (ext = Some (inv_Namespace inv, inv_ChaincodeVersion inv))))
      (EStatus CodeInvalidArgument (ENew "chaincode header and proposal payload differ"));;
    Ok (inv, id).

Definition authorizeClientInvocation (s : Service) (proposal : Invocation * Msp.identity)
    (original : option SignedProposal) (req : InvocationRequest) : result InvocationRequest :=
  let inv := proposal.1 in
  let req := with_client (inv_TxID inv) (inv_Creator inv) (inv_Nonce inv) original req in
  prepared ← status_err CodeInvalidArgument (prepareInvocation (s_Namespace s) req);
  let req := with_route (ChaincodeName req) prepared.1 req in
  status_err CodePermissionDenied
    (authorize (s_proposalAuth s) (Some proposal.2) (ChaincodeName req) prepared.1);;
  Ok req.

(** [ctxErr] is [ctx.Err()] after a failed lifecycle selection. *)
Definition gatewayInvocation (s : Service) (now : Z) (ctxErr : ctx_err) (channelID txID : string)
    (signed : option SignedProposal) : result InvocationRequest :=
  proposal ← authenticateClientProposal s now signed;
  let inv := proposal.1 in
  guard_err (negb (bool_decide (channelID = inv_Channel inv)) ||
             negb (bool_decide (txID = inv_TxID inv)))
    (EStatus CodeInvalidArgument
       (ENew "Gateway channel and transaction ID must match the signed proposal"));;
  req ← status_err CodeInvalidArgument (requestFromProposal inv);
  route ← status_err CodeInvalidArgument (gatewayChaincodeRoute (inv_Namespace inv));
  req ← authorizeClientInvocation s proposal signed (with_route route.1 route.2 req);
  match selectLifecycleDefinition (s_lifecycle s) req with
  | Err e => Err (invocationRPCError ctxErr e)
  | Ok req =>
      match definition req with
      | None => Err (EStatus CodeNotFound (ENew "chaincode %q has no committed definition on channel %q"))
      | Some _ => Ok req
      end
  end.

(** ** Signed Gateway requests *)

Definition invalid {A} (msg : string) : result A := Err (EStatus CodeInvalidArgument (ENew msg)).

Definition authenticateGatewayTransaction (s : Service) (now : Z) (request : option SubmitRequest)
    : result Msp.identity :=
  match request with
  | None => invalid "a prepared transaction is required"
  | Some request =>
      match sr_PreparedTransaction request with
      | None => invalid "a prepared transaction is required"
      | Some envelope =>
          if bool_decide (env_Payload envelope = "")
          then invalid "a prepared transaction is required"
          else if bool_decide (env_Signature envelope = "")
          then invalid "prepared transaction must be signed"
          else
            match UnmarshalPayload (env_Payload envelope) with
            | Ok (Some header, _) =>
                match UnmarshalChannelHeader (ChannelHeader header) with
                | Err _ => invalid "invalid prepared channel header"
                | Ok channel =>
                    if negb (bool_decide (ChannelId channel = s_ChannelID s)) ||
                       negb (bool_decide (sr_ChannelId request = ChannelId channel)) ||
                       negb (bool_decide (sr_TransactionId request = TxId channel))
                    then invalid "Submit channel and transaction ID must match the signed envelope"
                    else
                      match UnmarshalSignatureHeader (SignatureHeader header) with
                      | Err _ => invalid "invalid prepared signature header"
                      | Ok creator =>
                          match s_proposalAuth s with
                          | None => Err (EStatus CodeUnauthenticated
                                      (ENew "client authentication is not configured"))
                          | Some v =>
                              status_err CodeUnauthenticated
                                (Msp.Authenticate (trust v) creator (env_Payload envelope)
                                   (env_Signature envelope) now)
                          end
                      end
                end
            | _ => invalid "invalid prepared envelope payload"
            end
      end
  end.

Definition authenticateGatewayReader (s : Service) (now : Z) (channel : string)
    (creator request signature : bytes) : result Msp.identity :=
  if bool_decide (channel = "") || negb (bool_decide (channel = s_ChannelID s))
  then invalid "channel must be %s"
  else if bool_decide (creator = "") then invalid "reader identity is required"
  else
    match s_proposalAuth s with
    | None => Err (EStatus CodeUnauthenticated (ENew "client authentication is not configured"))
    | Some v =>
        match trust v with
        | None => Err (EStatus CodeUnauthenticated (ENew "client authentication is not configured"))
        | Some t => status_err CodeUnauthenticated
                      (Msp.Authenticate (Some t) creator request signature now)
        end
    end.

(** [if policy != nil { EvaluateIdentities }] of a reader. *)
Definition check_reader (policy : option Msp.policy) (id : Msp.identity) (msg : string)
    : result () :=
  match policy with
  | None => Ok ()
  | Some p =>
      match Msp.EvaluateIdentities p [id] with
      | None => Ok ()
      | Some _ => Err (EStatus CodePermissionDenied (ENew msg))
      end
  end.

Definition authenticateGatewayCommitStatus (s : Service) (now : Z) (signed : option SignedRequest)
    : result CommitStatusRequest :=
  match signed with
  | None => invalid "a signed commit status request is required"
  | Some signed =>
      if bool_decide (sg_Request signed = "") || bool_decide (sg_Signature signed = "")
      then invalid "a signed commit status request is required"
      else
        match unmarshal_CommitStatusRequest (sg_Request signed) with
        | Err _ => invalid "invalid commit status request"
        | Ok request =>
            if bool_decide (cs_TransactionId request = "") ||
               negb (bool_decide (GoStrings.TrimSpace (cs_TransactionId request) =
                                  cs_TransactionId request)) ||
               bool_decide (cs_Identity request = "")
            then invalid "transaction ID and requestor identity are required"
            else
              id ← authenticateGatewayReader s now (cs_ChannelId request) (cs_Identity request)
                     (sg_Request signed) (sg_Signature signed);
              check_reader (s_proposalAuth s ≫= statusPolicy) id
                "requestor is not authorized to read transaction status";;
              Ok request
        end
  end.

Definition authenticateGatewayChaincodeEvents (s : Service) (now : Z)
    (signed : option SignedRequest) : result ChaincodeEventsRequest :=
  match signed with
  | None => invalid "a signed chaincode events request is required"
  | Some signed =>
      if bool_decide (sg_Request signed = "") || bool_decide (sg_Signature signed = "")
      then invalid "a signed chaincode events request is required"
      else
        match unmarshal_ChaincodeEventsRequest (sg_Request signed) with
        | Err _ => invalid "invalid chaincode events request"
        | Ok request =>
            status_err CodeInvalidArgument (gatewayChaincodeRoute (ce_ChaincodeId request));;
            match ce_StartPosition request with
            | SeekOther => invalid "event start position must be next commit or a specified block"
            | _ =>
                if negb (bool_decide (GoStrings.TrimSpace (ce_AfterTransactionId request) =
                                      ce_AfterTransactionId request))
                then invalid "invalid checkpoint transaction ID"
                else
                  id ← authenticateGatewayReader s now (ce_ChannelId request)
                         (ce_Identity request) (sg_Request signed) (sg_Signature signed);
                  check_reader (s_proposalAuth s ≫= eventPolicy) id
                    "requestor is not authorized to read chaincode events";;
                  Ok request
            end
        end
  end.

(** ** Lemmas *)

Lemma status_err_ok {A} c (m : result A) x : status_err c m = Ok x ↔ m = Ok x.
Proof. by destruct m. Qed.

Lemma authenticate_ok v p creator now id :
  authenticate (Some v) (Some p) creator now = Ok id →
  ∃ t, trust v = Some t ∧ Msp.authentic t creator (ProposalBytes p) (sp_Signature p) now id.
Proof.
  unfold authenticate. destruct (_ || _); [done|]. intros H.
  destruct (trust v) as [t|] eqn:Ht.
  - exists t. split; [done|]. by apply Msp.Authenticate_ok.
  - unfold Msp.Authenticate in H. inv_ok.
Qed.

Lemma authorize_rules_ok l id cc ns :
  authorize_rules l id cc ns = Ok () ↔
  Exists (λ rule, rule_selects rule cc ns = true ∧
    Msp.EvaluateIdentities (p_policy rule) [id] = None) l.
Proof.
  induction l as [|rule l IH]; simpl; [by rewrite Exists_nil|].
  rewrite Exists_cons, <- IH. destruct (rule_selects rule cc ns); simpl; [|naive_solver].
  destruct (Msp.EvaluateIdentities (p_policy rule) [id]); naive_solver.
Qed.

(** What admission establishes of a client's proposal. *)
Record admitted (s : Service) (now : Z) (signed : option SignedProposal) (inv : Invocation)
    (id : Msp.identity) (cc ns : string) : Prop := mkAdmitted {
  ad_parsed : efab_Parse signed now = Ok inv;
  ad_channel : inv_Channel inv = s_ChannelID s;
  ad_signature : ∃ v t sp, s_proposalAuth s = Some v ∧ trust v = Some t ∧ signed = Some sp ∧
    Msp.authentic t (inv_Creator inv) (ProposalBytes sp) (sp_Signature sp) now id ∧
    Exists (λ rule, rule_selects rule cc ns = true ∧
      Msp.EvaluateIdentities (p_policy rule) [id] = None) (rules v);
  ad_header : header_chaincode (inv_Proposal inv) =
    Ok (Some (inv_Namespace inv, inv_ChaincodeVersion inv)) }.

Lemma authenticateClientProposal_ok s now signed inv id :
  authenticateClientProposal s now signed = Ok (inv, id) →
  efab_Parse signed now = Ok inv ∧ inv_Channel inv = s_ChannelID s ∧
  (∃ v t sp, s_proposalAuth s = Some v ∧ trust v = Some t ∧ signed = Some sp ∧
    Msp.authentic t (inv_Creator inv) (ProposalBytes sp) (sp_Signature sp) now id) ∧
  header_chaincode (inv_Proposal inv) = Ok (Some (inv_Namespace inv, inv_ChaincodeVersion inv)).
Proof.
  unfold authenticateClientProposal. destruct (bool_decide (_ = "")); [done|]. intros H.
  apply bind_ok in H as (inv' & Hp & H). apply status_err_ok in Hp.
  apply bind_ok in H as ([] & Hc & H). apply guard_err_ok in Hc. bool_props.
  apply bind_ok in H as (id' & Hid & H). apply status_err_ok in Hid.
  apply bind_ok in H as (ext & Hext & H).
  apply bind_ok in H as ([] & He & H). apply guard_err_ok in He. bool_props.
  injection H as -> ->. subst ext. split_and!; try done.
  destruct (s_proposalAuth s) as [v|]; [|done]. destruct signed as [sp|]; [|done].
  destruct (authenticate_ok v sp _ now id Hid) as (t & Ht & Hau). by exists v, t, sp.
Qed.

Lemma authorizeClientInvocation_ok s inv id signed req req' :
  authorizeClientInvocation s (inv, id) signed req = Ok req' →
  ∃ ns args, prepareInvocation (s_Namespace s)
      (with_client (inv_TxID inv) (inv_Creator inv) (inv_Nonce inv) signed req) = Ok (ns, args) ∧
    req' = with_route (ChaincodeName req) ns
      (with_client (inv_TxID inv) (inv_Creator inv) (inv_Nonce inv) signed req) ∧
    authorize (s_proposalAuth s) (Some id) (ChaincodeName req) ns = Ok ().
Proof.
  unfold authorizeClientInvocation. cbn zeta. intros H.
  apply bind_ok in H as ([ns args] & Hp & H). apply status_err_ok in Hp.
  apply bind_ok in H as ([] & Ha & H). apply status_err_ok in Ha.
  injection H as <-. by exists ns, args.
Qed.

(** What an admitted Gateway request is made of. *)
Lemma gatewayInvocation_ok s now ctxErr channelID txID signed req :
  gatewayInvocation s now ctxErr channelID txID signed = Ok req →
  ∃ inv id, admitted s now signed inv id (ChaincodeName req) (Namespace req) ∧
    channelID = inv_Channel inv ∧ txID = inv_TxID inv ∧
    gatewayChaincodeRoute (inv_Namespace inv) = Ok (ChaincodeName req, Namespace req) ∧
    ClientTxID req = txID ∧ ClientCreator req = inv_Creator inv ∧
    ClientSignedProposal req = signed ∧ Function req :: Args req = inv_Args inv ∧
    EndorsingOrganizations req = [] ∧
    ∃ store d, s_lifecycle s = Some store ∧
      Store.GetCommitted store (ChaincodeName req) = Ok (Some d) ∧
      definition req = Some d ∧ ChaincodeVersion req = Store.Version (Store.com_Definition d).
Proof.
  unfold gatewayInvocation. intros H.
  apply bind_ok in H as ([inv id] & Hcp & H).
  apply authenticateClientProposal_ok in Hcp as (Hparse & Hch & Hsig & Hext). cbn zeta in H.
  apply bind_ok in H as ([] & Hg & H). apply guard_err_ok in Hg. bool_props.
  apply bind_ok in H as (req0 & Hreq0 & H). apply status_err_ok in Hreq0.
  apply bind_ok in H as ([cc ns] & Hroute & H). apply status_err_ok in Hroute.
  apply bind_ok in H as (req1 & Hauth & H).
  apply authorizeClientInvocation_ok in Hauth as (ns' & args & Hprep & -> & Hauth).
  assert (Hns : ns' = ns ∧ ns ≠ "").
  { unfold gatewayChaincodeRoute in Hroute. destruct (Cut _) as [[a b]|]; [|done].
    destruct (_ || _) eqn:E; [done|]. injection Hroute as -> ->. bool_props.
    unfold prepareInvocation in Hprep. cbn in Hprep.
    rewrite (bool_decide_eq_false_2 (ns = "")) in Hprep by done.
    rewrite (bool_decide_eq_false_2 (ns = "")) in Hprep by done.
    by destruct (invocationArgs _); simplify_eq. }
  destruct Hns as [-> _]. cbn [fst snd] in *.
  assert (Hargs : Function req0 :: Args req0 = inv_Args inv ∧ definition req0 = None ∧ EndorsingOrganizations req0 = []).
  { unfold requestFromProposal in Hreq0. destruct (inv_Args inv) as [|f rest]; [done|].
    case_bool_decide; [done|]. destruct (inv_Proposal inv) as [p|]; [|by injection Hreq0 as <-].
    destruct (UnmarshalChaincodeProposalPayload _) as [cpp|]; [|done].
    apply bind_ok in Hreq0 as (ii & _ & [= <-]). done. }
  destruct Hargs as (Hargs & Hdef & Horgs).
  unfold selectLifecycleDefinition in H. destruct (s_lifecycle s) as [store|]; cbn in H;
    [|by rewrite Hdef in H].
  case_bool_decide as Hcc; [by cbn in H; rewrite Hdef in H|].
  destruct (Store.GetCommitted store cc) as [[d|]|e] eqn:Hd; cbn in H; [|by rewrite Hdef in H|done].
  injection H as <-. exists inv, id. cbn. split_and!; try done; [|by exists store, d].
  destruct Hsig as (v & t & sp & Hv & Ht & -> & Hau). constructor; [done..| |done].
  exists v, t, sp. split_and!; try done. apply authorize_rules_ok. by rewrite Hv in Hauth.
Qed.

(** ** Properties *)

(** C6: Gateway Evaluate and Endorse admit a proposal only when its parsed channel and
    transaction are those of the call and of this service, its creator, authenticated at
    this time against the trusted MSPs, signed exactly its bytes, the signed header names
    the same chaincode as its payload, some configured rule for the chaincode and
    namespace of that signed name accepts the creator, and the chaincode has an active
    lifecycle definition; the request then carries the signed route, client fields and
    that definition. *)
Theorem gatewayInvocation_admits s now ctxErr channelID txID signed req :
  gatewayInvocation s now ctxErr channelID txID signed = Ok req →
  ∃ inv id, admitted s now signed inv id (ChaincodeName req) (Namespace req) ∧
    channelID = inv_Channel inv ∧ txID = inv_TxID inv ∧
    gatewayChaincodeRoute (inv_Namespace inv) = Ok (ChaincodeName req, Namespace req) ∧
    ClientTxID req = txID ∧ ClientCreator req = inv_Creator inv ∧
    ClientSignedProposal req = signed ∧ Function req :: Args req = inv_Args inv ∧
    ∃ store d, s_lifecycle s = Some store ∧
      Store.GetCommitted store (ChaincodeName req) = Ok (Some d) ∧
      definition req = Some d ∧ ChaincodeVersion req = Store.Version (Store.com_Definition d).
Proof.
  intros (inv & id & Had & Hc & Ht & Hr & Htx & Hcr & Hsp & Hargs & _ & Hd)%gatewayInvocation_ok.
  by exists inv, id.
Qed.

(** Transaction status and event streams are served only to a reader whose identity,
    named in the request of this channel, signed exactly the request's bytes and is
    trusted at this time, and whom the configured reader policy, if any, accepts. *)
Theorem gateway_readers_authentic s now signed :
  (∀ request, authenticateGatewayCommitStatus s now (Some signed) = Ok request →
     ∃ v t id, s_proposalAuth s = Some v ∧ trust v = Some t ∧
       cs_ChannelId request = s_ChannelID s ∧ cs_TransactionId request ≠ "" ∧
       Msp.authentic t (cs_Identity request) (sg_Request signed) (sg_Signature signed) now id ∧
       ∀ p, statusPolicy v = Some p → Msp.EvaluateIdentities p [id] = None) ∧
  (∀ request, authenticateGatewayChaincodeEvents s now (Some signed) = Ok request →
     ∃ v t id route, s_proposalAuth s = Some v ∧ trust v = Some t ∧
       ce_ChannelId request = s_ChannelID s ∧
       gatewayChaincodeRoute (ce_ChaincodeId request) = Ok route ∧
       Msp.authentic t (ce_Identity request) (sg_Request signed) (sg_Signature signed) now id ∧
       ∀ p, eventPolicy v = Some p → Msp.EvaluateIdentities p [id] = None).
Proof.
  assert (Hreader : ∀ ch creator id pol msg,
    authenticateGatewayReader s now ch creator (sg_Request signed) (sg_Signature signed) = Ok id →
    check_reader pol id msg = Ok () →
    ∃ v t, s_proposalAuth s = Some v ∧ trust v = Some t ∧ ch = s_ChannelID s ∧
      Msp.authentic t creator (sg_Request signed) (sg_Signature signed) now id ∧
      ∀ p, pol = Some p → Msp.EvaluateIdentities p [id] = None).
  { intros ch creator id pol msg Hr Hp. unfold authenticateGatewayReader in Hr.
    destruct (_ || _) eqn:E; [done|]. bool_props. case_bool_decide; [done|].
    destruct (s_proposalAuth s) as [v|]; [|done]. destruct (trust v) as [t|] eqn:Ht; [|done].
    apply status_err_ok in Hr. exists v, t. split_and!; try done; [by apply Msp.Authenticate_ok|].
    intros p ->. unfold check_reader in Hp. by destruct (Msp.EvaluateIdentities p [id]). }
  split; intros request H.
  - unfold authenticateGatewayCommitStatus in H. destruct (_ || _); [done|].
    destruct (unmarshal_CommitStatusRequest _) as [r|]; [|done].
    destruct (_ || _) eqn:E; [done|]. bool_props.
    apply bind_ok in H as (id & Hr & H). apply bind_ok in H as ([] & Hp & [= ->]).
    destruct (Hreader _ _ _ _ _ Hr Hp) as (v & t & Hv & Ht & ? & ? & Hpol).
    exists v, t, id. split_and!; try done. intros p Hp'. apply Hpol. by rewrite Hv.
  - unfold authenticateGatewayChaincodeEvents in H. destruct (_ || _); [done|].
    destruct (unmarshal_ChaincodeEventsRequest _) as [r|]; [|done].
    apply bind_ok in H as (route & Hroute & H). apply status_err_ok in Hroute.
    assert (Hmain : (if negb (bool_decide (GoStrings.TrimSpace (ce_AfterTransactionId r) =
        ce_AfterTransactionId r)) then invalid "invalid checkpoint transaction ID"
      else id ← authenticateGatewayReader s now (ce_ChannelId r) (ce_Identity r)
             (sg_Request signed) (sg_Signature signed);
           check_reader (s_proposalAuth s ≫= eventPolicy) id
             "requestor is not authorized to read chaincode events";; Ok r) = Ok request)
      by (by destruct (ce_StartPosition r)).
    clear H. case_bool_decide; cbn [negb] in Hmain; [|done].
    apply bind_ok in Hmain as (id & Hr & Hmain). apply bind_ok in Hmain as ([] & Hp & [= ->]).
    destruct (Hreader _ _ _ _ _ Hr Hp) as (v & t & Hv & Ht & ? & ? & Hpol).
    exists v, t, id, route. split_and!; try done. intros p Hp'. apply Hpol. by rewrite Hv.
Qed.

End Auth.
(** ** Witnesses *)

Definition example_gateway : GatewayProto := {|
  unmarshal_CommitStatusRequest b := Ok (mkStatusRequest b "ch" "Org1MSP:alice");
  unmarshal_ChaincodeEventsRequest b := Ok (mkEventsRequest "ch" "cc:ns" "Org1MSP:alice" SeekNone b) |}.

Definition ex_store : Store.Store :=
  Store.mkStore "ch" ∅ ∅ {["cc" := Store.mkCommittedRow "1.0" 1 0 0 "t"]} ∅.

Definition ex_pol (s : string) : Msp.policy (MSPLib := Instances.example_msp) := s.

Definition ex_verifier : proposalVerifier (L := Instances.example_msp) :=
  mkVerifier (Some (Msp.mkVerifier (L := Instances.example_msp) (Some ()) {["Org1MSP"]}))
    [mkPermission "other" "*" (ex_pol "Org2MSP"); mkPermission "cc" "*" (ex_pol "Org1MSP")]
    (Some (ex_pol "Org1MSP")) None.

Definition ex_service : Service (L := Instances.example_msp) :=
  mkService "ch" "default" (Some ex_store) (Some ex_verifier).

Lemma gatewayInvocation_admits_witness :
  ∃ req, gatewayInvocation (PU := example_util) ex_service 50 None "ch" "tx1"
      (Some (mkSignedProposal "proposal" "alice")) = Ok req ∧
    ∃ inv id, admitted (PU := example_util) ex_service 50 (Some (mkSignedProposal "proposal" "alice"))
      inv id (ChaincodeName req) (Namespace req).
Proof.
  eexists. split; [vm_compute; reflexivity|].
  edestruct (gatewayInvocation_admits (PU := example_util) ex_service 50 None "ch" "tx1"
    (Some (mkSignedProposal "proposal" "alice"))) as (inv & id & Had & _); [vm_compute; reflexivity|].
  exists inv, id. exact Had.
Defined.

Lemma gateway_readers_authentic_witness :
  ∃ request, authenticateGatewayCommitStatus (GP := example_gateway) ex_service 50
      (Some (mkSigned "tx1" "alice")) = Ok request ∧ cs_ChannelId request = "ch".
Proof.
  eexists. split; [vm_compute; reflexivity|].
  destruct (gateway_readers_authentic (GP := example_gateway) ex_service 50
    (mkSigned "tx1" "alice")) as [Hs _].
  edestruct Hs as (v & t & id & _ & _ & Hch & _); [vm_compute; reflexivity|]. exact Hch.
Defined.

End Auth.
