(* ===== verification/Framing.v ===== *)
(** A concrete encoding of messages as lists of fields, on which witnesses evaluate: each field is
    preceded by its length, so that the encoding grows linearly with nesting. *)
From Stdlib Require Import ZArith Lia Ascii.
From stdpp Require Import base option list strings countable.
From S2P Require Import Prelude GoStrings Json.
Local Open Scope Z_scope.

Module Framing.

Definition length_code (n : nat) : string := Json.bits (Pos.of_succ_nat n).
Definition length_decode (s : string) : nat := Nat.pred (Pos.to_nat (Json.unbits s)).

Fixpoint frame (l : list bytes) : bytes :=
  match l with
  | [] => ""
  | x :: rest => length_code (String.length x) +:+ String "." (x +:+ frame rest)
  end.

(** The text before the first dot, and the text after it. *)
Fixpoint cut_dot (s : string) : option (string * string) :=
  match s with
  | EmptyString => None
  | String a r =>
      if Ascii.eqb a "." then Some ("", r) else (λ p, (String a p.1, p.2)) <$> cut_dot r
  end.

(** The first [n] bytes, and the rest. *)
Fixpoint take_bytes (n : nat) (s : string) : option (string * string) :=
  match n, s with
  | O, _ => Some ("", s)
  | S n, String a r => (λ p, (String a p.1, p.2)) <$> take_bytes n r
  | S _, EmptyString => None
  end.

Fixpoint unframe_fields (fuel : nat) (s : string) : option (list bytes) :=
  match fuel, s with
  | _, EmptyString => Some []
  | O, _ => None
  | S fuel, _ =>
      '(code, rest) ← cut_dot s;
      '(x, rest) ← take_bytes (length_decode code) rest;
      l ← unframe_fields fuel rest;
      Some (x :: l)
  end.

Definition unframe (s : bytes) : option (list bytes) := unframe_fields (String.length s) s.

Lemma length_decode_code n : length_decode (length_code n) = n.
Proof. unfold length_decode, length_code. rewrite Json.unbits_bits. lia. Qed.

Lemma cut_dot_bits p s : cut_dot (Json.bits p +:+ String "." s) = Some (Json.bits p, s).
Proof. induction p as [p IH|p IH|]; simpl; [by rewrite IH..|done]. Qed.

Lemma take_bytes_app x s : take_bytes (String.length x) (x +:+ s) = Some (x, s).
Proof. induction x as [|a x IH]; simpl; [done|by rewrite IH]. Qed.

Lemma append_dot_cons a s : ∃ c r, a +:+ String "." s = String c r.
Proof. destruct a as [|c a]; [by exists "."%char, s|]. by exists c, (a +:+ String "." s). Qed.

Lemma unframe_frame l : unframe (frame l) = Some l.
Proof.
  unfold unframe. assert (H : ∀ fuel, (String.length (frame l) <= fuel)%nat →
    unframe_fields fuel (frame l) = Some l); [|by apply H].
  induction l as [|x l IH]; intros fuel Hf; [by destruct fuel|]. cbn [frame] in *.
  destruct (append_dot_cons (length_code (String.length x)) (x +:+ frame l)) as (c & r & Hcr).
  rewrite GoStrings.str_length_app in Hf. cbn [String.length] in Hf.
  rewrite GoStrings.str_length_app in Hf. destruct fuel as [|fuel]; [lia|].
  cbn [unframe_fields]. rewrite Hcr, <- Hcr. unfold length_code. rewrite cut_dot_bits.
  cbn [mbind option_bind]. change (Json.bits _) with (length_code (String.length x)).
  rewrite length_decode_code, take_bytes_app. cbn [mbind option_bind]. rewrite IH by lia. done.
Qed.

Lemma frame_nonempty x l : frame (x :: l) ≠ "".
Proof.
  cbn [frame]. destruct (append_dot_cons (length_code (String.length x)) (x +:+ frame l)) as (c & r & ->).
  done.
Qed.

(** A list of encoded messages. *)
Fixpoint decode_all {A} (f : bytes → option A) (l : list bytes) : option (list A) :=
  match l with
  | [] => Some []
  | b :: rest =>
      match f b, decode_all f rest with Some x, Some xs => Some (x :: xs) | _, _ => None end
  end.

Definition frame_all {A} (g : A → bytes) (l : list A) : bytes := frame (map g l).

Definition unframe_all {A} (f : bytes → option A) (b : bytes) : option (list A) :=
  match unframe b with Some l => decode_all f l | None => None end.

Lemma unframe_all_frame {A} (f : bytes → option A) g :
  (∀ x, f (g x) = Some x) → ∀ l, unframe_all f (frame_all g l) = Some l.
Proof.
  intros H l. unfold unframe_all, frame_all. rewrite unframe_frame.
  induction l as [|x l IH]; [done|]. cbn [map decode_all]. by rewrite H, IH.
Qed.

(** Fields of other types. *)
Definition pack {A} `{Countable A} (x : A) : bytes := Json.bits (encode x).
Definition unpack {A} `{Countable A} (s : bytes) : option A := decode (Json.unbits s).

Lemma unpack_pack {A} `{Countable A} (x : A) : unpack (pack x) = Some x.
Proof. unfold unpack, pack. by rewrite Json.unbits_bits, decode_encode. Qed.

Definition from_some {A} (o : option A) : result A :=
  match o with Some x => Ok x | None => Err (EExt "malformed message") end.

#[global] Arguments frame _ : simpl never.
#[global] Arguments unframe _ : simpl never.

End Framing.
