(* ===== verification/JsonTree.v ===== *)
(** [encoding/json] on nested values: trees, and a codec for each kind of Go value.

    A codec is what marshalling makes of a value and what unmarshalling into a value does; a struct
    is the fields of its declaration, in their order, each with or without [omitempty].  The text of
    a tree is the interface [TreeText]. *)
From Stdlib Require Import ZArith Lia Ascii String.
From stdpp Require Import base option list strings gmap countable sorting.
From S2P Require Import Prelude GoStrings Json Framing.
Local Open Scope Z_scope.

Module Tree.

Inductive json : Type :=
  | JStr (s : string)
  | JNum (z : Z)
  | JBool (b : bool)
  | JNull
  | JArr (l : list json)
  | JObj (o : list (string * json)).

Class TreeText := {
  tree_encode : json → bytes;
  tree_decode : bytes → option json;
  utf8 : string → bool }.

Fixpoint valid {T : TreeText} (v : json) : bool :=
  match v with
  | JStr s => utf8 s
  | JArr l => forallb valid l
  | JObj o => forallb (λ kv, utf8 kv.1 && valid kv.2) o
  | _ => true
  end.

(** The encoder keeps valid UTF-8. *)
Class TreeLaws {T : TreeText} : Prop := {
  tree_decode_encode v : valid v = true → tree_decode (tree_encode v) = Some v;
  utf8_ascii s :
    forallb (λ a, GoStrings.byte_of a <? 128) (list_ascii_of_string s) = true → utf8 s = true }.

(** [dec acc v] unmarshals [v] into a variable that holds [acc]. *)
Record codec (A : Type) := mkCodec {
  enc : A → json;
  dec : A → json → result A;
  zero : A }.
Arguments mkCodec {A}.
Arguments enc {A}.
Arguments dec {A}.
Arguments zero {A}.

(** ** Scalars; null changes nothing *)

Definition scalar {A} (f : A → json) (g : json → option A) (z : A) : codec A :=
  mkCodec f (λ acc v, match v with
                      | JNull => Ok acc
                      | _ => match g v with Some a => Ok a | None => Err Json.type_error end
                      end) z.

Definition c_string : codec string := scalar JStr (λ v, match v with JStr s => Some s | _ => None end) "".
Definition c_bool : codec bool := scalar JBool (λ v, match v with JBool b => Some b | _ => None end) false.

(** An integer type of range [lo, hi). *)
Definition c_int (lo hi : Z) : codec Z :=
  scalar JNum (λ v, match v with JNum z => if (lo <=? z) && (z <? hi) then Some z else None | _ => None end) 0.

Definition c_int64 : codec Z := c_int (- 2 ^ 63) (2 ^ 63).
Definition c_uint64 : codec Z := c_int 0 (2 ^ 64).
Definition c_uint32 : codec Z := c_int 0 (2 ^ 32).

(** A []byte is base64 text; nil, which is null, and empty are one value here. *)
Definition c_bytes : codec bytes :=
  mkCodec (λ b, JStr (Json.base64 b))
    (λ acc v, match v with
              | JNull => Ok ""
              | JStr s => Json.base64_decode s
              | _ => Err Json.type_error
              end) "".

(** ** Slices and maps; null is the empty one *)

Fixpoint dec_list {A} (c : codec A) (l : list json) : result (list A) :=
  match l with
  | [] => Ok []
  | v :: rest => a ← dec c (zero c) v; rest ← dec_list c rest; Ok (a :: rest)
  end.

Definition c_list {A} (c : codec A) : codec (list A) :=
  mkCodec (λ l, JArr (map (enc c) l))
    (λ _ v, match v with JNull => Ok [] | JArr l => dec_list c l | _ => Err Json.type_error end) [].

(** Decoding adds to the map. *)
Fixpoint dec_map {A} (c : codec A) (o : list (string * json)) (acc : gmap string A) : result (gmap string A) :=
  match o with
  | [] => Ok acc
  | (k, v) :: rest => a ← dec c (zero c) v; dec_map c rest (<[k := a]> acc)
  end.

#[local] Instance string_leb_dec a b : Decision (String.leb a b = true).
Proof. apply _. Defined.

(** Marshalling sorts the keys. *)
Definition sorted_keys {A} (m : gmap string A) : list string :=
  merge_sort (λ a b, String.leb a b = true) (elements (dom m)).

Definition enc_map {A} (c : codec A) (m : gmap string A) : json :=
  JObj (omap (λ k, a ← m !! k; Some (k, enc c a)) (sorted_keys m)).

Definition c_map {A} (c : codec A) : codec (gmap string A) :=
  mkCodec (enc_map c)
    (λ acc v, match v with JNull => Ok ∅ | JObj o => dec_map c o acc | _ => Err Json.type_error end) ∅.

(** ** Structs *)

Definition fields := list (string * json).

Definition field {A} (c : codec A) (name : string) (a : A) : fields := [(name, enc c a)].

(** [omitempty]: [empty] tells the values that are left out. *)
Definition omit {A} (c : codec A) (empty : A → bool) (name : string) (a : A) : fields :=
  if empty a then [] else [(name, enc c a)].

Definition empty_string (s : string) : bool := bool_decide (s = "").
Definition empty_int (z : Z) : bool := z =? 0.
Definition empty_list {A} (l : list A) : bool := match l with [] => true | _ => false end.

(** Every field of that name, without regard to case, is decoded into the variable. *)
Fixpoint get {A} (c : codec A) (name : string) (o : fields) (acc : A) : result A :=
  match o with
  | [] => Ok acc
  | (k, v) :: rest =>
      if decide (Json.fold_name k = Json.fold_name name) then acc ← dec c acc v; get c name rest acc
      else get c name rest acc
  end.

Definition struct {A} (f : A → fields) (g : A → fields → result A) (z : A) : codec A :=
  mkCodec (λ a, JObj (f a))
    (λ acc v, match v with JNull => Ok acc | JObj o => g acc o | _ => Err Json.type_error end) z.

(** ** [json.Marshal] and [json.Unmarshal] into a zero value *)

Section Text.
Context {T : TreeText}.

Definition Marshal {A} (c : codec A) (a : A) : bytes := tree_encode (enc c a).

Definition Unmarshal {A} (c : codec A) (data : bytes) : result A :=
  match tree_decode data with
  | Some v => dec c (zero c) v
  | None => Err (ENew "invalid JSON")
  end.

(** ** Lawful codecs: the values that [fits] survive *)

Record lawful {A} (c : codec A) (fits : A → Prop) : Prop := mkLawful {
  dec_enc a : fits a → dec c (zero c) (enc c a) = Ok a;
  enc_valid a : fits a → valid (enc c a) = true }.

Lemma Unmarshal_Marshal `{TL : !TreeLaws} {A} (c : codec A) fits a :
  lawful c fits → fits a → Unmarshal c (Marshal c a) = Ok a.
Proof.
  intros [Hd Hv] Ha. unfold Unmarshal, Marshal. rewrite tree_decode_encode by by apply Hv. by apply Hd.
Qed.

Definition text (s : string) : Prop := utf8 s = true.

Lemma string_lawful : lawful c_string text.
Proof. by split. Qed.

Lemma bool_lawful : lawful c_bool (λ _, True).
Proof. by split. Qed.

Lemma int_lawful lo hi : lawful (c_int lo hi) (λ z, lo <= z < hi).
Proof.
  split; [|done]. intros z [H1 H2]. cbn. apply Z.leb_le in H1. apply Z.ltb_lt in H2. by rewrite H1, H2.
Qed.

Definition is_uint32 (z : Z) : Prop := 0 <= z < 2 ^ 32.

Lemma int64_lawful : lawful c_int64 is_int64.
Proof. apply int_lawful. Qed.

Lemma uint64_lawful : lawful c_uint64 is_uint64.
Proof. apply int_lawful. Qed.

Lemma uint32_lawful : lawful c_uint32 is_uint32.
Proof. apply int_lawful. Qed.

Lemma bytes_lawful `{TL : !TreeLaws} : lawful c_bytes (λ _, True).
Proof.
  split; [intros b _; apply Json.base64_decode_encode|]. intros b _. apply utf8_ascii. apply Json.base64_text.
Qed.

Lemma list_lawful {A} (c : codec A) fits : lawful c fits → lawful (c_list c) (Forall fits).
Proof.
  intros [Hd Hv]. split; intros l Hl; cbn.
  - induction Hl as [|a l Ha _ IH]; [done|]. cbn. rewrite Hd by done. cbn. by rewrite IH.
  - induction Hl as [|a l Ha _ IH]; [done|]. cbn. by rewrite Hv.
Qed.

Lemma dec_map_omap {A} (c : codec A) (g : string → option A) ks acc :
  (∀ k a, g k = Some a → dec c (zero c) (enc c a) = Ok a) →
  dec_map c (omap (λ k, a ← g k; Some (k, enc c a)) ks) acc =
    Ok (foldl (λ m k, match g k with Some a => <[k := a]> m | None => m end) acc ks).
Proof.
  intros Hg. revert acc. induction ks as [|k ks IH]; intros acc; [done|]. cbn [omap list_omap foldl].
  destruct (g k) as [a|] eqn:E; cbn [mbind option_bind]; [|apply IH]. cbn [dec_map]. rewrite (Hg k a E). apply IH.
Qed.

Lemma foldl_lookup {A} (g : string → option A) ks (acc : gmap string A) k :
  foldl (λ m k, match g k with Some a => <[k := a]> m | None => m end) acc ks !! k =
    if decide (k ∈ ks) then (match g k with Some a => Some a | None => acc !! k end) else acc !! k.
Proof.
  revert acc. induction ks as [|k' ks IH]; intros acc; [done|]. cbn [foldl]. rewrite IH.
  destruct (decide (k = k')) as [->|Hne].
  - rewrite (decide_True (P := k' ∈ k' :: ks)) by by left.
    destruct (g k'); [rewrite lookup_insert_eq|]; by case_decide.
  - assert (Hl : match g k' with Some a => <[k' := a]> acc | None => acc end !! k = acc !! k).
    { destruct (g k'); [by rewrite lookup_insert_ne|done]. }
    rewrite Hl. destruct (decide (k ∈ ks)) as [Hin|Hin].
    + by rewrite decide_True by by right.
    + rewrite decide_False; [done|]. by intros [|]%elem_of_cons.
Qed.

Lemma map_lawful {A} (c : codec A) fits :
  lawful c fits → lawful (c_map c) (map_Forall (λ k a, text k ∧ fits a)).
Proof.
  intros [Hd Hv]. split; intros m Hm; cbn.
  - rewrite dec_map_omap by (intros k a Hk; by apply Hd, (Hm k a Hk)). f_equal. apply map_eq. intros k.
    rewrite foldl_lookup, lookup_empty. unfold sorted_keys. case_decide as Hin; [by destruct (m !! k)|].
    rewrite merge_sort_Permutation, elem_of_elements, elem_of_dom in Hin. by destruct (m !! k); [destruct Hin|].
  - apply forallb_forall. intros [k v] Hin. apply list_elem_of_In in Hin.
    apply list_elem_of_omap in Hin as (k' & _ & Hk). destruct (m !! k') as [a|] eqn:E; [|done].
    injection Hk as <- <-. destruct (Hm k' a E) as [Hu Ha]. cbn. by rewrite Hu, Hv.
Qed.

(** ** Fields of a struct: those of other names are skipped *)

Definition named (name : string) (o : fields) : Prop := Forall (λ kv, Json.fold_name kv.1 = Json.fold_name name) o.

Lemma get_skip {A} (c : codec A) name other o1 o2 acc :
  named other o1 → Json.fold_name other ≠ Json.fold_name name → get c name (o1 ++ o2) acc = get c name o2 acc.
Proof.
  intros H Hne. induction H as [|[k v] o1 Hk _ IH]; [done|]. cbn [app get]. cbn in Hk.
  by rewrite decide_False by by rewrite Hk.
Qed.

Lemma get_take {A} (c : codec A) fits name a o :
  lawful c fits → fits a → get c name (field c name a ++ o) (zero c) = get c name o a.
Proof. intros [Hd _] Ha. cbn. rewrite decide_True by done. by rewrite Hd. Qed.

Lemma get_omit {A} (c : codec A) fits empty name a o :
  lawful c fits → fits a → (empty a = true → a = zero c) →
  get c name (omit c empty name a ++ o) (zero c) = get c name o a.
Proof.
  intros Hl Ha He. unfold omit. destruct (empty a) eqn:E; [by rewrite He|]. by apply (get_take c fits).
Qed.

Lemma field_named {A} (c : codec A) name a : named name (field c name a).
Proof. by repeat constructor. Qed.

Lemma omit_named {A} (c : codec A) empty name a : named name (omit c empty name a).
Proof. unfold omit. destruct (empty a); [constructor|apply field_named]. Qed.

Lemma valid_fields_app o1 o2 : valid (JObj (o1 ++ o2)) = valid (JObj o1) && valid (JObj o2).
Proof. apply forallb_app. Qed.

(** One step of decoding a struct from its own encoding. *)
Lemma step_skip {A B} (c : codec A) name other o1 o2 acc (k : A → result B) r :
  named other o1 → Json.fold_name other ≠ Json.fold_name name →
  get c name o2 acc ≫= k = r → get c name (o1 ++ o2) acc ≫= k = r.
Proof. intros H Hne. by rewrite (get_skip c name other). Qed.

Lemma step_take {A B} (c : codec A) fits name a o (k : A → result B) r :
  lawful c fits → fits a → get c name o a ≫= k = r → get c name (field c name a ++ o) (zero c) ≫= k = r.
Proof. intros Hl Ha. by rewrite (get_take c fits). Qed.

Lemma step_omit {A B} (c : codec A) fits empty name a o (k : A → result B) r :
  lawful c fits → fits a → (empty a = true → a = zero c) →
  get c name o a ≫= k = r → get c name (omit c empty name a ++ o) (zero c) ≫= k = r.
Proof. intros Hl Ha He. by rewrite (get_omit c fits). Qed.

Lemma step_end {A B} (c : codec A) name acc (k : A → result B) r : k acc = r → get c name [] acc ≫= k = r.
Proof. done. Qed.

Lemma valid_join o1 o2 : valid (JObj o1) = true → valid (JObj o2) = true → valid (JObj (o1 ++ o2)) = true.
Proof. intros H1 H2. by rewrite valid_fields_app, H1, H2. Qed.

Lemma field_valid {A} (c : codec A) fits name a :
  lawful c fits → text name → fits a → valid (JObj (field c name a)) = true.
Proof. intros [_ Hv] Hn Ha. cbn. by rewrite Hn, Hv. Qed.

Lemma omit_valid {A} (c : codec A) fits empty name a :
  lawful c fits → text name → fits a → valid (JObj (omit c empty name a)) = true.
Proof. intros Hl Hn Ha. unfold omit. destruct (empty a); [done|]. by apply (field_valid c fits). Qed.

End Text.

Lemma omits_bool b : negb b = true → b = zero c_bool.
Proof. by destruct b. Qed.

Lemma omits_string s : empty_string s = true → s = zero c_string.
Proof. apply bool_decide_eq_true_1. Qed.

Lemma omits_uint64 z : empty_int z = true → z = zero c_uint64.
Proof. apply Z.eqb_eq. Qed.

Lemma omits_uint32 z : empty_int z = true → z = zero c_uint32.
Proof. apply Z.eqb_eq. Qed.

Lemma omits_list {A} (c : codec A) l : empty_list l = true → l = zero (c_list c).
Proof. by destruct l. Qed.

(** Decodes a struct from its own encoding, field after field: those of other names are skipped and
    the field's own is taken, by a law of its codec in the database [codecs]. *)
Create HintDb codecs.
#[export] Hint Resolve string_lawful bool_lawful int64_lawful uint64_lawful uint32_lawful bytes_lawful : codecs.
#[export] Hint Resolve list_lawful map_lawful field_valid omit_valid : codecs.
#[export] Hint Resolve omits_bool omits_string omits_uint64 omits_uint32 omits_list : codecs.

Ltac fits_field := solve [eauto with codecs | exact I].

Ltac struct_decode :=
  cbv beta;
  repeat first
    [ eapply step_take; [solve [eauto with codecs] | fits_field | ]
    | eapply step_omit; [solve [eauto with codecs] | fits_field | solve [auto with codecs] | ]
    | eapply step_skip; [first [apply field_named | apply omit_named] | vm_compute; discriminate | ]
    | apply step_end; cbv beta ].

(** The encoding of a struct is valid when its fields fit. *)
Ltac struct_valid :=
  cbv beta;
  repeat
    (apply valid_join;
     [ first
         [ eapply field_valid; [solve [eauto with codecs] | apply utf8_ascii; reflexivity | fits_field]
         | eapply omit_valid; [solve [eauto with codecs] | apply utf8_ascii; reflexivity | fits_field] ]
     | ]);
  reflexivity.

(** A struct whose projections are its fields. *)
Ltac struct_lawful :=
  lazymatch goal with |- lawful ?c _ => unfold c end; split;
  [ intros x Hx; hnf in Hx; destruct_and?; cbn [struct enc dec zero]; struct_decode; by destruct x
  | intros x Hx; hnf in Hx; destruct_and?; cbn [struct enc]; struct_valid ].

(** ** Typed codecs: what decoding any tree gives has the type's range *)

Record typed {A} (c : codec A) (P : A → Prop) : Prop := mkTyped {
  typed_zero : P (zero c);
  typed_dec acc v a : P acc → dec c acc v = Ok a → P a }.

Lemma typed_Unmarshal {T : TreeText} {A} (c : codec A) P data a : typed c P → Unmarshal c data = Ok a → P a.
Proof.
  intros [Hz Hd]. unfold Unmarshal. destruct (tree_decode data) as [v|]; [|done]. by apply Hd.
Qed.

Lemma scalar_typed {A} f g (z : A) (P : A → Prop) :
  P z → (∀ v a, g v = Some a → P a) → typed (scalar f g z) P.
Proof.
  intros Hz Hg. split; [done|]. intros acc v a Hacc. cbn. destruct (g v) as [b|] eqn:E.
  - intros Hv. assert (a = b ∨ a = acc) as [->| ->] by (destruct v; injection Hv; auto); [by apply (Hg v)|done].
  - destruct v; try done. by intros [= <-].
Qed.

Lemma int_typed lo hi : lo <= 0 < hi → typed (c_int lo hi) (λ z, lo <= z < hi).
Proof.
  intros H0. apply scalar_typed; [done|]. intros v a. destruct v; try done.
  destruct (_ && _) eqn:E; [|done]. intros [= <-]. apply andb_true_iff in E as [?%Z.leb_le ?%Z.ltb_lt]. done.
Qed.

Lemma int64_typed : typed c_int64 is_int64.
Proof. by apply int_typed. Qed.

Lemma uint64_typed : typed c_uint64 is_uint64.
Proof. by apply int_typed. Qed.

Lemma uint32_typed : typed c_uint32 is_uint32.
Proof. by apply int_typed. Qed.

Lemma any_typed {A} (c : codec A) : typed c (λ _, True).
Proof. by split. Qed.

Lemma list_typed {A} (c : codec A) P : typed c P → typed (c_list c) (Forall P).
Proof.
  intros [Hz Hd]. split; [constructor|]. intros acc v l _. cbn. destruct v as [| | | |vs|]; try done; [by intros [= <-]|].
  revert l. induction vs as [|v vs IH]; intros l; cbn [dec_list]; [by intros [= <-]|].
  intros H. apply bind_ok in H as (a & Ha & H). apply bind_ok in H as (l' & Hl & H). injection H as <-.
  constructor; [by apply (Hd (zero c) v)|by apply IH].
Qed.

Lemma get_typed {A} (c : codec A) P name o acc a : typed c P → P acc → get c name o acc = Ok a → P a.
Proof.
  intros [Hz Hd]. revert acc. induction o as [|[k v] o IH]; intros acc Hacc; cbn [get]; [by intros [= <-]|].
  case_decide as Hk; [|by apply IH]. intros H. apply bind_ok in H as (b & Hb & H). apply (IH b); [|done]. by apply (Hd acc v).
Qed.

Lemma struct_typed {A} f g (z : A) (P : A → Prop) :
  P z → (∀ acc o a, P acc → g acc o = Ok a → P a) → typed (struct f g z) P.
Proof.
  intros Hz Hg. split; [done|]. intros acc v a Hacc. cbn. destruct v; try done; [by intros [= <-]|]. by apply Hg.
Qed.

(** ** A text syntax that keeps everything *)

Definition leaf : Type := string + (Z + bool).

Fixpoint to_tree (v : json) : gen_tree leaf :=
  match v with
  | JStr s => GenLeaf (inl s)
  | JNum z => GenLeaf (inr (inl z))
  | JBool b => GenLeaf (inr (inr b))
  | JNull => GenNode 0 []
  | JArr l => GenNode 1 (map to_tree l)
  | JObj o => GenNode 2 (map (λ kv, GenNode 3 [GenLeaf (inl kv.1); to_tree kv.2]) o)
  end.

Fixpoint of_tree (t : gen_tree leaf) : json :=
  match t with
  | GenLeaf (inl s) => JStr s
  | GenLeaf (inr (inl z)) => JNum z
  | GenLeaf (inr (inr b)) => JBool b
  | GenNode 0 _ => JNull
  | GenNode 1 l => JArr (map of_tree l)
  | GenNode _ l =>
      JObj (map (λ t, match t with GenNode _ [GenLeaf (inl k); v] => (k, of_tree v) | _ => ("", JNull) end) l)
  end.

Lemma of_to_tree : ∀ v, of_tree (to_tree v) = v.
Proof.
  fix IH 1. intros [s|z|b| |l|o]; cbn [to_tree of_tree]; try done; f_equal.
  - induction l as [|v l IHl]; [done|]. cbn [map]. by rewrite IH, IHl.
  - induction o as [|[k v] o IHo]; [done|]. cbn [map]. by rewrite IH, IHo.
Qed.

Definition ex_tree : TreeText := {|
  tree_encode v := Framing.pack (to_tree v);
  tree_decode b := of_tree <$> Framing.unpack b;
  utf8 _ := true |}.

Lemma ex_tree_laws : @TreeLaws ex_tree.
Proof. split; [|done]. intros v _. cbn. rewrite Framing.unpack_pack. cbn. by rewrite of_to_tree. Qed.

End Tree.
