(* ===== verification/ResponseJson.v ===== *)
(** The JSON of an invocation's response: [json.Marshal] in [ProcessProposal]
    ([orchestrator/service.go]) and [json.Unmarshal] in [callOrchestrator] ([cmd/client/main.go]).

    A Go string may hold any bytes; [encoding/json] writes every byte that is not part of valid
    UTF-8 as U+FFFD, so the text fields of a decoded response are those of the encoded one with
    these bytes replaced ([received]), and its [payload_base64] is what carries a binary payload. *)
From Stdlib Require Import ZArith Lia Ascii String.
From stdpp Require Import base option list strings.
From S2P Require Import Prelude OrchestratorTypes GoStrings GoText Json Framing JsonTree.
Import Types Tree.
Local Open Scope Z_scope.

Module Response.

(** ** Replacing invalid UTF-8 *)

(** U+FFFD. *)
Definition replacement : list Z := [239; 191; 189].

(** A byte that starts no rune is replaced alone. *)
Fixpoint replace_bytes (s : list Z) : list Z :=
  match s with
  | [] => []
  | a :: s1 =>
      if a <? 128 then a :: replace_bytes s1
      else
        match s1 with
        | [] => replacement
        | b :: s2 =>
            if (194 <=? a) && (a <=? 223) && GoText.cont b then a :: b :: replace_bytes s2
            else
              match s2 with
              | [] => replacement ++ replace_bytes s1
              | c :: s3 =>
                  if GoText.lead3 a b && GoText.cont c then a :: b :: c :: replace_bytes s3
                  else
                    match s3 with
                    | [] => replacement ++ replace_bytes s1
                    | d :: s4 =>
                        if GoText.lead4 a b && GoText.cont c && GoText.cont d
                        then a :: b :: c :: d :: replace_bytes s4
                        else replacement ++ replace_bytes s1
                    end
              end
        end
  end.

Definition replace_text (s : string) : string := GoText.text_of (replace_bytes (GoText.bytes_of s)).

Definition is_utf8 (s : string) : bool := match GoText.runes (GoText.bytes_of s) with Some _ => true | None => false end.

Lemma text_of_bytes s : GoText.text_of (GoText.bytes_of s) = s.
Proof.
  unfold GoText.text_of, GoText.bytes_of. induction s as [|a s IH]; [done|]. cbn. rewrite IH. f_equal.
  unfold GoStrings.byte_at, GoStrings.byte_of. by rewrite N2Z.id, ascii_N_embedding.
Qed.

Lemma bytes_of_text l : Forall (λ b, 0 <= b < 256) l → GoText.bytes_of (GoText.text_of l) = l.
Proof.
  unfold GoText.text_of, GoText.bytes_of. induction 1 as [|b l Hb _ IH]; [done|]. cbn. by rewrite IH, GoStrings.byte_of_at.
Qed.

Lemma bytes_of_range s : Forall (λ b, 0 <= b < 256) (GoText.bytes_of s).
Proof. unfold GoText.bytes_of. apply Forall_fmap, Forall_true. intros a. apply GoStrings.byte_of_range. Qed.

Lemma replace_valid s l : GoText.runes s = Some l → replace_bytes s = s.
Proof.
  revert l. induction s as [s IH] using (induction_ltof1 _ (@length Z)). unfold ltof in IH.
  assert (Hrec : ∀ s' v l, (length s' < length s)%nat → cons v <$> GoText.runes s' = Some l → replace_bytes s' = s').
  { intros s' v l Hl H. destruct (GoText.runes s') as [l0|] eqn:E; [|done]. by apply (IH s' Hl l0). }
  intros l. destruct s as [|a s1]; cbn [replace_bytes GoText.runes]; [done|].
  case_match; [intros Hr%Hrec; [by rewrite Hr|cbn; lia]|]. destruct s1 as [|b s2]; [done|].
  case_match; [intros Hr%Hrec; [by rewrite Hr|cbn; lia]|]. destruct s2 as [|c s3]; [done|].
  case_match; [intros Hr%Hrec; [by rewrite Hr|cbn; lia]|]. destruct s3 as [|d s4]; [done|].
  case_match; [intros Hr%Hrec; [by rewrite Hr|cbn; lia]|done].
Qed.

(** What was replaced is valid. *)
Lemma runes_replacement s : is_Some (GoText.runes s) → is_Some (GoText.runes (replacement ++ s)).
Proof. intros [l Hl]. cbn. rewrite Hl. cbn. by eexists. Qed.

Lemma runes_replace s : is_Some (GoText.runes (replace_bytes s)).
Proof.
  induction s as [s IH] using (induction_ltof1 _ (@length Z)). unfold ltof in IH.
  assert (Hmap : ∀ s' (v : Z), (length s' < length s)%nat → is_Some (cons v <$> GoText.runes (replace_bytes s'))).
  { intros s' v Hl. destruct (IH s' Hl) as [l ->]. by eexists. }
  assert (Hrep : ∀ s', (length s' < length s)%nat → is_Some (GoText.runes (replacement ++ replace_bytes s'))).
  { intros s' Hl. by apply runes_replacement, IH. }
  destruct s as [|a s1]; cbn [replace_bytes]; [by eexists|].
  destruct (a <? 128) eqn:E1; [cbn [GoText.runes]; rewrite E1; apply Hmap; cbn; lia|].
  destruct s1 as [|b s2]; [by eexists|].
  destruct ((194 <=? a) && (a <=? 223) && GoText.cont b) eqn:E2.
  { cbn [GoText.runes]. rewrite E1, E2. apply Hmap. cbn. lia. }
  destruct s2 as [|c s3]; [apply Hrep; cbn; lia|].
  destruct (GoText.lead3 a b && GoText.cont c) eqn:E3.
  { cbn [GoText.runes]. rewrite E1, E2, E3. apply Hmap. cbn. lia. }
  destruct s3 as [|d s4]; [apply Hrep; cbn; lia|].
  destruct (GoText.lead4 a b && GoText.cont c && GoText.cont d) eqn:E4; [|apply Hrep; cbn; lia].
  cbn [GoText.runes]. rewrite E1, E2, E3, E4. apply Hmap. cbn. lia.
Qed.

Lemma replace_bytes_range s : Forall (λ b, 0 <= b < 256) s → Forall (λ b, 0 <= b < 256) (replace_bytes s).
Proof.
  induction s as [s IH] using (induction_ltof1 _ (@length Z)). unfold ltof in IH. intros H.
  assert (Hr : Forall (λ b, 0 <= b < 256) replacement) by (repeat constructor; lia).
  destruct s as [|a s1]; cbn [replace_bytes]; [done|]. pose proof H as [Ha Hs1]%Forall_cons.
  assert (Hrest : Forall (λ b, 0 <= b < 256) (replacement ++ replace_bytes s1))
    by (apply Forall_app; split; [done|apply IH; [cbn; lia|done]]).
  destruct (a <? 128); [constructor; [done|apply IH; [cbn; lia|done]]|].
  destruct s1 as [|b s2]; [done|]. pose proof Hs1 as [Hb Hs2]%Forall_cons.
  destruct (_ && GoText.cont b); [do 2 (constructor; [done|]); apply IH; [cbn; lia|done]|].
  destruct s2 as [|c s3]; [done|]. pose proof Hs2 as [Hc Hs3]%Forall_cons.
  destruct (_ && GoText.cont c); [do 3 (constructor; [done|]); apply IH; [cbn; lia|done]|].
  destruct s3 as [|d s4]; [done|]. pose proof Hs3 as [Hd Hs4]%Forall_cons.
  destruct (_ && GoText.cont d); [do 4 (constructor; [done|]); apply IH; [cbn; lia|done]|done].
Qed.

Lemma replace_text_utf8 s : is_utf8 s = true → replace_text s = s.
Proof.
  unfold is_utf8, replace_text. destruct (GoText.runes _) as [l|] eqn:E; [|done]. intros _.
  rewrite (replace_valid _ l E). apply text_of_bytes.
Qed.

Lemma utf8_replace_text s : is_utf8 (replace_text s) = true.
Proof.
  unfold is_utf8, replace_text. rewrite bytes_of_text by (apply replace_bytes_range, bytes_of_range).
  by destruct (runes_replace (GoText.bytes_of s)) as [l ->].
Qed.

Lemma ascii_utf8 s :
  forallb (λ a, GoStrings.byte_of a <? 128) (list_ascii_of_string s) = true → is_utf8 s = true.
Proof.
  unfold is_utf8, GoText.bytes_of. intros H.
  enough (is_Some (GoText.runes (GoStrings.byte_of <$> list_ascii_of_string s))) as [l ->] by done.
  induction (list_ascii_of_string s) as [|a l IH]; [by eexists|]. cbn [forallb] in H. apply andb_true_iff in H as [Ha H].
  cbn. rewrite Ha. destruct (IH H) as [l' ->]. by eexists.
Qed.

(** Replacing keeps emptiness, which [omitempty] asks for. *)
Lemma replace_empty s : empty_string (replace_text s) = empty_string s.
Proof.
  unfold empty_string. apply bool_decide_ext. split; [|by intros ->].
  destruct s as [|x s]; [done|]. unfold replace_text, GoText.bytes_of. cbn [list_ascii_of_string fmap list_fmap].
  intros H. exfalso. revert H. generalize (GoStrings.byte_of x) as a, (GoStrings.byte_of <$> list_ascii_of_string s) as l.
  intros a l. destruct l as [|b [|c [|d l]]]; cbn [replace_bytes]; repeat case_match; done.
Qed.

(** The text of a tree, with what [encoding/json] does to the strings in it. *)
Fixpoint replace_tree (v : json) : json :=
  match v with
  | JStr s => JStr (replace_text s)
  | JArr l => JArr (map replace_tree l)
  | JObj o => JObj (map (λ kv, (replace_text kv.1, replace_tree kv.2)) o)
  | v => v
  end.

Class ReplacingLaws {T : TreeText} : Prop := {
  decode_encode v : tree_decode (tree_encode v) = Some (replace_tree v);
  utf8_is s : utf8 s = is_utf8 s }.

(** The laws the other messages rest on follow. *)
Lemma replace_tree_valid {T : TreeText} {TL : ReplacingLaws} : ∀ v, valid v = true → replace_tree v = v.
Proof.
  fix IH 1. intros [s|z|b| |l|o] H; cbn [replace_tree]; try done; f_equal.
  - cbn in H. rewrite utf8_is in H. by apply replace_text_utf8.
  - cbn in H. induction l as [|v l IHl]; [done|]. cbn in H. apply andb_true_iff in H as [Hv H]. cbn [map].
    by rewrite IH, IHl.
  - cbn in H. induction o as [|[k v] o IHo]; [done|]. cbn in H. rewrite !andb_true_iff in H. destruct H as [[Hk Hv] H].
    cbn [map fst snd]. rewrite utf8_is in Hk. by rewrite replace_text_utf8, IH, IHo.
Qed.

#[export] Instance tree_laws {T : TreeText} {TL : ReplacingLaws} : TreeLaws.
Proof.
  split.
  - intros v Hv. by rewrite decode_encode, replace_tree_valid.
  - intros s Hs. rewrite utf8_is. by apply ascii_utf8.
Qed.

(** ** The response *)

(** A pointer with [omitempty]: nil is left out, and null is read as nil. *)
Definition c_pointer {A} (c : codec A) : codec (option A) :=
  mkCodec (λ o, match o with Some a => enc c a | None => JNull end)
    (λ acc v, match v with
              | JNull => Ok None
              | _ => a ← dec c (default (zero c) acc) v; Ok (Some a)
              end) None.

Definition is_nil {A} (o : option A) : bool := match o with None => true | Some _ => false end.

Definition c_int32 : codec Z := c_int (- 2 ^ 31) (2 ^ 31).

Definition c_event : codec ChaincodeEvent :=
  struct (λ e, omit c_string empty_string "chaincode_id" (ev_ChaincodeID e) ++
               omit c_string empty_string "tx_id" (ev_TxID e) ++
               omit c_string empty_string "event_name" (ev_EventName e) ++
               omit c_string empty_string "payload" (ev_Payload e) ++
               omit c_string empty_string "payload_base64" (ev_PayloadBase64 e) ++ [])
    (λ acc o,
       id ← get c_string "chaincode_id" o (ev_ChaincodeID acc);
       tx ← get c_string "tx_id" o (ev_TxID acc);
       name ← get c_string "event_name" o (ev_EventName acc);
       payload ← get c_string "payload" o (ev_Payload acc);
       b64 ← get c_string "payload_base64" o (ev_PayloadBase64 acc);
       Ok (mkChaincodeEvent id tx name payload b64))
    (mkChaincodeEvent "" "" "" "" "").

Definition c_binding : codec LifecycleExecutionBinding :=
  struct (λ b, omit c_string empty_string "msp_id" (b_MSPID b) ++
               omit c_string empty_string "namespace" (b_Namespace b) ++
               omit c_string empty_string "chaincode_name" (b_ChaincodeName b) ++
               omit c_string empty_string "chaincode_version" (b_ChaincodeVersion b) ++
               omit c_int64 empty_int "sequence" (b_Sequence b) ++
               omit c_string empty_string "package_id" (b_PackageID b) ++
               omit c_string empty_string "package_address" (b_PackageAddress b) ++ [])
    (λ acc o,
       msp ← get c_string "msp_id" o (b_MSPID acc);
       namespace ← get c_string "namespace" o (b_Namespace acc);
       name ← get c_string "chaincode_name" o (b_ChaincodeName acc);
       version ← get c_string "chaincode_version" o (b_ChaincodeVersion acc);
       sequence ← get c_int64 "sequence" o (b_Sequence acc);
       package ← get c_string "package_id" o (b_PackageID acc);
       address ← get c_string "package_address" o (b_PackageAddress acc);
       Ok (mkBinding msp namespace name version sequence package address))
    (mkBinding "" "" "" "" 0 "" "").

Definition c_response : codec InvocationResponse :=
  struct (λ r, omit c_string empty_string "tx_id" (TxID r) ++
               field c_int32 "status" (out_Status r) ++
               omit c_string empty_string "message" (out_Message r) ++
               omit c_string empty_string "payload" (out_Payload r) ++
               omit c_string empty_string "payload_base64" (out_PayloadBase64 r) ++
               field c_bool "submitted" (Submitted r) ++
               omit c_bool negb "finality_pending" (FinalityPending r) ++
               omit c_string empty_string "commit_status" (CommitStatus r) ++
               omit c_uint64 empty_int "block_num" (BlockNum r) ++
               omit c_uint32 empty_int "tx_num" (TxNum r) ++
               omit c_string empty_string "idempotency_key" (out_IdempotencyKey r) ++
               omit c_bool negb "idempotent_replay" (IdempotentReplay r) ++
               omit (c_pointer c_event) is_nil "chaincode_event" (out_ChaincodeEvent r) ++
               omit (c_list c_binding) empty_list "lifecycle_bindings" (LifecycleBindings r) ++ [])
    (λ acc o,
       tx ← get c_string "tx_id" o (TxID acc);
       status ← get c_int32 "status" o (out_Status acc);
       message ← get c_string "message" o (out_Message acc);
       payload ← get c_string "payload" o (out_Payload acc);
       b64 ← get c_string "payload_base64" o (out_PayloadBase64 acc);
       submitted ← get c_bool "submitted" o (Submitted acc);
       pending ← get c_bool "finality_pending" o (FinalityPending acc);
       commit ← get c_string "commit_status" o (CommitStatus acc);
       block ← get c_uint64 "block_num" o (BlockNum acc);
       txNum ← get c_uint32 "tx_num" o (TxNum acc);
       key ← get c_string "idempotency_key" o (out_IdempotencyKey acc);
       replay ← get c_bool "idempotent_replay" o (IdempotentReplay acc);
       event ← get (c_pointer c_event) "chaincode_event" o (out_ChaincodeEvent acc);
       bindings ← get (c_list c_binding) "lifecycle_bindings" o (LifecycleBindings acc);
       Ok (mkInvocationResponse tx status message payload b64 submitted pending commit block txNum key replay
             event bindings))
    zero_response.

(** ** What is received of a response *)

Definition received_event (e : ChaincodeEvent) : ChaincodeEvent :=
  mkChaincodeEvent (replace_text (ev_ChaincodeID e)) (replace_text (ev_TxID e)) (replace_text (ev_EventName e))
    (replace_text (ev_Payload e)) (replace_text (ev_PayloadBase64 e)).

Definition received_binding (b : LifecycleExecutionBinding) : LifecycleExecutionBinding :=
  mkBinding (replace_text (b_MSPID b)) (replace_text (b_Namespace b)) (replace_text (b_ChaincodeName b))
    (replace_text (b_ChaincodeVersion b)) (b_Sequence b) (replace_text (b_PackageID b))
    (replace_text (b_PackageAddress b)).

Definition received (r : InvocationResponse) : InvocationResponse :=
  mkInvocationResponse (replace_text (TxID r)) (out_Status r) (replace_text (out_Message r))
    (replace_text (out_Payload r)) (replace_text (out_PayloadBase64 r)) (Submitted r) (FinalityPending r)
    (replace_text (CommitStatus r)) (BlockNum r) (TxNum r) (replace_text (out_IdempotencyKey r))
    (IdempotentReplay r) (received_event <$> out_ChaincodeEvent r) (received_binding <$> LifecycleBindings r).

(** The integers of the record are those of the Go fields. *)
Definition is_int32 (z : Z) : Prop := - 2 ^ 31 <= z < 2 ^ 31.

Definition ranged (r : InvocationResponse) : Prop :=
  is_int32 (out_Status r) ∧ is_uint64 (BlockNum r) ∧ is_uint32 (TxNum r) ∧
  Forall (λ b, is_int64 (b_Sequence b)) (LifecycleBindings r).

Section Laws.
Context {T : TreeText} {TL : ReplacingLaws}.

Lemma pointer_lawful {A} (c : codec A) fits :
  lawful c fits → (∀ a, enc c a ≠ JNull) → lawful (c_pointer c) (λ o, ∀ a, o = Some a → fits a).
Proof.
  intros [Hd Hv] Hn. split; intros [a|] Ha; cbn; try done; [|by apply Hv, Ha].
  specialize (Hd a (Ha a eq_refl)). specialize (Hn a). destruct (enc c a); try done; by rewrite Hd.
Qed.

Lemma int32_lawful : lawful c_int32 is_int32.
Proof. apply int_lawful. Qed.

Lemma omits_int64_field z : empty_int z = true → z = zero c_int64.
Proof. apply Z.eqb_eq. Qed.

Lemma omits_pointer {A} (c : codec A) o : is_nil o = true → o = zero (c_pointer c).
Proof. by destruct o. Qed.

Lemma text_received s : text (replace_text s).
Proof. unfold text. rewrite utf8_is. apply utf8_replace_text. Qed.

#[local] Hint Resolve pointer_lawful int32_lawful omits_int64_field omits_pointer text_received : codecs.

Definition fits_event (e : ChaincodeEvent) : Prop :=
  text (ev_ChaincodeID e) ∧ text (ev_TxID e) ∧ text (ev_EventName e) ∧ text (ev_Payload e) ∧
  text (ev_PayloadBase64 e).

Lemma event_lawful : lawful c_event fits_event.
Proof. struct_lawful. Qed.

Definition fits_binding (b : LifecycleExecutionBinding) : Prop :=
  text (b_MSPID b) ∧ text (b_Namespace b) ∧ text (b_ChaincodeName b) ∧ text (b_ChaincodeVersion b) ∧
  is_int64 (b_Sequence b) ∧ text (b_PackageID b) ∧ text (b_PackageAddress b).

Lemma binding_lawful : lawful c_binding fits_binding.
Proof. struct_lawful. Qed.

Lemma event_pointer_lawful : lawful (c_pointer c_event) (λ o, ∀ a, o = Some a → fits_event a).
Proof. by apply pointer_lawful; [apply event_lawful|]. Qed.

#[local] Hint Resolve event_pointer_lawful binding_lawful : codecs.

Definition fits_response (r : InvocationResponse) : Prop :=
  text (TxID r) ∧ is_int32 (out_Status r) ∧ text (out_Message r) ∧ text (out_Payload r) ∧
  text (out_PayloadBase64 r) ∧ text (CommitStatus r) ∧ is_uint64 (BlockNum r) ∧ is_uint32 (TxNum r) ∧
  text (out_IdempotencyKey r) ∧ (∀ e, out_ChaincodeEvent r = Some e → fits_event e) ∧
  Forall fits_binding (LifecycleBindings r).

Lemma response_lawful : lawful c_response fits_response.
Proof. struct_lawful. Qed.

(** A response that was received is one that survives. *)
Lemma received_fits r : ranged r → fits_response (received r).
Proof.
  intros (H1 & H2 & H3 & H4). unfold fits_response. cbn. split_and!; try done; try apply text_received.
  - intros e. destruct (out_ChaincodeEvent r); [|done]. intros [= <-]. unfold fits_event. cbn. split_and!; apply text_received.
  - apply Forall_fmap. eapply Forall_impl; [exact H4|]. intros b Hb. unfold fits_binding. cbn.
    split_and!; try done; apply text_received.
Qed.

(** Encoding and replacing is encoding what is received. *)
Lemma replace_ascii s :
  forallb (λ a, GoStrings.byte_of a <? 128) (list_ascii_of_string s) = true → replace_text s = s.
Proof. intros H. by apply replace_text_utf8, ascii_utf8. Qed.

Definition replace_fields (o : fields) : fields := map (λ kv, (replace_text kv.1, replace_tree kv.2)) o.

Lemma replace_omit {A} (c : codec A) empty name a b o o' :
  replace_text name = name → empty b = empty a → replace_tree (enc c a) = enc c b →
  replace_fields o = o' → replace_fields (omit c empty name a ++ o) = omit c empty name b ++ o'.
Proof. intros Hn He Hc <-. unfold omit. rewrite He. destruct (empty a); [done|]. unfold replace_fields. cbn [app map fst snd]. by rewrite Hn, Hc. Qed.

Lemma replace_field {A} (c : codec A) name a b o o' :
  replace_text name = name → replace_tree (enc c a) = enc c b →
  replace_fields o = o' → replace_fields (field c name a ++ o) = field c name b ++ o'.
Proof. intros Hn Hc <-. unfold replace_fields, field. cbn [app map fst snd]. by rewrite Hn, Hc. Qed.

(** Every field of a struct: one that is always written, or one left out when it is empty. *)
Ltac replace_struct :=
  cbn [enc struct replace_tree]; f_equal;
  change (map (λ kv, (replace_text kv.1, replace_tree kv.2))) with replace_fields;
  repeat first
    [ apply replace_omit; [by apply replace_ascii| | |]
    | apply replace_field; [by apply replace_ascii| |] ];
  try reflexivity; try apply replace_empty.

Lemma replace_event e : replace_tree (enc c_event e) = enc c_event (received_event e).
Proof. unfold c_event. replace_struct. Qed.

Lemma replace_binding b : replace_tree (enc c_binding b) = enc c_binding (received_binding b).
Proof. unfold c_binding. replace_struct. Qed.

Lemma replace_response r : replace_tree (enc c_response r) = enc c_response (received r).
Proof.
  unfold c_response. replace_struct.
  - cbn [received out_ChaincodeEvent]. by destruct (out_ChaincodeEvent r).
  - cbn [received out_ChaincodeEvent]. destruct (out_ChaincodeEvent r) as [e|]; [|done]. apply replace_event.
  - cbn [received LifecycleBindings]. by destruct (LifecycleBindings r).
  - cbn [received LifecycleBindings c_list enc replace_tree]. f_equal. rewrite !map_map. apply map_ext.
    intros b. apply replace_binding.
Qed.

(** What the client decodes of the orchestrator's bytes. *)
Lemma response_received r : ranged r → Unmarshal c_response (Marshal c_response r) = Ok (received r).
Proof.
  intros Hr. unfold Unmarshal, Marshal. rewrite decode_encode, replace_response.
  by apply (dec_enc _ _ response_lawful), received_fits.
Qed.

(** Text arrives as it is. *)
Lemma received_text r : fits_response r → received r = r.
Proof.
  unfold fits_response. intros (H1 & _ & H2 & H3 & H4 & H5 & _ & _ & H6 & H7 & H8).
  assert (Ht : ∀ s, text s → replace_text s = s).
  { intros s Hs. apply replace_text_utf8. unfold text in Hs. by rewrite utf8_is in Hs. }
  unfold received. rewrite !Ht by done.
  assert (received_event <$> out_ChaincodeEvent r = out_ChaincodeEvent r) as ->.
  { destruct (out_ChaincodeEvent r) as [e|]; [|done]. destruct (H7 e eq_refl) as (? & ? & ? & ? & ?).
    unfold received_event. cbn. rewrite !Ht by done. by destruct e. }
  assert (received_binding <$> LifecycleBindings r = LifecycleBindings r) as ->.
  { induction H8 as [|b l (? & ? & ? & ? & ? & ? & ?) _ IH]; [done|]. cbn. rewrite IH. unfold received_binding.
    rewrite !Ht by done. by destruct b. }
  by destruct r.
Qed.

(** A payload of any bytes arrives in [payload_base64]. *)
Lemma received_payload r :
  out_PayloadBase64 r = Json.base64 (out_Payload r) →
  Json.base64_decode (out_PayloadBase64 (received r)) = Ok (out_Payload r).
Proof.
  intros H. cbn. rewrite H, replace_ascii by apply Json.base64_text. apply Json.base64_decode_encode.
Qed.

End Laws.

(** ** A text syntax *)

Definition ex_text : TreeText := {|
  tree_encode v := Framing.pack (to_tree (replace_tree v));
  tree_decode b := of_tree <$> Framing.unpack b;
  utf8 := is_utf8 |}.

Lemma ex_text_laws : @ReplacingLaws ex_text.
Proof. split; [|done]. intros v. cbn. rewrite Framing.unpack_pack. cbn. by rewrite of_to_tree. Qed.

(** The bytes 00 FF of a payload are not text: the client is told 00 and U+FFFD, and has the bytes
    in base64. *)
Definition ex_binary : bytes := GoText.text_of [0; 255].

Lemma ex_binary_received :
  let r := mkInvocationResponse "tx1" 200 "" ex_binary (Json.base64 ex_binary) false false "" 0 0 "" false None [] in
  @Unmarshal ex_text _ c_response (@Marshal ex_text _ c_response r) = Ok (received r) ∧
  GoText.bytes_of (out_Payload (received r)) = [0; 239; 191; 189] ∧
  out_PayloadBase64 (received r) = "AP8=".
Proof. vm_compute. auto. Qed.

End Response.
