(* ===== verification/Events.v ===== *)
(** Committed chaincode events: the block stream and the event decoder of
    [pkg/orchestrator/execution.go], and the Gateway subscription and the event of an
    endorsement of [service.go].

    The block services are parameters: a delivery is the list of the messages its stream
    returns, and a subscription consumes them until it ends or still waits ([None]).  A
    subscriber's connection is a function from the responses sent so far to the error of the
    last one. *)
From Stdlib Require Import ZArith Lia Ascii Sorted.
From stdpp Require Import base option list strings gmap sets.
From S2P Require Import Prelude LifecycleStore OrchestratorTypes GoStrings Json Proto.
From S2P Require Import ExecContext Shim Helper Requests Msp EndorsementPolicy Instances Auth.
Import Types Proto.
Local Open Scope Z_scope.

Module Events.

(** ** Blocks *)

(** [common.Block]; [b_Number] is [None] without a header. *)
Record Block := mkBlock {
  b_Number : option Z;
  b_Data : list bytes;
  b_Metadata : list bytes }.

(** [peer.ChaincodeEvent]. *)
Record PeerEvent := mkPeerEvent {
  pe_ChaincodeId : string;
  pe_TxId : string;
  pe_EventName : string;
  pe_Payload : bytes }.

#[export] Instance PeerEvent_eq_dec : EqDecision PeerEvent.
Proof. solve_decision. Defined.

(** [gateway.ChaincodeEventsResponse]. *)
Record EventsResponse := mkEventsResponse { er_BlockNumber : Z; er_Events : list PeerEvent }.

Definition TRANSACTIONS_FILTER : nat := 2.
Definition COMMITTED_byte : ascii := GoStrings.byte_at 1.
Definition HeaderType_MESSAGE : Z := 0.

(** [proto.Unmarshal] of a [common.Envelope]: its payload. *)
Class EnvelopeProto := { unmarshal_EnvelopePayload : bytes → result bytes }.

Section Decode.
Context {J : Json.JSONText} {PU : ProtoUtil} {MP : MetadataProto} {EP : EnvelopeProto}.

(** ** Events of transactions *)

Definition chaincodeEventFromTransaction (tx : option Tx) (txID : string)
    : result (option PeerEvent) :=
  match tx with
  | None => Ok None
  | Some tx =>
      match Metadata tx with
      | [] => Ok None
      | first :: _ =>
          match unmarshal_Metadata first with
          | Err e => Err (EWrap "decode chaincode event metadata: %w" e)
          | Ok metadata =>
              if bool_decide (md_EventName metadata = "") && bool_decide (md_Event metadata = "")
              then Ok None
              else
                identity ← Helper.ChaincodeIdentityFromMetadata (Metadata tx);
                let chaincode := match Namespaces tx with ns :: _ => NsId ns | [] => "" end in
                match identity with
                | None => Ok (Some (mkPeerEvent chaincode txID (md_EventName metadata)
                                      (md_Event metadata)))
                | Some id =>
                    if negb (length (Namespaces tx) =? 1)%nat ||
                       negb (bool_decide (Helper.ci_Namespace id = chaincode))
                    then Err (ENew "event identity does not match the native namespace")
                    else Ok (Some (mkPeerEvent
                           (Helper.ci_ChaincodeName id +:+ ":" +:+ Helper.ci_Namespace id) txID
                           (md_EventName metadata) (md_Event metadata)))
                end
          end
      end
  end.

Definition eventFromEndorsement (end_ : SdkEndorsement) (txID : string) : option ChaincodeEvent :=
  match end_Responses end_ with
  | Some response :: _ =>
      if bool_decide (pr_Payload response = "") then None
      else
        match UnmarshalTx (pr_Payload response) with
        | Err _ => None
        | Ok tx =>
            match chaincodeEventFromTransaction (Some tx) txID with
            | Err _ | Ok None => None
            | Ok (Some event) =>
                let chaincodeID := match Namespaces tx with ns :: _ => NsId ns | [] => "" end in
                Some (mkChaincodeEvent chaincodeID txID (pe_EventName event) (pe_Payload event)
                        (Json.base64 (pe_Payload event)))
            end
        end
  | _ => None
  end.

(** One committed entry of a block. *)
Definition committed_transaction (raw : bytes) (channel : string) : result (option PeerEvent) :=
  match unmarshal_EnvelopePayload raw with
  | Err e => Err (EWrap "decode committed envelope: %w" e)
  | Ok envelope =>
      match UnmarshalPayload envelope with
      | Ok (Some payload_header, data) =>
          match UnmarshalChannelHeader (ChannelHeader payload_header) with
          | Err e => Err (EWrap "decode committed channel header: %w" e)
          | Ok header =>
              if negb (bool_decide (ChannelId header = channel)) ||
                 negb (ch_Type header =? HeaderType_MESSAGE)
              then Ok None
              else
                match UnmarshalTx data with
                | Err e => Err (EWrap "decode native transaction: %w" e)
                | Ok tx =>
                    identity ← Helper.ChaincodeIdentityFromMetadata (Metadata tx);
                    match identity with
                    | None => Ok None
                    | Some id =>
                        if negb (bool_decide (Helper.ci_ChannelID id = channel))
                        then Err (ENew "signed event channel does not match committed envelope")
                        else if bool_decide (TxId header = "")
                        then Err (ENew "committed event transaction has no ID")
                        else chaincodeEventFromTransaction (Some tx) (TxId header)
                    end
                end
          end
      | _ => Err (ENew "committed transaction has invalid payload/header")
      end
  end.

(** The loop of [committedChaincodeEvents] over the transactions and the filter. *)
Fixpoint committed_transactions (transactions : list bytes) (filter : bytes) (channel : string)
    : result (list PeerEvent) :=
  match transactions, filter with
  | raw :: rest, String code filter =>
      if negb (bool_decide (code = COMMITTED_byte))
      then committed_transactions rest filter channel
      else
        event ← committed_transaction raw channel;
        events ← committed_transactions rest filter channel;
        Ok (option_list event ++ events)
  | _, _ => Ok []
  end.

Definition committedChaincodeEvents (block : Block) (channel : string) : result (list PeerEvent) :=
  match b_Number block with
  | None => Err (ENew "committed block has no header")
  | Some _ =>
      match b_Data block with
      | [] => Ok []
      | transactions =>
          match b_Metadata block !! TRANSACTIONS_FILTER with
          | None => Err (ENew "committed block has missing or inconsistent transaction validation codes")
          | Some filter =>
              if negb (String.length filter =? length transactions)%nat
              then Err (ENew "committed block has missing or inconsistent transaction validation codes")
              else committed_transactions transactions filter channel
          end
      end
  end.

End Decode.

(** ** The block stream *)

(** [orderer.SeekInfo] with BLOCK_UNTIL_READY. *)
Record SeekInfo := mkSeek { seek_Start : Z; seek_Stop : Z }.

(** A message of the delivery stream: a failed [Recv], a block, or a status. *)
Inductive delivered : Type :=
  | RecvFailed (e : goerr)
  | RecvBlock (b : Block)
  | RecvStatus.

(** The delivery service as one subscription meets it; [d_sign] is
    [protoutil.CreateSignedEnvelope] with the service's signer, [None] without a signer. *)
Record delivery := mkDelivery {
  d_sign : option (SeekInfo → result bytes);
  d_Deliver : option goerr;
  d_Send : bytes → option goerr;
  d_CloseSend : option goerr;
  d_Recv : SeekInfo → list delivered }.

(** What a subscription has returned: [None] while it waits for the next block. *)
Notation stream_end := (option (option goerr)) (only parsing).

Section Stream.
Context {S : Type} (visit : S → Block → S * option goerr).

(** The receive loop; [expected] never passes the largest block number. *)
Fixpoint receive (expected : Z) (messages : list delivered) (s : S) : S * stream_end :=
  match messages with
  | [] => (s, None)
  | RecvFailed e :: _ => (s, Some (Some (EWrap "receive committed block: %w" e)))
  | RecvStatus :: _ => (s, Some (Some (ENew "committed block delivery ended with status %s")))
  | RecvBlock b :: rest =>
      if negb (bool_decide (b_Number b = Some expected))
      then (s, Some (Some (EStatus CodeDataLoss
                             (ENew "committed block delivery expected block %d"))))
      else
        match visit s b with
        | (s, Some e) => (s, Some (Some e))
        | (s, None) =>
            if expected =? uint64_max then (s, Some None) else receive (expected + 1) rest s
        end
  end.

Definition streamCommittedBlocks (d : delivery) (start : Z) (s : S) : S * stream_end :=
  match d_sign d with
  | None => (s, Some (Some (EStatus CodeFailedPrecondition
                              (ENew "block delivery signer is not configured"))))
  | Some sign =>
      let seek := mkSeek start uint64_max in
      match sign seek with
      | Err e => (s, Some (Some (EStatus CodeInternal e)))
      | Ok envelope =>
          match d_Deliver d with
          | Some e => (s, Some (Some (EWrap "open committed block delivery: %w" e)))
          | None =>
              match d_Send d envelope with
              | Some e => (s, Some (Some (EWrap "send block seek: %w" e)))
              | None =>
                  match d_CloseSend d with
                  | Some e => (s, Some (Some (EWrap "close block seek send: %w" e)))
                  | None => receive start (d_Recv d seek) s
                  end
              end
          end
      end
  end.

End Stream.

(** ** Gateway subscriptions *)

Section Subscribe.
Context {L : Msp.MSPLib} {J : Json.JSONText} {PU : ProtoUtil} {GP : Auth.GatewayProto}.
Context {MP : MetadataProto} {EP : EnvelopeProto}.

(** The checkpoint filter over the events of one block: the events after it, and the
    checkpoint still to be found. *)
Fixpoint matching_events (chaincode : string) (events : list PeerEvent) (previous : string)
    : list PeerEvent * string :=
  match events with
  | [] => ([], previous)
  | event :: rest =>
      if negb (bool_decide (previous = "")) then
        matching_events chaincode rest
          (if bool_decide (pe_TxId event = previous) then "" else previous)
      else
        let '(matching, previous) := matching_events chaincode rest previous in
        (if bool_decide (pe_ChaincodeId event = chaincode) then event :: matching else matching,
         previous)
  end.

(** A subscriber: the checkpoint still to be found and the responses sent. *)
Definition subscriber : Type := string * list EventsResponse.

(** The callback of [ChaincodeEvents]; [send] is [stream.Send]. *)
Definition event_visit (send : list EventsResponse → option goerr) (channel chaincode : string)
    (start : Z) (s : subscriber) (block : Block) : subscriber * option goerr :=
  let number := default 0 (b_Number block) in
  if number <? start then (s, None)
  else
    match committedChaincodeEvents block channel with
    | Err e => (s, Some (EStatus CodeDataLoss e))
    | Ok events =>
        let '(matching, previous) := matching_events chaincode events s.1 in
        match matching with
        | [] => ((previous, s.2), None)
        | _ =>
            let sent := s.2 ++ [mkEventsResponse number matching] in
            ((previous, sent), send sent)
        end
    end.

(** The block query service: the ledger height ([None] for a nil answer) and the block
    of a transaction ([None] for nil). *)
Record block_query := mkBlockQuery {
  bq_GetBlockchainInfo : result (option Z);
  bq_GetBlockByTxID : string → result (option Block) }.

(** The start of a subscription: the block it asks for, from the request and its
    checkpoint. *)
Definition checkpoint_start (bq : block_query) (ctx : ctx_err)
    (request : Auth.ChaincodeEventsRequest) (start : Z) : result Z :=
  if bool_decide (Auth.ce_AfterTransactionId request = "") then Ok start
  else
    match bq_GetBlockByTxID bq (Auth.ce_AfterTransactionId request) with
    | Ok block =>
        match block ≫= b_Number, block with
        | Some number, Some block =>
            match committedChaincodeEvents block (Auth.ce_ChannelId request) with
            | Err e => Err (EStatus CodeDataLoss e)
            | Ok events =>
                if existsb (λ e, bool_decide (pe_TxId e = Auth.ce_AfterTransactionId request)) events
                then Ok number
                else Err (EStatus CodeFailedPrecondition
                  (ENew "checkpoint must identify a committed event with chaincode identity metadata"))
            end
        | _, _ => Err (EStatus CodeDataLoss (ENew "checkpoint block has no header"))
        end
    | Err e =>
        if negb (bool_decide (status_Code e = CodeNotFound))
        then Err (Requests.invocationRPCError ctx e) else Ok start
    end.

(** The heights of the delivery: the requested start and the block to read from. *)
Definition subscription_start (bq : block_query) (ctx : ctx_err)
    (request : Auth.ChaincodeEventsRequest) : result (Z * Z) :=
  match bq_GetBlockchainInfo bq with
  | Err e => Err (Requests.invocationRPCError ctx e)
  | Ok None => Err (EStatus CodeDataLoss (ENew "block service returned no ledger information"))
  | Ok (Some height) =>
      let start := match Auth.ce_StartPosition request with
                   | Auth.SeekSpecified number => number
                   | _ => height
                   end in
      start ← checkpoint_start bq ctx request start;
      Ok (start, start `min` height)
  end.

(** The error of the finished stream; [status.FromError] accepts a nil error. *)
Definition events_outcome (ctx : ctx_err) (err : option goerr) : option goerr :=
  match ctx with
  | Some c => Some (status_FromContextError c)
  | None =>
      match err with
      | None => None
      | Some e =>
          match status_FromError e with
          | Some _ => Some e
          | None => Some (EStatus CodeUnavailable e)
          end
      end
  end.

(** [ctx] gives [ctx.Err()] on entry, in the set-up and at the end. *)
Definition ChaincodeEvents (s : Auth.Service) (now : Z) (ctx : ctx_err * ctx_err * ctx_err)
    (bq : option block_query) (d : option delivery) (send : list EventsResponse → option goerr)
    (signed : option Auth.SignedRequest) : list EventsResponse * stream_end :=
  match ctx.1.1 with
  | Some c => ([], Some (Some (status_FromContextError c)))
  | None =>
      match Auth.authenticateGatewayChaincodeEvents s now signed with
      | Err e => ([], Some (Some e))
      | Ok request =>
          match bq, d with
          | Some bq, Some d =>
              match subscription_start bq ctx.1.2 request with
              | Err e => ([], Some (Some e))
              | Ok (start, deliverFrom) =>
                  let '((_, sent), outcome) :=
                    streamCommittedBlocks
                      (event_visit send (Auth.ce_ChannelId request) (Auth.ce_ChaincodeId request)
                         start)
                      d deliverFrom (Auth.ce_AfterTransactionId request, []) in
                  (sent, option_map (events_outcome ctx.2) outcome)
              end
          | _, _ => ([], Some (Some (EStatus CodeFailedPrecondition
                                       (ENew "committed block services are not configured"))))
          end
      end
  end.

End Subscribe.

(** ** What a subscription reads *)

(** A run of the callback over blocks; only the last may fail. *)
Inductive visited {S} (visit : S → Block → S * option goerr)
    : S → list Block → S → option goerr → Prop :=
  | visited_nil s : visited visit s [] s None
  | visited_fail s b s' e : visit s b = (s', Some e) → visited visit s [b] s' (Some e)
  | visited_step s b s1 bs s' o :
      visit s b = (s1, None) → visited visit s1 bs s' o → visited visit s (b :: bs) s' o.

(** Blocks numbered from [n] on. *)
Definition numbered (n : Z) (bs : list Block) : Prop :=
  ∀ i b, bs !! i = Some b → b_Number b = Some (n + Z.of_nat i).

Section Spec.
Context {J : Json.JSONText} {PU : ProtoUtil} {MP : MetadataProto} {EP : EnvelopeProto}.

(** The events of the blocks numbered at least [start], up to the first block that cannot be
    decoded, each with its block's number. *)
Fixpoint readable_events (channel : string) (start : Z) (bs : list Block) : list (Z * PeerEvent) :=
  match bs with
  | [] => []
  | b :: rest =>
      let number := default 0 (b_Number b) in
      if number <? start then readable_events channel start rest
      else
        match committedChaincodeEvents b channel with
        | Err _ => []
        | Ok events => (pair number <$> events) ++ readable_events channel start rest
        end
  end.

(** The events after the checkpoint. *)
Fixpoint after (previous : string) (l : list (Z * PeerEvent)) : list (Z * PeerEvent) :=
  match l with
  | [] => []
  | e :: rest =>
      if bool_decide (previous = "") then l
      else after (if bool_decide (pe_TxId e.2 = previous) then "" else previous) rest
  end.

(** The checkpoint still to be found after [l]. *)
Fixpoint remaining (previous : string) (l : list (Z * PeerEvent)) : string :=
  match l with
  | [] => previous
  | e :: rest =>
      remaining (if bool_decide (pe_TxId e.2 = previous) then "" else previous) rest
  end.

Definition of_chaincode (chaincode : string) (l : list (Z * PeerEvent)) : list (Z * PeerEvent) :=
  filter (λ e, pe_ChaincodeId e.2 = chaincode) l.

(** The events of the responses. *)
Definition sent_events (sent : list EventsResponse) : list (Z * PeerEvent) :=
  sent ≫= λ r, pair (er_BlockNumber r) <$> er_Events r.

Lemma after_nil l : after "" l = l.
Proof. by destruct l. Qed.

Lemma remaining_nil l : remaining "" l = "".
Proof. induction l as [|e l IH]; simpl; [done|]. by case_bool_decide. Qed.

Lemma after_app previous l1 l2 :
  after previous (l1 ++ l2) = after previous l1 ++ after (remaining previous l1) l2.
Proof.
  revert previous. induction l1 as [|e l1 IH]; intros previous; simpl; [done|].
  destruct (decide (previous = "")) as [->|Hp].
  - rewrite bool_decide_eq_true_2 by done.
    assert ((if bool_decide (pe_TxId e.2 = "") then "" else "") = "") as -> by (by case_bool_decide).
    by rewrite remaining_nil, after_nil.
  - rewrite bool_decide_eq_false_2 by done. apply IH.
Qed.

Lemma after_absent previous l l' e :
  previous ≠ "" → pe_TxId e.2 = previous → previous ∉ (λ e, pe_TxId e.2) <$> l →
  after previous (l ++ e :: l') = l'.
Proof.
  intros Hp He. induction l as [|x l IH]; simpl; intros Hl.
  - rewrite !bool_decide_eq_false_2 by done. by rewrite bool_decide_eq_true_2, after_nil.
  - apply not_elem_of_cons in Hl as [Hx Hl]. rewrite bool_decide_eq_false_2 by done.
    rewrite (bool_decide_eq_false_2 (pe_TxId x.2 = previous)) by done. by apply IH.
Qed.

Lemma matching_spec chaincode number events previous :
  let l := pair number <$> events in
  pair number <$> (matching_events chaincode events previous).1 =
    of_chaincode chaincode (after previous l) ∧
  (matching_events chaincode events previous).2 = remaining previous l.
Proof.
  cbn zeta. revert previous. induction events as [|e events IH]; intros previous; [done|].
  cbn [matching_events fmap list_fmap after remaining snd].
  destruct (decide (previous = "")) as [->|Hp].
  - rewrite !bool_decide_eq_true_2 by done. cbn [negb].
    destruct (IH "") as [IH1 IH2]. rewrite after_nil in IH1.
    destruct (matching_events chaincode events "") as [m p]. cbn [fst snd] in *.
    assert ((if bool_decide (pe_TxId e = "") then "" else "") = "") as -> by (by case_bool_decide).
    split; [|done]. unfold of_chaincode in *. rewrite filter_cons. cbn [snd].
    case_bool_decide as Hc; case_decide as Hd; try done. cbn [fmap list_fmap]. by rewrite IH1.
  - rewrite !bool_decide_eq_false_2 by done. cbn [negb]. apply IH.
Qed.

Lemma sent_events_snoc sent r :
  sent_events (sent ++ [r]) = sent_events sent ++ (pair (er_BlockNumber r) <$> er_Events r).
Proof. unfold sent_events. rewrite bind_app. cbn. by rewrite app_nil_r. Qed.

(** One call of the callback. *)
Lemma event_visit_spec send channel chaincode start previous sent b s' o :
  event_visit send channel chaincode start (previous, sent) b = (s', o) →
  let events := readable_events channel start [b] in
  sent_events s'.2 = sent_events sent ++ of_chaincode chaincode (after previous events) ∧
  (default 0 (b_Number b) < start ∨ (∃ evs, committedChaincodeEvents b channel = Ok evs) →
   s'.1 = remaining previous events).
Proof.
  unfold event_visit. cbn [readable_events fst snd]. destruct (_ <? start) eqn:Hn; cbn zeta.
  { intros [= <- <-]. cbn. by rewrite app_nil_r. }
  destruct (committedChaincodeEvents b channel) as [evs|e].
  2:{ intros [= <- <-]. cbn. rewrite app_nil_r. split; [done|].
      intros [?|[evs ?]]; [bool_props; lia|done]. }
  rewrite app_nil_r. destruct (matching_spec chaincode (default 0 (b_Number b)) evs previous) as [H1 H2].
  destruct (matching_events chaincode evs previous) as [matching p]. cbn [fst snd] in *.
  rewrite <- H1, <- H2. destruct matching as [|m matching]; intros [= <- <-]; cbn [fst snd].
  - split; [cbn; by rewrite app_nil_r|done].
  - rewrite sent_events_snoc. done.
Qed.

Lemma readable_cons channel start b bs :
  readable_events channel start (b :: bs) =
    readable_events channel start [b] ++
    (if bool_decide (default 0 (b_Number b) < start ∨
         is_ok (committedChaincodeEvents b channel) = true)
     then readable_events channel start bs else []).
Proof.
  cbn [readable_events]. destruct (_ <? start) eqn:Hn.
  - rewrite bool_decide_eq_true_2 by (left; bool_props; lia). done.
  - destruct (committedChaincodeEvents b channel); cbn [is_ok].
    + rewrite bool_decide_eq_true_2 by (by right). by rewrite app_nil_r.
    + rewrite bool_decide_eq_false_2 by (bool_props; intros [?|?]; [lia|done]). done.
Qed.

(** The responses of a run hold exactly the events of its blocks after the checkpoint. *)
Lemma visited_events send channel chaincode start s bs s' o :
  visited (event_visit send channel chaincode start) s bs s' o →
  sent_events s'.2 =
    sent_events s.2 ++ of_chaincode chaincode (after s.1 (readable_events channel start bs)).
Proof.
  induction 1 as [s|[previous sent] b s' e Hv|[previous sent] b [p1 sent1] bs s' o Hv Hrun IH].
  - cbn. by rewrite app_nil_r.
  - apply event_visit_spec in Hv as [Hv _]. done.
  - assert (Hgo : default 0 (b_Number b) < start ∨ ∃ evs, committedChaincodeEvents b channel = Ok evs).
    { unfold event_visit in Hv. destruct (_ <? start) eqn:Hn; [left; bool_props; lia|].
      destruct (committedChaincodeEvents b channel); [eauto|done]. }
    apply event_visit_spec in Hv as [Hv Hp]. cbn [fst snd] in *. rewrite IH, Hv, (readable_cons channel start b bs).
    rewrite bool_decide_eq_true_2 by (destruct Hgo as [?|[? ->]]; [by left|by right]).
    rewrite after_app. unfold of_chaincode. rewrite filter_app, app_assoc. by rewrite <- Hp.
Qed.

End Spec.

(** Why a stream that delivered the blocks [bs] has returned, or still waits: [err] is the error
    of its callback, [rest] the messages after these blocks. *)
Inductive stopped (from : Z) (bs : list Block) (rest : list delivered) (err : option goerr)
    : stream_end → Prop :=
  | stopped_callback e : err = Some e → stopped from bs rest err (Some (Some e))
  | stopped_waiting : err = None → rest = [] → stopped from bs rest err None
  | stopped_receive e tl : err = None → rest = RecvFailed e :: tl →
      stopped from bs rest err (Some (Some (EWrap "receive committed block: %w" e)))
  | stopped_status tl : err = None → rest = RecvStatus :: tl →
      stopped from bs rest err (Some (Some (ENew "committed block delivery ended with status %s")))
  | stopped_gap b tl : err = None → rest = RecvBlock b :: tl →
      b_Number b ≠ Some (from + Z.of_nat (length bs)) →
      stopped from bs rest err
        (Some (Some (EStatus CodeDataLoss (ENew "committed block delivery expected block %d"))))
  | stopped_last : err = None → from + Z.of_nat (length bs) = uint64_max + 1 →
      stopped from bs rest err (Some None).

(** The blocks a stream visits are the received ones, numbered from its start. *)
Lemma receive_visited {S} (visit : S → Block → S * option goerr) expected messages s s' o :
  receive visit expected messages s = (s', o) →
  ∃ bs rest err, messages = (RecvBlock <$> bs) ++ rest ∧ visited visit s bs s' err ∧
    numbered expected bs ∧
    (expected <= uint64_max → expected + Z.of_nat (length bs) <= uint64_max + 1) ∧
    match o with
    | None => rest = [] ∧ err = None
    | Some None => err = None ∧ expected + Z.of_nat (length bs) = uint64_max + 1
    | Some (Some e) => err = Some e ∨ (err = None ∧ rest ≠ [])
    end ∧ stopped expected bs rest err o.
Proof.
  revert expected s. induction messages as [|m messages IH]; intros expected s; cbn [receive].
  { intros [= <- <-]. exists [], [], None. split_and!; try done; [constructor|cbn; lia|by apply stopped_waiting]. }
  destruct m as [e|b|];
    [intros [= <- <-]; exists [], (RecvFailed e :: messages), None;
     split_and!; try done; [constructor|cbn; lia|by right|by eapply stopped_receive]|
    |intros [= <- <-]; exists [], (RecvStatus :: messages), None;
     split_and!; try done; [constructor|cbn; lia|by right|by eapply stopped_status]].
  case_bool_decide as Hb; cbn [negb].
  2:{ intros [= <- <-]. exists [], (RecvBlock b :: messages), None.
      split_and!; try done; [constructor|cbn; lia|by right|].
      eapply stopped_gap; [done|done|]. cbn [length]. by replace (expected + Z.of_nat 0) with expected by lia. }
  assert (Hcons : ∀ bs, numbered (expected + 1) bs → numbered expected (b :: bs)).
  { intros bs Hbs [|i] c Hc; [injection Hc as <-; rewrite Hb; f_equal; lia|].
    rewrite (Hbs i c Hc). f_equal. lia. }
  assert (Hone : numbered expected [b]) by (by apply Hcons).
  destruct (visit s b) as [s1 [e|]] eqn:Hv.
  { intros [= <- <-]. exists [b], messages, (Some e).
    split_and!; try done; [by constructor|cbn; lia|by left|by apply stopped_callback]. }
  destruct (expected =? uint64_max) eqn:Hmax; bool_props.
  { intros [= <- <-]. exists [b], messages, None.
    split_and!; try done; [eapply visited_step; [exact Hv|apply visited_nil]|cbn; lia|cbn; lia|].
    apply stopped_last; [done|]. cbn [length]. lia. }
  intros H. destruct (IH (expected + 1) s1 H) as (bs & rest & err & -> & Hvis & Hnum & Hle & Ho & Hstop).
  exists (b :: bs), rest, err. split_and!; try done.
  - by eapply visited_step.
  - by apply Hcons.
  - intros Hn. specialize (Hle ltac:(lia)). cbn [length]. lia.
  - destruct o as [[e|]|]; [done| |done]. cbn [length]. destruct Ho. split; [done|lia].
  - assert (Hlen : expected + Z.of_nat (length (b :: bs)) = expected + 1 + Z.of_nat (length bs))
      by (cbn [length]; lia).
    destruct Hstop as [e ?|? ?|e tl ? ?|tl ? ?|b' tl ? ? Hn|? Hn]; [by apply stopped_callback|
      by apply stopped_waiting|by eapply stopped_receive|by eapply stopped_status| |].
    + eapply stopped_gap; [done..|]. by rewrite Hlen.
    + apply stopped_last; [done|]. by rewrite Hlen.
Qed.

Lemma numbered_cons n b bs : numbered n (b :: bs) → b_Number b = Some n ∧ numbered (n + 1) bs.
Proof.
  intros H. split; [rewrite (H 0%nat b eq_refl); f_equal; lia|].
  intros i c Hc. rewrite (H (Datatypes.S i) c Hc). f_equal. lia.
Qed.

(** A ledger: its blocks numbered from 0, within the width of a block number. *)
Definition ledger (bs : list Block) : Prop :=
  numbered 0 bs ∧ Z.of_nat (length bs) <= uint64_max + 1.

Lemma numbered_drop n bs k : numbered n bs → numbered (n + Z.of_nat k) (drop k bs).
Proof. intros H i b Hb. rewrite lookup_drop in Hb. rewrite (H _ _ Hb). f_equal. lia. Qed.

Section Ledger.
Context {J : Json.JSONText} {PU : ProtoUtil} {MP : MetadataProto} {EP : EnvelopeProto}.

(** A stream over the rest of a ledger whose sends succeed. *)
Lemma receive_ledger channel chaincode start bs expected previous sent :
  0 <= expected → numbered expected bs → expected + Z.of_nat (length bs) <= uint64_max + 1 →
  sent_events (receive (event_visit (λ _, None) channel chaincode start) expected
                 (RecvBlock <$> bs) (previous, sent)).1.2 =
    sent_events sent ++ of_chaincode chaincode (after previous (readable_events channel start bs)).
Proof.
  revert expected previous sent. induction bs as [|b bs IH]; intros expected previous sent Hn Hb Hl.
  { cbn. by rewrite app_nil_r. }
  apply numbered_cons in Hb as [Hb Hbs]. cbn [fmap list_fmap receive length] in *.
  rewrite bool_decide_eq_true_2 by done. cbn [negb].
  destruct (event_visit _ channel chaincode start (previous, sent) b) as [[p1 sent1] o] eqn:Hv.
  pose proof (event_visit_spec _ _ _ _ _ _ _ _ _ Hv) as [Hs Hp]. rewrite Hb in Hp.
  cbn [fst snd default from_option id] in Hs, Hp.
  rewrite (readable_cons channel start b bs).
  unfold event_visit in Hv. rewrite Hb in Hv |- *. cbn [default from_option id fst snd] in Hv |- *. destruct (expected <? start) eqn:Hlt.
  - injection Hv as <- <- <-. bool_props. rewrite bool_decide_eq_true_2 by (left; done).
    assert (Hnil : readable_events channel start [b] = []).
    { cbn [readable_events]. rewrite Hb. cbn [default from_option id]. by rewrite (proj2 (Z.ltb_lt _ _) Hlt). }
    rewrite Hnil. cbn [app]. destruct (expected =? uint64_max) eqn:Hmax; bool_props.
    + destruct bs; [|cbn [length] in Hl; lia]. cbn. by rewrite app_nil_r.
    + apply IH; [lia|done|lia].
  - destruct (committedChaincodeEvents b channel) as [evs|e]; cbn [is_ok].
    2:{ injection Hv as <- <- <-. bool_props. rewrite bool_decide_eq_false_2 by (intros [?|?]; [lia|done]).
        by rewrite app_nil_r. }
    rewrite (bool_decide_eq_true_2 (_ ∨ true = true)) by (by right).
    assert (o = None) as -> by (destruct (matching_events _ _ _) as [[|? ?] ?]; congruence).
    rewrite after_app. unfold of_chaincode in *. rewrite filter_app, app_assoc, <- Hs.
    rewrite <- Hp by eauto. destruct (expected =? uint64_max) eqn:Hmax; bool_props.
    + destruct bs; [|cbn [length] in Hl; lia]. cbn. by rewrite app_nil_r.
    + apply IH; [lia|done|lia].
Qed.

(** Blocks before the start are skipped. *)
Lemma readable_skip channel start n bs k :
  numbered n bs → n + Z.of_nat k <= start →
  readable_events channel start (drop k bs) = readable_events channel start bs.
Proof.
  revert n k. induction bs as [|b bs IH]; intros n k Hb Hk; [by destruct k|].
  destruct k as [|k]; [done|]. apply numbered_cons in Hb as [Hb Hbs]. cbn [drop readable_events].
  rewrite Hb. cbn [default from_option id]. rewrite (proj2 (Z.ltb_lt n start)) by lia.
  rewrite (IH (n + 1) k) by (done || lia). done.
Qed.

Lemma readable_all channel s1 s2 n bs :
  numbered n bs → s1 <= n → s2 <= n →
  readable_events channel s1 bs = readable_events channel s2 bs.
Proof.
  revert n. induction bs as [|b bs IH]; intros n Hb H1 H2; [done|].
  apply numbered_cons in Hb as [Hb Hbs]. cbn [readable_events]. rewrite Hb. cbn [default from_option id].
  rewrite !(proj2 (Z.ltb_ge n _)) by lia.
  destruct (committedChaincodeEvents b channel); [|done]. f_equal. by apply (IH (n + 1)); [|lia..].
Qed.

(** A later start reads the events of the later blocks. *)
Lemma readable_later channel start n bs number e :
  numbered n bs → (number, e) ∈ readable_events channel start bs →
  start <= number ∧ (∃ b evs, number = n + Z.of_nat (Z.to_nat (number - n)) ∧ n <= number ∧
    bs !! Z.to_nat (number - n) = Some b ∧ committedChaincodeEvents b channel = Ok evs ∧ e ∈ evs) ∧
  ∃ earlier, readable_events channel start bs = earlier ++ readable_events channel number bs ∧
    Forall (λ x, x.1 < number) earlier.
Proof.
  revert n. induction bs as [|b bs IH]; intros n Hb; [intros H; by apply not_elem_of_nil in H|].
  apply numbered_cons in Hb as [Hb Hbs]. cbn [readable_events]. rewrite Hb. cbn [default from_option id].
  assert (Hshift : ∀ m, n + 1 <= m → Z.to_nat (m - n) = Datatypes.S (Z.to_nat (m - (n + 1))))
    by (intros; lia).
  destruct (n <? start) eqn:Hlt.
  - intros Hin. destruct (IH _ Hbs Hin) as (Hs & (b' & evs & H1 & H2 & H3 & H4) & earlier & He & Hf).
    split; [done|]. bool_props. split.
    + exists b', evs. rewrite (Hshift number) by done. split_and!; [lia|lia|done|apply H4..].
    + exists earlier. rewrite (proj2 (Z.ltb_lt n number)) by lia. done.
  - destruct (committedChaincodeEvents b channel) as [evs|?] eqn:Hevs;
      [|intros Hin; by apply not_elem_of_nil in Hin].
    intros Hin. bool_props. apply elem_of_app in Hin as [Hin|Hin].
    + apply list_elem_of_fmap_1 in Hin as (e' & [= -> ->] & Hin). split; [lia|]. split.
      * exists b, evs. replace (n - n) with 0 by lia. split_and!; try done; lia.
      * exists []. rewrite Z.ltb_irrefl. cbn [app]. split; [|constructor]. f_equal.
        apply (readable_all channel _ _ (n + 1)); [done|lia..].
    + destruct (IH _ Hbs Hin) as (Hs & (b' & evs' & H1 & H2 & H3 & H4) & earlier & He & Hf).
      split; [done|]. split.
      * exists b', evs'. rewrite (Hshift number) by done. split_and!; [lia|lia|done|apply H4..].
      * exists ((pair n <$> evs) ++ earlier). rewrite (proj2 (Z.ltb_lt n number)) by lia.
        split; [by rewrite He, app_assoc|]. apply Forall_app. split; [|done].
        apply Forall_fmap, Forall_true. intros x. cbn. lia.
Qed.

(** The transaction of an event that a block shows is named. *)
Lemma committed_transactions_named channel txs filter evs e :
  committed_transactions txs filter channel = Ok evs → e ∈ evs → pe_TxId e ≠ "".
Proof.
  revert filter evs. induction txs as [|raw txs IH]; intros [|code filter] evs;
    cbn [committed_transactions]; try (intros [= <-] H; by apply not_elem_of_nil in H).
  destruct (negb _); [apply IH|]. intros H Hin.
  apply bind_ok in H as (o & Ho & H). apply bind_ok in H as (evs' & Hevs & [= <-]).
  apply elem_of_app in Hin as [Hin|Hin]; [|by eapply IH].
  destruct o as [x|]; [|by apply not_elem_of_nil in Hin].
  apply list_elem_of_singleton in Hin as ->. unfold committed_transaction in Ho.
  destruct (unmarshal_EnvelopePayload raw); [|done].
  destruct (UnmarshalPayload _) as [[[ph|] data]|]; try done.
  destruct (UnmarshalChannelHeader _) as [h|]; [|done]. destruct (_ || _); [done|].
  destruct (UnmarshalTx data) as [tx|]; [|done]. apply bind_ok in Ho as ([id|] & _ & Ho); [|done].
  destruct (negb _); [done|]. case_bool_decide as Ht; [done|].
  unfold chaincodeEventFromTransaction in Ho. destruct (Metadata tx); [done|].
  destruct (unmarshal_Metadata _); [|done]. destruct (_ && _); [done|].
  apply bind_ok in Ho as ([id'|] & _ & Ho); [destruct (_ || _); [done|]|]; by injection Ho as <-.
Qed.

Lemma committed_events_named channel b evs e :
  committedChaincodeEvents b channel = Ok evs → e ∈ evs → pe_TxId e ≠ "".
Proof.
  unfold committedChaincodeEvents. destruct (b_Number b); [|done].
  destruct (b_Data b) as [|raw txs]; [intros [= <-] H; by apply not_elem_of_nil in H|].
  destruct (_ !! _); [|done]. destruct (negb _); [done|]. apply committed_transactions_named.
Qed.

End Ledger.

(** ** Properties *)

(** A block stream hands its callback exactly the consecutive blocks from its start, each
    once, up to a failure.  Block numbers never pass the largest 64-bit number, and the
    stream ends without an error only after the block of that number. *)
Theorem streamCommittedBlocks_in_order {S} (visit : S → Block → S * option goerr) d start s s' o :
  is_uint64 start →
  streamCommittedBlocks visit d start s = (s', o) →
  ∃ bs rest err, visited visit s bs s' err ∧
    (bs = [] ∨ d_Recv d (mkSeek start uint64_max) = (RecvBlock <$> bs) ++ rest) ∧
    (∀ i b, bs !! i = Some b →
       b_Number b = Some (start + Z.of_nat i) ∧ is_uint64 (start + Z.of_nat i)) ∧
    (o = Some None → start + Z.of_nat (length bs) = uint64_max + 1) ∧
    (∀ e, err = Some e → o = Some (Some e)).
Proof.
  intros Hs. unfold is_uint64 in Hs.
  assert (Hfail : ∀ e, (s, Some (Some e)) = (s', o) → ∃ bs rest err, visited visit s bs s' err ∧
    (bs = [] ∨ d_Recv d (mkSeek start uint64_max) = (RecvBlock <$> bs) ++ rest) ∧
    (∀ i b, bs !! i = Some b →
       b_Number b = Some (start + Z.of_nat i) ∧ is_uint64 (start + Z.of_nat i)) ∧
    (o = Some None → start + Z.of_nat (length bs) = uint64_max + 1) ∧
    (∀ e, err = Some e → o = Some (Some e))).
  { intros e [= <- <-]. exists [], [], None. split_and!; try done; [constructor|by left]. }
  unfold streamCommittedBlocks. destruct (d_sign d) as [sign|]; [|apply Hfail].
  destruct (sign _); [|apply Hfail]. destruct (d_Deliver d); [apply Hfail|].
  destruct (d_Send d _); [apply Hfail|]. destruct (d_CloseSend d); [apply Hfail|].
  intros H. apply receive_visited in H as (bs & rest & err & Hm & Hv & Hnum & Hle & Ho & _).
  specialize (Hle ltac:(unfold uint64_max; lia)).
  exists bs, rest, err. split_and!; [done|by right| | |].
  - intros i b Hb. split; [by apply Hnum|]. apply lookup_lt_Some in Hb.
    unfold is_uint64, uint64_max in *. lia.
  - intros ->. apply Ho.
  - intros e ->. destruct o as [[e'|]|]; [|by destruct Ho..]. by destruct Ho as [->|[? _]].
Qed.

(** A subscription that got past its set-up. *)
Lemma ChaincodeEvents_inv {L : Msp.MSPLib} {J : Json.JSONText} {PU : ProtoUtil} {GP : Auth.GatewayProto}
    {MP : MetadataProto} {EP : EnvelopeProto} s now ctx bq d send signed sent o :
  ChaincodeEvents s now ctx bq d send signed = (sent, o) →
  (sent = [] ∧ ∃ e, o = Some (Some e)) ∨
  ∃ request q dl start from previous outcome,
    Auth.authenticateGatewayChaincodeEvents s now signed = Ok request ∧
    bq = Some q ∧ d = Some dl ∧ subscription_start q ctx.1.2 request = Ok (start, from) ∧
    streamCommittedBlocks
      (event_visit send (Auth.ce_ChannelId request) (Auth.ce_ChaincodeId request) start) dl from
      (Auth.ce_AfterTransactionId request, []) = ((previous, sent), outcome) ∧
    o = option_map (events_outcome ctx.2) outcome.
Proof.
  unfold ChaincodeEvents. destruct ctx.1.1; [intros [= <- <-]; left; eauto|].
  destruct (Auth.authenticateGatewayChaincodeEvents s now signed) as [request|e];
    [|intros [= <- <-]; left; eauto].
  destruct bq as [q|]; [|intros [= <- <-]; left; eauto].
  destruct d as [dl|]; [|intros [= <- <-]; left; eauto].
  destruct (subscription_start q ctx.1.2 request) as [[start from]|e] eqn:Hstart;
    [|intros [= <- <-]; left; eauto].
  destruct (streamCommittedBlocks _ dl from _) as [[previous sent'] outcome] eqn:Hst.
  intros [= <- <-]. right. by exists request, q, dl, start, from, previous, outcome.
Qed.

Lemma visited_nonempty {J : Json.JSONText} {PU : ProtoUtil} {MP : MetadataProto} {EP : EnvelopeProto}
    send channel chaincode start s bs s' o :
  visited (event_visit send channel chaincode start) s bs s' o →
  Forall (λ r, er_Events r ≠ []) s.2 → Forall (λ r, er_Events r ≠ []) s'.2.
Proof.
  assert (Hone : ∀ s b s' o, event_visit send channel chaincode start s b = (s', o) →
    Forall (λ r, er_Events r ≠ []) s.2 → Forall (λ r, er_Events r ≠ []) s'.2).
  { intros t b t' o'. unfold event_visit. destruct (_ <? _); [by intros [= <- <-]|].
    destruct (committedChaincodeEvents b channel); [|by intros [= <- <-]].
    destruct (matching_events _ _ _) as [[|m ms] p]; intros [= <- <-]; [done|]. cbn [snd].
    intros Hf. apply Forall_app. split; [done|]. by constructor. }
  induction 1; [done|by eapply Hone|]. intros Hf. apply IHvisited. by eapply Hone.
Qed.

Section Answers.
Context {J : Json.JSONText} {PU : ProtoUtil} {MP : MetadataProto} {EP : EnvelopeProto}.
Variable send : list EventsResponse → option goerr.
Variables channel chaincode : string.
Variable start : Z.

(** Every response was sent without an error. *)
Definition accepted (sent : list EventsResponse) : Prop :=
  ∀ sent' r rest, sent = sent' ++ r :: rest → send (sent' ++ [r]) = None.

(** A block that ends no subscription by itself. *)
Definition decodes (b : Block) : Prop :=
  default 0 (b_Number b) < start ∨ is_ok (committedChaincodeEvents b channel) = true.

(** What the callback met in the blocks of a stream: it read and answered all of them, or it
    failed in the last one, which could not be decoded or whose response could not be sent. *)
Definition answered (bs : list Block) (sent : list EventsResponse) (err : option goerr) : Prop :=
  match err with
  | None => Forall decodes bs ∧ accepted sent
  | Some e => ∃ bs' b, bs = bs' ++ [b] ∧ Forall decodes bs' ∧ start <= default 0 (b_Number b) ∧
      ((∃ e', committedChaincodeEvents b channel = Err e' ∧ e = EStatus CodeDataLoss e' ∧ accepted sent) ∨
       (∃ sent' r, sent = sent' ++ [r] ∧ er_BlockNumber r = default 0 (b_Number b) ∧
          accepted sent' ∧ send sent = Some e))
  end.

Lemma accepted_snoc sent r : accepted sent → send (sent ++ [r]) = None → accepted (sent ++ [r]).
Proof.
  intros Ha Hr sent' r' rest E. destruct rest as [|x rest' _] using rev_ind.
  - by apply app_inj_tail in E as [-> ->].
  - rewrite app_comm_cons, app_assoc in E. apply app_inj_tail in E as [E _]. by eapply Ha.
Qed.

Lemma visited_answered s bs s' err :
  visited (event_visit send channel chaincode start) s bs s' err →
  accepted s.2 → answered bs s'.2 err.
Proof.
  assert (Hone : ∀ s b s' o, event_visit send channel chaincode start s b = (s', o) → accepted s.2 →
    match o with None => decodes b ∧ accepted s'.2 | Some e => answered [b] s'.2 (Some e) end).
  { clear. intros [previous sent] b s' o. unfold event_visit, decodes. cbn [fst snd].
    destruct (_ <? start) eqn:Hn; [intros [= <- <-] Ha; bool_props; by split; [left|]|]. bool_props.
    destruct (committedChaincodeEvents b channel) as [evs|e] eqn:Hevs; cbn [is_ok].
    2:{ intros [= <- <-] Ha. exists [], b. split_and!; [done|done|lia|]. left. by exists e. }
    destruct (matching_events _ _ _) as [[|m ms] p]; intros [= <- <-] Ha; cbn [snd]; [by split; [right|]|].
    destruct (send _) as [e|] eqn:Hs.
    - exists [], b. split_and!; [done|done|lia|]. right. by do 2 eexists.
    - split; [by right|]. by apply accepted_snoc. }
  induction 1 as [s|s b s' e Hv|s b s1 bs s' o Hv Hrun IH]; intros Ha.
  - split; [constructor|done].
  - by apply Hone in Hv.
  - apply Hone in Hv as [Hb Ha1]; [|done]. specialize (IH Ha1). destruct o as [e|]; cbn [answered] in *.
    + destruct IH as (bs' & b' & -> & Hbs & Hrest). exists (b :: bs'), b'. split; [done|].
      split; [by constructor|done].
    + destruct IH. split; [by constructor|done].
Qed.

(** Responses come in the order of the blocks, at most one for each. *)
Lemma visited_sorted s bs s' o n :
  visited (event_visit send channel chaincode start) s bs s' o → numbered n bs →
  StronglySorted Z.lt (er_BlockNumber <$> s.2) → Forall (λ r, er_BlockNumber r < n) s.2 →
  StronglySorted Z.lt (er_BlockNumber <$> s'.2).
Proof.
  assert (Hone : ∀ s b s' o n, event_visit send channel chaincode start s b = (s', o) →
    b_Number b = Some n → StronglySorted Z.lt (er_BlockNumber <$> s.2) →
    Forall (λ r, er_BlockNumber r < n) s.2 →
    StronglySorted Z.lt (er_BlockNumber <$> s'.2) ∧ Forall (λ r, er_BlockNumber r < n + 1) s'.2).
  { clear. intros [previous sent] b s' o n Hv Hb Hsort Hlt. cbn [snd] in *. unfold event_visit in Hv.
    rewrite Hb in Hv. cbn [default from_option id fst snd] in Hv.
    assert (Hlt' : Forall (λ r, er_BlockNumber r < n + 1) sent)
      by (eapply Forall_impl; [exact Hlt|]; cbn; lia).
    destruct (n <? start); [by injection Hv as <- <-|].
    destruct (committedChaincodeEvents b channel); [|by injection Hv as <- <-].
    destruct (matching_events _ _ _) as [[|m ms] p]; injection Hv as <- <-; cbn [snd]; [done|].
    split; [|apply Forall_app; split; [done|]; constructor; [cbn; lia|done]].
    rewrite fmap_app. clear - Hsort Hlt. induction sent as [|r sent IH]; cbn; [by repeat constructor|].
    apply StronglySorted_inv in Hsort as [Hs Hr]. apply Forall_cons in Hlt as [Hr' Hlt].
    constructor; [by apply IH|]. apply Forall_app. split; [done|]. by repeat constructor. }
  intros H. revert n. induction H as [s|s b s' e Hv|s b s1 bs s' o Hv Hrun IH]; intros n Hn Hs Hlt; [done| |].
  - apply numbered_cons in Hn as [Hb _]. by eapply Hone in Hv as [? _].
  - apply numbered_cons in Hn as [Hb Hbs]. eapply Hone in Hv as [? ?]; [|done..]. by eapply IH.
Qed.

End Answers.

(** The delivery stream is opened at block [from]. *)
Definition stream_opens (d : delivery) (from : Z) : Prop :=
  ∃ sign envelope, d_sign d = Some sign ∧ sign (mkSeek from uint64_max) = Ok envelope ∧
    d_Deliver d = None ∧ d_Send d envelope = None ∧ d_CloseSend d = None.

Lemma streamCommittedBlocks_opened {S} (visit : S → Block → S * option goerr) d start s :
  (stream_opens d start ∧
   streamCommittedBlocks visit d start s = receive visit start (d_Recv d (mkSeek start uint64_max)) s) ∨
  (¬ stream_opens d start ∧ ∃ e, streamCommittedBlocks visit d start s = (s, Some (Some e))).
Proof.
  unfold streamCommittedBlocks, stream_opens.
  destruct (d_sign d) as [sign|]; [|right; split; [by intros (? & ? & ? & _)|by eexists]].
  destruct (sign (mkSeek start uint64_max)) as [envelope|er] eqn:Hsign;
    [|right; split; [intros (? & ? & [= <-] & Hs & _); congruence|by eexists]].
  destruct (d_Deliver d) eqn:Hdel; [right; split; [by intros (? & ? & _ & _ & ? & _)|by eexists]|].
  destruct (d_Send d envelope) eqn:Hsend;
    [right; split; [intros (? & ? & [= <-] & Hs & _ & ? & _); congruence|by eexists]|].
  destruct (d_CloseSend d) eqn:Hclose; [right; split; [by intros (? & ? & _ & _ & _ & _ & ?)|by eexists]|].
  left. split; [by exists sign, envelope|done].
Qed.

(** A subscription that gets to its stream: the context lives, the reader is authenticated, the
    block services are there and the start was found. *)
Definition subscribed {L : Msp.MSPLib} {J : Json.JSONText} {PU : ProtoUtil} {GP : Auth.GatewayProto}
    {MP : MetadataProto} {EP : EnvelopeProto} (s : Auth.Service) (now : Z) (ctx : ctx_err * ctx_err * ctx_err)
    (bq : option block_query) (d : option delivery) (signed : option Auth.SignedRequest)
    (request : Auth.ChaincodeEventsRequest) (dl : delivery) (start from : Z) : Prop :=
  ctx.1.1 = None ∧ Auth.authenticateGatewayChaincodeEvents s now signed = Ok request ∧
  d = Some dl ∧ (∃ q, bq = Some q ∧ subscription_start q ctx.1.2 request = Ok (start, from)) ∧
  stream_opens dl from.

(** C38: A subscriber is sent exactly the matching events.  If the subscription is not refused (by
    an ended context, for a reader that is not authenticated, without the block services or a
    start, or when the stream cannot be opened), it reads the consecutive blocks its stream
    delivers from the start on, and sends exactly the events of the requested chaincode that
    follow its checkpoint in these blocks, in ledger order, each once and with its block's number,
    one nonempty response for a block at most.  It stops only for a reason: the stream failed,
    ended or skipped a block, a block could not be decoded, a response could not be sent, or the
    last possible block was read; otherwise every delivered block was answered and it waits for
    the next one.  A refused subscription sends nothing and returns an error. *)
Theorem ChaincodeEvents_exact {L : Msp.MSPLib} {J : Json.JSONText} {PU : ProtoUtil}
    {GP : Auth.GatewayProto} {MP : MetadataProto} {EP : EnvelopeProto} s now ctx bq d send signed sent o :
  ChaincodeEvents s now ctx bq d send signed = (sent, o) →
  ((∀ request dl start from, ¬ subscribed s now ctx bq d signed request dl start from) ∧
   sent = [] ∧ ∃ e, o = Some (Some e)) ∨
  ∃ request dl start from bs rest err ended,
    subscribed s now ctx bq d signed request dl start from ∧
    d_Recv dl (mkSeek from uint64_max) = (RecvBlock <$> bs) ++ rest ∧ numbered from bs ∧
    sent_events sent = of_chaincode (Auth.ce_ChaincodeId request)
      (after (Auth.ce_AfterTransactionId request)
         (readable_events (Auth.ce_ChannelId request) start bs)) ∧
    Forall (λ r, er_Events r ≠ []) sent ∧ StronglySorted Z.lt (er_BlockNumber <$> sent) ∧
    answered send (Auth.ce_ChannelId request) start bs sent err ∧
    stopped from bs rest err ended ∧ o = option_map (events_outcome ctx.2) ended.
Proof.
  unfold ChaincodeEvents, subscribed. intros H.
  assert (Hrefuse : ∀ e : goerr, ([] : list EventsResponse, Some (Some e)) = (sent, o) →
    sent = [] ∧ ∃ e, o = Some (Some e)) by (intros e [= <- <-]; eauto).
  destruct ctx.1.1; [left; split; [naive_solver|by eapply Hrefuse]|].
  destruct (Auth.authenticateGatewayChaincodeEvents s now signed) as [request|e];
    [|left; split; [naive_solver|by eapply Hrefuse]].
  destruct bq as [q|]; [|left; split; [naive_solver|by eapply Hrefuse]].
  destruct d as [dl|]; [|left; split; [naive_solver|by eapply Hrefuse]].
  destruct (subscription_start q ctx.1.2 request) as [[start from]|e] eqn:Hstart;
    [|left; split; [naive_solver congruence|by eapply Hrefuse]].
  destruct (streamCommittedBlocks_opened
    (event_visit send (Auth.ce_ChannelId request) (Auth.ce_ChaincodeId request) start) dl from
    (Auth.ce_AfterTransactionId request, [])) as [[Hopen Hs]|[Hopen [e Hs]]]; rewrite Hs in H.
  2:{ left. injection H as <- <-. cbn [option_map]. split; [|split; [done|]].
      - intros request' dl' start' from' (_ & [= <-] & [= <-] & (q' & [= <-] & Hst) & Ho).
        rewrite Hstart in Hst. by injection Hst as <- <-.
      - unfold events_outcome. repeat case_match; by eexists. }
  right. destruct (receive _ from _ _) as [[previous sent'] ended] eqn:Hrecv. injection H as <- <-.
  apply receive_visited in Hrecv as (bs & rest & err & Hm & Hv & Hnum & _ & _ & Hstop).
  exists request, dl, start, from, bs, rest, err, ended. split_and!; try done.
  - by exists q.
  - by apply visited_events in Hv.
  - apply visited_nonempty in Hv; [done|constructor].
  - eapply visited_sorted in Hv; [done|done|constructor|constructor].
  - apply visited_answered in Hv; [done|]. intros sent r tl E. by destruct sent.
Qed.

(** ** Resuming *)

(** The delivery service serves the ledger. *)
Definition serves (d : delivery) (bs : list Block) : Prop :=
  (∃ sign, d_sign d = Some sign ∧ ∀ seek, is_ok (sign seek) = true) ∧
  d_Deliver d = None ∧ (∀ x, d_Send d x = None) ∧ d_CloseSend d = None ∧
  ∀ n, d_Recv d (mkSeek n uint64_max) = RecvBlock <$> drop (Z.to_nat n) bs.

(** The query service knows the block of every event of the ledger and no other blocks; only the
    height it reports may lag. *)
Definition queries {J : Json.JSONText} {PU : ProtoUtil} {MP : MetadataProto} {EP : EnvelopeProto}
    (q : block_query) (channel : string) (bs : list Block) : Prop :=
  (∃ height, bq_GetBlockchainInfo q = Ok (Some height) ∧ 0 <= height) ∧
  (∀ tx b, bq_GetBlockByTxID q tx = Ok (Some b) → b ∈ bs) ∧
  (∀ b evs e, b ∈ bs → committedChaincodeEvents b channel = Ok evs → e ∈ evs →
     bq_GetBlockByTxID q (pe_TxId e) = Ok (Some b)).

Definition seek_in_range (request : Auth.ChaincodeEventsRequest) : Prop :=
  match Auth.ce_StartPosition request with Auth.SeekSpecified n => 0 <= n | _ => True end.

Section Resume.
Context {L : Msp.MSPLib} {J : Json.JSONText} {PU : ProtoUtil} {GP : Auth.GatewayProto}.
Context {MP : MetadataProto} {EP : EnvelopeProto}.

Lemma after_suffix previous (l : list (Z * PeerEvent)) : ∃ l1, l = l1 ++ after previous l.
Proof.
  revert previous. induction l as [|e l IH]; intros previous; [by exists []|]. cbn [after].
  case_bool_decide; [by exists []|]. destruct (IH (if bool_decide (pe_TxId e.2 = previous) then "" else previous))
    as [l1 Hl1]. exists (e :: l1). cbn [app]. by f_equal.
Qed.

Lemma filter_split {A} (P : A → Prop) `{!∀ x, Decision (P x)} l a x b :
  filter P l = a ++ x :: b → ∃ l1 l2, l = l1 ++ x :: l2 ∧ filter P l2 = b.
Proof.
  revert a. induction l as [|y l IH]; intros a; [by destruct a|]. rewrite filter_cons.
  case_decide as Hy.
  - destruct a as [|z a]; intros [= -> Hl]; [by exists [], l|].
    destruct (IH a Hl) as (l1 & l2 & -> & Hb). by exists (z :: l1), l2.
  - intros Hl. destruct (IH a Hl) as (l1 & l2 & -> & Hb). by exists (y :: l1), l2.
Qed.

(** A successful stream over a served ledger. *)
Lemma ChaincodeEvents_ledger s now q d signed request bs start from :
  Auth.authenticateGatewayChaincodeEvents s now signed = Ok request →
  subscription_start q None request = Ok (start, from) →
  0 <= from <= start → ledger bs → serves d bs →
  sent_events (ChaincodeEvents s now (None, None, None) (Some q) (Some d) (λ _, None) signed).1 =
    of_chaincode (Auth.ce_ChaincodeId request)
      (after (Auth.ce_AfterTransactionId request)
         (readable_events (Auth.ce_ChannelId request) start bs)).
Proof.
  intros Hauth Hst Hfrom [Hnum Hlen] ((sign & Hsign & Hok) & Hd & Hsend & Hclose & Hrecv).
  unfold ChaincodeEvents. cbn [fst snd]. rewrite Hauth, Hst. unfold streamCommittedBlocks.
  rewrite Hsign. specialize (Hok (mkSeek from uint64_max)). destruct (sign _) as [x|]; [|done].
  rewrite Hd, Hsend, Hclose, Hrecv.
  destruct (decide (from <= Z.of_nat (length bs))) as [Hle|Hgt].
  - pose proof (receive_ledger (Auth.ce_ChannelId request) (Auth.ce_ChaincodeId request) start
      (drop (Z.to_nat from) bs) from (Auth.ce_AfterTransactionId request) []) as H.
    destruct (receive _ from _ _) as [[p sent] o]. cbn [fst snd] in H |- *. rewrite H; [|lia|..].
    + rewrite (readable_skip _ _ 0) by (done || lia). done.
    + pose proof (numbered_drop 0 bs (Z.to_nat from) Hnum) as Hd'.
      by replace (0 + Z.of_nat (Z.to_nat from)) with from in Hd' by lia.
    + rewrite length_drop. lia.
  - rewrite drop_ge by lia. cbn [fmap list_fmap receive fst snd].
    rewrite <- (readable_skip _ _ 0 bs (Z.to_nat from)) by (done || lia).
    by rewrite drop_ge by lia.
Qed.

(** The start of a subscription whose checkpoint, if any, is known. *)
Lemma subscription_start_range q request channel bs start from :
  queries q channel bs → ledger bs → seek_in_range request →
  subscription_start q None request = Ok (start, from) → 0 <= from <= start.
Proof.
  intros ((h & Hh & Hpos) & Hin & _) [Hnum _] Hseek. unfold subscription_start. rewrite Hh.
  set (s0 := match Auth.ce_StartPosition request with Auth.SeekSpecified n => n | _ => h end).
  assert (Hs0 : 0 <= s0) by (unfold s0, seek_in_range in *; by destruct (Auth.ce_StartPosition request)).
  intros H. apply bind_ok in H as (s1 & H1 & [= <- <-]).
  assert (0 <= s1); [|lia]. revert H1. unfold checkpoint_start.
  case_bool_decide; [by intros [= <-]|].
  destruct (bq_GetBlockByTxID q _) as [[b|]|e] eqn:Hb; cbn [mbind option_bind].
  - destruct (b_Number b) as [n|] eqn:Hn; [|done].
    destruct (committedChaincodeEvents b _); [|done]. destruct (existsb _ _); [|done].
    intros [= <-]. apply Hin, list_elem_of_lookup in Hb as [i Hi]. rewrite (Hnum _ _ Hi) in Hn.
    injection Hn as <-. lia.
  - done.
  - destruct (negb _); [done|]. by intros [= <-].
Qed.

(** The events after one that is not among the earlier blocks'. *)
Lemma after_resumes earlier (l l0 l2 : list (Z * PeerEvent)) number e :
  earlier ++ l = l0 ++ (number, e) :: l2 → Forall (λ x, x.1 < number) earlier →
  NoDup ((λ x, pe_TxId x.2) <$> earlier ++ l) → pe_TxId e ≠ "" → after (pe_TxId e) l = l2.
Proof.
  intros Hl0 Hearly Hnodup Hnamed.
  apply app_eq_inv in Hl0 as [(k & Hk & Hk')|(k & Hk & Hk')].
  - destruct k as [|x k].
    { cbn [app] in Hk'. rewrite <- Hk'.
      apply (after_absent (pe_TxId e) [] l2 (number, e)); [done|done|]. apply not_elem_of_nil. }
    cbn [app] in Hk'. injection Hk' as <- _. rewrite Hk in Hearly.
    apply Forall_app in Hearly as [_ Hx]. apply Forall_cons in Hx as [Hx _]. cbn in Hx. lia.
  - rewrite Hk' in Hnodup |- *. apply after_absent; [done|done|].
    rewrite fmap_app, fmap_app in Hnodup. apply NoDup_app in Hnodup as (_ & _ & Hnodup).
    cbn [fmap list_fmap] in Hnodup. apply NoDup_app in Hnodup as (_ & Hdis & _).
    intros Hbad. apply (Hdis _ Hbad). left.
Qed.

(** C13: A subscriber that reconnects with the transaction of any event it received as its
    checkpoint receives exactly the events that followed it: an interrupted subscription loses
    nothing and repeats nothing, whatever start position the new request names and whatever
    height the query service reports, as long as it knows the blocks of the events. *)
Theorem subscription_resumes s now1 now2 q d signed1 signed2 request1 request2 bs number e before rest :
  Auth.authenticateGatewayChaincodeEvents s now1 signed1 = Ok request1 →
  Auth.authenticateGatewayChaincodeEvents s now2 signed2 = Ok request2 →
  Auth.ce_ChannelId request2 = Auth.ce_ChannelId request1 →
  Auth.ce_ChaincodeId request2 = Auth.ce_ChaincodeId request1 →
  seek_in_range request1 → ledger bs → serves d bs → queries q (Auth.ce_ChannelId request1) bs →
  (∀ start, NoDup ((λ x, pe_TxId x.2) <$> readable_events (Auth.ce_ChannelId request1) start bs)) →
  sent_events (ChaincodeEvents s now1 (None, None, None) (Some q) (Some d) (λ _, None) signed1).1 =
    before ++ (number, e) :: rest →
  Auth.ce_AfterTransactionId request2 = pe_TxId e →
  sent_events (ChaincodeEvents s now2 (None, None, None) (Some q) (Some d) (λ _, None) signed2).1 =
    rest.
Proof.
  intros Hauth1 Hauth2 Hch Hcc Hseek Hled Hserves Hq Hnodup Hsent Hcp.
  destruct (subscription_start q None request1) as [[start1 from1]|err] eqn:Hst1.
  2:{ unfold ChaincodeEvents in Hsent. cbn [fst snd] in Hsent. rewrite Hauth1, Hst1 in Hsent.
      by destruct before. }
  pose proof (subscription_start_range _ _ _ _ _ _ Hq Hled Hseek Hst1) as Hfrom1.
  rewrite (ChaincodeEvents_ledger _ _ _ _ _ _ _ _ _ Hauth1 Hst1 Hfrom1 Hled Hserves) in Hsent.
  apply filter_split in Hsent as (l1 & l2 & Hl & Hrest).
  destruct (after_suffix (Auth.ce_AfterTransactionId request1)
    (readable_events (Auth.ce_ChannelId request1) start1 bs)) as [l0 Hl0].
  rewrite Hl, app_assoc in Hl0. set (ch := Auth.ce_ChannelId request1) in *.
  specialize (Hnodup start1). destruct (readable_later ch start1 0 bs number e) as
    (Hstart & (b & evs & _ & Hpos & Hb & Hevs & Hin) & earlier & Hsplit & Hearly).
  { apply Hled. } { rewrite Hl0. set_solver. }
  destruct Hq as ((h & Hh & Hhpos) & _ & Hby). destruct Hled as [Hnum Hlen].
  assert (Hbn : b_Number b = Some number) by (rewrite (Hnum _ _ Hb); f_equal; lia).
  assert (Hnamed : pe_TxId e ≠ "") by (by eapply committed_events_named).
  assert (Hst2 : subscription_start q None request2 = Ok (number, number `min` h)).
  { unfold subscription_start. rewrite Hh. unfold checkpoint_start.
    rewrite Hcp, bool_decide_eq_false_2 by done.
    rewrite (Hby b evs e) by (done || by eapply list_elem_of_lookup_2).
    cbn [mbind option_bind]. rewrite Hbn, Hch. fold ch. rewrite Hevs.
    assert (existsb (λ x, bool_decide (pe_TxId x = pe_TxId e)) evs = true) as ->; [|done].
    apply existsb_exists. exists e. split; [by apply list_elem_of_In|by apply bool_decide_eq_true_2]. }
  rewrite (ChaincodeEvents_ledger _ _ _ _ _ _ _ _ _ Hauth2 Hst2) by (done || lia).
  rewrite Hcp, Hch, Hcc. fold ch. rewrite <- Hrest. f_equal. rewrite Hsplit in Hl0, Hnodup.
  by apply (after_resumes earlier _ (l0 ++ l1) l2 number e).
Qed.

End Resume.

(** ** Witnesses: a ledger of two blocks, whose envelopes are their transaction IDs *)

Definition ex_util : ProtoUtil := {|
  efab_Parse _ _ := Err (EExt "unused");
  UnmarshalProposal b := Ok (mkProposal "h" b "");
  UnmarshalHeader b := Ok (mkHeader "ch" b);
  UnmarshalChannelHeader b := Ok (mkChannelHdr "ch" b "" HeaderType_MESSAGE);
  UnmarshalSignatureHeader b := Ok b;
  UnmarshalPayload b := Ok (Some (mkHeader b ""), b);
  UnmarshalHeaderExtension _ := Ok None;
  UnmarshalChaincodeProposalPayload b := Ok (b, ∅);
  UnmarshalChaincodeInvocationSpec _ := Ok None;
  GetProposalHash1 _ b := Ok b;
  UnmarshalTx b := Ok (mkTx [mkTxNamespace "ns" 1 [] [] []] ["moved"; Json.json_encode (JSONText := Json.example_json)
      (Helper.identity_json (Helper.mkIdentity Helper.chaincodeIdentityType 1 "ch" "cc" "ns"))]);
  MarshalTx tx := Ok "native";
  NsASN1Marshal ns tx md := Ok (NsId ns +:+ tx) |}.

Definition ex_metadata : MetadataProto := {| unmarshal_Metadata b := Ok (mkMetadata b "payload" "" []) |}.
Definition ex_envelope : EnvelopeProto := {| unmarshal_EnvelopePayload b := Ok b |}.

(** A request names its checkpoint, or none by a dash. *)
Definition ex_gateway : Auth.GatewayProto := {|
  Auth.unmarshal_CommitStatusRequest _ := Err (EExt "unused");
  Auth.unmarshal_ChaincodeEventsRequest b :=
    Ok (Auth.mkEventsRequest "ch" "cc:ns" "Org1MSP:alice" (Auth.SeekSpecified 0)
          (if bool_decide (b = "-") then "" else b)) |}.

#[local] Existing Instances ex_util ex_metadata ex_envelope ex_gateway Json.example_json.

Definition committed_code : bytes := String COMMITTED_byte "".

Definition ex_blocks : list Block :=
  [mkBlock (Some 0) ["t0"; "t1"] [""; ""; committed_code +:+ committed_code];
   mkBlock (Some 1) ["t2"; "t3"] [""; ""; String (GoStrings.byte_at 0) committed_code]].

Definition ex_delivery : delivery :=
  mkDelivery (Some (λ _, Ok "signed")) None (λ _, None) None
    (λ seek, RecvBlock <$> drop (Z.to_nat (seek_Start seek)) ex_blocks).

Definition ex_query : block_query :=
  mkBlockQuery (Ok (Some 1))
    (λ tx, if bool_decide (tx = "t0") || bool_decide (tx = "t1") then Ok (ex_blocks !! 0%nat)
           else if bool_decide (tx = "t3") then Ok (ex_blocks !! 1%nat)
           else Err (EStatus CodeNotFound (ENew "no such transaction"))).

Definition ex_request (checkpoint : string) : option Auth.SignedRequest :=
  Some (Auth.mkSigned checkpoint "alice").

Definition ex_events (checkpoint : string) : list EventsResponse :=
  (ChaincodeEvents Auth.ex_service 50 (None, None, None) (Some ex_query) (Some ex_delivery)
     (λ _, None) (ex_request checkpoint)).1.

Lemma streamCommittedBlocks_in_order_witness :
  ∃ bs rest err, visited (λ n _, (n + 1, None)) 0 bs 2 err ∧
    (bs = [] ∨ d_Recv ex_delivery (mkSeek 0 uint64_max) = (RecvBlock <$> bs) ++ rest).
Proof.
  destruct (streamCommittedBlocks_in_order (λ n _, (n + 1, None)) ex_delivery 0 0 2 None)
    as (bs & rest & err & Hv & Hm & _); [unfold is_uint64; lia|reflexivity|].
  by exists bs, rest, err.
Defined.

Lemma ChaincodeEvents_exact_witness :
  ∃ start from bs rest err, d_Recv ex_delivery (mkSeek from uint64_max) = (RecvBlock <$> bs) ++ rest ∧
    sent_events (ex_events "t0") =
      of_chaincode "cc:ns" (after "t0" (readable_events "ch" start bs)) ∧
    stopped from bs rest err None ∧ length (sent_events (ex_events "t0")) = 2%nat.
Proof.
  destruct (ChaincodeEvents_exact Auth.ex_service 50 (None, None, None) (Some ex_query)
    (Some ex_delivery) (λ _, None) (ex_request "t0") (ex_events "t0") None)
    as [(_ & _ & e & He)|(request & dl & start & from & bs & rest & err & ended &
      (_ & Hauth & Hd & _) & Hm & _ & Hs & _ & _ & _ & Hstop & Ho)].
  { vm_compute. reflexivity. } { discriminate He. }
  exists start, from, bs, rest, err. vm_compute in Hauth. injection Hauth as <-. injection Hd as <-.
  destruct ended; [discriminate Ho|]. split; [exact Hm|]. split; [exact Hs|].
  split; [exact Hstop|vm_compute; reflexivity].
Defined.

Lemma ex_serves : serves ex_delivery ex_blocks.
Proof. split_and!; try done. by eexists. Qed.

Lemma ex_ledger : ledger ex_blocks.
Proof.
  split; [|vm_compute; discriminate]. intros [|[|i]] b Hb; [by injection Hb as <-..|done].
Qed.

Lemma ex_events_0 :
  committedChaincodeEvents (mkBlock (Some 0) ["t0"; "t1"] [""; ""; committed_code +:+ committed_code])
    "ch" = Ok [mkPeerEvent "cc:ns" "t0" "moved" "payload"; mkPeerEvent "cc:ns" "t1" "moved" "payload"].
Proof. vm_compute. reflexivity. Qed.

Lemma ex_events_1 :
  committedChaincodeEvents
    (mkBlock (Some 1) ["t2"; "t3"] [""; ""; String (GoStrings.byte_at 0) committed_code])
    "ch" = Ok [mkPeerEvent "cc:ns" "t3" "moved" "payload"].
Proof. vm_compute. reflexivity. Qed.

Lemma ex_queries : queries ex_query "ch" ex_blocks.
Proof.
  split_and!.
  - exists 1. split; [done|lia].
  - intros tx b. cbn. repeat case_bool_decide; cbn; try done; intros [= <-]; set_solver.
  - intros b evs e Hb Hevs He. apply elem_of_cons in Hb as [->|Hb]; [|apply list_elem_of_singleton in Hb as ->].
    + rewrite ex_events_0 in Hevs. injection Hevs as <-.
      apply elem_of_cons in He as [->|He]; [|apply list_elem_of_singleton in He as ->]; done.
    + rewrite ex_events_1 in Hevs. injection Hevs as <-. by apply list_elem_of_singleton in He as ->.
Qed.

Lemma subscription_resumes_witness :
  sent_events (ex_events "-") =
    [(0, mkPeerEvent "cc:ns" "t0" "moved" "payload")] ++
    (0, mkPeerEvent "cc:ns" "t1" "moved" "payload") ::
    [(1, mkPeerEvent "cc:ns" "t3" "moved" "payload")] ∧
  sent_events (ex_events "t1") = [(1, mkPeerEvent "cc:ns" "t3" "moved" "payload")].
Proof.
  assert (Hall : sent_events (ex_events "-") =
    [(0, mkPeerEvent "cc:ns" "t0" "moved" "payload")] ++
    (0, mkPeerEvent "cc:ns" "t1" "moved" "payload") ::
    [(1, mkPeerEvent "cc:ns" "t3" "moved" "payload")]) by (vm_compute; reflexivity).
  split; [exact Hall|].
  eapply (subscription_resumes Auth.ex_service 50 50 ex_query ex_delivery (ex_request "-")
    (ex_request "t1")); [reflexivity|reflexivity|reflexivity|reflexivity|cbn; lia|exact ex_ledger|
    exact ex_serves|exact ex_queries| |exact Hall|reflexivity].
  intros start. cbn [Auth.ce_ChannelId]. unfold ex_blocks. cbn [readable_events b_Number default from_option id].
  rewrite ex_events_0, ex_events_1.
  destruct (0 <? start); destruct (1 <? start); apply (bool_decide_unpack _); vm_compute; exact I.
Defined.

End Events.
