(* ===== verification/Packager.v ===== *)
(** Transaction packaging, [pkg/orchestrator/fabricx_packager.go]: the native transaction of an
    endorsement, the Fabric envelope a Gateway client signs, and the parser of such envelopes.

    The protobuf messages are records; their encodings and [protoutil]'s helpers are the class
    [PackagerLib], whose laws [PackagerLaws] say that decoding inverts encoding and what the
    public part of a proposal is.  A decoded repeated field holds no nil message. *)
From Stdlib Require Import ZArith Lia.
From stdpp Require Import base option list strings gmap sets.
From S2P Require Import Prelude LifecycleStore OrchestratorTypes GoStrings Json Proto.
From S2P Require Import ExecContext Shim Helper Msp EndorsementPolicy Instances EndorsementSearch.
From S2P Require Import Collect Requests Auth Events Framing.
Import Types Proto.
Local Open Scope Z_scope.

Module Packager.

(** ** Messages *)

Definition HeaderType_ENDORSER_TRANSACTION : Z := 3.

(** [common.ChannelHeader]. *)
Record ChannelMsg := mkChannelMsg {
  cm_Type : Z;
  cm_Version : Z;
  cm_Timestamp : option (Z * Z);
  cm_ChannelId : string;
  cm_TxId : string;
  cm_Epoch : Z;
  cm_Extension : bytes;
  cm_TlsCertHash : bytes }.

(** [common.SignatureHeader]. *)
Record SignatureMsg := mkSignatureMsg { sm_Creator : bytes; sm_Nonce : bytes }.

(** [peer.ChaincodeID]. *)
Record ChaincodeID := mkChaincodeID { cid_Path : string; cid_Name : string; cid_Version : string }.

#[export] Instance ChaincodeID_eq_dec : EqDecision ChaincodeID.
Proof. solve_decision. Defined.

(** [peer.ChaincodeSpec] of an invocation. *)
Record InvokedSpec := mkInvokedSpec {
  is_ChaincodeId : option ChaincodeID;
  is_Input : option ChaincodeInput }.

(** [helper.GatewayProposalBinding]. *)
Record GatewayProposalBinding := mkGatewayBinding {
  gb_Format : Z;
  gb_ProposalHash : bytes;
  gb_ChaincodeVersion : string;
  gb_Sequence : Z;
  gb_Status : Z;
  gb_Message : string }.

Definition as_bytes (v : Json.jscalar) : option bytes :=
  match v with
  | Json.JString s => match Json.base64_decode s with Ok b => Some b | Err _ => None end
  | _ => None
  end.

Definition as_int32 : Json.jscalar → option Z := Json.as_int (- 2 ^ 31) (2 ^ 31).

Definition binding_of_json (o : Json.jobject) : result GatewayProposalBinding :=
  f ← Json.json_field Json.as_int64 "format" o 0;
  h ← Json.json_field as_bytes "proposal_hash" o "";
  v ← Json.json_field Json.as_string "chaincode_version" o "";
  n ← Json.json_field Json.as_int64 "sequence" o 0;
  s ← Json.json_field as_int32 "status" o 0;
  m ← Json.json_field Json.as_string "message" o "";
  Ok (mkGatewayBinding f h v n s m).

Section Messages.
Context {L : Msp.MSPLib}.

(** [applicationpb.EndorsementWithIdentity]. *)
Record EndorsementWithIdentity := mkWithIdentity {
  ei_Endorsement : bytes;
  ei_Identity : option Msp.serialized }.

(** [applicationpb.Tx] with its endorsements, one list for each namespace. *)
Record NativeTx := mkNative {
  nt_Tx : Tx;
  nt_Endorsements : list (list EndorsementWithIdentity) }.

Class PackagerLib := {
  marshal_Identity : Msp.serialized → result bytes;
  unmarshal_Native : bytes → result NativeTx;
  marshal_Native : NativeTx → result bytes;
  unmarshal_ChannelMsg : bytes → result ChannelMsg;
  marshal_ChannelMsg : ChannelMsg → result bytes;
  unmarshal_SignatureMsg : bytes → result SignatureMsg;
  marshal_SignatureMsg : SignatureMsg → result bytes;
  (** [MarshalOrPanic] of a header, whose fields are byte slices. *)
  marshal_Header : CommonHeader → bytes;
  marshal_Payload : CommonHeader → bytes → result bytes;
  ComputeTxID : bytes → bytes → string;
  unmarshal_InvokedSpec : bytes → result (option InvokedSpec);
  unmarshal_ExtensionID : bytes → result (option ChaincodeID);
  GetBytesProposalPayloadForTx : bytes * gmap string bytes → result bytes;
  GetProposalHash2 : CommonHeader → bytes → result bytes;
  marshal_ChaincodeEvent : Events.PeerEvent → result bytes;
  (** The proposal hash, the response, the results, the event and the chaincode. *)
  GetBytesProposalResponsePayload : bytes → Response → bytes → bytes → ChaincodeID → result bytes;
  (** The extension of a proposal response payload. *)
  unmarshal_ProposalResponsePayload : bytes → result bytes;
  (** The response and the results of a chaincode action. *)
  unmarshal_ChaincodeAction : bytes → result (option Response * bytes);
  (** The proposal payload, the proposal response payload and its endorsements. *)
  marshal_ActionPayload : bytes → bytes → list Endorsement → result bytes;
  unmarshal_ActionPayload : bytes → result (bytes * option bytes);
  (** A transaction's actions: header and payload. *)
  marshal_Transaction : list (bytes * bytes) → result bytes;
  unmarshal_Transaction : bytes → result (list (bytes * bytes)) }.

End Messages.

Section Packager.
Context {L : Msp.MSPLib} {J : Json.JSONText} {PU : ProtoUtil} {MP : MetadataProto} {PL : PackagerLib}.

(** ** The native transaction *)

(** The first loop: every response succeeded with the same payload. *)
Fixpoint same_payload (payload : option bytes) (resps : list (option ProposalResponse))
    : result bytes :=
  match resps with
  | [] => Ok (default "" payload)
  | resp :: rest =>
      match resp ≫= λ r, option_map (pair r) (pr_Response r) with
      | None => Err (ENew "proposal response is missing its chaincode response")
      | Some (r, response) =>
          if negb (status_ok (Status response))
          then Err (ENew "proposal response was not successful, error code %d, msg %s")
          else
            match payload with
            | None => same_payload (Some (pr_Payload r)) rest
            | Some p =>
                if negb (bool_decide (p = pr_Payload r))
                then Err (ENew "proposal response payloads do not match (base64): %q vs %q")
                else same_payload payload rest
            end
      end
  end.

(** The second loop: one endorsement for each endorser, in order. *)
Fixpoint distinct_endorsements (seen : gset bytes) (resps : list (option ProposalResponse))
    : result (list EndorsementWithIdentity) :=
  match resps with
  | [] => Ok []
  | resp :: rest =>
      match resp ≫= pr_Endorsement with
      | None => distinct_endorsements seen rest
      | Some e =>
          if bool_decide (Endorser e ∈ seen) then distinct_endorsements seen rest
          else
            match Msp.unmarshal_Identity (Endorser e) with
            | Err err => Err (EWrap "failed to unmarshal endorser identity: %w" err)
            | Ok identity =>
                l ← distinct_endorsements ({[Endorser e]} ∪ seen) rest;
                Ok (mkWithIdentity (Signature e) (Some identity) :: l)
            end
      end
  end.

Definition set_type (t : Z) (c : ChannelMsg) : ChannelMsg :=
  mkChannelMsg t (cm_Version c) (cm_Timestamp c) (cm_ChannelId c) (cm_TxId c) (cm_Epoch c)
    (cm_Extension c) (cm_TlsCertHash c).

(** The payload of the unsigned envelope. *)
Definition createCompatFabricXTx (proposal : option Proposal)
    (resps : list (option ProposalResponse)) : result bytes :=
  match proposal with
  | None => Err (ENew "an endorsed proposal is required")
  | Some proposal =>
      guard_err (bool_decide (resps = [])) (ENew "at least one proposal response is required");;
      hdr ← UnmarshalHeader (Header proposal);
      shdr ← unmarshal_SignatureMsg (SignatureHeader hdr);
      payload ← same_payload None resps;
      endorsements ← distinct_endorsements ∅ resps;
      guard_err (bool_decide (length endorsements = 0%nat)) (ENew "no endorsements");;
      tx ← Msp.wrap_err "expected applicationpb.Tx endorsement payload: %w" (unmarshal_Native payload);
      let tx := mkNative (nt_Tx tx) (replicate (length (Namespaces (nt_Tx tx))) endorsements) in
      txBytes ← Msp.wrap_err "marshal transaction payload: %w" (marshal_Native tx);
      chdr ← unmarshal_ChannelMsg (ChannelHeader hdr);
      chdrBytes ← Msp.wrap_err "marshal channel header: %w"
        (marshal_ChannelMsg (set_type Events.HeaderType_MESSAGE chdr));
      shdrBytes ← Msp.wrap_err "marshal signature header: %w"
        (marshal_SignatureMsg (mkSignatureMsg "" (sm_Nonce shdr)));
      marshal_Payload (mkHeader chdrBytes shdrBytes) txBytes
  end.

(** [compatFabricXTxPackager.PackageTx]. *)
Definition PackageTx (end_ : SdkEndorsement) : result Auth.Envelope :=
  payload ← createCompatFabricXTx (end_Proposal end_) (end_Responses end_);
  Ok (Auth.mkEnvelope payload "").

(** ** The Gateway transaction *)

(** [spec.GetChaincodeSpec().GetChaincodeId().GetName()] and [.GetInput().GetArgs()]. *)
Definition spec_name (spec : option InvokedSpec) : string :=
  match spec ≫= is_ChaincodeId with Some id => cid_Name id | None => "" end.

Definition spec_args (spec : option InvokedSpec) : list bytes :=
  match spec ≫= is_Input with Some input => in_Args input | None => [] end.

(** The client's header names the transaction its creator and nonce determine. *)
Definition client_header (channel : ChannelMsg) (signature : SignatureMsg) : bool :=
  (cm_Type channel =? HeaderType_ENDORSER_TRANSACTION) &&
  negb (bool_decide (sm_Creator signature = "")) && negb (bool_decide (sm_Nonce signature = "")) &&
  bool_decide (cm_TxId channel = ComputeTxID (sm_Nonce signature) (sm_Creator signature)).

(** [json.Unmarshal] of a binding. *)
Definition unmarshal_binding (data : bytes) : result GatewayProposalBinding :=
  o ← Json.json_object data; binding_of_json o.

(** The endorsed transaction, once its metadata binds the proposal. *)
Definition check_binding (proposal : Proposal) (version : string) (response : Response)
    (channel chaincode namespace : string) (spec : option InvokedSpec) (native : Tx)
    : result SdkMetadata :=
  match Metadata native with
  | sdk :: record :: _ =>
      binding ← match unmarshal_binding record with
        | Ok b => if gb_Format b =? 1 then Ok b
                  else Err (ENew "native transaction requires a version-one Gateway proposal binding")
        | Err _ => Err (ENew "native transaction requires a version-one Gateway proposal binding")
        end;
      guard_err (negb (bool_decide (Helper.MarshalGatewayProposalBinding (Some proposal) version
                                      (gb_Sequence binding) (Some response) = Ok record)))
        (ENew "native endorsement does not bind this proposal, response and lifecycle revision");;
      identity ← Helper.ChaincodeIdentityFromMetadata (Metadata native);
      guard_err
        (match identity with
         | None => false
         | Some id =>
             negb (bool_decide (Helper.ci_ChannelID id = channel)) ||
             negb (bool_decide (Helper.ci_ChaincodeName id +:+ ":" +:+ Helper.ci_Namespace id = chaincode)) ||
             negb (bool_decide (Helper.ci_Namespace id = namespace))
         end)
        (ENew "native chaincode identity differs from the prepared proposal");;
      metadata ← Msp.wrap_err "decode endorsed transaction metadata: %w" (unmarshal_Metadata sdk);
      guard_err (negb (bool_decide (md_Payload metadata = Payload response)) ||
                 negb (bool_decide (md_InputArgs metadata = spec_args spec)))
        (ENew "endorsed arguments or response differ from the prepared transaction");;
      Ok metadata
  | _ => Err (ENew "endorsed native transaction does not match the client namespace")
  end.

Definition chaincode_event (chaincode txID : string) (metadata : SdkMetadata) : result bytes :=
  if bool_decide (md_EventName metadata = "") && bool_decide (md_Event metadata = "") then Ok ""
  else marshal_ChaincodeEvent
         (Events.mkPeerEvent chaincode txID (md_EventName metadata) (md_Event metadata)).

Fixpoint response_endorsements (resps : list (option ProposalResponse)) : result (list Endorsement) :=
  match resps with
  | [] => Ok []
  | resp :: rest =>
      match resp ≫= pr_Endorsement with
      | None => Err (ENew "prepared transaction is missing a native endorsement")
      | Some e => l ← response_endorsements rest; Ok (e :: l)
      end
  end.

(** The native transaction of the endorsement: its bytes and what they decode to. *)
Definition native_transaction (channel namespace : string) (end_ : SdkEndorsement)
    : result (bytes * NativeTx) :=
  nativeEnvelope ← createCompatFabricXTx (end_Proposal end_) (end_Responses end_);
  nativePayload ← UnmarshalPayload nativeEnvelope;
  match nativePayload with
  | (None, _) => Err (ENew "panic: the payload was made with a header")
  | (Some header, data) =>
      guard_err (negb (bool_decide (option_map cm_ChannelId
                   (match unmarshal_ChannelMsg (ChannelHeader header) with
                    | Ok c => Some c | Err _ => None end) = Some channel)))
        (ENew "endorsed channel does not match the client proposal");;
      native ← unmarshal_Native data;
      guard_err (negb (bool_decide (NsId <$> Namespaces (nt_Tx native) = [namespace])) ||
                 (length (Metadata (nt_Tx native)) <? 2)%nat)
        (ENew "endorsed native transaction does not match the client namespace");;
      Ok (data, native)
  end.

Definition createGatewayTransaction (proposal : option Proposal) (version : string)
    (end_ : SdkEndorsement) : result bytes :=
  match proposal with
  | None => Err (ENew "the original client proposal is required")
  | Some proposal =>
      header ← UnmarshalHeader (Header proposal);
      channel ← unmarshal_ChannelMsg (ChannelHeader header);
      signature ← unmarshal_SignatureMsg (SignatureHeader header);
      guard_err (negb (client_header channel signature)) (ENew "invalid client transaction header");;
      guard_err (negb (bool_decide (Requests.txIDFromEndorsement end_ = Ok (cm_TxId channel))))
        (ENew "endorsed transaction ID does not match the client proposal");;
      cpp ← UnmarshalChaincodeProposalPayload (pp_Payload proposal);
      spec ← unmarshal_InvokedSpec cpp.1;
      let chaincode := spec_name spec in
      route ← Requests.gatewayChaincodeRoute chaincode;
      '(data, native) ← native_transaction (cm_ChannelId channel) route.2 end_;
      match head (end_Responses end_) ≫= λ r, r ≫= pr_Response with
      | None => Err (ENew "panic: every response was checked")
      | Some response =>
          metadata ← check_binding proposal version response (cm_ChannelId channel) chaincode route.2
            spec (nt_Tx native);
          publicProposal ← GetBytesProposalPayloadForTx cpp;
          proposalHash ← GetProposalHash2 header publicProposal;
          event ← chaincode_event chaincode (cm_TxId channel) metadata;
          responsePayload ← GetBytesProposalResponsePayload proposalHash response data event
            (mkChaincodeID "" chaincode version);
          endorsements ← response_endorsements (end_Responses end_);
          action ← marshal_ActionPayload publicProposal responsePayload endorsements;
          transaction ← marshal_Transaction [(SignatureHeader header, action)];
          marshal_Payload header transaction
      end
  end.

(** ** Parsing a prepared transaction *)

Record gatewayPreparedInvocation := mkPrepared {
  gp_Request : InvocationRequest;
  gp_Endorsement : SdkEndorsement;
  gp_Binding : GatewayProposalBinding;
  gp_Native : NativeTx }.

(** One response for each native endorsement. *)
Fixpoint native_responses (response : Response) (results : bytes) (l : list EndorsementWithIdentity)
    : result (list (option ProposalResponse)) :=
  match l with
  | [] => Ok []
  | e :: rest =>
      match ei_Identity e with
      | None => Err (ENew "native transaction is missing an endorsement identity or signature")
      | Some id =>
          guard_err (bool_decide (ei_Endorsement e = ""))
            (ENew "native transaction is missing an endorsement identity or signature");;
          identity ← marshal_Identity id;
          resps ← native_responses response results rest;
          Ok (Some (mkProposalResponse (Some response) results
                      (Some (mkEndorsement identity (ei_Endorsement e)))) :: resps)
      end
  end.

(** The only action of a transaction. *)
Definition single_action (data : bytes) : result (bytes * bytes) :=
  match unmarshal_Transaction data with
  | Ok [action] => Ok action
  | _ => Err (ENew "prepared transaction must contain exactly one action")
  end.

(** The proposal payload of an action, and its proposal response payload. *)
Definition action_payload (data : bytes) : result (bytes * bytes) :=
  match unmarshal_ActionPayload data with
  | Ok (proposal, Some response) => Ok (proposal, response)
  | _ => Err (ENew "invalid prepared chaincode action")
  end.

(** The input of a proposal without transient data. *)
Definition public_input (payload : bytes) : result bytes :=
  match UnmarshalChaincodeProposalPayload payload with
  | Ok (input, transient) =>
      if bool_decide (transient = ∅) then Ok input
      else Err (ENew "prepared proposal must exclude transient data")
  | Err _ => Err (ENew "prepared proposal must exclude transient data")
  end.

Definition prepared_spec (input : bytes) : result (ChaincodeID * ChaincodeInput) :=
  match unmarshal_InvokedSpec input with
  | Ok (Some spec) =>
      match is_ChaincodeId spec, is_Input spec with
      | Some id, Some i => Ok (id, i)
      | _, _ => Err (ENew "invalid prepared proposal input")
      end
  | _ => Err (ENew "invalid prepared proposal input")
  end.

(** The response and the results of a proposal response payload. *)
Definition prepared_execution (data : bytes) : result (Response * bytes) :=
  extension ← unmarshal_ProposalResponsePayload data;
  match unmarshal_ChaincodeAction extension with
  | Ok (Some response, results) => Ok (response, results)
  | _ => Err (ENew "prepared transaction is missing its chaincode response")
  end.

(** The native transaction, its endorsements and its binding record. *)
Definition prepared_native (results : bytes)
    : result (NativeTx * list EndorsementWithIdentity * bytes) :=
  match unmarshal_Native results with
  | Err _ => Err (ENew "invalid native transaction in prepared envelope")
  | Ok native =>
      match Namespaces (nt_Tx native), nt_Endorsements native, Metadata (nt_Tx native) with
      | [_], [endorsements], _ :: record :: _ => Ok (native, endorsements, record)
      | _, _, _ => Err (ENew "invalid native transaction in prepared envelope")
      end
  end.

Definition prepared_binding (record : bytes) : result GatewayProposalBinding :=
  match unmarshal_binding record with
  | Ok b =>
      if gb_Format b =? 1 then Ok b
      else Err (ENew "missing version-one native proposal binding; obtain a fresh endorsement")
  | Err _ => Err (ENew "missing version-one native proposal binding; obtain a fresh endorsement")
  end.

Definition with_version (version : string) (r : InvocationRequest) : InvocationRequest :=
  mkRequest (definition r) (ClientTxID r) (ClientCreator r) (ClientNonce r)
    (ClientSignedProposal r) (ClientTransient r) (EndorsingOrganizations r) (IdempotencyKey r)
    (RequestDigest r) (Namespace r) (ChaincodeName r) version (IsInit r) (Function r) (Args r).

(** The request of a prepared transaction. *)
Definition prepared_request (channel : ChannelMsg) (signature : SignatureMsg) (name version : string)
    (args : list bytes) (proposal : Proposal) : result InvocationRequest :=
  req ← Requests.requestFromProposal
    (mkInv "" "" name args "" "" "" 0 (Some proposal));
  route ← Requests.gatewayChaincodeRoute (ChaincodeName req);
  Ok (with_version version
        (Requests.with_client (cm_TxId channel) (sm_Creator signature) (sm_Nonce signature) None
           (Requests.with_route route.1 route.2 req))).

Definition parseGatewayTransaction (envelope : option Auth.Envelope)
    : result gatewayPreparedInvocation :=
  match envelope with
  | None => Err (ENew "a prepared transaction is required")
  | Some envelope =>
      guard_err (bool_decide (Auth.env_Payload envelope = "")) (ENew "a prepared transaction is required");;
      match UnmarshalPayload (Auth.env_Payload envelope) with
      | Ok (Some header, data) =>
          channel ← unmarshal_ChannelMsg (ChannelHeader header);
          signature ← unmarshal_SignatureMsg (SignatureHeader header);
          guard_err (negb (client_header channel signature))
            (ENew "invalid prepared client transaction header");;
          action ← single_action data;
          guard_err (negb (bool_decide (action.1 = SignatureHeader header)))
            (ENew "action and envelope signature headers differ");;
          '(proposalPayload, responsePayload) ← action_payload action.2;
          input ← public_input proposalPayload;
          '(id, chaincodeInput) ← prepared_spec input;
          guard_err (negb (bool_decide (unmarshal_ExtensionID (cm_Extension channel) = Ok (Some id))))
            (ENew "prepared header and proposal chaincode identifiers differ");;
          '(response, results) ← prepared_execution responsePayload;
          '(native, endorsements, record) ← prepared_native results;
          binding ← prepared_binding record;
          let proposal := mkProposal (marshal_Header header) proposalPayload "" in
          responses ← native_responses response results endorsements;
          let end_ := mkSdkEndorsement (Some proposal) responses in
          expected ← createGatewayTransaction (Some proposal) (gb_ChaincodeVersion binding) end_;
          guard_err (negb (bool_decide (expected = Auth.env_Payload envelope)))
            (ENew "prepared transaction differs from its endorsed public projection");;
          req ← prepared_request channel signature (cid_Name id) (gb_ChaincodeVersion binding)
            (in_Args chaincodeInput) proposal;
          Ok (mkPrepared req end_ binding native)
      | _ => Err (ENew "invalid prepared transaction payload")
      end
  end.

(** ** Laws of the libraries *)

(** The parts of the full messages that other components read. *)
Definition hdr_of (c : ChannelMsg) : ChannelHdr :=
  mkChannelHdr (cm_ChannelId c) (cm_TxId c) (cm_Extension c) (cm_Type c).

Definition spec_of (s : InvokedSpec) : ChaincodeSpec :=
  mkSpec (match is_ChaincodeId s with Some id => cid_Name id | None => "" end) (is_Input s).

(** Decoding inverts encoding; messages of byte fields always encode; and the public part of a
    proposal is a proposal without transient data, whose hash is the proposal's. *)
Class PackagerLaws : Prop := {
  native_roundtrip n b : marshal_Native n = Ok b → unmarshal_Native b = Ok n;
  identity_roundtrip id b : marshal_Identity id = Ok b → Msp.unmarshal_Identity b = Ok id;
  channel_roundtrip c b : marshal_ChannelMsg c = Ok b → unmarshal_ChannelMsg b = Ok c;
  channel_retyped c b t : unmarshal_ChannelMsg b = Ok c → is_ok (marshal_ChannelMsg (set_type t c)) = true;
  channel_hdr b : UnmarshalChannelHeader b = (c ← unmarshal_ChannelMsg b; Ok (hdr_of c));
  signature_total m : is_ok (marshal_SignatureMsg m) = true;
  header_roundtrip h : UnmarshalHeader (marshal_Header h) = Ok h;
  payload_total h d : is_ok (marshal_Payload h d) = true;
  payload_roundtrip h d b : marshal_Payload h d = Ok b → UnmarshalPayload b = Ok (Some h, d) ∧ b ≠ "";
  spec_agrees b :
    UnmarshalChaincodeInvocationSpec b = (s ← unmarshal_InvokedSpec b; Ok (option_map spec_of s));
  public_payload cpp b : GetBytesProposalPayloadForTx cpp = Ok b →
    UnmarshalChaincodeProposalPayload b = Ok (cpp.1, ∅) ∧
    GetBytesProposalPayloadForTx (cpp.1, ∅) = Ok b;
  public_hash h p cpp b : UnmarshalChaincodeProposalPayload p = Ok cpp →
    GetBytesProposalPayloadForTx cpp = Ok b → GetProposalHash1 h p = GetProposalHash2 h b;
  response_roundtrip h r res ev id b : GetBytesProposalResponsePayload h r res ev id = Ok b →
    ∃ ext, unmarshal_ProposalResponsePayload b = Ok ext ∧
           unmarshal_ChaincodeAction ext = Ok (Some r, res);
  action_roundtrip pp rp es b : marshal_ActionPayload pp rp es = Ok b →
    unmarshal_ActionPayload b = Ok (pp, Some rp);
  transaction_roundtrip l b : marshal_Transaction l = Ok b → unmarshal_Transaction b = Ok l }.

(** ** The native transaction *)

(** A successful response with the given payload. *)
Definition successful (payload : bytes) (resp : option ProposalResponse) : Prop :=
  ∃ r response, resp = Some r ∧ pr_Response r = Some response ∧
    status_ok (Status response) = true ∧ pr_Payload r = payload.

Lemma same_payload_some p resps b :
  same_payload (Some p) resps = Ok b ↔ b = p ∧ Forall (successful p) resps.
Proof.
  induction resps as [|resp resps IH]; cbn [same_payload default].
  { split; [intros [= <-]|intros [-> _]]; [by split|done]. }
  rewrite Forall_cons. destruct resp as [r|]; cbn [mbind option_bind].
  2:{ split; [done|]. intros (_ & (? & ? & ? & _) & _). done. }
  destruct (pr_Response r) as [response|] eqn:Hr; cbn [option_map].
  2:{ split; [done|]. intros (_ & (? & ? & [= <-] & ? & _) & _). congruence. }
  destruct (status_ok (Status response)) eqn:Hs; cbn [negb].
  2:{ split; [done|]. intros (_ & (? & ? & [= <-] & ? & ? & _) & _). congruence. }
  case_bool_decide as Hp; cbn [negb].
  - rewrite IH. split; [intros [-> Hf]; split_and!; [done| |done]; by exists r, response|].
    by intros (-> & _ & Hf).
  - split; [done|]. intros (_ & (? & ? & [= <-] & _ & _ & Hpp) & _). congruence.
Qed.

Lemma same_payload_ok resps b :
  resps ≠ [] → same_payload None resps = Ok b ↔ Forall (successful b) resps.
Proof.
  destruct resps as [|resp resps]; [done|]. intros _. cbn [same_payload]. rewrite Forall_cons.
  destruct resp as [r|]; cbn [mbind option_bind].
  2:{ split; [done|]. intros ((? & ? & ? & _) & _). done. }
  destruct (pr_Response r) as [response|] eqn:Hr; cbn [option_map].
  2:{ split; [done|]. intros ((? & ? & [= <-] & ? & _) & _). congruence. }
  destruct (status_ok (Status response)) eqn:Hs; cbn [negb].
  2:{ split; [done|]. intros ((? & ? & [= <-] & ? & ? & _) & _). congruence. }
  rewrite same_payload_some. split.
  - intros [-> Hf]. split; [by exists r, response|done].
  - intros [(? & ? & [= <-] & _ & _ & Hp) Hf]. by subst b.
Qed.

(** The endorsements of the responses, those of an endorser after its first dropped. *)
Fixpoint first_of_endorser (seen : gset bytes) (es : list Endorsement) : list Endorsement :=
  match es with
  | [] => []
  | e :: rest =>
      if bool_decide (Endorser e ∈ seen) then first_of_endorser seen rest
      else e :: first_of_endorser ({[Endorser e]} ∪ seen) rest
  end.

Definition endorsements_of (resps : list (option ProposalResponse)) : list Endorsement :=
  omap (λ r, r ≫= pr_Endorsement) resps.

Definition decoded_from (e : Endorsement) (x : EndorsementWithIdentity) : Prop :=
  ei_Endorsement x = Signature e ∧ ∃ id, ei_Identity x = Some id ∧ Msp.unmarshal_Identity (Endorser e) = Ok id.

Lemma distinct_endorsements_ok seen resps l :
  distinct_endorsements seen resps = Ok l ↔
  Forall2 decoded_from (first_of_endorser seen (endorsements_of resps)) l.
Proof.
  revert seen l. induction resps as [|resp resps IH]; intros seen l; cbn [distinct_endorsements].
  { cbn. split; [intros [= <-]; constructor|intros H; by inversion H]. }
  unfold endorsements_of. cbn [omap list_omap]. destruct (resp ≫= pr_Endorsement) as [e|]; [|apply IH].
  cbn [first_of_endorser]. case_bool_decide; [apply IH|].
  destruct (Msp.unmarshal_Identity (Endorser e)) as [id|err] eqn:Hid.
  - rewrite bind_ok. split.
    + intros (l' & Hl' & [= <-]). constructor; [|by apply IH]. split; [done|]. by exists id.
    + intros H'. inversion H' as [|? x ? l' (Hs & id' & Hx & Hid') Hf]; subst.
      exists l'. split; [by apply IH|]. rewrite Hid in Hid'. injection Hid' as <-.
      destruct x; cbn in *. by subst.
  - split; [done|]. intros H'. inversion H' as [|? x ? l' (Hs & id' & Hx & Hid') Hf]. congruence.
Qed.

Lemma first_of_endorser_distinct seen es :
  NoDup (Endorser <$> first_of_endorser seen es) ∧
  ∀ x, x ∈ Endorser <$> first_of_endorser seen es ↔ x ∈ Endorser <$> es ∧ x ∉ seen.
Proof.
  revert seen. induction es as [|e es IH]; intros seen; cbn [first_of_endorser].
  { split; [constructor|]. set_solver. }
  case_bool_decide as Hin.
  - destruct (IH seen) as [H1 H2]. split; [done|]. intros x. rewrite H2. cbn. set_solver.
  - destruct (IH ({[Endorser e]} ∪ seen)) as [H1 H2]. cbn [fmap list_fmap]. split.
    + constructor; [|done]. rewrite H2. set_solver.
    + intros x. rewrite !elem_of_cons, H2. destruct (decide (x = Endorser e)); set_solver.
Qed.

Lemma first_of_endorser_id seen es :
  NoDup (Endorser <$> es) → (∀ x, x ∈ Endorser <$> es → x ∉ seen) → first_of_endorser seen es = es.
Proof.
  revert seen. induction es as [|e es IH]; intros seen Hnd Hs; [done|]. cbn [first_of_endorser].
  cbn [fmap list_fmap] in Hnd, Hs. apply NoDup_cons in Hnd as [He Hnd].
  rewrite bool_decide_eq_false_2 by (apply Hs; left). f_equal. apply IH; [done|].
  intros x Hx. apply not_elem_of_union. split; [|apply Hs; by right].
  intros ->%elem_of_singleton. done.
Qed.

(** What a native transaction is made of. *)
Record native_made (p : Proposal) (resps : list (option ProposalResponse)) (out : bytes)
    (c : ChannelMsg) (nonce : bytes) (payload : bytes) (n : NativeTx)
    (es : list EndorsementWithIdentity) (cb sb b : bytes) : Prop := mkMade {
  nm_some : resps ≠ [] ∧ es ≠ [];
  nm_headers : ∃ hdr creator, UnmarshalHeader (Header p) = Ok hdr ∧
    unmarshal_SignatureMsg (SignatureHeader hdr) = Ok (mkSignatureMsg creator nonce) ∧
    unmarshal_ChannelMsg (ChannelHeader hdr) = Ok c;
  nm_responses : Forall (successful payload) resps;
  nm_endorsements : Forall2 decoded_from (first_of_endorser ∅ (endorsements_of resps)) es;
  nm_tx : unmarshal_Native payload = Ok n ∧
    marshal_Native (mkNative (nt_Tx n) (replicate (length (Namespaces (nt_Tx n))) es)) = Ok b;
  nm_envelope : marshal_ChannelMsg (set_type Events.HeaderType_MESSAGE c) = Ok cb ∧
    marshal_SignatureMsg (mkSignatureMsg "" nonce) = Ok sb ∧
    marshal_Payload (mkHeader cb sb) b = Ok out }.

Lemma createCompatFabricXTx_ok p resps out :
  createCompatFabricXTx (Some p) resps = Ok out ↔
  ∃ c nonce payload n es cb sb b, native_made p resps out c nonce payload n es cb sb b.
Proof.
  unfold createCompatFabricXTx. split.
  - intros H. apply bind_ok in H as ([] & Hr & H). apply guard_err_ok in Hr. bool_props.
    apply bind_ok in H as (hdr & Hhdr & H). apply bind_ok in H as ([creator nonce] & Hs & H).
    apply bind_ok in H as (payload & Hp & H). apply same_payload_ok in Hp; [|done].
    apply bind_ok in H as (es & He & H). apply distinct_endorsements_ok in He.
    apply bind_ok in H as ([] & Hne & H). apply guard_err_ok in Hne. bool_props.
    apply bind_ok in H as (n & Hn & H). apply Msp.wrap_err_ok in Hn.
    apply bind_ok in H as (b & Hb & H). apply Msp.wrap_err_ok in Hb.
    apply bind_ok in H as (c & Hc & H). apply bind_ok in H as (cb & Hcb & H).
    apply Msp.wrap_err_ok in Hcb. apply bind_ok in H as (sb & Hsb & H). apply Msp.wrap_err_ok in Hsb.
    exists c, nonce, payload, n, es, cb, sb, b. split; try done.
    + split; [done|]. by intros ->.
    + by exists hdr, creator.
  - intros (c & nonce & payload & n & es & cb & sb & b & [[Hr He] (hdr & creator & Hh & Hs & Hc) Hp Hes
      [Hn Hb] (Hcb & Hsb & Hout)]).
    rewrite bool_decide_eq_false_2 by done. cbn [guard_err mbind result_mbind].
    apply (same_payload_ok resps payload Hr) in Hp. apply distinct_endorsements_ok in Hes.
    run_ok. rewrite bool_decide_eq_false_2 by (by destruct es).
    cbn [guard_err mbind result_mbind sm_Nonce].
    apply (Msp.wrap_err_ok "expected applicationpb.Tx endorsement payload: %w") in Hn.
    apply (Msp.wrap_err_ok "marshal transaction payload: %w") in Hb.
    apply (Msp.wrap_err_ok "marshal channel header: %w") in Hcb.
    apply (Msp.wrap_err_ok "marshal signature header: %w") in Hsb. by run_ok.
Qed.

Context {LW : PackagerLaws}.

Lemma native_transaction_ok channel ns end_ data native :
  native_transaction channel ns end_ = Ok (data, native) ↔
  ∃ p c out nonce payload n es cb sb, end_Proposal end_ = Some p ∧
    native_made p (end_Responses end_) out c nonce payload n es cb sb data ∧
    cm_ChannelId c = channel ∧ native = mkNative (nt_Tx n) [es] ∧
    NsId <$> Namespaces (nt_Tx n) = [ns] ∧ (2 <= length (Metadata (nt_Tx n)))%nat.
Proof.
  unfold native_transaction. split.
  - intros H. apply bind_ok in H as (out & Hout & H).
    destruct (end_Proposal end_) as [p|]; [|done].
    apply createCompatFabricXTx_ok in Hout as (c & nonce & payload & n & es & cb & sb & b & Hmade).
    pose proof (nm_envelope _ _ _ _ _ _ _ _ _ _ _ Hmade) as (Hcb & Hsb & Hout).
    pose proof (nm_tx _ _ _ _ _ _ _ _ _ _ _ Hmade) as [Hn Hb].
    apply payload_roundtrip in Hout as [Hout _]. rewrite Hout in H. cbn [mbind result_mbind] in H.
    apply bind_ok in H as ([] & Hch & H). apply guard_err_ok in Hch. bool_props.
    cbn [ChannelHeader] in Hch. rewrite (channel_roundtrip _ _ Hcb) in Hch. cbn in Hch.
    injection Hch as Hch. rewrite (native_roundtrip _ _ Hb) in H. cbn [mbind result_mbind nt_Tx] in H.
    apply bind_ok in H as ([] & Hg & [= <- <-]). apply guard_err_ok in Hg. bool_props.
    exists p, c, out, nonce, payload, n, es, cb, sb. split_and!; try done.
    + f_equal. assert (length (Namespaces (nt_Tx n)) = 1%nat) as ->; [|done].
      rewrite <- (length_fmap NsId (Namespaces (nt_Tx n))). by rewrite H.
    + by apply Nat.ltb_ge.
  - intros (p & c & out & nonce & payload & n & es & cb & sb & -> & Hmade & Hch & -> & Hns & Hmd).
    rewrite (proj2 (createCompatFabricXTx_ok p (end_Responses end_) out))
      by (by exists c, nonce, payload, n, es, cb, sb, data).
    pose proof (nm_envelope _ _ _ _ _ _ _ _ _ _ _ Hmade) as (Hcb & Hsb & Hout).
    pose proof (nm_tx _ _ _ _ _ _ _ _ _ _ _ Hmade) as [Hn Hb].
    cbn [mbind result_mbind]. rewrite (proj1 (payload_roundtrip _ _ _ Hout)).
    cbn [mbind result_mbind ChannelHeader]. rewrite (channel_roundtrip _ _ Hcb).
    rewrite bool_decide_eq_true_2 by (cbn; by f_equal). cbn [negb guard_err mbind result_mbind].
    rewrite (native_roundtrip _ _ Hb). cbn [mbind result_mbind nt_Tx].
    rewrite bool_decide_eq_true_2 by done.
    rewrite (proj2 (Nat.ltb_ge (length (Metadata (nt_Tx n))) 2)) by done.
    cbn [negb orb guard_err mbind result_mbind]. do 2 f_equal.
    assert (length (Namespaces (nt_Tx n)) = 1%nat) as ->; [|done].
    rewrite <- (length_fmap NsId (Namespaces (nt_Tx n))). by rewrite Hns.
Qed.

(** ** The Gateway transaction *)

(** What a Gateway transaction is made of. *)
Record gateway_made (p : Proposal) (version : string) (end_ : SdkEndorsement) (out : bytes)
    (header : CommonHeader) (channel : ChannelMsg) (signature : SignatureMsg)
    (cpp : bytes * gmap string bytes) (spec : option InvokedSpec) (route : string * string)
    (data : bytes) (native : NativeTx) (response : Response) (pub rp action tx : bytes)
    (es : list Endorsement) : Prop := mkGatewayMade {
  gm_header : UnmarshalHeader (Header p) = Ok header ∧
    unmarshal_ChannelMsg (ChannelHeader header) = Ok channel ∧
    unmarshal_SignatureMsg (SignatureHeader header) = Ok signature ∧
    client_header channel signature = true;
  gm_txid : Requests.txIDFromEndorsement end_ = Ok (cm_TxId channel);
  gm_spec : UnmarshalChaincodeProposalPayload (pp_Payload p) = Ok cpp ∧
    unmarshal_InvokedSpec cpp.1 = Ok spec ∧
    Requests.gatewayChaincodeRoute (spec_name spec) = Ok route;
  gm_native : native_transaction (cm_ChannelId channel) route.2 end_ = Ok (data, native);
  gm_response : head (end_Responses end_) ≫= (λ r, r ≫= pr_Response) = Some response;
  gm_pub : GetBytesProposalPayloadForTx cpp = Ok pub;
  gm_binding : ∃ metadata event hash,
    check_binding p version response (cm_ChannelId channel) (spec_name spec) route.2 spec
      (nt_Tx native) = Ok metadata ∧
    GetProposalHash2 header pub = Ok hash ∧
    chaincode_event (spec_name spec) (cm_TxId channel) metadata = Ok event ∧
    GetBytesProposalResponsePayload hash response data event
      (mkChaincodeID "" (spec_name spec) version) = Ok rp;
  gm_action : response_endorsements (end_Responses end_) = Ok es ∧
    marshal_ActionPayload pub rp es = Ok action ∧
    marshal_Transaction [(SignatureHeader header, action)] = Ok tx ∧
    marshal_Payload header tx = Ok out }.

Lemma createGatewayTransaction_ok p version end_ out :
  createGatewayTransaction (Some p) version end_ = Ok out ↔
  ∃ header channel signature cpp spec route data native response pub rp action tx es,
    gateway_made p version end_ out header channel signature cpp spec route data native response
      pub rp action tx es.
Proof.
  unfold createGatewayTransaction. split.
  - intros H. apply bind_ok in H as (header & Hh & H). apply bind_ok in H as (channel & Hc & H).
    apply bind_ok in H as (signature & Hs & H). apply bind_ok in H as ([] & Hcl & H).
    apply guard_err_ok in Hcl. bool_props. apply bind_ok in H as ([] & Htx & H).
    apply guard_err_ok in Htx. bool_props. apply bind_ok in H as (cpp & Hcpp & H).
    apply bind_ok in H as (spec & Hspec & H). apply bind_ok in H as (route & Hroute & H).
    apply bind_ok in H as ([data native] & Hnat & H).
    destruct (head (end_Responses end_) ≫= _) as [response|] eqn:Hr; [|done].
    apply bind_ok in H as (metadata & Hb & H). apply bind_ok in H as (pub & Hpub & H).
    apply bind_ok in H as (hash & Hhash & H). apply bind_ok in H as (event & Hev & H).
    apply bind_ok in H as (rp & Hrp & H). apply bind_ok in H as (es & Hes & H).
    apply bind_ok in H as (action & Hact & H). apply bind_ok in H as (tx & Htxb & H).
    exists header, channel, signature, cpp, spec, route, data, native, response, pub, rp, action, tx, es.
    split; try done. by exists metadata, event, hash.
  - intros (header & channel & signature & cpp & spec & route & data & native & response & pub & rp &
      action & tx & es & [(Hh & Hc & Hs & Hcl) Htx (Hcpp & Hspec & Hroute) Hnat Hr Hpub
      (metadata & event & hash & Hb & Hhash & Hev & Hrp) (Hes & Hact & Htxb & Hout)]).
    run_ok. rewrite Hcl, Htx, bool_decide_eq_true_2 by done. cbn [negb guard_err mbind result_mbind].
    run_ok. rewrite Hr. by run_ok.
Qed.

(** The metadata that [check_binding] accepts. *)
Lemma check_binding_ok p version response channel chaincode namespace spec native metadata :
  check_binding p version response channel chaincode namespace spec native = Ok metadata ↔
  ∃ sdk record rest b identity, Metadata native = sdk :: record :: rest ∧
    unmarshal_binding record = Ok b ∧ gb_Format b = 1 ∧
    Helper.MarshalGatewayProposalBinding (Some p) version (gb_Sequence b) (Some response) = Ok record ∧
    Helper.ChaincodeIdentityFromMetadata (Metadata native) = Ok identity ∧
    (∀ id, identity = Some id → Helper.ci_ChannelID id = channel ∧
       Helper.ci_ChaincodeName id +:+ ":" +:+ Helper.ci_Namespace id = chaincode ∧
       Helper.ci_Namespace id = namespace) ∧
    unmarshal_Metadata sdk = Ok metadata ∧
    md_Payload metadata = Payload response ∧ md_InputArgs metadata = spec_args spec.
Proof.
  unfold check_binding. split.
  - intros H. destruct (Metadata native) as [|sdk [|record rest]] eqn:Hmd; [done..|].
    apply bind_ok in H as (b & Hb & H). destruct (unmarshal_binding record) as [b'|] eqn:Hub; [|done].
    destruct (gb_Format b' =? 1) eqn:Hf; [|done]. injection Hb as ->. apply Z.eqb_eq in Hf.
    apply bind_ok in H as ([] & Hm & H). apply guard_err_ok in Hm. bool_props.
    apply bind_ok in H as (identity & Hid & H). apply bind_ok in H as ([] & Hg & H).
    apply guard_err_ok in Hg. apply bind_ok in H as (md & Hsdk & H). apply Msp.wrap_err_ok in Hsdk.
    apply bind_ok in H as ([] & Hp & [= <-]). apply guard_err_ok in Hp. bool_props.
    exists sdk, record, rest, b, identity. split_and!; try done.
    intros id ->. bool_props. done.
  - intros (sdk & record & rest & b & identity & Hmd & Hub & Hf & Hm & Hid & Hg & Hsdk & Hp & Ha).
    rewrite Hmd, Hub, Hf in *. cbn [Z.eqb Pos.eqb mbind result_mbind]. rewrite Hm.
    rewrite bool_decide_eq_true_2 by done. cbn [negb guard_err mbind result_mbind].
    rewrite Hid. cbn [mbind result_mbind].
    assert (Hgf : match identity with None => false | Some id =>
        negb (bool_decide (Helper.ci_ChannelID id = channel)) ||
        negb (bool_decide (Helper.ci_ChaincodeName id +:+ ":" +:+ Helper.ci_Namespace id = chaincode)) ||
        negb (bool_decide (Helper.ci_Namespace id = namespace)) end = false).
    { destruct identity as [id|]; [|done]. destruct (Hg id eq_refl) as (H1 & H2 & H3).
      rewrite !bool_decide_eq_true_2 by done. done. }
    rewrite Hgf. cbn [guard_err mbind result_mbind]. rewrite Hsdk.
    cbn [Msp.wrap_err mbind result_mbind]. rewrite Hp, Ha.
    rewrite !bool_decide_eq_true_2 by done. done.
Qed.

(** ** Responses rebuilt from native endorsements *)

Definition with_endorsement (response : Response) (results : bytes) (e : Endorsement)
    : option ProposalResponse :=
  Some (mkProposalResponse (Some response) results (Some e)).

Lemma response_endorsements_of resps es :
  response_endorsements resps = Ok es → endorsements_of resps = es ∧ length es = length resps.
Proof.
  revert es. induction resps as [|resp resps IH]; intros es; cbn [response_endorsements].
  { by intros [= <-]. }
  unfold endorsements_of. cbn [omap list_omap]. destruct (resp ≫= pr_Endorsement) as [e|]; [|done].
  intros H. apply bind_ok in H as (l & Hl & [= <-]). apply IH in Hl as [<- Hl]. cbn [length].
  split; [done|by f_equal].
Qed.

Lemma response_endorsements_with response results es :
  response_endorsements (with_endorsement response results <$> es) = Ok es.
Proof.
  induction es as [|e es IH]; [done|]. rewrite fmap_cons.
  cbn [response_endorsements with_endorsement mbind option_bind pr_Endorsement]. by rewrite IH.
Qed.

(** An endorsement as the native transaction keeps it: signed, its identity canonical. *)
Definition canonical (e : Endorsement) : Prop :=
  Signature e ≠ "" ∧ ∃ id, marshal_Identity id = Ok (Endorser e).

Lemma native_responses_canonical response results used l :
  Forall2 decoded_from used l → Forall canonical used →
  native_responses response results l = Ok (with_endorsement response results <$> used).
Proof.
  induction 1 as [|e x used l [Hs (id & Hx & Hid)] Hf IH]; intros Hc; [done|].
  apply Forall_cons in Hc as [[Hne (id' & Hid')] Hc]. rewrite fmap_cons. cbn [native_responses].
  rewrite Hx, Hs, bool_decide_eq_false_2 by done. cbn [guard_err mbind result_mbind].
  pose proof (identity_roundtrip _ _ Hid') as Hid2. rewrite Hid in Hid2. injection Hid2 as ->.
  specialize (IH Hc). rewrite Hid'. cbn [mbind result_mbind]. rewrite IH. cbn [mbind result_mbind].
  by destruct e.
Qed.

Lemma native_responses_ok response results l resps :
  native_responses response results l = Ok resps →
  ∃ used, resps = with_endorsement response results <$> used ∧
    Forall2 (λ e x, ei_Endorsement x = Signature e ∧ Signature e ≠ "" ∧
      ∃ id, ei_Identity x = Some id ∧ marshal_Identity id = Ok (Endorser e)) used l.
Proof.
  revert resps. induction l as [|x l IH]; intros resps; cbn [native_responses].
  { intros [= <-]. by exists []. }
  destruct (ei_Identity x) as [id|] eqn:Hx; [|done]. intros H.
  apply bind_ok in H as ([] & Hne & H). apply guard_err_ok in Hne. bool_props.
  apply bind_ok in H as (b & Hb & H). apply bind_ok in H as (resps' & Hr & [= <-]).
  destruct (IH resps' Hr) as (used & -> & Hf).
  exists (mkEndorsement b (ei_Endorsement x) :: used). split; [done|].
  constructor; [|done]. split_and!; [done|done|]. by exists id.
Qed.

(** ** Bindings *)

Lemma binding_version {JL : Json.JSONLaws} p version sequence response record b :
  Json.valid_utf8 version = true → Json.valid_utf8 (Message response) = true →
  Helper.MarshalGatewayProposalBinding (Some p) version sequence (Some response) = Ok record →
  unmarshal_binding record = Ok b → gb_ChaincodeVersion b = version.
Proof.
  intros Hv Hm H Hb. unfold Helper.MarshalGatewayProposalBinding in H.
  destruct (_ || _); [done|]. apply bind_ok in H as (h & _ & H).
  apply bind_ok in H as (hash & _ & [= <-]). unfold unmarshal_binding, Json.json_object in Hb.
  rewrite Helper.binding_text in Hb by done. cbn [mbind result_mbind] in Hb.
  unfold binding_of_json, Helper.binding_json in Hb.
  apply bind_ok in Hb as (f & _ & Hb). apply bind_ok in Hb as (h' & _ & Hb).
  apply bind_ok in Hb as (v & Hv' & Hb). apply bind_ok in Hb as (n & _ & Hb).
  apply bind_ok in Hb as (st & _ & Hb). apply bind_ok in Hb as (m & _ & [= <-]).
  revert Hv'. Json.json_fields. by intros [= <-].
Qed.

(** The public proposal has the binding of the original one. *)
Lemma binding_public p p' header cpp pub version sequence response :
  UnmarshalHeader (Header p) = Ok header → UnmarshalHeader (Header p') = Ok header →
  UnmarshalChaincodeProposalPayload (pp_Payload p) = Ok cpp →
  GetBytesProposalPayloadForTx cpp = Ok pub → pp_Payload p' = pub →
  Helper.MarshalGatewayProposalBinding (Some p') version sequence (Some response) =
    Helper.MarshalGatewayProposalBinding (Some p) version sequence (Some response).
Proof.
  intros Hh Hh' Hcpp Hpub Heq. unfold Helper.MarshalGatewayProposalBinding. rewrite Hh, Hh', Heq.
  destruct (_ || _); [done|]. cbn [mbind result_mbind].
  destruct (public_payload _ _ Hpub) as [Hc' Hp'].
  by rewrite (public_hash _ _ _ _ Hcpp Hpub), (public_hash _ _ _ _ Hc' Hp').
Qed.

(** ** Rebuilding the public projection *)

Lemma endorsements_of_with response results es :
  endorsements_of (with_endorsement response results <$> es) = es.
Proof. induction es as [|e es IH]; [done|]. rewrite fmap_cons. unfold endorsements_of in *. cbn. by f_equal. Qed.

Lemma first_response_ok payload resps response :
  Forall (successful payload) resps → head resps ≫= (λ r, r ≫= pr_Response) = Some response →
  status_ok (Status response) = true.
Proof.
  destruct resps as [|r resps]; [done|]. intros Hf Hr. apply Forall_cons in Hf as [Hx _].
  destruct Hx as (r' & response' & -> & Hr' & Hs & _). cbn in Hr. congruence.
Qed.

(** The native transaction does not change when its own endorsements endorse it again. *)
Lemma native_rebuilt channel ns end_ data native response used p' hdr c s :
  native_transaction channel ns end_ = Ok (data, native) →
  head (end_Responses end_) ≫= (λ r, r ≫= pr_Response) = Some response →
  response_endorsements (end_Responses end_) = Ok used →
  NoDup (Endorser <$> used) → Forall canonical used →
  UnmarshalHeader (Header p') = Ok hdr → unmarshal_ChannelMsg (ChannelHeader hdr) = Ok c →
  unmarshal_SignatureMsg (SignatureHeader hdr) = Ok s → cm_ChannelId c = channel →
  ∃ es, nt_Endorsements native = [es] ∧ unmarshal_Native data = Ok native ∧ used ≠ [] ∧
    native_responses response data es = Ok (with_endorsement response data <$> used) ∧
    native_transaction channel ns
      (mkSdkEndorsement (Some p') (with_endorsement response data <$> used)) = Ok (data, native).
Proof.
  intros Hnat Hr Hused Hnd Hcan Hhdr Hc Hs Hch.
  apply native_transaction_ok in Hnat as (p & c0 & out & nonce & payload & n & es & cb & sb & Hp & Hmade &
    Hch0 & -> & Hns & Hmd).
  destruct Hmade as [[Hne Hes] _ Hok Hfirst [Hn Hdata] _].
  destruct (response_endorsements_of _ _ Hused) as [Hof Hlen].
  rewrite Hof, first_of_endorser_id in Hfirst by (done || set_solver).
  assert (Hone : length (Namespaces (nt_Tx n)) = 1%nat)
    by (by rewrite <- (length_fmap NsId (Namespaces (nt_Tx n))), Hns).
  assert (Hun : used ≠ []) by (by intros ->; inversion Hfirst; subst).
  exists es. cbn [nt_Endorsements]. rewrite Hone in Hdata. pose proof (native_roundtrip _ _ Hdata) as Hback.
  split_and!; try done; [by apply native_responses_canonical|].
  pose proof (channel_retyped _ _ Events.HeaderType_MESSAGE Hc) as Hcb.
  destruct (marshal_ChannelMsg _) as [cb'|] eqn:Hcb'; [|done].
  pose proof (signature_total (mkSignatureMsg "" (sm_Nonce s))) as Hsb.
  destruct (marshal_SignatureMsg _) as [sb'|] eqn:Hsb'; [|done].
  pose proof (payload_total (mkHeader cb' sb') data) as Hout.
  destruct (marshal_Payload _ _) as [out'|] eqn:Hout'; [|done].
  apply native_transaction_ok.
  exists p', c, out', (sm_Nonce s), data, (mkNative (nt_Tx n) [es]), es, cb', sb'.
  split_and!; try done. cbn [end_Responses]. split.
  - split; [by destruct used|done].
  - exists hdr, (sm_Creator s). by destruct s.
  - apply Forall_fmap, Forall_true. intros e. exists (mkProposalResponse (Some response) data (Some e)), response.
    split_and!; try done. by eapply first_response_ok.
  - rewrite endorsements_of_with, first_of_endorser_id by (done || set_solver). done.
  - cbn [nt_Tx]. by rewrite Hone.
  - done.
Qed.

(** The Gateway transaction does not change when it is built again from its public parts. *)
Lemma gateway_rebuilt p version end_ out header channel signature cpp spec route data native response
    pub rp action tx used :
  gateway_made p version end_ out header channel signature cpp spec route data native response pub rp
    action tx used →
  NoDup (Endorser <$> used) → Forall canonical used →
  let p' := mkProposal (marshal_Header header) pub "" in
  ∃ es, nt_Endorsements native = [es] ∧ unmarshal_Native data = Ok native ∧
    native_responses response data es = Ok (with_endorsement response data <$> used) ∧
    createGatewayTransaction (Some p') version
      (mkSdkEndorsement (Some p') (with_endorsement response data <$> used)) = Ok out.
Proof.
  intros [(Hh & Hc & Hs & Hcl) Htx (Hcpp & Hspec & Hroute) Hnat Hr Hpub
    (metadata & event & hash & Hb & Hhash & Hev & Hrp) (Hes & Hact & Htxb & Hout)] Hnd Hcan p'.
  pose proof (header_roundtrip header) as Hh'.
  destruct (native_rebuilt _ _ _ _ _ _ _ p' header channel signature Hnat Hr Hes Hnd Hcan Hh' Hc Hs eq_refl)
    as (es & Hnes & Hback & Hun & Hresp & Hnat'). exists es. split_and!; try done.
  destruct (public_payload _ _ Hpub) as [Hcpp' Hpub'].
  apply createGatewayTransaction_ok.
  exists header, channel, signature, (cpp.1, ∅), spec, route, data, native, response, pub, rp, action, tx, used.
  split; try done; cbn [end_Responses].
  - unfold Requests.txIDFromEndorsement, Requests.txIDFromProposal. cbn [end_Proposal]. subst p'.
    cbn [Header]. rewrite Hh'. rewrite channel_hdr, Hc. done.
  - by destruct used.
  - exists metadata, event, hash. split_and!; try done. apply check_binding_ok in Hb.
    apply check_binding_ok.
    destruct Hb as (sdk & record & rest & b & identity & H1 & H2 & H3 & H4 & H5 & H6 & H7).
    exists sdk, record, rest, b, identity. split_and!; try done; try apply H7.
    by rewrite (binding_public p p' header cpp pub) by done.
  - split; [by apply response_endorsements_with|done].
Qed.

(** ** Parsing *)

(** What an accepted envelope is made of. *)
Record parsed (out : bytes) (g : gatewayPreparedInvocation) (header : CommonHeader) (data : bytes)
    (channel : ChannelMsg) (signature : SignatureMsg) (action pp rp input : bytes) (id : ChaincodeID)
    (ci : ChaincodeInput) (response : Response) (results : bytes)
    (es : list EndorsementWithIdentity) (record : bytes) (p : Proposal)
    (resps : list (option ProposalResponse)) : Prop := mkParsed {
  pa_nonempty : out ≠ "";
  pa_payload : UnmarshalPayload out = Ok (Some header, data);
  pa_header : unmarshal_ChannelMsg (ChannelHeader header) = Ok channel ∧
    unmarshal_SignatureMsg (SignatureHeader header) = Ok signature ∧
    client_header channel signature = true;
  pa_action : single_action data = Ok (SignatureHeader header, action) ∧
    action_payload action = Ok (pp, rp);
  pa_input : public_input pp = Ok input ∧ prepared_spec input = Ok (id, ci) ∧
    unmarshal_ExtensionID (cm_Extension channel) = Ok (Some id);
  pa_execution : prepared_execution rp = Ok (response, results) ∧
    prepared_native results = Ok (gp_Native g, es, record) ∧
    prepared_binding record = Ok (gp_Binding g);
  pa_proposal : p = mkProposal (marshal_Header header) pp "" ∧
    native_responses response results es = Ok resps ∧
    gp_Endorsement g = mkSdkEndorsement (Some p) resps;
  pa_projection : createGatewayTransaction (Some p) (gb_ChaincodeVersion (gp_Binding g))
    (gp_Endorsement g) = Ok out;
  pa_request : prepared_request channel signature (cid_Name id) (gb_ChaincodeVersion (gp_Binding g))
    (in_Args ci) p = Ok (gp_Request g) }.

Lemma parseGatewayTransaction_ok envelope g :
  parseGatewayTransaction (Some envelope) = Ok g ↔
  ∃ header data channel signature action pp rp input id ci response results es record p resps,
    parsed (Auth.env_Payload envelope) g header data channel signature action pp rp input id ci
      response results es record p resps.
Proof.
  unfold parseGatewayTransaction. split.
  - intros H. apply bind_ok in H as ([] & Hne & H). apply guard_err_ok in Hne. bool_props.
    destruct (UnmarshalPayload _) as [[[header|] data]|] eqn:Hp; try done.
    apply bind_ok in H as (channel & Hc & H). apply bind_ok in H as (signature & Hs & H).
    apply bind_ok in H as ([] & Hcl & H). apply guard_err_ok in Hcl. bool_props.
    apply bind_ok in H as ([ah action] & Hact & H). apply bind_ok in H as ([] & Hah & H).
    apply guard_err_ok in Hah. bool_props. cbn [fst snd] in *. subst ah.
    apply bind_ok in H as ([pp rp] & Hap & H). apply bind_ok in H as (input & Hin & H).
    apply bind_ok in H as ([id ci] & Hspec & H). apply bind_ok in H as ([] & Hext & H).
    apply guard_err_ok in Hext. bool_props. apply bind_ok in H as ([response results] & Hex & H).
    apply bind_ok in H as ([[native es] record] & Hnat & H).
    apply bind_ok in H as (b & Hb & H). apply bind_ok in H as (resps & Hresps & H).
    apply bind_ok in H as (expected & Hexp & H). apply bind_ok in H as ([] & Heq & H).
    apply guard_err_ok in Heq. bool_props. subst expected.
    apply bind_ok in H as (req & Hreq & [= <-]).
    eexists header, data, channel, signature, action, pp, rp, input, id, ci, response, results, es,
      record, _, resps. by split.
  - intros (header & data & channel & signature & action & pp & rp & input & id & ci & response & results &
      es & record & p & resps & [Hne Hp (Hc & Hs & Hcl) (Hact & Hap) (Hin & Hspec & Hext)
      (Hex & Hnat & Hb) (-> & Hresps & Hend) Hexp Hreq]).
    rewrite bool_decide_eq_false_2 by done. cbn [guard_err mbind result_mbind]. rewrite Hp.
    run_ok. rewrite Hcl. cbn [negb guard_err mbind result_mbind]. run_ok.
    rewrite bool_decide_eq_true_2 by done. cbn [negb guard_err mbind result_mbind snd]. run_ok.
    rewrite bool_decide_eq_true_2 by done. cbn [negb guard_err mbind result_mbind]. run_ok.
    rewrite Hend in Hexp. run_ok. rewrite bool_decide_eq_true_2 by done.
    cbn [negb guard_err mbind result_mbind]. run_ok. rewrite <- Hend. by destruct g.
Qed.

(** A request made from a prepared transaction. *)
Lemma prepared_request_ok channel signature name version args p req :
  prepared_request channel signature name version args p = Ok req →
  Function req :: Args req = args ∧ Function req ≠ "" ∧
  Requests.gatewayChaincodeRoute name = Ok (ChaincodeName req, Namespace req) ∧
  ClientTxID req = cm_TxId channel ∧ ClientCreator req = sm_Creator signature ∧
  ClientNonce req = sm_Nonce signature ∧ ChaincodeVersion req = version ∧
  definition req = None ∧
  ∃ cpp, UnmarshalChaincodeProposalPayload (pp_Payload p) = Ok cpp ∧ ClientTransient req = cpp.2.
Proof.
  unfold prepared_request, Requests.requestFromProposal. intros H.
  apply bind_ok in H as (r0 & Hr & H). apply bind_ok in H as ([cc ns] & Hroute & [= <-]).
  cbn [inv_Args inv_Proposal inv_Namespace] in Hr. destruct args as [|f args]; [done|].
  case_bool_decide as Hf; [done|].
  destruct (UnmarshalChaincodeProposalPayload (pp_Payload p)) as [cpp|] eqn:Hcpp; [|done].
  apply bind_ok in Hr as (isInit & _ & [= <-]). cbn in *. split_and!; try done. by exists cpp.
Qed.

(** An accepted envelope is made exactly as the Gateway transaction of what it decodes to. *)
Lemma parsed_made out g header data channel signature action pp rp input id ci response results es
    record p resps :
  parsed out g header data channel signature action pp rp input id ci response results es record p resps →
  ∃ es',
    gateway_made p (gb_ChaincodeVersion (gp_Binding g)) (gp_Endorsement g) out header channel
      signature (input, ∅) (Some (mkInvokedSpec (Some id) (Some ci)))
      (ChaincodeName (gp_Request g), Namespace (gp_Request g)) results (gp_Native g) response pp rp
      action data es' ∧
    unmarshal_Native results = Ok (gp_Native g).
Proof.
  intros [Hne Hp (Hc & Hs & Hcl) (Hact & Hap) (Hin & Hspec & Hext) (Hex & Hnat & Hb) (Hpe & Hresps & Hend)
    Hexp Hreq].
  apply prepared_request_ok in Hreq as (_ & _ & Hroute & _).
  apply createGatewayTransaction_ok in Hexp as (header' & channel' & signature' & cpp & spec & route & data' &
    native' & response' & pub & rp' & action' & tx & es' & Hmade).
  pose proof Hmade as [(Hh' & Hc' & Hs' & _) _ (Hcpp & Hspec' & Hroute') Hnat' _ Hpub
    (metadata & event & hash & _ & _ & _ & Hrp) (_ & Hact' & Htxb & Hout)].
  pose proof (proj1 (payload_roundtrip _ _ _ Hout)) as Hdec. rewrite Hp in Hdec.
  injection Hdec as -> ->. rewrite Hc in Hc'. injection Hc' as <-. rewrite Hs in Hs'. injection Hs' as <-.
  unfold single_action in Hact. rewrite (transaction_roundtrip _ _ Htxb) in Hact. injection Hact as ->.
  unfold action_payload in Hap. rewrite (action_roundtrip _ _ _ _ Hact') in Hap. injection Hap as -> ->.
  destruct (response_roundtrip _ _ _ _ _ _ Hrp) as (ext & Hext1 & Hext2).
  unfold prepared_execution in Hex. rewrite Hext1 in Hex. cbn [mbind result_mbind] in Hex.
  rewrite Hext2 in Hex. injection Hex as -> ->.
  assert (Hpp : pp_Payload p = pp) by (by rewrite Hpe).
  unfold public_input in Hin. rewrite <- Hpp, Hcpp in Hin.
  destruct cpp as [input' transient]. case_bool_decide as Htransient; [|done]. injection Hin as ->.
  cbn [fst snd] in *. subst transient.
  assert (spec = Some (mkInvokedSpec (Some id) (Some ci))) as ->.
  { unfold prepared_spec in Hspec. rewrite Hspec' in Hspec. destruct spec as [[[?|] [?|]]|]; cbn in Hspec; congruence. }
  cbn in Hroute'. rewrite Hroute in Hroute'. injection Hroute' as <-.
  apply native_transaction_ok in Hnat' as (q & c & o & nonce & payload & n & es2 & cb & sb & _ & Hnm & _ & -> & Hns & _).
  destruct Hnm as [_ _ _ _ [_ Hm] _]. apply native_roundtrip in Hm.
  assert (length (Namespaces (nt_Tx n)) = 1%nat) as Hone
    by (by rewrite <- (length_fmap NsId (Namespaces (nt_Tx n))), Hns).
  rewrite Hone in Hm. unfold prepared_native in Hnat. rewrite Hm in Hnat.
  assert (mkNative (nt_Tx n) [es2] = gp_Native g) as Heq.
  { cbn [nt_Tx nt_Endorsements replicate] in Hnat.
    destruct (Namespaces (nt_Tx n)) as [|? [|? ?]]; [done| |done].
    destruct (Metadata (nt_Tx n)) as [|? [|? ?]]; congruence. }
  exists es'. rewrite <- Heq. by split.
Qed.

(** ** Properties *)

(** The envelope of an endorsement carries, under the proposal's header made a message without
    its creator, the transaction every response endorsed, with one endorsement for each distinct
    endorser, in order, on every namespace; every response succeeded with the same payload. *)
Theorem PackageTx_exact end_ envelope :
  PackageTx end_ = Ok envelope →
  ∃ p c nonce payload n es cb sb b used,
    end_Proposal end_ = Some p ∧ Auth.env_Signature envelope = "" ∧
    UnmarshalPayload (Auth.env_Payload envelope) = Ok (Some (mkHeader cb sb), b) ∧
    unmarshal_ChannelMsg cb = Ok (set_type Events.HeaderType_MESSAGE c) ∧
    marshal_SignatureMsg (mkSignatureMsg "" nonce) = Ok sb ∧
    end_Responses end_ ≠ [] ∧ Forall (successful payload) (end_Responses end_) ∧
    unmarshal_Native payload = Ok n ∧
    unmarshal_Native b = Ok (mkNative (nt_Tx n) (replicate (length (Namespaces (nt_Tx n))) es)) ∧
    Forall2 decoded_from used es ∧ es ≠ [] ∧ NoDup (Endorser <$> used) ∧
    (∀ x, x ∈ Endorser <$> used ↔ x ∈ Endorser <$> endorsements_of (end_Responses end_)).
Proof.
  unfold PackageTx. intros H. apply bind_ok in H as (out & Hout & [= <-]).
  destruct (end_Proposal end_) as [p|]; [|done].
  apply createCompatFabricXTx_ok in Hout as (c & nonce & payload & n & es & cb & sb & b &
    [[Hr He] _ Hok Hes [Hn Hb] (Hcb & Hsb & Hout)]).
  destruct (first_of_endorser_distinct ∅ (endorsements_of (end_Responses end_))) as [Hnd Hin].
  exists p, c, nonce, payload, n, es, cb, sb, b, (first_of_endorser ∅ (endorsements_of (end_Responses end_))).
  split_and!; try done.
  - by apply payload_roundtrip in Hout as [? _].
  - by apply channel_roundtrip.
  - by apply native_roundtrip.
  - intros x. rewrite Hin. set_solver.
Qed.

(** C12: Every field of an accepted prepared transaction is tied to what the endorsers signed: the
    envelope is exactly the one its proposal, version and native endorsements determine, the
    transaction ID is that of the client's creator and nonce, no transient data is left, and the
    native transaction of the requested namespace carries the arguments, the response and the
    binding of this proposal, version and sequence. *)
Theorem parseGatewayTransaction_sound envelope g :
  parseGatewayTransaction (Some envelope) = Ok g →
  let req := gp_Request g in
  ∃ p response results record metadata sdk,
    end_Proposal (gp_Endorsement g) = Some p ∧
    createGatewayTransaction (Some p) (ChaincodeVersion req) (gp_Endorsement g) =
      Ok (Auth.env_Payload envelope) ∧
    ClientTxID req = ComputeTxID (ClientNonce req) (ClientCreator req) ∧
    Requests.txIDFromProposal (Some p) = Ok (ClientTxID req) ∧ ClientTransient req = ∅ ∧
    status_ok (Status response) = true ∧
    (∃ used, used ≠ [] ∧ end_Responses (gp_Endorsement g) = with_endorsement response results <$> used ∧
       Forall (λ e, Signature e ≠ "") used) ∧
    unmarshal_Native results = Ok (gp_Native g) ∧
    NsId <$> Namespaces (nt_Tx (gp_Native g)) = [Namespace req] ∧
    (∃ rest, Metadata (nt_Tx (gp_Native g)) = sdk :: record :: rest) ∧
    Helper.MarshalGatewayProposalBinding (Some p) (ChaincodeVersion req)
      (gb_Sequence (gp_Binding g)) (Some response) = Ok record ∧
    unmarshal_Metadata sdk = Ok metadata ∧ md_Payload metadata = Payload response ∧
    md_InputArgs metadata = Function req :: Args req.
Proof.
  intros H req. apply parseGatewayTransaction_ok in H as (header & data & channel & signature & action &
    pp & rp & input & id & ci & response & results & es & record & p & resps & Hparsed).
  destruct (parsed_made _ _ _ _ _ _ _ _ _ _ _ _ _ _ _ _ _ _ Hparsed) as (es' & [(Hh & Hc & _ & Hcl) Htx
    (Hcpp & _ & _) Hnat Hr _ (metadata & event & hash & Hb & _) _] & Hun).
  destruct Hparsed as [_ _ _ _ _ (_ & Hpn & Hpb) (_ & Hresps & Hend) Hexp Hreq].
  apply prepared_request_ok in Hreq as (Hargs & _ & _ & Htxid & Hcr & Hno & Hv & _ & cpp & Hcpp' & Htr).
  fold req in Hargs, Htxid, Hcr, Hno, Hv, Htr, Hnat, Hb.
  rewrite Hcpp in Hcpp'. injection Hcpp' as <-.
  apply check_binding_ok in Hb as (sdk & rec & rest & b & identity & Hmd & Hub & _ & Hbind & _ & _ & Hsdk & Hpay & Hia).
  unfold client_header in Hcl. bool_props.
  assert (b = gp_Binding g) as ->.
  { unfold prepared_native in Hpn. rewrite Hun, Hmd in Hpn.
    destruct (Namespaces _) as [|? [|? ?]]; try done.
    destruct (nt_Endorsements _) as [|? [|? ?]]; try done. injection Hpn as _ <-.
    unfold prepared_binding in Hpb. rewrite Hub in Hpb. destruct (_ =? 1); [by injection Hpb|done]. }
  apply native_transaction_ok in Hnat as (q & c & o & nonce & payload & n & es2 & cb & sb & _ & Hnm & _ & Hn & Hns & _).
  destruct (native_responses_ok _ _ _ _ Hresps) as (used & -> & Hused).
  rewrite Hv. rewrite Hend in Hr, Hnm, Htx |- *. cbn [end_Responses end_Proposal] in *.
  exists p, response, results, rec, metadata, sdk. split_and!; try done.
  - by rewrite <- Hend.
  - by rewrite Htxid, Hcr, Hno.
  - by rewrite Htxid.
  - destruct Hnm as [_ _ Hok _ _ _]. by eapply first_response_ok.
  - exists used. split_and!; [by intros ->|done|]. clear -Hused. induction Hused; constructor; naive_solver.
  - rewrite Hn. cbn [nt_Tx]. done.
  - by exists rest.
  - by rewrite Hia, Hargs.
Qed.

(** The request of a public proposal that invokes a function. *)
Lemma prepared_request_made channel signature id version f args isInit p input route :
  f ≠ "" →
  UnmarshalChaincodeProposalPayload (pp_Payload p) = Ok (input, ∅) →
  unmarshal_InvokedSpec input = Ok (Some (mkInvokedSpec (Some id) (Some (mkInput (f :: args) isInit)))) →
  Requests.gatewayChaincodeRoute (cid_Name id) = Ok route →
  ∃ req, prepared_request channel signature (cid_Name id) version (f :: args) p = Ok req ∧
    Function req = f ∧ Args req = args ∧ ChaincodeVersion req = version.
Proof.
  intros Hf Hpp Hspec Hroute. unfold prepared_request, Requests.requestFromProposal.
  cbn [inv_Args inv_Proposal inv_Namespace]. rewrite bool_decide_eq_false_2 by done.
  unfold Helper.ProposalIsInit. rewrite Hpp. cbn [fst]. rewrite spec_agrees, Hspec.
  cbn [mbind result_mbind option_bind option_map spec_of spec_Input is_Input in_IsInit ChaincodeName].
  rewrite Hroute. cbn [mbind result_mbind]. by eexists.
Qed.

(** The client's proposal invokes the chaincode its header names. *)
Definition invokes (p : Proposal) (f : string) (args : list string) : Prop :=
  ∃ header channel cpp id isInit, UnmarshalHeader (Header p) = Ok header ∧
    unmarshal_ChannelMsg (ChannelHeader header) = Ok channel ∧
    unmarshal_ExtensionID (cm_Extension channel) = Ok (Some id) ∧
    UnmarshalChaincodeProposalPayload (pp_Payload p) = Ok cpp ∧
    unmarshal_InvokedSpec cpp.1 = Ok (Some (mkInvokedSpec (Some id) (Some (mkInput (f :: args) isInit)))) ∧
    f ≠ "".

(** Parsing what was prepared: the endorsement it gives is that of the same endorsers over the
    native transaction, for the public part of the proposal. *)
Lemma prepared_parsed {JL : Json.JSONLaws} p version end_ out signature f args :
  createGatewayTransaction (Some p) version end_ = Ok out →
  invokes p f args →
  NoDup (Endorser <$> endorsements_of (end_Responses end_)) →
  Forall canonical (endorsements_of (end_Responses end_)) →
  Json.valid_utf8 version = true →
  (∀ r response, Some r ∈ end_Responses end_ → pr_Response r = Some response →
     Json.valid_utf8 (Message response) = true) →
  ∃ g header channel sig cpp spec route data response pub rp action tx used,
    parseGatewayTransaction (Some (Auth.mkEnvelope out signature)) = Ok g ∧
    gateway_made p version end_ out header channel sig cpp spec route data (gp_Native g) response pub rp
      action tx used ∧
    gp_Endorsement g = mkSdkEndorsement (Some (mkProposal (marshal_Header header) pub ""))
      (with_endorsement response data <$> used) ∧
    prepared_request channel sig (spec_name spec) version (f :: args)
      (mkProposal (marshal_Header header) pub "") = Ok (gp_Request g).
Proof.
  intros H (header & channel & cpp & id & isInit & Hh0 & Hc0 & Hext & Hcpp0 & Hspec0 & Hf) Hnd Hcan Hv Hm.
  apply createGatewayTransaction_ok in H as (header' & channel' & sig & cpp' & spec & route & data & native &
    response & pub & rp & action & tx & used & Hmade).
  pose proof Hmade as [(Hh & Hc & Hs & Hcl) Htx (Hcpp & Hspec & Hroute) Hnat Hr Hpub
    (metadata & event & hash & Hb & _ & _ & Hrp) (Hes & Hact & Htxb & Hout)].
  rewrite Hh in Hh0. injection Hh0 as <-. rewrite Hc in Hc0. injection Hc0 as <-.
  rewrite Hcpp in Hcpp0. injection Hcpp0 as <-. rewrite Hspec in Hspec0. injection Hspec0 as ->.
  destruct (response_endorsements_of _ _ Hes) as [Hused _]. rewrite Hused in Hnd, Hcan.
  destruct (gateway_rebuilt _ _ _ _ _ _ _ _ _ _ _ _ _ _ _ _ _ _ Hmade Hnd Hcan) as (es & Hnes & Hun & Hresp & Hre).
  apply check_binding_ok in Hb as (sdk & record & rest & b & identity & Hmd & Hub & Hfmt & Hbind & _).
  assert (Hmsg : Json.valid_utf8 (Message response) = true).
  { destruct (end_Responses end_) as [|[r|] resps]; try done. cbn in Hr. apply (Hm r); [left|done]. }
  pose proof (binding_version _ _ _ _ _ _ Hv Hmsg Hbind Hub) as Hver.
  destruct (public_payload _ _ Hpub) as [Hpp _]. destruct (payload_roundtrip _ _ _ Hout) as [Hpay Hne].
  set (p' := mkProposal (marshal_Header header') pub "") in *.
  destruct (prepared_request_made channel' sig id version f args isInit p' cpp'.1 route Hf Hpp Hspec Hroute)
    as (req & Hreq & Hf' & Ha' & Hv').
  exists (mkPrepared req (mkSdkEndorsement (Some p') (with_endorsement response data <$> used)) b native).
  exists header', channel', sig, cpp', (Some (mkInvokedSpec (Some id) (Some (mkInput (f :: args) isInit)))),
    route, data, response, pub, rp, action, tx, used.
  cbn [gp_Request gp_Endorsement gp_Native]. split; [|done].
  apply parseGatewayTransaction_ok.
  exists header', tx, channel', sig, action, pub, rp, cpp'.1, id, (mkInput (f :: args) isInit), response, data,
    es, record, p', (with_endorsement response data <$> used).
  destruct (response_roundtrip _ _ _ _ _ _ Hrp) as (ext & Hext1 & Hext2).
  split; cbn [gp_Request gp_Endorsement gp_Binding gp_Native Auth.env_Payload in_Args]; rewrite ?Hver; try done.
  - unfold single_action, action_payload.
    by rewrite (transaction_roundtrip _ _ Htxb), (action_roundtrip _ _ _ _ Hact).
  - unfold public_input, prepared_spec. rewrite Hpp, bool_decide_eq_true_2, Hspec by done. done.
  - unfold prepared_execution. rewrite Hext1. cbn [mbind result_mbind]. rewrite Hext2.
    split; [done|]. unfold prepared_native, prepared_binding. rewrite Hun, Hmd, Hnes, Hub, Hfmt.
    apply native_transaction_ok in Hnat as (q & c & o & nonce & payload & n & es2 & cb & sb & _ & _ & _ & -> & Hns & _).
    cbn [nt_Tx] in *. split; [|done]. destruct (Namespaces (nt_Tx n)) as [|? [|? ?]]; done.
Qed.

(** Submit accepts what Endorse prepared: the envelope made of a client's proposal and of
    endorsements by distinct endorsers, whatever the client signs it with, is parsed back to a
    request for the same function, arguments and version and to the same endorsements. *)
Theorem prepared_roundtrip {JL : Json.JSONLaws} p version end_ out signature f args :
  createGatewayTransaction (Some p) version end_ = Ok out →
  invokes p f args →
  NoDup (Endorser <$> endorsements_of (end_Responses end_)) →
  Forall canonical (endorsements_of (end_Responses end_)) →
  Json.valid_utf8 version = true →
  (∀ r response, Some r ∈ end_Responses end_ → pr_Response r = Some response →
     Json.valid_utf8 (Message response) = true) →
  ∃ g, parseGatewayTransaction (Some (Auth.mkEnvelope out signature)) = Ok g ∧
    endorsements_of (end_Responses (gp_Endorsement g)) = endorsements_of (end_Responses end_) ∧
    Function (gp_Request g) = f ∧ Args (gp_Request g) = args ∧
    ChaincodeVersion (gp_Request g) = version.
Proof.
  intros H Hinv Hnd Hcan Hv Hm.
  destruct (prepared_parsed p version end_ out signature f args H Hinv Hnd Hcan Hv Hm)
    as (g & header & channel & sig & cpp & spec & route & data & response & pub & rp & action & tx & used &
      Hg & Hmade & Hend & Hreq).
  exists g. split; [done|]. apply prepared_request_ok in Hreq as (Hargs & _ & _ & _ & _ & _ & Hver & _).
  injection Hargs as -> ->. rewrite Hend. cbn [end_Responses]. split; [|done].
  destruct Hmade as [_ _ _ _ _ _ _ (Hes & _)].
  rewrite endorsements_of_with. by destruct (response_endorsements_of _ _ Hes) as [-> _].
Qed.

End Packager.

(** ** A concrete encoding, on which the witnesses evaluate *)

#[local] Existing Instances Json.example_json Instances.example_msp.

Definition ex_namespace (ns : TxNamespace) : bytes :=
  Framing.frame [NsId ns; Framing.pack (NsVersion ns); Framing.pack (ReadsOnly ns);
                 Framing.pack (ReadWrites ns); Framing.pack (BlindWrites ns)].

Definition ex_unnamespace (b : bytes) : option TxNamespace :=
  l ← Framing.unframe b;
  match l with
  | [id; v; ro; rw; bw] =>
      v ← Framing.unpack v; ro ← Framing.unpack ro; rw ← Framing.unpack rw; bw ← Framing.unpack bw;
      Some (mkTxNamespace id v ro rw bw)
  | _ => None
  end.

Definition ex_with_identity (e : EndorsementWithIdentity) : bytes :=
  Framing.frame [ei_Endorsement e; Framing.pack (A := option (string * string)) (ei_Identity e)].

Definition ex_unwith_identity (b : bytes) : option EndorsementWithIdentity :=
  match Framing.unframe b with
  | Some [e; id] =>
      match Framing.unpack (A := option (string * string)) id with
      | Some id => Some (mkWithIdentity e id)
      | None => None
      end
  | _ => None
  end.

Definition ex_native (n : NativeTx) : bytes :=
  Framing.frame [Framing.frame_all ex_namespace (Namespaces (nt_Tx n));
    Framing.frame (Metadata (nt_Tx n));
    Framing.frame_all (Framing.frame_all ex_with_identity) (nt_Endorsements n)].

Definition ex_unnative (b : bytes) : option NativeTx :=
  match Framing.unframe b with
  | Some [ns; md; es] =>
      match Framing.unframe_all ex_unnamespace ns, Framing.unframe md,
            Framing.unframe_all (Framing.unframe_all ex_unwith_identity) es with
      | Some ns, Some md, Some es => Some (mkNative (mkTx ns md) es)
      | _, _, _ => None
      end
  | _ => None
  end.

Definition ex_fields {A} (f : list bytes → option A) (b : bytes) : result A :=
  Framing.from_some (l ← Framing.unframe b; f l).

Definition ex_header (h : CommonHeader) : bytes := Framing.frame [ChannelHeader h; SignatureHeader h].

Definition ex_unheader : bytes → result CommonHeader :=
  ex_fields (λ l, match l with [c; s] => Some (mkHeader c s) | _ => None end).

Definition ex_channel (c : ChannelMsg) : bytes :=
  Framing.frame [Framing.pack (cm_Type c, cm_Version c, cm_Timestamp c, cm_Epoch c);
                 cm_ChannelId c; cm_TxId c; cm_Extension c; cm_TlsCertHash c].

Definition ex_unchannel : bytes → result ChannelMsg :=
  ex_fields (λ l, match l with
    | [n; id; tx; e; h] =>
        '(t, v, ts, ep) ← Framing.unpack (A := Z * Z * option (Z * Z) * Z) n;
        Some (mkChannelMsg t v ts id tx ep e h)
    | _ => None end).

Definition ex_cpp (cpp : bytes * gmap string bytes) : bytes :=
  Framing.frame [cpp.1; Framing.pack (map_to_list cpp.2)].

Definition ex_uncpp : bytes → result (bytes * gmap string bytes) :=
  ex_fields (λ l, match l with
    | [input; m] => m ← Framing.unpack (A := list (string * bytes)) m; Some (input, list_to_map m)
    | _ => None end).

Definition ex_spec (id : ChaincodeID) (input : ChaincodeInput) : bytes :=
  Framing.frame [cid_Path id; cid_Name id; cid_Version id; Framing.pack (in_IsInit input);
                 Framing.frame (in_Args input)].

Definition ex_unspec : bytes → result (option InvokedSpec) :=
  ex_fields (λ l, match l with
    | [p; n; v; i; args] =>
        i ← Framing.unpack i; args ← Framing.unframe args;
        Some (Some (mkInvokedSpec (Some (mkChaincodeID p n v)) (Some (mkInput args i))))
    | _ => None end).

#[local] Instance ex_util : ProtoUtil := {|
  efab_Parse _ _ := Err (EExt "unused");
  UnmarshalProposal b := Ok (mkProposal b "" "");
  UnmarshalHeader := ex_unheader;
  UnmarshalChannelHeader b := (c ← ex_unchannel b; Ok (hdr_of c));
  UnmarshalSignatureHeader b := Ok b;
  UnmarshalPayload := ex_fields (λ l, match l with
    | [h; d] => match ex_unheader h with Ok h => Some (Some h, d) | Err _ => None end
    | _ => None end);
  UnmarshalHeaderExtension _ := Ok None;
  UnmarshalChaincodeProposalPayload := ex_uncpp;
  UnmarshalChaincodeInvocationSpec b := (s ← ex_unspec b; Ok (option_map spec_of s));
  GetProposalHash1 _ _ := Ok "hash";
  UnmarshalTx b := Framing.from_some (nt_Tx <$> ex_unnative b);
  MarshalTx tx := Ok (ex_native (mkNative tx []));
  NsASN1Marshal ns tx md := Ok (NsId ns +:+ tx) |}.

#[local] Instance ex_lib : PackagerLib := {|
  marshal_Identity id :=
    match Instances.split_colon (id.1 +:+ ":" +:+ id.2) with
    | Some p => if bool_decide (p = id) then Ok (id.1 +:+ ":" +:+ id.2) else Err (EExt "colon")
    | None => Err (EExt "colon")
    end;
  unmarshal_Native b := Framing.from_some (ex_unnative b);
  marshal_Native n := Ok (ex_native n);
  unmarshal_ChannelMsg := ex_unchannel;
  marshal_ChannelMsg c := Ok (ex_channel c);
  unmarshal_SignatureMsg := ex_fields (λ l, match l with
    | [c; n] => Some (mkSignatureMsg c n) | _ => None end);
  marshal_SignatureMsg s := Ok (Framing.frame [sm_Creator s; sm_Nonce s]);
  marshal_Header := ex_header;
  marshal_Payload h d := Ok (Framing.frame [ex_header h; d]);
  ComputeTxID nonce creator := nonce +:+ creator;
  unmarshal_InvokedSpec := ex_unspec;
  unmarshal_ExtensionID b := Ok (Some (mkChaincodeID "" b ""));
  GetBytesProposalPayloadForTx cpp := Ok (ex_cpp (cpp.1, ∅));
  GetProposalHash2 _ _ := Ok "hash";
  marshal_ChaincodeEvent e := Ok (Events.pe_EventName e);
  GetBytesProposalResponsePayload hash r res ev id :=
    Ok (Framing.frame [hash; Framing.frame [Framing.pack (Status r); Message r; Payload r; res; ev; cid_Version id]]);
  unmarshal_ProposalResponsePayload := ex_fields (λ l, match l with [_; e] => Some e | _ => None end);
  unmarshal_ChaincodeAction := ex_fields (λ l, match l with
    | [s; m; p; res; _; _] => s ← Framing.unpack s; Some (Some (mkResponse s m p), res)
    | _ => None end);
  marshal_ActionPayload pp rp es :=
    Ok (Framing.frame [pp; rp; Framing.frame_all (λ e, Framing.frame [Endorser e; Signature e]) es]);
  unmarshal_ActionPayload := ex_fields (λ l, match l with [pp; rp; _] => Some (pp, Some rp) | _ => None end);
  marshal_Transaction l := Ok (Framing.frame_all (λ a, Framing.frame [a.1; a.2]) l);
  unmarshal_Transaction b := Framing.from_some (Framing.unframe_all (λ x,
    match Framing.unframe x with Some [a; b] => Some (a, b) | _ => None end) b) |}.

#[local] Instance ex_metadata : MetadataProto := {|
  unmarshal_Metadata := ex_fields (λ l, match l with
    | [n; e; p; args] => args ← Framing.unframe args; Some (mkMetadata n e p args)
    | _ => None end) |}.

Lemma ex_unnamespace_namespace ns : ex_unnamespace (ex_namespace ns) = Some ns.
Proof.
  unfold ex_unnamespace, ex_namespace. rewrite Framing.unframe_frame. cbn [mbind option_bind].
  repeat (rewrite Framing.unpack_pack; cbn [mbind option_bind]). by destruct ns.
Qed.

Lemma ex_unwith_with e : ex_unwith_identity (ex_with_identity e) = Some e.
Proof.
  unfold ex_unwith_identity, ex_with_identity. rewrite Framing.unframe_frame, Framing.unpack_pack.
  by destruct e.
Qed.

Lemma ex_unnative_native n : ex_unnative (ex_native n) = Some n.
Proof.
  unfold ex_unnative, ex_native. rewrite Framing.unframe_frame.
  rewrite (Framing.unframe_all_frame _ _ ex_unnamespace_namespace), Framing.unframe_frame.
  rewrite (Framing.unframe_all_frame _ _ (Framing.unframe_all_frame _ _ ex_unwith_with)).
  by destruct n as [[] ].
Qed.

Lemma ex_fields_frame {A} (f : list bytes → option A) l :
  ex_fields f (Framing.frame l) = Framing.from_some (f l).
Proof. unfold ex_fields. by rewrite Framing.unframe_frame. Qed.

Lemma ex_laws : PackagerLaws.
Proof.
  split; cbn [marshal_Native unmarshal_Native marshal_Identity marshal_ChannelMsg unmarshal_ChannelMsg
    marshal_SignatureMsg marshal_Header UnmarshalHeader marshal_Payload UnmarshalPayload
    UnmarshalChannelHeader UnmarshalChaincodeInvocationSpec unmarshal_InvokedSpec
    GetBytesProposalPayloadForTx UnmarshalChaincodeProposalPayload ex_lib ex_util is_ok].
  - intros n b [= <-]. by rewrite ex_unnative_native.
  - intros id b H. destruct (Instances.split_colon _) as [q|] eqn:Hq; [|done].
    case_bool_decide as He; [|done]. injection H as <-. subst q.
    cbn [Msp.unmarshal_Identity Instances.example_msp]. unfold Instances.decode_pair. by rewrite Hq.
  - intros c b [= <-]. unfold ex_unchannel, ex_channel. rewrite ex_fields_frame.
    rewrite Framing.unpack_pack. by destruct c.
  - done.
  - done.
  - done.
  - intros h. unfold ex_unheader, ex_header. rewrite ex_fields_frame. by destruct h.
  - done.
  - intros h d b [= <-]. split; [|exact (Framing.frame_nonempty (ex_header h) [d])].
    rewrite ex_fields_frame.
    unfold ex_unheader, ex_header. rewrite ex_fields_frame. by destruct h.
  - done.
  - intros cpp b [= <-]. split; [|done]. unfold ex_uncpp, ex_cpp. rewrite ex_fields_frame.
    cbn [fst snd]. by rewrite Framing.unpack_pack.
  - done.
  - intros h r res ev id b [= <-]. eexists.
    cbn [unmarshal_ProposalResponsePayload ex_lib]. rewrite ex_fields_frame. split; [reflexivity|].
    cbn [unmarshal_ChaincodeAction ex_lib]. rewrite ex_fields_frame, Framing.unpack_pack. by destruct r.
  - intros pp rp es b [= <-]. cbn [unmarshal_ActionPayload ex_lib]. by rewrite ex_fields_frame.
  - intros l b [= <-]. cbn [unmarshal_Transaction ex_lib]. rewrite Framing.unframe_all_frame; [done|].
    intros [x y]. by rewrite Framing.unframe_frame.
Qed.

(** A proposal to transfer, with transient data, endorsed by two organizations' helpers. *)
Definition ex_id : ChaincodeID := mkChaincodeID "" "cc:ns" "".
Definition ex_input : bytes := ex_spec ex_id (mkInput ["transfer"; "a1"] false).

Definition ex_hdr (creator : bytes) (type : Z) : bytes :=
  ex_header (mkHeader (ex_channel (mkChannelMsg type 0 None "ch" "n1alice" 0 "cc:ns" ""))
                      (Framing.frame [creator; "n1"])).

Definition ex_proposal : Proposal :=
  mkProposal (ex_hdr "alice" HeaderType_ENDORSER_TRANSACTION) (ex_cpp (ex_input, {["secret" := "s"]})) "".

Definition ex_helper_proposal : Proposal := mkProposal (ex_hdr "helper" 3) "" "".

Definition ex_reply : Response := mkResponse 200 "" "done".

Definition ex_binding : bytes :=
  Json.json_encode (Helper.binding_json "hash" "1.0" 4 ex_reply).

Definition ex_tx : bytes :=
  ex_native (mkNative (mkTx [mkTxNamespace "ns" 1 [] [] [("k", "v")]]
    [Framing.frame ["moved"; "e"; "done"; Framing.frame ["transfer"; "a1"]]; ex_binding]) []).

Definition ex_answer (endorser : bytes) : option ProposalResponse :=
  Some (mkProposalResponse (Some ex_reply) ex_tx (Some (mkEndorsement endorser "sig"))).

Definition ex_end : SdkEndorsement :=
  mkSdkEndorsement (Some ex_helper_proposal) [ex_answer "Org1MSP:peer"; ex_answer "Org2MSP:peer"].

Definition ex_prepared : bytes :=
  match createGatewayTransaction (Some ex_proposal) "1.0" ex_end with Ok b => b | Err _ => "" end.

Lemma ex_prepared_ok : createGatewayTransaction (Some ex_proposal) "1.0" ex_end = Ok ex_prepared.
Proof. vm_compute. reflexivity. Qed.

Lemma PackageTx_exact_witness :
  ∃ envelope, PackageTx ex_end = Ok envelope ∧
    ∃ used, NoDup (Endorser <$> used) ∧ ∀ x, x ∈ Endorser <$> used ↔ x ∈ ["Org1MSP:peer"; "Org2MSP:peer"].
Proof.
  destruct (PackageTx ex_end) as [envelope|e] eqn:He; [|vm_compute in He; discriminate He].
  exists envelope. split; [reflexivity|].
  destruct (PackageTx_exact (LW := ex_laws) ex_end envelope He)
    as (p & c & nonce & payload & n & es & cb & sb & b & used & _ & _ & _ & _ & _ & _ & _ & _ & _ & _ & _ & Hnd & Hin).
  exists used. split; [exact Hnd|exact Hin].
Defined.

Definition ex_envelope : Auth.Envelope := Auth.mkEnvelope ex_prepared "signed".

Lemma ex_parsed_function :
  (λ g, (Function (gp_Request g), Args (gp_Request g))) <$> parseGatewayTransaction (Some ex_envelope) =
  Ok ("transfer", ["a1"]).
Proof. vm_compute. reflexivity. Qed.

Lemma parseGatewayTransaction_sound_witness :
  ∃ g p, parseGatewayTransaction (Some ex_envelope) = Ok g ∧ end_Proposal (gp_Endorsement g) = Some p ∧
    createGatewayTransaction (Some p) (ChaincodeVersion (gp_Request g)) (gp_Endorsement g) =
      Ok (Auth.env_Payload ex_envelope).
Proof.
  pose proof ex_parsed_function as H.
  destruct (parseGatewayTransaction (Some ex_envelope)) as [g|e] eqn:He; [|discriminate H].
  destruct (parseGatewayTransaction_sound (LW := ex_laws) ex_envelope g He)
    as (p & response & results & record & metadata & sdk & Hp & Hc & _).
  exists g, p. split; [reflexivity|split; [exact Hp|exact Hc]].
Defined.

Lemma ex_canonical org : org = "Org1MSP:peer" ∨ org = "Org2MSP:peer" → canonical (mkEndorsement org "sig").
Proof.
  intros [->| ->]; (split; [discriminate|]);
    [exists ("Org1MSP", "peer")|exists ("Org2MSP", "peer")]; vm_compute; reflexivity.
Qed.

Lemma prepared_roundtrip_witness :
  ∃ g, parseGatewayTransaction (Some (Auth.mkEnvelope ex_prepared "signed")) = Ok g ∧
    Function (gp_Request g) = "transfer" ∧ Args (gp_Request g) = ["a1"].
Proof.
  destruct (prepared_roundtrip (LW := ex_laws) (JL := Json.example_json_laws) ex_proposal "1.0" ex_end
    ex_prepared "signed" "transfer" ["a1"]) as (g & Hg & _ & Hf & Ha & _).
  - exact ex_prepared_ok.
  - exists (mkHeader (ex_channel (mkChannelMsg 3 0 None "ch" "n1alice" 0 "cc:ns" ""))
              (Framing.frame ["alice"; "n1"])), (mkChannelMsg 3 0 None "ch" "n1alice" 0 "cc:ns" ""),
      (ex_input, {["secret" := "s"]}), (mkChaincodeID "" "cc:ns" ""), false.
    split_and!; [vm_compute; reflexivity..|discriminate].
  - apply (bool_decide_unpack _). vm_compute. exact I.
  - repeat constructor; apply ex_canonical; auto.
  - reflexivity.
  - reflexivity.
  - exists g. split; [exact Hg|split; [exact Hf|exact Ha]].
Defined.

End Packager.
