(* ===== verification/LifecycleAuth.v ===== *)
(** Signed lifecycle requests, [pkg/lifecycle/request.go], and their authorization,
    [pkg/lifecycle/auth.go].

    Times are nanoseconds; [now] and the second reading of the clock are arguments.
    Reading certificate files, the random source and protobuf marshalling of an
    identity are parameters. *)
From Stdlib Require Import ZArith Lia.
From stdpp Require Import base option list strings gmap sets.
From S2P Require Import Prelude LifecycleStore Json Msp OrchestratorTypes EndorsementPolicy.
From S2P Require Import Instances.
Import Json.
Local Open Scope Z_scope.

Module LifecycleAuth.

Definition OperationInstall : string := "install".
Definition OperationQueryInstalled : string := "queryinstalled".
Definition OperationApprove : string := "approveformyorg".
Definition OperationReadiness : string := "checkcommitreadiness".
Definition OperationCommit : string := "commit".
Definition OperationQueryCommitted : string := "querycommitted".
Definition OperationMarkInitialized : string := "markinitialized".
Definition requestVersion : Z := 1.
Definition requestNonceSize : nat := 24.
Definition requestMaxAge : Z := 300000000000.
Definition localOnlyMetadata : string := "x-compat-lifecycle-local-only".

Definition publicOperations : list string :=
  [OperationInstall; OperationQueryInstalled; OperationApprove; OperationReadiness;
   OperationCommit; OperationQueryCommitted].

(** ** Requests *)

Record SignedRequest := mkSignedRequest {
  Version : Z;
  ChannelID : string;
  Operation : string;
  Internal : bool;
  IssuedAt : Z;
  Nonce : bytes;
  Payload : bytes;
  Creator : bytes;
  Signature : bytes }.

(** The request types, one per operation. *)
Inductive RequestPayload : Type :=
  | InstallRequest (package : bytes)
  | QueryInstalledRequest
  | ApproveForMyOrgRequest (d : Store.ChaincodeDefinition) (packageID : string)
  | CheckCommitReadinessRequest (d : Store.ChaincodeDefinition)
  | CommitRequest (d : Store.ChaincodeDefinition)
  | QueryCommittedRequest (name version : string)
  | MarkInitializedRequest (d : Store.ChaincodeDefinition).

Definition operationForPayload (p : RequestPayload) : string :=
  match p with
  | InstallRequest _ => OperationInstall
  | QueryInstalledRequest => OperationQueryInstalled
  | ApproveForMyOrgRequest _ _ => OperationApprove
  | CheckCommitReadinessRequest _ => OperationReadiness
  | CommitRequest _ => OperationCommit
  | QueryCommittedRequest _ _ => OperationQueryCommitted
  | MarkInitializedRequest _ => OperationMarkInitialized
  end.

Definition internalOperation (operation : string) : bool :=
  bool_decide (operation = OperationReadiness) || bool_decide (operation = OperationCommit) ||
  bool_decide (operation = OperationMarkInitialized).

(** The anonymous struct of [signingBytes]. *)
Definition signing_json (r : SignedRequest) : jobject :=
  [("domain", JString "compat.lifecycle.request"); ("version", JNumber (Version r));
   ("channel_id", JString (ChannelID r)); ("operation", JString (Operation r));
   ("internal", JBool (Internal r)); ("issued_at", JNumber (IssuedAt r));
   ("nonce", JBytes (Nonce r)); ("creator", JBytes (Creator r)); ("payload", JBytes (Payload r))].

Section Requests.
Context {J : JSONText}.

Definition signingBytes (r : SignedRequest) : bytes := json_encode (signing_json r).

(** [sdk.Signer]; nil is [None]. *)
Record Signer := mkSigner { Serialize : result bytes; Sign : bytes → result bytes }.

Definition with_signature (sig : bytes) (r : SignedRequest) : SignedRequest :=
  mkSignedRequest (Version r) (ChannelID r) (Operation r) (Internal r) (IssuedAt r) (Nonce r)
    (Payload r) (Creator r) sig.

(** [body] is [json.Marshal(payload)], [random] what [rand.Read] gave. *)
Definition signRequest (signer : option Signer) (channelID : string) (payload : RequestPayload)
    (body : bytes) (internal : bool) (now : Z) (random : result bytes) : result SignedRequest :=
  match signer with
  | None => Err (ENew "lifecycle signer and channel are required")
  | Some signer =>
      if bool_decide (channelID = "") then Err (ENew "lifecycle signer and channel are required")
      else
        let operation := operationForPayload payload in
        if (internal && negb (internalOperation operation)) ||
           (negb internal && bool_decide (operation = OperationMarkInitialized))
        then Err (ENew "operation %s is not available in this lifecycle request mode")
        else
          creator ← Msp.wrap_err "serialize lifecycle creator: %w" (Serialize signer);
          nonce ← Msp.wrap_err "create lifecycle nonce: %w" random;
          let req := mkSignedRequest requestVersion channelID operation internal now nonce body
                       creator "" in
          signature ← Msp.wrap_err "sign lifecycle request: %w" (Sign signer (signingBytes req));
          Ok (with_signature signature req)
  end.

(** ** Configuration *)

Record OrchestratorIdentity := mkOrchestrator { oi_MSPID : string; oi_CertPath : string }.

Record AuthConfig := mkAuthConfig {
  Policies : gmap string string;
  Orchestrators : list OrchestratorIdentity }.

Fixpoint require_policies (l : list string) (policies : gmap string string) : result () :=
  match l with
  | [] => Ok ()
  | operation :: rest =>
      if bool_decide (default "" (policies !! operation) = "")
      then Err (ENew "lifecycle-auth.policies.%s is required")
      else require_policies rest policies
  end.

Fixpoint require_orchestrators (l : list OrchestratorIdentity) : result () :=
  match l with
  | [] => Ok ()
  | i :: rest =>
      if bool_decide (oi_MSPID i = "") || bool_decide (oi_CertPath i = "")
      then Err (ENew "lifecycle-auth.orchestrators requires msp-id and cert-path")
      else require_orchestrators rest
  end.

Definition Validate (c : AuthConfig) : result () :=
  require_policies publicOperations (Policies c);;
  guard_err (negb (size (Policies c) =? length publicOperations)%nat)
    (ENew "lifecycle-auth.policies contains an unknown operation");;
  guard_err (bool_decide (length (Orchestrators c) = 0%nat))
    (ENew "lifecycle-auth.orchestrators is required");;
  require_orchestrators (Orchestrators c).

Context {L : Msp.MSPLib}.

Record Authorizer := mkAuthorizer {
  trust : Msp.Verifier;
  a_channelID : string;
  a_mspID : string;
  policies : gmap string Msp.policy;
  orchestrators : gset string }.

Definition identityKey (id : Msp.identity) : string :=
  (Msp.GetIdentifier id).1 +:+ "|" +:+ (Msp.GetIdentifier id).2.

Fixpoint compile_policies (v : Msp.Verifier) (l : list string) (cfg : gmap string string)
    : result (gmap string Msp.policy) :=
  match l with
  | [] => Ok ∅
  | operation :: rest =>
      p ← Msp.wrap_err "lifecycle policy %s: %w"
            (Msp.CompilePolicy (Some v) (default "" (cfg !! operation)));
      ps ← compile_policies v rest cfg;
      Ok (<[operation := p]> ps)
  end.

(** [ReadFile] and [MarshalIdentity] are [os.ReadFile] and [proto.Marshal]. *)
Fixpoint load_orchestrators (ReadFile : string → result bytes)
    (MarshalIdentity : string → bytes → result bytes) (v : Msp.Verifier) (now : Z)
    (l : list OrchestratorIdentity) (known : gset string) : result (gset string) :=
  match l with
  | [] => Ok known
  | entry :: rest =>
      cert ← Msp.wrap_err "read Orchestrator certificate: %w" (ReadFile (oi_CertPath entry));
      creator ← MarshalIdentity (oi_MSPID entry) cert;
      id ← Msp.wrap_err "configured Orchestrator %s: %w" (Msp.Identity (Some v) creator now);
      guard_err (bool_decide (identityKey id ∈ known))
        (ENew "duplicate Orchestrator enrollment identity for MSP %s");;
      load_orchestrators ReadFile MarshalIdentity v now rest ({[identityKey id]} ∪ known)
  end.

Definition NewAuthorizer (ReadFile : string → result bytes)
    (MarshalIdentity : string → bytes → result bytes) (v : option Msp.Verifier)
    (channelID mspID : string) (cfg : AuthConfig) (now : Z) : result Authorizer :=
  match v with
  | None => Err (ENew "lifecycle authorization requires MSP trust, channel, and local MSP ID")
  | Some v =>
      guard_err (bool_decide (channelID = "") || bool_decide (mspID = ""))
        (ENew "lifecycle authorization requires MSP trust, channel, and local MSP ID");;
      Validate cfg;;
      ps ← compile_policies v publicOperations (Policies cfg);
      os ← load_orchestrators ReadFile MarshalIdentity v now (Orchestrators cfg) ∅;
      Ok (mkAuthorizer v channelID mspID ps os)
  end.

Definition ValidateOrchestrator (a : Authorizer) (creator : bytes) (now : Z) : result () :=
  id ← Msp.Identity (Some (trust a)) creator now;
  guard_err (negb (bool_decide (identityKey id ∈ orchestrators a)))
    (ENew "local signing identity is not in lifecycle-auth.orchestrators").

(** ** Authorization *)

Definition denied {A} (msg : string) : result A := Err (EStatus CodePermissionDenied (ENew msg)).
Definition unauthenticated {A} (msg : string) : result A :=
  Err (EStatus CodeUnauthenticated (ENew msg)).

Fixpoint check_mode (values : list string) (internal : bool) : result () :=
  match values with
  | [] => Ok ()
  | v :: rest =>
      if (negb (bool_decide (v = "true")) && negb (bool_decide (v = "false"))) ||
         negb (eqb (bool_decide (v = "true")) internal)
      then denied "local-only metadata conflicts with the signed lifecycle request mode"
      else check_mode rest internal
  end.

Definition local_operation (operation : string) : bool :=
  bool_decide (operation = OperationInstall) || bool_decide (operation = OperationQueryInstalled) ||
  bool_decide (operation = OperationApprove).

(** [now] is the time of authentication, [now'] of the age check. *)
Definition check (a : option Authorizer) (now now' : Z) (md : string → list string)
    (req : option SignedRequest) (operation : string) : result string :=
  match a, req with
  | None, _ => unauthenticated "lifecycle authorization is not configured"
  | _, None => unauthenticated "signed lifecycle request is required"
  | Some a, Some req =>
      match Msp.Authenticate (Some (trust a)) (Creator req) (signingBytes req) (Signature req) now with
      | Err e => Err (EStatus CodeUnauthenticated e)
      | Ok id =>
          guard_err (negb (Version req =? requestVersion) ||
                     negb (String.length (Nonce req) =? requestNonceSize)%nat ||
                     bool_decide (Payload req = ""))
            (EStatus CodeInvalidArgument (ENew "invalid lifecycle request envelope"));;
          guard_err (negb (bool_decide (ChannelID req = a_channelID a)) ||
                     negb (bool_decide (Operation req = operation)))
            (EStatus CodePermissionDenied
               (ENew "lifecycle request channel or operation does not match"));;
          guard_err ((IssuedAt req <? now' - requestMaxAge) || (now' + requestMaxAge <? IssuedAt req))
            (EStatus CodeUnauthenticated (ENew "lifecycle request is outside its validity window"));;
          check_mode (md localOnlyMetadata) (Internal req);;
          if Internal req then
            if negb (internalOperation operation) ||
               negb (bool_decide (identityKey id ∈ orchestrators a))
            then denied "caller is not an authorized lifecycle Orchestrator"
            else Ok (Msp.GetMSPIdentifier id)
          else
            guard_err (local_operation operation &&
                       negb (bool_decide (Msp.GetMSPIdentifier id = a_mspID a)))
              (EStatus CodePermissionDenied
                 (ENew "operation requires an identity from the local organization"));;
            match policies a !! operation with
            | None => denied "caller is not authorized for lifecycle %s"
            | Some p =>
                match Msp.EvaluateIdentities p [id] with
                | Some _ => denied "caller is not authorized for lifecycle %s"
                | None => Ok (Msp.GetMSPIdentifier id)
                end
            end
      end
  end.

(** ** Lemmas *)

Lemma check_mode_ok values internal :
  check_mode values internal = Ok () ↔
  Forall (λ v, v = (if internal then "true" else "false")) values.
Proof.
  induction values as [|v values IH]; cbn [check_mode]; [by rewrite Forall_nil|].
  rewrite Forall_cons, <- IH.
  destruct (decide (v = "true")) as [->|Ht]; [destruct internal; cbn; naive_solver|].
  rewrite (bool_decide_eq_false_2 (v = "true")) by done.
  destruct (decide (v = "false")) as [->|Hf]; [destruct internal; cbn; naive_solver|].
  rewrite (bool_decide_eq_false_2 (v = "false")) by done. destruct internal; cbn; naive_solver.
Qed.

(** What the sender of a request of this operation must be. *)
Definition may_call (a : Authorizer) (id : Msp.identity) (operation : string) (internal : bool)
    : Prop :=
  if internal
  then internalOperation operation = true ∧ identityKey id ∈ orchestrators a
  else (local_operation operation = true → Msp.GetMSPIdentifier id = a_mspID a) ∧
       ∃ p, policies a !! operation = Some p ∧ Msp.EvaluateIdentities p [id] = None.

Lemma signing_json_inj r1 r2 :
  signing_json r1 = signing_json r2 →
  with_signature "" r1 = with_signature "" r2.
Proof.
  destruct r1, r2. unfold signing_json, JBytes, with_signature. simpl.
  intros [= -> -> -> -> -> H1 H2 H3].
  apply base64_inj in H1, H2, H3. by subst.
Qed.

(** ** Properties *)

(** C33: A lifecycle request is accepted for an operation exactly when its signature over
    its own signing bytes authenticates a trusted identity, its version, nonce and payload
    are well formed, it was issued for this channel and this very operation within five
    minutes of now, the transport's mode assertion agrees with the signed one, and the
    sender may call it: an internal request only a configured orchestrator and only the
    internal operations, a public one only an identity its policy accepts, of the local
    organization where the operation is local. *)
Theorem check_exact a now now' md req operation msp :
  check (Some a) now now' md (Some req) operation = Ok msp ↔
  ∃ id, Msp.authentic (trust a) (Creator req) (signingBytes req) (Signature req) now id ∧
    msp = Msp.GetMSPIdentifier id ∧
    Version req = 1 ∧ String.length (Nonce req) = 24%nat ∧ Payload req ≠ "" ∧
    ChannelID req = a_channelID a ∧ Operation req = operation ∧
    Z.abs (now' - IssuedAt req) <= requestMaxAge ∧
    Forall (λ v, v = (if Internal req then "true" else "false")) (md localOnlyMetadata) ∧
    may_call a id operation (Internal req).
Proof.
  unfold check. split.
  - destruct (Msp.Authenticate _ _ _ _ _) as [id|e] eqn:Hau; [|done]. intros H.
    apply Msp.Authenticate_ok in Hau.
    apply bind_ok in H as ([] & Hg1 & H). apply guard_err_ok in Hg1. bool_props.
    apply bind_ok in H as ([] & Hg2 & H). apply guard_err_ok in Hg2. bool_props.
    apply bind_ok in H as ([] & Hg3 & H). apply guard_err_ok in Hg3. bool_props.
    apply bind_ok in H as ([] & Hg4 & H). apply check_mode_ok in Hg4.
    match goal with Hn : (_ =? _)%nat = true |- _ => apply Nat.eqb_eq in Hn end.
    exists id. unfold may_call.
    destruct (Internal req) eqn:Hint.
    + destruct (_ || _) eqn:E; [done|]. injection H as <-. bool_props. split_and!; try done. lia.
    + apply bind_ok in H as ([] & Hg5 & H). apply guard_err_ok in Hg5.
      destruct (policies a !! operation) as [p|]; [|done].
      destruct (Msp.EvaluateIdentities p [id]) eqn:Hp; [done|]. injection H as <-.
      split_and!; try done; [lia| |by exists p].
      intros Hl. rewrite Hl in Hg5. simpl in Hg5. by bool_props.
  - intros (id & Hau & -> & Hv & Hn & Hp & Hc & Ho & Ht & Hm & Hcall).
    apply check_mode_ok in Hm. apply Msp.Authenticate_ok in Hau. rewrite Hau, Hv, Hn, Hc, Ho.
    rewrite (bool_decide_eq_false_2 (Payload req = "")) by done.
    rewrite (bool_decide_eq_true_2 (a_channelID a = a_channelID a)) by done.
    rewrite (bool_decide_eq_true_2 (operation = operation)) by done. cbn [orb negb].
    change (1 =? requestVersion) with true. change (24 =? requestNonceSize)%nat with true.
    cbn [negb orb guard_err mbind result_mbind].
    replace (IssuedAt req <? now' - requestMaxAge) with false by lia.
    replace (now' + requestMaxAge <? IssuedAt req) with false by lia.
    cbn [orb guard_err mbind result_mbind]. rewrite Hm. cbn [mbind result_mbind].
    unfold may_call in Hcall. destruct (Internal req).
    + destruct Hcall as [-> Hk]. by rewrite bool_decide_eq_true_2.
    + destruct Hcall as (Hl & p & Hpol & Hev). rewrite Hpol, Hev.
      destruct (local_operation operation); [|done].
      by rewrite (bool_decide_eq_true_2 _ (Hl eq_refl)).
Qed.

(** A signature over a lifecycle request binds everything but itself: requests with the
    same signing bytes agree on version, channel, operation, mode, time of issue, nonce,
    payload and creator. *)
Theorem signing_bytes_bind {JL : JSONLaws} r1 r2 :
  valid_utf8 (ChannelID r1) = true → valid_utf8 (Operation r1) = true →
  valid_utf8 (ChannelID r2) = true → valid_utf8 (Operation r2) = true →
  signingBytes r1 = signingBytes r2 →
  Version r1 = Version r2 ∧ ChannelID r1 = ChannelID r2 ∧ Operation r1 = Operation r2 ∧
  Internal r1 = Internal r2 ∧ IssuedAt r1 = IssuedAt r2 ∧ Nonce r1 = Nonce r2 ∧
  Payload r1 = Payload r2 ∧ Creator r1 = Creator r2.
Proof.
  intros Hc1 Ho1 Hc2 Ho2 H.
  assert (Hvalid : ∀ r, valid_utf8 (ChannelID r) = true → valid_utf8 (Operation r) = true →
    valid_object (signing_json r) = true).
  { intros r Hc Ho. assert (Hascii : ∀ s,
      forallb (λ a, byte_of a <? 128) (String.list_ascii_of_string s) = true →
      valid_utf8 s = true) by apply valid_utf8_ascii.
    unfold valid_object, signing_json. cbn [forallb fst snd].
    rewrite !JBytes_valid. cbn [valid_scalar]. rewrite Hc, Ho, !Hascii by done. done. }
  apply json_encode_inj in H; [|by apply Hvalid..].
  apply signing_json_inj in H. destruct r1, r2. unfold with_signature in H. simpl in *.
  by injection H as -> -> -> -> -> -> -> ->.
Qed.

End Requests.

(** ** Witnesses *)

Definition ex_authorizer : Authorizer (L := Instances.example_msp) :=
  mkAuthorizer (L := Instances.example_msp) (Msp.mkVerifier (L := Instances.example_msp) (Some ()) {["Org1MSP"]})
    "ch" "Org1MSP" ∅ {["Org1MSP|orch"]}.

Definition ex_request : SignedRequest :=
  mkSignedRequest 1 "ch" OperationCommit true 0 "abcdefghijklmnopqrstuvwx" "{}" "Org1MSP:orch" "orch".

Lemma check_exact_witness :
  check (J := example_json) (Some ex_authorizer) 50 50 (λ _, ["true"]) (Some ex_request)
    OperationCommit = Ok "Org1MSP" ∧
  ∃ id, Msp.authentic (L := Instances.example_msp) (trust ex_authorizer) "Org1MSP:orch"
      (signingBytes (J := example_json) ex_request) "orch" 50 id ∧
    may_call ex_authorizer id OperationCommit true.
Proof.
  split; [vm_compute; reflexivity|].
  destruct (proj1 (check_exact (J := example_json) ex_authorizer 50 50 (λ _, ["true"]) ex_request
    OperationCommit "Org1MSP")) as (id & Hau & _ & _ & _ & _ & _ & _ & _ & _ & Hcall);
    [vm_compute; reflexivity|].
  exists id. split; [exact Hau|exact Hcall].
Defined.

Lemma signing_bytes_bind_witness :
  signingBytes (J := example_json) ex_request =
    signingBytes (J := example_json) (with_signature "other" ex_request) ∧
  Nonce ex_request = Nonce (with_signature "other" ex_request).
Proof.
  split; [reflexivity|].
  destruct (signing_bytes_bind (J := example_json) (JL := example_json_laws) ex_request
    (with_signature "other" ex_request)) as (_ & _ & _ & _ & _ & Hn & _);
    [reflexivity..|exact Hn].
Defined.

End LifecycleAuth.
