(* ===== verification/Config.v ===== *)
(** Configuration: endpoints, TLS and client settings of [pkg/config/config.go], the resolver
    settings of [orchestrator/resolver.go] and [remote_resolver.go], and the orchestrator's
    [Config] of [service.go] with its validation.

    Durations are nanoseconds; the server settings belong to a library, of which only whether
    the endpoint is empty matters.  A nil endpoint that is dereferenced is [None]. *)
From Stdlib Require Import ZArith Lia.
From stdpp Require Import base option list strings gmap sets.
From S2P Require Import Prelude LifecycleStore OrchestratorTypes GoStrings Json Msp Auth LifecycleAuth.
Local Open Scope Z_scope.

Module Config.

(** ** Endpoints and clients *)

Record Endpoint := mkEndpoint { Host : string; Port : Z }.

Record TLSConfig := mkTLS {
  Mode : string;
  CertPath : string;
  KeyPath : string;
  CACertPaths : list string;
  ServerName : string }.

Definition no_tls : TLSConfig := mkTLS "" "" "" [] "".

#[export] Instance Endpoint_eq_dec : EqDecision Endpoint.
Proof. solve_decision. Defined.
#[export] Instance TLSConfig_eq_dec : EqDecision TLSConfig.
Proof. solve_decision. Defined.

Definition Endpoint_Address (e : Endpoint) : string :=
  GoStrings.JoinHostPort (Host e) (GoStrings.FormatInt (Port e)).

(** [network.PeerConf] and [network.OrdererConf]. *)
Record PeerConf := mkPeerConf { pc_Address : string; pc_TLS : TLSConfig }.

Record ClientConfig := mkClientConfig { cl_Endpoint : option Endpoint; cl_TLS : TLSConfig }.

Definition ToPeerConf (c : ClientConfig) : option PeerConf :=
  e ← cl_Endpoint c; Some (mkPeerConf (Endpoint_Address e) (cl_TLS c)).

Definition ToOrdererConf (c : ClientConfig) : option PeerConf :=
  e ← cl_Endpoint c; Some (mkPeerConf (Endpoint_Address e) (cl_TLS c)).

Record ChaincodeServiceConfig := mkChaincodeService {
  cs_Endpoint : option Endpoint;
  cs_TLS : TLSConfig }.

Definition ChaincodeServiceConfig_Address (c : ChaincodeServiceConfig) : string :=
  match cs_Endpoint c with None => "" | Some e => Endpoint_Address e end.

Record IdentityConfig := mkIdentityConfig { MspID : string; MSPDir : string }.

(** Whether the endpoint of the server settings is empty. *)
Record ServerConfig := mkServerConfig { sv_EndpointEmpty : bool }.

(** [errors.Join(errs...)]: nil without an error. *)
Fixpoint errors_Join (errs : list goerr) : option goerr :=
  match errs with
  | [] => None
  | e :: rest => match errors_Join rest with None => Some e | Some r => Some (EJoin e r) end
  end.

(** [if cond { errs = append(errs, errors.New(msg)) }]. *)
Definition check (cond : bool) (msg : string) : list goerr := if cond then [ENew msg] else [].

(** [if err := f(); err != nil { errs = append(errs, err) }]. *)
Definition collect {A} (r : result A) : list goerr := match r with Ok _ => [] | Err e => [e] end.

Definition is_nil {A} (o : option A) : bool := match o with None => true | Some _ => false end.

(** [config.Config], the helper's settings that validation reads. *)
Record HelperConfig := mkHelperConfig {
  h_ChannelID : string;
  h_Namespace : string;
  h_Server : option ServerConfig;
  h_QueryService : ClientConfig;
  h_ChaincodeService : ChaincodeServiceConfig;
  h_Identity : option IdentityConfig;
  h_Protocol : string }.

Definition HelperConfig_Validate (cfg : HelperConfig) : option goerr :=
  errors_Join
    (check (bool_decide (h_ChannelID cfg = "")) "channel-id is required" ++
     check (bool_decide (h_Namespace cfg = "")) "namespace is required" ++
     check (negb (bool_decide (h_Protocol cfg = "")) && negb (bool_decide (h_Protocol cfg = "fabric-x")))
       "protocol must be fabric-x" ++
     check (is_nil (h_Identity cfg)) "identity is required" ++
     check (is_nil (cl_Endpoint (h_QueryService cfg))) "query-service.endpoint is required" ++
     check (is_nil (cs_Endpoint (h_ChaincodeService cfg))) "chaincode-service.endpoint is required" ++
     check (is_nil (h_Server cfg)) "server configuration is required").

(** ** Resolvers *)

Record RemoteOrchestratorConfig := mkRemote {
  ro_MSPID : string;
  ro_Endpoint : option Endpoint;
  ro_TLS : TLSConfig }.

Definition Remote_Address (c : RemoteOrchestratorConfig) : string :=
  match ro_Endpoint c with None => "" | Some e => Endpoint_Address e end.

Definition Remote_ToPeerConf (c : RemoteOrchestratorConfig) : PeerConf :=
  mkPeerConf (Remote_Address c) (ro_TLS c).

Record StaticChaincodeConnectionConfig := mkStaticConnection {
  sc_ChannelID : string;
  sc_MSPID : string;
  sc_Name : string;
  sc_Version : string;
  sc_Sequence : Z;
  sc_PackageID : string;
  sc_Address : string;
  sc_Endpoint : option Endpoint;
  sc_TLS : TLSConfig }.

(** The dynamic part of both resolvers; [dyn_MSPIDs] and [dyn_ContactTLS] belong to the remote
    one. *)
Record DynamicResolverConfig := mkDynamic {
  dyn_MSPIDs : list string;
  dyn_Endpoint : option Endpoint;
  dyn_TLS : TLSConfig;
  dyn_ContactTLS : TLSConfig;
  dyn_Timeout : Z }.

Record ChaincodeResolverConfig := mkChaincodeResolver {
  cr_Static : list StaticChaincodeConnectionConfig;
  cr_Dynamic : option DynamicResolverConfig }.

Record RemoteResolverConfig := mkRemoteResolver {
  rr_Static : list RemoteOrchestratorConfig;
  rr_Dynamic : option DynamicResolverConfig }.

(** ** The orchestrator *)

Record Config := mkConfig {
  ChannelID : string;
  Namespace : string;
  LifecycleNamespace : string;
  Protocol : string;
  Server : option ServerConfig;
  Identity : option IdentityConfig;
  QueryService : ClientConfig;
  ChaincodeSvc : ChaincodeServiceConfig;
  ChaincodeResolver : ChaincodeResolverConfig;
  Orderer : option ClientConfig;
  NotificationSvc : option ClientConfig;
  RemoteOrgs : list RemoteOrchestratorConfig;
  RemoteResolver : RemoteResolverConfig;
  ProposalAuth : Auth.ProposalAuthConfig;
  LifecycleAuthConfig : LifecycleAuth.AuthConfig;
  WaitAfterSubmit : Z;
  RequestTimeout : Z;
  FinalityTimeout : Z }.

Definition second : Z := 1000000000.

Definition requestTimeout (cfg : Config) : Z :=
  if RequestTimeout cfg >? 0 then RequestTimeout cfg else 60 * second.

Definition finalityTimeout (cfg : Config) : Z :=
  if FinalityTimeout cfg >? 0 then FinalityTimeout cfg else 30 * second.

(** The checks of one remote organization. *)
Definition check_remote (remote : RemoteOrchestratorConfig) : list goerr :=
  check (bool_decide (ro_MSPID remote = "")) "remote-orchestrators[%d].msp-id is required" ++
  check (match ro_Endpoint remote with
         | None => true
         | Some e => bool_decide (Host e = "") || (Port e =? 0)
         end) "remote-orchestrators[%d].endpoint is required".

Definition Validate (cfg : Config) : option goerr :=
  errors_Join
    (collect (Auth.validate (ProposalAuth cfg)) ++
     collect (LifecycleAuth.Validate (LifecycleAuthConfig cfg)) ++
     check (bool_decide (ChannelID cfg = "")) "channel-id is required" ++
     check (is_nil (Identity cfg)) "identity is required" ++
     match Server cfg with
     | None => [ENew "server configuration is required"]
     | Some s => check (sv_EndpointEmpty s) "server.endpoint is required"
     end ++
     check (is_nil (cl_Endpoint (QueryService cfg))) "query-service.endpoint is required" ++
     check (is_nil (Orderer cfg ≫= cl_Endpoint)) "orderer.endpoint is required" ++
     check (is_nil (NotificationSvc cfg ≫= cl_Endpoint)) "notification-service.endpoint is required" ++
     concat (map check_remote (RemoteOrgs cfg)) ++
     check (RequestTimeout cfg <? 0) "request-timeout must not be negative" ++
     check (FinalityTimeout cfg <? 0) "finality-timeout must not be negative" ++
     check ((RequestTimeout cfg >=? 0) && (FinalityTimeout cfg >=? 0) &&
            (requestTimeout cfg <? finalityTimeout cfg))
       "request-timeout must be greater than or equal to finality-timeout").

(** ** Lemmas *)

Lemma errors_Join_none errs : errors_Join errs = None ↔ errs = [].
Proof. destruct errs as [|e errs]; simpl; [done|]. by destruct (errors_Join errs). Qed.

Lemma check_nil cond msg : check cond msg = [] ↔ cond = false.
Proof. by destruct cond. Qed.

Lemma collect_nil {A} (r : result A) : collect r = [] ↔ is_ok r = true.
Proof. by destruct r. Qed.

Lemma concat_nil {A B} (f : A → list B) l : concat (map f l) = [] ↔ Forall (λ x, f x = []) l.
Proof.
  induction l as [|x l IH]; simpl; [by rewrite Forall_nil|]. rewrite app_nil, IH. by rewrite Forall_cons.
Qed.

(** Whether an endpoint can be dialled. *)
Definition reachable_endpoint (remote : RemoteOrchestratorConfig) : Prop :=
  ro_MSPID remote ≠ "" ∧ ∃ e, ro_Endpoint remote = Some e ∧ Host e ≠ "" ∧ Port e ≠ 0.

Lemma check_remote_nil remote : check_remote remote = [] ↔ reachable_endpoint remote.
Proof.
  unfold check_remote, reachable_endpoint. rewrite app_nil, !check_nil, bool_decide_eq_false.
  destruct (ro_Endpoint remote) as [e|].
  - rewrite orb_false_iff, bool_decide_eq_false, Z.eqb_neq. naive_solver.
  - split; [by intros []|]. by intros (_ & ? & ? & _).
Qed.

Lemma is_nil_false {A} (o : option A) : is_nil o = false ↔ is_Some o.
Proof. unfold is_Some. destruct o; simpl; naive_solver. Qed.

Lemma client_endpoint (o : option ClientConfig) : is_Some (o ≫= cl_Endpoint) ↔ is_Some (o ≫= ToPeerConf).
Proof.
  unfold is_Some, ToPeerConf. destruct o as [c|]; simpl; [|naive_solver].
  destruct (cl_Endpoint c); simpl; naive_solver.
Qed.

Lemma server_nil (o : option ServerConfig) :
  match o with
  | None => [ENew "server configuration is required"]
  | Some s => check (sv_EndpointEmpty s) "server.endpoint is required"
  end = [] ↔ ∃ s, o = Some s ∧ sv_EndpointEmpty s = false.
Proof. destruct o as [s|]; [rewrite check_nil|]; naive_solver. Qed.

(** What an accepted configuration has. *)
Definition complete (cfg : Config) : Prop :=
  is_ok (Auth.validate (ProposalAuth cfg)) = true ∧
  is_ok (LifecycleAuth.Validate (LifecycleAuthConfig cfg)) = true ∧ ChannelID cfg ≠ "" ∧
  is_Some (Identity cfg) ∧ (∃ s, Server cfg = Some s ∧ sv_EndpointEmpty s = false) ∧
  is_Some (ToPeerConf (QueryService cfg)) ∧ is_Some (Orderer cfg ≫= ToOrdererConf) ∧
  is_Some (NotificationSvc cfg ≫= ToPeerConf) ∧ Forall reachable_endpoint (RemoteOrgs cfg) ∧
  0 <= RequestTimeout cfg ∧ 0 <= FinalityTimeout cfg ∧ finalityTimeout cfg <= requestTimeout cfg.

(** ** Properties *)

(** C36: A configuration is accepted exactly when it is complete: nothing that the constructor
    dereferences is nil, and a request outlives the wait for its finality; both timeouts in effect
    are then positive. *)
Theorem Validate_exact cfg :
  (Validate cfg = None ↔ complete cfg) ∧
  (complete cfg → 0 < finalityTimeout cfg <= requestTimeout cfg).
Proof.
  split.
  - unfold Validate, complete. rewrite errors_Join_none, !app_nil, !collect_nil, !check_nil, concat_nil.
    rewrite !is_nil_false, bool_decide_eq_false, !Z.ltb_ge, server_nil, !client_endpoint.
    assert (Hr : Forall (λ x, check_remote x = []) (RemoteOrgs cfg) ↔ Forall reachable_endpoint (RemoteOrgs cfg))
      by (split; intros H; (eapply Forall_impl; [exact H|intros x; apply check_remote_nil])).
    rewrite Hr. change (Orderer cfg ≫= ToOrdererConf) with (Orderer cfg ≫= ToPeerConf).
    pose proof (client_endpoint (Some (QueryService cfg))) as Hq. cbn in Hq. rewrite Hq.
    assert (Ht : (RequestTimeout cfg >=? 0) && (FinalityTimeout cfg >=? 0) &&
      (requestTimeout cfg <? finalityTimeout cfg) = false ↔
      (0 <= RequestTimeout cfg → 0 <= FinalityTimeout cfg → finalityTimeout cfg <= requestTimeout cfg))
      by (rewrite !Z.geb_leb, !andb_false_iff, !Z.leb_gt, Z.ltb_ge; lia).
    rewrite Ht. naive_solver.
  - unfold complete. intros (_ & _ & _ & _ & _ & _ & _ & _ & _ & _ & Hf & Hle). split; [|exact Hle].
    unfold finalityTimeout, second. rewrite Z.gtb_ltb. destruct (Z.ltb_spec 0 (FinalityTimeout cfg)); lia.
Qed.

(** ** Witness *)

Definition ex_client : ClientConfig := mkClientConfig (Some (mkEndpoint "localhost" 7001)) no_tls.

Definition ex_config : Config :=
  mkConfig "ch" "default" "_lifecycle" "fabric-x" (Some (mkServerConfig false))
    (Some (mkIdentityConfig "Org1MSP" "/msp")) ex_client (mkChaincodeService None no_tls)
    (mkChaincodeResolver [] None) (Some ex_client) (Some ex_client) [] (mkRemoteResolver [] None)
    (Auth.mkAuthConfig [Msp.mkMSPConfig "Org1MSP" "/msp"] [Auth.mkRule "*" "*" "Org1MSP"] "" "")
    (LifecycleAuth.mkAuthConfig
       (list_to_map (map (λ o, (o, "Org1MSP")) LifecycleAuth.publicOperations))
       [LifecycleAuth.mkOrchestrator "Org1MSP" "/cert"])
    0 0 0.

Lemma Validate_exact_witness :
  Validate ex_config = None ∧ 0 < finalityTimeout ex_config <= requestTimeout ex_config.
Proof.
  assert (H : Validate ex_config = None) by (vm_compute; reflexivity).
  split; [exact H|]. apply Validate_exact. apply Validate_exact. exact H.
Defined.

End Config.
