(* ===== verification/Network.v ===== *)
(** Connections to other services.  [network.NewPeer] of the SDK and the peers it returns are
    reached through [NetworkLib]; which connections are open is a state, so that what a
    constructor or a [Close] leaves behind can be stated. *)
From Stdlib Require Import ZArith Lia.
From stdpp Require Import base option list strings gmap sets.
From S2P Require Import Prelude LifecycleStore OrchestratorTypes GoStrings Json Msp Auth LifecycleAuth.
From S2P Require Import Config.

Module Network.

(** The answers of the library for the [n]-th connection made. *)
Class NetworkLib := {
  dial : nat → Config.PeerConf → option goerr;
  close_error : nat → option goerr }.

Record Peer := mkPeer { peer_id : nat; peer_conf : Config.PeerConf }.

(** The connections made so far and those not closed. *)
Record net := mkNet { made : nat; opened : list nat }.

Definition no_connections : net := mkNet 0 [].

Section Library.
Context {NL : NetworkLib}.

Definition NewPeer (n : net) (conf : Config.PeerConf) : net * result Peer :=
  match dial (made n) conf with
  | Some e => (mkNet (S (made n)) (opened n), Err e)
  | None => (mkNet (S (made n)) (opened n ++ [made n]), Ok (mkPeer (made n) conf))
  end.

(** A peer is closed whatever closing it reports. *)
Definition close_peer (n : net) (p : Peer) : net * option goerr :=
  (mkNet (made n) (filter (λ i, i ≠ peer_id p) (opened n)), close_error (peer_id p)).

Fixpoint close_peers (n : net) (ps : list Peer) : net * list goerr :=
  match ps with
  | [] => (n, [])
  | p :: rest =>
      let '(n1, e) := close_peer n p in
      let '(n2, es) := close_peers n1 rest in
      (n2, option_list e ++ es)
  end.

(** ** Which connections are open *)

(** Only connections already made are open. *)
Definition net_ok (n : net) : Prop := Forall (λ i, i < made n) (opened n).

(** [n'] is [n] after making the connections of [ps], which are still open. *)
Definition grew (n n' : net) (ps : list Peer) : Prop :=
  made n ≤ made n' ∧ opened n' = opened n ++ map peer_id ps.

Lemma grew_refl n : grew n n [].
Proof. split; [done|]. by rewrite app_nil_r. Qed.

Lemma grew_trans n1 n2 n3 ps qs : grew n1 n2 ps → grew n2 n3 qs → grew n1 n3 (ps ++ qs).
Proof. intros [H1 E1] [H2 E2]. split; [lia|]. by rewrite E2, E1, map_app, app_assoc. Qed.

Lemma NewPeer_ok n conf n' p :
  net_ok n → NewPeer n conf = (n', Ok p) →
  grew n n' [p] ∧ net_ok n' ∧ made n ≤ peer_id p ∧ peer_conf p = conf.
Proof.
  unfold NewPeer, net_ok, grew. intros Hn H. destruct (dial _ _) as [e|]; [done|].
  injection H as <- <-. simpl. split_and!; try done; [lia|].
  apply Forall_app; split; [|by repeat constructor].
  eapply Forall_impl; [exact Hn|simpl; lia].
Qed.

Lemma NewPeer_err n conf n' e :
  net_ok n → NewPeer n conf = (n', Err e) → grew n n' [] ∧ net_ok n'.
Proof.
  unfold NewPeer, net_ok, grew. intros Hn H. destruct (dial _ _) as [e'|]; [|done].
  injection H as <- <-. simpl. rewrite app_nil_r. split_and!; try done; [lia|].
  eapply Forall_impl; [exact Hn|simpl; lia].
Qed.

Lemma close_peers_opened n ps :
  made (close_peers n ps).1 = made n ∧
  opened (close_peers n ps).1 = filter (λ i, i ∉ map peer_id ps) (opened n).
Proof.
  revert n. induction ps as [|p ps IH]; intros n; simpl.
  - split; [done|]. induction (opened n) as [|i l IHl]; [done|].
    rewrite filter_cons_True by apply not_elem_of_nil. by rewrite <- IHl.
  - specialize (IH (close_peer n p).1). unfold close_peer in *. cbn [fst] in *.
    destruct (close_peers _ ps) as [n2 es]. cbn [fst made opened] in *. destruct IH as [-> ->].
    split; [done|]. rewrite list_filter_filter. apply list_filter_iff.
    intros i. cbn [map]. rewrite not_elem_of_cons. naive_solver.
Qed.

Lemma close_peers_app n ps qs :
  (close_peers n (ps ++ qs)).1 = (close_peers (close_peers n ps).1 qs).1.
Proof.
  revert n. induction ps as [|p ps IH]; intros n; [done|]. cbn [app close_peers].
  specialize (IH (close_peer n p).1). unfold close_peer in *. cbn [fst] in *.
  destruct (close_peers _ (ps ++ qs)) as [n1 es1], (close_peers _ ps) as [n2 es2]. exact IH.
Qed.

(** Closing what was opened since leaves the connections of before. *)
Lemma closed_back base n ps :
  net_ok base → opened n ≡ₚ opened base ++ map peer_id ps →
  Forall (λ p, made base ≤ peer_id p) ps → opened (close_peers n ps).1 ≡ₚ opened base.
Proof.
  intros Hn E Hps. destruct (close_peers_opened n ps) as [_ ->]. rewrite E, filter_app. clear E.
  assert (H1 : filter (λ i, i ∉ map peer_id ps) (opened base) = opened base).
  { unfold net_ok in Hn. induction Hn as [|i l Hi _ IH]; [done|].
    rewrite filter_cons_True, IH; [done|]. intros (p & -> & Hp)%list_elem_of_fmap_1.
    rewrite Forall_forall in Hps. apply Hps in Hp. lia. }
  rewrite H1. assert (H2 : ∀ l, (∀ i, i ∈ l → i ∈ map peer_id ps) →
    filter (λ i, i ∉ map peer_id ps) l = []).
  { induction l as [|i l IHl]; intros Hl; [done|]. rewrite filter_cons_False.
    - apply IHl. intros j Hj. apply Hl. by right.
    - intros Hni. apply Hni, Hl. by left. }
  by rewrite H2, app_nil_r.
Qed.

(** Closing the one connection made since leaves those of before. *)
Lemma close_new n n1 peer :
  net_ok n → grew n n1 [peer] → made n ≤ peer_id peer →
  opened (close_peer n1 peer).1 = opened n.
Proof.
  intros Hn [_ Hg] Hid.
  change (filter (λ i, i ≠ peer_id peer) (opened n1) = opened n).
  rewrite Hg, filter_app. cbn [map].
  rewrite (filter_cons_False _ (peer_id peer)) by naive_solver.
  rewrite filter_nil, app_nil_r. clear Hg.
  unfold net_ok in Hn. induction Hn as [|i l Hi _ IH]; [done|].
  rewrite filter_cons_True by lia. by rewrite IH.
Qed.

Lemma closed_ok n ps : net_ok n → net_ok (close_peers n ps).1.
Proof.
  unfold net_ok. destruct (close_peers_opened n ps) as [-> ->]. intros H.
  apply Forall_forall. intros i [_ Hi]%list_elem_of_filter. rewrite Forall_forall in H. auto.
Qed.

End Library.

End Network.
