(* ===== verification/ChaincodeResolver.v ===== *)
(** Resolving the connection of a chaincode: the messages of [ccresolver/rpc.go] and the static
    and dynamic resolvers of [orchestrator/resolver.go].

    One call of the resolver service is its answer, the argument [call] of the operation that
    makes it. *)
From Stdlib Require Import ZArith Lia.
From stdpp Require Import base option list strings gmap sets.
From S2P Require Import Prelude LifecycleStore OrchestratorTypes GoStrings Json Msp Auth LifecycleAuth.
From S2P Require Import Config Network.
Local Open Scope Z_scope.

Module Ccr.

(** ** Messages *)

Definition OperationChaincodeResolution : string := "CC_resolution".
Definition OperationRemoteOrchestrator : string := "REMOTE_ORCHESTRATOR_resolution".

Record ResolveRequest := mkResolveRequest {
  Operation : string;
  rq_MSPID : string;
  RequesterMSP : string;
  TargetMSP : string;
  rq_ChannelID : string;
  rq_Namespace : string;
  rq_Name : string;
  rq_Version : string;
  rq_Sequence : Z }.

Record ResolveCandidate := mkCandidate {
  cand_MSPID : string;
  cand_InstanceID : string;
  cand_Address : string;
  cand_TLSMode : string;
  cand_Metadata : gmap string string }.

Record ResolveResponse := mkResolveResponse {
  Found : bool;
  rsp_Address : string;
  rsp_TLSMode : string;
  rsp_PackageID : string;
  rsp_Sequence : Z;
  Candidates : list ResolveCandidate }.

(** ** Static resolution *)

Record chaincodeResolverRequest := mkRequest {
  ChannelID : string;
  MSPID : string;
  Definition_ : Store.ChaincodeDefinition }.

Definition chaincodeResolverAddress (entry : Config.StaticChaincodeConnectionConfig) : string :=
  if negb (bool_decide (Config.sc_Address entry = "")) then Config.sc_Address entry
  else match Config.sc_Endpoint entry with
       | None => ""
       | Some e => Config.Endpoint_Address e
       end.

(** The checks of one entry. *)
Definition check_entry (entry : Config.StaticChaincodeConnectionConfig) : result () :=
  guard_err (bool_decide (Config.sc_Name entry = ""))
    (ENew "chaincode-resolver.static[%d].name is required");;
  guard_err (bool_decide (Config.sc_Version entry = ""))
    (ENew "chaincode-resolver.static[%d].version is required");;
  guard_err (bool_decide (chaincodeResolverAddress entry = ""))
    (ENew "chaincode-resolver.static[%d].address or endpoint is required");;
  let mode := Config.Mode (Config.sc_TLS entry) in
  guard_err (negb (bool_decide (mode = "")) && negb (bool_decide (mode = "none")))
    (ENew "chaincode-resolver.static[%d] tls mode %q is not supported by the current CCAAS shim connector").

Fixpoint newStaticChaincodeResolver (entries : list Config.StaticChaincodeConnectionConfig)
    : result (list Config.StaticChaincodeConnectionConfig) :=
  match entries with
  | [] => Ok []
  | e :: rest => check_entry e;; rest ← newStaticChaincodeResolver rest; Ok (e :: rest)
  end.

(** Whether the loop body reaches its return for this entry. *)
Definition entry_matches (req : chaincodeResolverRequest)
    (entry : Config.StaticChaincodeConnectionConfig) : bool :=
  let def := Definition_ req in
  (bool_decide (Config.sc_ChannelID entry = "") ||
   bool_decide (Config.sc_ChannelID entry = ChannelID req)) &&
  (bool_decide (Config.sc_MSPID entry = "") || bool_decide (Config.sc_MSPID entry = MSPID req)) &&
  (bool_decide (Config.sc_Name entry = Store.Name def) &&
   bool_decide (Config.sc_Version entry = Store.Version def)) &&
  ((Config.sc_Sequence entry =? 0) || (Config.sc_Sequence entry =? Store.Sequence def)).

Definition static_connection (req : chaincodeResolverRequest)
    (entry : Config.StaticChaincodeConnectionConfig) : Store.ResolvedChaincodeConnection :=
  let def := Definition_ req in
  let mode := Config.Mode (Config.sc_TLS entry) in
  Store.mkConnection (MSPID req) (Store.Name def) (Store.Version def) (Store.Sequence def)
    (chaincodeResolverAddress entry) (if bool_decide (mode = "") then "none" else mode)
    (Config.sc_PackageID entry) "".

Fixpoint static_Resolve (entries : list Config.StaticChaincodeConnectionConfig)
    (req : chaincodeResolverRequest) : result (option Store.ResolvedChaincodeConnection) :=
  match entries with
  | [] => Ok None
  | entry :: rest =>
      if entry_matches req entry then Ok (Some (static_connection req entry))
      else static_Resolve rest req
  end.

(** ** Dynamic resolution *)

Definition defaultResolverTimeout : Z := 5 * Config.second.

Record grpcChaincodeResolver := mkGrpcResolver {
  g_address : string;
  g_peer : Network.Peer;
  g_timeout : Z }.

Section Library.
Context {NL : Network.NetworkLib}.

Definition newGRPCChaincodeResolver (n : Network.net) (cfg : option Config.DynamicResolverConfig)
    : Network.net * result grpcChaincodeResolver :=
  match cfg with
  | None => (n, Err (ENew "chaincode-resolver.dynamic.endpoint is required"))
  | Some cfg =>
      match Config.dyn_Endpoint cfg with
      | None => (n, Err (ENew "chaincode-resolver.dynamic.endpoint is required"))
      | Some e =>
          let timeout := if Config.dyn_Timeout cfg <=? 0 then defaultResolverTimeout
                         else Config.dyn_Timeout cfg in
          let address := Config.Endpoint_Address e in
          match Network.NewPeer n (Config.mkPeerConf address (Config.dyn_TLS cfg)) with
          | (n, Err e) => (n, Err (EWrap "chaincode resolver %s: %w" e))
          | (n, Ok peer) => (n, Ok (mkGrpcResolver address peer timeout))
          end
      end
  end.

Definition grpc_request (req : chaincodeResolverRequest) : ResolveRequest :=
  let def := Definition_ req in
  mkResolveRequest OperationChaincodeResolution (MSPID req) "" "" (ChannelID req) ""
    (Store.Name def) (Store.Version def) (Store.Sequence def).

Definition grpc_Resolve (call : ResolveRequest → result ResolveResponse)
    (req : chaincodeResolverRequest) : result (option Store.ResolvedChaincodeConnection) :=
  let def := Definition_ req in
  match call (grpc_request req) with
  | Err e => Err (EWrap "dynamic chaincode resolver grpc: %w" e)
  | Ok out =>
      if negb (Found out) then Ok None
      else
        guard_err (bool_decide (rsp_Address out = ""))
          (ENew "dynamic chaincode resolver response missing address");;
        guard_err (negb (rsp_Sequence out =? 0) && negb (rsp_Sequence out =? Store.Sequence def))
          (ENew "dynamic chaincode resolver sequence mismatch: requested=%d response=%d");;
        let mode := if bool_decide (rsp_TLSMode out = "") then "none" else rsp_TLSMode out in
        guard_err (negb (bool_decide (mode = "none")))
          (ENew "dynamic chaincode resolver returned unsupported tls mode %q");;
        Ok (Some (Store.mkConnection (MSPID req) (Store.Name def) (Store.Version def)
                    (Store.Sequence def) (rsp_Address out) mode (rsp_PackageID out) ""))
  end.

(** ** The combined resolver *)

Record chaincodeConnectionResolvers := mkResolvers {
  static : option (list Config.StaticChaincodeConnectionConfig);
  dynamic : option grpcChaincodeResolver }.

(** The resolver is nil when nothing is configured. *)
Definition newChaincodeConnectionResolver (n : Network.net) (cfg : Config.ChaincodeResolverConfig)
    : Network.net * result (option chaincodeConnectionResolvers) :=
  let static := match Config.cr_Static cfg with
                | [] => Ok None
                | entries => Some <$> newStaticChaincodeResolver entries
                end in
  match static with
  | Err e => (n, Err e)
  | Ok static =>
      match Config.cr_Dynamic cfg with
      | Some d =>
          match newGRPCChaincodeResolver n (Some d) with
          | (n, Err e) => (n, Err e)
          | (n, Ok dynamic) => (n, Ok (Some (mkResolvers static (Some dynamic))))
          end
      | None =>
          match static with
          | None => (n, Ok None)
          | Some entries => (n, Ok (Some (mkResolvers (Some entries) None)))
          end
      end
  end.

Definition Resolve (r : chaincodeConnectionResolvers) (call : ResolveRequest → result ResolveResponse)
    (req : chaincodeResolverRequest) : result (option Store.ResolvedChaincodeConnection) :=
  found ← match static r with Some entries => static_Resolve entries req | None => Ok None end;
  match found with
  | Some conn => Ok (Some conn)
  | None => match dynamic r with Some _ => grpc_Resolve call req | None => Ok None end
  end.

Definition Close (n : Network.net) (r : option chaincodeConnectionResolvers)
    : Network.net * option goerr :=
  match r ≫= dynamic with
  | None => (n, None)
  | Some d => Network.close_peer n (g_peer d)
  end.

(** ** Lemmas *)

Lemma static_entries entries l :
  newStaticChaincodeResolver entries = Ok l → l = entries ∧ Forall (λ e, check_entry e = Ok ()) l.
Proof.
  revert l. induction entries as [|e rest IH]; intros l H; simpl in H; [by injection H as <-|].
  apply bind_ok in H as ([] & He & H). apply bind_ok in H as (l' & Hl & H). injection H as <-.
  apply IH in Hl as [-> Hl]. split; [done|]. by constructor.
Qed.

Lemma static_first entries req :
  static_Resolve entries req =
  Ok (static_connection req <$> (list_find (λ e, entry_matches req e = true) entries ≫= λ p, Some p.2)).
Proof.
  induction entries as [|e rest IH]; simpl; [done|].
  destruct (entry_matches req e); [done|]. rewrite IH. simpl.
  by destruct (list_find _ rest) as [[]|].
Qed.

Lemma check_entry_ok e :
  check_entry e = Ok () →
  chaincodeResolverAddress e ≠ "" ∧
  (Config.Mode (Config.sc_TLS e) = "" ∨ Config.Mode (Config.sc_TLS e) = "none").
Proof.
  unfold check_entry. intros H. inv_ok. bool_props. split; [done|].
  apply andb_false_iff in H as [H|H]; bool_props; auto.
Qed.

(** What a resolver promises to its callers: the connection of the requested revision, at an
    address, without TLS. *)
Definition answers (req : chaincodeResolverRequest) (conn : Store.ResolvedChaincodeConnection)
    : Prop :=
  Store.conn_MSPID conn = MSPID req ∧
  Store.conn_Name conn = Store.Name (Definition_ req) ∧
  Store.conn_Version conn = Store.Version (Definition_ req) ∧
  Store.conn_Sequence conn = Store.Sequence (Definition_ req) ∧
  Store.conn_Address conn ≠ "" ∧ Store.conn_TLSMode conn = "none".

Lemma static_answers entries req conn :
  Forall (λ e, check_entry e = Ok ()) entries →
  static_Resolve entries req = Ok (Some conn) → answers req conn.
Proof.
  induction 1 as [|e rest He _ IH]; simpl; [done|]. destruct (entry_matches req e); [|done].
  intros [= <-]. apply check_entry_ok in He as [Ha Hm]. unfold answers. simpl.
  split_and!; try done. case_bool_decide; [done|]. by destruct Hm.
Qed.

Lemma grpc_answers call req conn : grpc_Resolve call req = Ok (Some conn) → answers req conn.
Proof.
  unfold grpc_Resolve. destruct (call _) as [out|]; [|done]. destruct (Found out); [|done].
  cbn [negb]. intros H. inv_ok. bool_props. unfold answers. simpl. by split_and!.
Qed.

(** A resolver made by the constructor. *)
Definition resolver_ok (r : chaincodeConnectionResolvers) : Prop :=
  ∀ entries, static r = Some entries → Forall (λ e, check_entry e = Ok ()) entries.

Lemma new_resolver_ok n cfg n' r :
  newChaincodeConnectionResolver n cfg = (n', Ok (Some r)) → resolver_ok r.
Proof.
  unfold newChaincodeConnectionResolver, resolver_ok. intros H entries Hs.
  destruct (match Config.cr_Static cfg with [] => _ | _ => _ end) as [st|] eqn:E; [|done].
  assert (Hst : static r = st).
  { destruct (Config.cr_Dynamic cfg) as [d|].
    - destruct (newGRPCChaincodeResolver n (Some d)) as [? [g|]]; [|done]. by injection H as _ <-.
    - destruct st as [l|]; [|done]. by injection H as _ <-. }
  rewrite Hst in Hs. subst st. destruct (Config.cr_Static cfg) as [|e l]; [done|].
  destruct (newStaticChaincodeResolver (e :: l)) as [l'|] eqn:Hl; [|done].
  apply static_entries in Hl as [-> Hl]. injection E as <-. exact Hl.
Qed.

Lemma Resolve_answers r call req conn :
  resolver_ok r → Resolve r call req = Ok (Some conn) → answers req conn.
Proof.
  intros Hr H. unfold Resolve in H. apply bind_ok in H as (found & Hf & H).
  destruct found as [c|].
  - injection H as <-. destruct (static r) as [entries|] eqn:E; [|done].
    by apply (static_answers entries); [apply Hr|].
  - destruct (dynamic r); [|done]. by eapply grpc_answers.
Qed.

(** ** Properties *)

(** What a configured resolver answers: the first matching static entry when there is one,
    with no call made; only otherwise the resolver service.  Every answer names the revision that
    was asked for and an address that can be dialled without TLS. *)
Theorem resolver_answers n cfg n' r call req :
  newChaincodeConnectionResolver n cfg = (n', Ok (Some r)) →
  (∀ conn, Resolve r call req = Ok (Some conn) → answers req conn) ∧
  (∀ i entry, list_find (λ e, entry_matches req e = true) (Config.cr_Static cfg) = Some (i, entry) →
     Resolve r call req = Ok (Some (static_connection req entry))) ∧
  (list_find (λ e, entry_matches req e = true) (Config.cr_Static cfg) = None →
     Resolve r call req =
       if bool_decide (Config.cr_Dynamic cfg = None) then Ok None else grpc_Resolve call req).
Proof.
  intros H. split; [intros conn; by apply Resolve_answers, (new_resolver_ok _ _ _ _ H)|].
  unfold newChaincodeConnectionResolver in H.
  assert (Hs : match static r with Some entries => static_Resolve entries req | None => Ok None end =
               static_Resolve (Config.cr_Static cfg) req ∧
               (dynamic r = None ↔ Config.cr_Dynamic cfg = None)).
  { destruct (Config.cr_Static cfg) as [|e l] eqn:Hc.
    - destruct (Config.cr_Dynamic cfg) as [d|]; [|done].
      destruct (newGRPCChaincodeResolver n (Some d)) as [? [g|]]; [|done]. injection H as _ <-. done.
    - destruct (newStaticChaincodeResolver (e :: l)) as [l'|] eqn:Hl; [|done].
      apply static_entries in Hl as [-> _]. cbn [fmap result_fmap] in H.
      destruct (Config.cr_Dynamic cfg) as [d|].
      + destruct (newGRPCChaincodeResolver n (Some d)) as [? [g|]]; [|done]. by injection H as _ <-.
      + by injection H as _ <-. }
  destruct Hs as [Hs Hd]. unfold Resolve. rewrite Hs, static_first. split.
  - intros i entry ->. done.
  - intros ->. cbn. destruct (dynamic r) as [d|] eqn:E.
    + rewrite bool_decide_eq_false_2; [done|]. intros Hn. by apply Hd in Hn.
    + by rewrite bool_decide_eq_true_2 by by apply Hd.
Qed.

End Library.

(** ** Witness *)

Definition ex_network : Network.NetworkLib := {| Network.dial _ _ := None; Network.close_error _ := None |}.

Definition ex_entry : Config.StaticChaincodeConnectionConfig :=
  Config.mkStaticConnection "" "Org1MSP" "asset" "1.0" 0 "" ""
    (Some (Config.mkEndpoint "cc" 9999)) Config.no_tls.

Definition ex_resolver_config : Config.ChaincodeResolverConfig :=
  Config.mkChaincodeResolver [ex_entry]
    (Some (Config.mkDynamic [] (Some (Config.mkEndpoint "resolver" 7000)) Config.no_tls Config.no_tls 0)).

Definition ex_ccr_request (version : string) : chaincodeResolverRequest :=
  mkRequest "ch" "Org1MSP" (Store.mkDefinition "asset" version 1 false).

Definition ex_call (req : ResolveRequest) : result ResolveResponse :=
  if bool_decide (rq_Version req = "2.0")
  then Ok (mkResolveResponse true "cc2:9999" "" "asset:2" 1 []) else Err (ENew "down").

Lemma resolver_answers_witness :
  ∃ n r, @newChaincodeConnectionResolver ex_network Network.no_connections ex_resolver_config =
           (n, Ok (Some r)) ∧
    Resolve r ex_call (ex_ccr_request "1.0") =
      Ok (Some (Store.mkConnection "Org1MSP" "asset" "1.0" 1 "cc:9999" "none" "" "")) ∧
    Resolve r ex_call (ex_ccr_request "2.0") =
      Ok (Some (Store.mkConnection "Org1MSP" "asset" "2.0" 1 "cc2:9999" "none" "asset:2" "")).
Proof.
  destruct (@newChaincodeConnectionResolver ex_network Network.no_connections ex_resolver_config)
    as [n [[r|]|]] eqn:E; [|vm_compute in E; discriminate E..].
  exists n, r. split; [done|]. split.
  - destruct (resolver_answers (NL := ex_network) _ _ _ _ ex_call (ex_ccr_request "1.0") E)
      as (_ & Hs & _).
    rewrite (Hs 0%nat ex_entry eq_refl). reflexivity.
  - destruct (resolver_answers (NL := ex_network) _ _ _ _ ex_call (ex_ccr_request "2.0") E)
      as (_ & _ & Hd).
    rewrite (Hd eq_refl). reflexivity.
Defined.

End Ccr.
