(* ===== verification/Binding.v ===== *)
(** Which chaincode service an invocation runs on, [orchestrator/lifecycle_executor.go], and the
    evidence of it that accompanies an endorsement, [orchestrator/lifecycle_binding.go].

    The store is passed along; it is [None] when the orchestrator has none.  The resolver
    service's answer is the argument [call], and [run endpoint] is the chaincode service executor
    over a connector to [endpoint].  [Execute] is one execution on its own; [world_step] interleaves
    the store accesses of several with each other and with lifecycle operations. *)
From Stdlib Require Import ZArith Lia.
From stdpp Require Import base option list strings gmap sets sorting.
From S2P Require Import Prelude LifecycleStore OrchestratorTypes GoStrings Json Proto ExecContext Shim.
From S2P Require Import Helper Config Network ChaincodeResolver.
Import Types Json.
Local Open Scope Z_scope.

Module Binding.

#[local] Existing Instance Store.ChaincodeDefinition_eq_dec.

(** ** The executor *)

Record lifecycleExecutor := mkExecutor {
  localMSPID : string;
  resolver : option Ccr.chaincodeConnectionResolvers;
  fallbackConnector : option string }.

(** The decorations' name and version. *)
Definition lifecycleIdentityFromExecution (c : Exec.ExecutionContext) : string * string :=
  (Helper.decoration (Exec.decorations c) "compat.chaincode_name",
   Helper.decoration (Exec.decorations c) "compat.chaincode_version").

Definition lifecycleDefinitionsMatch (left right : Store.ChaincodeDefinition) : bool :=
  bool_decide (Store.Name left = Store.Name right) &&
  bool_decide (Store.Version left = Store.Version right) &&
  (Store.Sequence left =? Store.Sequence right) &&
  eqb (Store.InitRequired left) (Store.InitRequired right).

Definition resolveCommittedDefinition (s : Store.Store) (name : string)
    : result (option Store.CommittedDefinition) :=
  if negb (bool_decide (name = "")) then Store.GetCommitted s name
  else
    match Store.ListCommitted s name "" with
    | [] => Ok None
    | [d] => Ok (Some d)
    | _ => Err (ENew "%d committed definitions are active; chaincode name is required")
    end.

Definition approved_connection (mspID : string) (def : Store.ChaincodeDefinition)
    (approval : Store.ApprovedDefinition) : Store.ResolvedChaincodeConnection :=
  Store.mkConnection mspID (Store.Name def) (Store.Version def) (Store.Sequence def)
    (Store.app_PackageAddress approval) "none" (Store.app_PackageID approval) "".

(** What the store decides before the resolver is asked. *)
Inductive lookup : Type :=
  | Cached (conn : Store.ResolvedChaincodeConnection)
  | Approved (conn : Store.ResolvedChaincodeConnection)
  | Ask.

Definition lookup_connection (s : Store.Store) (mspID : string) (def : Store.ChaincodeDefinition)
    : result lookup :=
  cached ← Store.GetResolvedConnection s mspID def;
  match cached with
  | Some conn => Ok (Cached conn)
  | None =>
      approval ← Store.GetApproval s def mspID;
      match approval with
      | Some approval =>
          if lifecycleDefinitionsMatch (Store.app_Definition approval) def
          then Ok (Approved (approved_connection mspID def approval)) else Ok Ask
      | None => Ok Ask
      end
  end.

(** Caching an answer: [conn, err := PutResolvedConnection(...); return conn, err == nil, err]. *)
Definition cache_connection (now : string) (s : Store.Store)
    (conn : Store.ResolvedChaincodeConnection)
    : Store.Store * result (option Store.ResolvedChaincodeConnection) :=
  let '(s, r) := Store.PutResolvedConnection now s conn in (s, Some <$> r).

Section Resolving.
Variable e : lifecycleExecutor.
Variable now : string.
Variable call : Ccr.ResolveRequest → result Ccr.ResolveResponse.

Definition resolveChaincodeConnection (s : Store.Store) (def : Store.ChaincodeDefinition)
    : Store.Store * result (option Store.ResolvedChaincodeConnection) :=
  match lookup_connection s (localMSPID e) def with
  | Err err => (s, Err err)
  | Ok (Cached conn) => (s, Ok (Some conn))
  | Ok (Approved conn) => cache_connection now s conn
  | Ok Ask =>
      match resolver e with
      | None => (s, Ok None)
      | Some r =>
          match Ccr.Resolve r call (Ccr.mkRequest (Store.channelID s) (localMSPID e) def) with
          | Err err => (s, Err err)
          | Ok None => (s, Ok None)
          | Ok (Some resolved) => cache_connection now s resolved
          end
      end
  end.

(** The invocation's sequence differs from the active revision. *)
Definition revision_changed (c : Exec.ExecutionContext) (version : string)
    (def : Store.ChaincodeDefinition) : bool :=
  let sequence := Helper.decoration (Exec.decorations c) "compat.chaincode_sequence" in
  negb (bool_decide (sequence = "")) &&
  (negb (bool_decide (sequence = GoStrings.FormatInt (Store.Sequence def))) ||
   negb (bool_decide (version = Store.Version def))).

(** The package approved for the committed definition, for executors without a cached or
    resolved connection. *)
Definition legacy_connection (s : Store.Store) (def : Store.ChaincodeDefinition)
    : result (option Store.ResolvedChaincodeConnection) :=
  match Store.ResolveCommittedPackage s (Store.Name def) (localMSPID e) with
  | Err err => match fallbackConnector e with None => Err err | Some _ => Ok None end
  | Ok None => Ok None
  | Ok (Some (_, pkg)) =>
      Ok (Some (Store.mkConnection (localMSPID e) (Store.Name def) (Store.Version def)
                  (Store.Sequence def) (Store.pkg_Address pkg) "none" "" ""))
  end.

(** The connector for a connection, or the configured one without. *)
Definition connector_of (conn : option Store.ResolvedChaincodeConnection) : result string :=
  match conn with
  | None =>
      match fallbackConnector e with
      | None => Err (ENew "no chaincode connection resolved for local MSP %s chaincode %s:%s sequence %d")
      | Some endpoint => Ok endpoint
      end
  | Some conn =>
      guard_err (negb (bool_decide (Store.conn_TLSMode conn = "")) &&
                 negb (bool_decide (Store.conn_TLSMode conn = "none")))
        (ENew "chaincode connection for %s:%s uses unsupported tls mode %q");;
      match Shim.NewConnector (Store.conn_Address conn) with
      | Err err => Err (EWrap "create lifecycle chaincode connector: %w" err)
      | Ok endpoint => Ok endpoint
      end
  end.

(** The connector of one execution, up to the call of the chaincode service executor. *)
Definition choose_connector (s : Store.Store) (c : Exec.ExecutionContext)
    : Store.Store * result string :=
  let '(name, version) := lifecycleIdentityFromExecution c in
  match resolveCommittedDefinition s name with
  | Err err => (s, Err err)
  | Ok None =>
      (s, match fallbackConnector e with
          | None => Err (ENew "shim connector is not configured")
          | Some endpoint => Ok endpoint
          end)
  | Ok (Some committed) =>
      let def := Store.com_Definition committed in
      if revision_changed c version def
      then (s, Err (ENew "chaincode definition changed before execution; retry the proposal"))
      else
        match resolveChaincodeConnection s def with
        | (s, Err err) => (s, Err err)
        | (s, Ok (Some conn)) => (s, connector_of (Some conn))
        | (s, Ok None) => (s, legacy_connection s def ≫= connector_of)
        end
  end.

Definition Execute (run : string → Helper.Executor) (s : option Store.Store)
    (st : Helper.exec_state) (inv : Proto.Invocation)
    : option Store.Store *
      (option (result (Helper.ExecutionResult * option Exec.View)) * Helper.exec_state) :=
  match s with
  | None =>
      (None, match fallbackConnector e with
             | None => (Some (Err (ENew "shim connector is not configured")), st)
             | Some endpoint => run endpoint st inv
             end)
  | Some s =>
      let '(s', chosen) := choose_connector s st.1 in
      (Some s', match chosen with
                | Err err => (Some (Err err), st)
                | Ok endpoint => run endpoint st inv
                end)
  end.

(** ** The evidence *)

Definition applyResolvedBinding (b : LifecycleExecutionBinding)
    (conn : Store.ResolvedChaincodeConnection) : LifecycleExecutionBinding :=
  mkBinding (b_MSPID b) (b_Namespace b) (b_ChaincodeName b) (b_ChaincodeVersion b) (b_Sequence b)
    (if bool_decide (b_PackageID b = "") then Store.conn_PackageID conn else b_PackageID b)
    (if bool_decide (b_PackageAddress b = "") then Store.conn_Address conn else b_PackageAddress b).

(** The evidence from the local approval, then from the cached connection. *)
Definition recorded_binding (s : Store.Store) (localMSP namespace : string)
    (def : Store.ChaincodeDefinition) : LifecycleExecutionBinding :=
  let b := mkBinding localMSP namespace (Store.Name def) (Store.Version def) (Store.Sequence def) "" "" in
  let b :=
    match Store.GetApproval s def localMSP with
    | Ok (Some approval) =>
        if lifecycleDefinitionsMatch (Store.app_Definition approval) def
        then mkBinding localMSP namespace (Store.Name def) (Store.Version def) (Store.Sequence def)
               (Store.app_PackageID approval) (Store.app_PackageAddress approval)
        else b
    | _ => b
    end in
  match Store.GetResolvedConnection s localMSP def with
  | Ok (Some cached) => applyResolvedBinding b cached
  | _ => b
  end.

(** [localMSP] is empty without an identity; [channel] is the configured channel. *)
Definition lifecycleExecutionBinding (localMSP channel : string) (s : option Store.Store)
    (req : InvocationRequest) (namespace : string)
    : option Store.Store * option LifecycleExecutionBinding :=
  match s with
  | None => (None, None)
  | Some s =>
      if bool_decide (ChaincodeName req = "") || bool_decide (localMSP = "") then (Some s, None)
      else
        match (match definition req with
               | Some d => Ok (Some d)
               | None => Store.GetCommitted s (ChaincodeName req)
               end) with
        | Err _ | Ok None => (Some s, None)
        | Ok (Some committed) =>
            let def := Store.com_Definition committed in
            let b := recorded_binding s localMSP namespace def in
            if bool_decide (b_PackageID b = "") || bool_decide (b_PackageAddress b = "") then
              match resolver e with
              | None => (Some s, Some b)
              | Some r =>
                  match Ccr.Resolve r call (Ccr.mkRequest channel localMSP def) with
                  | Err _ | Ok None => (Some s, Some b)
                  | Ok (Some resolved) =>
                      let '(s, put) := Store.PutResolvedConnection now s resolved in
                      let resolved := match put with Ok cached => cached | Err _ => resolved end in
                      (Some s, Some (applyResolvedBinding b resolved))
                  end
              end
            else (Some s, Some b)
        end
  end.

End Resolving.

(** [sort.SliceStable] by organization: each element goes before the first that is not less. *)
Fixpoint insert_binding (b : LifecycleExecutionBinding) (l : list LifecycleExecutionBinding)
    : list LifecycleExecutionBinding :=
  match l with
  | [] => [b]
  | x :: rest => if String.leb (b_MSPID b) (b_MSPID x) then b :: l else x :: insert_binding b rest
  end.

Definition sort_bindings (l : list LifecycleExecutionBinding) : list LifecycleExecutionBinding :=
  foldr insert_binding [] l.

Definition lifecycleBindings (local : helperExecutionResult) (remote : list helperExecutionResult)
    : list LifecycleExecutionBinding :=
  sort_bindings (omap res_Binding (local :: remote)).

(** ** Transport of the evidence *)

Definition GRPCLifecycleBindingMetadata : string := "x-compat-lifecycle-binding".

Definition binding_json (b : LifecycleExecutionBinding) : jobject :=
  omitempty "msp_id" (JString (b_MSPID b)) ++
  omitempty "namespace" (JString (b_Namespace b)) ++
  omitempty "chaincode_name" (JString (b_ChaincodeName b)) ++
  omitempty "chaincode_version" (JString (b_ChaincodeVersion b)) ++
  omitempty "sequence" (JNumber (b_Sequence b)) ++
  omitempty "package_id" (JString (b_PackageID b)) ++
  omitempty "package_address" (JString (b_PackageAddress b)).

Definition binding_of_json (o : jobject) : result LifecycleExecutionBinding :=
  m ← json_field as_string "msp_id" o "";
  ns ← json_field as_string "namespace" o "";
  n ← json_field as_string "chaincode_name" o "";
  v ← json_field as_string "chaincode_version" o "";
  q ← json_field as_int64 "sequence" o 0;
  p ← json_field as_string "package_id" o "";
  a ← json_field as_string "package_address" o "";
  Ok (mkBinding m ns n v q p a).

Section Transport.
Context {J : JSONText}.

Definition encodeLifecycleBinding (b : LifecycleExecutionBinding) : string :=
  base64 (json_encode (binding_json b)).

Definition decodeLifecycleBinding (value : string) : result LifecycleExecutionBinding :=
  raw ← base64_decode value; o ← json_object raw; binding_of_json o.

(** The header that is set, and the answer of [grpc.SetHeader]. *)
Definition setLifecycleBindingMetadata (set_header : string → string → result ())
    (b : option LifecycleExecutionBinding) : result () :=
  match b with
  | None => Ok ()
  | Some b => set_header GRPCLifecycleBindingMetadata (encodeLifecycleBinding b)
  end.

Definition lifecycleBindingFromMetadata (md : string → list string)
    : result (option LifecycleExecutionBinding) :=
  match md GRPCLifecycleBindingMetadata with
  | [] => Ok None
  | value :: _ => Some <$> decodeLifecycleBinding value
  end.

End Transport.

(** ** The active revision and its approved package *)

Lemma lifecycleDefinitionsMatch_eq d d' : lifecycleDefinitionsMatch d d' = true ↔ d = d'.
Proof. exact (Store.definitionMatches_eq d d'). Qed.

Lemma GetCommitted_active s name d :
  Store.GetCommitted s name = Ok (Some d) →
  Store.committed_view s name = Some (Store.com_Definition d, Store.com_Initialized d).
Proof.
  unfold Store.GetCommitted, Store.committed_view. case_bool_decide; [done|].
  destruct (_ !! name) as [row|]; [|done]. by intros [= <-].
Qed.

Lemma active_committed s name d i :
  name ≠ "" → Store.committed_view s name = Some (d, i) →
  ∃ c, Store.GetCommitted s name = Ok (Some c) ∧ Store.com_Definition c = d.
Proof.
  intros Hn. rewrite Store.GetCommitted_view by done. unfold Store.committed_view.
  destruct (_ !! name) as [row|]; [|done]. intros [= <- _]. by eexists.
Qed.

Lemma ListCommitted_active s name version d :
  d ∈ Store.ListCommitted s name version →
  Store.committed_view s (Store.Name (Store.com_Definition d)) =
    Some (Store.com_Definition d, Store.com_Initialized d).
Proof.
  unfold Store.ListCommitted, Store.committed_view. rewrite merge_sort_Permutation.
  intros [_ ([n row] & -> & H)%list_elem_of_fmap_1]%list_elem_of_filter.
  apply elem_of_map_to_list in H. simpl. by rewrite H.
Qed.

Lemma resolveCommittedDefinition_active s name d :
  resolveCommittedDefinition s name = Ok (Some d) →
  Store.committed_view s (Store.Name (Store.com_Definition d)) =
    Some (Store.com_Definition d, Store.com_Initialized d) ∧
  (name ≠ "" → Store.Name (Store.com_Definition d) = name).
Proof.
  unfold resolveCommittedDefinition. case_bool_decide as Hn; cbn [negb].
  - destruct (Store.ListCommitted s name "") as [|x [|y l]] eqn:E; [done| |done].
    intros [= <-]. split; [|done]. apply (ListCommitted_active s name ""). rewrite E. by left.
  - intros H. pose proof (GetCommitted_active _ _ _ H) as Hv.
    assert (E : Store.Name (Store.com_Definition d) = name); [|by rewrite E].
    unfold Store.GetCommitted in H. case_bool_decide; [done|].
    destruct (_ !! name); [|done]. by injection H as <-.
Qed.

Section Runtime.
Variable local : string.
Variable address_of : string → string.

(** The package the local organization approved for exactly this definition. *)
Definition approved_package (s : Store.Store) (def : Store.ChaincodeDefinition) : option string :=
  match Store.approved_definitions s !! (Store.Name def, Store.Sequence def, local) with
  | Some row =>
      if bool_decide (Store.mkDefinition (Store.Name def) (Store.apr_version row)
           (Store.Sequence def) (negb (Store.apr_init_required row =? 0)) = def)
      then Some (Store.apr_package_id row) else None
  | None => None
  end.

(** Cached connections of the local organization never run ahead of the active revision, and a
    cached connection of the active revision is at the address of the approved package. *)
Record runtime_inv (s : Store.Store) : Prop := mkRuntimeInv {
  ri_store : Store.store_ok s;
  ri_packages : map_Forall (λ id p, Store.pkg_Address p = address_of id ∧ address_of id ≠ "")
    (Store.installed_packages s);
  ri_bound : ∀ name seq row, Store.resolved_connections s !! (local, name, seq) = Some row →
    Store.rsr_tls_mode row = "none" ∧
    ∃ d i, Store.committed_view s name = Some (d, i) ∧ seq <= Store.Sequence d;
  ri_address : ∀ name d i row id, Store.committed_view s name = Some (d, i) →
    Store.resolved_connections s !! (local, name, Store.Sequence d) = Some row →
    Store.rsr_version row = Store.Version d → approved_package s d = Some id →
    Store.rsr_address row = address_of id }.

Lemma GetApproval_package s def :
  runtime_inv s → Store.validateDefinition def = Ok () →
  match Store.GetApproval s def local with
  | Ok (Some a) =>
      approved_package s def =
        (if lifecycleDefinitionsMatch (Store.app_Definition a) def
         then Some (Store.app_PackageID a) else None) ∧
      Store.app_PackageAddress a = address_of (Store.app_PackageID a) ∧
      address_of (Store.app_PackageID a) ≠ "" ∧ Store.app_PackageID a ≠ ""
  | Ok None => approved_package s def = None
  | Err _ => False
  end.
Proof.
  intros Hs Hv. unfold Store.GetApproval, approved_package. rewrite Hv. simpl.
  destruct (Store.approved_definitions s !! _) as [row|] eqn:E; simpl; [|done].
  destruct (Store.ok_approved s (ri_store s Hs) _ _ E) as (_ & _ & _ & _ & _ & [p Hp]).
  rewrite Hp. simpl. destruct (ri_packages s Hs _ _ Hp) as [Ha Hne].
  split; [|split_and!; [done|done|]].
  - case_bool_decide as Hd.
    + by rewrite (proj2 (lifecycleDefinitionsMatch_eq _ _)).
    + destruct (lifecycleDefinitionsMatch _ def) eqn:Hm; [|done].
      by apply lifecycleDefinitionsMatch_eq in Hm.
  - by destruct (Store.ok_installed s (ri_store s Hs) _ _ Hp) as [-> ?].
Qed.

(** ** Preservation *)

Lemma inv_committed s s' :
  runtime_inv s → Store.store_ok s' → Store.store_le s s' →
  Store.installed_packages s' = Store.installed_packages s →
  Store.approved_definitions s' = Store.approved_definitions s →
  Store.resolved_connections s' = Store.resolved_connections s → runtime_inv s'.
Proof.
  intros Hs Hok Hle Ei Ea Er. constructor; [done|rewrite Ei; apply Hs| |].
  - intros name seq row Hrow. rewrite Er in Hrow.
    destruct (ri_bound s Hs _ _ _ Hrow) as (Ht & d & i & Hv & Hq). split; [done|].
    specialize (Hle name). rewrite Hv in Hle. destruct (Store.committed_view s' name) as [[d' i']|]; [|done].
    exists d', i'. split; [done|]. destruct Hle as [?|[-> _]]; lia.
  - intros name d i row id Hv Hrow Hver Hid. rewrite Er in Hrow.
    unfold approved_package in Hid. rewrite Ea in Hid.
    destruct (ri_bound s Hs _ _ _ Hrow) as (_ & d0 & i0 & Hv0 & Hq).
    specialize (Hle name). rewrite Hv0, Hv in Hle. destruct Hle as [?|[-> _]]; [lia|].
    exact (ri_address s Hs _ _ _ _ _ Hv0 Hrow Hver Hid).
Qed.

Lemma inv_install now s pkg :
  runtime_inv s → Store.pkg_Address pkg = address_of (Store.pkg_PackageID pkg) →
  address_of (Store.pkg_PackageID pkg) ≠ "" → runtime_inv (Store.Install now s pkg).1.
Proof.
  intros Hs Ha Hne. pose proof (proj1 (Store.Install_step now s pkg (ri_store s Hs))) as Hok.
  unfold Store.Install in *. case_bool_decide; [done|].
  destruct Hs as [? Hp Hb Hr]. constructor; [done| |exact Hb|exact Hr].
  cbn [fst Store.set_installed Store.installed_packages]. apply map_Forall_insert_2; [|done].
  by case_bool_decide.
Qed.

Lemma inv_approve now s def id msp :
  runtime_inv s → runtime_inv (Store.ApproveForMyOrg now s def id msp).1.
Proof.
  intros Hs. pose proof (proj1 (Store.Approve_step now s def id msp (ri_store s Hs))) as Hok.
  unfold Store.ApproveForMyOrg in *. destruct (pkg ← _; _) as [[pkg existing]|]; [|done].
  destruct (existing ≫= _); [done|]. destruct Hs as [? Hp Hb Hr]. constructor; [done|exact Hp| |].
  - intros name seq row Hrow. apply (Hb name seq row).
    cbn in Hrow. by apply lookup_delete_Some in Hrow as [_ ?].
  - intros name d i row pid Hv Hrow Hver Hid. cbn in Hrow.
    apply lookup_delete_Some in Hrow as [Hk Hrow].
    apply (Hr name d i row pid Hv Hrow Hver).
    unfold approved_package in *. cbn [fst Store.write_approval Store.set_resolved
      Store.approved_definitions Store.set_approved] in Hid.
    rewrite lookup_insert_ne in Hid; [done|]. intros [= Hn Hq Hm]. apply Hk.
    apply (Store.committed_view_def s) in Hv as [<- _]; [|done]. congruence.
Qed.

(** A connection that may be cached in [s]. *)
Definition cacheable (s : Store.Store) (conn : Store.ResolvedChaincodeConnection) : Prop :=
  Store.conn_MSPID conn = local ∧ Store.conn_TLSMode conn = "none" ∧
  ∃ d i, Store.committed_view s (Store.conn_Name conn) = Some (d, i) ∧
    (Store.conn_Sequence conn < Store.Sequence d ∨
     (Store.conn_Sequence conn = Store.Sequence d ∧
      ∀ id, approved_package s d = Some id → Store.conn_Address conn = address_of id)).

Lemma inv_put now s conn :
  runtime_inv s → cacheable s conn → runtime_inv (Store.PutResolvedConnection now s conn).1.
Proof.
  intros Hs (Hm & Ht & d & i & Hv & Hcase).
  pose proof (proj1 (Store.PutResolved_step now s conn (ri_store s Hs))) as Hok.
  unfold Store.PutResolvedConnection in *.
  destruct (guard_err _ _;; _) as [u|]; [|done].
  rewrite Ht in *. cbn [String.eqb fst] in *. rewrite (bool_decide_eq_false_2 ("none" = "")) in * by done.
  rewrite Hm in *. destruct Hs as [Hso Hp Hb Hr]. constructor; [done|exact Hp| |].
  - intros name seq row Hrow. cbn in Hrow.
    apply lookup_insert_Some in Hrow as [[[= <- <-] <-]|[_ Hrow]].
    + split; [done|]. exists d, i. split; [done|]. destruct Hcase as [?|[? _]]; lia.
    + exact (Hb name seq row Hrow).
  - intros name d' i' row id Hv' Hrow Hver Hid. cbn in Hrow.
    apply lookup_insert_Some in Hrow as [[[= <- Hq] <-]|[_ Hrow]].
    + cbn in Hv'. change (Store.committed_view s (Store.conn_Name conn) = Some (d', i')) in Hv'.
      rewrite Hv in Hv'. injection Hv' as <- <-. destruct Hcase as [?|[_ Hc]]; [lia|].
      by apply Hc.
    + exact (Hr name d' i' row id Hv' Hrow Hver Hid).
Qed.

(** ** Choosing a connection *)

Lemma lookup_found s name d i id :
  runtime_inv s → local ≠ "" → Store.committed_view s name = Some (d, i) →
  approved_package s d = Some id →
  ∃ conn, (lookup_connection s local d = Ok (Cached conn) ∨
           lookup_connection s local d = Ok (Approved conn)) ∧
    Store.conn_Address conn = address_of id ∧ Store.conn_TLSMode conn = "none".
Proof.
  intros Hs Hl Hv Hid.
  destruct (Store.committed_view_def s name d i (ri_store s Hs) Hv) as [Hname Hd].
  pose proof (GetApproval_package s d Hs Hd) as Ha.
  unfold lookup_connection, Store.GetResolvedConnection.
  rewrite (bool_decide_eq_false_2 (local = "")) by done.
  cbn [guard_err mbind result_mbind]. rewrite Hd. cbn [mbind result_mbind].
  destruct (Store.resolved_connections s !! (local, Store.Name d, Store.Sequence d)) as [row|] eqn:E;
    cbn [mbind option_bind].
  - case_bool_decide as Hver; cbn [mbind option_bind].
    + rewrite Hname in E. eexists. split; [by left|]. simpl.
      split; [|exact (proj1 (ri_bound s Hs _ _ _ E))].
      exact (ri_address s Hs _ _ _ _ _ Hv E Hver Hid).
    + destruct (Store.GetApproval s d local) as [[a|]|]; [|congruence|done].
      destruct Ha as (Hp & Haddr & _). rewrite Hid in Hp. cbn [mbind result_mbind].
      destruct (lifecycleDefinitionsMatch _ d); [|done]. injection Hp as ->.
      eexists. split; [by right|]. done.
  - destruct (Store.GetApproval s d local) as [[a|]|]; [|congruence|done].
    destruct Ha as (Hp & Haddr & _). rewrite Hid in Hp. cbn [mbind result_mbind].
    destruct (lifecycleDefinitionsMatch _ d); [|done]. injection Hp as ->.
    eexists. split; [by right|]. done.
Qed.

(** A revision this store shows or showed earlier. *)
Definition known (s : Store.Store) (def : Store.ChaincodeDefinition) : Prop :=
  Store.validateDefinition def = Ok () ∧
  ∃ d i, Store.committed_view s (Store.Name def) = Some (d, i) ∧
    (Store.Sequence def < Store.Sequence d ∨ def = d).

Lemma known_le s s' def : Store.store_le s s' → known s def → known s' def.
Proof.
  intros Hle [Hv (d & i & Hd & Hcase)]. split; [done|]. specialize (Hle (Store.Name def)).
  rewrite Hd in Hle. destruct (Store.committed_view s' _) as [[d' i']|]; [|done].
  exists d', i'. split; [done|]. destruct Hle as [?|[<- _]]; [left|by destruct Hcase; auto].
  destruct Hcase as [?| ->]; lia.
Qed.

Lemma known_active s name d i :
  runtime_inv s → Store.committed_view s name = Some (d, i) → known s d.
Proof.
  intros Hs Hv. destruct (Store.committed_view_def s name d i (ri_store s Hs) Hv) as [Hn Hd].
  split; [done|]. exists d, i. rewrite Hn. auto.
Qed.

Section Steps.
Variable r : Ccr.chaincodeConnectionResolvers.
Hypothesis Hr : Ccr.resolver_ok r.

Lemma resolved_cacheable s def channel call conn :
  known s def → approved_package s def = None →
  Ccr.Resolve r call (Ccr.mkRequest channel local def) = Ok (Some conn) → cacheable s conn.
Proof.
  intros [_ (d & i & Hv & Hcase)] Ha H. apply Ccr.Resolve_answers in H; [|done].
  destruct H as (Hm & Hname & _ & Hseq & _ & Ht). simpl in *.
  split_and!; [done|done|]. exists d, i. rewrite Hname, Hseq. split; [done|].
  destruct Hcase as [?| ->]; [by left|]. right. split; [done|]. by rewrite Ha.
Qed.

Lemma approved_cacheable s def a :
  known s def → approved_package s def = Some (Store.app_PackageID a) →
  Store.app_PackageAddress a = address_of (Store.app_PackageID a) →
  cacheable s (approved_connection local def a).
Proof.
  intros [_ (d & i & Hv & Hcase)] Ha Haddr. split_and!; [done|done|]. exists d, i. simpl.
  split; [done|]. destruct Hcase as [?| ->]; [by left|]. right. split; [done|].
  rewrite Ha. by intros id [= <-].
Qed.

Lemma cache_inv now s conn : runtime_inv s → cacheable s conn → runtime_inv (cache_connection now s conn).1.
Proof.
  intros Hs Hc. unfold cache_connection.
  pose proof (inv_put now s conn Hs Hc) as H. by destruct (Store.PutResolvedConnection now s conn).
Qed.

Lemma resolve_inv e now call s name d i :
  localMSPID e = local → (resolver e = None ∨ resolver e = Some r) →
  runtime_inv s → Store.committed_view s name = Some (d, i) →
  runtime_inv (resolveChaincodeConnection e now call s d).1.
Proof.
  intros He Hre Hs Hv. unfold resolveChaincodeConnection. rewrite He.
  destruct (Store.committed_view_def s name d i (ri_store s Hs) Hv) as [Hname Hd].
  pose proof (GetApproval_package s d Hs Hd) as Ha.
  destruct (lookup_connection s local d) as [[conn|conn|]|] eqn:El; [done| | |done].
  - unfold lookup_connection in El. apply bind_ok in El as ([c|] & _ & El); [done|].
    apply bind_ok in El as ([a|] & Eg & El); [|done]. rewrite Eg in Ha.
    destruct (lifecycleDefinitionsMatch _ d); [|done]. injection El as <-.
    destruct Ha as (Hp & Haddr & _).
    apply cache_inv; [done|]. apply approved_cacheable; [by eapply known_active|done|done].
  - destruct Hre as [->| ->]; [done|].
    destruct (Ccr.Resolve r call _) as [[conn|]|] eqn:Er; [|done..].
    apply cache_inv; [done|]. eapply resolved_cacheable; [by eapply known_active| |exact Er].
    unfold lookup_connection in El. apply bind_ok in El as ([c|] & _ & El); [done|].
    apply bind_ok in El as ([a|] & Eg & El); rewrite Eg in Ha; [|done].
    destruct Ha as (Hp & _). by destruct (lifecycleDefinitionsMatch _ d).
Qed.

(** The evidence of an approved revision is complete. *)
Lemma recorded_approved s namespace d id :
  runtime_inv s → Store.validateDefinition d = Ok () → approved_package s d = Some id →
  b_PackageID (recorded_binding s local namespace d) = id ∧
  b_PackageAddress (recorded_binding s local namespace d) = address_of id ∧
  id ≠ "" ∧ address_of id ≠ "".
Proof.
  intros Hs Hd Hid. pose proof (GetApproval_package s d Hs Hd) as Ha. unfold recorded_binding.
  destruct (Store.GetApproval s d local) as [[a|]|]; [|congruence|done].
  destruct Ha as (Hp & Haddr & Hne & Hid'). rewrite Hid in Hp.
  destruct (lifecycleDefinitionsMatch _ d); [|done]. injection Hp as ->.
  rewrite Haddr. destruct (Store.GetResolvedConnection s local d) as [[conn|]|]; [|done..].
  unfold applyResolvedBinding. simpl. by rewrite !bool_decide_eq_false_2.
Qed.

End Steps.

Lemma upsertCommitted_other now s c :
  Store.installed_packages (Store.upsertCommitted now s c).1 = Store.installed_packages s ∧
  Store.approved_definitions (Store.upsertCommitted now s c).1 = Store.approved_definitions s ∧
  Store.resolved_connections (Store.upsertCommitted now s c).1 = Store.resolved_connections s.
Proof.
  unfold Store.upsertCommitted. destruct (Store.validateDefinition _); [|done]. simpl.
  by destruct (Store.upsert_row _ _).
Qed.

(** ** Interleaved executions *)

(** What an execution or the collection of its evidence still has to do with the store.  Every
    access to the store is one statement; between two of them other operations run. *)
Inductive job : Type :=
  (** An execution selected this revision; the cache comes next, then the approval. *)
  | Selected (def : Store.ChaincodeDefinition)
  | Missed (def : Store.ChaincodeDefinition)
  (** The approval was found and is to be cached; or there was none and the resolver is asked. *)
  | Found (def : Store.ChaincodeDefinition) (a : Store.ApprovedDefinition)
  | Asking (def : Store.ChaincodeDefinition)
  (** No connection was resolved. *)
  | Unresolved (def : Store.ChaincodeDefinition)
  (** Evidence of a revision without an approval: the cache comes next, then the resolver. *)
  | Evidence (def : Store.ChaincodeDefinition)
  | EvidenceAsking (def : Store.ChaincodeDefinition).

(** The revision whose approval a job has already looked up. *)
Definition checked (j : job) : option (string * Z) :=
  match j with
  | Selected _ | Missed _ | Unresolved _ => None
  | Found def _ | Asking def | Evidence def | EvidenceAsking def =>
      Some (Store.Name def, Store.Sequence def)
  end.

Record world := mkWorld { w_store : Store.Store; w_jobs : list job }.

(** No lookup of this revision that has passed its approval is still under way. *)
Definition undisturbed (def : Store.ChaincodeDefinition) (js : list job) : Prop :=
  ∀ j, j ∈ js → checked j ≠ Some (Store.Name def, Store.Sequence def).

Definition no_approval (s : Store.Store) (def : Store.ChaincodeDefinition) : Prop :=
  Store.GetApproval s def local = Ok None ∨
  ∃ a, Store.GetApproval s def local = Ok (Some a) ∧
    lifecycleDefinitionsMatch (Store.app_Definition a) def = false.

(** What a step shows: an execution of this revision takes this connector. *)
Notation takes := (option (Store.ChaincodeDefinition * result string)).

(** One statement of the store, by a lifecycle operation or by a job.  A package is installed at
    the address its content, and so its identifier, determines.  The local organization approves
    a revision only while no lookup that has passed its approval is under way. *)
Inductive world_step (e : lifecycleExecutor) (channel : string) : world → takes → world → Prop :=
  | ws_Install now pkg s js :
      Store.pkg_Address pkg = address_of (Store.pkg_PackageID pkg) →
      address_of (Store.pkg_PackageID pkg) ≠ "" →
      world_step e channel (mkWorld s js) None (mkWorld (Store.Install now s pkg).1 js)
  | ws_Approve now def id msp s js :
      (msp = local → undisturbed def js) →
      world_step e channel (mkWorld s js) None (mkWorld (Store.ApproveForMyOrg now s def id msp).1 js)
  | ws_Commit now def msp s js :
      world_step e channel (mkWorld s js) None (mkWorld (Store.CommitDefinition now s def msp).1 js)
  | ws_Upsert now def init s js :
      world_step e channel (mkWorld s js) None (mkWorld (Store.UpsertCommittedFromLedger now s def init).1 js)
  | ws_MarkInitialized now def msp s js :
      world_step e channel (mkWorld s js) None (mkWorld (Store.MarkInitialized now s def msp).1 js)
  | ws_select c name version d s js :
      lifecycleIdentityFromExecution c = (name, version) →
      resolveCommittedDefinition s name = Ok (Some d) →
      revision_changed c version (Store.com_Definition d) = false →
      world_step e channel (mkWorld s js) None (mkWorld s (Selected (Store.com_Definition d) :: js))
  | ws_hit def conn s js1 js2 :
      Store.GetResolvedConnection s local def = Ok (Some conn) →
      world_step e channel (mkWorld s (js1 ++ Selected def :: js2))
        (Some (def, connector_of e (Some conn))) (mkWorld s (js1 ++ js2))
  | ws_miss def s js1 js2 :
      Store.GetResolvedConnection s local def = Ok None →
      world_step e channel (mkWorld s (js1 ++ Selected def :: js2)) None
        (mkWorld s (js1 ++ Missed def :: js2))
  | ws_found def a s js1 js2 :
      Store.GetApproval s def local = Ok (Some a) →
      lifecycleDefinitionsMatch (Store.app_Definition a) def = true →
      world_step e channel (mkWorld s (js1 ++ Missed def :: js2)) None
        (mkWorld s (js1 ++ Found def a :: js2))
  | ws_ask def s js1 js2 :
      no_approval s def →
      world_step e channel (mkWorld s (js1 ++ Missed def :: js2)) None
        (mkWorld s (js1 ++ (if resolver e then Asking def else Unresolved def) :: js2))
  | ws_cache def a now conn s s' js1 js2 :
      cache_connection now s (approved_connection local def a) = (s', Ok (Some conn)) →
      world_step e channel (mkWorld s (js1 ++ Found def a :: js2))
        (Some (def, connector_of e (Some conn))) (mkWorld s' (js1 ++ js2))
  | ws_answer def r call now resolved conn s s' js1 js2 :
      resolver e = Some r →
      Ccr.Resolve r call (Ccr.mkRequest (Store.channelID s) local def) = Ok (Some resolved) →
      cache_connection now s resolved = (s', Ok (Some conn)) →
      world_step e channel (mkWorld s (js1 ++ Asking def :: js2))
        (Some (def, connector_of e (Some conn))) (mkWorld s' (js1 ++ js2))
  | ws_unknown def r call s js1 js2 :
      resolver e = Some r →
      Ccr.Resolve r call (Ccr.mkRequest (Store.channelID s) local def) = Ok None →
      world_step e channel (mkWorld s (js1 ++ Asking def :: js2)) None
        (mkWorld s (js1 ++ Unresolved def :: js2))
  | ws_legacy def s js1 js2 :
      world_step e channel (mkWorld s (js1 ++ Unresolved def :: js2))
        (Some (def, legacy_connection e s def ≫= connector_of e)) (mkWorld s (js1 ++ js2))
  | ws_evidence def s js :
      known s def → no_approval s def →
      world_step e channel (mkWorld s js) None (mkWorld s (Evidence def :: js))
  | ws_evidence_ask def s js1 js2 :
      world_step e channel (mkWorld s (js1 ++ Evidence def :: js2)) None
        (mkWorld s (js1 ++ EvidenceAsking def :: js2))
  | ws_evidence_answer def r call now resolved s js1 js2 :
      resolver e = Some r →
      Ccr.Resolve r call (Ccr.mkRequest channel local def) = Ok (Some resolved) →
      world_step e channel (mkWorld s (js1 ++ EvidenceAsking def :: js2)) None
        (mkWorld (Store.PutResolvedConnection now s resolved).1 (js1 ++ js2))
  (** A job ends with an error, or an evidence needs nothing more. *)
  | ws_end j s js1 js2 :
      world_step e channel (mkWorld s (js1 ++ j :: js2)) None (mkWorld s (js1 ++ js2)).

Inductive world_reachable (e : lifecycleExecutor) (channel : string) : world → Prop :=
  | wr_new s : Store.NewMemoryStore channel = Ok s → world_reachable e channel (mkWorld s [])
  | wr_next w l w' : world_reachable e channel w → world_step e channel w l w' →
      world_reachable e channel w'.

(** What a job may rely on. *)
Definition job_ok (s : Store.Store) (j : job) : Prop :=
  match j with
  | Selected def | Missed def | Unresolved def => known s def
  | Found def a => known s def ∧ approved_package s def = Some (Store.app_PackageID a) ∧
      Store.app_PackageAddress a = address_of (Store.app_PackageID a)
  | Asking def | Evidence def | EvidenceAsking def => known s def ∧ approved_package s def = None
  end.

Definition world_ok (w : world) : Prop :=
  runtime_inv (w_store w) ∧ Forall (job_ok (w_store w)) (w_jobs w).

(** A job relies on the approval of its revision only once it has looked it up. *)
Lemma job_ok_le s s' j :
  Store.store_le s s' →
  (∀ def, checked j = Some (Store.Name def, Store.Sequence def) →
     approved_package s' def = approved_package s def) →
  job_ok s j → job_ok s' j.
Proof.
  intros Hle Ha. destruct j; cbn [job_ok checked] in *; try (by apply known_le);
    rewrite (Ha def eq_refl); intros [Hk ?]; (split; [by eapply known_le|done]).
Qed.

Lemma approved_same s s' def :
  Store.approved_definitions s' = Store.approved_definitions s →
  approved_package s' def = approved_package s def.
Proof. unfold approved_package. by intros ->. Qed.

Lemma jobs_ok_same s s' js :
  Store.store_le s s' → Store.approved_definitions s' = Store.approved_definitions s →
  Forall (job_ok s) js → Forall (job_ok s') js.
Proof.
  intros Hle Ha Hjs. eapply Forall_impl; [exact Hjs|]. intros j. apply job_ok_le; [done|].
  intros. by apply approved_same.
Qed.

Lemma approve_other now s def id msp d :
  (msp = local → (Store.Name d, Store.Sequence d) ≠ (Store.Name def, Store.Sequence def)) →
  approved_package (Store.ApproveForMyOrg now s def id msp).1 d = approved_package s d.
Proof.
  intros Hne. unfold Store.ApproveForMyOrg. destruct (pkg ← _; _) as [[pkg existing]|]; [|done].
  destruct (existing ≫= _); [done|]. unfold approved_package. cbn. rewrite lookup_insert_ne; [done|].
  intros [= Hn Hq Hm]. apply Hne; [done|]. by rewrite Hn, Hq.
Qed.

Lemma put_store now s conn :
  Store.approved_definitions (Store.PutResolvedConnection now s conn).1 = Store.approved_definitions s ∧
  ∀ name, Store.committed_view (Store.PutResolvedConnection now s conn).1 name =
    Store.committed_view s name.
Proof. unfold Store.PutResolvedConnection. by destruct (guard_err _ _;; _). Qed.

Lemma put_jobs now s conn js :
  Forall (job_ok s) js → Forall (job_ok (Store.PutResolvedConnection now s conn).1) js.
Proof.
  destruct (put_store now s conn) as [Ha Hv]. apply jobs_ok_same; [|done].
  intros name. rewrite Hv. apply Store.view_le_refl.
Qed.

Lemma cache_put now s conn s' r :
  cache_connection now s conn = (s', r) → s' = (Store.PutResolvedConnection now s conn).1.
Proof. unfold cache_connection. destruct (Store.PutResolvedConnection now s conn). by intros [= <- _]. Qed.

Lemma no_approval_package s def :
  runtime_inv s → Store.validateDefinition def = Ok () → no_approval s def → approved_package s def = None.
Proof.
  intros Hs Hd Hno. pose proof (GetApproval_package s def Hs Hd) as Ha.
  destruct Hno as [E|(a & E & Hm)]; rewrite E in Ha; [done|]. destruct Ha as (-> & _). by rewrite Hm.
Qed.

Lemma store_ops_ok s js :
  world_ok (mkWorld s js) →
  (∀ now def msp, world_ok (mkWorld (Store.CommitDefinition now s def msp).1 js)) ∧
  (∀ now def init, world_ok (mkWorld (Store.UpsertCommittedFromLedger now s def init).1 js)) ∧
  (∀ now def msp, world_ok (mkWorld (Store.MarkInitialized now s def msp).1 js)).
Proof.
  intros [Hs Hjs]. cbn [w_store w_jobs] in *.
  assert (Hgo : ∀ s', Store.store_ok s' ∧ Store.store_le s s' →
    Store.installed_packages s' = Store.installed_packages s ∧
    Store.approved_definitions s' = Store.approved_definitions s ∧
    Store.resolved_connections s' = Store.resolved_connections s → world_ok (mkWorld s' js)).
  { intros s' [Hok Hle] (Hi & Ha & Hr). split; [by apply (inv_committed s)|by apply (jobs_ok_same s)]. }
  split_and!; intros; apply Hgo.
  - apply (Store.Commit_step now s def msp (ri_store s Hs)).
  - unfold Store.CommitDefinition.
    destruct (Store.ValidateCommitDefinition s def msp); [apply upsertCommitted_other|done].
  - apply (Store.Upsert_step now s def init (ri_store s Hs)).
  - unfold Store.UpsertCommittedFromLedger. repeat (case_match; try done); apply upsertCommitted_other.
  - apply (Store.MarkInitialized_step now s def msp (ri_store s Hs)).
  - unfold Store.MarkInitialized. by repeat (case_match; try done).
Qed.

(** The jobs around one of them. *)
Lemma jobs_middle s js1 j js2 :
  Forall (job_ok s) (js1 ++ j :: js2) ↔ job_ok s j ∧ Forall (job_ok s) (js1 ++ js2).
Proof. rewrite !Forall_app, Forall_cons. tauto. Qed.

Lemma step_world_ok e channel r w l w' :
  localMSPID e = local → Ccr.resolver_ok r → (resolver e = None ∨ resolver e = Some r) →
  world_ok w → world_step e channel w l w' → world_ok w'.
Proof.
  intros He Hr Hre Hw Hst.
  destruct Hst; destruct Hw as [Hs Hjs]; cbn [w_store w_jobs] in *;
    try (apply (store_ops_ok s js); by split);
    try (apply jobs_middle in Hjs as [Hj Hjs]); unfold world_ok; cbn [w_store w_jobs];
    rewrite ?jobs_middle; try (by split_and!).
  - pose proof (Store.Install_step now s pkg (ri_store s Hs)) as [_ Hle].
    split; [by apply inv_install|]. apply (jobs_ok_same s); [done| |done].
    unfold Store.Install. by case_bool_decide.
  - pose proof (Store.Approve_step now s def id msp (ri_store s Hs)) as [_ Hle].
    split; [by apply inv_approve|]. rewrite Forall_forall in Hjs |- *. intros j Hj.
    apply (job_ok_le s); [done| |by apply Hjs]. intros d Hd. apply approve_other.
    intros Hm Heq. apply (H Hm j Hj). by rewrite Hd, Heq.
  - split; [done|]. constructor; [|done].
    destruct (resolveCommittedDefinition_active _ _ _ H0) as [Hv _]. by eapply known_active.
  - split_and!; [done| |done]. cbn [job_ok] in *. split; [done|].
    pose proof (GetApproval_package s def Hs (proj1 Hj)) as Ha. rewrite H in Ha.
    destruct Ha as (Hp & Haddr & _). by rewrite Hp, H0.
  - split_and!; [done| |done]. destruct (resolver e); cbn [job_ok] in *; [|done]. split; [done|].
    by apply no_approval_package; [|apply Hj|].
  - apply cache_put in H as ->. destruct Hj as (Hk & Ha & Haddr).
    split; [|by apply put_jobs]. apply inv_put; [done|]. by apply approved_cacheable.
  - apply cache_put in H1 as ->. destruct Hj as [Hk Ha]. split; [|by apply put_jobs].
    apply inv_put; [done|]. destruct Hre as [E|E]; rewrite E in H; [done|]. injection H as <-.
    by eapply resolved_cacheable.
  - split_and!; [done| |done]. by destruct Hj.
  - split; [done|]. constructor; [|done]. split; [done|]. by apply no_approval_package; [|apply H|].
  - destruct Hj as [Hk Ha]. split; [|by apply put_jobs].
    apply inv_put; [done|]. destruct Hre as [E|E]; rewrite E in H; [done|]. injection H as <-.
    by eapply resolved_cacheable.
Qed.

Lemma reachable_world_ok e channel r w :
  localMSPID e = local → Ccr.resolver_ok r → (resolver e = None ∨ resolver e = Some r) →
  world_reachable e channel w → world_ok w.
Proof.
  intros He Hr Hre. induction 1 as [s Hn|w l w' _ IH Hst]; [|by eapply step_world_ok].
  pose proof (Store.new_store_ok _ _ Hn) as Hok. unfold Store.NewMemoryStore in Hn.
  case_bool_decide; [done|]. injection Hn as <-. split; [|constructor].
  constructor; [done|done| |]; intros; cbn in *; by rewrite lookup_empty in *.
Qed.
(** ** Lemmas on one choice *)

Section Choice.
Variable r : Ccr.chaincodeConnectionResolvers.
Hypothesis Hr : Ccr.resolver_ok r.

Lemma PutResolved_found now s conn s' conn' def :
  Store.PutResolvedConnection now s conn = (s', Ok conn') →
  Store.conn_MSPID conn = local → Store.conn_Name conn = Store.Name def →
  Store.conn_Version conn = Store.Version def → Store.conn_Sequence conn = Store.Sequence def →
  Store.conn_Address conn' = Store.conn_Address conn ∧
  Store.GetResolvedConnection s' local def = Ok (Some conn').
Proof.
  unfold Store.PutResolvedConnection. intros H Hm Hn Hv Hq.
  destruct (guard_err _ _;; _) as [u|] eqn:E; [|done]. injection H as <- <-. simpl.
  split; [done|]. inv_ok. bool_props. unfold Store.GetResolvedConnection.
  rewrite <- Hm, (bool_decide_eq_false_2 (Store.conn_MSPID conn = "")) by done.
  assert (Hval : Store.validateDefinition def = Ok ()).
  { apply Store.validateDefinition_ok in Hx0 as (H1 & H2 & H3). simpl in *.
    apply Store.validateDefinition_ok. rewrite <- Hn, <- Hv, <- Hq. done. }
  cbn [guard_err mbind result_mbind]. rewrite Hval. cbn [mbind result_mbind].
  cbn [Store.resolved_connections Store.set_resolved].
  rewrite <- Hn, <- Hq, lookup_insert_eq. cbn [mbind option_bind].
  rewrite bool_decide_eq_true_2 by done. unfold Store.scanResolvedConnection.
  cbn. done.
Qed.

(** What an execution resolved is in the cache afterwards. *)
Lemma resolved_is_cached e now call s s' def conn :
  localMSPID e = local → (resolver e = None ∨ resolver e = Some r) →
  resolveChaincodeConnection e now call s def = (s', Ok (Some conn)) →
  ∃ cached, Store.GetResolvedConnection s' local def = Ok (Some cached) ∧
    Store.conn_Address cached = Store.conn_Address conn.
Proof.
  intros He Hre. unfold resolveChaincodeConnection. rewrite He.
  destruct (lookup_connection s local def) as [[c|c|]|] eqn:El; [| | |done].
  - intros [= <- <-]. unfold lookup_connection in El.
    apply bind_ok in El as ([c'|] & Eg & El); [injection El as <-; eauto|].
    apply bind_ok in El as ([a|] & _ & El); [|done]. by destruct (lifecycleDefinitionsMatch _ def).
  - unfold lookup_connection in El. apply bind_ok in El as ([c'|] & _ & El); [done|].
    apply bind_ok in El as ([a|] & _ & El); [|done].
    destruct (lifecycleDefinitionsMatch _ def); [|done]. injection El as <-.
    unfold cache_connection. destruct (Store.PutResolvedConnection _ _ _) as [s1 [c'|]] eqn:Ep; [|done].
    intros [= <- <-]. exists c'. split; [|done]. by apply (PutResolved_found _ _ _ _ _ def) in Ep as [_ ?].
  - destruct Hre as [->| ->]; [done|].
    destruct (Ccr.Resolve r call _) as [[c|]|] eqn:Er; [|done..].
    apply Ccr.Resolve_answers in Er as (Hm & Hn & Hv & Hq & _); [|done]. simpl in *.
    unfold cache_connection. destruct (Store.PutResolvedConnection _ _ _) as [s1 [c'|]] eqn:Ep; [|done].
    intros [= <- <-]. exists c'. split; [|done]. by apply (PutResolved_found _ _ _ _ _ def) in Ep as [_ ?].
Qed.

Lemma recorded_cached s namespace def cached :
  Store.GetResolvedConnection s local def = Ok (Some cached) → Store.conn_Address cached ≠ "" →
  approved_package s def = None → runtime_inv s → Store.validateDefinition def = Ok () →
  b_PackageAddress (recorded_binding s local namespace def) = Store.conn_Address cached.
Proof.
  intros Hg Hne Hno Hs Hd. pose proof (GetApproval_package s def Hs Hd) as Ha.
  unfold recorded_binding. rewrite Hg.
  destruct (Store.GetApproval s def local) as [[a|]|]; [|done..].
  destruct Ha as (Hp & _). rewrite Hno in Hp. by destruct (lifecycleDefinitionsMatch _ def).
Qed.

Lemma recorded_names s namespace def :
  b_MSPID (recorded_binding s local namespace def) = local ∧
  b_ChaincodeName (recorded_binding s local namespace def) = Store.Name def ∧
  b_ChaincodeVersion (recorded_binding s local namespace def) = Store.Version def ∧
  b_Sequence (recorded_binding s local namespace def) = Store.Sequence def.
Proof.
  unfold recorded_binding, applyResolvedBinding.
  destruct (Store.GetApproval s def local) as [[a|]|];
    [destruct (lifecycleDefinitionsMatch _ def)|..];
    by destruct (Store.GetResolvedConnection s local def) as [[c|]|].
Qed.

Lemma lookup_after s def conn :
  lookup_connection s local def = Ok (Cached conn) →
  Store.GetResolvedConnection s local def = Ok (Some conn).
Proof.
  unfold lookup_connection. intros H. apply bind_ok in H as ([c|] & Hg & H); [by injection H as <-|].
  apply bind_ok in H as ([a|] & _ & H); [|done]. by destruct (lifecycleDefinitionsMatch _ def).
Qed.

(** An approved revision resolves to the approved package's address. *)
Lemma resolve_approved e now call s name d i id :
  localMSPID e = local → runtime_inv s → local ≠ "" → Store.committed_view s name = Some (d, i) →
  approved_package s d = Some id →
  ∃ s' conn, resolveChaincodeConnection e now call s d = (s', Ok (Some conn)) ∧
    Store.conn_Address conn = address_of id ∧ Store.conn_TLSMode conn = "none".
Proof.
  intros He Hs Hl Hv Hid.
  destruct (Store.committed_view_def s name d i (ri_store s Hs) Hv) as [_ Hd].
  pose proof (GetApproval_package s d Hs Hd) as Hp.
  destruct (lookup_found s name d i id Hs Hl Hv Hid) as (conn & Hfound & Hca & Hct).
  unfold resolveChaincodeConnection. rewrite He. destruct Hfound as [Hf|Hf]; rewrite Hf; [eauto|].
  unfold lookup_connection in Hf. apply bind_ok in Hf as ([x|] & _ & Hf); [done|].
  apply bind_ok in Hf as ([a|] & Hg & Hf); [|done]. rewrite Hg in Hp.
  destruct (lifecycleDefinitionsMatch _ d); [|done]. injection Hf as <-.
  unfold cache_connection, Store.PutResolvedConnection. simpl in Hca |- *.
  rewrite (bool_decide_eq_false_2 (local = "")) by done.
  assert (Hval : Store.validateDefinition
    (Store.mkDefinition (Store.Name d) (Store.Version d) (Store.Sequence d) false) = Ok ()).
  { apply Store.validateDefinition_ok. by apply Store.validateDefinition_ok in Hd. }
  cbn [guard_err mbind result_mbind]. rewrite Hval. cbn [mbind result_mbind].
  destruct Hp as (_ & Haddr & Hne & _). simpl in *.
  rewrite bool_decide_eq_false_2 by congruence. cbn [guard_err].
  by eexists _, _.
Qed.

(** Resolving changes no committed definition. *)
Lemma resolve_view e now call s def name :
  Store.committed_view (resolveChaincodeConnection e now call s def).1 name = Store.committed_view s name.
Proof.
  assert (H : ∀ x, Store.committed_view (cache_connection now s x).1 name = Store.committed_view s name).
  { intros x. unfold cache_connection, Store.PutResolvedConnection. by destruct (guard_err _ _;; _). }
  unfold resolveChaincodeConnection.
  destruct (lookup_connection s _ def) as [[x|x|]|]; [done|apply H| |done].
  destruct (resolver e); [|done]. destruct (Ccr.Resolve _ _ _) as [[x|]|]; [apply H|done..].
Qed.

(** A cached connection of an approved active revision is at the approved package's address. *)
Lemma cached_approved s d i id cached :
  runtime_inv s → local ≠ "" → Store.committed_view s (Store.Name d) = Some (d, i) →
  Store.GetResolvedConnection s local d = Ok (Some cached) → approved_package s d = Some id →
  Store.conn_Address cached = address_of id.
Proof.
  intros Hs Hl Hv Hg Hid. destruct (Store.committed_view_def s _ _ _ (ri_store s Hs) Hv) as [_ Hd].
  unfold Store.GetResolvedConnection in Hg. rewrite (bool_decide_eq_false_2 (local = "")) in Hg by done.
  cbn [guard_err mbind result_mbind] in Hg. rewrite Hd in Hg. cbn [mbind result_mbind] in Hg.
  destruct (_ !! (local, _, _)) as [row|] eqn:Er; [|done]. cbn [mbind option_bind] in Hg.
  case_bool_decide as Hver; [|done]. injection Hg as <-.
  exact (ri_address s Hs _ _ _ _ _ Hv Er Hver Hid).
Qed.

Lemma GetApproval_installed s def a :
  Store.GetApproval s def local = Ok (Some a) →
  ∃ p, Store.installed_packages s !! Store.app_PackageID a = Some p ∧
    Store.pkg_Address p = Store.app_PackageAddress a.
Proof.
  unfold Store.GetApproval. destruct (Store.validateDefinition def); [|done]. cbn [mbind result_mbind].
  destruct (_ !! (_, _, local)) as [row|]; [|done]. cbn [mbind option_bind].
  destruct (_ !! Store.apr_package_id row) as [p|] eqn:Hp; [|done]. cbn [mbind option_bind].
  intros [= <-]. by exists p.
Qed.

(** Every connector that an execution takes for an approved active revision is the approved
    package's. *)
Lemma taken_approved e channel w w' def endpoint i id :
  localMSPID e = local → local ≠ "" → world_ok w →
  world_step e channel w (Some (def, endpoint)) w' →
  Store.committed_view (w_store w) (Store.Name def) = Some (def, i) →
  approved_package (w_store w) def = Some id → endpoint = Ok (address_of id).
Proof.
  intros He Hl [Hs Hjs] Hst Hv Hid. assert (Hne : address_of id ≠ "").
  { pose proof (GetApproval_package (w_store w) def Hs
      (proj2 (Store.committed_view_def _ _ _ _ (ri_store _ Hs) Hv))) as Ha.
    destruct (Store.GetApproval (w_store w) def local) as [[a|]|]; [|congruence|done].
    destruct Ha as (Hp & _ & Hne & _). rewrite Hid in Hp.
    destruct (lifecycleDefinitionsMatch _ def); [|done]. by injection Hp as ->. }
  assert (Hconn : ∀ conn, Store.conn_Address conn = address_of id → Store.conn_TLSMode conn = "none" →
    connector_of e (Some conn) = Ok (address_of id)).
  { intros conn Ha Ht. unfold connector_of, Shim.NewConnector. rewrite Ha, Ht.
    by rewrite (bool_decide_eq_false_2 (address_of id = "")). }
  remember (Some (def, endpoint)) as l eqn:El.
  destruct Hst; try done; injection El as Ed <-;
    match type of Ed with ?x = def => subst x end; cbn [w_store w_jobs] in *;
    apply jobs_middle in Hjs as [Hj _].
  - destruct (lookup_found s _ def i id Hs Hl Hv Hid) as (conn' & Hfound & Ha & Ht).
    unfold lookup_connection in Hfound. rewrite H in Hfound. cbn [mbind result_mbind] in Hfound.
    destruct Hfound as [[= <-]|?]; [by apply Hconn|done].
  - destruct Hj as (_ & Ha & Haddr). rewrite Hid in Ha. injection Ha as ->.
    revert H. unfold cache_connection, Store.PutResolvedConnection. destruct (guard_err _ _;; _); [|done].
    intros [= _ <-]. by apply Hconn.
  - destruct Hj as [_ Ha]. congruence.
  - destruct (Store.committed_view_def s _ def i (ri_store s Hs) Hv) as [_ Hd].
    pose proof (GetApproval_package s def Hs Hd) as Ha.
    assert (Hn : Store.Name def ≠ "") by (apply Store.validateDefinition_ok in Hd; tauto).
    unfold legacy_connection, Store.ResolveCommittedPackage.
    rewrite Store.ListCommitted_named by done. unfold Store.committed_view in Hv.
    destruct (_ !! Store.Name def) as [row|]; [|done]. cbn [fmap option_fmap option_map] in Hv.
    injection Hv as Hv _. rewrite (bool_decide_eq_false_2 (Store.Name def = "")) by done.
    cbn [andb guard_err mbind result_mbind].
    change (Store.com_Definition (Store.scanCommitted (Store.Name def) row)) with
      (Store.mkDefinition (Store.Name def) (Store.cmr_version row) (Store.cmr_sequence row)
         (negb (Store.cmr_init_required row =? 0))). rewrite Hv, He.
    destruct (Store.GetApproval s def local) as [[a|]|] eqn:Hg; [|congruence|done].
    apply GetApproval_installed in Hg as (pkg & Hpkg & Hpa). cbn [mbind result_mbind].
    destruct Ha as (Hp & Haddr & _ & Hpid). rewrite Hid in Hp.
    destruct (lifecycleDefinitionsMatch (Store.app_Definition a) def) eqn:Hm; [|done]. injection Hp as ->.
    change (Store.definitionMatches (Store.app_Definition a) def) with
      (lifecycleDefinitionsMatch (Store.app_Definition a) def). rewrite Hm.
    cbn [negb guard_err mbind result_mbind]. unfold Store.GetInstalled.
    rewrite bool_decide_eq_false_2 by done. cbn [mbind result_mbind].
    rewrite Hpkg. cbn [mbind result_mbind]. apply Hconn; [|done]. simpl. congruence.
Qed.

End Choice.
End Runtime.

(** ** Properties *)

Section Configured.
Context {NL : Network.NetworkLib}.

(** The resolver of an executor is nil or one the constructor made. *)
Definition configured (e : lifecycleExecutor) : Prop :=
  ∃ n cfg n', Ccr.newChaincodeConnectionResolver n cfg = (n', Ok (resolver e)).

Lemma configured_resolver e :
  configured e → ∃ r, Ccr.resolver_ok r ∧ (resolver e = None ∨ resolver e = Some r).
Proof.
  intros (n & cfg & n' & H). destruct (resolver e) as [r|].
  - exists r. split; [by eapply Ccr.new_resolver_ok|by right].
  - exists (Ccr.mkResolvers None None). split; [by intros ? [=]|by left].
Qed.

Lemma world_reachable_ok e address_of channel w :
  configured e → world_reachable (localMSPID e) address_of e channel w →
  world_ok (localMSPID e) address_of w.
Proof.
  intros Hcfg. destruct (configured_resolver e Hcfg) as (r & Hr & Hre).
  by apply (reachable_world_ok (localMSPID e) address_of e channel r).
Qed.

(** The executor's statements in sequence are its steps without an interruption. *)
Section Uninterrupted.
Variables (local : string) (address_of : string → string) (e : lifecycleExecutor) (channel : string).
Hypothesis He : localMSPID e = local.
Notation silent := (λ w w', world_step local address_of e channel w None w').
Notation shows := (world_step local address_of e channel).

Lemma asking_steps now call s js def s' endpoint :
  no_approval local s def →
  match (match resolver e with
    | None => (s, Ok None)
    | Some r =>
        match Ccr.Resolve r call (Ccr.mkRequest (Store.channelID s) local def) with
        | Err err => (s, Err err)
        | Ok None => (s, Ok None)
        | Ok (Some resolved) => cache_connection now s resolved
        end
    end) with
  | (s1, Err err) => (s1, Err err)
  | (s1, Ok (Some conn)) => (s1, connector_of e (Some conn))
  | (s1, Ok None) => (s1, legacy_connection e s1 def ≫= connector_of e)
  end = (s', Ok endpoint) →
  ∃ w, rtc silent (mkWorld s (Missed def :: js)) w ∧ shows w (Some (def, Ok endpoint)) (mkWorld s' js).
Proof.
  intros Hno Hrun. pose proof (ws_ask local address_of e channel def s [] js Hno) as Hask.
  assert (Hlegacy : rtc silent (mkWorld s (Missed def :: js)) (mkWorld s (Unresolved def :: js)) →
    (s, legacy_connection e s def ≫= connector_of e) = (s', Ok endpoint) →
    ∃ w, rtc silent (mkWorld s (Missed def :: js)) w ∧ shows w (Some (def, Ok endpoint)) (mkWorld s' js)).
  { intros Hw [= <- Hl]. eexists. split; [exact Hw|]. rewrite <- Hl. apply (ws_legacy _ _ e channel def s [] js). }
  destruct (resolver e) as [r|] eqn:Hr; [|apply Hlegacy; [by apply rtc_once|done]].
  destruct (Ccr.Resolve r call _) as [[resolved|]|] eqn:Hres; [| |done].
  - destruct (cache_connection now s resolved) as [s1 [[conn|]|]] eqn:Hc; [| |done].
    + injection Hrun as <- Hl. eexists. split; [by apply rtc_once|]. rewrite <- Hl.
      eapply (ws_answer _ _ e channel def r call now resolved conn s s1 [] js); [done|done|done].
    + exfalso. revert Hc. unfold cache_connection. by destruct (Store.PutResolvedConnection _ _ _) as [? []].
  - apply Hlegacy; [|done]. eapply rtc_l; [exact Hask|]. apply rtc_once.
    by apply (ws_unknown _ _ e channel def r call s [] js).
Qed.

Lemma execution_steps now call s js c name version d s' endpoint :
  lifecycleIdentityFromExecution c = (name, version) →
  resolveCommittedDefinition s name = Ok (Some d) →
  choose_connector e now call s c = (s', Ok endpoint) →
  ∃ w, rtc silent (mkWorld s js) w ∧
    shows w (Some (Store.com_Definition d, Ok endpoint)) (mkWorld s' js).
Proof.
  intros Hid Hd. unfold choose_connector. rewrite Hid, Hd. set (def := Store.com_Definition d).
  destruct (revision_changed c version def) eqn:Hrev; [done|].
  pose proof (ws_select local address_of e channel c name version d s js Hid Hd Hrev) as Hsel. fold def in Hsel.
  unfold resolveChaincodeConnection, lookup_connection. rewrite He.
  destruct (Store.GetResolvedConnection s local def) as [[conn|]|] eqn:Hget;
    cbn [mbind result_mbind]; [| |done].
  { intros [= <- Hl]. eexists. split; [by apply rtc_once|].
    rewrite <- Hl. by apply (ws_hit _ _ e channel def conn s [] js). }
  pose proof (ws_miss local address_of e channel def s [] js Hget) as Hmiss.
  assert (Hstart : rtc silent (mkWorld s js) (mkWorld s (Missed def :: js)))
    by (eapply rtc_l; [exact Hsel|]; by apply rtc_once).
  destruct (Store.GetApproval s def local) as [[a|]|] eqn:Hg; cbn [mbind result_mbind]; [| |done].
  2:{ intros Hrun. destruct (asking_steps now call s js def s' endpoint ltac:(by left) Hrun) as (w & Hw & Hst).
      exists w. split; [by etrans|done]. }
  destruct (lifecycleDefinitionsMatch (Store.app_Definition a) def) eqn:Hm.
  2:{ intros Hrun. destruct (asking_steps now call s js def s' endpoint ltac:(right; eauto) Hrun) as (w & Hw & Hst).
      exists w. split; [by etrans|done]. }
  destruct (cache_connection now s _) as [s1 [[conn|]|]] eqn:Hc; [| |done].
  - intros [= <- Hl]. eexists. split.
    + etrans; [exact Hstart|]. apply rtc_once. by apply (ws_found _ _ e channel def a s [] js).
    + rewrite <- Hl. by eapply (ws_cache _ _ e channel def a now conn s s1 [] js).
  - exfalso. revert Hc. unfold cache_connection. by destruct (Store.PutResolvedConnection _ _ _) as [? []].
Qed.

Lemma execution_reachable now call s js c name version d s' endpoint :
  lifecycleIdentityFromExecution c = (name, version) →
  resolveCommittedDefinition s name = Ok (Some d) →
  choose_connector e now call s c = (s', Ok endpoint) →
  world_reachable local address_of e channel (mkWorld s js) →
  world_reachable local address_of e channel (mkWorld s' js).
Proof.
  intros Hid Hd Hc Hreach. destruct (execution_steps now call s js c name version d s' endpoint Hid Hd Hc)
    as (w & Hw & Hst). eapply wr_next; [|exact Hst]. revert Hreach. clear Hst.
  induction Hw as [|w1 w2 w3 H12 _ IH]; [done|]. intros Hreach. apply IH. by eapply wr_next.
Qed.

End Uninterrupted.


(** The evidence made after an execution names the definition and the service that the
    execution used: its connection is the one the execution resolved, with the approved package's
    identifier when there is an approval. *)
Theorem evidence_names_endpoint e address_of channel s s' d now call conn now' call' req namespace c :
  configured e → localMSPID e ≠ "" → ChaincodeName req ≠ "" →
  world_reachable (localMSPID e) address_of e channel (mkWorld s []) →
  Store.GetCommitted s (Store.Name (Store.com_Definition d)) = Ok (Some d) →
  resolveChaincodeConnection e now call s (Store.com_Definition d) = (s', Ok (Some conn)) →
  connector_of e (Some conn) = Ok c → definition req = Some d →
  ∃ s'' b, lifecycleExecutionBinding e now' call' (localMSPID e) channel (Some s') req namespace =
      (Some s'', Some b) ∧
    b_MSPID b = localMSPID e ∧ b_ChaincodeName b = Store.Name (Store.com_Definition d) ∧
    b_ChaincodeVersion b = Store.Version (Store.com_Definition d) ∧
    b_Sequence b = Store.Sequence (Store.com_Definition d) ∧ b_PackageAddress b = c.
Proof.
  intros Hcfg Hl Hn Hs Hcom Hres Hconn Hdef.
  destruct (configured_resolver e Hcfg) as (r & Hr & Hre).
  apply world_reachable_ok in Hs as [Hs _]; [|done]. cbn [w_store] in Hs. set (def := Store.com_Definition d) in *.
  pose proof (GetCommitted_active _ _ _ Hcom) as Hv. fold def in Hv.
  destruct (Store.committed_view_def s _ _ _ (ri_store _ _ s Hs) Hv) as [_ Hd].
  destruct (resolved_is_cached _ r Hr e now call s s' def conn eq_refl Hre Hres) as (cached & Hg & Hca).
  assert (Hs' : runtime_inv (localMSPID e) address_of s').
  { pose proof (resolve_inv _ address_of r Hr e now call s _ def _ eq_refl Hre Hs Hv) as H.
    by rewrite Hres in H. }
  assert (Hc : c ≠ "" ∧ Store.conn_Address conn = c).
  { unfold connector_of in Hconn. apply bind_ok in Hconn as ([] & _ & Hconn).
    unfold Shim.NewConnector in Hconn. case_bool_decide; [done|]. injection Hconn as <-. done. }
  destruct Hc as [Hne Hc].
  assert (Hb : b_PackageAddress (recorded_binding s' (localMSPID e) namespace def) = c).
  { destruct (approved_package (localMSPID e) s' def) as [id|] eqn:Hid.
    - destruct (recorded_approved _ address_of s' namespace def id Hs' Hd Hid) as (_ & -> & _).
      pose proof (resolve_view e now call s def (Store.Name def)) as Hv'.
      rewrite Hres in Hv'. cbn [fst] in Hv'. rewrite Hv in Hv'.
      by rewrite <- Hc, <- Hca, (cached_approved _ address_of s' def _ id cached Hs' Hl Hv' Hg Hid).
    - rewrite (recorded_cached _ address_of s' namespace def cached); try done; congruence. }
  destruct (recorded_names (localMSPID e) s' namespace def) as (H1 & H2 & H3 & H4).
  unfold lifecycleExecutionBinding. rewrite !bool_decide_eq_false_2 by done. cbn [orb].
  rewrite Hdef. fold def.
  assert (Hkeep : ∀ x, b_PackageAddress (applyResolvedBinding
    (recorded_binding s' (localMSPID e) namespace def) x) = c).
  { intros x. unfold applyResolvedBinding. simpl. rewrite Hb. by rewrite bool_decide_eq_false_2. }
  destruct (_ || _); [|by eexists _, _].
  destruct (resolver e) as [r'|]; [|by eexists _, _].
  destruct (Ccr.Resolve r' _ _) as [[x|]|]; [|by eexists _, _..].
  destruct (Store.PutResolvedConnection now' s' x) as [s2 put].
  eexists _, _. split; [done|]. by split_and!.
Qed.

(** The lookup and the caching of an answer are separate statements of the store.  When an
    approval is recorded between them, the resolver's late answer is cached over it: the next
    execution uses that answer although the approval is in force. *)
Lemma late_answer_wins s s1 s2 mspID def conn conn' a now :
  lookup_connection s mspID def = Ok Ask →
  Store.GetApproval s1 def mspID = Ok (Some a) → Store.app_Definition a = def →
  Store.PutResolvedConnection now s1 conn = (s2, Ok conn') →
  Store.conn_MSPID conn = mspID → Store.conn_Name conn = Store.Name def →
  Store.conn_Version conn = Store.Version def → Store.conn_Sequence conn = Store.Sequence def →
  lookup_connection s2 mspID def = Ok (Cached conn') ∧
  Store.conn_Address conn' = Store.conn_Address conn ∧
  Store.GetApproval s2 def mspID = Ok (Some a).
Proof.
  intros _ Hg _ Hp Hm Hn Hv Hq.
  destruct (PutResolved_found mspID now s1 conn s2 conn' def Hp Hm Hn Hv Hq) as [Haddr Hfound].
  unfold lookup_connection. rewrite Hfound. split_and!; [done|done|].
  rewrite <- Hg. unfold Store.PutResolvedConnection in Hp.
  destruct (guard_err _ _;; _); [|done]. by injection Hp as <- _.
Qed.

End Configured.

(** ** Transport *)

Lemma field_omitted_string name s o acc :
  acc = "" → json_field as_string name (omitempty name (JString s) ++ o) acc = json_field as_string name o s.
Proof. intros ->. destruct s as [|a s]; [done|]. cbn [omitempty app]. by json_fields. Qed.

Lemma field_omitted_int name z o :
  is_int64 z → json_field as_int64 name (omitempty name (JNumber z) ++ o) 0 = json_field as_int64 name o z.
Proof.
  intros Hz. destruct (decide (z = 0)) as [->|Hn]; [done|].
  replace (omitempty name (JNumber z)) with [(name, JNumber z)] by (by destruct z).
  cbn [app]. rewrite (json_field_take _ _ _ z); [done| |done]. unfold as_int64, as_int, is_int64 in *.
  by replace ((- 2 ^ 63 <=? z) && (z <? 2 ^ 63)) with true by lia.
Qed.

Lemma field_other {A} (conv : jscalar → option A) name k v o acc :
  fold_name k ≠ fold_name name → json_field conv name (omitempty k v ++ o) acc = json_field conv name o acc.
Proof.
  intros H. unfold omitempty.
  destruct v as [[|a s]|[]|[]| |]; cbn [app]; first [done | by apply json_field_skip].
Qed.

Ltac binding_fields :=
  repeat first
    [ rewrite field_other by (vm_compute; discriminate)
    | rewrite field_omitted_string by reflexivity
    | rewrite field_omitted_int by assumption ].

Lemma valid_omitempty {J : JSONText} name v :
  valid_utf8 name = true → valid_scalar v = true → valid_object (omitempty name v) = true.
Proof.
  intros Hn Hv. unfold omitempty, valid_object.
  destruct v as [[|a s]|[]|[]| |]; simpl in *; by rewrite ?Hn, ?Hv.
Qed.

Lemma valid_app {J : JSONText} o1 o2 :
  valid_object o1 = true → valid_object o2 = true → valid_object (o1 ++ o2) = true.
Proof. unfold valid_object. intros H1 H2. by rewrite forallb_app, H1, H2. Qed.

(** Text fields that JSON keeps, and a sequence of its type. *)
Definition binding_ok {J : JSONText} (b : LifecycleExecutionBinding) : Prop :=
  Forall (λ s, valid_utf8 s = true)
    [b_MSPID b; b_Namespace b; b_ChaincodeName b; b_ChaincodeVersion b; b_PackageID b; b_PackageAddress b] ∧
  is_int64 (b_Sequence b).

(** Evidence survives its transport: what one orchestrator sets as a header, another reads
    back unchanged, empty fields included; without the header there is no evidence. *)
Theorem binding_roundtrip {J : JSONText} {JL : JSONLaws} b md rest :
  binding_ok b → md GRPCLifecycleBindingMetadata = encodeLifecycleBinding b :: rest →
  lifecycleBindingFromMetadata md = Ok (Some b) ∧ lifecycleBindingFromMetadata (λ _, []) = Ok None.
Proof.
  intros [Hs Hz] Hmd. split; [|done]. rewrite !Forall_cons in Hs.
  destruct Hs as (H1 & H2 & H3 & H4 & H5 & H6 & _).
  unfold lifecycleBindingFromMetadata, decodeLifecycleBinding. rewrite Hmd.
  unfold encodeLifecycleBinding. rewrite base64_decode_encode. cbn [mbind result_mbind].
  unfold json_object. rewrite json_decode_encode.
  2:{ unfold binding_json. repeat apply valid_app;
      (apply valid_omitempty; [by apply valid_utf8_ascii|done]). }
  cbn [mbind result_mbind]. unfold binding_of_json, binding_json.
  set (t7 := omitempty "package_address" _).
  assert (E7 : t7 = t7 ++ []) by (by rewrite app_nil_r). rewrite E7. unfold t7.
  binding_fields. cbn [json_field mbind result_mbind]. by destruct b.
Qed.

Definition ex_binding : LifecycleExecutionBinding := mkBinding "Org1MSP" "" "asset" "1.0" 1 "" "cc:9999".

Lemma binding_roundtrip_witness :
  @lifecycleBindingFromMetadata example_json
    (λ k, if bool_decide (k = GRPCLifecycleBindingMetadata)
          then [@encodeLifecycleBinding example_json ex_binding] else []) = Ok (Some ex_binding).
Proof.
  refine (proj1 (@binding_roundtrip example_json example_json_laws ex_binding _ [] _ _)).
  - split; [repeat constructor|]. unfold is_int64. simpl. lia.
  - reflexivity.
Defined.

(** ** Sorted evidence *)

Definition by_msp (a b : LifecycleExecutionBinding) : Prop := String.leb (b_MSPID a) (b_MSPID b) = true.

Lemma insert_binding_perm b l : insert_binding b l ≡ₚ b :: l.
Proof.
  induction l as [|x l IH]; simpl; [done|]. destruct (String.leb _ _); [done|].
  rewrite IH. by constructor.
Qed.

Lemma insert_binding_filter m b l :
  filter (λ x, b_MSPID x = m) (insert_binding b l) = filter (λ x, b_MSPID x = m) (b :: l).
Proof.
  induction l as [|x l IH]; simpl; [done|]. destruct (String.leb _ _) eqn:E; [done|].
  rewrite (filter_cons _ x), IH, !(filter_cons _ b), (filter_cons _ x).
  destruct (decide (b_MSPID x = m)) as [<-|]; [|done].
  assert (Hne : b_MSPID b ≠ b_MSPID x).
  { intros Heq. rewrite Heq in E. destruct (String.leb_total (b_MSPID x) (b_MSPID x)); congruence. }
  by rewrite !decide_False.
Qed.

Lemma sorted_insert b l : Sorted by_msp l → Sorted by_msp (insert_binding b l).
Proof.
  induction 1 as [|x l Hl IH Hx]; simpl; [by repeat constructor|].
  destruct (String.leb _ _) eqn:E; [by repeat constructor|]. constructor; [done|].
  assert (Hb : by_msp x b).
  { destruct (String.leb_total (b_MSPID b) (b_MSPID x)); [congruence|done]. }
  destruct l as [|y l]; simpl; [by constructor|]. destruct (String.leb _ (b_MSPID y)); [by constructor|].
  by inversion Hx; constructor.
Qed.

(** The evidence of a response lists every execution's binding, sorted by organization; the
    bindings of one organization keep the order local first, then as the remotes answered. *)
Theorem lifecycleBindings_sorted local remote m :
  lifecycleBindings local remote ≡ₚ omap res_Binding (local :: remote) ∧
  Sorted by_msp (lifecycleBindings local remote) ∧
  filter (λ b, b_MSPID b = m) (lifecycleBindings local remote) =
    filter (λ b, b_MSPID b = m) (omap res_Binding (local :: remote)).
Proof.
  unfold lifecycleBindings. induction (omap res_Binding (local :: remote)) as [|b l (IH1 & IH2 & IH3)];
    [by repeat constructor|]. cbn [sort_bindings foldr]. fold (sort_bindings l). split_and!.
  - rewrite insert_binding_perm. by rewrite IH1.
  - by apply sorted_insert.
  - by rewrite insert_binding_filter, !filter_cons, IH3.
Qed.

(** ** Witnesses *)

Definition ex_executor : lifecycleExecutor :=
  mkExecutor "Org1MSP"
    (match (@Ccr.newChaincodeConnectionResolver Ccr.ex_network Network.no_connections
              Ccr.ex_resolver_config).2 with Ok r => r | Err _ => None end) None.

Lemma ex_configured : @configured Ccr.ex_network ex_executor.
Proof. by exists Network.no_connections, Ccr.ex_resolver_config; eexists; vm_compute. Qed.

Definition ex_definition : Store.ChaincodeDefinition := Store.mkDefinition "asset" "2.0" 1 false.

Definition ex_package : Store.InstalledPackage :=
  Store.mkInstalledPackage "asset_2:ab" "asset_2" "ccaas" "package:7052" "Org1MSP" "t" "" "" "".

Definition ex_address_of (id : string) : string :=
  if bool_decide (id = "asset_2:ab") then "package:7052" else "".

Definition ex_context : Exec.ExecutionContext :=
  Exec.SetDecorations {["compat.chaincode_name" := "asset"; "compat.chaincode_version" := "2.0";
                        "compat.chaincode_sequence" := "1"]}
    (Exec.NewExecutionContext true "ns").

(** Hydrated from the ledger, used once through the resolver, then approved locally. *)
Definition ex_used : Store.Store :=
  (choose_connector ex_executor "t" Ccr.ex_call
    (Store.UpsertCommittedFromLedger "t" (Store.mkStore "ch" ∅ ∅ ∅ ∅) ex_definition true).1 ex_context).1.

Definition ex_store : Store.Store :=
  (Store.ApproveForMyOrg "t" (Store.Install "t" ex_used ex_package).1 ex_definition "asset_2:ab" "Org1MSP").1.

Definition ex_hydrated : Store.Store :=
  (Store.UpsertCommittedFromLedger "t" (Store.mkStore "ch" ∅ ∅ ∅ ∅) ex_definition true).1.

Definition ex_approval : Store.ApprovedDefinition :=
  Store.mkApproved ex_definition "asset_2:ab" "Org1MSP" "t" "package:7052".

#[local] Notation ex_reachable := (world_reachable "Org1MSP" ex_address_of ex_executor "ch").

Lemma ex_used_reachable : ex_reachable (mkWorld ex_used []).
Proof.
  apply (execution_reachable "Org1MSP" ex_address_of ex_executor "ch" eq_refl "t" Ccr.ex_call
    ex_hydrated [] ex_context "asset" "2.0" (Store.mkCommitted ex_definition "t" true) ex_used "cc2:9999").
  - vm_compute. reflexivity.
  - vm_compute. reflexivity.
  - vm_compute. reflexivity.
  - eapply wr_next; [by apply wr_new|]. apply ws_Upsert.
Qed.

(** An execution had selected the revision when it was approved, and finds the approval. *)
Lemma ex_store_reachable (js : list job) :
  js = [] ∨ js = [Found ex_definition ex_approval] → ex_reachable (mkWorld ex_store js).
Proof.
  assert (Happrove : ∀ js, undisturbed ex_definition js →
    ex_reachable (mkWorld ex_used js) → ex_reachable (mkWorld ex_store js)).
  { intros js' Hjs Hr. eapply wr_next; [|by apply ws_Approve]. eapply wr_next; [exact Hr|].
    by apply ws_Install. }
  intros [-> | ->].
  - apply Happrove; [by intros j ?%elem_of_nil|exact ex_used_reachable].
  - eapply wr_next; [|apply (ws_found "Org1MSP" ex_address_of ex_executor "ch" ex_definition ex_approval ex_store [] []);
      vm_compute; reflexivity].
    eapply wr_next; [|apply (ws_miss "Org1MSP" ex_address_of ex_executor "ch" ex_definition ex_store [] []);
      vm_compute; reflexivity].
    apply Happrove; [by intros j ->%list_elem_of_singleton|]. eapply wr_next; [exact ex_used_reachable|].
    apply (ws_select "Org1MSP" ex_address_of ex_executor "ch" ex_context "asset" "2.0"
      (Store.mkCommitted ex_definition "t" true)); vm_compute; reflexivity.
Qed.

Definition ex_run (endpoint : string) : Helper.Executor := λ st _, (Some (Err (ENew endpoint)), st).

Definition ex_inv : Proto.Invocation :=
  Proto.mkInv "tx" "ch" "ns" [] "" "" "2.0" 0 None.


Definition ex_committed : Store.CommittedDefinition := Store.mkCommitted ex_definition "t" true.

Definition ex_request : InvocationRequest :=
  mkRequest (Some ex_committed) "tx" "" "" None ∅ [] "" "" "ns" "asset" "2.0" false "f" [].

Lemma evidence_names_endpoint_witness :
  ∃ s'' b, lifecycleExecutionBinding ex_executor "t" Ccr.ex_call "Org1MSP" "ch"
      (Some (resolveChaincodeConnection ex_executor "t" Ccr.ex_call ex_store ex_definition).1)
      ex_request "ns" = (Some s'', Some b) ∧
    b_ChaincodeVersion b = "2.0" ∧ b_PackageAddress b = "package:7052".
Proof.
  destruct (@evidence_names_endpoint Ccr.ex_network ex_executor ex_address_of "ch" ex_store
    (resolveChaincodeConnection ex_executor "t" Ccr.ex_call ex_store ex_definition).1 ex_committed
    "t" Ccr.ex_call (Store.mkConnection "Org1MSP" "asset" "2.0" 1 "package:7052" "none" "asset_2:ab" "t")
    "t" Ccr.ex_call ex_request "ns" "package:7052") as (s'' & b & H & _ & _ & Hv & _ & Ha).
  - exact ex_configured.
  - discriminate.
  - discriminate.
  - apply ex_store_reachable. left. reflexivity.
  - vm_compute; reflexivity.
  - vm_compute; reflexivity.
  - vm_compute; reflexivity.
  - reflexivity.
  - exists s'', b. split; [exact H|]. split; [exact Hv|exact Ha].
Defined.

End Binding.
