(* ===== verification/Invocation.v ===== *)
(** Executing an invocation: how the orchestrator calls its in-process helper and what it makes of
    the answer, [executeHelper], [helperProposal] and [EndorseOnly] of [orchestrator/service.go],
    [executeFresh], [endorseInvocation] and [evaluate] of [execution.go].

    A call that another goroutine can interleave with reads its own argument: the lifecycle store
    at the selection of the definition, at the check of its state and when the evidence is made
    are three arguments.  A flow is [None] when it panics or has not returned. *)
From Stdlib Require Import ZArith Lia.
From stdpp Require Import base option list strings gmap sets.
From S2P Require Import Prelude LifecycleStore OrchestratorTypes GoStrings Json Proto Msp.
From S2P Require Import EndorsementPolicy PolicyResolver EndorsementSearch Collect ExecContext Shim Helper.
From S2P Require Import Requests Config Network ChaincodeResolver Binding.
Import Types Proto.
Local Open Scope Z_scope.

Module Invocation.

(** ** Flows *)

Notation flow A := (option (result A)) (only parsing).

Definition flow_bind {A B} (m : flow A) (k : A → flow B) : flow B :=
  match m with
  | None => None
  | Some (Err e) => Some (Err e)
  | Some (Ok x) => k x
  end.

(** [if err != nil { return fmt.Errorf(msg, err) }]. *)
Definition flow_wrap {A} (msg : string) (m : flow A) : flow A :=
  match m with Some (Err e) => Some (Err (EWrap msg e)) | _ => m end.

Definition flow_status {A} (c : code) (m : result A) : result A :=
  match m with Ok x => Ok x | Err e => Err (EStatus c e) end.

Lemma flow_bind_ok {A B} (m : flow A) (k : A → flow B) y :
  flow_bind m k = Some (Ok y) ↔ ∃ x, m = Some (Ok x) ∧ k x = Some (Ok y).
Proof. destruct m as [[x|e]|]; simpl; naive_solver. Qed.

Lemma flow_wrap_ok {A} msg (m : flow A) x : flow_wrap msg m = Some (Ok x) ↔ m = Some (Ok x).
Proof. by destruct m as [[]|]. Qed.

Lemma flow_status_ok {A} c (m : result A) x : flow_status c m = Ok x ↔ m = Ok x.
Proof. by destruct m. Qed.

(** ** The proposal for the helper *)

(** Proposal construction of the SDK and of [protoutil]. *)
Class ProposalLib := {
  (** [nfab.NewSignedProposal] with the service's signer: channel, namespace and arguments. *)
  NewSignedProposal : string → string → list bytes → result SignedProposal;
  (** An invocation specification with [ChaincodeSpec.Input.IsInit] set, decoded and encoded. *)
  spec_with_IsInit : bytes → result bytes;
  marshal_ProposalPayload : bytes * gmap string bytes → result bytes;
  (** [protoutil.GetSignedProposal] with the service's signer. *)
  GetSignedProposal : Proposal → result SignedProposal;
  ComputeTxID : bytes → bytes → string;
  (** Transaction ID, channel, chaincode name and version, arguments, decorations, init flag,
      nonce, creator and transient data. *)
  CreateChaincodeProposal : string → string → string → string → list bytes → gmap string bytes →
    bool → bytes → bytes → gmap string bytes → result Proposal;
  marshal_Proposal : Proposal → result bytes }.

Section Flows.
Context {PU : ProtoUtil} {PL : ProposalLib} {J : Json.JSONText}.
Variable channelID : string.

Definition helperProposal (namespace nsVersion : string) (args : list bytes)
    (transient : gmap string bytes) (client : Helper.ClientProposalContext) : result SignedProposal :=
  if bool_decide (Helper.cp_Creator client = "") || bool_decide (Helper.cp_Nonce client = "") then
    match NewSignedProposal channelID namespace args with
    | Err e => Err (EWrap "create helper proposal: %w" e)
    | Ok prop =>
        if negb (Helper.cp_IsInit client) then Ok prop
        else
          proposal ← UnmarshalProposal (ProposalBytes prop);
          payload ← UnmarshalChaincodeProposalPayload (pp_Payload proposal);
          input ← spec_with_IsInit payload.1;
          encoded ← marshal_ProposalPayload (input, payload.2);
          GetSignedProposal (mkProposal (Header proposal) encoded (Extension proposal))
    end
  else
    let txID := ComputeTxID (Helper.cp_Nonce client) (Helper.cp_Creator client) in
    match CreateChaincodeProposal txID channelID namespace nsVersion args
            (Helper.cp_Decorations client) (Helper.cp_IsInit client) (Helper.cp_Nonce client)
            (Helper.cp_Creator client) transient with
    | Err e => Err (EWrap "create helper proposal: %w" e)
    | Ok proposal =>
        match marshal_Proposal proposal with
        | Err e => Err (EWrap "marshal helper proposal: %w" e)
        | Ok b => Ok (mkSignedProposal b "")
        end
    end.

(** The in-process helper with what its call meets: the Query Service and the clock. *)
Record helper_call := mkCall {
  hc_service : Helper.Service;
  hc_env : Exec.env;
  hc_now : Z }.

Definition with_SignedProposal (sp : SignedProposal) (client : Helper.ClientProposalContext)
    : Helper.ClientProposalContext :=
  match Helper.cp_SignedProposal client with
  | Some _ => client
  | None => Helper.mkClient (Helper.cp_Creator client) (Helper.cp_Nonce client) (Some sp)
              (Helper.cp_Decorations client) (Helper.cp_IsInit client)
              (Helper.cp_NamespaceVersion client)
  end.

(** [s.helper.ProcessProposal(helper.WithClientProposal(ctx, client), prop)]. *)
Definition call_helper (h : helper_call) (client : Helper.ClientProposalContext) (prop : SignedProposal)
    : flow ProposalResponse :=
  match (Helper.ProcessProposal (hc_service h) (hc_env h) (hc_now h)
           (Helper.WithClientProposal None client) (Some prop)).1 with
  | Some (Helper.Returned r) => Some r
  | Some Helper.Panicked | None => None
  end.

Definition executeHelper (h : option helper_call) (namespace nsVersion : string) (args : list bytes)
    (transient : gmap string bytes) (client : Helper.ClientProposalContext) : flow SdkEndorsement :=
  match h with
  | None => Some (Err (ENew "internal helper is not configured"))
  | Some h =>
      match (prop ← helperProposal namespace nsVersion args transient client;
             proposal ← match UnmarshalProposal (ProposalBytes prop) with
                        | Err e => Err (EWrap "unmarshal helper proposal: %w" e)
                        | Ok p => Ok p
                        end;
             Requests.txIDFromProposal (Some proposal);;
             Ok (prop, proposal)) with
      | Err e => Some (Err e)
      | Ok (prop, proposal) =>
          flow_bind (flow_wrap "helper process proposal: %w"
                       (call_helper h (with_SignedProposal prop client) prop))
            (λ resp, Some (Ok (mkSdkEndorsement (Some proposal) [Some resp])))
      end
  end.

(** ** One execution with its evidence *)

(** The chaincode resolver and the store that [lifecycleExecutionBinding] meets. *)
Record evidence_env := mkEvidenceEnv {
  ee_executor : Binding.lifecycleExecutor;
  ee_time : string;
  ee_call : Ccr.ResolveRequest → result Ccr.ResolveResponse;
  ee_store : option Store.Store }.

Definition client_context (req : InvocationRequest) (namespace : string) (nsVersion : Z)
    : Helper.ClientProposalContext :=
  let decorations := Requests.compatibilityDecorations namespace (ChaincodeName req) (ChaincodeVersion req) in
  Helper.mkClient (ClientCreator req) (ClientNonce req) (ClientSignedProposal req)
    (match definition req with
     | Some d => <["compat.chaincode_sequence" :=
                    GoStrings.FormatInt (Store.Sequence (Store.com_Definition d))]> decorations
     | None => decorations
     end)
    (IsInit req) nsVersion.

Variable localMSPID : string.

(** Returns the store after the evidence is made; without an execution it is unchanged. *)
Definition executeFresh (h : option helper_call) (ev : evidence_env) (req : InvocationRequest)
    (namespace : string) (nsVersion : Z) (args : list bytes)
    : option Store.Store * flow helperExecutionResult :=
  match executeHelper h namespace "1.0" args (ClientTransient req)
          (client_context req namespace nsVersion) with
  | None => (ee_store ev, None)
  | Some (Err e) => (ee_store ev, Some (Err e))
  | Some (Ok end_) =>
      match Requests.txIDFromEndorsement end_ with
      | Err e => (ee_store ev, Some (Err e))
      | Ok txID =>
          match (first ← head (end_Responses end_); resp ← first; pr_Response resp) with
          | None => (ee_store ev, Some (Err (ENew "helper returned no proposal response")))
          | Some response =>
              let '(store, binding) :=
                Binding.lifecycleExecutionBinding (ee_executor ev) (ee_time ev) (ee_call ev)
                  localMSPID channelID (ee_store ev) req namespace in
              (store, Some (Ok (mkResult end_ txID (Some response) binding)))
          end
      end
  end.

(** ** The stages *)

(** What one invocation meets before endorsements are collected. *)
Record stage_env := mkStageEnv {
  se_select : option Store.Store;
  se_init : option Store.Store;
  se_policies : option (gmap string Policy.NamespacePolicySnapshot);
  se_query : option (result (list PolicyResolver.PolicyItem));
  se_helper : option helper_call;
  se_evidence : evidence_env }.

Context {PP : PolicyResolver.PolicyProto}.
Variable defaultNamespace : string.

Definition resolve_policy (env : stage_env) (namespace : string) : result Policy.NamespacePolicySnapshot :=
  match (PolicyResolver.resolveNamespacePolicy (se_policies env) (se_query env) namespace).2 with
  | Err e => Err (EWrap "resolve namespace policy: %w" e)
  | Ok p => Ok p
  end.

(** [evaluate]; [ctx] is [ctx.Err()] on entry. *)
Definition evaluate (env : stage_env) (ctx : ctx_err) (req : InvocationRequest) : flow helperExecutionResult :=
  match ctx with
  | Some e => Some (Err e)
  | None =>
      match (prepared ← Requests.prepareInvocation defaultNamespace req;
             guard_err (IsInit req) (EStatus CodeInvalidArgument (ENew "is-init is only valid for invoke"));;
             req ← Requests.selectLifecycleDefinition (se_select env) req;
             flow_status CodeFailedPrecondition
               (Requests.validateInitState (se_init env) req Requests.GRPCOperationQuery);;
             policy ← resolve_policy env prepared.1;
             Ok (prepared, req, policy)) with
      | Err e => Some (Err e)
      | Ok (prepared, req, policy) =>
          flow_bind (flow_wrap "helper query failed: %w"
            (executeFresh (se_helper env) (se_evidence env) req prepared.1
               (Policy.snap_Version policy) prepared.2).2)
            (λ r, Some (if negb (bool_decide (ClientTxID req = "")) &&
                           negb (bool_decide (res_TxID r = ClientTxID req))
                        then Err (EStatus CodeInternal
                               (ENew "query transaction ID does not match the client proposal"))
                        else Ok r))
      end
  end.

Definition EndorseOnly (env : stage_env) (req : InvocationRequest) : flow helperExecutionResult :=
  match (prepared ← Requests.prepareInvocation defaultNamespace req;
         req ← Requests.selectLifecycleDefinition (se_select env) req;
         Requests.validateInitState (se_init env) req Requests.GRPCOperationEndorse;;
         policy ← resolve_policy env prepared.1;
         Ok (prepared, req, policy)) with
  | Err e => Some (Err e)
  | Ok (prepared, req, policy) =>
      flow_bind (flow_wrap "helper endorsement failed: %w"
        (executeFresh (se_helper env) (se_evidence env) req prepared.1
           (Policy.snap_Version policy) prepared.2).2)
        (λ r, Some (match end_Responses (res_Endorsement r) with
                    | Some _ :: _ => Ok r
                    | _ => Err (ENew "helper returned no proposal response")
                    end))
  end.

(** [endorsedInvocation]. *)
Record endorsedInvocation := mkEndorsed {
  ei_Request : InvocationRequest;
  ei_Local : helperExecutionResult;
  ei_Remote : list helperExecutionResult;
  ei_Endorsement : SdkEndorsement;
  ei_InitDefinition : option Store.ChaincodeDefinition }.

Definition no_result : helperExecutionResult := mkResult (mkSdkEndorsement None []) "" None None.

Definition no_endorsement (req : InvocationRequest) (init : option Store.ChaincodeDefinition)
    : endorsedInvocation :=
  mkEndorsed req no_result [] (mkSdkEndorsement None []) init.

Context {L : Msp.MSPLib} {P : Policy.PolicyLib} {R : Collect.RemoteOrchestrators}.

(** What the collection meets: the trusted MSPs, the clock and [ctx.Err()]. *)
Record collect_env := mkCollectEnv {
  ce_deser : option Msp.manager;
  ce_now : Z;
  ce_ctxs : nat → nat → option goerr }.

(** The result is returned beside the error. *)
Definition endorseInvocation (env : stage_env) (cenv : collect_env) (req : InvocationRequest)
    : option (endorsedInvocation * option goerr) :=
  match Requests.prepareInvocation defaultNamespace req with
  | Err e => Some (no_endorsement Requests.empty_request None, Some e)
  | Ok (namespace, args) =>
      match Requests.selectLifecycleDefinition (se_select env) req with
      | Err e => Some (no_endorsement Requests.empty_request None, Some e)
      | Ok req =>
          match Requests.validateInitState (se_init env) req Requests.GRPCOperationEndorse with
          | Err e => Some (no_endorsement req None, Some (EStatus CodeFailedPrecondition e))
          | Ok init =>
              match resolve_policy env namespace with
              | Err e => Some (no_endorsement req init, Some e)
              | Ok policy =>
                  match (executeFresh (se_helper env) (se_evidence env) req namespace
                           (Policy.snap_Version policy) args).2 with
                  | None => None
                  | Some (Err e) =>
                      Some (no_endorsement req init, Some (EWrap "helper endorsement failed: %w" e))
                  | Some (Ok local) =>
                      let executed := mkEndorsed req local [] (mkSdkEndorsement None []) init in
                      match res_Response local with
                      | None => None
                      | Some response =>
                          if negb (status_ok (Status response)) then Some (executed, None)
                          else
                            match Collect.collectNamespaceEndorsements channelID localMSPID
                                    (ce_deser cenv) (ce_now cenv) (ce_ctxs cenv) policy req local with
                            | Err e => Some (executed, Some e)
                            | Ok (end_, remote) => Some (mkEndorsed req local remote end_ init, None)
                            end
                      end
                  end
              end
          end
      end
  end.

End Flows.

(** ** Lemmas *)

Section Lemmas.
Context {PU : ProtoUtil} {PL : ProposalLib} {J : Json.JSONText} {PP : PolicyResolver.PolicyProto}.
Context {L : Msp.MSPLib} {P : Policy.PolicyLib} {R : Collect.RemoteOrchestrators}.
Variables channelID localMSPID defaultNamespace : string.

(** A finished run with an accepted execution: every stage answered. *)
Record endorsed_run (env : stage_env) (cenv : collect_env) (req req' : InvocationRequest)
    (namespace : string) (args : list bytes) (policy : Policy.NamespacePolicySnapshot)
    (compiled : Policy.namespaceEndorsementPolicy) (r : endorsedInvocation) : Prop := mkEndorsedRun {
  er_prepared : Requests.prepareInvocation defaultNamespace req = Ok (namespace, args);
  er_selected : Requests.selectLifecycleDefinition (se_select env) req = Ok req';
  er_init : Requests.validateInitState (se_init env) req' Requests.GRPCOperationEndorse =
    Ok (ei_InitDefinition r);
  er_policy : (PolicyResolver.resolveNamespacePolicy (se_policies env) (se_query env) namespace).2 = Ok policy;
  er_compiled : Policy.newNamespaceEndorsementPolicy policy (ce_deser cenv) = Ok compiled;
  er_executed : (executeFresh channelID localMSPID (se_helper env) (se_evidence env) req' namespace
    (Policy.snap_Version policy) args).2 = Some (Ok (ei_Local r));
  er_request : ei_Request r = req';
  er_endorsed : Collect.endorsement_ok (ce_now cenv) compiled req' (ei_Local r) (ei_Endorsement r);
  er_transaction : ClientTxID req' = "" ∨ ClientTxID req' = res_TxID (ei_Local r) }.

Lemma resolve_policy_ok env namespace policy :
  resolve_policy env namespace = Ok policy ↔
  (PolicyResolver.resolveNamespacePolicy (se_policies env) (se_query env) namespace).2 = Ok policy.
Proof.
  unfold resolve_policy.
  by destruct (PolicyResolver.resolveNamespacePolicy _ _ _).2 as [p|e].
Qed.

Lemma endorseInvocation_ok env cenv req r response :
  endorseInvocation channelID localMSPID defaultNamespace env cenv req = Some (r, None) →
  res_Response (ei_Local r) = Some response → status_ok (Status response) = true →
  ∃ req' namespace args policy compiled, endorsed_run env cenv req req' namespace args policy compiled r.
Proof.
  unfold endorseInvocation. intros H Hr Hok.
  destruct (Requests.prepareInvocation defaultNamespace req) as [[namespace args]|e] eqn:Hp; [|done].
  destruct (Requests.selectLifecycleDefinition (se_select env) req) as [req'|e] eqn:Hs; [|done].
  destruct (Requests.validateInitState _ _ _) as [init|e] eqn:Hi; [|done].
  destruct (resolve_policy env namespace) as [policy|e] eqn:Hpol; [|done].
  apply resolve_policy_ok in Hpol.
  destruct (executeFresh _ _ _ _ _ _ _ _).2 as [[local|e]|] eqn:Hx; [|done|done].
  destruct (res_Response local) as [response'|] eqn:Hres; [|done].
  destruct (status_ok (Status response')) eqn:Hst; cbn [negb] in H.
  - destruct (Collect.collectNamespaceEndorsements _ _ _ _ _ _ _ _) as [[end_ remote]|e] eqn:Hc; [|done].
    injection H as <-.
    destruct (Collect.collect_endorsement _ _ _ _ _ _ _ _ _ _ Hc) as (compiled & Hcomp & Hend & Htx).
    by exists req', namespace, args, policy, compiled.
  - injection H as <-. cbn in Hr. congruence.
Qed.

(** What a fresh execution answers: the helper's response to its own proposal. *)
Lemma executeFresh_ok h ev req namespace nsVersion args r :
  (executeFresh channelID localMSPID h ev req namespace nsVersion args).2 = Some (Ok r) →
  ∃ call prop proposal resp response,
    h = Some call ∧
    helperProposal channelID namespace "1.0" args (ClientTransient req)
      (client_context req namespace nsVersion) = Ok prop ∧
    UnmarshalProposal (ProposalBytes prop) = Ok proposal ∧
    call_helper call (with_SignedProposal prop (client_context req namespace nsVersion)) prop =
      Some (Ok resp) ∧
    pr_Response resp = Some response ∧
    Requests.txIDFromProposal (Some proposal) = Ok (res_TxID r) ∧
    res_Response r = Some response ∧
    res_Endorsement r = mkSdkEndorsement (Some proposal) [Some resp].
Proof.
  unfold executeFresh, executeHelper. destruct h as [call|]; [|done].
  destruct (helperProposal _ _ _ _ _ _) as [prop|e] eqn:Hp; cbn [mbind result_mbind]; [|done].
  destruct (UnmarshalProposal (ProposalBytes prop)) as [proposal|e] eqn:Hu;
    cbn [mbind result_mbind]; [|done].
  destruct (Requests.txIDFromProposal (Some proposal)) as [txID|e] eqn:Ht;
    cbn [mbind result_mbind]; [|done].
  destruct (call_helper _ _ prop) as [[resp|e]|] eqn:Hc; cbn [flow_bind flow_wrap]; [|done..].
  unfold Requests.txIDFromEndorsement. cbn [end_Proposal]. rewrite Ht.
  cbn [end_Responses head mbind option_bind].
  destruct (pr_Response resp) as [response|] eqn:Hr; cbn [mbind option_bind]; [|done].
  destruct (Binding.lifecycleExecutionBinding _ _ _ _ _ _ _ _) as [store binding]. cbn [snd].
  intros H. injection H as <-. exists call, prop, proposal, resp, response. by split_and!.
Qed.

End Lemmas.

End Invocation.
