(* ===== verification/LifecycleLedger.v ===== *)
(** The shared lifecycle records on the ledger, [pkg/lifecycle/ledger.go]: their keys and
    their values. *)
From Stdlib Require Import ZArith Lia Ascii.
From stdpp Require Import base option list strings gmap.
From S2P Require Import Prelude LifecycleStore Json GoStrings.
Import Json.
Local Open Scope Z_scope.

Module Ledger.

Definition lifecycleLedgerSchema : Z := 2.
Definition LifecycleEventCommit : string := "commit".
Definition LifecycleEventInitialized : string := "initialized".

Record LedgerDefinition := mkLedger {
  ld_ChannelID : string;
  ld_Name : string;
  ld_Version : string;
  ld_Sequence : Z;
  ld_InitRequired : bool;
  ld_Initialized : bool }.

#[export] Instance LedgerDefinition_eq_dec : EqDecision LedgerDefinition.
Proof. solve_decision. Defined.

Record LifecycleIndexEntry := mkIndexEntry {
  ie_SchemaVersion : Z;
  ie_Number : Z;
  ie_EventType : string;
  ie_DefinitionKey : string;
  ie_ChannelID : string;
  ie_Name : string;
  ie_Version : string;
  ie_Sequence : Z;
  ie_InitRequired : bool;
  ie_Initialized : bool }.

(** ** Keys *)

Definition channelKeyPrefix (channelID : string) : string :=
  "_lifecycle/channels/" +:+ GoStrings.PathEscape channelID +:+ "/".

Definition LedgerKey (channelID name : string) : string :=
  channelKeyPrefix channelID +:+ "chaincodes/" +:+ GoStrings.PathEscape name.

Definition LifecycleHighWatermarkKey (channelID : string) : string :=
  channelKeyPrefix channelID +:+ "index/high_watermark".

Definition LifecycleIndexEntryKey (channelID : string) (number : Z) : string :=
  channelKeyPrefix channelID +:+ "index/" +:+ GoStrings.Sprintf020d number.

(** ** Values *)

Definition ledger_json (v : LedgerDefinition) : jobject :=
  [("channel_id", JString (ld_ChannelID v)); ("name", JString (ld_Name v));
   ("version", JString (ld_Version v)); ("sequence", JNumber (ld_Sequence v));
   ("init_required", JBool (ld_InitRequired v)); ("initialized", JBool (ld_Initialized v))].

Definition ledger_of_json (o : jobject) : result LedgerDefinition :=
  c ← json_field as_string "channel_id" o "";
  n ← json_field as_string "name" o "";
  v ← json_field as_string "version" o "";
  q ← json_field as_int64 "sequence" o 0;
  r ← json_field as_bool "init_required" o false;
  i ← json_field as_bool "initialized" o false;
  Ok (mkLedger c n v q r i).

Definition entry_json (e : LifecycleIndexEntry) : jobject :=
  [("schema_version", JNumber (ie_SchemaVersion e)); ("number", JNumber (ie_Number e));
   ("event_type", JString (ie_EventType e)); ("definition_key", JString (ie_DefinitionKey e));
   ("channel_id", JString (ie_ChannelID e)); ("name", JString (ie_Name e));
   ("version", JString (ie_Version e)); ("sequence", JNumber (ie_Sequence e));
   ("init_required", JBool (ie_InitRequired e)); ("initialized", JBool (ie_Initialized e))].

Definition entry_of_json (o : jobject) : result LifecycleIndexEntry :=
  s ← json_field as_int64 "schema_version" o 0;
  m ← json_field as_uint64 "number" o 0;
  t ← json_field as_string "event_type" o "";
  k ← json_field as_string "definition_key" o "";
  c ← json_field as_string "channel_id" o "";
  n ← json_field as_string "name" o "";
  v ← json_field as_string "version" o "";
  q ← json_field as_int64 "sequence" o 0;
  r ← json_field as_bool "init_required" o false;
  i ← json_field as_bool "initialized" o false;
  Ok (mkIndexEntry s m t k c n v q r i).

Definition ChaincodeDefinitionFromLedger (v : LedgerDefinition) : Store.ChaincodeDefinition :=
  Store.mkDefinition (ld_Name v) (ld_Version v) (ld_Sequence v) (ld_InitRequired v).

Definition NewLifecycleIndexEntry (channelID : string) (number : Z) (eventType : string)
    (def : Store.ChaincodeDefinition) (initialized : bool) : LifecycleIndexEntry :=
  mkIndexEntry lifecycleLedgerSchema number eventType (LedgerKey channelID (Store.Name def))
    channelID (Store.Name def) (Store.Version def) (Store.Sequence def) (Store.InitRequired def)
    initialized.

Definition MarshalLifecycleHighWatermark (value : Z) : bytes := GoStrings.FormatUint value.

Definition UnmarshalLifecycleHighWatermark (data : bytes) : result Z :=
  if bool_decide (data = "") then Ok 0 else GoStrings.ParseUint data.

Section Codec.
Context {J : JSONText}.

Definition MarshalLedgerDefinition (channelID : string) (def : Store.ChaincodeDefinition)
    (initialized : bool) : result bytes :=
  if bool_decide (channelID = "") then Err (ENew "channel ID is required")
  else
    Store.validateDefinition def;;
    Ok (json_encode (ledger_json (mkLedger channelID (Store.Name def) (Store.Version def)
          (Store.Sequence def) (Store.InitRequired def) initialized))).

Definition UnmarshalLedgerDefinition (data : bytes) : result LedgerDefinition :=
  o ← json_object data;
  value ← ledger_of_json o;
  if bool_decide (ld_ChannelID value = "")
  then Err (ENew "lifecycle record has no channel ID; legacy name:version records require redeployment")
  else
    Store.validateDefinition (ChaincodeDefinitionFromLedger value);;
    Ok value.

Definition MarshalLifecycleIndexEntry (entry : LifecycleIndexEntry) : bytes :=
  json_encode (entry_json entry).

Definition UnmarshalLifecycleIndexEntry (data : bytes) : result LifecycleIndexEntry :=
  o ← json_object data;
  entry ← entry_of_json o;
  if negb (ie_SchemaVersion entry =? lifecycleLedgerSchema) ||
     bool_decide (ie_ChannelID entry = "") || bool_decide (ie_Name entry = "") ||
     negb (bool_decide (ie_DefinitionKey entry = LedgerKey (ie_ChannelID entry) (ie_Name entry)))
  then Err (ENew "invalid channel-scoped lifecycle index entry")
  else Ok entry.
End Codec.

(** ** Lemmas *)

Lemma prefix_inj c1 c2 r1 r2 :
  channelKeyPrefix c1 +:+ r1 = channelKeyPrefix c2 +:+ r2 → c1 = c2 ∧ r1 = r2.
Proof.
  unfold channelKeyPrefix. intros H.
  assert (Hsplit : ∀ c r, ("_lifecycle/channels/" +:+ GoStrings.PathEscape c +:+ "/") +:+ r =
    "_lifecycle/channels/" +:+ (GoStrings.PathEscape c +:+ String "/" r)).
  { intros c r. change ("_lifecycle/channels/" +:+ ((GoStrings.PathEscape c +:+ "/") +:+ r) =
      "_lifecycle/channels/" +:+ (GoStrings.PathEscape c +:+ String "/" r)). f_equal.
    induction (GoStrings.PathEscape c) as [|a s IH]; [done|].
    change (String a ((s +:+ "/") +:+ r) = String a (s +:+ String "/" r)). by rewrite IH. }
  rewrite !Hsplit in H. apply (inj _) in H.
  apply GoStrings.split_at_char in H as [Hc ->]; [|apply GoStrings.PathEscape_no_slash..].
  split; [|done]. by apply GoStrings.PathEscape_inj.
Qed.

Lemma Sprintf020d_digit n : ∃ a r, GoStrings.Sprintf020d n = String a r ∧
  0 <= GoStrings.byte_of a - 48 < 10.
Proof.
  unfold GoStrings.Sprintf020d.
  assert (H : ∀ k z, ∃ a r, GoStrings.fixed_digits (S k) z = String a r ∧
    0 <= GoStrings.byte_of a - 48 < 10).
  { induction k as [|k IH]; intros z.
    - exists (GoStrings.digit (z mod 10)), "". split; [done|]. unfold GoStrings.digit.
      pose proof (Z.mod_pos_bound z 10). rewrite GoStrings.byte_of_at; lia.
    - destruct (IH (z / 10)) as (a & r & Hr & Ha).
      cbn [GoStrings.fixed_digits] in *. rewrite Hr.
      exists a, (r +:+ String (GoStrings.digit (z mod 10)) ""). done. }
  apply H.
Qed.

Lemma is_int64_as z : is_int64 z → as_int64 (JNumber z) = Some z.
Proof.
  intros H. unfold is_int64 in H. unfold as_int64, as_int.
  replace (- 2 ^ 63 <=? z) with true by lia. by replace (z <? 2 ^ 63) with true by lia.
Qed.

Lemma is_uint64_as z : is_uint64 z → as_uint64 (JNumber z) = Some z.
Proof.
  intros H. unfold is_uint64 in H. unfold as_uint64, as_int.
  replace (0 <=? z) with true by lia. by replace (z <? 2 ^ 64) with true by lia.
Qed.

Lemma ledger_of_ledger_json v : is_int64 (ld_Sequence v) → ledger_of_json (ledger_json v) = Ok v.
Proof.
  intros H%is_int64_as. unfold ledger_of_json, ledger_json. json_fields.
  cbn [json_field mbind result_mbind]. by destruct v.
Qed.

Lemma entry_of_entry_json e :
  is_int64 (ie_SchemaVersion e) → is_uint64 (ie_Number e) → is_int64 (ie_Sequence e) →
  entry_of_json (entry_json e) = Ok e.
Proof.
  intros H1%is_int64_as H2%is_uint64_as H3%is_int64_as.
  unfold entry_of_json, entry_json. json_fields.
  cbn [json_field mbind result_mbind]. by destruct e.
Qed.

(** ** Keys of different records *)

Lemma LedgerKey_inj c1 c2 n1 n2 : LedgerKey c1 n1 = LedgerKey c2 n2 → c1 = c2 ∧ n1 = n2.
Proof.
  unfold LedgerKey. intros [-> H]%prefix_inj. apply (inj _) in H. split; [done|].
  by apply GoStrings.PathEscape_inj.
Qed.

Lemma IndexEntryKey_inj c1 c2 i1 i2 : is_uint64 i1 → is_uint64 i2 →
  LifecycleIndexEntryKey c1 i1 = LifecycleIndexEntryKey c2 i2 → c1 = c2 ∧ i1 = i2.
Proof.
  intros H1 H2. unfold LifecycleIndexEntryKey. intros [-> H]%prefix_inj. apply (inj _) in H.
  split; [done|]. by apply GoStrings.Sprintf020d_inj.
Qed.

Lemma LedgerKey_not_high c1 c2 n : LedgerKey c1 n ≠ LifecycleHighWatermarkKey c2.
Proof. unfold LedgerKey, LifecycleHighWatermarkKey. intros [_ H]%prefix_inj. discriminate H. Qed.

Lemma LedgerKey_not_index c1 c2 n i : LedgerKey c1 n ≠ LifecycleIndexEntryKey c2 i.
Proof. unfold LedgerKey, LifecycleIndexEntryKey. intros [_ H]%prefix_inj. discriminate H. Qed.

Lemma high_not_index c1 c2 i : LifecycleHighWatermarkKey c1 ≠ LifecycleIndexEntryKey c2 i.
Proof.
  unfold LifecycleHighWatermarkKey, LifecycleIndexEntryKey. intros [_ H]%prefix_inj.
  change ("index/" +:+ "high_watermark" = "index/" +:+ GoStrings.Sprintf020d i) in H.
  apply (inj _) in H. destruct (Sprintf020d_digit i) as (a & r & Hr & Ha).
  rewrite Hr in H. injection H as <- _. change (GoStrings.byte_of "h") with 104 in Ha. lia.
Qed.

(** ** Reading back *)

(** The texts of a definition's records can be kept. *)
Definition plain_definition {J : JSONText} (def : Store.ChaincodeDefinition) : Prop :=
  valid_utf8 (Store.Name def) = true ∧ valid_utf8 (Store.Version def) = true ∧
  is_int64 (Store.Sequence def).

Lemma Marshal_definition_ok {J : JSONText} channel def initialized data :
  MarshalLedgerDefinition channel def initialized = Ok data →
  Store.validateDefinition def = Ok () ∧ channel ≠ "".
Proof.
  unfold MarshalLedgerDefinition. case_bool_decide; [done|].
  by intros ([] & Hval & _)%bind_ok.
Qed.

Lemma definition_roundtrip {J : JSONText} {JL : JSONLaws} channel def initialized data :
  valid_utf8 channel = true → plain_definition def →
  MarshalLedgerDefinition channel def initialized = Ok data →
  UnmarshalLedgerDefinition data =
    Ok (mkLedger channel (Store.Name def) (Store.Version def) (Store.Sequence def)
          (Store.InitRequired def) initialized).
Proof.
  intros Hc (Hn & Hv & Hseq) H.
  assert (Hascii : ∀ s, forallb (λ a, byte_of a <? 128) (String.list_ascii_of_string s) = true →
    valid_utf8 s = true) by apply valid_utf8_ascii.
  unfold MarshalLedgerDefinition in H. case_bool_decide as Hch; [done|].
  apply bind_ok in H as ([] & Hval & [= <-]).
  unfold UnmarshalLedgerDefinition, json_object. rewrite json_decode_encode.
  2:{ unfold valid_object, ledger_json. cbn [forallb fst snd ld_ChannelID ld_Name ld_Version
        valid_scalar]. rewrite Hc, Hn, Hv, !Hascii by done. done. }
  cbn [mbind result_mbind]. rewrite ledger_of_ledger_json by done. cbn [mbind result_mbind].
  cbn [ld_ChannelID]. rewrite bool_decide_eq_false_2 by done.
  unfold ChaincodeDefinitionFromLedger. cbn. destruct def. cbn in *. by rewrite Hval.
Qed.

Lemma entry_roundtrip {J : JSONText} {JL : JSONLaws} channel number event def initialized :
  valid_utf8 channel = true → plain_definition def → valid_utf8 event = true →
  is_uint64 number → channel ≠ "" → Store.Name def ≠ "" →
  let entry := NewLifecycleIndexEntry channel number event def initialized in
  UnmarshalLifecycleIndexEntry (MarshalLifecycleIndexEntry entry) = Ok entry.
Proof.
  intros Hc (Hn & Hv & Hseq) He Hnum Hch Hname. cbn zeta.
  assert (Hascii : ∀ s, forallb (λ a, byte_of a <? 128) (String.list_ascii_of_string s) = true →
    valid_utf8 s = true) by apply valid_utf8_ascii.
  assert (Hk : valid_utf8 (LedgerKey channel (Store.Name def)) = true).
  { apply valid_utf8_ascii. unfold LedgerKey, channelKeyPrefix.
    repeat first [apply GoStrings.PathEscape_ascii | apply GoStrings.ascii_app | reflexivity]. }
  unfold UnmarshalLifecycleIndexEntry, MarshalLifecycleIndexEntry.
  set (entry := NewLifecycleIndexEntry _ _ _ _ _). unfold json_object. rewrite json_decode_encode.
  2:{ unfold valid_object, entry, entry_json, NewLifecycleIndexEntry. cbn [forallb fst snd
        ie_SchemaVersion ie_Number ie_EventType ie_DefinitionKey ie_ChannelID ie_Name ie_Version
        ie_Sequence ie_InitRequired ie_Initialized valid_scalar].
      rewrite Hc, Hn, Hv, He, Hk, !Hascii by done. done. }
  cbn [mbind result_mbind]. rewrite entry_of_entry_json; [|done..].
  cbn [mbind result_mbind]. unfold entry, NewLifecycleIndexEntry.
  cbn [ie_SchemaVersion ie_ChannelID ie_Name ie_DefinitionKey].
  rewrite (bool_decide_eq_false_2 (channel = "")) by done.
  rewrite (bool_decide_eq_false_2 (Store.Name def = "")) by done.
  by rewrite (bool_decide_eq_true_2 (LedgerKey channel (Store.Name def) = _)).
Qed.

Lemma watermark_roundtrip number : is_uint64 number →
  UnmarshalLifecycleHighWatermark (MarshalLifecycleHighWatermark number) = Ok number.
Proof.
  intros Hnum. unfold UnmarshalLifecycleHighWatermark.
  rewrite bool_decide_eq_false_2; [by apply GoStrings.ParseUint_FormatUint|].
  intros He. pose proof (GoStrings.ParseUint_FormatUint number Hnum) as Hp. unfold
    MarshalLifecycleHighWatermark in He. by rewrite He in Hp.
Qed.

(** ** Properties *)

(** The ledger keys of different channels, chaincodes and index numbers differ, and no
    definition, watermark or index key is another kind's key, whatever characters the
    names contain. *)
Theorem ledger_keys_distinct c1 c2 n1 n2 i1 i2 :
  is_uint64 i1 → is_uint64 i2 →
  (LedgerKey c1 n1 = LedgerKey c2 n2 → c1 = c2 ∧ n1 = n2) ∧
  (LifecycleHighWatermarkKey c1 = LifecycleHighWatermarkKey c2 → c1 = c2) ∧
  (LifecycleIndexEntryKey c1 i1 = LifecycleIndexEntryKey c2 i2 → c1 = c2 ∧ i1 = i2) ∧
  LedgerKey c1 n1 ≠ LifecycleHighWatermarkKey c2 ∧
  LedgerKey c1 n1 ≠ LifecycleIndexEntryKey c2 i2 ∧
  LifecycleHighWatermarkKey c1 ≠ LifecycleIndexEntryKey c2 i2.
Proof.
  intros H1 H2. split_and!; [apply LedgerKey_inj| |by apply IndexEntryKey_inj|
    apply LedgerKey_not_high|apply LedgerKey_not_index|apply high_not_index].
  unfold LifecycleHighWatermarkKey. by intros [-> _]%prefix_inj.
Qed.

Lemma ledger_keys_distinct_witness :
  LedgerKey "a/b" "c" ≠ LedgerKey "a" "b/c" ∧
  (LedgerKey "a/b" "c" = LedgerKey "a" "b/c" → "a/b" = "a" ∧ "c" = "b/c").
Proof.
  split; [discriminate|]. apply (ledger_keys_distinct "a/b" "a" "c" "b/c" 0 1); split; lia.
Defined.

(** What the lifecycle writes on the ledger is read back: a definition's record, an
    index entry made for a definition, and the watermark; and a definition is written
    only if it and its channel are valid. *)
Theorem ledger_records_roundtrip {J : JSONText} {JL : JSONLaws} channel def initialized number event :
  valid_utf8 channel = true → plain_definition def → valid_utf8 event = true → is_uint64 number →
  (∀ data, MarshalLedgerDefinition channel def initialized = Ok data →
     UnmarshalLedgerDefinition data =
       Ok (mkLedger channel (Store.Name def) (Store.Version def) (Store.Sequence def)
             (Store.InitRequired def) initialized) ∧
     Store.validateDefinition def = Ok () ∧ channel ≠ "") ∧
  (channel ≠ "" → Store.Name def ≠ "" →
   let entry := NewLifecycleIndexEntry channel number event def initialized in
   UnmarshalLifecycleIndexEntry (MarshalLifecycleIndexEntry entry) = Ok entry) ∧
  UnmarshalLifecycleHighWatermark (MarshalLifecycleHighWatermark number) = Ok number.
Proof.
  intros Hc Hd He Hnum. split_and!; [|by apply entry_roundtrip|by apply watermark_roundtrip].
  intros data H. split; [by apply definition_roundtrip|by eapply Marshal_definition_ok].
Qed.

Definition ex_def : Store.ChaincodeDefinition := Store.mkDefinition "basic" "1.0" 1 true.

Lemma ledger_records_roundtrip_witness :
  ∃ data, MarshalLedgerDefinition (J := example_json) "ch" ex_def false = Ok data ∧
    UnmarshalLedgerDefinition (J := example_json) data = Ok (mkLedger "ch" "basic" "1.0" 1 true false).
Proof.
  eexists. split; [reflexivity|].
  apply (ledger_records_roundtrip (J := example_json) (JL := example_json_laws) "ch" ex_def false 7
    LifecycleEventCommit); first [reflexivity | repeat split; cbn; lia].
Defined.

End Ledger.
