(* ===== verification/Package.v ===== *)
(** Lifecycle packages, [pkg/lifecycle/package.go]: the names of archive entries and the
    inspection of an uploaded package.

    The gzip and tar readers and SHA-256 are the class [PackageLib]. *)
From Stdlib Require Import ZArith Lia Ascii.
From stdpp Require Import base option list strings gmap.
From S2P Require Import Prelude GoStrings Json.
Import Json.
Local Open Scope Z_scope.

Module Package.

(** ** Slash-separated paths *)

Fixpoint split_slash (s : string) : list string :=
  match s with
  | EmptyString => [""]
  | String a r =>
      if Ascii.eqb a "/" then "" :: split_slash r
      else match split_slash r with
           | x :: rest => String a x :: rest
           | [] => [String a ""]
           end
  end.

Fixpoint join_slash (l : list string) : string :=
  match l with
  | [] => ""
  | [x] => x
  | x :: rest => x +:+ "/" +:+ join_slash rest
  end.

(** The elements kept so far, the last one first. *)
Fixpoint clean_elements (rooted : bool) (stack : list string) (l : list string) : list string :=
  match l with
  | [] => stack
  | e :: rest =>
      if bool_decide (e = "") || bool_decide (e = ".") then clean_elements rooted stack rest
      else if bool_decide (e = "..") then
        match stack with
        | [] => clean_elements rooted (if rooted then [] else [".."]) rest
        | top :: below =>
            if bool_decide (top = "..") then clean_elements rooted (".." :: stack) rest
            else clean_elements rooted below rest
        end
      else clean_elements rooted (e :: stack) rest
  end.

(** [filepath.Clean] on a system whose separator is the slash. *)
Definition Clean (path : string) : string :=
  let rooted := String.prefix "/" path in
  let out := join_slash (reverse (clean_elements rooted [] (split_slash path))) in
  if rooted then "/" +:+ out else if bool_decide (out = "") then "." else out.

(** [strings.Contains]. *)
Fixpoint contains (s pattern : string) : bool :=
  String.prefix pattern s ||
  match s with EmptyString => false | String _ r => contains r pattern end.

Definition tarName (path : string) : result string :=
  let name := Clean path in
  if bool_decide (name = ".") || bool_decide (name = "") || String.prefix "../" name ||
     String.prefix "/" name || contains name "/../"
  then Err (ENew "invalid package path %q")
  else Ok name.

(** ** Archives *)

(** A tar entry: its header's name and type, and reading its body. *)
Record TarEntry := mkEntry { te_Name : string; te_Typeflag : Z; te_Body : result bytes }.

(** The entries [Next] gives, then its error unless that is [io.EOF]. *)
Class PackageLib := {
  gzip_NewReader : bytes → result bytes;
  tar_entries : bytes → list TarEntry * option goerr;
  sha256 : bytes → bytes }.

Definition TypeReg : Z := 48.
Definition TypeRegA : Z := 0.

Fixpoint read_entries (l : list TarEntry) (entries : gmap string bytes)
    : result (gmap string bytes) :=
  match l with
  | [] => Ok entries
  | hdr :: rest =>
      name ← tarName (te_Name hdr);
      if negb (te_Typeflag hdr =? TypeReg) && negb (te_Typeflag hdr =? TypeRegA)
      then read_entries rest entries
      else match te_Body hdr with
           | Err e => Err (EWrap "read tar entry %s: %w" e)
           | Ok value => read_entries rest (<[name := value]> entries)
           end
  end.

Definition readTarGz {PL : PackageLib} (data : bytes) : result (gmap string bytes) :=
  match gzip_NewReader data with
  | Err e => Err (EWrap "open gzip: %w" e)
  | Ok stream =>
      entries ← read_entries (tar_entries stream).1 ∅;
      match (tar_entries stream).2 with
      | Some e => Err (EWrap "read tar: %w" e)
      | None => Ok entries
      end
  end.

(** ** Inspection *)

Definition externalChaincodeType : string := "external".

Record PackageDescriptor := mkDescriptor {
  Label : string;
  Type_ : string;
  PackageID : string;
  Address : string;
  MetadataJSON : bytes;
  ConnectionJSON : bytes;
  PackageTGZ : bytes }.

(** A string of a decoded [map[string]any]; the last duplicate counts. *)
Fixpoint any_string (o : jobject) (key : string) (acc : string) : string :=
  match o with
  | [] => acc
  | (k, v) :: rest =>
      any_string rest key
        (if bool_decide (k = key) then match v with JString s => s | _ => "" end else acc)
  end.

Definition metadataString (metadata : jobject) (key : string) : string := any_string metadata key "".

Definition hex_digit (z : Z) : ascii := byte_at (if z <? 10 then z + 48 else z + 87).

(** [hex.EncodeToString]. *)
Fixpoint hex_encode (s : string) : string :=
  match s with
  | EmptyString => ""
  | String a r =>
      String (hex_digit (byte_of a / 16)) (String (hex_digit (byte_of a mod 16)) (hex_encode r))
  end.

Section Inspect.
Context {J : JSONText} {PL : PackageLib}.

Definition decode_object (msg : string) (data : bytes) : result jobject :=
  match json_object data with Ok o => Ok o | Err e => Err (EWrap msg e) end.

Definition connectionAddress (connectionBytes : bytes) : result string :=
  connection ← decode_object "decode connection.json: %w" connectionBytes;
  let address := metadataString connection "address" in
  guard_err (bool_decide (address = "")) (ENew "connection.json address is required");;
  Ok address.

Definition require_entry (entries : gmap string bytes) (name : string) (msg : string)
    : result bytes :=
  match entries !! name with Some b => Ok b | None => Err (ENew msg) end.

Definition read_archive (msg : string) (data : bytes) : result (gmap string bytes) :=
  match readTarGz data with Ok m => Ok m | Err e => Err (EWrap msg e) end.

Definition InspectPackageBytes (packageBytes : bytes) : result PackageDescriptor :=
  guard_err (bool_decide (packageBytes = "")) (ENew "package is empty");;
  outer ← read_archive "read package: %w" packageBytes;
  metadataBytes ← require_entry outer "metadata.json" "package missing metadata.json";
  codePackage ← require_entry outer "code.tar.gz" "package missing code.tar.gz";
  metadata ← decode_object "decode metadata.json: %w" metadataBytes;
  let label := metadataString metadata "label" in
  guard_err (bool_decide (label = "")) (ENew "metadata.json label is required");;
  let chaincodeType := metadataString metadata "type" in
  guard_err (bool_decide (chaincodeType = "")) (ENew "metadata.json type is required");;
  guard_err (negb (bool_decide (chaincodeType = externalChaincodeType)))
    (ENew "metadata.json type must be %q");;
  inner ← read_archive "read code.tar.gz: %w" codePackage;
  connectionBytes ← require_entry inner "connection.json" "code.tar.gz missing connection.json";
  address ← connectionAddress connectionBytes;
  Ok (mkDescriptor label chaincodeType
        (label +:+ ":" +:+ hex_encode (sha256 packageBytes))
        address metadataBytes connectionBytes packageBytes).

(** ** Lemmas *)

Definition ordinary (e : string) : Prop :=
  e ≠ "" ∧ e ≠ "." ∧ e ≠ ".." ∧ GoStrings.has_char "/" e = false.

Lemma split_slash_elements s : Forall (λ e, GoStrings.has_char "/" e = false) (split_slash s).
Proof.
  induction s as [|a s IH]; [by constructor|]. simpl.
  destruct (Ascii.eqb a "/") eqn:Ea; [by constructor|].
  destruct (split_slash s) as [|x rest]; [constructor; [|done]; simpl; by rewrite Ea|].
  apply Forall_cons in IH as [Hx Hr]. constructor; [|done]. simpl. by rewrite Ea, Hx.
Qed.

(** A relative path keeps its leading parent steps below ordinary elements. *)
Lemma clean_elements_shape stack l k names :
  Forall (λ e, GoStrings.has_char "/" e = false) l →
  stack = names ++ replicate k ".." → Forall ordinary names →
  ∃ k' names', clean_elements false stack l = names' ++ replicate k' ".." ∧
    Forall ordinary names'.
Proof.
  revert stack k names. induction l as [|e l IH]; intros stack k names Hl -> Hn; [by exists k, names|].
  apply Forall_cons in Hl as [He Hl]. cbn [clean_elements].
  destruct (bool_decide (e = "") || bool_decide (e = ".")) eqn:Esk; [by eapply IH|].
  bool_props. destruct (bool_decide (e = "..")) eqn:Eup; bool_props.
  - destruct names as [|top names]; simpl.
    + destruct k as [|k]; simpl; [by eapply (IH _ 1%nat [])|by eapply (IH _ (S (S k)) [])].
    + apply Forall_cons in Hn as [(_ & _ & Hup & _) Hn].
      rewrite bool_decide_eq_false_2 by done. by eapply IH.
  - eapply (IH _ k (e :: names)); [done..|]. constructor; [|done]. by unfold ordinary.
Qed.

Lemma ordinary_join l : Forall ordinary l → l ≠ [] → join_slash l ≠ "".
Proof.
  intros Hl Hne. destruct l as [|x [|y l]]; [done|..];
    apply Forall_cons in Hl as [(Hx & _) _]; [done|]. destruct x; [done|]. discriminate.
Qed.

Lemma app_suffix_inj (x1 x2 y1 y2 : string) :
  String.length y1 = String.length y2 → x1 +:+ y1 = x2 +:+ y2 → x1 = x2 ∧ y1 = y2.
Proof.
  intros Hlen He. assert (Hl : String.length x1 = String.length x2).
  { apply (f_equal String.length) in He. rewrite !GoStrings.str_length_app in He. lia. }
  clear Hlen. revert x2 He Hl.
  induction x1 as [|a x1 IH]; intros [|b x2] He Hl; try done.
  simpl in *. injection He as -> He. destruct (IH x2) as [-> ->]; [done|lia|done].
Qed.

Lemma hex_digit_inj x y : 0 <= x < 16 → 0 <= y < 16 → hex_digit x = hex_digit y → x = y.
Proof.
  intros Hx Hy He. apply (f_equal byte_of) in He. unfold hex_digit in He.
  rewrite !GoStrings.byte_of_at in He
    by (destruct (Z.ltb_spec x 10), (Z.ltb_spec y 10); lia).
  destruct (Z.ltb_spec x 10), (Z.ltb_spec y 10); lia.
Qed.

Lemma hex_encode_length s : String.length (hex_encode s) = (2 * String.length s)%nat.
Proof. induction s as [|a s IH]; [done|]. simpl. rewrite IH. lia. Qed.

Lemma hex_encode_inj s1 s2 : hex_encode s1 = hex_encode s2 → s1 = s2.
Proof.
  revert s2. induction s1 as [|a s1 IH]; intros [|b s2]; [done..|]. cbn [hex_encode].
  intros [= H1 H2 H]. f_equal; [|by apply IH].
  pose proof (GoStrings.byte_of_range a). pose proof (GoStrings.byte_of_range b).
  apply hex_digit_inj in H1, H2; try (Z.to_euclidean_division_equations; lia).
  apply GoStrings.byte_of_inj. rewrite (Z.div_mod (byte_of a) 16), (Z.div_mod (byte_of b) 16); lia.
Qed.

Lemma InspectPackageBytes_fields packageBytes d :
  InspectPackageBytes packageBytes = Ok d →
  PackageTGZ d = packageBytes ∧ Type_ d = externalChaincodeType ∧
  Label d ≠ "" ∧ Address d ≠ "" ∧ packageBytes ≠ "" ∧
  PackageID d = Label d +:+ ":" +:+ hex_encode (sha256 packageBytes).
Proof.
  unfold InspectPackageBytes. intros H.
  apply bind_ok in H as ([] & Hne & H). apply guard_err_ok in Hne. bool_props.
  apply bind_ok in H as (outer & _ & H). apply bind_ok in H as (mb & _ & H).
  apply bind_ok in H as (cp & _ & H). apply bind_ok in H as (m & _ & H). cbv zeta in H.
  apply bind_ok in H as ([] & Hl & H). apply guard_err_ok in Hl.
  apply bind_ok in H as ([] & _ & H). apply bind_ok in H as ([] & Ht & H). apply guard_err_ok in Ht.
  apply bind_ok in H as (inner & _ & H). apply bind_ok in H as (cb & _ & H).
  apply bind_ok in H as (addr & Ha & [= <-]). unfold connectionAddress in Ha.
  apply bind_ok in Ha as (o & _ & Ha). cbv zeta in Ha.
  apply bind_ok in Ha as ([] & Hn & [= <-]). apply guard_err_ok in Hn.
  bool_props. done.
Qed.

(** ** Properties *)

(** No archive entry is stored under a path that leaves the archive: an accepted name is
    a sequence of ordinary elements joined by slashes, or the bare parent directory. *)
Theorem tarName_confined path name :
  tarName path = Ok name →
  name = ".." ∨ ∃ l, l ≠ [] ∧ Forall ordinary l ∧ name = join_slash l.
Proof.
  unfold tarName. destruct (_ || _) eqn:E; [done|]. intros [= <-]. bool_props.
  unfold Clean in *. destruct (String.prefix "/" path).
  { exfalso. by match goal with H : String.prefix "/" ("/" +:+ _) = false |- _ =>
      simpl in H; destruct (join_slash _) end. }
  destruct (clean_elements_shape [] (split_slash path) 0 []) as (k & names & Hc & Hn);
    [apply split_slash_elements|done|constructor|].
  rewrite Hc, reverse_app, reverse_replicate in *. apply Forall_reverse in Hn.
  assert (Hup : ∀ x rest, String.prefix "../" (join_slash (".." :: x :: rest)) = true)
    by (intros; cbn [join_slash]; by destruct (match rest with [] => x | _ => _ end)).
  destruct k as [|[|k]]; cbn [replicate app] in *.
  - right. exists (reverse names). case_bool_decide as Hz; [done|].
    split_and!; [by intros Hnil; rewrite Hnil in Hz|done|done].
  - destruct (reverse names) as [|x rest]; [by left|].
    exfalso. case_bool_decide; [done|]. by rewrite Hup in *.
  - exfalso. case_bool_decide; [done|]. by rewrite Hup in *.
Qed.

(** A package identifier binds the content: packages accepted under one identifier are
    the same, unless their digests collide. *)
Theorem package_id_binds_content b1 b2 d1 d2 :
  InspectPackageBytes b1 = Ok d1 → InspectPackageBytes b2 = Ok d2 →
  String.length (sha256 b1) = String.length (sha256 b2) →
  (sha256 b1 = sha256 b2 → b1 = b2) →
  PackageID d1 = PackageID d2 → d1 = d2.
Proof.
  intros H1 H2 Hlen Hcol He. pose proof H1 as (_ & _ & _ & _ & _ & Hi1)%InspectPackageBytes_fields.
  pose proof H2 as (_ & _ & _ & _ & _ & Hi2)%InspectPackageBytes_fields.
  rewrite Hi1, Hi2 in He. apply app_suffix_inj in He as [_ He];
    [|rewrite !GoStrings.str_length_app, !hex_encode_length; lia].
  injection He as He. apply hex_encode_inj, Hcol in He. congruence.
Qed.

End Inspect.

(** The parent directory itself passes the guard. *)
Example tarName_parent : tarName "META-INF/../.." = Ok "..".
Proof. reflexivity. Qed.

(** ** Witnesses *)

(** An archive of two files around an archive of one; the digest is the data. *)
#[local] Instance example_lib : PackageLib := {
  gzip_NewReader data := if bool_decide (data = "") then Err (ENew "EOF") else Ok data;
  tar_entries stream :=
    (if bool_decide (stream = "inner")
     then [mkEntry "./connection.json" TypeReg
             (Ok (json_encode (JSONText := example_json) [("address", JString "cc:7052")]))]
     else [mkEntry "metadata.json" TypeReg
             (Ok (json_encode (JSONText := example_json)
                    [("label", JString "basic"); ("type", JString "external")]));
           mkEntry "code.tar.gz" TypeReg (Ok "inner")], None);
  sha256 data := data }.

Lemma tarName_confined_witness :
  tarName "./META-INF//statedb/../couchdb" = Ok "META-INF/couchdb" ∧
  ("META-INF/couchdb" = ".." ∨
   ∃ l, l ≠ [] ∧ Forall ordinary l ∧ "META-INF/couchdb" = join_slash l).
Proof.
  split; [reflexivity|].
  apply (tarName_confined "./META-INF//statedb/../couchdb"). reflexivity.
Defined.

Lemma package_id_binds_content_witness :
  ∃ d, InspectPackageBytes (J := example_json) "outer" = Ok d ∧
    PackageID d = "basic:6f75746572" ∧ Address d = "cc:7052" ∧ d = d.
Proof.
  destruct (InspectPackageBytes (J := example_json) "outer") as [d|] eqn:Hd; [|discriminate Hd].
  exists d. split; [reflexivity|].
  split; [vm_compute in Hd; by injection Hd as <-|].
  split; [vm_compute in Hd; by injection Hd as <-|].
  apply (package_id_binds_content (J := example_json) "outer" "outer" d d Hd Hd); done.
Defined.

End Package.
