(* ===== verification/PackageBuild.v ===== *)
(** Building a lifecycle package from a directory, [BuildExternalChaincodePackage] of
    [pkg/lifecycle/package.go].

    The file system is a tree, and the directory a caller names a function from its clean path;
    changes while a package is built are not modelled.  The tar and gzip writers are the class
    [PackageWriter], whose laws [WriterLaws] state that the readers of [PackageLib] read back what
    was written.  A value of a decoded [map[string]any] is an abstract type of [MetadataLib]. *)
From Stdlib Require Import ZArith Lia Ascii.
From stdpp Require Import base option list strings gmap.
From S2P Require Import Prelude GoStrings Json Framing Package.
Import Json Package.
Local Open Scope Z_scope.

Module Build.

(** ** The file system *)

(** A file with its permissions and what reading it gives; a directory with the error of listing
    it, if any, and its entries in the order of [os.ReadDir]; a symbolic link with what it leads
    to; anything else. *)
Inductive node : Type :=
  | File (perm : Z) (data : result bytes)
  | Dir (perm : Z) (failed : option goerr) (entries : list (string * node))
  | Link (target : option node)
  | Special (data : result bytes).

(** The children of a directory get a motive of their own. *)
Section Induction.
Variable P : node → Prop.
Hypothesis P_file : ∀ perm data, P (File perm data).
Hypothesis P_dir : ∀ perm failed entries, Forall (λ e, P e.2) entries → P (Dir perm failed entries).
Hypothesis P_link : ∀ target, P (Link target).
Hypothesis P_special : ∀ data, P (Special data).

Fixpoint tree_ind (n : node) : P n :=
  match n with
  | File perm data => P_file perm data
  | Dir perm failed entries =>
      P_dir perm failed entries
        ((fix go (l : list (string * node)) : Forall (λ e, P e.2) l :=
            match l with
            | [] => Forall_nil_2 _
            | e :: rest => Forall_cons_2 _ e rest (tree_ind e.2) (go rest)
            end) entries)
  | Link target => P_link target
  | Special data => P_special data
  end.
End Induction.

(** [os.ErrNotExist]. *)
Definition ErrNotExist : goerr := EExt "file does not exist".

(** What a chain of links leads to. *)
Fixpoint follow (n : node) : option node :=
  match n with
  | Link (Some target) => follow target
  | Link None => None
  | _ => Some n
  end.

Fixpoint entry (entries : list (string * node)) (name : string) : option node :=
  match entries with
  | [] => None
  | (k, n) :: rest => if bool_decide (k = name) then Some n else entry rest name
  end.

Definition entries_of (n : node) : list (string * node) :=
  match n with Dir _ _ entries => entries | _ => [] end.

(** [os.Stat] of an entry of a directory. *)
Definition Stat (dir : node) (name : string) : result node :=
  match entry (entries_of dir) name ≫= follow with
  | Some n => Ok n
  | None => Err ErrNotExist
  end.

(** [os.ReadFile] of what an entry leads to. *)
Definition read_node (n : node) : result bytes :=
  match n with
  | File _ data | Special data => data
  | _ => Err (EExt "is a directory")
  end.

Definition ReadFile (dir : node) (name : string) : result bytes := n ← Stat dir name; read_node n.

Definition IsDir (n : node) : bool := match n with Dir _ _ _ => true | _ => false end.
Definition IsRegular (n : node) : bool := match n with File _ _ => true | _ => false end.

(** ** Writing archives *)

Record TarHeader := mkHeader { th_Name : string; th_Mode : Z; th_Typeflag : Z }.

Definition TypeDir : Z := 53.

(** A tar writer is the headers and bodies written so far; [WriteHeader_error] is what writing one
    more header reports. *)
Class PackageWriter := {
  WriteHeader_error : TarHeader → option goerr;
  tar_write : list (TarHeader * bytes) → bytes;
  gzip_write : bytes → bytes }.

(** An entry as it is read back: a header without a type is that of a regular file, or of a
    directory when its name ends in a slash. *)
Fixpoint ends_in_slash (name : string) : bool :=
  match name with
  | EmptyString => false
  | String a EmptyString => Ascii.eqb a "/"
  | String _ rest => ends_in_slash rest
  end.

Definition read_back (w : TarHeader * bytes) : TarEntry :=
  mkEntry (th_Name w.1)
    (if th_Typeflag w.1 =? 0 then if ends_in_slash (th_Name w.1) then TypeDir else TypeReg
     else th_Typeflag w.1) (Ok w.2).

Class WriterLaws {PL : PackageLib} {W : PackageWriter} : Prop := {
  tar_entries_write l :
    Forall (λ w, WriteHeader_error w.1 = None) l → tar_entries (tar_write l) = (map read_back l, None);
  gzip_read_write b : gzip_NewReader (gzip_write b) = Ok b;
  gzip_read_empty : is_ok (gzip_NewReader "") = false }.

Definition writer : Type := list (TarHeader * bytes).

Section Writing.
Context {W : PackageWriter}.

Definition write_header (tw : writer) (hdr : TarHeader) (body : bytes) : result writer :=
  match WriteHeader_error hdr with
  | Some e => Err (EWrap "write tar header %s: %w" e)
  | None => Ok (tw ++ [(hdr, body)])
  end.

Definition writeBytes (tw : writer) (name : string) (data : bytes) (mode : Z) : result writer :=
  name ← tarName name;
  write_header tw (mkHeader name mode 0) data.

Definition perm_of (n : node) : Z := match n with File perm _ | Dir perm _ _ => perm | _ => 0 end.

Definition addDir (tw : writer) (n : node) (name : string) : result writer :=
  write_header tw (mkHeader (name +:+ "/") (perm_of n) TypeDir) "".

(** [0o644]. *)
Definition file_mode : Z := 420.

Definition addFile (tw : writer) (data : result bytes) (name : string) : result writer :=
  match data with
  | Err e => Err (EWrap "read %s: %w" e)
  | Ok data => writeBytes tw name data file_mode
  end.

(** [filepath.WalkDir] below the root: every entry in turn, a directory before its own. *)
Fixpoint walk (tw : writer) (rel : string) (n : node) {struct n} : result writer :=
  name ← tarName rel;
  match n with
  | Dir _ failed entries =>
      tw ← addDir tw n name;
      match failed with
      | Some e => Err e
      | None =>
          (fix walk_entries (tw : writer) (l : list (string * node)) {struct l} : result writer :=
             match l with
             | [] => Ok tw
             | (k, child) :: rest =>
                 tw ← walk tw (rel +:+ "/" +:+ k) child;
                 walk_entries tw rest
             end) tw entries
      end
  | File _ data => addFile tw data name
  | Link _ | Special _ => Err (ENew "unsupported package entry %s")
  end.

Fixpoint walk_entries (tw : writer) (rel : string) (l : list (string * node)) : result writer :=
  match l with
  | [] => Ok tw
  | (k, child) :: rest => tw ← walk tw (rel +:+ "/" +:+ k) child; walk_entries tw rel rest
  end.

(** [addTree]; the root is not followed when it is a link, and is then not a directory. *)
Definition addTree (tw : writer) (rel : string) (dir : option node) : result writer :=
  match dir with
  | Some (Dir _ (Some e) _) => Err e
  | Some (Dir _ None entries) => walk_entries tw rel entries
  | _ => Ok tw
  end.

Definition buildCodePackage (dir : node) : result bytes :=
  tw ← addFile [] (ReadFile dir "connection.json") "connection.json";
  tw ← match Stat dir "META-INF" with
       | Ok info => if IsDir info then addTree tw "META-INF" (entry (entries_of dir) "META-INF") else Ok tw
       | Err e => if errors_Is e ErrNotExist then Ok tw else Err (EWrap "stat META-INF: %w" e)
       end;
  Ok (gzip_write (tar_write tw)).

Definition buildOuterPackage (metadataBytes codePackage : bytes) : result bytes :=
  tw ← writeBytes [] "metadata.json" metadataBytes file_mode;
  tw ← writeBytes tw "code.tar.gz" codePackage file_mode;
  Ok (gzip_write (tar_write tw)).

End Writing.

(** ** Metadata *)

(** [map[string]any]: [decode_any] gives [None] for [null]; [MarshalIndent] is
    [json.MarshalIndent(m, _, two spaces)]. *)
Class MetadataLib := {
  any : Type;
  string_any : string → any;
  any_as_string : any → option string;
  decode_any : bytes → result (option (gmap string any));
  MarshalIndent : gmap string any → result bytes }.

Section Metadata.
Context {J : JSONText} {M : MetadataLib}.

Definition field (m : gmap string any) (key : string) : string := default "" (m !! key ≫= any_as_string).

(** What the encoder writes decodes to the same strings, when they are valid UTF-8. *)
Class MetadataLaws : Prop := {
  string_any_as s : any_as_string (string_any s) = Some s;
  decoded_valid b m k s : decode_any b = Ok (Some m) → m !! k ≫= any_as_string = Some s → valid_utf8 s = true;
  MarshalIndent_ok m : is_ok (MarshalIndent m) = true;
  MarshalIndent_decodes m b :
    MarshalIndent m = Ok b → (∀ k s, m !! k ≫= any_as_string = Some s → valid_utf8 s = true) →
    ∃ o, json_object (b +:+ String (byte_at 10) "") = Ok o ∧ ∀ k, metadataString o k = field m k }.

Definition readMetadata (dir : node) : result (gmap string any) :=
  match ReadFile dir "metadata.json" with
  | Err e => if errors_Is e ErrNotExist then Ok ∅ else Err (EWrap "read metadata.json: %w" e)
  | Ok data =>
      if bool_decide (GoStrings.TrimSpace data = "") then Ok ∅
      else match decode_any data with
           | Err e => Err (EWrap "decode metadata.json: %w" e)
           | Ok None => Err (ENew "metadata.json must contain an object")
           | Ok (Some m) => Ok m
           end
  end.

Definition set_default (m : gmap string any) (key : string) (v : string) (missing : bool) : gmap string any :=
  if missing then <[key := string_any v]> m else m.

Definition readAndNormalizeMetadata (dir : node) (labelOverride : string) : result (gmap string any) :=
  metadata ← readMetadata dir;
  let metadata := set_default metadata "label" labelOverride (negb (bool_decide (labelOverride = ""))) in
  let metadata := set_default metadata "path" "" (bool_decide (metadata !! "path" = None)) in
  let metadata := set_default metadata "type" externalChaincodeType (bool_decide (field metadata "type" = "")) in
  guard_err (negb (bool_decide (field metadata "type" = externalChaincodeType)))
    (ENew "metadata.json type must be %q");;
  guard_err (bool_decide (field metadata "label" = ""))
    (ENew "metadata.json label is required; pass --label or set metadata.json label");;
  Ok metadata.

(** ** Building *)

Context {PL : PackageLib} {W : PackageWriter}.

(** [stat] is [os.Stat] of the clean path of the source directory. *)
Definition cleanDir (stat : string → result node) (path : string) : result node :=
  guard_err (bool_decide (path = "")) (ENew "path is required");;
  match stat (Clean path) with
  | Err e => Err (EWrap "stat path: %w" e)
  | Ok info => if IsDir info then Ok info else Err (ENew "path %q is not a directory")
  end.

Definition requireRegularFile (dir : node) (name : string) : result () :=
  match Stat dir name with
  | Err e => Err (EWrap "required file %s: %w" e)
  | Ok info => guard_err (negb (IsRegular info)) (ENew "required file %s is not a regular file")
  end.

Record PackageOptions := mkOptions { SourceDir : string; opt_Label : string }.

Definition BuildExternalChaincodePackage (stat : string → result node) (opts : PackageOptions)
    : result PackageDescriptor :=
  sourceDir ← cleanDir stat (SourceDir opts);
  requireRegularFile sourceDir "connection.json";;
  metadata ← readAndNormalizeMetadata sourceDir (opt_Label opts);
  metadataBytes ← match MarshalIndent metadata with
                  | Ok b => Ok b
                  | Err e => Err (EWrap "marshal metadata: %w" e)
                  end;
  codePackage ← buildCodePackage sourceDir;
  packageBytes ← buildOuterPackage (metadataBytes +:+ String (byte_at 10) "") codePackage;
  match InspectPackageBytes packageBytes with
  | Err e => Err (EWrap "inspect generated package: %w" e)
  | Ok desc => Ok desc
  end.

End Metadata.

(** ** Names *)

Lemma split_slash_app x s :
  GoStrings.has_char "/" x = false → split_slash (x +:+ "/" +:+ s) = x :: split_slash s.
Proof.
  induction x as [|a x IH]; intros H; [done|]. cbn in H. apply orb_false_iff in H as [Ha Hx].
  change (String a x +:+ "/" +:+ s) with (String a (x +:+ "/" +:+ s)). cbn [split_slash].
  by rewrite Ha, IH.
Qed.

Lemma split_slash_one x : GoStrings.has_char "/" x = false → split_slash x = [x].
Proof.
  induction x as [|a x IH]; intros H; [done|]. cbn in H. apply orb_false_iff in H as [Ha Hx].
  cbn. rewrite Ha. by rewrite (IH Hx).
Qed.

Lemma split_join l : Forall ordinary l → l ≠ [] → split_slash (join_slash l) = l.
Proof.
  induction 1 as [|x l (_ & _ & _ & Hx) Hl IH]; intros Hne; [done|].
  destruct l as [|y l]; [by apply split_slash_one|]. change (join_slash (x :: y :: l)) with (x +:+ "/" +:+ join_slash (y :: l)).
  by rewrite split_slash_app, IH.
Qed.

Lemma join_slash_inj l1 l2 :
  Forall ordinary l1 → Forall ordinary l2 → l1 ≠ [] → l2 ≠ [] → join_slash l1 = join_slash l2 → l1 = l2.
Proof. intros H1 H2 N1 N2 H. rewrite <- (split_join l1), <- (split_join l2) by done. by rewrite H. Qed.

Lemma prefix_parent s : String.prefix "../" s = true → ".." ∈ split_slash s.
Proof.
  intros H. do 3 (destruct s as [|? s]; cbn [String.prefix] in H; [done|];
    destruct (ascii_dec _ _) as [<-|]; [|done]).
  cbn. apply elem_of_cons. by left.
Qed.

Lemma contains_parent s : contains s "/../" = true → ".." ∈ tail (split_slash s).
Proof.
  induction s as [|a s IH]; [done|]. cbn [contains]. intros H. apply orb_true_iff in H as [H|H].
  - cbn [String.prefix] in H. destruct (ascii_dec "/" a) as [<-|]; [|done].
    apply prefix_parent in H. done.
  - apply IH in H. cbn. destruct (Ascii.eqb a "/"); [|by destruct (split_slash s)].
    cbn. destruct (split_slash s); [done|]. apply elem_of_cons. by right.
Qed.

Lemma clean_ordinary stack l : Forall ordinary l → clean_elements false stack l = reverse l ++ stack.
Proof.
  intros H. revert stack. induction H as [|x l (H1 & H2 & H3 & _) Hl IH]; intros stack; [done|].
  cbn [clean_elements]. rewrite !bool_decide_eq_false_2 by done. cbn [orb]. rewrite IH, reverse_cons.
  by rewrite <- app_assoc.
Qed.

Lemma ordinary_parent l : Forall ordinary l → ".." ∉ l.
Proof. intros H Hin. rewrite Forall_forall in H. by destruct (H _ Hin) as (_ & _ & Hn & _). Qed.

Lemma rooted_element s : String.prefix "/" s = true → head (split_slash s) = Some "".
Proof.
  destruct s as [|a s]; [done|]. cbn [String.prefix]. destruct (ascii_dec "/" a) as [<-|]; done.
Qed.

Lemma Clean_ordinary path l :
  Forall ordinary l → l ≠ [] → (split_slash path = l ∨ split_slash path = l ++ [""]) →
  Clean path = join_slash l.
Proof.
  intros Hl Hne Hs. unfold Clean. replace (String.prefix "/" path) with false.
  2:{ symmetry. apply not_true_is_false. intros H%rooted_element.
      destruct Hl as [|x l (Hx & _) Hl]; [done|]. destruct Hs as [Hs|Hs]; rewrite Hs in H; by injection H. }
  assert (Hc : clean_elements false [] (split_slash path) = reverse l).
  { destruct Hs as [->| ->]; [by rewrite clean_ordinary, app_nil_r|].
    assert (Hgo : ∀ st, clean_elements false st (l ++ [""]) = reverse l ++ st).
    { clear Hne. induction Hl as [|x l (H1 & H2 & H3 & _) Hl IH]; intros st; [done|].
      cbn [clean_elements app]. rewrite !bool_decide_eq_false_2 by done. cbn [orb].
      by rewrite IH, reverse_cons, <- app_assoc. }
    by rewrite Hgo, app_nil_r. }
  rewrite Hc, reverse_involutive, bool_decide_eq_false_2; [done|]. by apply ordinary_join.
Qed.

(** The name of an ordinary path, even with a slash after it, is the path. *)
Lemma tarName_clean path l :
  Forall ordinary l → l ≠ [] → (split_slash path = l ∨ split_slash path = l ++ [""]) →
  tarName path = Ok (join_slash l).
Proof.
  intros Hl Hne Hp. pose proof (split_join l Hl Hne) as Hs. pose proof (ordinary_parent l Hl) as Hup.
  unfold tarName. rewrite (Clean_ordinary path l) by done.
  rewrite (bool_decide_eq_false_2 (join_slash l = "")) by by apply ordinary_join.
  rewrite bool_decide_eq_false_2.
  2:{ intros Hd. rewrite Hd in Hs. cbn in Hs. subst l. by apply Forall_cons in Hl as [(_ & Hl & _) _]. }
  replace (String.prefix "../" (join_slash l)) with false.
  2:{ symmetry. apply not_true_is_false. intros H%prefix_parent. by rewrite Hs in H. }
  replace (String.prefix "/" (join_slash l)) with false.
  2:{ symmetry. apply not_true_is_false. intros H%rooted_element. rewrite Hs in H.
      destruct Hl as [|x l (Hx & _)]; [done|]. by injection H. }
  replace (contains (join_slash l) "/../") with false; [done|].
  symmetry. apply not_true_is_false. intros H%contains_parent. rewrite Hs in H. apply Hup.
  destruct l; [done|]. apply elem_of_cons. by right.
Qed.

Lemma tarName_ordinary l : Forall ordinary l → l ≠ [] → tarName (join_slash l) = Ok (join_slash l).
Proof. intros Hl Hne. apply tarName_clean; [done..|]. left. by apply split_join. Qed.

Lemma tarName_directory l :
  Forall ordinary l → l ≠ [] → tarName (join_slash l +:+ "/") = Ok (join_slash l).
Proof.
  intros Hl Hne. apply tarName_clean; [done..|]. right. induction Hl as [|x l (_ & _ & _ & Hx) Hl IH]; [done|].
  destruct l as [|y l].
  - exact (split_slash_app x "" Hx).
  - change (join_slash (x :: y :: l)) with (x +:+ "/" +:+ join_slash (y :: l)).
    rewrite <- !GoStrings.app_assoc_str, split_slash_app by done. by rewrite IH.
Qed.

Lemma ends_in_slash_last s : ends_in_slash s = true → last (split_slash s) = Some "".
Proof.
  induction s as [|a s IH]; [done|]. intros H. cbn [split_slash]. destruct s as [|b s].
  - cbn in H. by rewrite H.
  - assert (IHs : last (split_slash (String b s)) = Some "") by by apply IH. clear IH.
    assert (Hne : split_slash (String b s) ≠ [""]).
    { cbn. destruct (Ascii.eqb b "/"); [|by destruct (split_slash s)]. by destruct s as [|? s]; [|cbn; repeat case_match]. }
    destruct (split_slash (String b s)) as [|x [|y rest]]; [done| |by destruct (Ascii.eqb a "/")].
    cbn in IHs. injection IHs as ->. done.
Qed.

Lemma ends_in_slash_join l : Forall ordinary l → l ≠ [] → ends_in_slash (join_slash l) = false.
Proof.
  intros Hl Hne. apply not_true_is_false. intros H%ends_in_slash_last. rewrite split_join in H by done.
  apply last_Some in H as [l' ->]. apply Forall_app in Hl as [_ Hl].
  by apply Forall_cons in Hl as [(Hx & _) _].
Qed.

(** ** What the walk writes *)

(** The regular files below a node, by their path from it, as a walk visits them. *)
Fixpoint files (n : node) : list (list string * bytes) :=
  match n with
  | File _ (Ok data) => [([], data)]
  | Dir _ _ entries =>
      (fix files_in (l : list (string * node)) : list (list string * bytes) :=
         match l with
         | [] => []
         | (k, child) :: rest => map (λ f, (k :: f.1, f.2)) (files child) ++ files_in rest
         end) entries
  | _ => []
  end.

Fixpoint files_in (l : list (string * node)) : list (list string * bytes) :=
  match l with
  | [] => []
  | (k, child) :: rest => map (λ f, (k :: f.1, f.2)) (files child) ++ files_in rest
  end.

Lemma files_Dir perm failed entries : files (Dir perm failed entries) = files_in entries.
Proof. cbn. induction entries as [|[k c] rest IH]; [done|]. cbn. by rewrite IH. Qed.

(** Only directories that can be listed and files that can be read. *)
Fixpoint packable (n : node) : bool :=
  match n with
  | File _ data => is_ok data
  | Dir _ failed entries =>
      bool_decide (failed = None) &&
      (fix all (l : list (string * node)) : bool :=
         match l with [] => true | (_, child) :: rest => packable child && all rest end) entries
  | _ => false
  end.

Lemma packable_Dir perm failed entries :
  packable (Dir perm failed entries) = bool_decide (failed = None) && forallb (λ e, packable e.2) entries.
Proof. cbn. f_equal. induction entries as [|[k c] rest IH]; [done|]. cbn. by rewrite IH. Qed.

(** Names as a file system has them: without slashes, never those of the directory itself or
    its parent, and all different. *)
Fixpoint named (n : node) : Prop :=
  match n with
  | Dir _ _ entries =>
      NoDup entries.*1 ∧ Forall ordinary entries.*1 ∧
      (fix all (l : list (string * node)) : Prop :=
         match l with [] => True | (_, child) :: rest => named child ∧ all rest end) entries
  | _ => True
  end.

Lemma named_Dir perm failed entries :
  named (Dir perm failed entries) ↔
  NoDup entries.*1 ∧ Forall ordinary entries.*1 ∧ Forall (λ e, named e.2) entries.
Proof.
  cbn. do 2 f_equiv. induction entries as [|[k c] rest IH]; [by split; [constructor|]|].
  rewrite Forall_cons. by rewrite IH.
Qed.

Section Walk.
Context {W : PackageWriter}.

(** The node at a path, without following links. *)
Fixpoint at_path (n : node) (q : list string) : option node :=
  match q with
  | [] => Some n
  | k :: rest => match entry (entries_of n) k with Some c => at_path c rest | None => None end
  end.

Lemma entry_elem entries k c : NoDup entries.*1 → entry entries k = Some c ↔ (k, c) ∈ entries.
Proof.
  induction entries as [|[k' c'] rest IH]; intros Hd; [by split; [|intros ?%not_elem_of_nil]|].
  apply NoDup_cons in Hd as [Hnin Hd]. cbn. rewrite elem_of_cons. case_bool_decide as Hk.
  - subst. split; [intros [= ->]; by left|]. intros [[= ->]|Hin]; [done|].
    exfalso. apply Hnin. apply list_elem_of_fmap. by exists (k, c).
  - rewrite IH by done. naive_solver.
Qed.

Lemma files_in_elem entries f :
  f ∈ files_in entries ↔ ∃ k c g, (k, c) ∈ entries ∧ g ∈ files c ∧ f = (k :: g.1, g.2).
Proof.
  induction entries as [|[k c] rest IH]; cbn [files_in].
  - split; [by intros ?%not_elem_of_nil|]. by intros (? & ? & ? & ?%not_elem_of_nil & _).
  - rewrite elem_of_app, IH, list_elem_of_fmap. setoid_rewrite elem_of_cons. naive_solver.
Qed.

(** The files a walk visits are the regular files of the tree. *)
Lemma files_at n : named n → ∀ q d,
  (q, d) ∈ files n ↔ ∃ perm, at_path n q = Some (File perm (Ok d)).
Proof.
  induction n as [perm data|perm failed entries IH|target|data] using tree_ind; intros Hn q d.
  - destruct data as [b|e].
    + cbn. rewrite list_elem_of_singleton. destruct q; cbn; naive_solver.
    + split; [by intros ?%not_elem_of_nil|]. by destruct q; intros [? ?].
  - rewrite files_Dir, files_in_elem. apply named_Dir in Hn as (Hd & _ & Hn).
    rewrite Forall_forall in IH. rewrite Forall_forall in Hn. destruct q as [|k q]; cbn.
    + split; [by intros (? & ? & ? & _ & _ & ?)|]. by intros [? ?].
    + split.
      * intros (k' & c & [q' d'] & Hin & Hg & [= -> -> ->]). apply entry_elem in Hin as He; [|done].
        rewrite He. by apply (IH (k', c) Hin (Hn _ Hin)).
      * intros [perm' Hat]. destruct (entry entries k) as [c|] eqn:He; [|done].
        apply entry_elem in He; [|done]. exists k, c, (q, d). split_and!; [done| |done].
        apply (IH (k, c) He (Hn _ He)). by exists perm'.
  - cbn. split; [by intros ?%not_elem_of_nil|]. by destruct q; intros [? ?].
  - cbn. split; [by intros ?%not_elem_of_nil|]. by destruct q; intros [? ?].
Qed.

Lemma at_path_ordinary n q f : named n → at_path n q = Some f → Forall ordinary q.
Proof.
  revert n. induction q as [|k q IH]; intros n Hn Hat; [constructor|]. cbn in Hat.
  destruct n as [| perm failed entries| |]; try done. cbn in Hat.
  destruct (entry entries k) as [c|] eqn:He; [|done]. apply named_Dir in Hn as (Hd & Hk & Hn).
  apply entry_elem in He; [|done]. rewrite Forall_forall in Hk. rewrite Forall_forall in Hn.
  constructor; [|exact (IH c (Hn _ He) Hat)]. apply Hk. apply list_elem_of_fmap. by exists (k, c).
Qed.

Lemma walk_Dir tw rel perm failed entries :
  walk tw rel (Dir perm failed entries) =
    (name ← tarName rel;
     tw ← addDir tw (Dir perm failed entries) name;
     match failed with Some e => Err e | None => walk_entries tw rel entries end).
Proof.
  cbn [walk]. destruct (tarName rel) as [name|]; [|done]. cbn [mbind result_mbind].
  destruct (addDir _ _ _) as [tw'|]; [|done]. cbn [mbind result_mbind].
  destruct failed; [done|]. clear tw. revert tw'. induction entries as [|[k c] rest IH]; intros tw; [done|].
  cbn [walk_entries]. destruct (walk tw _ c); [|done]. cbn [mbind result_mbind]. apply IH.
Qed.

Definition written (w : TarHeader * bytes) : Prop := WriteHeader_error w.1 = None.

(** Storing files under the paths below [p]. *)
Definition insert_all (p : list string) (fs : list (list string * bytes)) (m : gmap string bytes)
    : gmap string bytes :=
  foldl (λ m f, <[join_slash (p ++ f.1) := f.2]> m) m fs.

(** What a walk wrote reads back as the files below the node. *)
Definition wrote (tw tw' : writer) (p : list string) (fs : list (list string * bytes)) : Prop :=
  ∃ ws, tw' = tw ++ ws ∧ Forall written ws ∧
    ∀ m, read_entries (map read_back ws) m = Ok (insert_all p fs m).

Lemma read_entries_app l1 l2 m :
  read_entries (l1 ++ l2) m = (m' ← read_entries l1 m; read_entries l2 m').
Proof.
  revert m. induction l1 as [|h l1 IH]; intros m; [done|]. cbn [app read_entries].
  destruct (tarName _); [|done]. cbn [mbind result_mbind]. destruct (_ && _); [apply IH|].
  destruct (te_Body h); [apply IH|done].
Qed.

Lemma wrote_trans tw tw1 tw2 p fs1 fs2 :
  wrote tw tw1 p fs1 → wrote tw1 tw2 p fs2 → wrote tw tw2 p (fs1 ++ fs2).
Proof.
  intros (ws1 & -> & H1 & R1) (ws2 & -> & H2 & R2). exists (ws1 ++ ws2).
  split; [by rewrite app_assoc|]. split; [by apply Forall_app|]. intros m.
  rewrite map_app, read_entries_app, R1. cbn [mbind result_mbind]. rewrite R2.
  unfold insert_all. by rewrite foldl_app.
Qed.

Lemma wrote_none tw p : wrote tw tw p [].
Proof. exists []. by rewrite app_nil_r. Qed.

Lemma wrote_below tw tw' p k fs : wrote tw tw' (p ++ [k]) fs → wrote tw tw' p (map (λ f, (k :: f.1, f.2)) fs).
Proof.
  intros (ws & -> & H & R). exists ws. split_and!; [done..|]. intros m. rewrite R. f_equal. clear R.
  unfold insert_all. revert m. induction fs as [|f fs IH]; intros m; [done|]. cbn. by rewrite IH, <- app_assoc.
Qed.

Lemma write_header_ok tw hdr body tw' :
  write_header tw hdr body = Ok tw' ↔ WriteHeader_error hdr = None ∧ tw' = tw ++ [(hdr, body)].
Proof. unfold write_header. destruct (WriteHeader_error hdr); naive_solver. Qed.

Lemma addFile_wrote tw data p tw' :
  Forall ordinary p → p ≠ [] → addFile tw data (join_slash p) = Ok tw' →
  ∃ b, data = Ok b ∧ wrote tw tw' p [([], b)].
Proof.
  intros Hp Hne. unfold addFile, writeBytes. destruct data as [b|]; [|done].
  rewrite tarName_ordinary by done. cbn [mbind result_mbind]. rewrite write_header_ok. intros [Hh ->].
  exists b. split; [done|]. exists [(mkHeader (join_slash p) file_mode 0, b)].
  split_and!; [done|by repeat constructor|]. intros m. cbn. rewrite ends_in_slash_join by done.
  rewrite tarName_ordinary by done. cbn. unfold insert_all. cbn. by rewrite app_nil_r.
Qed.

Lemma addDir_wrote tw n p tw' :
  Forall ordinary p → p ≠ [] → addDir tw n (join_slash p) = Ok tw' → wrote tw tw' p [].
Proof.
  intros Hp Hne. unfold addDir. rewrite write_header_ok. intros [Hh ->]. eexists.
  split; [done|]. split; [by repeat constructor|]. intros m. cbn. rewrite tarName_directory by done. done.
Qed.

Lemma join_below p k : Forall ordinary p → p ≠ [] → join_slash p +:+ "/" +:+ k = join_slash (p ++ [k]).
Proof.
  intros Hp Hne. induction Hp as [|x p Hx Hp IH]; [done|]. destruct p as [|y p]; [done|].
  change (join_slash (x :: y :: p)) with (x +:+ "/" +:+ join_slash (y :: p)).
  rewrite <- !GoStrings.app_assoc_str, IH by done. done.
Qed.

Definition walked (n : node) : Prop := ∀ tw p tw',
  named n → Forall ordinary p → p ≠ [] → walk tw (join_slash p) n = Ok tw' →
  packable n = true ∧ wrote tw tw' p (files n).

Lemma ordinary_snoc p k : Forall ordinary p → ordinary k → Forall ordinary (p ++ [k]).
Proof. intros Hp Hk. apply Forall_app; split; [done|by constructor]. Qed.

Lemma walk_entries_wrote entries p :
  Forall (λ e, walked e.2) entries → Forall ordinary entries.*1 → Forall (λ e, named e.2) entries →
  Forall ordinary p → p ≠ [] → ∀ tw tw', walk_entries tw (join_slash p) entries = Ok tw' →
  forallb (λ e, packable e.2) entries = true ∧ wrote tw tw' p (files_in entries).
Proof.
  intros Hall Hk Hn Hp Hne. induction entries as [|[k c] rest IH]; intros tw tw' Hw.
  - injection Hw as <-. split; [done|]. apply wrote_none.
  - cbn [walk_entries] in Hw. apply bind_ok in Hw as (tw2 & Hc & Hw).
    apply Forall_cons in Hall as [Hc1 Hall], Hk as [Hk1 Hk], Hn as [Hn1 Hn]. cbn [snd fst] in *.
    rewrite join_below in Hc by done.
    apply (Hc1 tw (p ++ [k])) in Hc as [Hpk Hwr]; [|done|by apply ordinary_snoc|by destruct p].
    destruct (IH Hall Hk Hn tw2 tw' Hw) as [Hrest Hwr']. cbn [forallb snd]. rewrite Hpk. split; [done|].
    eapply wrote_trans; [by apply wrote_below|exact Hwr'].
Qed.

Lemma walk_wrote n : walked n.
Proof.
  induction n as [perm data|perm failed entries IH|target|data] using tree_ind; intros tw p tw' Hn Hp Hne Hw;
    [| |by cbn [walk] in Hw; rewrite tarName_ordinary in Hw..].
  - cbn [walk] in Hw. rewrite tarName_ordinary in Hw by done. cbn [mbind result_mbind] in Hw.
    apply addFile_wrote in Hw as (b & -> & Hw); done.
  - rewrite walk_Dir, tarName_ordinary in Hw by done. cbn [mbind result_mbind] in Hw.
    apply bind_ok in Hw as (tw1 & Hd & Hw). apply addDir_wrote in Hd; [|done..].
    destruct failed as [e|]; [done|]. apply named_Dir in Hn as (_ & Hk & Hn).
    destruct (walk_entries_wrote entries p IH Hk Hn Hp Hne tw1 tw' Hw) as [Hall Hwr].
    rewrite packable_Dir, files_Dir, Hall. split; [done|]. exact (wrote_trans _ _ _ _ [] _ Hd Hwr).
Qed.

(** Headers that can always be written: no NUL in the name, and a mode of at most seven octal
    digits. *)
Definition nul_free (s : string) : Prop := GoStrings.has_char "000" s = false.

Definition header_ok (hdr : TarHeader) : Prop := nul_free (th_Name hdr) ∧ 0 <= th_Mode hdr < 2097152.

(** A tree as an operating system has it: its names have no NUL, its modes are permission bits. *)
Fixpoint writable (n : node) : Prop :=
  match n with
  | Dir perm _ entries =>
      0 <= perm < 2097152 ∧ Forall nul_free entries.*1 ∧
      (fix all (l : list (string * node)) : Prop :=
         match l with [] => True | (_, child) :: rest => writable child ∧ all rest end) entries
  | _ => True
  end.

Lemma writable_Dir perm failed entries :
  writable (Dir perm failed entries) ↔
  0 <= perm < 2097152 ∧ Forall nul_free entries.*1 ∧ Forall (λ e, writable e.2) entries.
Proof.
  cbn. do 2 f_equiv. induction entries as [|[k c] rest IH]; [by split; [constructor|]|].
  rewrite Forall_cons. by rewrite IH.
Qed.

Lemma nul_free_join p : Forall nul_free p → nul_free (join_slash p).
Proof.
  induction 1 as [|x p Hx Hp IH]; [done|]. destruct p as [|y p]; [done|].
  change (join_slash (x :: y :: p)) with (x +:+ "/" +:+ join_slash (y :: p)). unfold nul_free in *.
  by rewrite !GoStrings.has_char_app, Hx, IH.
Qed.

Definition path_ok (p : list string) : Prop := Forall ordinary p ∧ Forall nul_free p ∧ p ≠ [].

Lemma path_ok_snoc p k : path_ok p → ordinary k → nul_free k → path_ok (p ++ [k]).
Proof.
  intros (Hp & Hf & _) Hk Hkf. split_and!; [by apply ordinary_snoc| |by destruct p].
  apply Forall_app; split; [done|by constructor].
Qed.

Section Total.
Hypothesis headers : ∀ hdr, header_ok hdr → WriteHeader_error hdr = None.

Lemma write_header_total tw hdr body : header_ok hdr → write_header tw hdr body = Ok (tw ++ [(hdr, body)]).
Proof. intros H. unfold write_header. by rewrite headers. Qed.

Lemma addFile_total tw b p : path_ok p → is_ok (addFile tw (Ok b) (join_slash p)) = true.
Proof.
  intros (Hp & Hf & Hne). unfold addFile, writeBytes. rewrite tarName_ordinary by done. cbn [mbind result_mbind].
  rewrite write_header_total; [done|]. split; [by apply nul_free_join|cbn; unfold file_mode; lia].
Qed.

Definition walkable (n : node) : Prop := ∀ tw p,
  named n → writable n → packable n = true → path_ok p → is_ok (walk tw (join_slash p) n) = true.

Lemma walk_entries_total entries p :
  Forall (λ e, walkable e.2) entries → Forall ordinary entries.*1 → Forall (λ e, named e.2) entries →
  Forall nul_free entries.*1 → Forall (λ e, writable e.2) entries →
  forallb (λ e, packable e.2) entries = true → path_ok p →
  ∀ tw, is_ok (walk_entries tw (join_slash p) entries) = true.
Proof.
  intros Hall Hk Hn Hf Hwr Hpk Hp. induction entries as [|[k c] rest IH]; intros tw; [done|].
  apply Forall_cons in Hall as [Hc1 Hall], Hk as [Hk1 Hk], Hn as [Hn1 Hn], Hf as [Hf1 Hf], Hwr as [Hw1 Hwr].
  cbn [snd fst forallb] in *. apply andb_true_iff in Hpk as [Hpk1 Hpk]. cbn [walk_entries].
  pose proof Hp as (Hp1 & _ & Hne). rewrite join_below by done.
  pose proof (Hc1 tw (p ++ [k]) Hn1 Hw1 Hpk1 (path_ok_snoc _ _ Hp Hk1 Hf1)) as Hw.
  destruct (walk tw _ c) as [tw'|]; [|done]. by apply IH.
Qed.

Lemma walk_total n : walkable n.
Proof.
  induction n as [perm data|perm failed entries IH|target|data] using tree_ind; intros tw p Hn Hwr Hpk Hp;
    [| |done..]; pose proof Hp as (Hp1 & Hp2 & Hne).
  - cbn [walk]. rewrite tarName_ordinary by done. destruct data; [|done]. by apply addFile_total.
  - rewrite walk_Dir, tarName_ordinary by done. cbn [mbind result_mbind]. unfold addDir.
    apply writable_Dir in Hwr as (Hperm & Hf & Hwr). rewrite write_header_total.
    2:{ split; [|done]. cbn. unfold nul_free. rewrite GoStrings.has_char_app.
        apply nul_free_join in Hp2. unfold nul_free in Hp2. by rewrite Hp2. }
    cbn [mbind result_mbind]. rewrite packable_Dir in Hpk.
    apply andb_true_iff in Hpk as [Hfl Hpk]. apply bool_decide_eq_true in Hfl as ->.
    apply named_Dir in Hn as (_ & Hk & Hn). by apply walk_entries_total.
Qed.

End Total.
End Walk.

(** ** The code archive *)

Lemma insert_all_lookup fs : ∀ m name d,
  NoDup (map (λ f : list string * bytes, join_slash f.1) fs) →
  insert_all [] fs m !! name = Some d ↔
  (∃ q, (q, d) ∈ fs ∧ name = join_slash q) ∨
  (m !! name = Some d ∧ name ∉ map (λ f : list string * bytes, join_slash f.1) fs).
Proof.
  induction fs as [|[q0 d0] fs IH]; intros m name d Hd.
  - cbn. split; [intros H; right; split; [done|apply not_elem_of_nil]|].
    intros [(q & ?%not_elem_of_nil & _)|[H _]]; done.
  - apply NoDup_cons in Hd as [Hnin Hd]. change (insert_all [] ((q0, d0) :: fs) m)
      with (insert_all [] fs (<[join_slash q0 := d0]> m)). rewrite IH by done. cbn [map fst].
    rewrite not_elem_of_cons. setoid_rewrite elem_of_cons. destruct (decide (name = join_slash q0)) as [->|Hne].
    + rewrite lookup_insert_eq. split.
      * intros [(q & Hq & E)|[[= ->] _]]; [left; exists q; auto|left; exists q0; auto].
      * intros [(q & [[= -> ->]|Hq] & E)|[_ [? _]]]; [by right|left; by exists q|done].
    + rewrite lookup_insert_ne by done. naive_solver.
Qed.

Lemma files_NoDup n : named n → NoDup (files n).*1.
Proof.
  induction n as [perm data|perm failed entries IH|target|data] using tree_ind; intros Hn;
    [destruct data; repeat constructor; apply not_elem_of_nil| |constructor..].
  rewrite files_Dir. apply named_Dir in Hn as (Hd & _ & Hn).
  induction entries as [|[k c] rest IHr]; [constructor|].
  apply Forall_cons in IH as [IHc IH], Hn as [Hc Hn]. apply NoDup_cons in Hd as [Hnin Hd]. cbn [snd fst] in *.
  cbn [files_in]. rewrite fmap_app. apply NoDup_app. split_and!.
  - replace (map (λ f : list string * bytes, (k :: f.1, f.2)) (files c)).*1 with (cons k <$> (files c).*1)
      by (clear; induction (files c) as [|f l IH]; [done|]; cbn; by rewrite <- IH).
    apply NoDup_fmap_2; [by intros ?? [= ->]|auto].
  - intros q ([q1 d1] & -> & ([q2 d2] & [= -> ->] & _)%list_elem_of_fmap_1)%list_elem_of_fmap_1 Hin.
    apply list_elem_of_fmap_1 in Hin as ([q3 d3] & E & Hin). cbn in E. subst q3.
    apply files_in_elem in Hin as (k' & c' & g & Hin & _ & [= <- _ _]).
    apply Hnin. apply list_elem_of_fmap. by exists (k, c').
  - by apply IHr.
Qed.

(** The entries of the META-INF directory, which is not followed when it is a link. *)
Definition meta (dir : node) : list (string * node) :=
  match entry (entries_of dir) "META-INF" with Some (Dir _ _ entries) => entries | _ => [] end.

Definition meta_packable (dir : node) : bool :=
  match entry (entries_of dir) "META-INF" with
  | Some (Dir perm failed entries) => packable (Dir perm failed entries)
  | _ => true
  end.

Definition code_files (dir : node) (conn : bytes) : list (list string * bytes) :=
  [(["connection.json"], conn)] ++ map (λ f, ("META-INF" :: f.1, f.2)) (files_in (meta dir)).

Definition name_ok (k : string) : bool :=
  negb (bool_decide (k = "")) && negb (bool_decide (k = ".")) && negb (bool_decide (k = "..")) &&
  negb (GoStrings.has_char "/" k).

Lemma name_ordinary k : name_ok k = true → ordinary k.
Proof. unfold name_ok, ordinary. intros H. bool_props. done. Qed.

Lemma meta_named dir : named dir →
  NoDup (meta dir).*1 ∧ Forall ordinary (meta dir).*1 ∧ Forall (λ e, named e.2) (meta dir).
Proof.
  intros Hn. unfold meta. destruct (entry _ _) as [[| perm failed entries| |]|] eqn:E;
    try (split_and!; constructor).
  destruct dir as [|perm' failed' entries'| |]; try done. apply named_Dir in Hn as (Hd & _ & Hn).
  apply entry_elem in E; [|done]. rewrite Forall_forall in Hn. apply (named_Dir perm failed). exact (Hn _ E).
Qed.

Lemma meta_writable dir :
  named dir → writable dir → Forall nul_free (meta dir).*1 ∧ Forall (λ e, writable e.2) (meta dir).
Proof.
  intros Hn Hw. unfold meta. destruct (entry _ _) as [[| perm failed entries| |]|] eqn:E;
    try (split; constructor).
  destruct dir as [|perm' failed' entries'| |]; try done. apply named_Dir in Hn as (Hd & _ & _).
  apply writable_Dir in Hw as (_ & _ & Hw). apply entry_elem in E; [|done]. rewrite Forall_forall in Hw.
  apply Hw, writable_Dir in E. tauto.
Qed.

Lemma path_one k : name_ok k = true → nul_free k → path_ok [k].
Proof. intros Hk Hf. split_and!; [|by repeat constructor|done]. by repeat constructor; apply name_ordinary. Qed.

(** What [buildCodePackage] adds after the connection. *)
Definition add_meta {W : PackageWriter} (tw : writer) (dir : node) : result writer :=
  match entry (entries_of dir) "META-INF" with
  | Some (Dir _ (Some e) _) => Err e
  | Some (Dir _ None entries) => walk_entries tw "META-INF" entries
  | _ => Ok tw
  end.

Lemma buildCode_steps {W : PackageWriter} dir :
  buildCodePackage dir =
    (tw ← addFile [] (ReadFile dir "connection.json") "connection.json";
     tw ← add_meta tw dir; Ok (gzip_write (tar_write tw))).
Proof.
  unfold buildCodePackage. destruct (addFile _ _ _) as [tw|]; [|done]. cbn [mbind result_mbind].
  unfold add_meta, Stat, addTree. destruct (entry _ _) as [n|]; [|done]. cbn [mbind option_bind].
  destruct n as [|perm failed entries|target|]; [done|by destruct failed| |done].
  destruct (follow (Link target)) as [info|]; [by destruct (IsDir info)|done].
Qed.

Section Archive.
Context {PL : PackageLib} {W : PackageWriter} {WL : WriterLaws}.

Lemma archive_read tw fs :
  wrote [] tw [] fs → readTarGz (gzip_write (tar_write tw)) = Ok (insert_all [] fs ∅).
Proof.
  intros (ws & -> & Hok & R). unfold readTarGz. rewrite gzip_read_write, app_nil_l, tar_entries_write by done.
  cbn [fst snd]. by rewrite R.
Qed.

Lemma add_meta_wrote tw dir tw' :
  named dir → add_meta tw dir = Ok tw' →
  meta_packable dir = true ∧ wrote tw tw' [] (map (λ f, ("META-INF" :: f.1, f.2)) (files_in (meta dir))).
Proof.
  intros Hn. pose proof (meta_named dir Hn) as (_ & Hk & Hm). unfold add_meta, meta_packable, meta in *.
  destruct (entry _ _) as [[| perm [e|] entries| |]|]; try done;
    try (intros [= <-]; split; [done|apply wrote_none]).
  intros Hw. rewrite packable_Dir. apply (walk_entries_wrote entries ["META-INF"]) in Hw as [-> Hw];
    [|apply Forall_true; intros; apply walk_wrote|done|done|by repeat constructor; apply name_ordinary|done].
  split; [done|]. by apply wrote_below.
Qed.

Lemma buildCode_ok dir code :
  named dir → buildCodePackage dir = Ok code →
  ∃ conn, ReadFile dir "connection.json" = Ok conn ∧ meta_packable dir = true ∧
    readTarGz code = Ok (insert_all [] (code_files dir conn) ∅).
Proof.
  intros Hn. rewrite buildCode_steps. intros H. apply bind_ok in H as (tw & Hc & H).
  apply bind_ok in H as (tw' & Hm & [= <-]).
  apply (addFile_wrote _ _ ["connection.json"]) in Hc as (conn & Hr & Hc);
    [|by repeat constructor; apply name_ordinary|done].
  apply add_meta_wrote in Hm as [Hpk Hm]; [|done]. exists conn. split_and!; [done..|].
  apply archive_read.
  exact (wrote_trans _ tw _ [] [(["connection.json"], conn)] _ (wrote_below [] tw [] _ [([], conn)] Hc) Hm).
Qed.

Lemma buildCode_total dir conn :
  (∀ hdr, header_ok hdr → WriteHeader_error hdr = None) → named dir → writable dir →
  ReadFile dir "connection.json" = Ok conn → meta_packable dir = true → is_ok (buildCodePackage dir) = true.
Proof.
  intros Hh Hn Hwr Hr Hpk. rewrite buildCode_steps, Hr.
  pose proof (addFile_total Hh [] conn ["connection.json"] (path_one "connection.json" eq_refl eq_refl)) as Hc.
  change (join_slash ["connection.json"]) with "connection.json" in Hc.
  destruct (addFile [] (Ok conn) "connection.json") as [tw|e]; [|done].
  clear Hc. cbn [mbind result_mbind]. pose proof (meta_named dir Hn) as (_ & Hk & Hm).
  pose proof (meta_writable dir Hn Hwr) as (Hf & Hw).
  unfold add_meta, meta_packable, meta in *.
  destruct (entry _ _) as [[| perm failed entries| |]|]; try done.
  rewrite packable_Dir in Hpk. apply andb_true_iff in Hpk as [Hfl Hpk].
  apply bool_decide_eq_true in Hfl as ->.
  pose proof (walk_entries_total entries ["META-INF"]
    (proj2 (Forall_forall _ _) (λ e _, walk_total Hh e.2)) Hk Hm Hf Hw Hpk (path_one "META-INF" eq_refl eq_refl) tw) as Hgo.
  change (join_slash ["META-INF"]) with "META-INF" in Hgo. by destruct (walk_entries _ _ _).
Qed.

Lemma buildOuter_ok mb code package :
  buildOuterPackage mb code = Ok package →
  readTarGz package = Ok (insert_all [] [(["metadata.json"], mb); (["code.tar.gz"], code)] ∅) ∧ package ≠ "".
Proof.
  unfold buildOuterPackage. intros H. apply bind_ok in H as (tw & H1 & H). apply bind_ok in H as (tw' & H2 & [= <-]).
  apply (addFile_wrote [] (Ok mb) ["metadata.json"]) in H1 as (? & [= <-] & H1);
    [|by repeat constructor; apply name_ordinary|done].
  apply (addFile_wrote tw (Ok code) ["code.tar.gz"]) in H2 as (? & [= <-] & H2);
    [|by repeat constructor; apply name_ordinary|done].
  split.
  - apply archive_read.
    exact (wrote_trans _ tw _ [] [(["metadata.json"], mb)] [(["code.tar.gz"], code)]
      (wrote_below _ _ [] _ [([], mb)] H1) (wrote_below _ _ [] _ [([], code)] H2)).
  - intros He. pose proof gzip_read_empty as Hg. rewrite <- He, gzip_read_write in Hg. done.
Qed.

Lemma buildOuter_total mb code :
  (∀ hdr, header_ok hdr → WriteHeader_error hdr = None) → is_ok (buildOuterPackage mb code) = true.
Proof.
  intros Hh. unfold buildOuterPackage, writeBytes.
  change (tarName "metadata.json") with (Ok "metadata.json"). change (tarName "code.tar.gz") with (Ok "code.tar.gz").
  cbn [mbind result_mbind]. rewrite write_header_total; [|done|by split]. cbn [mbind result_mbind].
  rewrite write_header_total; [done|done|by split].
Qed.

End Archive.

(** ** The metadata *)

Section Properties.
Context {J : JSONText} {JL : JSONLaws} {M : MetadataLib} {ML : MetadataLaws}.

Definition strings_valid (m : gmap string any) : Prop :=
  ∀ k s, m !! k ≫= any_as_string = Some s → valid_utf8 s = true.

Lemma readMetadata_valid dir m : readMetadata dir = Ok m → strings_valid m.
Proof.
  unfold readMetadata. intros H k s.
  destruct (ReadFile dir _) as [data|e]; [|destruct (errors_Is e _); [injection H as <-|done]; by rewrite lookup_empty].
  case_bool_decide; [injection H as <-; by rewrite lookup_empty|].
  destruct (decode_any data) as [[m'|]|] eqn:Ed; [|done..]. injection H as <-. by eapply decoded_valid.
Qed.

Lemma set_default_valid m k v b : strings_valid m → valid_utf8 v = true → strings_valid (set_default m k v b).
Proof.
  intros Hm Hv k' s. unfold set_default. destruct b; [|apply Hm].
  destruct (decide (k = k')) as [<-|]; [|rewrite lookup_insert_ne by done; apply Hm].
  rewrite lookup_insert_eq. cbn. rewrite string_any_as. by intros [= <-].
Qed.

Lemma field_set_default m k v b k' :
  field (set_default m k v b) k' = if b && bool_decide (k = k') then v else field m k'.
Proof.
  unfold field, set_default. destruct b; [|done]. case_bool_decide as Hk; cbn [andb].
  - subst. rewrite lookup_insert_eq. cbn. by rewrite string_any_as.
  - by rewrite lookup_insert_ne.
Qed.

(** The label of a package: the caller's, or the one of the metadata. *)
Definition label_of (metadata : gmap string any) (label : string) : string :=
  if bool_decide (label = "") then field metadata "label" else label.

Definition type_allowed (metadata : gmap string any) : Prop :=
  field metadata "type" = "" ∨ field metadata "type" = externalChaincodeType.

Lemma normalize_spec dir label m :
  valid_utf8 label = true → readAndNormalizeMetadata dir label = Ok m →
  strings_valid m ∧ field m "type" = externalChaincodeType ∧
  ∃ m0, readMetadata dir = Ok m0 ∧ field m "label" = label_of m0 label ∧ label_of m0 label ≠ "" ∧ type_allowed m0.
Proof.
  intros Hl H. unfold readAndNormalizeMetadata in H. apply bind_ok in H as (m0 & Hr & H). cbv zeta in H.
  apply bind_ok in H as ([] & Ht & H). apply bind_ok in H as ([] & Hlab & [= <-]).
  apply guard_err_ok in Ht, Hlab. bool_props. split.
  { repeat apply set_default_valid; [by eapply readMetadata_valid|done|..]; by apply valid_utf8_ascii. }
  split; [done|]. exists m0. split; [done|]. rewrite !field_set_default in *. cbn in Ht, Hlab |- *.
  rewrite !andb_false_r, ?andb_true_r in *. cbn in *.
  unfold label_of, type_allowed.
  case_bool_decide as He; cbn in *; case_bool_decide; naive_solver.
Qed.

Lemma normalize_total dir label m0 :
  readMetadata dir = Ok m0 → label_of m0 label ≠ "" → type_allowed m0 →
  is_ok (readAndNormalizeMetadata dir label) = true.
Proof.
  intros Hr Hl Ht. unfold readAndNormalizeMetadata. rewrite Hr. cbn [mbind result_mbind]. cbv zeta.
  rewrite !(field_set_default _ "type"), !(field_set_default _ "path"), !(field_set_default _ "label").
  rewrite (bool_decide_eq_false_2 ("path" = "type")), (bool_decide_eq_false_2 ("label" = "type")),
    (bool_decide_eq_false_2 ("type" = "label")), (bool_decide_eq_false_2 ("path" = "label")),
    !(bool_decide_eq_true_2 ("type" = "type")), (bool_decide_eq_true_2 ("label" = "label")) by done.
  rewrite !andb_false_r, !andb_true_r. unfold label_of, type_allowed in *.
  rewrite (bool_decide_eq_true_2 (_ = externalChaincodeType)).
  - cbn [negb guard_err mbind result_mbind]. destruct (bool_decide (label = "")); cbn [negb] in *;
      by rewrite (bool_decide_eq_false_2 _ Hl).
  - clear Hl. case_bool_decide; [done|]. by destruct Ht.
Qed.

(** ** Building *)

Context {PL : PackageLib} {W : PackageWriter} {WL : WriterLaws}.

(** What can be packaged: a directory with a readable regular [connection.json] that names an
    address, metadata of an external chaincode with a label, and nothing under META-INF but
    directories that can be listed and regular files that can be read. *)
Record buildable (stat : string → result node) (opts : PackageOptions) (dir : node) (conn : bytes)
    (address : string) (metadata : gmap string any) : Prop := {
  bd_path : SourceDir opts ≠ "";
  bd_stat : stat (Clean (SourceDir opts)) = Ok dir;
  bd_dir : IsDir dir = true;
  bd_regular : ∃ info, Stat dir "connection.json" = Ok info ∧ IsRegular info = true;
  bd_conn : ReadFile dir "connection.json" = Ok conn;
  bd_address : connectionAddress conn = Ok address;
  bd_metadata : readMetadata dir = Ok metadata;
  bd_type : type_allowed metadata;
  bd_label : label_of metadata (opt_Label opts) ≠ "";
  bd_meta : meta_packable dir = true }.

(** What the package holds. *)
Record packaged (opts : PackageOptions) (dir : node) (conn : bytes) (address : string)
    (metadata : gmap string any) (d : PackageDescriptor) : Prop := {
  pk_label : Label d = label_of metadata (opt_Label opts);
  pk_type : Type_ d = externalChaincodeType;
  pk_address : Address d = address;
  pk_conn : ConnectionJSON d = conn;
  pk_archive : ∃ outer code, readTarGz (PackageTGZ d) = Ok outer ∧ outer !! "code.tar.gz" = Some code ∧
    outer !! "metadata.json" = Some (MetadataJSON d) ∧
    readTarGz code = Ok (insert_all [] (code_files dir conn) ∅) }.

Lemma code_names_NoDup dir conn :
  named dir → NoDup (map (λ f : list string * bytes, join_slash f.1) (code_files dir conn)).
Proof.
  intros Hn. pose proof (meta_named dir Hn) as (Hd & Hk & Hm). unfold code_files. cbn [app map fst].
  assert (Hnd : named (Dir 0 None (meta dir))) by by apply named_Dir.
  apply NoDup_cons. split.
  - intros Hin. apply list_elem_of_fmap_1 in Hin as (f & He & Hin).
    apply list_elem_of_fmap_1 in Hin as ([q b] & -> & Hin). cbn [fst] in He. destruct q; done.
  - pose proof (files_NoDup _ Hnd) as Hf. rewrite files_Dir in Hf.
    assert (Ho : Forall (λ f, Forall ordinary f.1) (files_in (meta dir))).
    { apply Forall_forall. intros [q b] Hin. rewrite <- (files_Dir 0 None) in Hin.
      apply (files_at _ Hnd) in Hin as [perm Hin]. exact (at_path_ordinary _ _ _ Hnd Hin). }
    revert Hf Ho. generalize (files_in (meta dir)). intros l. induction l as [|[q b] l IH]; intros Hf Ho; [constructor|].
    cbn [map fst snd fmap list_fmap] in *. apply NoDup_cons in Hf as [Hnin Hf]. apply Forall_cons in Ho as [Hq Ho].
    apply NoDup_cons. split; [|by apply IH].
    intros Hin. apply list_elem_of_fmap_1 in Hin as (f & He & Hin).
    apply list_elem_of_fmap_1 in Hin as ([q' b'] & -> & Hin). cbn [fst] in He.
    rewrite Forall_forall in Ho. specialize (Ho _ Hin). cbn [fst] in Ho.
    apply join_slash_inj in He; [|by constructor; [apply name_ordinary|]..|done|done].
    injection He as ->. apply Hnin. apply list_elem_of_fmap. by exists (q', b').
Qed.

(** The files of the code archive are the source's. *)
Lemma code_files_lookup dir conn name data :
  named dir →
  (insert_all [] (code_files dir conn) ∅ : gmap string bytes) !! name = Some data ↔
  (name = "connection.json" ∧ data = conn) ∨
  ∃ k q perm, name = join_slash ("META-INF" :: k :: q) ∧
    at_path dir ("META-INF" :: k :: q) = Some (File perm (Ok data)).
Proof.
  intros Hn. rewrite insert_all_lookup by by apply code_names_NoDup.
  pose proof (meta_named dir Hn) as Hm.
  assert (Hnd : named (Dir 0 None (meta dir))) by by apply named_Dir.
  assert (Hat : ∀ q, (q, data) ∈ files_in (meta dir) ↔
    ∃ k r perm, q = k :: r ∧ at_path dir ("META-INF" :: k :: r) = Some (File perm (Ok data))).
  { intros q. rewrite <- (files_Dir 0 None), (files_at _ Hnd). unfold meta. cbn [at_path].
    destruct (entry (entries_of dir) "META-INF") as [[]|]; destruct q; cbn; naive_solver. }
  rewrite lookup_empty. unfold code_files. cbn [app]. setoid_rewrite elem_of_cons. split.
  - intros [(q & [[= -> ->]|Hin] & ->)|[? _]]; [by left| |done].
    apply list_elem_of_fmap_1 in Hin as ([r b] & [= -> ->] & Hin). right.
    apply Hat in Hin as (k & r' & perm & -> & Hin). by exists k, r', perm.
  - intros [[-> ->]|(k & q & perm & -> & Hin)]; left; [by eexists; split; [left|]|].
    exists ("META-INF" :: k :: q). split; [right|done]. apply list_elem_of_fmap. exists (k :: q, data).
    split; [done|]. apply Hat. by exists k, q, perm.
Qed.

Lemma outer_metadata mb code :
  (insert_all [] [(["metadata.json"], mb); (["code.tar.gz"], code)] ∅ : gmap string bytes) !! "metadata.json" = Some mb.
Proof. unfold insert_all. cbn. by rewrite lookup_insert_ne, lookup_insert_eq. Qed.

Lemma outer_code mb code :
  (insert_all [] [(["metadata.json"], mb); (["code.tar.gz"], code)] ∅ : gmap string bytes) !! "code.tar.gz" = Some code.
Proof. unfold insert_all. cbn. by rewrite lookup_insert_eq. Qed.

Lemma inspect_built m b code package inner conn label :
  MarshalIndent m = Ok b → strings_valid m → field m "type" = externalChaincodeType →
  field m "label" = label → label ≠ "" →
  buildOuterPackage (b +:+ String (byte_at 10) "") code = Ok package →
  readTarGz code = Ok inner → inner !! "connection.json" = Some conn →
  InspectPackageBytes package =
    (address ← connectionAddress conn;
     Ok (mkDescriptor label externalChaincodeType (label +:+ ":" +:+ hex_encode (sha256 package))
           address (b +:+ String (byte_at 10) "") conn package)).
Proof.
  intros Hb Hv Ht Hl Hne Hp Hc Hconn. destruct (MarshalIndent_decodes m b Hb Hv) as (o & Ho & Hf).
  apply buildOuter_ok in Hp as [Hread Hnil]. unfold InspectPackageBytes, read_archive, require_entry.
  rewrite (bool_decide_eq_false_2 _ Hnil). cbn [guard_err mbind result_mbind]. rewrite Hread. clear Hread.
  cbn [mbind result_mbind]. rewrite outer_metadata, outer_code. cbn [mbind result_mbind]. unfold decode_object at 1.
  rewrite Ho. cbn [mbind result_mbind]. rewrite !Hf, Ht, Hl.
  rewrite (bool_decide_eq_false_2 _ Hne). cbn [guard_err mbind result_mbind].
  rewrite (bool_decide_eq_false_2 (externalChaincodeType = "")) by done. cbn [guard_err mbind result_mbind].
  rewrite (bool_decide_eq_true_2 (externalChaincodeType = _)) by done. cbn [negb guard_err mbind result_mbind].
  rewrite Hc. cbn [mbind result_mbind]. by rewrite Hconn.
Qed.

Lemma cleanDir_ok stat path dir :
  cleanDir stat path = Ok dir ↔ path ≠ "" ∧ stat (Clean path) = Ok dir ∧ IsDir dir = true.
Proof.
  unfold cleanDir. destruct (decide (path = "")) as [->|Hp].
  { split; [done|]. by intros (? & _). }
  rewrite bool_decide_eq_false_2 by done. cbn [guard_err mbind result_mbind].
  destruct (stat _) as [info|]; [|split; [done|by intros (_ & ? & _)]].
  destruct (IsDir info) eqn:E; (split; [by intros [= <-]|]); intros (_ & [= ->] & Hd); congruence.
Qed.

Lemma requireRegularFile_ok dir name u :
  requireRegularFile dir name = Ok u ↔ ∃ info, Stat dir name = Ok info ∧ IsRegular info = true.
Proof.
  unfold requireRegularFile. destruct u. destruct (Stat dir name) as [info|]; [|split; [done|by intros (? & ? & _)]].
  rewrite guard_err_ok, negb_false_iff. split; [by exists info|]. by intros (? & [= ->] & ?).
Qed.

Lemma connection_name dir conn :
  named dir → (insert_all [] (code_files dir conn) ∅ : gmap string bytes) !! "connection.json" = Some conn.
Proof. intros Hn. apply code_files_lookup; [done|]. by left. Qed.

Lemma Build_sound stat opts d :
  (∀ dir, stat (Clean (SourceDir opts)) = Ok dir → named dir) → valid_utf8 (opt_Label opts) = true →
  BuildExternalChaincodePackage stat opts = Ok d →
  ∃ dir conn address metadata,
    buildable stat opts dir conn address metadata ∧ packaged opts dir conn address metadata d.
Proof.
  intros Hnm Hv H. unfold BuildExternalChaincodePackage in H.
  apply bind_ok in H as (dir & Hdir & H). apply cleanDir_ok in Hdir as (Hpath & Hstat & Hdir).
  pose proof (Hnm dir Hstat) as Hn. apply bind_ok in H as (u & Hreg & H). apply requireRegularFile_ok in Hreg.
  apply bind_ok in H as (m & Hm & H). apply normalize_spec in Hm as (Hs & Ht & m0 & Hm0 & Hl & Hne & Hta); [|done].
  apply bind_ok in H as (b & Hb & H). destruct (MarshalIndent m) as [b'|] eqn:Emar; [|done]. injection Hb as ->.
  apply bind_ok in H as (code & Hcode & H). apply buildCode_ok in Hcode as (conn & Hconn & Hpk & Hread); [|done].
  apply bind_ok in H as (package & Hpack & H). pose proof (buildOuter_ok _ _ _ Hpack) as [Houter _].
  rewrite (inspect_built m b code package _ conn _ Emar Hs Ht Hl Hne Hpack Hread (connection_name dir conn Hn)) in H.
  destruct (connectionAddress conn) as [address|] eqn:Ha; [|done]. injection H as <-.
  exists dir, conn, address, m0. split; [by constructor|]. constructor; try done.
  eexists _, code. split_and!; [exact Houter|apply outer_code|apply outer_metadata|exact Hread].
Qed.

Lemma Build_total stat opts dir conn address metadata :
  (∀ hdr, header_ok hdr → WriteHeader_error hdr = None) → named dir → writable dir →
  valid_utf8 (opt_Label opts) = true → buildable stat opts dir conn address metadata → is_ok (BuildExternalChaincodePackage stat opts) = true.
Proof.
  intros Hh Hn Hwr Hv [Hpath Hstat Hdir Hreg Hconn Ha Hm Hta Hne Hpk]. unfold BuildExternalChaincodePackage.
  rewrite (proj2 (cleanDir_ok _ _ dir) (conj Hpath (conj Hstat Hdir))). cbn [mbind result_mbind].
  rewrite (proj2 (requireRegularFile_ok _ _ ()) Hreg). cbn [mbind result_mbind].
  pose proof (normalize_total dir (opt_Label opts) metadata Hm Hne Hta) as Hok.
  destruct (readAndNormalizeMetadata _ _) as [m|] eqn:Em; [|done]. clear Hok. cbn [mbind result_mbind].
  apply normalize_spec in Em as (Hs & Ht & m0 & Hm0 & Hl & Hne' & _); [|done].
  pose proof (MarshalIndent_ok m) as Hok. destruct (MarshalIndent m) as [b|] eqn:Emar; [|done]. clear Hok.
  cbn [mbind result_mbind]. pose proof (buildCode_total dir conn Hh Hn Hwr Hconn Hpk) as Hok.
  destruct (buildCodePackage dir) as [code|] eqn:Ec; [|done]. clear Hok. cbn [mbind result_mbind].
  apply buildCode_ok in Ec as (conn' & Hconn' & _ & Hread); [|done]. rewrite Hconn in Hconn'. injection Hconn' as <-.
  pose proof (buildOuter_total (b +:+ String (byte_at 10) "") code Hh) as Hok.
  destruct (buildOuterPackage _ _) as [package|] eqn:Ep; [|done]. clear Hok. cbn [mbind result_mbind].
  rewrite (inspect_built m b code package _ conn _ Emar Hs Ht Hl Hne' Ep Hread (connection_name dir conn Hn)).
  by rewrite Ha.
Qed.

(** C28: A package is built exactly from the directories that can be packaged, and it holds its
    source: inspecting it gives the requested label and the address of the source's connection,
    and its code archive holds exactly that connection and, under their own paths, the regular
    files below META-INF. *)
Theorem build_package_exact stat opts :
  (∀ hdr, header_ok hdr → WriteHeader_error hdr = None) →
  (∀ dir, stat (Clean (SourceDir opts)) = Ok dir → named dir ∧ writable dir) →
  valid_utf8 (opt_Label opts) = true →
  (is_ok (BuildExternalChaincodePackage stat opts) = true ↔
   ∃ dir conn address metadata, buildable stat opts dir conn address metadata) ∧
  ∀ d, BuildExternalChaincodePackage stat opts = Ok d →
  ∃ dir conn address metadata code files,
    buildable stat opts dir conn address metadata ∧
    Label d = label_of metadata (opt_Label opts) ∧ Address d = address ∧ ConnectionJSON d = conn ∧
    (entries ← readTarGz (PackageTGZ d);
     require_entry entries "code.tar.gz" "package missing code.tar.gz") = Ok code ∧
    readTarGz code = Ok files ∧
    ∀ name data, files !! name = Some data ↔
      (name = "connection.json" ∧ data = conn) ∨
      ∃ k q perm, name = join_slash ("META-INF" :: k :: q) ∧
        at_path dir ("META-INF" :: k :: q) = Some (File perm (Ok data)).
Proof.
  intros Hh Hn Hv. split.
  - split.
    + destruct (BuildExternalChaincodePackage stat opts) as [d|] eqn:E; [|done]. intros _.
      destruct (Build_sound stat opts d (λ dir H, proj1 (Hn dir H)) Hv E) as (dir & conn & address & m & Hb & _). by exists dir, conn, address, m.
    + intros (dir & conn & address & m & Hb).
      destruct (Hn dir (bd_stat _ _ _ _ _ _ Hb)) as [Hnm Hwr].
      exact (Build_total stat opts dir conn address m Hh Hnm Hwr Hv Hb).
  - intros d E. destruct (Build_sound stat opts d (λ dir H, proj1 (Hn dir H)) Hv E) as (dir & conn & address & m & Hb & [Hl _ Ha Hc Har]).
    destruct Har as (outer & code & Hout & Hcode & _ & Hread).
    exists dir, conn, address, m, code, (insert_all [] (code_files dir conn) ∅). split_and!; try done.
    + rewrite Hout. cbn [mbind result_mbind]. unfold require_entry. by rewrite Hcode.
    + intros name data. apply code_files_lookup. exact (proj1 (Hn dir (bd_stat _ _ _ _ _ _ Hb))).
Qed.

End Properties.

(** ** Example *)

(** Objects as digits, up to a newline. *)
Fixpoint line (s : string) : string :=
  match s with
  | EmptyString => ""
  | String a r => if Ascii.eqb a (byte_at 10) then "" else String a (line r)
  end.

Lemma line_bits p s : line (bits p +:+ String (byte_at 10) s) = bits p ∧ line (bits p) = bits p.
Proof. induction p as [p [IH1 IH2]|p [IH1 IH2]|]; simpl; [by rewrite IH1, IH2..|done]. Qed.

Definition ex_json : JSONText := {|
  json_encode o := bits (encode o);
  json_decode b := decode (unbits (line b));
  valid_utf8 _ := true |}.

Lemma ex_json_laws : @JSONLaws ex_json.
Proof.
  split; [|done]. intros o _. cbn. rewrite (proj2 (line_bits _ "")), unbits_bits. apply decode_encode.
Qed.

Definition ex_metadata : MetadataLib := {|
  any := jscalar;
  string_any := JString;
  any_as_string := as_string;
  decode_any b :=
    match json_decode (JSONText := ex_json) b with
    | Some o => Ok (Some (foldl (λ m kv, <[kv.1 := kv.2]> m) ∅ o))
    | None => Err (ENew "invalid JSON")
    end;
  MarshalIndent m := Ok (json_encode (JSONText := ex_json) (map_to_list m)) |}.

Lemma any_string_absent o k acc : k ∉ o.*1 → any_string o k acc = acc.
Proof.
  revert acc. induction o as [|[k' v] o IH]; intros acc Hk; [done|].
  cbn in Hk. apply not_elem_of_cons in Hk as [Hk Ho]. cbn. rewrite bool_decide_eq_false_2 by done. by apply IH.
Qed.

Lemma any_string_present o k v acc :
  NoDup o.*1 → (k, v) ∈ o → any_string o k acc = default "" (as_string v).
Proof.
  revert acc. induction o as [|[k' v'] o IH]; intros acc Hd Hin; [by apply not_elem_of_nil in Hin|].
  apply NoDup_cons in Hd as [Hnin Hd]. cbn. apply elem_of_cons in Hin as [[= <- <-]|Hin]; [|by apply IH].
  rewrite bool_decide_eq_true_2, any_string_absent by done. by destruct v.
Qed.

Lemma ex_metadata_laws : @MetadataLaws ex_json ex_metadata.
Proof.
  split; [done|done|done|]. intros m b [= <-] _. exists (map_to_list m). split.
  - unfold json_object. cbn. rewrite (proj1 (line_bits _ "")), unbits_bits, decode_encode. done.
  - intros k. unfold metadataString, field. destruct (m !! k) as [v|] eqn:Hk.
    + rewrite (any_string_present _ k v); [done|apply NoDup_fst_map_to_list|by apply elem_of_map_to_list].
    + apply any_string_absent. intros Hin. apply list_elem_of_fmap_1 in Hin as ([k' v] & -> & Hin).
      apply elem_of_map_to_list in Hin. cbn in Hk. congruence.
Qed.

(** Archives as framed fields. *)
Definition encode_entry (e : string * Z * bytes) : bytes :=
  Framing.frame [e.1.1; Framing.pack e.1.2; e.2].

Definition decode_entry (b : bytes) : option (string * Z * bytes) :=
  match Framing.unframe b with
  | Some [name; flag; body] => (λ z, (name, z, body)) <$> Framing.unpack flag
  | _ => None
  end.

Lemma decode_encode_entry e : decode_entry (encode_entry e) = Some e.
Proof.
  destruct e as [[n z] b]. unfold decode_entry, encode_entry. rewrite Framing.unframe_frame.
  cbn [fst snd]. by rewrite Framing.unpack_pack.
Qed.

Definition ex_package : PackageLib := {|
  gzip_NewReader b := match b with String "z" r => Ok r | _ => Err (ENew "gzip: invalid header") end;
  tar_entries b :=
    match Framing.unframe_all decode_entry b with
    | Some l => (map (λ e, mkEntry e.1.1 e.1.2 (Ok e.2)) l, None)
    | None => ([], Some (EExt "archive/tar: invalid tar header"))
    end;
  sha256 b := b |}.

Definition ex_writer : PackageWriter := {|
  WriteHeader_error _ := None;
  tar_write l := Framing.frame_all encode_entry
    (map (λ w, (te_Name (read_back w), te_Typeflag (read_back w), w.2)) l);
  gzip_write b := String "z" b |}.

Lemma ex_writer_laws : @WriterLaws ex_package ex_writer.
Proof.
  split; [|done..]. intros l _. cbn. rewrite Framing.unframe_all_frame by exact decode_encode_entry.
  rewrite map_map. done.
Qed.

(** A directory with a connection, an index below META-INF, and a link that is not followed. *)
Definition ex_conn : bytes := json_encode (JSONText := ex_json) [("address", JString "cc:7052")].

Definition ex_dir : node :=
  Dir 493 None
    [("META-INF", Dir 493 None
        [("statedb", Dir 493 None [("index.json", File 420 (Ok "index"))])]);
     ("connection.json", File 420 (Ok ex_conn));
     ("src", Link None)].

Definition ex_stat (path : string) : result node := if bool_decide (path = "cc") then Ok ex_dir else Err ErrNotExist.

Definition ex_options : PackageOptions := mkOptions "./cc/" "basic_1".

Definition ex_built : result PackageDescriptor :=
  @BuildExternalChaincodePackage ex_json ex_metadata ex_package ex_writer ex_stat ex_options.

Lemma ex_named : named ex_dir.
Proof.
  assert (Hd : ∀ l, bool_decide (NoDup (A := string) l) = true → NoDup l) by (intros l; apply bool_decide_eq_true).
  cbn. split_and!; try (by repeat constructor; apply name_ordinary); try (by apply Hd); constructor.
Qed.

Lemma ex_writable : writable ex_dir.
Proof. cbn. split_and!; try done; repeat constructor. Qed.

Lemma build_package_exact_witness :
  ∃ d, ex_built = Ok d ∧ Label d = "basic_1" ∧ Address d = "cc:7052" ∧
    ∃ code files, readTarGz (PL := ex_package) code = Ok files ∧
      files !! "META-INF/statedb/index.json" = Some "index".
Proof.
  assert (Hv : (λ d, (Label d, Address d)) <$> match ex_built with Ok d => Some d | Err _ => None end =
    Some ("basic_1", "cc:7052")) by (vm_compute; reflexivity).
  destruct ex_built as [d|] eqn:E; [|discriminate Hv]. injection Hv as Hl Ha.
  exists d. split; [reflexivity|]. split; [exact Hl|]. split; [exact Ha|].
  assert (Hn : ∀ dir, ex_stat (Clean (SourceDir ex_options)) = Ok dir → dir = ex_dir)
    by (intros dir; vm_compute; intros [= <-]; reflexivity).
  destruct (proj2 (@build_package_exact ex_json ex_json_laws ex_metadata ex_metadata_laws ex_package ex_writer
    ex_writer_laws ex_stat ex_options (λ _ _, eq_refl)
    (λ dir H, eq_rect_r (λ dir, named dir ∧ writable dir) (conj ex_named ex_writable) (Hn dir H)) eq_refl) d E)
    as (dir & conn & address & metadata & code & files & Hb & _ & _ & _ & _ & Hread & Hfiles).
  exists code, files. split; [exact Hread|]. apply Hfiles. right.
  exists "statedb", ["index.json"], 420. split; [reflexivity|].
  rewrite (Hn dir (bd_stat _ _ _ _ _ _ Hb)). reflexivity.
Defined.

(** A META-INF directory that is reached through a link is left out without an error, although a
    link below META-INF is refused. *)
Lemma linked_metadata_dropped :
  let dir := Dir 493 None
    [("META-INF", Link (Some (Dir 493 None [("index.json", File 420 (Ok "index"))])));
     ("connection.json", File 420 (Ok ex_conn))] in
  match @buildCodePackage ex_writer dir with
  | Ok code => map_to_list <$> @readTarGz ex_package code
  | Err e => Err e
  end = Ok [("connection.json", ex_conn)].
Proof. vm_compute. reflexivity. Qed.

End Build.
