(* ===== verification/LifecycleRPC.v ===== *)
(** The lifecycle service, [pkg/lifecycle/rpc.go]: every handler of [Server], over the store
    of [LifecycleStore.v], the packages of [Package.v] and the authorization of
    [LifecycleAuth.v].  Mirroring the ledger and its propagation to other organizations is
    [ReconcileDefinition].

    The ledger backend, the other organizations and the JSON of the request payloads are
    reached through interfaces.  A request's clock readings and transport metadata are
    in its environment [Env]. *)
From Stdlib Require Import ZArith Lia.
From stdpp Require Import base option list strings gmap sets.
From S2P Require Import Prelude LifecycleStore Json GoStrings LifecycleLedger Msp.
From S2P Require Import OrchestratorTypes EndorsementPolicy Instances LifecycleAuth Package.
Import Json LifecycleAuth.
Local Open Scope Z_scope.

Module RPC.

#[local] Existing Instance Store.ChaincodeDefinition_eq_dec.

(** ** Interfaces *)

Record LedgerCommitResult := mkCommitResult {
  lc_TxID : string; lc_Status : string; lc_BlockNum : Z; lc_TxNum : Z;
  lc_Namespace : string; lc_Key : string }.

(** [LedgerBackend]; a finalizer also owns the local update. *)
Record LedgerBackend := mkBackend {
  CommitLifecycleDefinition : Store.ChaincodeDefinition → result LedgerCommitResult;
  ReadLifecycleDefinition : Store.ChaincodeDefinition → result (option Ledger.LedgerDefinition);
  FinalizeLifecycleDefinition : option (Store.Store → Store.ChaincodeDefinition → bool →
    Store.Store * result Store.CommittedDefinition) }.

Record RemotePeer := mkPeer {
  MSPID : string;
  peer_CheckCommitReadiness : SignedRequest → result (gmap string bool);
  peer_Commit : SignedRequest → result ();
  peer_MarkInitialized : SignedRequest → result () }.

(** [json.Marshal] and [json.Unmarshal] of the request types. *)
Class PayloadJSON := {
  marshal_payload : RequestPayload → bytes;
  unmarshal_Install : bytes → result bytes;
  unmarshal_QueryInstalled : bytes → result ();
  unmarshal_Definition : bytes → result Store.ChaincodeDefinition;
  unmarshal_Approve : bytes → result (Store.ChaincodeDefinition * string);
  unmarshal_Query : bytes → result (string * string) }.

Section Server.
Context {J : JSONText} {L : Msp.MSPLib} {PL : Package.PackageLib} {PJ : PayloadJSON}.

Record Server := mkServer {
  srv_channelID : string;
  srv_auth : option Authorizer;
  srv_signer : option Signer;
  srv_mspID : string;
  srv_ledgerCommitter : option LedgerBackend;
  srv_remotes : option (Store.ChaincodeDefinition → result (list RemotePeer)) }.

Record ServerConfig := mkServerConfig {
  cfg_ChannelID : string;
  cfg_MSPID : string;
  cfg_Auth : option Authorizer;
  cfg_Signer : option Signer }.

(** A provider that knows its peers from the start. *)
Definition staticRemotePeerProvider (remotes : list RemotePeer) : Store.ChaincodeDefinition → result (list RemotePeer) :=
  λ _, Ok remotes.

(** The store is an argument of every handler. *)
Definition NewServerWithRemoteProvider (cfg : ServerConfig) (ledgerCommitter : option LedgerBackend)
    (remotes : option (Store.ChaincodeDefinition → result (list RemotePeer))) : Server :=
  mkServer (cfg_ChannelID cfg) (cfg_Auth cfg) (cfg_Signer cfg) (cfg_MSPID cfg) ledgerCommitter remotes.

Definition NewServer (cfg : ServerConfig) (ledgerCommitter : option LedgerBackend) (remotes : list RemotePeer) : Server :=
  NewServerWithRemoteProvider cfg ledgerCommitter (Some (staticRemotePeerProvider remotes)).

(** What one call reads of its surroundings: two clock readings in nanoseconds, the time
    the store writes, the transport metadata, and the random nonce of a request it signs. *)
Record Env := mkEnv {
  e_now : Z; e_now' : Z; e_time : string; e_md : string → list string; e_random : result bytes }.

Variable srv : Server.
Variable env : Env.

Definition with_status {A} (c : code) (m : result A) : result A :=
  match m with Ok x => Ok x | Err e => Err (EStatus c e) end.

Definition failed {A} (msg : string) : result A :=
  Err (EStatus CodeFailedPrecondition (ENew msg)).

(** [verifyAndUnmarshal] for an operation whose payload is decoded by [unmarshal]; [None]
    is a nil store. *)
Definition verifyAndUnmarshal {A} (operation : string) (unmarshal : bytes → result A)
    (st : option Store.Store) (req : option SignedRequest) : result (string * A) :=
  mspID ← check (srv_auth srv) (e_now env) (e_now' env) (e_md env) req operation;
  guard_err (negb (bool_decide (Store.channelID <$> st = Some (srv_channelID srv))))
    (EStatus CodeInternal (ENew "lifecycle store channel does not match the server"));;
  payload ← with_status CodeInvalidArgument (unmarshal (from_option Payload "" req));
  Ok (mspID, payload).

Definition remotePeers (def : Store.ChaincodeDefinition) : result (list RemotePeer) :=
  match srv_remotes srv with
  | None => Ok []
  | Some provider => provider def
  end.

Definition SignInternalRequest (payload : RequestPayload) : result SignedRequest :=
  signRequest (srv_signer srv) (srv_channelID srv) payload (marshal_payload payload) true
    (e_now env) (e_random env).

(** ** Mirroring the ledger *)

Definition applyLedgerDefinition (s : Store.Store) (def : Store.ChaincodeDefinition)
    (initialized : bool) : Store.Store * result Store.CommittedDefinition :=
  match srv_ledgerCommitter srv with
  | None => (s, failed "lifecycle ledger backend is required")
  | Some backend =>
      match ReadLifecycleDefinition backend def with
      | Err e => (s, Err (EStatus CodeUnavailable (EWrap "read lifecycle ledger: %v" e)))
      | Ok None => (s, failed "lifecycle update does not match committed ledger state")
      | Ok (Some ledger) =>
          if negb (bool_decide (Ledger.ChaincodeDefinitionFromLedger ledger = def)) ||
             negb (bool_decide (Ledger.ld_ChannelID ledger = srv_channelID srv)) ||
             (initialized && negb (Ledger.ld_Initialized ledger))
          then (s, failed "lifecycle update does not match committed ledger state")
          else
            let '(s', r) := Store.UpsertCommittedFromLedger (e_time env) s def
                              (Ledger.ld_Initialized ledger) in
            (s', with_status CodeInternal r)
      end
  end.

Record DefinitionPropagation := mkPropagation { Resolved : bool; Organizations : list string }.

(** Organizations in the order first seen; peers by organization, the last one wins. *)
Fixpoint group_peers (remotes : list RemotePeer) (resolved : bool) (orgs : list string)
    (byMSP : gmap string RemotePeer) : list string * gmap string RemotePeer :=
  match remotes with
  | [] => (orgs, byMSP)
  | r :: rest =>
      let orgs := if bool_decide (byMSP !! MSPID r = None) && negb resolved
                  then orgs ++ [MSPID r] else orgs in
      group_peers rest resolved orgs (<[MSPID r := r]> byMSP)
  end.

(** The organizations not yet updated, and the error that stopped the loop. *)
Fixpoint propagate (byMSP : gmap string RemotePeer) (initialized : bool) (internal : SignedRequest)
    (orgs : list string) : list string * option goerr :=
  match orgs with
  | [] => ([], None)
  | mspID :: rest =>
      match byMSP !! mspID with
      | None => (orgs, Some (EStatus CodeUnavailable
                   (ENew "pending lifecycle organization %s is unavailable")))
      | Some remote =>
          match (if initialized then peer_MarkInitialized remote internal
                 else peer_Commit remote internal) with
          | Err e => (orgs, Some (EStatus CodeUnavailable (EWrap "remote lifecycle update %s: %v" e)))
          | Ok _ => propagate byMSP initialized internal rest
          end
      end
  end.

Definition ReconcileDefinition (s : Store.Store) (def : Store.ChaincodeDefinition)
    (initialized : bool) (progress : DefinitionPropagation)
    : Store.Store * DefinitionPropagation * result Store.CommittedDefinition :=
  match applyLedgerDefinition s def initialized with
  | (s', Err e) => (s', progress, Err e)
  | (s', Ok committed) =>
      if Resolved progress && bool_decide (Organizations progress = [])
      then (s', progress, Ok committed)
      else
        match remotePeers def with
        | Err e => (s', progress,
            Err (EStatus CodeUnavailable (EWrap "resolve remote lifecycle peers: %v" e)))
        | Ok remotes =>
            let '(orgs, byMSP) :=
              group_peers remotes (Resolved progress) (Organizations progress) ∅ in
            let progress := mkPropagation true orgs in
            if bool_decide (orgs = []) then (s', progress, Ok committed)
            else
              match SignInternalRequest (if initialized then MarkInitializedRequest def
                                         else CommitRequest def) with
              | Err e => (s', progress, Err (EStatus CodeInternal e))
              | Ok internal =>
                  let '(left_, err) := propagate byMSP initialized internal orgs in
                  (s', mkPropagation true left_,
                   match err with Some e => Err e | None => Ok committed end)
              end
        end
  end.

(** ** Readiness *)

(** The answers of the remote organizations, each overriding what is known so far. *)
Fixpoint remote_readiness (internal : SignedRequest) (remotes : list RemotePeer)
    (approvals : gmap string bool) : result (gmap string bool) :=
  match remotes with
  | [] => Ok approvals
  | remote :: rest =>
      match peer_CheckCommitReadiness remote internal with
      | Err e => Err (EStatus CodeInternal (EWrap "remote readiness %s: %s" e))
      | Ok res => remote_readiness internal rest (res ∪ approvals)
      end
  end.

Definition checkCommitReadiness (s : Store.Store) (def : Store.ChaincodeDefinition)
    (aggregate : bool) : result (gmap string bool) :=
  approved ← with_status CodeInvalidArgument (Store.HasMatchingApproval s def (srv_mspID srv));
  let approvals := {[srv_mspID srv := approved]} in
  if negb aggregate then Ok approvals
  else
    remotes ← remotePeers def;
    internal ← with_status CodeInternal (SignInternalRequest (CheckCommitReadinessRequest def));
    remote_readiness internal remotes approvals.

(** ** Handlers *)

Definition Install (st : option Store.Store) (req : option SignedRequest)
    : option Store.Store * result Store.InstalledPackage :=
  match (v ← verifyAndUnmarshal OperationInstall unmarshal_Install st req;
         desc ← with_status CodeInvalidArgument (Package.InspectPackageBytes v.2);
         Ok (v.1, desc)), st with
  | Ok (mspID, desc), Some s =>
      let pkg := Store.mkInstalledPackage (Package.PackageID desc) (Package.Label desc)
        (Package.Type_ desc) (Package.Address desc) mspID "" (Package.MetadataJSON desc)
        (Package.ConnectionJSON desc) (Package.PackageTGZ desc) in
      let '(s', r) := Store.Install (e_time env) s pkg in
      (Some s',
       with_status CodeInternal r;;
       match list_find (λ e, Store.pkg_PackageID e = Package.PackageID desc)
               (Store.ListInstalled s') with
       | Some (_, existing) => Ok existing
       | None => Err (EStatus CodeInternal (ENew "installed package not found after write"))
       end)
  | Err e, _ => (st, Err e)
  | _, None => (st, Err (ENew ""))
  end.

Definition QueryInstalled (st : option Store.Store) (req : option SignedRequest)
    : result (list (string * string)) :=
  verifyAndUnmarshal OperationQueryInstalled unmarshal_QueryInstalled st req;;
  Ok ((λ p, (Store.pkg_Label p, Store.pkg_PackageID p)) <$>
      from_option Store.ListInstalled [] st).

Definition ApproveForMyOrg (st : option Store.Store) (req : option SignedRequest)
    : option Store.Store * result Store.ApprovedDefinition :=
  match verifyAndUnmarshal OperationApprove unmarshal_Approve st req, st with
  | Ok (mspID, (def, packageID)), Some s =>
      let '(s', r) := Store.ApproveForMyOrg (e_time env) s def packageID mspID in
      (Some s', with_status CodeInvalidArgument r)
  | Err e, _ => (st, Err e)
  | _, None => (st, Err (ENew ""))
  end.

Definition CheckCommitReadiness (st : option Store.Store) (req : option SignedRequest)
    : result (gmap string bool) :=
  v ← verifyAndUnmarshal OperationReadiness unmarshal_Definition st req;
  match st with
  | Some s => checkCommitReadiness s v.2 (negb (from_option Internal false req))
  | None => Err (ENew "")
  end.

(** [Commit] for a public request, after admission. *)
Definition commit_public (s : Store.Store) (def : Store.ChaincodeDefinition)
    : Store.Store * result (Store.CommittedDefinition * gmap string bool * LedgerCommitResult) :=
  match (approvals ← checkCommitReadiness s def true;
         guard_err (negb (bool_decide (map_Forall (λ _ approved, approved = true) approvals)))
           (EStatus CodeFailedPrecondition (ENew "definition is not ready for %s"));;
         with_status CodeFailedPrecondition
           (Store.ValidateCommitDefinition s def (srv_mspID srv));;
         backend ← match srv_ledgerCommitter srv with
                   | Some b => Ok b
                   | None => failed "lifecycle ledger committer is not configured"
                   end;
         ledger ← match CommitLifecycleDefinition backend def with
                  | Ok l => Ok l
                  | Err e => Err (EStatus CodeInternal
                      (EWrap "commit lifecycle ledger transaction: %s" e))
                  end;
         Ok (approvals, backend, ledger)) with
  | Err e => (s, Err e)
  | Ok (approvals, backend, ledger) =>
      let '(s', r) :=
        match FinalizeLifecycleDefinition backend with
        | Some finalize => finalize s def false
        | None => let '(s', _, r) := ReconcileDefinition s def false (mkPropagation false []) in (s', r)
        end in
      (s', committed ← r; Ok (committed, approvals, ledger))
  end.

(** The approvals and the ledger result are absent from an internal answer. *)
Definition Commit (st : option Store.Store) (req : option SignedRequest)
    : option Store.Store *
      result (Store.CommittedDefinition * option (gmap string bool * LedgerCommitResult)) :=
  match verifyAndUnmarshal OperationCommit unmarshal_Definition st req, st with
  | Ok (_, def), Some s =>
      if from_option Internal false req then
        let '(s', r) := applyLedgerDefinition s def false in
        (Some s', c ← r; Ok (c, None))
      else
        let '(s', r) := commit_public s def in
        (Some s', x ← r; Ok (x.1.1, Some (x.1.2, x.2)))
  | Err e, _ => (st, Err e)
  | _, None => (st, Err (ENew ""))
  end.

Definition MarkInitialized (st : option Store.Store) (req : option SignedRequest)
    : option Store.Store * result Store.CommittedDefinition :=
  match verifyAndUnmarshal OperationMarkInitialized unmarshal_Definition st req, st with
  | Ok (_, def), Some s =>
      let '(s', r) := applyLedgerDefinition s def true in (Some s', r)
  | Err e, _ => (st, Err e)
  | _, None => (st, Err (ENew ""))
  end.

Definition QueryCommitted (st : option Store.Store) (req : option SignedRequest)
    : result (list Store.CommittedDefinition) :=
  v ← verifyAndUnmarshal OperationQueryCommitted unmarshal_Query st req;
  Ok (from_option (λ s, Store.ListCommitted s v.2.1 v.2.2) [] st).

(** ** Lemmas *)

Lemma with_status_ok {A} c (m : result A) x : with_status c m = Ok x ↔ m = Ok x.
Proof. by destruct m. Qed.

(** Admission never passes without a store of the server's channel. *)
Lemma verify_ok {A} op (un : bytes → result A) st req msp x :
  verifyAndUnmarshal op un st req = Ok (msp, x) →
  ∃ s r, st = Some s ∧ req = Some r ∧ Store.channelID s = srv_channelID srv ∧
    check (srv_auth srv) (e_now env) (e_now' env) (e_md env) (Some r) op = Ok msp ∧
    un (Payload r) = Ok x.
Proof.
  unfold verifyAndUnmarshal. intros H.
  apply bind_ok in H as (m & Hc & H). apply bind_ok in H as ([] & Hs & H).
  apply guard_err_ok in Hs. bool_props. apply bind_ok in H as (y & Hu & [= -> ->]).
  apply with_status_ok in Hu. destruct st as [s|]; [|done]. simpl in Hs.
  destruct req as [r|]; [|unfold check in Hc; by destruct (srv_auth srv)].
  exists s, r. split_and!; try done. congruence.
Qed.

(** What the ledger holds for [def] on this channel, by the server's backend. *)
Definition ledger_says (def : Store.ChaincodeDefinition) (initialized : bool) : Prop :=
  ∃ backend ledger, srv_ledgerCommitter srv = Some backend ∧
    ReadLifecycleDefinition backend def = Ok (Some ledger) ∧
    Ledger.ChaincodeDefinitionFromLedger ledger = def ∧
    Ledger.ld_ChannelID ledger = srv_channelID srv ∧
    Ledger.ld_Initialized ledger = initialized.

(** The store took over nothing, or what the ledger holds for [def]. *)
Definition mirrors (s : Store.Store) (def : Store.ChaincodeDefinition) (s' : Store.Store) : Prop :=
  s' = s ∨ ∃ now initialized, ledger_says def initialized ∧
    s' = (Store.UpsertCommittedFromLedger now s def initialized).1.

Lemma applyLedgerDefinition_mirrors s def initialized s' r :
  applyLedgerDefinition s def initialized = (s', r) → mirrors s def s'.
Proof.
  unfold applyLedgerDefinition, mirrors, ledger_says.
  destruct (srv_ledgerCommitter srv) as [b|]; [|intros [= <- <-]; by left].
  destruct (ReadLifecycleDefinition b def) as [[l|]|e] eqn:Hr; [|intros [= <- <-]; by left..].
  destruct (_ || _) eqn:E; [intros [= <- <-]; by left|]. bool_props.
  destruct (Store.UpsertCommittedFromLedger _ _ _ _) as [s1 r1] eqn:Hu.
  intros [= <- <-]. right. exists (e_time env), (Ledger.ld_Initialized l).
  rewrite Hu. split; [|done]. by exists b, l.
Qed.

Lemma ReconcileDefinition_mirrors s def initialized progress s' p' r :
  ReconcileDefinition s def initialized progress = (s', p', r) → mirrors s def s'.
Proof.
  unfold ReconcileDefinition. destruct (applyLedgerDefinition s def initialized) as [s1 r1] eqn:Ha.
  apply applyLedgerDefinition_mirrors in Ha.
  destruct r1 as [c|e]; [|by intros [= <- <- <-]].
  destruct (_ && _); [by intros [= <- <- <-]|].
  destruct (remotePeers def) as [remotes|e]; [|by intros [= <- <- <-]].
  destruct (group_peers _ _ _ _) as [orgs byMSP].
  case_bool_decide; [by intros [= <- <- <-]|].
  destruct (SignInternalRequest _); [|by intros [= <- <- <-]].
  destruct (propagate _ _ _ _). by intros [= <- <- <-].
Qed.

(** An update from the ledger leaves a name's view, or sets it to the ledger's. *)
Lemma Upsert_view now s def init name :
  let s' := (Store.UpsertCommittedFromLedger now s def init).1 in
  Store.committed_view s' name = Store.committed_view s name ∨
  Store.committed_view s' name = Some (def, init).
Proof.
  unfold Store.UpsertCommittedFromLedger.
  destruct (Store.validateDefinition def) as [[]|] eqn:Hv; [|by left].
  cbn [mbind result_mbind]. unfold Store.GetCommitted.
  destruct (bool_decide (Store.Name def = "")); [by left|].
  unfold Store.upsertCommitted.
  cbn [Store.com_Definition Store.com_Initialized Store.com_CommittedAt]. rewrite !Hv.
  set (row := Store.mkCommittedRow _ _ _ _ _).
  assert (Hrow : ∀ r, Store.com_Definition (Store.scanCommitted (Store.Name def) r) = def →
    Store.com_Initialized (Store.scanCommitted (Store.Name def) r) = init →
    Store.committed_view (Store.set_committed <[Store.Name def := r]> s) name =
      Store.committed_view s name ∨
    Store.committed_view (Store.set_committed <[Store.Name def := r]> s) name = Some (def, init)).
  { intros r Hd Hi. rewrite Store.committed_view_insert. case_decide; [right|by left].
    by rewrite Hd, Hi. }
  destruct (Store.committed_definitions s !! Store.Name def) as [old|] eqn:Hold;
    cbn [fmap option_fmap option_map fst].
  2:{ apply Hrow; unfold Store.scanCommitted; simpl; rewrite Store.boolInt_scan; by destruct def. }
  destruct (_ >? _) eqn:Hgt; [by left|].
  assert (Hup : ∀ r, Store.upsert_row (Some old) row = Some r →
    (Store.cmr_sequence old = Store.Sequence def → Store.cmr_initialized old = 0) →
    Store.com_Definition (Store.scanCommitted (Store.Name def) r) = def ∧
    Store.com_Initialized (Store.scanCommitted (Store.Name def) r) = init).
  { intros r Hu Hz. unfold Store.upsert_row in Hu. destruct (_ || _); [|done].
    injection Hu as <-. unfold Store.scanCommitted. simpl. rewrite Store.boolInt_scan.
    split; [by destruct def|]. case_match eqn:Hs; [|by destruct init].
    rewrite (Hz (proj1 (Z.eqb_eq _ _) Hs)). by destruct init. }
  destruct (_ =? _) eqn:Heq.
  - destruct (negb _); [by left|]. destruct (_ || _) eqn:Hinit; [by left|]. bool_props.
    destruct (Store.upsert_row _ _) as [r|] eqn:Hu; [|by left].
    destruct (Hup r eq_refl) as [Hd Hi]; [|by apply Hrow].
    intros _. unfold Store.scanCommitted in *. simpl in *. bool_props. lia.
  - destruct (Store.upsert_row _ _) as [r|] eqn:Hu; [|by left].
    destruct (Hup r eq_refl) as [Hd Hi]; [|by apply Hrow].
    unfold Store.scanCommitted in *. simpl in *. bool_props. lia.
Qed.

(** ** Propagation *)

Lemma group_peers_resolved remotes orgs byMSP :
  (group_peers remotes true orgs byMSP).1 = orgs.
Proof.
  revert byMSP. induction remotes as [|r rest IH]; intros byMSP; [done|].
  cbn [group_peers]. rewrite andb_false_r. apply IH.
Qed.

Lemma group_peers_known remotes resolved orgs byMSP o r :
  (group_peers remotes resolved orgs byMSP).2 !! o = Some r →
  byMSP !! o = Some r ∨ (r ∈ remotes ∧ MSPID r = o).
Proof.
  revert orgs byMSP. induction remotes as [|r' rest IH]; intros orgs byMSP H; [by left|].
  apply IH in H as [H|[H Ho]]; [|right; by split; [right|]].
  destruct (decide (o = MSPID r')) as [->|Hne].
  - rewrite lookup_insert_eq in H. injection H as <-. right. by split; [left|].
  - rewrite lookup_insert_ne in H by done. by left.
Qed.

Lemma group_peers_orgs remotes orgs byMSP :
  (∀ o, o ∈ orgs ↔ is_Some (byMSP !! o)) → NoDup orgs →
  let out := (group_peers remotes false orgs byMSP).1 in
  NoDup out ∧ ∀ o, o ∈ out ↔ o ∈ orgs ∨ ∃ r, r ∈ remotes ∧ MSPID r = o.
Proof.
  revert orgs byMSP. induction remotes as [|r rest IH]; intros orgs byMSP Hk Hnd.
  - split; [done|]. intros o. split; [by left|]. intros [Ho|(? & Hr & _)]; [done|by apply not_elem_of_nil in Hr].
  - cbn [group_peers]. rewrite andb_true_r.
    destruct (IH (if bool_decide (byMSP !! MSPID r = None) then orgs ++ [MSPID r] else orgs)
      (<[MSPID r := r]> byMSP)) as [Hnd' Hin].
    + intros o. destruct (decide (o = MSPID r)) as [->|Hne].
      * rewrite lookup_insert_eq. split; [by eexists|intros _].
        case_bool_decide as Hb; [apply elem_of_app; right; by left|].
        apply Hk. by apply not_eq_None_Some.
      * rewrite lookup_insert_ne by done. rewrite <- Hk. case_bool_decide; [|done].
        rewrite elem_of_app, list_elem_of_singleton. naive_solver.
    + case_bool_decide as Hb; [|done]. apply NoDup_app. split_and!; [done| |apply NoDup_singleton].
      intros o Ho Ho'. apply list_elem_of_singleton in Ho' as ->. apply Hk in Ho as [? Ho]. congruence.
    + split; [done|]. intros o. rewrite Hin. setoid_rewrite elem_of_cons.
      case_bool_decide as Hb; [rewrite elem_of_app, list_elem_of_singleton; naive_solver|].
      apply not_eq_None_Some, Hk in Hb. naive_solver.
Qed.

(** A peer of the organization accepted an update for [def]. *)
Definition accepted (def : Store.ChaincodeDefinition) (initialized : bool) (mspID : string) : Prop :=
  ∃ remotes remote internal, remotePeers def = Ok remotes ∧ remote ∈ remotes ∧
    MSPID remote = mspID ∧
    SignInternalRequest (if initialized then MarkInitializedRequest def else CommitRequest def) =
      Ok internal ∧
    (if initialized then peer_MarkInitialized remote internal else peer_Commit remote internal) =
      Ok ().

Lemma propagate_spec byMSP initialized internal orgs left_ err :
  propagate byMSP initialized internal orgs = (left_, err) →
  (err = None → left_ = []) ∧
  ∃ updated, orgs = updated ++ left_ ∧ ∀ o, o ∈ updated → ∃ remote, byMSP !! o = Some remote ∧
    (if initialized then peer_MarkInitialized remote internal else peer_Commit remote internal) =
      Ok ().
Proof.
  revert left_ err. induction orgs as [|o orgs IH]; intros left_ err; cbn [propagate].
  { intros [= <- <-]. split; [done|]. exists []. split; [done|]. by intros o ?%not_elem_of_nil. }
  assert (Hstop : ∀ e, (o :: orgs, Some e) = (left_, err) → (err = None → left_ = []) ∧
    ∃ updated, o :: orgs = updated ++ left_ ∧ ∀ o, o ∈ updated → ∃ remote,
      byMSP !! o = Some remote ∧
      (if initialized then peer_MarkInitialized remote internal else peer_Commit remote internal) =
        Ok ()).
  { intros e [= <- <-]. split; [done|]. exists []. split; [done|]. by intros ? ?%not_elem_of_nil. }
  destruct (byMSP !! o) as [remote|] eqn:Ho; [|apply Hstop].
  destruct (if initialized then _ else _) as [[]|] eqn:Hok; [|apply Hstop]. intros H.
  apply IH in H as (Hn & updated & -> & Hall). split; [done|]. exists (o :: updated).
  split; [done|]. intros o' [->|Ho']%elem_of_cons; [by exists remote|by apply Hall].
Qed.

Lemma remote_readiness_answers internal remotes approvals out :
  remote_readiness internal remotes approvals = Ok out →
  ∃ answers, Forall2 (λ remote a, peer_CheckCommitReadiness remote internal = Ok a) remotes answers ∧
    out = foldl (λ known a, a ∪ known) approvals answers.
Proof.
  revert approvals. induction remotes as [|r rest IH]; intros approvals; cbn [remote_readiness].
  { intros [= <-]. by exists []. }
  destruct (peer_CheckCommitReadiness r internal) as [a|] eqn:Ha; [|done].
  intros (answers & Hall & ->)%IH. exists (a :: answers). split; [by constructor|done].
Qed.

(** The organizations updated and those left are the pending ones; on the first call, the
    organizations of the resolved peers. *)
Definition pending_covers (def : Store.ChaincodeDefinition) (p : DefinitionPropagation)
    (updated left_ : list string) : Prop :=
  if Resolved p then Organizations p = updated ++ left_
  else NoDup (updated ++ left_) ∧ ∃ remotes, remotePeers def = Ok remotes ∧
    ∀ o, o ∈ updated ++ left_ ↔ ∃ remote, remote ∈ remotes ∧ MSPID remote = o.

Lemma grouped_cover def p remotes orgs byMSP updated left_ :
  remotePeers def = Ok remotes → (Resolved p = false → Organizations p = []) →
  group_peers remotes (Resolved p) (Organizations p) ∅ = (orgs, byMSP) →
  orgs = updated ++ left_ → pending_covers def p updated left_.
Proof.
  intros Hrem Hfresh Hg Hsplit. unfold pending_covers. rewrite <- Hsplit. destruct (Resolved p).
  - by rewrite <- (group_peers_resolved remotes (Organizations p) ∅), Hg.
  - rewrite (Hfresh eq_refl) in Hg.
    destruct (group_peers_orgs remotes [] ∅) as [Hnd Hin];
      [|constructor|rewrite Hg in Hnd, Hin; cbn [fst] in Hnd, Hin].
    { intros o. rewrite lookup_empty. split; [by intros ?%not_elem_of_nil|by intros [? ?]]. }
    split; [done|]. exists remotes. split; [done|]. intros o. rewrite Hin.
    split; [intros [Ho%not_elem_of_nil|Ho]; done|by right].
Qed.

Lemma propagate_accepted def (initialized : bool) p remotes orgs byMSP internal updated :
  remotePeers def = Ok remotes →
  group_peers remotes (Resolved p) (Organizations p) ∅ = (orgs, byMSP) →
  SignInternalRequest (if initialized then MarkInitializedRequest def else CommitRequest def) =
    Ok internal →
  (∀ o, o ∈ updated → ∃ remote, byMSP !! o = Some remote ∧
    (if initialized then peer_MarkInitialized remote internal else peer_Commit remote internal) =
      Ok ()) →
  Forall (accepted def initialized) updated.
Proof.
  intros Hrem Hg Hsign Hall. apply Forall_forall. intros o (remote & Hr & Hacc)%Hall.
  pose proof (group_peers_known remotes (Resolved p) (Organizations p) ∅ o remote) as Hkn.
  rewrite Hg in Hkn. destruct (Hkn Hr) as [Hr'|[Hin Hmsp]]; [by rewrite lookup_empty in Hr'|].
  by exists remotes, remote, internal.
Qed.

(** What a public commit that succeeds has checked, and the transaction it made. *)
Lemma commit_public_checked s def s' committed approvals ledger :
  commit_public s def = (s', Ok (committed, approvals, ledger)) →
  checkCommitReadiness s def true = Ok approvals ∧ map_Forall (λ _ approved, approved = true) approvals ∧
  Store.ValidateCommitDefinition s def (srv_mspID srv) = Ok () ∧
  ∃ backend, srv_ledgerCommitter srv = Some backend ∧ CommitLifecycleDefinition backend def = Ok ledger.
Proof.
  unfold commit_public. intros H.
  destruct (approvals' ← checkCommitReadiness s def true; _) as [[[a b] l]|e] eqn:Hpre; [|done].
  assert (Ha : a = approvals ∧ l = ledger).
  { destruct (FinalizeLifecycleDefinition b) as [f|];
      [destruct (f s def false) as [s2 [c|]]|destruct (ReconcileDefinition s def false _) as [[s2 ?] [c|]]];
      cbn in H; by simplify_eq. }
  destruct Ha as [-> ->]. clear H.
  apply bind_ok in Hpre as (a' & Hr & Hpre). apply bind_ok in Hpre as ([] & Hall & Hpre).
  apply guard_err_ok in Hall. bool_props.
  apply bind_ok in Hpre as ([] & Hval & Hpre). apply with_status_ok in Hval.
  apply bind_ok in Hpre as (b' & Hb & Hpre). apply bind_ok in Hpre as (l' & Hl & [= -> -> ->]).
  destruct (srv_ledgerCommitter srv) as [b'|]; [injection Hb as ->|done].
  destruct (CommitLifecycleDefinition b def) as [l'|] eqn:Hcl; [injection Hl as ->|done].
  split_and!; [done..|]. by exists b.
Qed.

(** A first reconciliation that succeeds was accepted by every organization of the peers. *)
Lemma reconcile_all s def initialized s' p' c :
  ReconcileDefinition s def initialized (mkPropagation false []) = (s', p', Ok c) →
  applyLedgerDefinition s def initialized = (s', Ok c) ∧
  ∃ remotes, remotePeers def = Ok remotes ∧
    ∀ remote, remote ∈ remotes → accepted def initialized (MSPID remote).
Proof.
  unfold ReconcileDefinition. intros H.
  destruct (applyLedgerDefinition s def initialized) as [s1 [c1|e]]; [|done]. cbn [Resolved andb] in H.
  destruct (remotePeers def) as [remotes|e] eqn:Hrem; [|done].
  cbn [Resolved Organizations] in H. destruct (group_peers remotes false [] ∅) as [orgs byMSP] eqn:Hg.
  destruct (group_peers_orgs remotes [] ∅) as [_ Hin]; [|constructor|rewrite Hg in Hin; cbn [fst] in Hin].
  { intros o. rewrite lookup_empty. split; [by intros ?%not_elem_of_nil|by intros [? ?]]. }
  assert (Hc : s1 = s' ∧ c1 = c).
  { repeat case_match; by simplify_eq. }
  destruct Hc as [-> ->]. split; [done|]. exists remotes. split; [done|]. intros remote Hr.
  assert (Ho : MSPID remote ∈ orgs) by (apply Hin; right; by exists remote).
  case_bool_decide as Hnil; [subst orgs; by apply not_elem_of_nil in Ho|].
  destruct (SignInternalRequest _) as [internal|e] eqn:Hsign; [|done].
  destruct (propagate byMSP initialized internal orgs) as [left_ err] eqn:Hp.
  apply propagate_spec in Hp as (Hok & updated & Hsplit & Hall).
  destruct err as [e|]; [done|]. rewrite (Hok eq_refl), app_nil_r in Hsplit. subst updated.
  pose proof (propagate_accepted def initialized (mkPropagation false []) remotes orgs byMSP internal orgs
    Hrem Hg Hsign Hall) as Hacc.
  rewrite Forall_forall in Hacc. by apply Hacc.
Qed.

(** ** Properties *)

(** C40: Reconciling a definition never loses an organization: success leaves none pending, the
    organizations no longer pending accepted the update, and together with the pending ones
    they are those pending before, on the first call the organizations of the peers. *)
Theorem propagation_resumes s def initialized p s' p' r :
  ReconcileDefinition s def initialized p = (s', p', r) →
  (Resolved p = false → Organizations p = []) →
  (is_ok r = true → Resolved p' = true ∧ Organizations p' = []) ∧
  (p' = p ∨ Resolved p' = true ∧ ∃ updated,
     Forall (accepted def initialized) updated ∧ pending_covers def p updated (Organizations p')).
Proof.
  intros H Hfresh. unfold ReconcileDefinition in H.
  destruct (applyLedgerDefinition s def initialized) as [s1 [c|e]];
    [|injection H as <- <- <-; by split; [|left]].
  destruct (Resolved p && _) eqn:Hdone.
  { bool_props. injection H as <- <- <-. by split; [|left]. }
  destruct (remotePeers def) as [remotes|e] eqn:Hrem; [|injection H as <- <- <-; by split; [|left]].
  destruct (group_peers _ _ _ _) as [orgs byMSP] eqn:Hg.
  pose proof (grouped_cover def p remotes orgs byMSP) as Hcover.
  case_bool_decide as Hnil.
  { injection H as <- <- <-. split; [done|]. right. split; [done|]. exists [].
    split; [constructor|by apply Hcover]. }
  destruct (SignInternalRequest _) as [internal|e] eqn:Hsign.
  2:{ injection H as <- <- <-. split; [done|]. right. split; [done|]. exists [].
      split; [constructor|by apply Hcover]. }
  destruct (propagate byMSP initialized internal orgs) as [left_ err] eqn:Hp.
  injection H as <- <- <-. apply propagate_spec in Hp as (Hok & updated & Ho & Hall).
  split; [destruct err; [done|]; intros _; split; [done|by apply Hok]|]. right.
  split; [done|]. exists updated. split; [by eapply propagate_accepted|by apply Hcover].
Qed.

(** A public commit succeeds only for an admitted caller, with the local approval, a valid
    next sequence, a yes of every organization asked (a later answer about an organization
    overrides an earlier one) and a committed ledger transaction. *)
Theorem Commit_approved st req st' committed approvals ledger :
  Commit st req = (st', Ok (committed, Some (approvals, ledger))) →
  ∃ s r msp def backend internal remotes answers,
    st = Some s ∧ req = Some r ∧ Internal r = false ∧
    check (srv_auth srv) (e_now env) (e_now' env) (e_md env) (Some r) OperationCommit = Ok msp ∧
    unmarshal_Definition (Payload r) = Ok def ∧
    Store.HasMatchingApproval s def (srv_mspID srv) = Ok true ∧
    Store.validateNextSequence s def = Ok () ∧
    remotePeers def = Ok remotes ∧
    SignInternalRequest (CheckCommitReadinessRequest def) = Ok internal ∧
    Forall2 (λ remote a, peer_CheckCommitReadiness remote internal = Ok a) remotes answers ∧
    approvals = foldl (λ known a, a ∪ known) {[srv_mspID srv := true]} answers ∧
    map_Forall (λ _ approved, approved = true) approvals ∧
    srv_ledgerCommitter srv = Some backend ∧ CommitLifecycleDefinition backend def = Ok ledger.
Proof.
  intros H. unfold Commit in H.
  destruct (verifyAndUnmarshal _ _ st req) as [[msp def]|e] eqn:Hv; [|done].
  apply verify_ok in Hv as (s & r & -> & -> & _ & Hcheck & Hun). cbn [from_option] in H.
  destruct (Internal r) eqn:Hint;
    [destruct (applyLedgerDefinition s def false) as [s1 [c|e]]; done|].
  destruct (commit_public s def) as [s1 [[[c a] l]|e]] eqn:Hpub; [|done].
  assert (Ha : a = approvals ∧ l = ledger) by (cbn in H; by simplify_eq).
  destruct Ha as [-> ->]. clear H.
  apply commit_public_checked in Hpub as (Hr & Hall & Hval & b & Hb & Hcl).
  unfold Store.ValidateCommitDefinition in Hval. apply bind_ok in Hval as (ok & Hok & Hval).
  apply bind_ok in Hval as ([] & Hg & Hseq). apply guard_err_ok in Hg.
  destruct ok; [|done]. unfold checkCommitReadiness in Hr. rewrite Hok in Hr.
  cbn [with_status mbind result_mbind negb] in Hr.
  apply bind_ok in Hr as (remotes & Hrem & Hr). apply bind_ok in Hr as (internal & Hs & Hr).
  apply with_status_ok in Hs. apply remote_readiness_answers in Hr as (answers & Hans & ->).
  by exists s, r, msp, def, b, internal, remotes, answers.
Qed.

End Server.

(** ** Histories of calls *)

Section History.
Context {J : JSONText} {L : Msp.MSPLib} {PL : Package.PackageLib} {PJ : PayloadJSON}.

(** The calls that write to the store. *)
Inductive Call :=
  | CallInstall (req : option SignedRequest)
  | CallApproveForMyOrg (req : option SignedRequest)
  | CallCommit (req : option SignedRequest)
  | CallMarkInitialized (req : option SignedRequest).

Definition serve (srv : Server) (env : Env) (c : Call) (st : option Store.Store)
    : option Store.Store :=
  match c with
  | CallInstall req => (Install srv env st req).1
  | CallApproveForMyOrg req => (ApproveForMyOrg srv env st req).1
  | CallCommit req => (Commit srv env st req).1
  | CallMarkInitialized req => (MarkInitialized srv env st req).1
  end.

(** Each call has its own server value: the ledger and the peers change between calls. *)
Definition run (h : list (Server * Env * Call)) (st : option Store.Store) : option Store.Store :=
  foldl (λ st x, serve x.1.1 x.1.2 x.2 st) st h.

(** A finalizer that owns the local update also mirrors the ledger. *)
Definition finalizer_mirrors (srv : Server) : Prop :=
  ∀ backend finalize, srv_ledgerCommitter srv = Some backend →
    FinalizeLifecycleDefinition backend = Some finalize →
    ∀ s def initialized s' r, finalize s def initialized = (s', r) → mirrors srv s def s'.

(** What one call may do to the view of a name. *)
Definition view_from (srv : Server) (s s' : Store.Store) : Prop :=
  ∀ name, Store.committed_view s' name = Store.committed_view s name ∨
    ∃ def initialized, ledger_says srv def initialized ∧
      Store.committed_view s' name = Some (def, initialized).

Lemma mirrors_view srv s def s' : mirrors srv s def s' → view_from srv s s'.
Proof.
  intros [->|(now & init & Hsays & ->)] name; [by left|].
  destruct (Upsert_view now s def init name) as [H|H]; [by left|right]. by exists def, init.
Qed.

Lemma same_rows_view srv s s' :
  Store.committed_definitions s' = Store.committed_definitions s → view_from srv s s'.
Proof. intros H name. left. unfold Store.committed_view. by rewrite H. Qed.

Lemma Install_rows now s pkg s' r :
  Store.Install now s pkg = (s', r) →
  Store.committed_definitions s' = Store.committed_definitions s.
Proof. unfold Store.Install. case_bool_decide; by intros [= <- <-]. Qed.

Lemma Approve_rows now s def pkg msp s' r :
  Store.ApproveForMyOrg now s def pkg msp = (s', r) →
  Store.committed_definitions s' = Store.committed_definitions s.
Proof.
  unfold Store.ApproveForMyOrg. destruct (x ← _; _) as [[p e]|]; [|by intros [= <- <-]].
  case_match; by intros [= <- <-].
Qed.

Lemma commit_public_mirrors srv env s def :
  finalizer_mirrors srv → mirrors srv s def (commit_public srv env s def).1.
Proof.
  intros Hf. unfold commit_public.
  destruct (approvals ← checkCommitReadiness srv env s def true; _) as [[[a b] l]|e] eqn:Hpre;
    [|by left].
  assert (Hb : srv_ledgerCommitter srv = Some b).
  { apply bind_ok in Hpre as (a' & _ & Hpre). apply bind_ok in Hpre as ([] & _ & Hpre).
    apply bind_ok in Hpre as ([] & _ & Hpre). apply bind_ok in Hpre as (b' & Hb & Hpre).
    apply bind_ok in Hpre as (l' & _ & [= _ -> _]).
    destruct (srv_ledgerCommitter srv); [by injection Hb as ->|done]. }
  destruct (FinalizeLifecycleDefinition b) as [f|] eqn:Hfin.
  - destruct (f s def false) as [s' r] eqn:E. by apply (Hf b f Hb Hfin) in E.
  - destruct (ReconcileDefinition _ _ _ _ _ _) as [[s' p'] r] eqn:E.
    by apply ReconcileDefinition_mirrors in E.
Qed.

Lemma serve_view srv env c s :
  finalizer_mirrors srv → ∃ s', serve srv env c (Some s) = Some s' ∧ view_from srv s s'.
Proof.
  intros Hf. assert (Hrefl : view_from srv s s) by (intros ?; by left).
  destruct c as [req|req|req|req]; cbn [serve].
  - unfold Install. destruct (v ← _; _) as [[m d]|]; [|by exists s].
    destruct (Store.Install _ s _) as [s' r] eqn:E. exists s'. split; [done|].
    by apply same_rows_view, (Install_rows _ _ _ _ _ E).
  - unfold ApproveForMyOrg. destruct (verifyAndUnmarshal _ _ _ _ _ _) as [[m [d p]]|]; [|by exists s].
    destruct (Store.ApproveForMyOrg _ s d p m) as [s' r] eqn:E. exists s'. split; [done|].
    by apply same_rows_view, (Approve_rows _ _ _ _ _ _ _ E).
  - unfold Commit. destruct (verifyAndUnmarshal _ _ _ _ _ _) as [[m d]|]; [|by exists s].
    destruct (from_option _ _ _).
    + destruct (applyLedgerDefinition srv env s d false) as [s' r] eqn:E. exists s'.
      split; [done|]. by apply applyLedgerDefinition_mirrors, mirrors_view in E.
    + pose proof (commit_public_mirrors srv env s d Hf) as Hm.
      destruct (commit_public srv env s d) as [s' r]. exists s'. split; [done|].
      by apply mirrors_view in Hm.
  - unfold MarkInitialized. destruct (verifyAndUnmarshal _ _ _ _ _ _) as [[m d]|]; [|by exists s].
    destruct (applyLedgerDefinition srv env s d true) as [s' r] eqn:E. exists s'.
    split; [done|]. by apply applyLedgerDefinition_mirrors, mirrors_view in E.
Qed.

(** C30: No sequence of lifecycle calls, public or internal, makes a definition committed or
    initialized on its own word: whatever the store newly shows as active was read from the
    ledger of the channel by one of the calls, initialization included. *)
Theorem committed_from_ledger h s st name def initialized :
  (∀ x, x ∈ h → finalizer_mirrors x.1.1) →
  run h (Some s) = Some st →
  Store.committed_view st name = Some (def, initialized) →
  Store.committed_view s name = Some (def, initialized) ∨
  ∃ x, x ∈ h ∧ ledger_says x.1.1 def initialized.
Proof.
  revert s. induction h as [|[[srv env] c] h IH]; intros s Hf Hrun Hview.
  { injection Hrun as ->. by left. }
  destruct (serve_view srv env c s) as (s1 & Hs1 & Hfrom); [apply (Hf (srv, env, c)); by left|].
  unfold run in Hrun. cbn [foldl fst snd] in Hrun. rewrite Hs1 in Hrun.
  destruct (IH s1) as [H|(x & Hx & H)];
    [intros x Hx; apply Hf; by right|done|done| |right; exists x; split; [by right|done]].
  destruct (Hfrom name) as [H'|(d & i & Hsays & H')]; [left; congruence|right].
  exists (srv, env, c). split; [by left|]. rewrite H in H'. by injection H' as -> ->.
Qed.

End History.

(** ** Witnesses *)

(** The ledger holds the example definition; a second organization approves it. *)
#[local] Existing Instance Package.example_lib.

#[local] Instance example_payload : PayloadJSON := {
  marshal_payload _ := "{}";
  unmarshal_Install _ := Ok "outer";
  unmarshal_QueryInstalled _ := Ok ();
  unmarshal_Definition _ := Ok Store.ex_def;
  unmarshal_Approve _ := Ok (Store.ex_def, "basic:ab12");
  unmarshal_Query _ := Ok ("", "") }.

Definition ex_backend : LedgerBackend :=
  mkBackend (λ _, Ok (mkCommitResult "tx" "COMMITTED" 1 0 "_lifecycle" "key"))
    (λ _, Ok (Some (Ledger.mkLedger "mychannel" "basic" "1.0" 1 true false))) None.

Definition ex_peer : RemotePeer :=
  mkPeer "Org2MSP" (λ _, Ok {["Org2MSP" := true]}) (λ _, Ok ()) (λ _, Ok ()).

Definition ex_caller : Authorizer (L := Instances.example_msp) :=
  mkAuthorizer (L := Instances.example_msp)
    (Msp.mkVerifier (L := Instances.example_msp) (Some ()) {["Org1MSP"]})
    "mychannel" "Org1MSP" {[OperationCommit := "Org1MSP"]} {["Org1MSP|orch"]}.

Definition ex_server : Server (L := Instances.example_msp) :=
  mkServer (L := Instances.example_msp) "mychannel" (Some ex_caller)
    (Some (mkSigner (Ok "Org1MSP:orch") (λ _, Ok "orch"))) "Org1MSP" (Some ex_backend)
    (Some (λ _, Ok [ex_peer])).

Definition ex_env : Env := mkEnv 50 50 "t3" (λ _, []) (Ok "abcdefghijklmnopqrstuvwx").

Definition ex_commit : SignedRequest :=
  mkSignedRequest 1 "mychannel" OperationCommit false 0 "abcdefghijklmnopqrstuvwx" "{}"
    "Org1MSP:admin" "admin".

Lemma propagation_resumes_witness :
  ∃ s' p' r, ReconcileDefinition (J := example_json) ex_server ex_env Store.ex_approved
      Store.ex_def false (mkPropagation false []) = (s', p', r) ∧ is_ok r = true ∧
    Organizations p' = [].
Proof.
  destruct (ReconcileDefinition (J := example_json) ex_server ex_env Store.ex_approved
    Store.ex_def false (mkPropagation false [])) as [[s' p'] r] eqn:E.
  exists s', p', r. assert (Hok : is_ok r = true).
  { apply (f_equal (λ x, is_ok x.2)) in E. cbn [snd] in E. rewrite <- E. vm_compute. reflexivity. }
  destruct (propagation_resumes (J := example_json) ex_server ex_env Store.ex_approved
    Store.ex_def false (mkPropagation false []) s' p' r E (λ _, eq_refl)) as [H _].
  split; [reflexivity|split; [exact Hok|apply H, Hok]].
Defined.

Lemma Commit_approved_witness :
  ∃ st' committed approvals ledger,
    Commit (J := example_json) ex_server ex_env (Some Store.ex_approved) (Some ex_commit) =
      (st', Ok (committed, Some (approvals, ledger))) ∧
    Store.HasMatchingApproval Store.ex_approved Store.ex_def "Org1MSP" = Ok true.
Proof.
  destruct (Commit (J := example_json) ex_server ex_env (Some Store.ex_approved) (Some ex_commit))
    as [st' r] eqn:E.
  assert (Hr : match r with Ok (_, Some _) => True | _ => False end).
  { apply (f_equal snd) in E. cbn [snd] in E. rewrite <- E. vm_compute. exact I. }
  destruct r as [[committed [[approvals ledger]|]]|]; [|destruct Hr..].
  exists st', committed, approvals, ledger. split; [reflexivity|].
  destruct (Commit_approved (J := example_json) ex_server ex_env (Some Store.ex_approved)
    (Some ex_commit) st' committed approvals ledger E)
    as (s & q & msp & def & b & int & rem & ans & Hs & Hq & _ & _ & Hdef & Happ & _).
  injection Hs as <-. injection Hdef as <-. exact Happ.
Defined.

Lemma committed_from_ledger_witness :
  ∃ st, run (J := example_json) [(ex_server, ex_env, CallCommit (Some ex_commit))]
      (Some Store.ex_approved) = Some st ∧
    Store.committed_view st "basic" = Some (Store.ex_def, false) ∧
    (Store.committed_view Store.ex_approved "basic" = Some (Store.ex_def, false) ∨
     ∃ x, x ∈ [(ex_server, ex_env, CallCommit (Some ex_commit))] ∧
       ledger_says x.1.1 Store.ex_def false).
Proof.
  assert (Hrun : (λ s, Store.committed_view s "basic") <$>
    run (J := example_json) [(ex_server, ex_env, CallCommit (Some ex_commit))]
      (Some Store.ex_approved) = Some (Some (Store.ex_def, false))) by (vm_compute; reflexivity).
  destruct (run (J := example_json) [(ex_server, ex_env, CallCommit (Some ex_commit))]
      (Some Store.ex_approved)) as [st|] eqn:E; [|discriminate Hrun].
  assert (Hview : Store.committed_view st "basic" = Some (Store.ex_def, false))
    by (injection Hrun; trivial).
  exists st. split; [reflexivity|split; [exact Hview|]].
  assert (Hf : ∀ x, x ∈ [(ex_server, ex_env, CallCommit (Some ex_commit))] →
    finalizer_mirrors x.1.1).
  { intros x ->%list_elem_of_singleton backend finalize [= <-]. discriminate. }
  exact (committed_from_ledger (J := example_json) _ _ _ _ _ _ Hf E Hview).
Defined.

End RPC.
