(* ===== verification/RemoteResolver.v ===== *)
(** The other organizations' orchestrators: the contacts of [orchestrator/contact.go] and the
    static and dynamic resolvers of [orchestrator/remote_resolver.go].

    The connections are those of [Network.v]; the dynamic resolver's contacts are passed along,
    and are [None] for the nil map that [Close] leaves.  An answer of the resolver service, of a
    remote endorser or of a remote lifecycle service is a parameter.  The order in which Go visits
    a map is an argument.  A panic is the outcome [None]. *)
From Stdlib Require Import ZArith Lia Ascii.
From stdpp Require Import base option list strings gmap sets.
From S2P Require Import Prelude LifecycleStore OrchestratorTypes GoStrings Json Proto Msp Auth.
From S2P Require Import EndorsementPolicy EndorsementSearch Instances Collect ExecContext Shim Helper Requests.
From S2P Require Import LifecycleAuth Config Network ChaincodeResolver Binding LifecycleLedger Package LifecycleRPC.
Import Types Proto.
Local Open Scope Z_scope.

Module Remote.

(** ** Contacts *)

(** A contact's peer is nil only in a contact that no constructor made. *)
Record OrchestratorContact := mkContact {
  c_mspID : string;
  c_address : string;
  c_peer : option Network.Peer }.

Section Contacts.
Context {NL : Network.NetworkLib}.

Definition newOrchestratorContact (n : Network.net) (cfg : Config.RemoteOrchestratorConfig)
    : Network.net * result OrchestratorContact :=
  match Network.NewPeer n (Config.Remote_ToPeerConf cfg) with
  | (n, Err e) => (n, Err (EWrap "remote orchestrator %s: %w" e))
  | (n, Ok peer) => (n, Ok (mkContact (Config.ro_MSPID cfg) (Config.Remote_Address cfg) (Some peer)))
  end.

(** The peers behind contacts, those with one. *)
Definition peers_of (contacts : list OrchestratorContact) : list Network.Peer := omap c_peer contacts.

Definition contact_Close (n : Network.net) (c : OrchestratorContact) : Network.net * option goerr :=
  match c_peer c with None => (n, None) | Some p => Network.close_peer n p end.

(** The contacts are closed one after the other and the errors joined. *)
Fixpoint close_contacts (n : Network.net) (contacts : list OrchestratorContact)
    : Network.net * list goerr :=
  match contacts with
  | [] => (n, [])
  | c :: rest =>
      let '(n1, e) := contact_Close n c in
      let '(n2, es) := close_contacts n1 rest in
      (n2, option_list e ++ es)
  end.

(** The contacts of a map of candidates, in the order [order] of its keys. *)
Definition all_contacts (order : list string) (contacts : gmap string (list OrchestratorContact))
    : list OrchestratorContact := order ≫= λ m, default [] (contacts !! m).

Definition closeOrchestratorContactCandidates (order : list string) (n : Network.net)
    (contacts : gmap string (list OrchestratorContact)) : Network.net * option goerr :=
  let '(n, errs) := close_contacts n (all_contacts order contacts) in (n, Config.errors_Join errs).

Definition closeOrchestratorContacts (order : list string) (n : Network.net)
    (contacts : gmap string OrchestratorContact) : Network.net * option goerr :=
  let '(n, errs) := close_contacts n (omap (λ m, contacts !! m) order) in (n, Config.errors_Join errs).

Definition keys {A} (m : gmap string A) : list string := (map_to_list m).*1.

Fixpoint candidates_loop (n : Network.net) (configs : list Config.RemoteOrchestratorConfig)
    (contacts : gmap string (list OrchestratorContact))
    : Network.net * result (gmap string (list OrchestratorContact)) :=
  match configs with
  | [] => (n, Ok contacts)
  | cfg :: rest =>
      match newOrchestratorContact n cfg with
      | (n, Err e) =>
          ((closeOrchestratorContactCandidates (keys contacts) n contacts).1, Err e)
      | (n, Ok contact) =>
          candidates_loop n rest
            (<[c_mspID contact := default [] (contacts !! c_mspID contact) ++ [contact]]> contacts)
      end
  end.

Definition newOrchestratorContactCandidates (n : Network.net)
    (configs : list Config.RemoteOrchestratorConfig)
    : Network.net * result (gmap string (list OrchestratorContact)) := candidates_loop n configs ∅.

(** [lifecycleRemoteCandidates]: the first candidate of each organization. *)
Definition lifecycleRemoteCandidates (order : list string)
    (contacts : gmap string (list OrchestratorContact)) : list OrchestratorContact :=
  omap (λ m, head (default [] (contacts !! m))) order.

(** ** Calls to a contact *)

(** What the endorser of a contact answers: the response and the header and trailer metadata. *)
Record endorser_answer := mkAnswer {
  ea_Response : result (option ProposalResponse);
  ea_Header : string → list string;
  ea_Trailer : string → list string }.

Section Calls.
Context {PU : ProtoUtil} {J : Json.JSONText}.
(** The endorser of the peer, called with the operation and the namespace of the metadata. *)
Variable endorser : Network.Peer → string → string → SignedProposal → endorser_answer.

Definition fill_msp (c : OrchestratorContact) (b : LifecycleExecutionBinding)
    : LifecycleExecutionBinding :=
  if bool_decide (b_MSPID b = "")
  then mkBinding (c_mspID c) (b_Namespace b) (b_ChaincodeName b) (b_ChaincodeVersion b)
         (b_Sequence b) (b_PackageID b) (b_PackageAddress b)
  else b.

(** The binding of the header, else of the trailer; one that cannot be decoded is ignored. *)
Definition answered_binding (c : OrchestratorContact) (a : endorser_answer)
    : option LifecycleExecutionBinding :=
  let read md := match Binding.lifecycleBindingFromMetadata md with Ok b => b | Err _ => None end in
  fill_msp c <$> match read (ea_Header a) with Some b => Some b | None => read (ea_Trailer a) end.

Definition EndorseOnly (c : OrchestratorContact) (req : InvocationRequest)
    : result helperExecutionResult :=
  match c_peer c with
  | None => Err (ENew "remote orchestrator contact is not configured")
  | Some p =>
      match ClientSignedProposal req with
      | None => Err (ENew "remote orchestrator endorsement requires the original signed proposal")
      | Some prop =>
          match UnmarshalProposal (ProposalBytes prop) with
          | Err e => Err (EWrap "unmarshal remote proposal: %w" e)
          | Ok proposal =>
              txID ← Requests.txIDFromProposal (Some proposal);
              let a := endorser p Requests.GRPCOperationEndorse (Namespace req) prop in
              match ea_Response a with
              | Err e => Err (EWrap "remote orchestrator %s endorsement: %w" e)
              | Ok None => Err (ENew "remote orchestrator %s returned no proposal response")
              | Ok (Some resp) =>
                  match pr_Response resp with
                  | None => Err (ENew "remote orchestrator %s returned no proposal response")
                  | Some response =>
                      Ok (mkResult (mkSdkEndorsement (Some proposal) [Some resp]) txID
                            (Some response) (answered_binding c a))
                  end
              end
          end
      end
  end.
End Calls.

(** The lifecycle service of a contact: [lifecycle.NewClient(c.peer.Connection(), channel)]. *)
Record lifecycle_client := mkClient {
  lc_CheckCommitReadiness : Network.Peer → LifecycleAuth.SignedRequest → result (gmap string bool);
  lc_Commit : Network.Peer → LifecycleAuth.SignedRequest → result ();
  lc_MarkInitialized : Network.Peer → LifecycleAuth.SignedRequest → result () }.

Definition contact_call {A} (msg : string) (call : Network.Peer → LifecycleAuth.SignedRequest → result A)
    (c : OrchestratorContact) (req : LifecycleAuth.SignedRequest) : result A :=
  match c_peer c with
  | None => Err (ENew "remote orchestrator contact is not configured")
  | Some p => match call p req with Ok x => Ok x | Err e => Err (EWrap msg e) end
  end.

Definition CheckCommitReadiness (cl : lifecycle_client) :=
  contact_call "remote orchestrator %s readiness: %w" (lc_CheckCommitReadiness cl).
Definition Commit (cl : lifecycle_client) :=
  contact_call "remote orchestrator %s commit: %w" (lc_Commit cl).
Definition MarkInitialized (cl : lifecycle_client) :=
  contact_call "remote orchestrator %s mark initialized: %w" (lc_MarkInitialized cl).

(** A contact as the lifecycle service sees it. *)
Definition remote_peer (cl : lifecycle_client) (c : OrchestratorContact) : RPC.RemotePeer :=
  RPC.mkPeer (c_mspID c) (CheckCommitReadiness cl c) (Commit cl c) (MarkInitialized cl c).

(** ** The static resolver *)

Notation static_contacts := (gmap string (list OrchestratorContact)) (only parsing).

Definition static_AvailableMSPs (r : static_contacts) : gset string := dom r.

Definition static_Resolve (r : static_contacts) (req : Collect.remoteOrchestratorResolveRequest)
    : option (list OrchestratorContact) :=
  match r !! Collect.TargetMSPID req with
  | None | Some [] => None
  | Some contacts => Some contacts
  end.

Definition static_RemotePeers (order : list string) (r : static_contacts)
    (req : Collect.remoteOrchestratorResolveRequest) : list OrchestratorContact :=
  filter (λ c, c_mspID c ≠ Collect.RequesterMSPID req) (lifecycleRemoteCandidates order r).

(** ** The dynamic resolver *)

Definition defaultRemoteResolverTimeout : Z := 5 * Config.second.

Record dynamicRemote := mkDynamicRemote {
  resolverAddress : string;
  resolverPeer : option Network.Peer;
  timeout : Z;
  targetMSPIDs : list string;
  contactTLS : Config.TLSConfig;
  contacts : option (gmap string OrchestratorContact) }.

Definition set_contacts (m : option (gmap string OrchestratorContact)) (r : dynamicRemote)
    : dynamicRemote :=
  mkDynamicRemote (resolverAddress r) (resolverPeer r) (timeout r) (targetMSPIDs r) (contactTLS r) m.

Definition newDynamicRemoteOrchestratorResolver (n : Network.net)
    (cfg : option Config.DynamicResolverConfig) : Network.net * result dynamicRemote :=
  match cfg ≫= λ cfg, e ← Config.dyn_Endpoint cfg; Some (cfg, e) with
  | None => (n, Err (ENew "remote-orchestrator-resolver.dynamic.endpoint is required"))
  | Some (cfg, e) =>
      match Config.dyn_MSPIDs cfg with
      | [] => (n, Err (ENew "remote-orchestrator-resolver.dynamic.msp-ids is required"))
      | msps =>
          let timeout := if Config.dyn_Timeout cfg <=? 0 then defaultRemoteResolverTimeout
                         else Config.dyn_Timeout cfg in
          let address := Config.Endpoint_Address e in
          match Network.NewPeer n (Config.mkPeerConf address (Config.dyn_TLS cfg)) with
          | (n, Err e) => (n, Err (EWrap "remote orchestrator resolver %s: %w" e))
          | (n, Ok peer) =>
              (n, Ok (mkDynamicRemote address (Some peer) timeout msps
                        (Config.dyn_ContactTLS cfg) (Some ∅)))
          end
      end
  end.

Definition targetAllowed (r : dynamicRemote) (mspID : string) : bool :=
  existsb (λ candidate, bool_decide (candidate = mspID)) (targetMSPIDs r).

(** The candidates of the answer, checked one by one. *)
Fixpoint check_candidates (targetMSPID : string) (l : list Ccr.ResolveCandidate)
    : result (list Ccr.ResolveCandidate) :=
  match l with
  | [] => Ok []
  | c :: rest =>
      guard_err (bool_decide (Ccr.cand_Address c = ""))
        (ENew "dynamic remote orchestrator resolver candidate %d missing address");;
      guard_err (negb (bool_decide (Ccr.cand_MSPID c = "")) &&
                 negb (bool_decide (Ccr.cand_MSPID c = targetMSPID)))
        (ENew "dynamic remote orchestrator resolver candidate %d msp=%s, want %s");;
      rest ← check_candidates targetMSPID rest;
      Ok (c :: rest)
  end.

Definition remoteOrchestratorCandidatesFromResponse (targetMSPID : string)
    (out : Ccr.ResolveResponse) : result (list Ccr.ResolveCandidate) :=
  match Ccr.Candidates out with
  | [] =>
      if bool_decide (Ccr.rsp_Address out = "") then Ok []
      else Ok [Ccr.mkCandidate targetMSPID "" (Ccr.rsp_Address out) (Ccr.rsp_TLSMode out) ∅]
  | l => check_candidates targetMSPID l
  end.

Definition endpointFromAddress (address : string) : result Config.Endpoint :=
  match GoStrings.SplitHostPort address with
  | Err e => Err (EWrap "invalid address %q: %w" e)
  | Ok (host, portText) =>
      match GoStrings.ParseInt portText with
      | Err e => Err (EWrap "invalid port in address %q: %w" e)
      | Ok port => Ok (Config.mkEndpoint host port)
      end
  end.

Definition contact_key (targetMSPID address : string) : string := targetMSPID +:+ "|" +:+ address.

Definition contactForCandidate (n : Network.net) (r : dynamicRemote) (targetMSPID : string)
    (candidate : Ccr.ResolveCandidate)
    : Network.net * dynamicRemote * option (result OrchestratorContact) :=
  if bool_decide (Ccr.cand_Address candidate = "")
  then (n, r, Some (Err (ENew "dynamic remote orchestrator resolver response missing address for msp %s")))
  else if negb (bool_decide (Ccr.cand_MSPID candidate = "")) &&
          negb (bool_decide (Ccr.cand_MSPID candidate = targetMSPID))
  then (n, r, Some (Err (ENew "dynamic remote orchestrator resolver returned msp %s for requested msp %s")))
  else
    match endpointFromAddress (Ccr.cand_Address candidate) with
    | Err e => (n, r, Some (Err (EWrap "dynamic remote orchestrator resolver response: %w" e)))
    | Ok endpoint =>
        let key := contact_key targetMSPID (Ccr.cand_Address candidate) in
        match contacts r ≫= λ m, m !! key with
        | Some existing => (n, r, Some (Ok existing))
        | None =>
            match newOrchestratorContact n
                    (Config.mkRemote targetMSPID (Some endpoint) (contactTLS r)) with
            | (n, Err e) => (n, r, Some (Err e))
            | (n, Ok contact) =>
                match contacts r with
                | None => (n, r, None)
                | Some m => (n, set_contacts (Some (<[key := contact]> m)) r, Some (Ok contact))
                end
            end
        end
    end.

Fixpoint contacts_for (n : Network.net) (r : dynamicRemote) (targetMSPID : string)
    (candidates : list Ccr.ResolveCandidate)
    : Network.net * dynamicRemote * option (result (list OrchestratorContact)) :=
  match candidates with
  | [] => (n, r, Some (Ok []))
  | candidate :: rest =>
      match contactForCandidate n r targetMSPID candidate with
      | (n, r, None) => (n, r, None)
      | (n, r, Some (Err e)) => (n, r, Some (Err e))
      | (n, r, Some (Ok contact)) =>
          match contacts_for n r targetMSPID rest with
          | (n, r, None) => (n, r, None)
          | (n, r, Some (Err e)) => (n, r, Some (Err e))
          | (n, r, Some (Ok l)) => (n, r, Some (Ok (contact :: l)))
          end
      end
  end.

Definition resolve_request (req : Collect.remoteOrchestratorResolveRequest) : Ccr.ResolveRequest :=
  Ccr.mkResolveRequest Ccr.OperationRemoteOrchestrator "" (Collect.RequesterMSPID req)
    (Collect.TargetMSPID req) (Collect.rr_ChannelID req) (Collect.rr_Namespace req)
    (Collect.rr_ChaincodeName req) (Collect.rr_ChaincodeVersion req) (Collect.rr_Sequence req).

Definition dynamic_Resolve (call : Ccr.ResolveRequest → result Ccr.ResolveResponse)
    (n : Network.net) (r : dynamicRemote) (req : Collect.remoteOrchestratorResolveRequest)
    : Network.net * dynamicRemote * option (result (option (list OrchestratorContact))) :=
  if negb (targetAllowed r (Collect.TargetMSPID req)) then (n, r, Some (Ok None))
  else
    match call (resolve_request req) with
    | Err e => (n, r, Some (Err (EWrap "dynamic remote orchestrator resolver grpc: %w" e)))
    | Ok out =>
        if negb (Ccr.Found out) then (n, r, Some (Ok None))
        else
          match remoteOrchestratorCandidatesFromResponse (Collect.TargetMSPID req) out with
          | Err e => (n, r, Some (Err e))
          | Ok [] => (n, r, Some (Ok None))
          | Ok candidates =>
              match contacts_for n r (Collect.TargetMSPID req) candidates with
              | (n, r, None) => (n, r, None)
              | (n, r, Some (Err e)) => (n, r, Some (Err e))
              | (n, r, Some (Ok l)) => (n, r, Some (Ok (Some l)))
              end
          end
    end.

Definition with_target (mspID : string) (req : Collect.remoteOrchestratorResolveRequest)
    : Collect.remoteOrchestratorResolveRequest :=
  Collect.mkResolveRequest (Collect.RequesterMSPID req) mspID (Collect.rr_ChannelID req)
    (Collect.rr_Namespace req) (Collect.rr_ChaincodeName req) (Collect.rr_ChaincodeVersion req)
    (Collect.rr_Sequence req).

(** The loop of [RemotePeers] over the target organizations. *)
Fixpoint dynamic_peers (call : Ccr.ResolveRequest → result Ccr.ResolveResponse) (n : Network.net)
    (r : dynamicRemote) (targets : list string) (req : Collect.remoteOrchestratorResolveRequest)
    : Network.net * dynamicRemote * option (result (list OrchestratorContact)) :=
  match targets with
  | [] => (n, r, Some (Ok []))
  | mspID :: rest =>
      if bool_decide (mspID = Collect.RequesterMSPID req) then dynamic_peers call n r rest req
      else
        match dynamic_Resolve call n r (with_target mspID req) with
        | (n, r, None) => (n, r, None)
        | (n, r, Some (Err e)) => (n, r, Some (Err e))
        | (n, r, Some (Ok found)) =>
            match dynamic_peers call n r rest req with
            | (n, r, Some (Ok l)) => (n, r, Some (Ok (option_list (found ≫= head) ++ l)))
            | other => other
            end
        end
  end.

Definition dynamic_RemotePeers (call : Ccr.ResolveRequest → result Ccr.ResolveResponse)
    (n : Network.net) (r : dynamicRemote) (req : Collect.remoteOrchestratorResolveRequest)
    : Network.net * dynamicRemote * option (result (list OrchestratorContact)) :=
  dynamic_peers call n r (targetMSPIDs r) req.

(** Returns the resolver without its contacts. *)
Definition dynamic_Close (order : list string) (n : Network.net) (r : dynamicRemote)
    : Network.net * dynamicRemote * option goerr :=
  let m := default ∅ (contacts r) in
  let n := match resolverPeer r with Some p => (Network.close_peer n p).1 | None => n end in
  let '(n, err) := closeOrchestratorContacts order n m in
  (n, set_contacts None r, err).

(** ** The combined resolver *)

Record resolvers := mkResolvers {
  static : option static_contacts;
  dynamic : option dynamicRemote }.

Definition newRemoteOrchestratorResolver (n : Network.net) (cfg : Config.RemoteResolverConfig)
    (legacyStatic : list Config.RemoteOrchestratorConfig) : Network.net * result resolvers :=
  let staticEntries := legacyStatic ++ Config.rr_Static cfg in
  let '(n, static) :=
    match staticEntries with
    | [] => (n, Ok None)
    | _ => let '(n, r) := newOrchestratorContactCandidates n staticEntries in (n, Some <$> r)
    end in
  match static with
  | Err e => (n, Err e)
  | Ok static =>
      match Config.rr_Dynamic cfg with
      | Some d =>
          match newDynamicRemoteOrchestratorResolver n (Some d) with
          | (n, Err e) =>
              (match static with
               | Some m => (closeOrchestratorContactCandidates (keys m) n m).1
               | None => n
               end, Err e)
          | (n, Ok dynamic) => (n, Ok (mkResolvers static (Some dynamic)))
          end
      | None =>
          match static with
          | Some _ => (n, Ok (mkResolvers static None))
          | None =>
              let '(n, r) := newOrchestratorContactCandidates n [] in
              (n, (λ m, mkResolvers (Some m) None) <$> r)
          end
      end
  end.

Definition AvailableMSPs (r : resolvers) : gset string :=
  from_option static_AvailableMSPs ∅ (static r) ∪
  from_option (λ d, list_to_set (targetMSPIDs d)) ∅ (dynamic r).

Definition set_dynamic (d : dynamicRemote) (r : resolvers) : resolvers :=
  mkResolvers (static r) (Some d).

Definition Resolve (call : Ccr.ResolveRequest → result Ccr.ResolveResponse) (n : Network.net)
    (r : resolvers) (req : Collect.remoteOrchestratorResolveRequest)
    : Network.net * resolvers * option (result (option (list OrchestratorContact))) :=
  match (m ← static r; static_Resolve m req) with
  | Some contacts => (n, r, Some (Ok (Some contacts)))
  | None =>
      match dynamic r with
      | None => (n, r, Some (Ok None))
      | Some d =>
          let '(n, d, out) := dynamic_Resolve call n d req in (n, set_dynamic d r, out)
      end
  end.

(** The peers configured statically hide the resolved ones of the same organization. *)
Definition RemotePeers (call : Ccr.ResolveRequest → result Ccr.ResolveResponse) (order : list string)
    (n : Network.net) (r : resolvers) (req : Collect.remoteOrchestratorResolveRequest)
    : Network.net * resolvers * option (result (list OrchestratorContact)) :=
  let fixed := from_option (λ m, static_RemotePeers order m req) [] (static r) in
  match dynamic r with
  | None => (n, r, Some (Ok fixed))
  | Some d =>
      let '(n, d, out) := dynamic_RemotePeers call n d req in
      (n, set_dynamic d r,
       match out with
       | Some (Ok l) => Some (Ok (fixed ++ filter (λ c, c_mspID c ∉ map c_mspID fixed) l))
       | other => other
       end)
  end.

Definition Close (static_order dynamic_order : list string) (n : Network.net) (r : resolvers)
    : Network.net * resolvers * option goerr :=
  let '(n, err) :=
    match static r with
    | Some m => closeOrchestratorContactCandidates static_order n m
    | None => (n, None)
    end in
  match dynamic r with
  | None => (n, r, err)
  | Some d =>
      let '(n, d, dynamicErr) := dynamic_Close dynamic_order n d in
      (n, set_dynamic d r, match err with Some e => Some e | None => dynamicErr end)
  end.

(** ** Which connections a resolver owns *)

(** A contact whose connection was made to its address. *)
Definition contact_ok (c : OrchestratorContact) : Prop :=
  ∃ p, c_peer c = Some p ∧ Config.pc_Address (Network.peer_conf p) = c_address c.

Definition static_list (m : static_contacts) : list OrchestratorContact := map_to_list m ≫= snd.

Definition dynamic_list (d : dynamicRemote) : list OrchestratorContact :=
  (map_to_list (default ∅ (contacts d))).*2.

Definition owned_dynamic (d : dynamicRemote) : list Network.Peer :=
  option_list (resolverPeer d) ++ peers_of (dynamic_list d).

Definition owned (r : resolvers) : list Network.Peer :=
  from_option (λ m, peers_of (static_list m)) [] (static r) ++ from_option owned_dynamic [] (dynamic r).

(** [n] has the connections of [base] and those of [ps], made since. *)
Record owns (base n : Network.net) (ps : list Network.Peer) : Prop := mkOwns {
  ow_ok : Network.net_ok n;
  ow_made : (Network.made base ≤ Network.made n)%nat;
  ow_opened : Network.opened n ≡ₚ Network.opened base ++ map Network.peer_id ps;
  ow_since : Forall (λ p, (Network.made base ≤ Network.peer_id p)%nat) ps }.

Lemma owns_perm base n ps qs : ps ≡ₚ qs → owns base n ps → owns base n qs.
Proof.
  intros H [H1 H2 H3 H4]. constructor; [done|done| |by rewrite <- H].
  rewrite H3. by rewrite H.
Qed.

Lemma owns_none base : Network.net_ok base → owns base base [].
Proof. constructor; try done. by rewrite app_nil_r. Qed.

Lemma NewPeer_owns base n ps conf n' p :
  owns base n ps → Network.NewPeer n conf = (n', Ok p) →
  owns base n' (ps ++ [p]) ∧ Network.peer_conf p = conf.
Proof.
  intros [H1 H2 H3 H4] Hp. destruct (Network.NewPeer_ok n conf n' p H1 Hp) as ([Hm Ho] & Hok & Hid & Hc).
  split; [|done]. constructor; [done|lia| |].
  - rewrite Ho, H3, map_app. by rewrite app_assoc.
  - apply Forall_app; split; [done|]. repeat constructor. lia.
Qed.

Lemma NewPeer_owns_err base n ps conf n' e :
  owns base n ps → Network.NewPeer n conf = (n', Err e) → owns base n' ps.
Proof.
  intros [H1 H2 H3 H4] Hp. destruct (Network.NewPeer_err n conf n' e H1 Hp) as ([Hm Ho] & Hok).
  constructor; [done|lia| |done]. by rewrite Ho, app_nil_r.
Qed.

Lemma close_owns base n ps :
  Network.net_ok base → owns base n ps → owns base (Network.close_peers n ps).1 [].
Proof.
  intros Hb [H1 H2 H3 H4]. constructor; [by apply Network.closed_ok| | |done].
  - by destruct (Network.close_peers_opened n ps) as [-> _].
  - simpl. rewrite app_nil_r. by apply Network.closed_back.
Qed.

Lemma close_contacts_peers n cs : (close_contacts n cs).1 = (Network.close_peers n (peers_of cs)).1.
Proof.
  revert n. induction cs as [|c cs IH]; intros n; [done|]. cbn [close_contacts peers_of omap list_omap].
  unfold contact_Close. destruct (c_peer c) as [p|]; cbn [Network.close_peers].
  - destruct (Network.close_peer n p) as [n1 e]. specialize (IH n1). fold (peers_of cs).
    destruct (close_contacts n1 cs), (Network.close_peers n1 (peers_of cs)). exact IH.
  - specialize (IH n). fold (peers_of cs). by destruct (close_contacts n cs).
Qed.

#[local] Instance peers_of_perm : Proper ((≡ₚ) ==> (≡ₚ)) peers_of.
Proof. intros l1 l2 H. unfold peers_of. by rewrite H. Qed.

Lemma peers_of_app l1 l2 : peers_of (l1 ++ l2) = peers_of l1 ++ peers_of l2.
Proof. apply omap_app. Qed.

Lemma static_list_order order m : order ≡ₚ keys m → all_contacts order m ≡ₚ static_list m.
Proof.
  intros Ho. unfold all_contacts, static_list. rewrite Ho. unfold keys.
  assert (H : ∀ l, (∀ k v, (k, v) ∈ l → m !! k = Some v) → (l.*1 ≫= λ k, default [] (m !! k)) = l ≫= snd).
  { induction l as [|[k v] l IH]; intros Hl; [done|]. cbn. rewrite (Hl k v) by by left.
    cbn. f_equal. apply IH. intros k' v' H. apply Hl. by right. }
  rewrite H; [done|]. intros k v. by apply elem_of_map_to_list.
Qed.

Lemma dynamic_list_order order (m : gmap string OrchestratorContact) :
  order ≡ₚ keys m → omap (λ k, m !! k) order ≡ₚ (map_to_list m).*2.
Proof.
  intros Ho. rewrite Ho. unfold keys.
  assert (H : ∀ l : list (string * OrchestratorContact), (∀ k v, (k, v) ∈ l → m !! k = Some v) →
    omap (λ k, m !! k) l.*1 = l.*2).
  { induction l as [|[k v] l IH]; intros Hl; [done|]. cbn. rewrite (Hl k v) by by left.
    f_equal. apply IH. intros k' v' H. apply Hl. by right. }
  rewrite H; [done|]. intros k v. by apply elem_of_map_to_list.
Qed.

(** ** The static contacts *)

Definition static_ok (m : static_contacts) : Prop :=
  ∀ msp l, m !! msp = Some l → Forall (λ c, c_mspID c = msp ∧ contact_ok c) l.

Lemma static_list_add (m : static_contacts) k c :
  static_list (<[k := default [] (m !! k) ++ [c]]> m) ≡ₚ static_list m ++ [c].
Proof.
  unfold static_list. rewrite <- insert_delete_eq.
  rewrite map_to_list_insert by apply lookup_delete_eq.
  cbn. destruct (m !! k) as [l|] eqn:E; cbn.
  - rewrite <- (insert_delete_id m k l E) at 2.
    rewrite map_to_list_insert by apply lookup_delete_eq. cbn.
    rewrite <- !app_assoc. by rewrite (Permutation_app_comm [c]).
  - rewrite delete_id by done. by rewrite Permutation_app_comm.
Qed.

Lemma newContact_owns base n ps cfg n' c :
  owns base n ps → newOrchestratorContact n cfg = (n', Ok c) →
  owns base n' (ps ++ peers_of [c]) ∧ contact_ok c ∧ c_mspID c = Config.ro_MSPID cfg ∧
  c_address c = Config.Remote_Address cfg.
Proof.
  intros Ho. unfold newOrchestratorContact. destruct (Network.NewPeer n _) as [n1 [p|e]] eqn:Hp; [|done].
  intros [= <- <-]. destruct (NewPeer_owns base n ps _ n1 p Ho Hp) as [H Hc].
  split; [exact H|]. split; [|done]. exists p. by rewrite Hc.
Qed.

Lemma newContact_owns_err base n ps cfg n' e :
  owns base n ps → newOrchestratorContact n cfg = (n', Err e) → owns base n' ps.
Proof.
  intros Ho. unfold newOrchestratorContact. destruct (Network.NewPeer n _) as [n1 [p|e']] eqn:Hp; [done|].
  intros [= <- <-]. exact (NewPeer_owns_err base n ps _ n1 e' Ho Hp).
Qed.

Lemma close_candidates_owns base order n m :
  Network.net_ok base → order ≡ₚ keys m → owns base n (peers_of (static_list m)) →
  owns base (closeOrchestratorContactCandidates order n m).1 [].
Proof.
  intros Hb Hord Ho. unfold closeOrchestratorContactCandidates.
  pose proof (close_contacts_peers n (all_contacts order m)) as H.
  destruct (close_contacts n _) as [n' errs]. cbn [fst] in *. rewrite H. apply close_owns; [done|].
  eapply owns_perm; [|exact Ho]. by rewrite static_list_order.
Qed.

Lemma candidates_loop_owns base configs n m n' r :
  Network.net_ok base → owns base n (peers_of (static_list m)) → static_ok m →
  candidates_loop n configs m = (n', r) →
  match r with
  | Ok m' => owns base n' (peers_of (static_list m')) ∧ static_ok m'
  | Err _ => owns base n' []
  end.
Proof.
  intros Hb. revert n m. induction configs as [|cfg rest IH]; intros n m Ho Hm H; simpl in H;
    [by injection H as <- <-|].
  destruct (newOrchestratorContact n cfg) as [n1 [c|e]] eqn:Hc.
  - destruct (newContact_owns base n _ cfg n1 c Ho Hc) as (Ho1 & Hok & _).
    eapply IH; [| |exact H].
    + eapply owns_perm; [|exact Ho1]. by rewrite static_list_add, peers_of_app.
    + intros msp l Hl. apply lookup_insert_Some in Hl as [[<- <-]|[_ Hl]]; [|by apply Hm].
      apply Forall_app; split; [|by repeat constructor].
      destruct (m !! c_mspID c) as [l|] eqn:E; [by apply Hm in E|constructor].
  - injection H as <- <-. apply close_candidates_owns; [done|done|].
    by apply (newContact_owns_err base n _ cfg n1 e).
Qed.

(** ** The dynamic contacts *)

Lemma contact_key_inj t t' a a' :
  GoStrings.has_char "|" t = false → GoStrings.has_char "|" t' = false →
  contact_key t a = contact_key t' a' → t = t' ∧ a = a'.
Proof.
  unfold contact_key. revert t'. induction t as [|c t IH]; intros [|c' t'] Ht Ht' H.
  - by injection H.
  - injection H as <- _. discriminate Ht'.
  - injection H as -> _. discriminate Ht.
  - apply orb_false_iff in Ht as [_ Ht], Ht' as [_ Ht'].
    injection H as <- H. by destruct (IH t' Ht Ht' H) as [-> ->].
Qed.

(** A contact of [target] to the endpoint that [addr] names. *)
Definition contact_of (target addr : string) (c : OrchestratorContact) : Prop :=
  c_mspID c = target ∧ contact_ok c ∧
  ∃ e, endpointFromAddress addr = Ok e ∧ c_address c = Config.Endpoint_Address e.

Record dyn_ok (d : dynamicRemote) : Prop := mkDynOk {
  dk_open : is_Some (contacts d);
  dk_cache : ∀ m key c, contacts d = Some m → m !! key = Some c →
    ∃ target addr, key = contact_key target addr ∧ target ∈ targetMSPIDs d ∧ contact_of target addr c;
  dk_names : Forall (λ m, GoStrings.has_char "|" m = false) (targetMSPIDs d) }.

Definition same_config (d d' : dynamicRemote) : Prop :=
  targetMSPIDs d' = targetMSPIDs d ∧ resolverPeer d' = resolverPeer d.

Lemma dk_insert d m target addr c :
  dyn_ok d → contacts d = Some m → target ∈ targetMSPIDs d → contact_of target addr c →
  dyn_ok (set_contacts (Some (<[contact_key target addr := c]> m)) d).
Proof.
  intros [Ho Hc Hn] Hm Ht Hof. constructor; [by eexists| |exact Hn].
  intros m' key c' [= <-] Hk. apply lookup_insert_Some in Hk as [[<- <-]|[_ Hk]]; [by exists target, addr|].
  exact (Hc m key c' Hm Hk).
Qed.

(** A resolved contact is one of the resolver's, and of the organization asked for. *)
Definition served (d : dynamicRemote) (target : string) (candidate : Ccr.ResolveCandidate)
    (c : OrchestratorContact) : Prop :=
  contact_of target (Ccr.cand_Address candidate) c ∧ c ∈ dynamic_list d.

Lemma contactForCandidate_spec base frame n d target candidate n' d' out :
  owns base n (frame ++ owned_dynamic d) → dyn_ok d → target ∈ targetMSPIDs d →
  contactForCandidate n d target candidate = (n', d', out) →
  owns base n' (frame ++ owned_dynamic d') ∧ dyn_ok d' ∧ same_config d d' ∧
  dynamic_list d ⊆ dynamic_list d' ∧
  ∃ r, out = Some r ∧ ∀ c, r = Ok c → served d' target candidate c.
Proof.
  intros Ho Hd Ht. unfold contactForCandidate.
  assert (Hsame : ∀ e, owns base n (frame ++ owned_dynamic d) ∧ dyn_ok d ∧ same_config d d ∧
    dynamic_list d ⊆ dynamic_list d ∧
    ∃ r, Some (Err e) = Some r ∧ ∀ c, r = Ok c → served d target candidate c).
  { intros e. split_and!; try done. by exists (Err e). }
  case_bool_decide; [intros [= <- <- <-]; apply Hsame|].
  destruct (_ && _); [intros [= <- <- <-]; apply Hsame|].
  destruct (endpointFromAddress (Ccr.cand_Address candidate)) as [ep|e] eqn:Hep;
    [|intros [= <- <- <-]; apply Hsame].
  destruct (dk_open d Hd) as [m Hm]. rewrite Hm. cbn [mbind option_bind].
  pose proof (dk_names d Hd) as Hn. rewrite Forall_forall in Hn.
  destruct (m !! contact_key target (Ccr.cand_Address candidate)) as [c|] eqn:Hk.
  - intros [= <- <- <-]. split_and!; try done. eexists. split; [done|]. intros ? [= <-]. split.
    + destruct (dk_cache d Hd m _ c Hm Hk) as (t & a & Hkey & Ht' & Hof).
      apply contact_key_inj in Hkey as [-> ->]; [done|apply Hn; done..].
    + unfold dynamic_list. rewrite Hm. apply list_elem_of_fmap. eexists (_, c).
      split; [done|]. by apply elem_of_map_to_list.
  - destruct (newOrchestratorContact n _) as [n1 [c|e]] eqn:Hc.
    2:{ intros [= <- <- <-]. pose proof (newContact_owns_err base n _ _ n1 e Ho Hc).
        split_and!; try done. by exists (Err e). }
    intros [= <- <- <-]. destruct (newContact_owns base n _ _ n1 c Ho Hc) as (Ho1 & Hok & Hm1 & Ha).
    assert (Hof : contact_of target (Ccr.cand_Address candidate) c) by (split_and!; [done|done|by exists ep]).
    assert (Hl : dynamic_list (set_contacts (Some (<[contact_key target (Ccr.cand_Address candidate) := c]> m)) d) ≡ₚ
      c :: dynamic_list d).
    { unfold dynamic_list. rewrite Hm. cbn [set_contacts contacts from_option id].
      by rewrite map_to_list_insert. }
    split_and!; [|by apply dk_insert|done| |].
    + eapply owns_perm; [|exact Ho1]. unfold owned_dynamic. rewrite Hl. cbn [set_contacts resolverPeer].
      rewrite <- !app_assoc. do 2 f_equiv. rewrite (Permutation_app_comm _ (peers_of [c])).
      by rewrite <- peers_of_app.
    + intros x Hx. rewrite Hl. by right.
    + eexists. split; [done|]. intros ? [= <-]. split; [done|]. rewrite Hl. by left.
Qed.

(** What a use of the dynamic resolver keeps. *)
Definition kept (base : Network.net) (frame : list Network.Peer) (d d' : dynamicRemote)
    (n' : Network.net) : Prop :=
  owns base n' (frame ++ owned_dynamic d') ∧ dyn_ok d' ∧ same_config d d' ∧
  dynamic_list d ⊆ dynamic_list d'.

Lemma kept_refl base frame d n :
  owns base n (frame ++ owned_dynamic d) → dyn_ok d → kept base frame d d n.
Proof. done. Qed.

Lemma kept_trans base frame d1 d2 d3 n2 n3 :
  kept base frame d1 d2 n2 → kept base frame d2 d3 n3 → kept base frame d1 d3 n3.
Proof.
  intros (_ & _ & [Ht1 Hp1] & Hl1) (Ho & Hd & [Ht2 Hp2] & Hl2).
  split_and!; [done|done|split; congruence|]. by transitivity (dynamic_list d2).
Qed.

Lemma contacts_for_spec base frame candidates n d target n' d' out :
  owns base n (frame ++ owned_dynamic d) → dyn_ok d → target ∈ targetMSPIDs d →
  contacts_for n d target candidates = (n', d', out) →
  kept base frame d d' n' ∧ ∃ r, out = Some r ∧ ∀ l, r = Ok l → Forall2 (served d' target) candidates l.
Proof.
  revert n d n' d' out. induction candidates as [|cand rest IH]; intros n d n' d' out Ho Hd Ht H; simpl in H.
  { injection H as <- <- <-. split; [done|]. eexists. split; [done|]. by intros ? [= <-]. }
  destruct (contactForCandidate n d target cand) as [[n1 d1] o1] eqn:Hc.
  destruct (contactForCandidate_spec base frame n d target cand n1 d1 o1 Ho Hd Ht Hc)
    as (Ho1 & Hd1 & Hs1 & Hl1 & r1 & -> & Hr1).
  assert (Hk1 : kept base frame d d1 n1) by done.
  destruct r1 as [c|e]; [|injection H as <- <- <-; split; [done|]; by eexists].
  destruct (contacts_for n1 d1 target rest) as [[n2 d2] o2] eqn:Hrest.
  destruct (IH n1 d1 n2 d2 o2 Ho1 Hd1) as [Hk2 (r2 & -> & Hr2)]; [by destruct Hs1 as [-> _]|done|].
  assert (Hk : kept base frame d d2 n2) by by apply (kept_trans _ _ _ d1 _ n1).
  destruct r2 as [l|e]; injection H as <- <- <-; (split; [done|]; eexists; split; [done|]); [|done].
  intros ? [= <-]. constructor; [|by apply Hr2].
  destruct (Hr1 c eq_refl) as [Hof Hin]. split; [done|]. by apply Hk2.
Qed.

Lemma dynamic_Resolve_spec base frame call n d req n' d' out :
  owns base n (frame ++ owned_dynamic d) → dyn_ok d → dynamic_Resolve call n d req = (n', d', out) →
  kept base frame d d' n' ∧
  ∃ r, out = Some r ∧ ∀ l, r = Ok (Some l) → l ≠ [] ∧ Collect.TargetMSPID req ∈ targetMSPIDs d ∧
    Forall (λ c, ∃ cand, served d' (Collect.TargetMSPID req) cand c) l.
Proof.
  intros Ho Hd H. unfold dynamic_Resolve in H.
  assert (Hsame : ∀ r, (∀ l, r ≠ Ok (Some l)) → (n, d, Some r) = (n', d', out) →
    kept base frame d d' n' ∧ ∃ r, out = Some r ∧ ∀ l, r = Ok (Some l) → l ≠ [] ∧
      Collect.TargetMSPID req ∈ targetMSPIDs d ∧
      Forall (λ c, ∃ cand, served d' (Collect.TargetMSPID req) cand c) l).
  { intros r Hr [= <- <- <-]. split; [done|]. exists r. split; [done|]. intros l Hl. by apply Hr in Hl. }
  destruct (targetAllowed d (Collect.TargetMSPID req)) eqn:Ht; cbn [negb] in H; [|by eapply Hsame; [|exact H]].
  assert (Htarget : Collect.TargetMSPID req ∈ targetMSPIDs d).
  { unfold targetAllowed in Ht. apply existsb_exists in Ht as (m & Hm & Heq). bool_props.
    subst m. by apply list_elem_of_In. }
  destruct (call (resolve_request req)) as [rsp|e]; [|by eapply Hsame; [|exact H]].
  destruct (Ccr.Found rsp); cbn [negb] in H; [|by eapply Hsame; [|exact H]].
  destruct (remoteOrchestratorCandidatesFromResponse _ rsp) as [[|c cs]|e];
    [by eapply Hsame; [|exact H]| |by eapply Hsame; [|exact H]].
  destruct (contacts_for n d _ (c :: cs)) as [[n1 d1] o1] eqn:Hc.
  destruct (contacts_for_spec base frame _ n d _ n1 d1 o1 Ho Hd Htarget Hc) as [Hk (r1 & -> & Hr1)].
  destruct r1 as [l|e]; injection H as <- <- <-; (split; [done|]; eexists; split; [done|]); [|done].
  intros ? [= <-]. specialize (Hr1 l eq_refl).
  split; [by inversion Hr1|]. split; [done|].
  clear -Hr1. induction Hr1; constructor; eauto.
Qed.

Lemma dynamic_peers_spec base frame call targets n d req n' d' out :
  owns base n (frame ++ owned_dynamic d) → dyn_ok d →
  dynamic_peers call n d targets req = (n', d', out) → kept base frame d d' n' ∧ is_Some out.
Proof.
  revert n d n' d' out. induction targets as [|m rest IH]; intros n d n' d' out Ho Hd H; simpl in H;
    [by injection H as <- <- <-|].
  case_bool_decide; [by apply (IH n d)|].
  destruct (dynamic_Resolve call n d (with_target m req)) as [[n1 d1] o1] eqn:Hr.
  destruct (dynamic_Resolve_spec base frame call n d _ n1 d1 o1 Ho Hd Hr) as [Hk1 (r1 & -> & _)].
  destruct r1 as [found|e]; [|by injection H as <- <- <-].
  destruct (dynamic_peers call n1 d1 rest req) as [[n2 d2] o2] eqn:Hp.
  destruct (IH n1 d1 n2 d2 o2) as [Hk2 [r2 Hr2]]; [apply Hk1|apply Hk1|done|]. subst o2.
  destruct r2; injection H as <- <- <-; (split; [|done]); by apply (kept_trans _ _ _ d1 _ n1).
Qed.

(** ** The combined resolver *)

Record resolvers_ok (base n : Network.net) (r : resolvers) : Prop := mkResolversOk {
  ro_owns : owns base n (owned r);
  ro_static : ∀ m, static r = Some m → static_ok m;
  ro_dynamic : ∀ d, dynamic r = Some d → dyn_ok d }.

Definition plain_names (cfg : Config.RemoteResolverConfig) : Prop :=
  ∀ d, Config.rr_Dynamic cfg = Some d →
    Forall (λ m, GoStrings.has_char "|" m = false) (Config.dyn_MSPIDs d).

Lemma new_dynamic_spec base frame n cfg n' r :
  owns base n frame → (∀ d, cfg = Some d → Forall (λ m, GoStrings.has_char "|" m = false) (Config.dyn_MSPIDs d)) →
  newDynamicRemoteOrchestratorResolver n cfg = (n', r) →
  match r with
  | Ok d => owns base n' (frame ++ owned_dynamic d) ∧ dyn_ok d
  | Err _ => owns base n' frame
  end.
Proof.
  intros Ho Hn. unfold newDynamicRemoteOrchestratorResolver.
  destruct cfg as [cfg|]; [|by intros [= <- <-]]. cbn [mbind option_bind].
  destruct (Config.dyn_Endpoint cfg) as [e|]; [|by intros [= <- <-]]. cbn [mbind option_bind].
  specialize (Hn cfg eq_refl). destruct (Config.dyn_MSPIDs cfg) as [|m ms] eqn:Em; [by intros [= <- <-]|].
  destruct (Network.NewPeer n _) as [n1 [p|e']] eqn:Hp; intros [= <- <-].
  - destruct (NewPeer_owns base n frame _ n1 p Ho Hp) as [Ho1 _]. split; [exact Ho1|].
    constructor; [by eexists| |done]. intros m' key c [= <-]. by rewrite lookup_empty.
  - exact (NewPeer_owns_err base n frame _ n1 e' Ho Hp).
Qed.

Lemma new_resolvers_spec n cfg legacy n' r :
  Network.net_ok n → plain_names cfg → newRemoteOrchestratorResolver n cfg legacy = (n', r) →
  match r with Ok r => resolvers_ok n n' r | Err _ => owns n n' [] end.
Proof.
  intros Hb Hn H. unfold newRemoteOrchestratorResolver in H.
  destruct (match legacy ++ Config.rr_Static cfg with [] => _ | _ => _ end) as [n1 st] eqn:Es.
  assert (Hst : match st with
    | Ok st => owns n n1 (from_option (λ m, peers_of (static_list m)) [] st) ∧
               (∀ m, st = Some m → static_ok m)
    | Err _ => owns n n1 [] end).
  { destruct (legacy ++ Config.rr_Static cfg) as [|c cs].
    - injection Es as <- <-. split; [by apply owns_none|done].
    - unfold newOrchestratorContactCandidates in Es.
      destruct (candidates_loop n (c :: cs) ∅) as [n2 r2] eqn:El. injection Es as <- <-.
      apply (candidates_loop_owns n) in El; [|done|by apply owns_none|by intros ? ? ?%lookup_empty_Some].
      destruct r2 as [m|]; [|done]. destruct El as [Ho Hm]. split; [done|]. by intros ? [= <-]. }
  clear Es. destruct st as [st|e]; [|by injection H as <- <-]. destruct Hst as [Ho Hst].
  destruct (Config.rr_Dynamic cfg) as [d|] eqn:Ed.
  - destruct (newDynamicRemoteOrchestratorResolver n1 (Some d)) as [n2 rd] eqn:Hd.
    assert (Hnames : ∀ x, Some d = Some x →
      Forall (λ m, GoStrings.has_char "|" m = false) (Config.dyn_MSPIDs x)).
    { intros x [= <-]. by apply Hn. }
    pose proof (new_dynamic_spec n _ n1 _ n2 rd Ho Hnames Hd) as Hspec.
    destruct rd as [dyn|e]; injection H as <- <-.
    + destruct Hspec as [Ho2 Hd2]. constructor; [done|done|]. by intros ? [= <-].
    + destruct st as [m|]; [by apply close_candidates_owns|done].
  - destruct st as [m|].
    + injection H as <- <-. constructor; [|done|done]. unfold owned. simpl. by rewrite app_nil_r.
    + cbn in H. injection H as <- <-. constructor; [exact Ho| |done].
      intros m [= <-] ? ? Hl. by rewrite lookup_empty in Hl.
Qed.

(** One use of a resolver.  [use_contact] is one section under the dynamic resolver's mutex, of
    which every interleaving of concurrent calls is made. *)
Inductive use : Network.net * resolvers → Network.net * resolvers → Prop :=
  | use_contact n r d target candidate n' d' out :
      dynamic r = Some d → target ∈ targetMSPIDs d →
      contactForCandidate n d target candidate = (n', d', out) → use (n, r) (n', set_dynamic d' r)
  | use_Resolve call n r req n' r' out : Resolve call n r req = (n', r', out) → use (n, r) (n', r')
  | use_RemotePeers call order n r req n' r' out :
      RemotePeers call order n r req = (n', r', out) → use (n, r) (n', r').

Lemma kept_resolvers base n r d n' d' :
  resolvers_ok base n r → dynamic r = Some d →
  kept base (from_option (λ m, peers_of (static_list m)) [] (static r)) d d' n' →
  resolvers_ok base n' (set_dynamic d' r).
Proof.
  intros [_ Hs _] _ (Ho & Hd & _). constructor; [exact Ho|exact Hs|]. by intros ? [= <-].
Qed.

Lemma dynamic_owned base n r d :
  resolvers_ok base n r → dynamic r = Some d →
  owns base n (from_option (λ m, peers_of (static_list m)) [] (static r) ++ owned_dynamic d) ∧ dyn_ok d.
Proof.
  intros [Ho _ Hd] E. split; [|by apply Hd]. unfold owned in Ho. by rewrite E in Ho.
Qed.

Lemma Resolve_kept base call n r req n' r' out :
  resolvers_ok base n r → Resolve call n r req = (n', r', out) → resolvers_ok base n' r'.
Proof.
  intros Hr. unfold Resolve. destruct (m ← static r; static_Resolve m req); [by intros [= <- <- _]|].
  destruct (dynamic r) as [d|] eqn:Ed; [|by intros [= <- <- _]].
  destruct (dynamic_owned base n r d Hr Ed) as [Ho Hd].
  destruct (dynamic_Resolve call n d req) as [[n1 d1] o1] eqn:H. intros [= <- <- _].
  apply (kept_resolvers base n r d); [done|done|]. by eapply dynamic_Resolve_spec.
Qed.

Lemma use_kept base n r n' r' : resolvers_ok base n r → use (n, r) (n', r') → resolvers_ok base n' r'.
Proof.
  intros Hr Hu. inversion Hu as [? ? d target cand ? d' o Ed Ht Hc|? ? ? ? ? ? ? H|call ? ? ? req ? ? o H]; subst.
  - destruct (dynamic_owned base n r d Hr Ed) as [Ho Hd].
    destruct (contactForCandidate_spec base _ n d target cand n' d' o Ho Hd Ht Hc) as (H1 & H2 & H3 & H4 & _).
    by apply (kept_resolvers base n r d).
  - by eapply Resolve_kept.
  - unfold RemotePeers in H. destruct (dynamic r) as [d|] eqn:Ed; [|by injection H as <- <- _].
    destruct (dynamic_owned base n r d Hr Ed) as [Ho Hd].
    destruct (dynamic_RemotePeers call n d req) as [[n1 d1] o1] eqn:Hp. injection H as <- <- _.
    apply (kept_resolvers base n r d); [done|done|]. by eapply dynamic_peers_spec.
Qed.

Lemma uses_kept base x y : rtc use x y → resolvers_ok base x.1 x.2 → resolvers_ok base y.1 y.2.
Proof.
  induction 1 as [|[n1 r1] [n2 r2] z Hu _ IH]; [done|]. intros Hr. apply IH. by eapply use_kept.
Qed.

(** [so] and [dor] enumerate the maps that [Close] visits. *)
Definition visits (so dor : list string) (r : resolvers) : Prop :=
  (∀ m, static r = Some m → so ≡ₚ keys m) ∧
  (∀ d m, dynamic r = Some d → contacts d = Some m → dor ≡ₚ keys m).

Lemma dynamic_Close_peers dor n d :
  (dynamic_Close dor n d).1.1 =
  (Network.close_peers n (option_list (resolverPeer d) ++
     peers_of (omap (λ m, default ∅ (contacts d) !! m) dor))).1.
Proof.
  unfold dynamic_Close, closeOrchestratorContacts. rewrite Network.close_peers_app.
  set (n1 := match resolverPeer d with Some p => _ | None => _ end).
  assert (E : n1 = (Network.close_peers n (option_list (resolverPeer d))).1).
  { unfold n1. by destruct (resolverPeer d). }
  rewrite <- E, <- close_contacts_peers. by destruct (close_contacts n1 _).
Qed.

Lemma Close_owns base so dor n r :
  Network.net_ok base → resolvers_ok base n r → visits so dor r →
  owns base (Close so dor n r).1.1 [].
Proof.
  intros Hb [Ho Hs Hd] [Hso Hdo]. unfold Close, owned in *.
  assert (H1 : (match static r with
    | Some m => closeOrchestratorContactCandidates so n m
    | None => (n, None) end).1 =
    (Network.close_peers n (from_option (λ m, peers_of (all_contacts so m)) [] (static r))).1).
  { destruct (static r) as [m|]; [|done]. unfold closeOrchestratorContactCandidates.
    cbn [from_option]. rewrite <- close_contacts_peers. by destruct (close_contacts n _). }
  destruct (match static r with Some m => _ | None => _ end) as [n1 err]. cbn [fst] in H1. subst n1.
  assert (Hst : from_option (λ m, peers_of (all_contacts so m)) [] (static r) ≡ₚ
    from_option (λ m, peers_of (static_list m)) [] (static r)).
  { destruct (static r) as [m|]; [|done]. simpl. rewrite static_list_order; [done|by apply Hso]. }
  destruct (dynamic r) as [d|] eqn:Ed.
  - pose proof (dynamic_Close_peers dor (Network.close_peers n
      (from_option (λ m, peers_of (all_contacts so m)) [] (static r))).1 d) as Hdc.
    destruct (dynamic_Close dor _ d) as [[n2 d2] e2]. cbn [fst] in *. rewrite Hdc, <- Network.close_peers_app.
    apply close_owns; [done|]. eapply owns_perm; [|exact Ho]. rewrite Hst. f_equiv. cbn [from_option].
    unfold owned_dynamic, dynamic_list. f_equiv.
    destruct (dk_open d (Hd d eq_refl)) as [m Hm]. rewrite Hm. cbn [from_option id].
    rewrite (dynamic_list_order dor m); [done|by apply (Hdo d)].
  - cbn [fst]. apply close_owns; [done|]. eapply owns_perm; [|exact Ho].
    rewrite Hst. cbn [from_option]. by rewrite app_nil_r.
Qed.

Lemma contact_open base m q ps c :
  owns base m (ps ++ peers_of q) → c ∈ q → contact_ok c →
  ∃ p, c_peer c = Some p ∧ Config.pc_Address (Network.peer_conf p) = c_address c ∧
    Network.peer_id p ∈ Network.opened m.
Proof.
  intros [_ _ Ho _] Hc (p & Hp & Ha). exists p. split_and!; [done|done|].
  rewrite Ho. apply elem_of_app. right. apply list_elem_of_fmap. exists p. split; [done|].
  apply elem_of_app. right. apply list_elem_of_omap. by exists c.
Qed.

(** A resolution that races with [Close] does panic: the connection is made, and then assigned
    into the nil map. *)
Lemma closed_resolver_panics n d target candidate endpoint :
  contacts d = None → Ccr.cand_Address candidate ≠ "" → Ccr.cand_MSPID candidate = target →
  endpointFromAddress (Ccr.cand_Address candidate) = Ok endpoint →
  (∀ conf, Network.dial (Network.made n) conf = None) →
  (contactForCandidate n d target candidate).2 = None ∧
  Network.opened (contactForCandidate n d target candidate).1.1 =
    Network.opened n ++ [Network.made n].
Proof.
  intros Hc Ha Hm He Hd. unfold contactForCandidate. rewrite !bool_decide_eq_false_2 by done.
  rewrite Hm, (bool_decide_eq_true_2 (target = target)), andb_false_r by done. rewrite He, Hc.
  cbn [mbind option_bind]. unfold newOrchestratorContact, Network.NewPeer. by rewrite Hd.
Qed.

(** ** Properties *)

(** No connection leaks: a constructor that fails leaves no connection open, and closing a
    resolver, after any interleaved uses of it, leaves open exactly the connections that were
    open before it was made. *)
Theorem resolver_releases n cfg legacy n' out :
  Network.net_ok n → plain_names cfg → newRemoteOrchestratorResolver n cfg legacy = (n', out) →
  match out with
  | Err _ => Network.opened n' ≡ₚ Network.opened n
  | Ok r => ∀ n2 r2 so dor, rtc use (n', r) (n2, r2) → visits so dor r2 →
      Network.opened (Close so dor n2 r2).1.1 ≡ₚ Network.opened n
  end.
Proof.
  intros Hb Hn H. pose proof (new_resolvers_spec n cfg legacy n' out Hb Hn H) as Hspec.
  destruct out as [r|e].
  - intros n2 r2 so dor Hu Hv. apply (uses_kept n _ _ Hu) in Hspec.
    pose proof (Close_owns n so dor n2 r2 Hb Hspec Hv) as [_ _ Ho _]. simpl in Ho.
    by rewrite app_nil_r in Ho.
  - destruct Hspec as [_ _ Ho _]. simpl in Ho. by rewrite app_nil_r in Ho.
Qed.

(** Resolving an organization's orchestrators never panics before the resolver is closed, and
    finds only that organization's: every contact is for the organization asked for, which is one
    of the available ones, and its connection is open and was made to its address. *)
Theorem resolved_contacts n cfg legacy n' r n2 r2 call req n3 r3 out :
  Network.net_ok n → plain_names cfg → newRemoteOrchestratorResolver n cfg legacy = (n', Ok r) →
  rtc use (n', r) (n2, r2) → Resolve call n2 r2 req = (n3, r3, out) →
  ∃ x, out = Some x ∧ ∀ l, x = Ok (Some l) →
    l ≠ [] ∧ Collect.TargetMSPID req ∈ AvailableMSPs r2 ∧
    Forall (λ c, c_mspID c = Collect.TargetMSPID req ∧ ∃ p, c_peer c = Some p ∧
      Config.pc_Address (Network.peer_conf p) = c_address c ∧
      Network.peer_id p ∈ Network.opened n3) l.
Proof.
  intros Hb Hn H Hu HR. pose proof (new_resolvers_spec n cfg legacy n' _ Hb Hn H) as Hr.
  apply (uses_kept n _ _ Hu) in Hr. cbn [fst snd] in Hr.
  unfold Resolve in HR. destruct (static r2 ≫= _) as [l|] eqn:Es.
  - injection HR as <- <- <-. eexists. split; [done|]. intros ? [= <-].
    destruct (static r2) as [m|] eqn:Em; [|done]. cbn [mbind option_bind] in Es.
    unfold static_Resolve in Es. destruct (m !! _) as [[|c cs]|] eqn:El; [done| |done].
    injection Es as <-. split; [done|]. split.
    + unfold AvailableMSPs. rewrite Em. apply elem_of_union_l. cbn [from_option].
      by apply elem_of_dom.
    + pose proof (ro_static n n2 r2 Hr m Em _ _ El) as Hall. apply Forall_forall. intros x Hx.
      rewrite Forall_forall in Hall. destruct (Hall x Hx) as [Hm Hok]. split; [done|].
      apply (contact_open n n2 (static_list m) (from_option owned_dynamic [] (dynamic r2))); [| |done].
      * eapply owns_perm; [|exact (ro_owns n n2 r2 Hr)]. unfold owned. rewrite Em.
        apply Permutation_app_comm.
      * unfold static_list. apply list_elem_of_bind. exists (Collect.TargetMSPID req, c :: cs).
        split; [done|]. by apply elem_of_map_to_list.
  - destruct (dynamic r2) as [d|] eqn:Ed; [|injection HR as <- <- <-; by eexists].
    destruct (dynamic_owned n n2 r2 d Hr Ed) as [Ho Hd].
    destruct (dynamic_Resolve call n2 d req) as [[n4 d4] o4] eqn:Hdr. injection HR as <- <- <-.
    destruct (dynamic_Resolve_spec n _ call n2 d req n4 d4 o4 Ho Hd Hdr) as [(Hk & _) (x & -> & Hx)].
    exists x. split; [done|]. intros l Hl. destruct (Hx l Hl) as (Hne & Ht & Hall).
    split; [done|]. split.
    + unfold AvailableMSPs. rewrite Ed. apply elem_of_union_r. by apply elem_of_list_to_set.
    + eapply Forall_impl; [exact Hall|]. intros c (cand & (Hm & Hok & _) & Hin). split; [done|].
      unfold owned_dynamic in Hk. rewrite app_assoc in Hk. by apply (contact_open _ _ _ _ c Hk).
Qed.

(** The address of an endpoint is parsed back to it. *)
Theorem endpointFromAddress_Address e :
  GoStrings.has_char "[" (Config.Host e) = false → GoStrings.has_char "]" (Config.Host e) = false →
  is_int64 (Config.Port e) → endpointFromAddress (Config.Endpoint_Address e) = Ok e.
Proof.
  intros H1 H2 Hp. unfold endpointFromAddress, Config.Endpoint_Address.
  rewrite GoStrings.SplitHostPort_JoinHostPort by (first [done | by apply GoStrings.FormatInt_chars]).
  rewrite GoStrings.ParseInt_FormatInt by done. by destruct e.
Qed.

End Contacts.

(** ** Witnesses *)

Definition ex_remote_config : Config.RemoteResolverConfig :=
  Config.mkRemoteResolver [Config.mkRemote "Org2MSP" (Some (Config.mkEndpoint "org2" 7051)) Config.no_tls]
    (Some (Config.mkDynamic ["Org3MSP"] (Some (Config.mkEndpoint "resolver" 7000))
             Config.no_tls Config.no_tls 0)).

Definition ex_remote_call (req : Ccr.ResolveRequest) : result Ccr.ResolveResponse :=
  Ok (Ccr.mkResolveResponse true "" "" "" 0 [Ccr.mkCandidate "" "i1" "org3:7051" "" ∅]).

Definition ex_remote_request (target : string) : Collect.remoteOrchestratorResolveRequest :=
  Collect.mkResolveRequest "Org1MSP" target "ch" "ns" "asset" "1.0" 0.

Definition ex_new : Network.net * result resolvers :=
  @newRemoteOrchestratorResolver Ccr.ex_network Network.no_connections ex_remote_config [].

Definition ex_resolved : Network.net * resolvers :=
  match ex_new.2 with
  | Ok r => (@Resolve Ccr.ex_network ex_remote_call ex_new.1 r (ex_remote_request "Org3MSP")).1
  | Err _ => (ex_new.1, mkResolvers None None)
  end.

Lemma ex_plain : plain_names ex_remote_config.
Proof. intros d [= <-]. repeat constructor. Qed.

Lemma resolver_releases_witness :
  Network.opened ex_resolved.1 = [0; 1; 2]%nat ∧
  Network.opened (@Close Ccr.ex_network ["Org2MSP"] ["Org3MSP|org3:7051"] ex_resolved.1 ex_resolved.2).1.1 ≡ₚ [].
Proof.
  split; [vm_compute; reflexivity|].
  destruct ex_new as [n' [r|e]] eqn:E; [|vm_compute in E; discriminate E].
  refine (@resolver_releases Ccr.ex_network Network.no_connections ex_remote_config [] n' (Ok r) _ ex_plain E
    ex_resolved.1 ex_resolved.2 ["Org2MSP"] ["Org3MSP|org3:7051"] _ _).
  - constructor.
  - apply rtc_once.
    assert (Hr : ex_resolved = (@Resolve Ccr.ex_network ex_remote_call n' r (ex_remote_request "Org3MSP")).1)
      by (unfold ex_resolved; by rewrite E).
    rewrite Hr. destruct (@Resolve Ccr.ex_network ex_remote_call n' r _) as [[n2 r2] out] eqn:HR.
    by apply (@use_Resolve Ccr.ex_network ex_remote_call n' r (ex_remote_request "Org3MSP") n2 r2 out).
  - split.
    + intros m Hm.
      assert (Hk : keys <$> static ex_resolved.2 = Some ["Org2MSP"]) by (vm_compute; reflexivity).
      rewrite Hm in Hk. injection Hk as Hk. by rewrite Hk.
    + intros d m Hd Hm.
      assert (Hk : (d ← dynamic ex_resolved.2; keys <$> contacts d) = Some ["Org3MSP|org3:7051"])
        by (vm_compute; reflexivity).
      rewrite Hd in Hk. cbn [mbind option_bind] in Hk. rewrite Hm in Hk. injection Hk as Hk.
      by rewrite Hk.
Defined.

Lemma resolved_contacts_witness :
  ∃ n r n3 r3 c, ex_new = (n, Ok r) ∧
    @Resolve Ccr.ex_network ex_remote_call n r (ex_remote_request "Org3MSP") = (n3, r3, Some (Ok (Some [c]))) ∧
    c_mspID c = "Org3MSP" ∧ c_address c = "org3:7051".
Proof.
  destruct ex_new as [n [r|e]] eqn:E; [|vm_compute in E; discriminate E].
  destruct (@Resolve Ccr.ex_network ex_remote_call n r (ex_remote_request "Org3MSP"))
    as [[n3 r3] out] eqn:HR.
  destruct (@resolved_contacts Ccr.ex_network Network.no_connections ex_remote_config [] n r n r
    ex_remote_call (ex_remote_request "Org3MSP") n3 r3 out ltac:(constructor) ex_plain E (rtc_refl _ _) HR)
    as (x & Hx & Hl).
  assert (Hc : x = Ok (Some [mkContact "Org3MSP" "org3:7051"
    (Some (Network.mkPeer 2 (Config.mkPeerConf "org3:7051" Config.no_tls)))])).
  { vm_compute in E. injection E as <- <-. vm_compute in HR. injection HR as _ _ <-. by injection Hx as <-. }
  destruct (Hl _ Hc) as (_ & _ & Hall). rewrite Hc in Hx.
  exists n, r, n3, r3. eexists. split; [done|]. split; [rewrite HR, Hx; reflexivity|]. apply Forall_inv in Hall as [Hm _].
  split; [exact Hm|reflexivity].
Defined.

Lemma endpointFromAddress_Address_witness :
  endpointFromAddress "[::1]:7051" = Ok (Config.mkEndpoint "::1" 7051).
Proof.
  apply (endpointFromAddress_Address (Config.mkEndpoint "::1" 7051)); [reflexivity|reflexivity|].
  unfold is_int64. simpl. lia.
Defined.

End Remote.
