(* ===== verification/Startup.v ===== *)
(** Starting and closing the orchestrator: [NewWithLoggers] and [Close] of
    [orchestrator/service.go], with [helper.NewWithSigner], [newFabricXSubmitter] and
    [shim.NewConnector].

    The state is the set of open connections ([Network.net]) and whether the lifecycle database is
    open, so that what a failed start or a [Close] leaves behind can be stated.  The signer, the
    files it reads, the database driver, the classic Fabric submitter and the outcome of the
    synchronization ([LedgerSync.syncLifecycleFromLedger]) are arguments; a result [None] is a
    panic. *)
From Stdlib Require Import ZArith Lia.
From stdpp Require Import base option list strings gmap sets relations.
From S2P Require Import Prelude LifecycleStore OrchestratorTypes GoStrings Json Proto Msp Auth LifecycleAuth.
From S2P Require Import Instances Collect Config Network ChaincodeResolver Binding RemoteResolver.

Module Startup.

(** ** State and arguments *)

(** The open connections, and whether the lifecycle database is open. *)
Record world := mkWorld { w_net : Network.net; w_db : bool }.

Section Startup.
Context {NL : Network.NetworkLib} {L : Msp.MSPLib}.

(** What a start meets outside the repository. *)
Record start_env := mkStartEnv {
  st_now : Z;
  st_ReadFile : string → result bytes;
  st_MarshalIdentity : string → bytes → result bytes;
  (** [identity.SignerFromMSP]: the serialized identity of the signer. *)
  st_signer : string → string → result (result bytes);
  st_store : option goerr;
  st_fabric_submitter : Network.net → Network.net * result (list Network.Peer);
  st_sync : option goerr }.

(** The connections and parts a service holds. *)
Record Service := mkService {
  sv_proposalAuth : Auth.proposalVerifier;
  sv_lifecycleAuth : LifecycleAuth.Authorizer;
  sv_queryPeer : Network.Peer;
  sv_helper : Network.Peer;
  sv_submitter : list Network.Peer;
  sv_notifier : option Network.Peer;
  sv_resolver : option Ccr.chaincodeConnectionResolvers;
  sv_connector : option string;
  sv_remotes : Remote.resolvers }.

(** ** Construction *)

(** Everything before the first connection. *)
Definition prepare (cfg : Config.Config) (e : start_env)
    : result (Auth.proposalVerifier * LifecycleAuth.Authorizer) :=
  match Config.Validate cfg, Config.Identity cfg with
  | Some er, _ => Err er
  | None, None => Err (ENew "panic: validated")
  | None, Some id =>
      auth ← Msp.wrap_err "configure proposal authentication: %w" (Auth.newProposalVerifier (Config.ProposalAuth cfg));
      serialize ← Msp.wrap_err "load identity: %w" (st_signer e (Config.MSPDir id) (Config.MspID id));
      lauth ← Msp.wrap_err "configure lifecycle authorization: %w"
        (LifecycleAuth.NewAuthorizer (st_ReadFile e) (st_MarshalIdentity e) (Auth.trust auth)
           (Config.ChannelID cfg) (Config.MspID id) (Config.LifecycleAuthConfig cfg) (st_now e));
      creator ← serialize;
      LifecycleAuth.ValidateOrchestrator lauth creator (st_now e);;
      Ok (auth, lauth)
  end.

(** [shim.NewConnector] for a configured chaincode service. *)
Definition new_connector (c : Config.ChaincodeServiceConfig) : result (option string) :=
  match Config.cs_Endpoint c with
  | None => Ok None
  | Some _ =>
      if bool_decide (Config.ChaincodeServiceConfig_Address c = "")
      then Err (EWrap "create shim connector: %w" (ENew "chaincode service endpoint is required"))
      else Ok (Some (Config.ChaincodeServiceConfig_Address c))
  end.

(** [lifecycle.NewMemoryStore]. *)
Definition NewMemoryStore (e : start_env) (channelID : string) : result () :=
  if bool_decide (channelID = "") then Err (ENew "channel ID is required")
  else match st_store e with Some er => Err er | None => Ok () end.

(** [helper.NewWithSigner]: the helper's own connection to the Query Service. *)
Definition NewWithSigner (n : Network.net) (protocol : string) (query : Config.PeerConf)
    : Network.net * result Network.Peer :=
  if negb (bool_decide (protocol = "fabric-x"))
  then (n, Err (ENew "protocol %q is not supported by stateless helper"))
  else match Network.NewPeer n query with
       | (n, Err er) => (n, Err (EWrap "query service: %w" er))
       | r => r
       end.

(** [Close] of the helper, which forgets its connection. *)
Definition helper_Close (n : Network.net) (queryPeer : option Network.Peer)
    : Network.net * option Network.Peer * option goerr :=
  match queryPeer with
  | Some p => let '(n, e) := Network.close_peer n p in (n, None, e)
  | None => (n, None, None)
  end.

(** The submitter of the configured protocol. *)
Definition new_submitter (n : Network.net) (e : start_env) (protocol : string) (orderer : Config.PeerConf)
    : Network.net * result (list Network.Peer) :=
  if bool_decide (protocol = "fabric")
  then let '(n, r) := st_fabric_submitter e n in (n, Msp.wrap_err "create submitter: %w" r)
  else if bool_decide (protocol = "fabric-x") || bool_decide (protocol = "")
  then
    match Network.NewPeer n orderer with
    | (n, Err er) => (n, Err (EWrap "create submitter: %w" er))
    | (n, Ok p) => (n, Ok [p])
    end
  else (n, Err (ENew "unknown protocol %q: must be 'fabric' or 'fabric-x'")).

Definition new_notifier (n : Network.net) (c : option Config.ClientConfig)
    : option (Network.net * result (option Network.Peer)) :=
  match c with
  | None => Some (n, Ok None)
  | Some c =>
      conf ← Config.ToPeerConf c;
      Some (match Network.NewPeer n conf with
            | (n, Err er) => (n, Err (EWrap "notification service: %w" er))
            | (n, Ok p) => (n, Ok (Some p))
            end)
  end.

(** The peers of a chaincode resolver. *)
Definition resolver_peers (r : option Ccr.chaincodeConnectionResolvers) : list Network.Peer :=
  match r ≫= Ccr.dynamic with Some d => [Ccr.g_peer d] | None => [] end.

(** A failed stage: what is closed, the database too when it is open, and the error. *)
Definition failed {A} (n : Network.net) (ps : list Network.Peer) (er : goerr) : world * result A :=
  (mkWorld (Network.close_peers n ps).1 false, Err er).

(** From the helper to the end, with the stages before it done. *)
Definition start_remotes (cfg : Config.Config) (n : Network.net) (svc : Remote.resolvers → Service)
    (held : list Network.Peer) : world * result Service :=
  match Remote.newRemoteOrchestratorResolver n (Config.RemoteResolver cfg) (Config.RemoteOrgs cfg) with
  | (n, Err er) => failed n held (EWrap "create remote orchestrator resolver: %w" er)
  | (n, Ok remotes) => (mkWorld n true, Ok (svc remotes))
  end.

(** The held connections are listed in the order they are closed. *)
Definition start_services (cfg : Config.Config) (e : start_env) (n : Network.net)
    (auths : Auth.proposalVerifier * LifecycleAuth.Authorizer) (queryPeer : Network.Peer)
    (query orderer : Config.PeerConf) (connector : option string)
    (resolver : option Ccr.chaincodeConnectionResolvers) : option (world * result Service) :=
  match NewWithSigner n (Config.Protocol cfg) query with
  | (n, Err er) => Some (failed n [queryPeer] (EWrap "create internal helper: %w" er))
  | (n, Ok helper) =>
      match new_submitter n e (Config.Protocol cfg) orderer with
      | (n, Err er) => Some (failed n [helper; queryPeer] er)
      | (n, Ok submitter) =>
          notified ← new_notifier n (Config.NotificationSvc cfg);
          Some (match notified with
                | (n, Err er) => failed n (submitter ++ [helper; queryPeer]) er
                | (n, Ok notifier) =>
                    start_remotes cfg n
                      (mkService auths.1 auths.2 queryPeer helper submitter notifier resolver connector)
                      (resolver_peers resolver ++ option_list notifier ++ submitter ++ [helper; queryPeer])
                end)
      end
  end.

(** [Close] of a service, without waiting for the recovery pass.  [so] and [dor] enumerate the
    maps of the remote resolver. *)
Definition Close (so dor : list string) (w : world) (s : Service) : world * option goerr :=
  let '(n, errs) := Network.close_peers (w_net w)
    (sv_submitter s ++ [sv_helper s; sv_queryPeer s] ++ option_list (sv_notifier s) ++
     resolver_peers (sv_resolver s)) in
  let '(n, _, err) := Remote.Close so dor n (sv_remotes s) in
  (mkWorld n false, Config.errors_Join (errs ++ option_list err)).

(** The construction without the synchronization. *)
Definition construct (cfg : Config.Config) (e : start_env) (n : Network.net)
    : option (world * result Service) :=
  match prepare cfg e with
  | Err er => Some (mkWorld n false, Err er)
  | Ok auths =>
      query ← Config.ToPeerConf (Config.QueryService cfg);
      match Network.NewPeer n query with
      | (n, Err er) => Some (mkWorld n false, Err (EWrap "query service: %w" er))
      | (n, Ok queryPeer) =>
          match new_connector (Config.ChaincodeSvc cfg) with
          | Err er => Some (failed n [queryPeer] er)
          | Ok connector =>
              match NewMemoryStore e (Config.ChannelID cfg) with
              | Err er => Some (failed n [queryPeer] (EWrap "create lifecycle store: %w" er))
              | Ok _ =>
                  match Ccr.newChaincodeConnectionResolver n (Config.ChaincodeResolver cfg) with
                  | (n, Err er) => Some (failed n [queryPeer] (EWrap "create chaincode resolver: %w" er))
                  | (n, Ok resolver) =>
                      orderer ← Config.Orderer cfg ≫= Config.ToPeerConf;
                      start_services cfg e n auths queryPeer query orderer connector resolver
                  end
              end
          end
      end
  end.

Definition NewWithLoggers (so dor : list string) (cfg : Config.Config) (e : start_env) (n : Network.net)
    : option (world * result Service) :=
  '(w, r) ← construct cfg e n;
  Some (match r, st_sync e with
        | Ok s, Some er => ((Close so dor w s).1, Err (EWrap "sync lifecycle from ledger: %w" er))
        | r, _ => (w, r)
        end).

End Startup.

(** Closing the helper twice closes its connection once, as [Close] of the service does. *)
Lemma helper_Close_twice {NL : Network.NetworkLib} n p :
  let '(n1, q1, e1) := helper_Close n (Some p) in
  n1 = (Network.close_peers n [p]).1 ∧ helper_Close n1 q1 = (n1, None, None).
Proof. unfold helper_Close. cbn [Network.close_peers]. by destruct (Network.close_peer n p). Qed.

(** ** What a start holds *)

Section Held.
Context {NL : Network.NetworkLib} {L : Msp.MSPLib}.

Lemma filter_keep {A} (Q : A → Prop) `{∀ x, Decision (Q x)} l : Forall Q l → filter Q l = l.
Proof. induction 1 as [|x l Hx _ IH]; [done|]. by rewrite filter_cons_True, IH. Qed.

Lemma filter_drop {A} (Q : A → Prop) `{∀ x, Decision (Q x)} l : Forall (λ x, ¬ Q x) l → filter Q l = [].
Proof. induction 1 as [|x l Hx _ IH]; [done|]. by rewrite filter_cons_False. Qed.

(** The connections made since [base] and still open are those of [ps], all different. *)
Definition held (base n : Network.net) (ps : list Network.Peer) : Prop :=
  Remote.owns base n ps ∧ NoDup (map Network.peer_id ps).

#[local] Instance held_perm base n : Proper ((≡ₚ) ==> iff) (held base n).
Proof.
  intros ps qs H. assert (Hm : map Network.peer_id ps ≡ₚ map Network.peer_id qs) by by apply Permutation_map.
  split; intros [Ho Hd]; (split; [by eapply Remote.owns_perm; [|exact Ho]|]).
  - by rewrite <- Hm.
  - by rewrite Hm.
Qed.

Lemma held_none base : Network.net_ok base → held base base [].
Proof. split; [by apply Remote.owns_none|constructor]. Qed.

Lemma held_new base n ps conf n' p :
  held base n ps → Network.NewPeer n conf = (n', Ok p) → held base n' (p :: ps).
Proof.
  intros [Ho Hd] Hp. destruct (Remote.NewPeer_owns base n ps conf n' p Ho Hp) as [Ho' _].
  split; [eapply Remote.owns_perm; [|exact Ho']; by rewrite Permutation_app_comm|].
  cbn. constructor; [|done]. intros Hin.
  destruct Ho as [Hok _ Hopen _]. destruct (Network.NewPeer_ok n conf n' p Hok Hp) as (_ & _ & Hid & _).
  assert (Hin' : Network.peer_id p ∈ Network.opened n).
  { rewrite Hopen. apply elem_of_app. by right. }
  unfold Network.net_ok in Hok. rewrite Forall_forall in Hok. apply Hok in Hin'. lia.
Qed.

Lemma held_new_err base n ps conf n' e :
  held base n ps → Network.NewPeer n conf = (n', Err e) → held base n' ps.
Proof. intros [Ho Hd] Hp. split; [by eapply Remote.NewPeer_owns_err|done]. Qed.

(** Closing some of the connections leaves the others. *)
Lemma held_close base n ps qs :
  Network.net_ok base → held base n (ps ++ qs) → held base (Network.close_peers n ps).1 qs.
Proof.
  intros Hb [[H1 H2 H3 H4] Hd]. rewrite map_app in Hd. apply NoDup_app in Hd as (_ & Hdisj & Hdq).
  apply Forall_app in H4 as [Hps Hqs]. destruct (Network.close_peers_opened n ps) as [Hm Ho].
  split; [|done]. constructor; [by apply Network.closed_ok|by rewrite Hm| |done].
  rewrite Ho, H3, map_app, !filter_app.
  rewrite (filter_keep _ (Network.opened base)), (filter_drop _ (map Network.peer_id ps)),
    (filter_keep _ (map Network.peer_id qs)); [done| | |].
  - apply Forall_forall. intros i Hi Hp. by apply (Hdisj i).
  - apply Forall_forall. auto.
  - apply Forall_forall. intros i Hi (p & -> & Hp)%list_elem_of_fmap_1.
    unfold Network.net_ok in Hb. rewrite Forall_forall in Hb. rewrite Forall_forall in Hps. apply Hb in Hi. apply Hps in Hp. lia.
Qed.

(** Connections made on top of held ones. *)
Lemma held_on_top base mid n ps qs :
  held base mid ps → Remote.owns mid n qs → NoDup (map Network.peer_id qs) → held base n (ps ++ qs).
Proof.
  intros [[H1 H2 H3 H4] Hd] [G1 G2 G3 G4] Hdq. split.
  - constructor; [done|lia| |].
    + rewrite G3, H3, map_app. by rewrite app_assoc.
    + apply Forall_app; split; [done|]. eapply Forall_impl; [exact G4|]. simpl. lia.
  - rewrite map_app. apply NoDup_app. split_and!; [done| |done].
    intros i Hi (q & -> & Hq)%list_elem_of_fmap_1. rewrite Forall_forall in G4. apply G4 in Hq.
    assert (Hin : Network.peer_id q ∈ Network.opened mid) by (rewrite H3; apply elem_of_app; by right).
    unfold Network.net_ok in H1. rewrite Forall_forall in H1. apply H1 in Hin. lia.
Qed.

Lemma close_frame mid n qs frame :
  Remote.owns mid n qs → Forall (λ p, Network.peer_id p < Network.made mid) frame →
  Network.net_ok mid →
  Remote.owns (Network.close_peers mid frame).1 (Network.close_peers n frame).1 qs.
Proof.
  intros [G1 G2 G3 G4] Hf Hm. destruct (Network.close_peers_opened mid frame) as [Em Eo].
  destruct (Network.close_peers_opened n frame) as [En Eo']. constructor.
  - by apply Network.closed_ok.
  - by rewrite Em, En.
  - rewrite Eo, Eo', G3, filter_app. f_equiv. rewrite filter_keep; [done|].
    apply Forall_forall. intros i (q & -> & Hq)%list_elem_of_fmap_1 (p & E & Hp)%list_elem_of_fmap_1.
    rewrite Forall_forall in G4. rewrite Forall_forall in Hf. apply G4 in Hq. apply Hf in Hp. lia.
  - by rewrite Em.
Qed.

Lemma held_below base n ps : held base n ps → Forall (λ p, Network.peer_id p < Network.made n) ps.
Proof.
  intros [[H1 _ H3 _] _]. apply Forall_forall. intros p Hp. unfold Network.net_ok in H1.
  rewrite Forall_forall in H1. apply H1. rewrite H3. apply elem_of_app. right. by apply list_elem_of_fmap_2.
Qed.

(** The connections of a service other than its remote resolver's, in the order of [Close]. *)
Definition frame (s : Service) : list Network.Peer :=
  sv_submitter s ++ [sv_helper s; sv_queryPeer s] ++ option_list (sv_notifier s) ++
  resolver_peers (sv_resolver s).

(** A running service: what it holds besides what was open before. *)
Definition running (base : Network.net) (w : world) (s : Service) : Prop :=
  ∃ mid, Network.net_ok mid ∧ held base mid (frame s) ∧ Remote.resolvers_ok mid (w_net w) (sv_remotes s).

Lemma Close_releases base so dor w s :
  Network.net_ok base → running base w s → Remote.visits so dor (sv_remotes s) →
  Network.opened (w_net (Close so dor w s).1) ≡ₚ Network.opened base ∧ w_db (Close so dor w s).1 = false.
Proof.
  intros Hb (mid & Hmid & Hframe & [Ho Hs Hd]) Hv. unfold Close. fold (frame s).
  pose proof (close_frame mid (w_net w) _ (frame s) Ho (held_below _ _ _ Hframe) Hmid) as Ho'.
  destruct (Network.close_peers (w_net w) (frame s)) as [n errs]. cbn [fst] in Ho'.
  assert (Hr : Remote.resolvers_ok (Network.close_peers mid (frame s)).1 n (sv_remotes s)) by by constructor.
  pose proof (Remote.Close_owns _ so dor n (sv_remotes s) (Network.closed_ok _ _ Hmid) Hr Hv) as [_ _ Hopen _].
  destruct (Remote.Close so dor n (sv_remotes s)) as [[n' r'] err]. cbn [fst w_net w_db] in *.
  split; [|done]. rewrite Hopen, app_nil_r.
  assert (Hc : held base (Network.close_peers mid (frame s)).1 []).
  { apply held_close; [done|]. by rewrite app_nil_r. }
  destruct Hc as [[_ _ Hc _] _]. rewrite Hc. cbn. by rewrite app_nil_r.
Qed.

Lemma new_submitter_spec base n e protocol orderer ps n' r :
  protocol = "fabric-x" → held base n ps → new_submitter n e protocol orderer = (n', r) →
  match r with Ok sub => held base n' (sub ++ ps) | Err _ => held base n' ps end.
Proof.
  intros -> Hh. unfold new_submitter. cbn.
  destruct (Network.NewPeer n orderer) as [n1 [p|er]] eqn:Hp; intros [= <- <-].
  - by eapply held_new.
  - by eapply held_new_err.
Qed.

Lemma new_notifier_spec base n c ps n' r :
  held base n ps → new_notifier n c = Some (n', r) →
  match r with Ok p => held base n' (option_list p ++ ps) | Err _ => held base n' ps end.
Proof.
  intros Hh. unfold new_notifier. destruct c as [c|]; [|by intros [= <- <-]].
  destruct (Config.ToPeerConf c) as [conf|]; cbn [mbind option_bind]; [|done].
  destruct (Network.NewPeer n conf) as [n1 [p|er]] eqn:Hp; intros [= <- <-].
  - by eapply held_new.
  - by eapply held_new_err.
Qed.

Lemma start_services_spec base cfg e n auths queryPeer query orderer connector resolver w out :
  Network.net_ok base → Remote.plain_names (Config.RemoteResolver cfg) →
  held base n (queryPeer :: resolver_peers resolver) →
  start_services cfg e n auths queryPeer query orderer connector resolver = Some (w, out) →
  match out with
  | Ok s => Config.Protocol cfg = "fabric-x" ∧ w_db w = true ∧ running base w s
  | Err _ => w_db w = false ∧
      (held base (w_net w) [] ∨ held base (w_net w) (resolver_peers resolver))
  end.
Proof.
  intros Hb Hn Hh. unfold start_services, NewWithSigner. set (dyn := resolver_peers resolver) in *.
  case_bool_decide as Hprot; cbn [negb].
  2:{ intros [= <- <-]. split; [done|]. right. exact (held_close base n [queryPeer] dyn Hb Hh). }
  destruct (Network.NewPeer n query) as [n1 [helper|er]] eqn:Hp.
  2:{ intros [= <- <-]. split; [done|]. right.
      exact (held_close base n1 [queryPeer] dyn Hb (held_new_err _ _ _ _ _ _ Hh Hp)). }
  apply (held_new base) with (ps := queryPeer :: dyn) in Hp; [|done].
  destruct (new_submitter n1 e (Config.Protocol cfg) orderer) as [n2 [sub|er]] eqn:Hsub;
    apply (new_submitter_spec base) with (ps := helper :: queryPeer :: dyn) in Hsub; try done.
  2:{ intros [= <- <-]. split; [done|]. right. exact (held_close base n2 [helper; queryPeer] dyn Hb Hsub). }
  destruct (new_notifier n2 (Config.NotificationSvc cfg)) as [[n3 [nt|er]]|] eqn:Hnt;
    cbn [mbind option_bind]; [| |done]; eapply new_notifier_spec in Hnt; try exact Hsub.
  2:{ intros [= <- <-]. split; [done|]. right.
      apply (held_close base n3 (sub ++ [helper; queryPeer]) dyn Hb). by rewrite <- app_assoc. }
  intros H. injection H as H. unfold start_remotes in H.
  assert (Hall : held base n3 (dyn ++ option_list nt ++ sub ++ [helper; queryPeer])).
  { eapply held_perm; [|exact Hnt]. rewrite (Permutation_app_comm dyn), <- !app_assoc. done. }
  destruct (Remote.newRemoteOrchestratorResolver n3 _ _) as [n4 [remotes|er]] eqn:Hr;
    apply Remote.new_resolvers_spec in Hr; try done; try apply Hall.
  - injection H as <- <-. split_and!; [done|done|]. exists n3. split_and!; [apply Hall| |exact Hr].
    eapply held_perm; [|exact Hall]. unfold frame. cbn [sv_submitter sv_helper sv_queryPeer sv_notifier sv_resolver].
    fold dyn. rewrite (Permutation_app_comm dyn), <- !app_assoc.
    rewrite (Permutation_app_swap_app (option_list nt)). f_equiv. rewrite (Permutation_app_swap_app (option_list nt)).
    done.
  - injection H as <- <-. split; [done|]. left. cbn [w_net]. apply held_close; [done|]. rewrite app_nil_r.
    rewrite <- (app_nil_r (dyn ++ _)). apply (held_on_top base n3 n4 _ []); [exact Hall|exact Hr|constructor].
Qed.

Definition with_remotes (r : Remote.resolvers) (s : Service) : Service :=
  mkService (sv_proposalAuth s) (sv_lifecycleAuth s) (sv_queryPeer s) (sv_helper s) (sv_submitter s)
    (sv_notifier s) (sv_resolver s) (sv_connector s) r.

(** The remote resolver may be used while the service runs. *)
Lemma running_used base w s n r :
  running base w s → rtc Remote.use (w_net w, sv_remotes s) (n, r) →
  running base (mkWorld n true) (with_remotes r s).
Proof.
  intros (mid & Hm & Hf & Hr) Hu. exists mid. split_and!; [done|exact Hf|].
  exact (Remote.uses_kept mid _ _ Hu Hr).
Qed.

Lemma new_resolver_spec base n cfg ps n' r :
  held base n ps → Ccr.newChaincodeConnectionResolver n cfg = (n', r) →
  match r with
  | Ok r => held base n' (resolver_peers r ++ ps) ∧ (resolver_peers r ≠ [] → is_Some (Config.cr_Dynamic cfg)) ∧
      (length (resolver_peers r) ≤ 1)%nat
  | Err _ => held base n' ps
  end.
Proof.
  intros Hh. unfold Ccr.newChaincodeConnectionResolver.
  destruct (match Config.cr_Static cfg with [] => _ | _ => _ end) as [st|er]; [|by intros [= <- <-]].
  destruct (Config.cr_Dynamic cfg) as [d|].
  - unfold Ccr.newGRPCChaincodeResolver. destruct (Config.dyn_Endpoint d) as [ep|]; [|by intros [= <- <-]].
    destruct (Network.NewPeer n _) as [n1 [p|er]] eqn:Hp; intros [= <- <-].
    + split_and!; [by eapply held_new|by eexists|done].
    + by eapply held_new_err.
  - destruct st as [l|]; intros [= <- <-]; (split_and!; [done|by intros []|cbn; lia]).
Qed.

Lemma validated cfg e auths :
  prepare cfg e = Ok auths →
  is_Some (Config.ToPeerConf (Config.QueryService cfg)) ∧
  is_Some (Config.Orderer cfg ≫= Config.ToPeerConf) ∧
  (∃ c, Config.NotificationSvc cfg = Some c ∧ is_Some (Config.ToPeerConf c)).
Proof.
  unfold prepare. destruct (Config.Validate cfg) as [er|] eqn:Hv; [done|]. intros _.
  unfold Config.Validate in Hv. apply Config.errors_Join_none in Hv.
  rewrite !app_nil, !Config.check_nil in Hv. destruct Hv as (_ & _ & _ & _ & _ & Hq & Ho & Hn & _).
  unfold Config.ToPeerConf, Config.is_nil in *. split_and!.
  - destruct (Config.cl_Endpoint (Config.QueryService cfg)); [by eexists|done].
  - destruct (Config.Orderer cfg) as [c|]; [|done]. cbn in *. destruct (Config.cl_Endpoint c); [by eexists|done].
  - destruct (Config.NotificationSvc cfg) as [c|]; [|done]. exists c. split; [done|].
    cbn in *. destruct (Config.cl_Endpoint c); [by eexists|done].
Qed.

Lemma start_services_returns cfg e n auths queryPeer query orderer connector resolver :
  (∃ c, Config.NotificationSvc cfg = Some c ∧ is_Some (Config.ToPeerConf c)) →
  is_Some (start_services cfg e n auths queryPeer query orderer connector resolver).
Proof.
  intros (c & Hc & conf & Hconf). unfold start_services.
  destruct (NewWithSigner n _ query) as [n1 [helper|er]]; [|by eexists].
  destruct (new_submitter n1 e _ orderer) as [n2 [sub|er]]; [|by eexists].
  unfold new_notifier. rewrite Hc, Hconf. cbn. by eexists.
Qed.

(** What the construction leaves open. *)
Definition left_open (cfg : Config.Config) (base : Network.net) (w : world) : Prop :=
  w_db w = false ∧
  (Network.opened (w_net w) ≡ₚ Network.opened base ∨
   ∃ i, is_Some (Config.cr_Dynamic (Config.ChaincodeResolver cfg)) ∧
     Network.opened (w_net w) ≡ₚ Network.opened base ++ [i]).

Lemma held_nothing base n : held base n [] → Network.opened n ≡ₚ Network.opened base.
Proof. intros [[_ _ H _] _]. rewrite H. cbn. by rewrite app_nil_r. Qed.

Lemma construct_spec cfg e n :
  Network.net_ok n → Remote.plain_names (Config.RemoteResolver cfg) →
  ∃ w out, construct cfg e n = Some (w, out) ∧
    match out with
    | Ok s => Config.Protocol cfg = "fabric-x" ∧ w_db w = true ∧ running n w s
    | Err _ => left_open cfg n w
    end.
Proof.
  intros Hb Hn. unfold construct. pose proof (held_none n Hb) as H0.
  destruct (prepare cfg e) as [auths|er] eqn:Hprep; [|do 2 eexists; split; [done|by split; [|left]]].
  destruct (validated cfg e auths Hprep) as ([query Hq] & [orderer Ho] & Hnt). rewrite Hq, Ho.
  cbn [mbind option_bind].
  destruct (Network.NewPeer n query) as [n1 [queryPeer|er]] eqn:Hp.
  2:{ do 2 eexists. split; [done|]. split; [done|]. left. by apply held_nothing, (held_new_err _ _ _ _ _ _ H0 Hp). }
  pose proof (held_new _ _ _ _ _ _ H0 Hp) as H1.
  assert (Hclose : ∀ n' er, held n n' [queryPeer] →
    ∃ w out, Some (failed (A := Service) n' [queryPeer] er) = Some (w, out) ∧
      match out with
      | Ok s => Config.Protocol cfg = "fabric-x" ∧ w_db w = true ∧ running n w s
      | Err _ => left_open cfg n w
      end).
  { intros n' er Hh. do 2 eexists. split; [done|]. split; [done|]. left.
    exact (held_nothing _ _ (held_close n n' [queryPeer] [] Hb Hh)). }
  destruct (new_connector (Config.ChaincodeSvc cfg)) as [connector|er]; [|by apply Hclose].
  destruct (NewMemoryStore e (Config.ChannelID cfg)) as [[]|er]; [|by apply Hclose].
  destruct (Ccr.newChaincodeConnectionResolver n1 _) as [n2 [resolver|er]] eqn:Hr;
    apply (new_resolver_spec n) with (ps := [queryPeer]) in Hr; [|done| |done]; [|by apply Hclose].
  destruct Hr as (H2 & Hdyn & Hlen).
  assert (H3 : held n n2 (queryPeer :: resolver_peers resolver)).
  { eapply held_perm; [|exact H2]. by rewrite Permutation_app_comm. }
  destruct (start_services_returns cfg e n2 auths queryPeer query orderer connector resolver Hnt)
    as [[w out] Hs]. exists w, out. split; [done|].
  apply (start_services_spec n) in Hs; [|done..]. destruct out as [s|er]; [done|].
  destruct Hs as [Hdb Hs]. split; [done|]. destruct Hs as [Hs|Hs]; [left; by apply held_nothing|].
  destruct (resolver_peers resolver) as [|p [|]] eqn:Ep; [left; by apply held_nothing| |cbn in Hlen; lia].
  right. exists (Network.peer_id p). split; [by apply Hdyn|]. destruct Hs as [[_ _ Hs _] _]. exact Hs.
Qed.

Lemma NewWithLoggers_spec so dor cfg e n :
  Network.net_ok n → Remote.plain_names (Config.RemoteResolver cfg) →
  (∀ w s, construct cfg e n = Some (w, Ok s) → Remote.visits so dor (sv_remotes s)) →
  ∃ w out, NewWithLoggers so dor cfg e n = Some (w, out) ∧
    match out with
    | Ok s => construct cfg e n = Some (w, Ok s) ∧ Config.Protocol cfg = "fabric-x" ∧ w_db w = true ∧ running n w s
    | Err _ => left_open cfg n w
    end.
Proof.
  intros Hb Hn Hv. destruct (construct_spec cfg e n Hb Hn) as (w & out & Hc & Hspec).
  unfold NewWithLoggers. rewrite Hc. cbn [mbind option_bind].
  destruct out as [s|er]; [|exists w, (Err er); split; [by destruct (st_sync e)|done]].
  destruct Hspec as (Hprot & Hdb & Hrun). destruct (st_sync e) as [er|]; [|by exists w, (Ok s)].
  do 2 eexists. split; [done|]. destruct (Close_releases n so dor w s Hb Hrun (Hv w s Hc)) as [Ho Hd].
  split; [exact Hd|]. by left.
Qed.

(** C29: Starting never panics and a start that fails leaves the database closed and no connection
    of its own open, except that of a configured dynamic chaincode resolver; a start that succeeds
    is of the one protocol the helper supports, and closing the service, however its remote
    resolver was used meanwhile, leaves open exactly the connections that were open before. *)
Theorem startup_releases so dor cfg e n :
  Network.net_ok n → Remote.plain_names (Config.RemoteResolver cfg) →
  (∀ w s, construct cfg e n = Some (w, Ok s) → Remote.visits so dor (sv_remotes s)) →
  ∃ w out, NewWithLoggers so dor cfg e n = Some (w, out) ∧
    match out with
    | Err _ => left_open cfg n w
    | Ok s => Config.Protocol cfg = "fabric-x" ∧ w_db w = true ∧
        ∀ n2 r2 so2 dor2, rtc Remote.use (w_net w, sv_remotes s) (n2, r2) →
          Remote.visits so2 dor2 r2 →
          let w2 := (Close so2 dor2 (mkWorld n2 true) (with_remotes r2 s)).1 in
          Network.opened (w_net w2) ≡ₚ Network.opened n ∧ w_db w2 = false
    end.
Proof.
  intros Hb Hn Hv. destruct (NewWithLoggers_spec so dor cfg e n Hb Hn Hv) as (w & out & Hnew & Hspec).
  exists w, out. split; [done|]. destruct out as [s|er]; [|done]. destruct Hspec as (_ & Hprot & Hdb & Hrun).
  split; [done|]. split; [done|]. intros n2 r2 so2 dor2 Hu Hv2.
  exact (Close_releases n so2 dor2 _ (with_remotes r2 s) Hb (running_used n w s n2 r2 Hrun Hu) Hv2).
Qed.

End Held.

(** ** Examples *)

Section Example.
#[local] Existing Instance Instances.example_msp.

Definition ex_start : start_env :=
  {| st_now := 50; st_ReadFile _ := Ok "orch"; st_MarshalIdentity m c := Ok (m +:+ ":" +:+ c);
     st_signer _ m := Ok (Ok (m +:+ ":orch")); st_store := None;
     st_fabric_submitter n := (n, Ok []); st_sync := None |}.

(** The example configuration with both resolvers. *)
Definition ex_startup_config : Config.Config :=
  let c := Config.ex_config in
  Config.mkConfig (Config.ChannelID c) (Config.Namespace c) (Config.LifecycleNamespace c)
    (Config.Protocol c) (Config.Server c) (Config.Identity c) (Config.QueryService c)
    (Config.ChaincodeSvc c) Ccr.ex_resolver_config (Config.Orderer c) (Config.NotificationSvc c)
    (Config.RemoteOrgs c) Remote.ex_remote_config (Config.ProposalAuth c)
    (Config.LifecycleAuthConfig c) 0 0 0.

Definition ex_started : option (world * result Service) :=
  @construct Ccr.ex_network Instances.example_msp ex_startup_config ex_start Network.no_connections.

Lemma ex_started_visits w s :
  ex_started = Some (w, Ok s) → Remote.visits ["Org2MSP"] [] (sv_remotes s).
Proof.
  intros Hs.
  assert (Hk : (Remote.keys <$> Remote.static (sv_remotes s), d ← Remote.dynamic (sv_remotes s); Remote.keys <$> Remote.contacts d)
    = (Some ["Org2MSP"], Some [])).
  { assert (Hk : match ex_started with
      | Some (_, Ok s) => Some (Remote.keys <$> Remote.static (sv_remotes s),
          d ← Remote.dynamic (sv_remotes s); Remote.keys <$> Remote.contacts d)
      | _ => None end = Some (Some ["Org2MSP"], Some [])) by (vm_compute; reflexivity).
    rewrite Hs in Hk. by injection Hk as [= -> ->]. }
  injection Hk as H1 H2. split.
  - intros m Hm. rewrite Hm in H1. by injection H1 as ->.
  - intros d m Hd Hm. rewrite Hd in H2. cbn in H2. rewrite Hm in H2. by injection H2 as ->.
Qed.

Lemma startup_releases_witness :
  ∃ w s, @NewWithLoggers Ccr.ex_network Instances.example_msp ["Org2MSP"] [] ex_startup_config ex_start
      Network.no_connections = Some (w, Ok s) ∧
    Network.opened (w_net w) = [0; 1; 2; 3; 4; 5; 6]%nat ∧
    Network.opened (w_net (@Close Ccr.ex_network Instances.example_msp ["Org2MSP"] [] (mkWorld (w_net w) true)
      (with_remotes (sv_remotes s) s)).1) ≡ₚ [].
Proof.
  destruct (@startup_releases Ccr.ex_network Instances.example_msp ["Org2MSP"] [] ex_startup_config ex_start
    Network.no_connections) as (w & out & E & H).
  - constructor.
  - exact Remote.ex_plain.
  - exact ex_started_visits.
  - assert (Hw : match @NewWithLoggers Ccr.ex_network Instances.example_msp ["Org2MSP"] [] ex_startup_config
        ex_start Network.no_connections with
      | Some (w, Ok _) => Some (Network.opened (w_net w)) | _ => None end = Some [0; 1; 2; 3; 4; 5; 6]%nat)
      by (vm_compute; reflexivity).
    rewrite E in Hw. destruct out as [s|er]; [|discriminate Hw]. injection Hw as Hw.
    exists w, s. split; [exact E|]. split; [exact Hw|].
    destruct H as (_ & _ & H).
    exact (proj1 (H (w_net w) (sv_remotes s) ["Org2MSP"] [] (rtc_refl _ _)
      (ex_started_visits w s ltac:(unfold ex_started; revert E; unfold NewWithLoggers;
         destruct (construct _ _ _) as [[w' [s'|er]]|]; cbn; intros [= -> ->]; reflexivity)))).
Defined.

(** A network on which one connection cannot be made. *)
Definition down (i : nat) : Network.NetworkLib :=
  {| Network.dial n _ := if Nat.eqb n i then Some (ENew "down") else None;
     Network.close_error _ := None |}.

(** The notification service is the fifth connection: when it cannot be reached, the connection
    of the chaincode resolver, the second, stays open. *)
Lemma notifier_down_leaks :
  match @construct (down 4) Instances.example_msp ex_startup_config ex_start Network.no_connections with
  | Some (w, Err er) => Some (Network.opened (w_net w), er)
  | _ => None
  end = Some ([1%nat], EWrap "notification service: %w" (ENew "down")).
Proof. vm_compute. reflexivity. Qed.

(** A configuration that omits the protocol, although valid, does not start. *)
Lemma omitted_protocol_refused :
  let c := ex_startup_config in
  let cfg := Config.mkConfig (Config.ChannelID c) (Config.Namespace c) (Config.LifecycleNamespace c)
    "" (Config.Server c) (Config.Identity c) (Config.QueryService c)
    (Config.ChaincodeSvc c) (Config.ChaincodeResolver c) (Config.Orderer c) (Config.NotificationSvc c)
    (Config.RemoteOrgs c) (Config.RemoteResolver c) (Config.ProposalAuth c)
    (Config.LifecycleAuthConfig c) 0 0 0 in
  Config.Validate cfg = None ∧
  match @construct Ccr.ex_network Instances.example_msp cfg ex_start Network.no_connections with
  | Some (w, Err er) => Some er
  | _ => None
  end = Some (EWrap "create internal helper: %w" (ENew "protocol %q is not supported by stateless helper")).
Proof. split; vm_compute; reflexivity. Qed.
End Example.

End Startup.
