(* ===== verification/RecoveryPass.v ===== *)
(** The background recovery passes of [orchestrator/execution.go]: [triggerReconciliation] and
    [stopReconciliation].

    The state is the fields under [recoveryMu], the wait group, the goroutines of the passes that
    are not over, and the callers of [stopReconciliation].  A section under the mutex is one step,
    and so is each operation of the wait group; steps of different goroutines interleave freely.
    What a pass does is [Submission.reconcilePendingBefore] and
    [Pending.reconcileLifecyclePending], statement by statement in [RecoveryShutdown.v].  A panic of
    the wait group is the outcome [None]. *)
From Stdlib Require Import ZArith Lia.
From stdpp Require Import base option list relations.
From S2P Require Import Prelude Config.
Local Open Scope Z_scope.

Module Passes.

(** ** State *)

(** A goroutine: working, with the time its records are older than; or past the section that
    clears [recoveryRunning], before [Done]. *)
Inductive phase : Type := Working (cutoff : Z) | Leaving.

(** The wait group: its counter and the callers blocked in [Wait]. *)
Record WaitGroup := mkWaitGroup { counter : Z; waiters : nat }.

(** [recoveryCtx] is whether the context is cancelled, [None] for a nil context.  [stopping] counts
    the callers of [stopReconciliation] before [Wait]; [stopped] tells that one returned. *)
Record recovery := mkRecovery {
  recoveryClosed : bool;
  recoveryRunning : bool;
  recoveryCtx : option bool;
  recoveryWait : WaitGroup;
  passes : list phase;
  stopping : nat;
  stopped : bool }.

(** A new service, with or without a context. *)
Definition initial (ctx : option bool) : recovery :=
  mkRecovery false false ctx (mkWaitGroup 0 0) [] 0 false.

(** ** The wait group *)

(** [Add(1)] and [Done]; the second result tells that the waiters are released. *)
Definition Add (delta : Z) (w : WaitGroup) : option (WaitGroup * bool) :=
  let v := counter w + delta in
  if v <? 0 then None
  else if negb (Nat.eqb (waiters w) 0) && (0 <? delta) && (v =? delta) then None
  else if (v =? 0) && negb (Nat.eqb (waiters w) 0) then Some (mkWaitGroup 0 0, true)
  else Some (mkWaitGroup v (waiters w), false).

(** [Wait]: whether it returns at once. *)
Definition Wait (w : WaitGroup) : WaitGroup * bool :=
  if counter w =? 0 then (w, true) else (mkWaitGroup (counter w) (S (waiters w)), false).

(** ** Operations *)

(** [triggerReconciliation]. *)
Definition triggerReconciliation (cutoff : Z) (s : recovery) : option recovery :=
  if recoveryClosed s || recoveryRunning s then Some s
  else
    '(w, _) ← Add 1 (recoveryWait s);
    Some (mkRecovery (recoveryClosed s) true (Some (default false (recoveryCtx s))) w
            (passes s ++ [Working cutoff]) (stopping s) (stopped s)).

(** [min(5*time.Second, s.cfg.finalityTimeout())], the time a pass may take. *)
Definition pass_timeout (cfg : Config.Config) : Z :=
  Z.min (5 * Config.second) (Config.finalityTimeout cfg).

(** A pass ends: the deferred section. *)
Definition leave (i : nat) (s : recovery) : recovery :=
  mkRecovery (recoveryClosed s) false (recoveryCtx s) (recoveryWait s)
    (<[i := Leaving]> (passes s)) (stopping s) (stopped s).

(** [recoveryWait.Done()]. *)
Definition finish (i : nat) (s : recovery) : option recovery :=
  '(w, released) ← Add (-1) (recoveryWait s);
  Some (mkRecovery (recoveryClosed s) (recoveryRunning s) (recoveryCtx s) w
          (delete i (passes s)) (stopping s) (stopped s || released)).

(** [stopReconciliation] up to its [Wait], and the [Wait]. *)
Definition stop (s : recovery) : recovery :=
  mkRecovery true (recoveryRunning s) ((λ _, true) <$> recoveryCtx s) (recoveryWait s)
    (passes s) (S (stopping s)) (stopped s).

Definition stop_wait (s : recovery) : recovery :=
  let '(w, returned) := Wait (recoveryWait s) in
  mkRecovery (recoveryClosed s) (recoveryRunning s) (recoveryCtx s) w (passes s)
    (Nat.pred (stopping s)) (stopped s || returned).

(** ** Interleavings *)

(** The steps of the goroutines of passes. *)
Inductive pass_step : recovery → recovery → Prop :=
  | step_leave i cutoff s :
      passes s !! i = Some (Working cutoff) → pass_step s (leave i s)
  | step_finish i s s' :
      passes s !! i = Some Leaving → finish i s = Some s' → pass_step s s'.

Inductive step : recovery → recovery → Prop :=
  | step_pass s s' : pass_step s s' → step s s'
  | step_trigger cutoff s s' : triggerReconciliation cutoff s = Some s' → step s s'
  | step_stop s : step s (stop s)
  | step_wait s : (0 < stopping s)%nat → step s (stop_wait s)
  | step_cancel s : step s (mkRecovery (recoveryClosed s) (recoveryRunning s) ((λ _, true) <$> recoveryCtx s)
      (recoveryWait s) (passes s) (stopping s) (stopped s)).

Definition reachable (s : recovery) : Prop := ∃ ctx, rtc step (initial ctx) s.

(** ** Invariant *)

Definition working (p : phase) : bool := match p with Working _ => true | Leaving => false end.

Definition workers (s : recovery) : nat := length (filter (λ p, working p = true) (passes s)).

Record recovery_ok (s : recovery) : Prop := {
  ro_running : workers s = if recoveryRunning s then 1%nat else 0%nat;
  ro_counter : counter (recoveryWait s) = Z.of_nat (length (passes s));
  ro_ctx : passes s ≠ [] → is_Some (recoveryCtx s);
  ro_closed_ctx : recoveryClosed s = true → recoveryCtx s ≠ Some false;
  ro_waiters : (0 < waiters (recoveryWait s))%nat → recoveryClosed s = true ∧ passes s ≠ [];
  ro_stopping : (0 < stopping s)%nat → recoveryClosed s = true;
  ro_stopped : stopped s = true → recoveryClosed s = true ∧ passes s = [] }.

Lemma recovery_initial ctx : recovery_ok (initial ctx).
Proof. constructor; cbn; solve [done|by intros []|intros; exfalso; lia]. Qed.

Lemma workers_insert i p q l :
  l !! i = Some p →
  (length (filter (λ p, working p = true) (<[i := q]> l)) + (if working p then 1 else 0) =
   length (filter (λ p, working p = true) l) + (if working q then 1 else 0))%nat.
Proof.
  intros Hi. rewrite insert_take_drop by by eapply lookup_lt_Some.
  
  replace (length (filter (λ p, working p = true) l)) with
    (length (filter (λ p, working p = true) (take i l ++ p :: drop (S i) l))) by by rewrite take_drop_middle.
  rewrite !filter_app, !length_app, !filter_cons.
  destruct p, q; cbn [working]; repeat case_decide; cbn; try done; lia.
Qed.

Lemma workers_delete i p l :
  l !! i = Some p →
  (length (filter (λ p, working p = true) (delete i l)) + (if working p then 1 else 0) =
   length (filter (λ p, working p = true) l))%nat.
Proof.
  intros Hi. rewrite delete_take_drop.
  replace (length (filter (λ p, working p = true) l)) with
    (length (filter (λ p, working p = true) (take i l ++ p :: drop (S i) l))) by by rewrite take_drop_middle.
  rewrite !filter_app, !length_app, filter_cons. destruct p; cbn [working]; repeat case_decide; cbn; try done; lia.
Qed.

(** Neither starting nor finishing a pass makes the wait group panic. *)
Lemma trigger_defined cutoff s : recovery_ok s → is_Some (triggerReconciliation cutoff s).
Proof.
  intros H. unfold triggerReconciliation. destruct (recoveryClosed s) eqn:Hc; [by eexists|].
  destruct (recoveryRunning s); [by eexists|]. cbn [orb]. unfold Add.
  pose proof (ro_counter s H) as Hn. pose proof (ro_waiters s H) as Hw.
  destruct (Z.ltb_spec (counter (recoveryWait s) + 1) 0); [lia|].
  destruct (waiters (recoveryWait s)); [|destruct Hw as [? _]; [lia|congruence]]. cbn.
  rewrite andb_false_r. by eexists.
Qed.

Lemma finish_defined i s : recovery_ok s → passes s !! i = Some Leaving → is_Some (finish i s).
Proof.
  intros H Hi. unfold finish, Add. rewrite (ro_counter s H). apply lookup_lt_Some in Hi.
  destruct (Z.ltb_spec (Z.of_nat (length (passes s)) + -1) 0); [lia|]. rewrite andb_false_r. cbn [andb].
  destruct (_ && _); by eexists.
Qed.

Lemma leave_ok i cutoff s : recovery_ok s → passes s !! i = Some (Working cutoff) → recovery_ok (leave i s).
Proof.
  intros [H1 H2 H3 H4 H5 H6 H7] Hi. pose proof (workers_insert i _ Leaving _ Hi) as Hw. unfold workers in H1.
  assert (Hne : passes s ≠ []) by (intros E; by rewrite E in Hi).
  constructor; unfold workers; cbn; rewrite ?length_insert; try done.
  - cbn in Hw. destruct (recoveryRunning s); lia.
  - intros _. auto.
  - intros Hwait. split; [by apply H5|]. intros E%(f_equal length). rewrite length_insert in E.
    by destruct (passes s).
  - intros Hs. by destruct (H7 Hs).
Qed.

Lemma finish_ok i s s' :
  recovery_ok s → passes s !! i = Some Leaving → finish i s = Some s' → recovery_ok s'.
Proof.
  intros [H1 H2 H3 H4 H5 H6 H7] Hi. pose proof (workers_delete i _ _ Hi) as Hw. unfold workers in H1.
  pose proof (length_delete (passes s) i ltac:(by rewrite Hi)) as Hlen.
  pose proof (lookup_lt_Some _ _ _ Hi) as Hlt. unfold finish, Add. rewrite H2.
  destruct (Z.ltb_spec (Z.of_nat (length (passes s)) + -1) 0); [lia|]. rewrite andb_false_r. cbn [andb].
  assert (Hst : stopped s = false).
  { destruct (stopped s) eqn:E; [|done]. destruct (H7 eq_refl) as [_ E2]. rewrite E2 in Hlt. cbn in Hlt. lia. }
  assert (Hnil : length (delete i (passes s)) = 0%nat → delete i (passes s) = []) by apply nil_length_inv.
  destruct (Z.eqb_spec (Z.of_nat (length (passes s)) + -1) 0) as [Hz|Hz]; cbn [andb].
  - destruct (Nat.eqb_spec (waiters (recoveryWait s)) 0) as [Ew|Ew]; cbn [negb mbind option_bind]; intros [= <-];
      constructor; unfold workers; cbn; rewrite ?Hst; try done; try lia; try (intros; congruence).
    + cbn in Hw. lia.
    + intros Hne. exfalso. apply Hne, Hnil. lia.
    + cbn in Hw. lia.
    + intros Hne. exfalso. apply Hne, Hnil. lia.
    + intros _. split; [apply H5; lia|]. apply Hnil. lia.
  - cbn [mbind option_bind]. intros [= <-]. constructor; unfold workers; cbn; rewrite ?Hst; try done; try lia.
    + cbn in Hw. lia.
    + intros _. apply H3. intros E. rewrite E in Hlt. cbn in Hlt. lia.
    + intros Hwt. split; [by apply H5|]. intros E. rewrite E in Hlen. cbn in Hlen. lia.
Qed.

Lemma trigger_ok cutoff s s' : recovery_ok s → triggerReconciliation cutoff s = Some s' → recovery_ok s'.
Proof.
  intros H. unfold triggerReconciliation. destruct (recoveryClosed s) eqn:Hc; [by intros [= <-]|].
  destruct (recoveryRunning s) eqn:Hr; [by intros [= <-]|]. cbn [orb]. destruct H as [H1 H2 H3 H4 H5 H6 H7].
  unfold workers in H1. rewrite Hr in H1. unfold Add. rewrite H2.
  destruct (Z.ltb_spec (Z.of_nat (length (passes s)) + 1) 0); [lia|].
  assert (Hw : waiters (recoveryWait s) = 0%nat).
  { destruct (waiters _); [done|]. destruct H5 as [? _]; [lia|congruence]. }
  rewrite Hw. cbn [Nat.eqb negb andb]. rewrite andb_false_r. cbn [mbind option_bind]. intros [= <-].
  constructor; unfold workers; cbn; rewrite ?filter_app, ?length_app; cbn; try done; try lia.
  - rewrite H1. done.
  - intros Hs. apply H6 in Hs. congruence.
  - intros Hs. destruct (H7 Hs) as [? _]. congruence.
Qed.

Lemma recovery_step s s' : recovery_ok s → step s s' → recovery_ok s'.
Proof.
  intros H Hs. revert H. destruct Hs as [s1 s2 Hp|cutoff s1 s2 Ht|s1|s1 Hp|s1]; intros H.
  - revert H. destruct Hp as [i cutoff s0 Hi|i s0 s3 Hi Hf]; intros H; [by eapply leave_ok|by eapply finish_ok].
  - by eapply trigger_ok.
  - destruct H as [H1 H2 H3 H4 H5 H6 H7]. constructor; cbn; try done.
    + intros Hne. destruct (H3 Hne) as [? ->]. by eexists.
    + by destruct (recoveryCtx s1).
    + intros Hw. split; [done|]. by apply H5.
    + intros Hs. split; [done|]. by apply H7.
  - destruct H as [H1 H2 H3 H4 H5 H6 H7]. unfold stop_wait, Wait.
    destruct (Z.eqb_spec (counter (recoveryWait s1)) 0) as [Hz|Hz]; constructor; cbn; try done.
    + intros Hs. apply H6. lia.
    + intros _. split; [by apply H6|]. apply nil_length_inv. lia.
    + intros _. split; [by apply H6|]. intros E. rewrite E in H2. cbn in H2. lia.
    + intros Hs. apply H6. lia.
    + rewrite orb_false_r. exact H7.
  - destruct H as [H1 H2 H3 H4 H5 H6 H7]. constructor; cbn; try done.
    + intros Hne. destruct (H3 Hne) as [? ->]. by eexists.
    + by destruct (recoveryCtx s1).
Qed.

Lemma recovery_reachable s : reachable s → recovery_ok s.
Proof.
  intros [ctx H]. assert (Hok : recovery_ok (initial ctx)) by apply recovery_initial.
  induction H as [|s1 s2 s3 Hs _ IH]; [done|]. by eapply IH, recovery_step.
Qed.

Lemma stopped_kept s s' : step s s' → stopped s = true → stopped s' = true.
Proof.
  intros Hst. destruct Hst as [s1 s2 Hp|cutoff s1 s2 Ht|s1|s1 Hp|s1]; intros Hs; try done.
  - revert Hs. destruct Hp as [i cutoff s0 Hi|i s0 s3 Hi Hf]; intros Hs; [done|]. unfold finish in Hf. destruct (Add _ _) as [[w r]|]; [|done]. injection Hf as <-. cbn. by rewrite Hs.
  - unfold triggerReconciliation in Ht. destruct (_ || _); [congruence|].
    destruct (Add _ _) as [[w r]|]; [|done]. by injection Ht as <-.
  - unfold stop_wait. destruct (Wait _). cbn. by rewrite Hs.
Qed.

(** ** Properties *)

(** C17: However triggers, passes and shutdowns interleave, at most one recovery pass works at a
    time and the wait group never panics; once the service stops, a pass that still works has its
    context cancelled; and once a shutdown has returned, no pass is left and none ever starts. *)
Theorem recovery_exclusive s :
  reachable s →
  (workers s ≤ 1)%nat ∧
  (∀ cutoff, is_Some (triggerReconciliation cutoff s)) ∧
  (∀ i, passes s !! i = Some Leaving → is_Some (finish i s)) ∧
  (recoveryClosed s = true → passes s ≠ [] → recoveryCtx s = Some true) ∧
  (stopped s = true → ∀ s', rtc step s s' → passes s' = [] ∧ ∀ cutoff, triggerReconciliation cutoff s' = Some s').
Proof.
  intros Hr. pose proof (recovery_reachable s Hr) as H. split_and!.
  - rewrite (ro_running s H). destruct (recoveryRunning s); lia.
  - intros cutoff. by apply trigger_defined.
  - intros i. by apply finish_defined.
  - intros Hc Hne. destruct (ro_ctx s H Hne) as [b Hb]. pose proof (ro_closed_ctx s H Hc). destruct b; congruence.
  - intros Hs s' Hss. assert (Hs' : stopped s' = true).
    { revert Hs. clear H Hr. induction Hss as [|s1 s2 s3 Hst _ IH]; [done|]. intros Hs. apply IH.
      by apply (stopped_kept s1). }
    destruct Hr as [ctx Hr]. destruct (ro_stopped s') as [Hc Hp]; [|done|].
    + apply recovery_reachable. exists ctx. by etrans.
    + split; [done|]. intros cutoff. unfold triggerReconciliation. by rewrite Hc.
Qed.

(** ** Termination of a shutdown *)

(** The steps the passes still have to make. *)
Definition work_of (l : list phase) : nat := foldr (λ p n, ((if working p then 2 else 1) + n)%nat) 0%nat l.

Definition work (s : recovery) : nat := work_of (passes s).

Lemma work_app l1 l2 : work_of (l1 ++ l2) = (work_of l1 + work_of l2)%nat.
Proof. unfold work_of. induction l1 as [|p l IH]; [done|]. cbn [app foldr]. lia. Qed.

Lemma work_cons p l : work_of (p :: l) = ((if working p then 2 else 1) + work_of l)%nat.
Proof. done. Qed.

Lemma pass_step_work s s' : pass_step s s' → (work s' < work s)%nat ∧ recoveryClosed s' = recoveryClosed s.
Proof.
  intros [i cutoff s0 Hi|i s0 s1 Hi Hf]; unfold work.
  - split; [|done]. cbn [leave passes]. rewrite insert_take_drop by by eapply lookup_lt_Some.
    replace (work_of (passes s0)) with (work_of (take i (passes s0) ++ Working cutoff :: drop (S i) (passes s0)))
      by by rewrite take_drop_middle.
    rewrite !work_app, !work_cons. cbn [working]. lia.
  - unfold finish in Hf. destruct (Add _ _) as [[w r]|]; [|done]. injection Hf as <-. split; [|done].
    cbn [passes]. rewrite delete_take_drop.
    replace (work_of (passes s0)) with (work_of (take i (passes s0) ++ Leaving :: drop (S i) (passes s0)))
      by by rewrite take_drop_middle.
    rewrite !work_app, !work_cons. cbn [working]. lia.
Qed.

(** When no pass is left no caller is blocked in [Wait], and waiting returns at once. *)
Lemma no_pass_returns s :
  recovery_ok s → passes s = [] → waiters (recoveryWait s) = 0%nat ∧ stopped (stop_wait s) = true.
Proof.
  intros H Hnil. pose proof (ro_waiters s H) as Hw. split.
  - destruct (waiters (recoveryWait s)); [done|]. destruct Hw as [_ ?]; [lia|done].
  - unfold stop_wait, Wait. rewrite (ro_counter s H), Hnil. cbn. by destruct (stopped s).
Qed.

(** ** Witnesses *)

(** A pass is working when the service stops; a second trigger was coalesced into it. *)
Definition ex_run : option recovery :=
  s ← triggerReconciliation 10 (initial (Some false));
  s ← triggerReconciliation 20 s;
  Some (stop_wait (stop s)).

Definition ex_stopping : recovery := default (initial None) ex_run.

Lemma ex_stopping_reachable : reachable ex_stopping.
Proof.
  exists (Some false). eapply rtc_l; [by eapply (step_trigger 10)|]. eapply rtc_l; [by eapply (step_trigger 20)|].
  eapply rtc_l; [by apply step_stop|]. eapply rtc_l; [apply step_wait; cbn; lia|]. apply rtc_refl.
Qed.

Lemma recovery_exclusive_witness :
  passes ex_stopping = [Working 10] ∧ recoveryCtx ex_stopping = Some true ∧ (workers ex_stopping ≤ 1)%nat.
Proof.
  split; [reflexivity|].
  split; [apply (recovery_exclusive ex_stopping ex_stopping_reachable); [reflexivity|discriminate]|].
  apply (recovery_exclusive ex_stopping ex_stopping_reachable).
Defined.

End Passes.
