(* ===== verification/LedgerSync.v ===== *)
(** The shared lifecycle state on the Fabric-X ledger: reading it and preparing its
    transactions, [pkg/orchestrator/lifecycle_ledger.go], and the synchronization of a
    starting orchestrator, [lifecycle_sync.go].

    The Query Service is a function; building the endorsed proposal is the class
    [ProposalBuilder]; what a committed transaction does to the ledger is the class
    [NativeLedger], whose laws are the network's version check. *)
From Stdlib Require Import ZArith Lia.
From stdpp Require Import base option list strings gmap.
From S2P Require Import Prelude LifecycleStore OrchestratorTypes GoStrings Json LifecycleLedger.
Import Json.
Local Open Scope Z_scope.

Module LedgerSync.

#[local] Existing Instance Store.ChaincodeDefinition_eq_dec.

(** ** Reading rows *)

Record QueryRow := mkRow { row_Key : bytes; row_Value : bytes; row_Version : Z }.

(** [GetRows] for one key of one namespace; the answer is rows by namespace. *)
Definition QueryService : Type := string → string → result (list (string * list QueryRow)).

Fixpoint find_row (key : string) (rows : list QueryRow) : option (bytes * Z) :=
  match rows with
  | [] => None
  | row :: rest =>
      if bool_decide (row_Key row = key) then Some (row_Value row, row_Version row)
      else find_row key rest
  end.

Fixpoint find_namespace (namespace key : string) (l : list (string * list QueryRow))
    : option (bytes * Z) :=
  match l with
  | [] => None
  | (ns, rows) :: rest =>
      if negb (bool_decide (ns = namespace)) then find_namespace namespace key rest
      else match find_row key rows with
           | Some r => Some r
           | None => find_namespace namespace key rest
           end
  end.

Definition lifecycleRow (query : QueryService) (namespace key : string)
    : result (option (bytes * Z)) :=
  rows ← query namespace key;
  Ok (find_namespace namespace key rows).

Definition lifecycleKeyVersion (query : QueryService) (namespace key : string)
    : result (option Z) :=
  row ← lifecycleRow query namespace key;
  Ok (option_map snd row).

(** ** Transactions *)

(** [blocks.ReadWriteSet]; a read of an absent key has no version. *)
Record ReadWriteSet := mkRWS {
  Reads : list (string * option Z);
  Writes : list (string * bytes) }.

Definition errLifecycleSuperseded : goerr :=
  ENew "lifecycle operation was superseded by a newer committed revision".

Definition wrap {A} (msg : string) (m : result A) : result A :=
  match m with Ok x => Ok x | Err e => Err (EWrap msg e) end.

Definition lifecycleCommitFunction : string := "__lifecycle_commit".

Record Invocation := mkInvocation { inv_Proposal : Types.Proposal; inv_TxID : string }.

(** [nfab.NewSignedProposal], [efab.Parse] and the endorsement builder. *)
Class ProposalBuilder := {
  NewSignedProposal : string → string → list bytes → result Types.SignedProposal;
  Parse : Types.SignedProposal → result Invocation;
  Endorse : Invocation → ReadWriteSet → bytes → result Types.ProposalResponse }.

Section Service.
Context {J : JSONText}.

(** The fields of [s.cfg]. *)
Variable ChannelID LifecycleNamespace : string.
Variable query : QueryService.

Definition lifecycleNamespace : string :=
  if bool_decide (LifecycleNamespace = "") then "0" else LifecycleNamespace.

Definition ReadLifecycleDefinition (def : Store.ChaincodeDefinition)
    : result (option Ledger.LedgerDefinition) :=
  row ← lifecycleRow query lifecycleNamespace (Ledger.LedgerKey ChannelID (Store.Name def));
  match row with
  | None => Ok None
  | Some (value, _) =>
      record ← Ledger.UnmarshalLedgerDefinition value;
      if bool_decide (Ledger.ld_ChannelID record = ChannelID) then Ok (Some record)
      else Err (ENew "lifecycle record belongs to channel %s")
  end.

(** What the current record of the name says: the active definition, or that the ledger
    already holds the requested state. *)
Definition current_definition (def : Store.ChaincodeDefinition) (eventType : string)
    (row : option (bytes * Z)) : result (option Store.ChaincodeDefinition * bool) :=
  match row with
  | None => Ok (None, false)
  | Some (value, _) =>
      record ← Ledger.UnmarshalLedgerDefinition value;
      guard_err (negb (bool_decide (Ledger.ld_ChannelID record = ChannelID)) ||
                 negb (bool_decide (Ledger.ld_Name record = Store.Name def)))
        (ENew "lifecycle definition identity mismatch");;
      let active := Ledger.ChaincodeDefinitionFromLedger record in
      guard_err (Store.Sequence active >? Store.Sequence def)
        (EWrap "%w: next sequence follows active sequence %d" errLifecycleSuperseded);;
      Ok (Some active,
          bool_decide (active = def) &&
          (bool_decide (eventType = Ledger.LifecycleEventCommit) || Ledger.ld_Initialized record))
  end.

(** The initialized flag to write. *)
Definition next_initialized (def : Store.ChaincodeDefinition) (eventType : string)
    (current : option Store.ChaincodeDefinition) : result bool :=
  if bool_decide (eventType = Ledger.LifecycleEventInitialized)
  then if bool_decide (current = Some def) then Ok true
       else Err (ENew "initialization marker does not match the active definition")
  else Store.ValidateNextSequence current def;; Ok (negb (Store.InitRequired def)).

Definition high_watermark (row : option (bytes * Z)) : result Z :=
  match row with
  | None => Ok 0
  | Some (value, _) =>
      wrap "decode lifecycle high watermark: %w" (Ledger.UnmarshalLifecycleHighWatermark value)
  end.

(** The read and write sets of [prepareLifecycleTransaction] and the new record; [None] when
    the ledger proves that no transaction is needed. *)
Definition lifecycle_rws (def : Store.ChaincodeDefinition) (eventType : string)
    : result (option (ReadWriteSet * bytes)) :=
  let key := Ledger.LedgerKey ChannelID (Store.Name def) in
  row ← wrap "read lifecycle key version: %w" (lifecycleRow query lifecycleNamespace key);
  '(active, proven) ← current_definition def eventType row;
  if proven : bool then Ok None
  else
    initialized ← next_initialized def eventType active;
    value ← Ledger.MarshalLedgerDefinition ChannelID def initialized;
    let highKey := Ledger.LifecycleHighWatermarkKey ChannelID in
    high ← wrap "read lifecycle high watermark: %w" (lifecycleRow query lifecycleNamespace highKey);
    highWatermark ← high_watermark high;
    let nextIndex := uint64_wrap (highWatermark + 1) in
    let indexKey := Ledger.LifecycleIndexEntryKey ChannelID nextIndex in
    indexVersion ← wrap "read lifecycle index key version: %w"
                     (lifecycleKeyVersion query lifecycleNamespace indexKey);
    guard_err (negb (bool_decide (indexVersion = None)))
      (ENew "lifecycle index key %s already exists");;
    let indexValue := Ledger.MarshalLifecycleIndexEntry
      (Ledger.NewLifecycleIndexEntry ChannelID nextIndex eventType def initialized) in
    Ok (Some (mkRWS [(key, option_map snd row); (highKey, option_map snd high); (indexKey, indexVersion)]
                [(key, value); (indexKey, indexValue);
                 (highKey, Ledger.MarshalLifecycleHighWatermark nextIndex)],
              value)).

(** An empty transaction ID means that none is needed. *)
Definition prepareLifecycleTransaction {B : ProposalBuilder} (def : Store.ChaincodeDefinition)
    (eventType : string) : result (Types.SdkEndorsement * string) :=
  planned ← lifecycle_rws def eventType;
  match planned with
  | None => Ok (Types.mkSdkEndorsement None [], "")
  | Some (rws, value) =>
      prop ← wrap "create lifecycle proposal: %w"
        (NewSignedProposal ChannelID lifecycleNamespace
           [lifecycleCommitFunction; Store.Name def; Store.Version def;
            GoStrings.FormatInt (Store.Sequence def)]);
      inv ← wrap "parse lifecycle proposal: %w" (Parse prop);
      resp ← wrap "endorse lifecycle transaction: %w" (Endorse inv rws value);
      Ok (Types.mkSdkEndorsement (Some (inv_Proposal inv)) [Some resp], inv_TxID inv)
  end.

(** ** Synchronization *)

(** The record that index entry [i] points to. *)
Definition sync_record (i : Z) : result Ledger.LedgerDefinition :=
  row ← wrap "read lifecycle index entry %s: %w"
    (lifecycleRow query lifecycleNamespace (Ledger.LifecycleIndexEntryKey ChannelID i));
  match row with
  | None => Err (ENew "missing lifecycle index entry %s")
  | Some (entryValue, _) =>
      entry ← wrap "decode lifecycle index entry %s: %w" (Ledger.UnmarshalLifecycleIndexEntry entryValue);
      guard_err (negb (bool_decide (Ledger.ie_ChannelID entry = ChannelID)) ||
                 negb (Ledger.ie_Number entry =? i))
        (ENew "lifecycle index identity mismatch at %s");;
      guard_err (bool_decide (Ledger.ie_DefinitionKey entry = ""))
        (ENew "lifecycle index entry %s missing definition key");;
      row ← wrap "read lifecycle definition %s: %w"
        (lifecycleRow query lifecycleNamespace (Ledger.ie_DefinitionKey entry));
      match row with
      | None => Err (ENew "missing lifecycle definition %s from index %s")
      | Some (defValue, _) =>
          ledgerDef ← wrap "decode lifecycle definition %s: %w" (Ledger.UnmarshalLedgerDefinition defValue);
          guard_err (negb (bool_decide (Ledger.ld_ChannelID ledgerDef = ChannelID)) ||
                     negb (bool_decide (Ledger.ld_Name ledgerDef = Ledger.ie_Name entry)))
            (ENew "lifecycle definition identity mismatch at %s");;
          Ok ledgerDef
      end
  end.

(** The [n] index entries from [i] on; [now] is the time each update writes. *)
Fixpoint sync_entries (now : string) (n : nat) (i : Z) (s : Store.Store) : Store.Store * option goerr :=
  match n with
  | O => (s, None)
  | S n =>
      match sync_record i with
      | Err e => (s, Some e)
      | Ok ledgerDef =>
          let '(s', r) := Store.UpsertCommittedFromLedger now s
            (Ledger.ChaincodeDefinitionFromLedger ledgerDef) (Ledger.ld_Initialized ledgerDef) in
          match r with
          | Err e => (s', Some (EWrap "hydrate lifecycle definition %s: %w" e))
          | Ok _ => sync_entries now n (i + 1) s'
          end
      end
  end.

Definition syncLifecycleFromLedger (now : string) (s : Store.Store) : Store.Store * option goerr :=
  match lifecycleRow query lifecycleNamespace (Ledger.LifecycleHighWatermarkKey ChannelID) with
  | Err e => (s, Some e)
  | Ok None => (s, None)
  | Ok (Some (value, _)) =>
      match Ledger.UnmarshalLifecycleHighWatermark value with
      | Err e => (s, Some (EWrap "decode lifecycle high watermark: %w" e))
      | Ok highWatermark => sync_entries now (Z.to_nat highWatermark) 1 s
      end
  end.

End Service.

(** ** The ledger *)

(** The rows of the lifecycle namespace with their versions. *)
Notation Rows := (gmap string (bytes * Z)) (only parsing).

(** Committing a transaction; [None] when validation aborts it. *)
Class NativeLedger := commit : Rows → ReadWriteSet → option Rows.

(** Validation checks the version of every read; a write raises the version of its row. *)
Class NativeLedgerLaws {N : NativeLedger} : Prop := {
  commit_reads L rws L' k v :
    commit L rws = Some L' → (k, v) ∈ Reads rws → option_map snd (L !! k) = v;
  commit_writes L rws L' k value :
    commit L rws = Some L' → NoDup (Writes rws).*1 → (k, value) ∈ Writes rws →
    ∃ v, L' !! k = Some (value, v);
  commit_keeps L rws L' k : commit L rws = Some L' → k ∉ (Writes rws).*1 → L' !! k = L !! k;
  commit_version L rws L' k r r' :
    commit L rws = Some L' → k ∈ (Writes rws).*1 → L !! k = Some r → L' !! k = Some r' →
    r.2 < r'.2;
  commit_present L rws L' k : commit L rws = Some L' → is_Some (L !! k) → is_Some (L' !! k) }.

Section Network.
Context {J : JSONText} {JL : JSONLaws} {N : NativeLedger} {NL : NativeLedgerLaws}.
Variable channel namespace : string.

Definition lifecycle_key (k : string) : Prop :=
  k = Ledger.LifecycleHighWatermarkKey channel ∨
  (∃ name, k = Ledger.LedgerKey channel name) ∨
  ∃ i, is_uint64 i ∧ k = Ledger.LifecycleIndexEntryKey channel i.

(** A query whose answers come from ledgers of the history, each key's from its own. *)
Definition answers_from (hist : list Rows) (query : QueryService) : Prop :=
  ∀ key row, lifecycleRow query (lifecycleNamespace namespace) key = Ok row →
    ∃ L, L ∈ hist ∧ row = L !! key.

(** The ledgers of a network so far, the latest first: lifecycle transactions prepared by any
    orchestrator from possibly stale answers, and transactions on other rows. *)
Inductive history : list Rows → Prop :=
  | history_start L : (∀ k, lifecycle_key k → L !! k = None) → history [L]
  | history_lifecycle L hist query def event rws value L' :
      history (L :: hist) → answers_from (L :: hist) query →
      Ledger.plain_definition def →
      event = Ledger.LifecycleEventCommit ∨ event = Ledger.LifecycleEventInitialized →
      lifecycle_rws channel namespace query def event = Ok (Some (rws, value)) →
      commit L rws = Some L' → history (L' :: L :: hist)
  | history_other L hist rws L' :
      history (L :: hist) → commit L rws = Some L' →
      (∀ k, k ∈ (Writes rws).*1 → ¬ lifecycle_key k) → history (L' :: L :: hist).

(** The definition a ledger holds for a name. *)
Definition ledger_view (L : Rows) (name : string) : option (Store.ChaincodeDefinition * bool) :=
  r ← L !! Ledger.LedgerKey channel name;
  match Ledger.UnmarshalLedgerDefinition r.1 with
  | Ok v => Some (Ledger.ChaincodeDefinitionFromLedger v, Ledger.ld_Initialized v)
  | Err _ => None
  end.

(** ** The invariant *)

Definition record_at (L : Rows) (name : string) (d : Store.ChaincodeDefinition) (init : bool) : Prop :=
  ∃ data v, L !! Ledger.LedgerKey channel name = Some (data, v) ∧
    Ledger.MarshalLedgerDefinition channel d init = Ok data ∧ Ledger.plain_definition d ∧
    Store.Name d = name ∧ (Store.InitRequired d = false → init = true).

Definition entry_at (L : Rows) (i : Z) (name : string) : Prop :=
  ∃ event d init v,
    L !! Ledger.LifecycleIndexEntryKey channel i =
      Some (Ledger.MarshalLifecycleIndexEntry
              (Ledger.NewLifecycleIndexEntry channel i event d init), v) ∧
    Ledger.plain_definition d ∧ valid_utf8 event = true ∧ Store.Name d = name ∧ name ≠ "".

Definition watermark_at (L : Rows) (n : Z) : Prop :=
  match L !! Ledger.LifecycleHighWatermarkKey channel with
  | None => n = 0
  | Some r => r.1 = Ledger.MarshalLifecycleHighWatermark n
  end.

Record ledger_ok (L : Rows) (n : Z) : Prop := mkLedgerOk {
  ok_range : 0 <= n;
  ok_watermark : watermark_at L n;
  ok_entries i : 1 <= i <= n → ∃ name d init, entry_at L i name ∧ record_at L name d init;
  ok_records name : is_Some (L !! Ledger.LedgerKey channel name) →
    (∃ d init, record_at L name d init) ∧ ∃ i, 1 <= i <= n ∧ entry_at L i name }.

Lemma record_view L name d init :
  valid_utf8 channel = true → record_at L name d init →
  ledger_view L name = Some (d, init) ∧ Store.validateDefinition d = Ok () ∧ channel ≠ "".
Proof.
  intros Hc (data & v & HL & Hm & Hp & Hn & _). split; [|by eapply Ledger.Marshal_definition_ok].
  unfold ledger_view. rewrite HL. cbn [mbind option_bind fst].
  rewrite (Ledger.definition_roundtrip channel d init data Hc Hp Hm). by destruct d.
Qed.

(** Rows with the same version in the history are the same. *)
Lemma history_rows hist L0 L k r : history (L :: hist) → L0 ∈ L :: hist → L0 !! k = Some r →
  ∃ r', L !! k = Some r' ∧ (r.2 < r'.2 ∨ r = r').
Proof.
  intros Hh. remember (L :: hist) as all eqn:Hall. revert L hist Hall L0 r.
  assert (Hstep : ∀ L L' rws r, commit L rws = Some L' → L !! k = Some r →
    ∃ r', L' !! k = Some r' ∧ (r.2 < r'.2 ∨ r = r')).
  { intros L L' rws r Hc HL. destruct (commit_present L rws L' k Hc) as [r' Hr']; [by eexists|].
    exists r'. split; [done|]. destruct (decide (k ∈ (Writes rws).*1)) as [Hk|Hk].
    - left. by eapply commit_version.
    - right. rewrite (commit_keeps L rws L' k Hc Hk) in Hr'. congruence. }
  assert (Hext : ∀ L L' rws hist, commit L rws = Some L' →
    (∀ L0 r, L0 ∈ L :: hist → L0 !! k = Some r →
       ∃ r', L !! k = Some r' ∧ (r.2 < r'.2 ∨ r = r')) →
    ∀ L0 r, L0 ∈ L' :: L :: hist → L0 !! k = Some r →
      ∃ r', L' !! k = Some r' ∧ (r.2 < r'.2 ∨ r = r')).
  { intros L L' rws hist Hc IH L0 r [->|Hin]%elem_of_cons HL0; [exists r; auto|].
    destruct (IH L0 r Hin HL0) as (r1 & H1 & Hle). destruct (Hstep L L' rws r1 Hc H1) as (r2 & H2 & Hle2).
    exists r2. split; [done|]. destruct Hle as [?| ->], Hle2 as [?| ->]; auto. left. lia. }
  induction Hh as [L1 _|L1 hist1 q d e rws value L1' Hh IH _ _ _ _ Hc|L1 hist1 rws L1' Hh IH Hc _];
    intros L hist [= <- <-] L0 r Hin HL0.
  - apply list_elem_of_singleton in Hin as ->. exists r. auto.
  - eapply Hext; [exact Hc| |exact Hin|exact HL0]. intros. by eapply IH.
  - eapply Hext; [exact Hc| |exact Hin|exact HL0]. intros. by eapply IH.
Qed.

(** What a transaction read is current when it commits. *)
Lemma read_current hist L query rws L' k row :
  history (L :: hist) → answers_from (L :: hist) query → commit L rws = Some L' →
  lifecycleRow query (lifecycleNamespace namespace) k = Ok row →
  (k, option_map snd row) ∈ Reads rws → row = L !! k.
Proof.
  intros Hh Hq Hc Hrow Hin. destruct (Hq k row Hrow) as (L0 & HL0 & ->).
  pose proof (commit_reads L rws L' k _ Hc Hin) as Hv.
  destruct (L0 !! k) as [r|] eqn:E.
  - destruct (history_rows hist L0 L k r Hh HL0 E) as (r' & Hr' & Hle). rewrite Hr' in Hv |- *.
    cbn in Hv. injection Hv as Hv. destruct Hle as [?| ->]; [lia|done].
  - by destruct (L !! k).
Qed.

Lemma wrap_ok {A} msg (m : result A) x : wrap msg m = Ok x → m = Ok x.
Proof. by destruct m. Qed.

(** The plan of a transaction: what it read, and what it writes. *)
Definition plan (query : QueryService) (def : Store.ChaincodeDefinition) (event : string)
    (rws : ReadWriteSet) : Prop :=
  ∃ row high n active init value,
    let ns := lifecycleNamespace namespace in
    let key := Ledger.LedgerKey channel (Store.Name def) in
    let highKey := Ledger.LifecycleHighWatermarkKey channel in
    let indexKey := Ledger.LifecycleIndexEntryKey channel (uint64_wrap (n + 1)) in
    lifecycleRow query ns key = Ok row ∧ lifecycleRow query ns highKey = Ok high ∧
    lifecycleRow query ns indexKey = Ok None ∧
    current_definition channel def event row = Ok (active, false) ∧
    next_initialized def event active = Ok init ∧
    Ledger.MarshalLedgerDefinition channel def init = Ok value ∧ high_watermark high = Ok n ∧
    rws = mkRWS [(key, option_map snd row); (highKey, option_map snd high); (indexKey, None)]
      [(key, value);
       (indexKey, Ledger.MarshalLifecycleIndexEntry
          (Ledger.NewLifecycleIndexEntry channel (uint64_wrap (n + 1)) event def init));
       (highKey, Ledger.MarshalLifecycleHighWatermark (uint64_wrap (n + 1)))].

Lemma lifecycle_rws_plan query def event rws value :
  lifecycle_rws channel namespace query def event = Ok (Some (rws, value)) →
  plan query def event rws.
Proof.
  unfold lifecycle_rws. intros H.
  apply bind_ok in H as (row & Hrow%wrap_ok & H). apply bind_ok in H as ([active []] & Hcur & H); [done|].
  apply bind_ok in H as (init & Hinit & H). apply bind_ok in H as (data & Hdata & H).
  apply bind_ok in H as (high & Hhigh%wrap_ok & H). apply bind_ok in H as (n & Hn & H). cbv zeta in H.
  apply bind_ok in H as (iv & Hiv%wrap_ok & H). apply bind_ok in H as ([] & Hg & [= <- <-]).
  apply guard_err_ok in Hg. bool_props. subst iv. unfold lifecycleKeyVersion in Hiv.
  apply bind_ok in Hiv as (irow & Hirow & [= Hnone]). destruct irow; [done|].
  by exists row, high, n, active, init, data.
Qed.

(** Kept by any transaction that leaves the lifecycle rows alone. *)
Lemma ledger_ok_same L L' n :
  (∀ k, lifecycle_key k → L' !! k = L !! k) → 0 <= n < 2 ^ 64 → ledger_ok L n → ledger_ok L' n.
Proof.
  intros Hk Hn [Hr Hw He Hd].
  assert (Hrec : ∀ name, L' !! Ledger.LedgerKey channel name = L !! Ledger.LedgerKey channel name)
    by (intros; apply Hk; right; left; by eexists).
  assert (Hidx : ∀ i, 1 <= i <= n → L' !! Ledger.LifecycleIndexEntryKey channel i =
    L !! Ledger.LifecycleIndexEntryKey channel i).
  { intros i Hi. apply Hk. right; right. exists i. split; [split; lia|done]. }
  split; [done| | |].
  - unfold watermark_at. by rewrite Hk by (by left).
  - intros i Hi. destruct (He i Hi) as (name & d & init & Hent & Hre). exists name, d, init.
    unfold entry_at, record_at. by rewrite Hidx, Hrec by done.
  - intros name. rewrite Hrec. intros Hs. destruct (Hd name Hs) as ((d & init & Hre) & i & Hi & Hent).
    split; [exists d, init; unfold record_at; by rewrite Hrec|exists i; split; [done|]].
    unfold entry_at. by rewrite Hidx.
Qed.

(** What a committed transaction found and left. *)
Lemma plan_commits hist L L' n query def event rws :
  history (L :: hist) → answers_from (L :: hist) query → plan query def event rws →
  commit L rws = Some L' → ledger_ok L n → n + 1 < 2 ^ 64 →
  let key := Ledger.LedgerKey channel (Store.Name def) in
  let highKey := Ledger.LifecycleHighWatermarkKey channel in
  let indexKey := Ledger.LifecycleIndexEntryKey channel (n + 1) in
  ∃ active init value v1 v2 v3,
    current_definition channel def event (L !! key) = Ok (active, false) ∧
    next_initialized def event active = Ok init ∧
    Ledger.MarshalLedgerDefinition channel def init = Ok value ∧
    L' !! key = Some (value, v1) ∧
    L' !! indexKey = Some (Ledger.MarshalLifecycleIndexEntry
      (Ledger.NewLifecycleIndexEntry channel (n + 1) event def init), v2) ∧
    L' !! highKey = Some (Ledger.MarshalLifecycleHighWatermark (n + 1), v3) ∧
    ∀ k, k ≠ key → k ≠ indexKey → k ≠ highKey → L' !! k = L !! k.
Proof.
  intros Hh Hq (row & high & n' & active & init & value & Hrow & Hhigh & Hidx & Hcur & Hinit & Hval &
    Hn' & Hrws) Hc [Hr Hw _ _] Hn. cbv zeta in *.
  assert (row = L !! Ledger.LedgerKey channel (Store.Name def)) as ->.
  { eapply read_current; [exact Hh|exact Hq|exact Hc|exact Hrow|]. rewrite Hrws. by left. }
  assert (high = L !! Ledger.LifecycleHighWatermarkKey channel) as ->.
  { eapply read_current; [exact Hh|exact Hq|exact Hc|exact Hhigh|]. rewrite Hrws. right. by left. }
  assert (n' = n) as ->.
  { unfold watermark_at in Hw. unfold high_watermark in Hn'.
    destruct (L !! Ledger.LifecycleHighWatermarkKey channel) as [[b v]|]; [|congruence].
    cbn [fst] in Hw. subst b. apply wrap_ok in Hn'.
    rewrite Ledger.watermark_roundtrip in Hn' by (unfold is_uint64; lia). congruence. }
  rewrite uint64_wrap_id in * by (unfold is_uint64; lia).
  assert (Hnd : NoDup (Writes rws).*1).
  { rewrite Hrws. cbn [Writes fmap list_fmap fst].
    repeat (apply NoDup_cons_2; [rewrite ?elem_of_cons|]); [..|constructor].
    - intros [H|[H|H%not_elem_of_nil]]; [|by apply Ledger.LedgerKey_not_high in H|done].
      by apply Ledger.LedgerKey_not_index in H.
    - intros [H|H%not_elem_of_nil]; [|done]. by apply eq_sym, Ledger.high_not_index in H.
    - apply not_elem_of_nil. }
  pose proof (λ k b H, commit_writes L rws L' k b Hc Hnd H) as Hwr. rewrite Hrws in Hwr. cbn in Hwr.
  edestruct Hwr as [v1 Hv1]; [by left|]. edestruct Hwr as [v2 Hv2]; [right; by left|].
  edestruct Hwr as [v3 Hv3]; [right; right; by left|].
  exists active, init, value, v1, v2, v3. split_and!; try done.
  intros k H1 H2 H3. apply (commit_keeps L rws L' k Hc). rewrite Hrws. cbn.
  rewrite !elem_of_cons. intros [?|[?|[?|?%not_elem_of_nil]]]; done.
Qed.

Lemma entry_at_unmarshal L i name :
  valid_utf8 channel = true → channel ≠ "" → is_uint64 i → entry_at L i name →
  ∃ data v entry, L !! Ledger.LifecycleIndexEntryKey channel i = Some (data, v) ∧
    Ledger.UnmarshalLifecycleIndexEntry data = Ok entry ∧ Ledger.ie_ChannelID entry = channel ∧
    Ledger.ie_Number entry = i ∧ Ledger.ie_Name entry = name ∧
    Ledger.ie_DefinitionKey entry = Ledger.LedgerKey channel name.
Proof.
  intros Hc Hch Hi (event & d & init & v & HL & Hp & He & <- & Hne).
  exists (Ledger.MarshalLifecycleIndexEntry (Ledger.NewLifecycleIndexEntry channel i event d init)), v,
    (Ledger.NewLifecycleIndexEntry channel i event d init).
  split_and!; try done. by apply Ledger.entry_roundtrip.
Qed.

Lemma next_initialized_flag def event active init :
  next_initialized def event active = Ok init → Store.InitRequired def = false → init = true.
Proof.
  unfold next_initialized. case_bool_decide; [by case_bool_decide; intros [= <-]|].
  intros ([] & _ & [= <-])%bind_ok. by intros ->.
Qed.

(** A committed lifecycle transaction extends the index by one entry. *)
Lemma ledger_ok_step hist L L' n query def event rws :
  history (L :: hist) → answers_from (L :: hist) query → plan query def event rws →
  Ledger.plain_definition def →
  event = Ledger.LifecycleEventCommit ∨ event = Ledger.LifecycleEventInitialized →
  commit L rws = Some L' → ledger_ok L n → n + 1 < 2 ^ 64 → ledger_ok L' (n + 1).
Proof.
  intros Hh Hq Hp Hplain Hevent Hc Hok Hn.
  destruct (plan_commits _ _ _ _ _ _ _ _ Hh Hq Hp Hc Hok Hn) as
    (active & init & value & v1 & v2 & v3 & _ & Hinit & Hval & Hkey & Hidx & Hhigh & Hrest).
  destruct Hok as [Hr Hw He Hd].
  pose proof (Ledger.Marshal_definition_ok _ _ _ _ Hval) as [Hvalid _].
  apply Store.validateDefinition_ok in Hvalid as (Hname & _ & _).
  assert (Hnew : record_at L' (Store.Name def) def init).
  { exists value, v1. split_and!; try done. by eapply next_initialized_flag. }
  assert (Hentry : entry_at L' (n + 1) (Store.Name def)).
  { exists event, def, init, v2. split_and!; try done.
    by destruct Hevent as [-> | ->]; apply valid_utf8_ascii. }
  assert (Hold : ∀ i name, 1 <= i <= n → entry_at L i name → entry_at L' i name).
  { intros i name Hi. unfold entry_at. rewrite Hrest; [done| | |].
    - intros H. by apply eq_sym, Ledger.LedgerKey_not_index in H.
    - intros H. apply Ledger.IndexEntryKey_inj in H as [_ H]; [lia|split; lia..].
    - intros H. by apply eq_sym, Ledger.high_not_index in H. }
  assert (Hother : ∀ name, name ≠ Store.Name def →
    L' !! Ledger.LedgerKey channel name = L !! Ledger.LedgerKey channel name).
  { intros name Hne. apply Hrest; [|apply Ledger.LedgerKey_not_index|apply Ledger.LedgerKey_not_high].
    by intros [_ ?]%Ledger.LedgerKey_inj. }
  split; [lia| | |].
  - unfold watermark_at. by rewrite Hhigh.
  - intros i Hi. destruct (decide (i = n + 1)) as [->|]; [by exists (Store.Name def), def, init|].
    destruct (He i) as (name & d & b & Hent & Hrec); [lia|]. exists name.
    destruct (decide (name = Store.Name def)) as [->|Hne].
    + exists def, init. split; [apply Hold; [lia|done]|done].
    + exists d, b. split; [apply Hold; [lia|done]|]. unfold record_at. by rewrite Hother.
  - intros name Hs. destruct (decide (name = Store.Name def)) as [->|Hne].
    + split; [by exists def, init|]. exists (n + 1). split; [lia|done].
    + rewrite Hother in Hs by done. destruct (Hd name Hs) as ((d & b & Hrec) & i & Hi & Hent).
      split; [exists d, b; unfold record_at; by rewrite Hother|].
      exists i. split; [lia|by apply Hold].
Qed.

Lemma ledger_ok_start L : (∀ k, lifecycle_key k → L !! k = None) → ledger_ok L 0.
Proof.
  intros H. split; [done| |lia|].
  - unfold watermark_at. by rewrite H by (by left).
  - intros name. rewrite H by (right; left; by eexists). by intros [? ?].
Qed.

Lemma history_ok hist L : history (L :: hist) → Z.of_nat (length hist) < 2 ^ 64 - 1 →
  ∃ n, 0 <= n <= Z.of_nat (length hist) ∧ ledger_ok L n.
Proof.
  intros Hh. remember (L :: hist) as all eqn:Hall. revert L hist Hall.
  induction Hh as [L1 H|L1 hist1 q d e rws value L1' Hh IH Hq Hp He Hpl Hc|L1 hist1 rws L1' Hh IH Hc Hk];
    intros L hist [= <- <-] Hlen.
  - exists 0. split; [cbn; lia|by apply ledger_ok_start].
  - cbn [length] in Hlen. destruct (IH _ _ eq_refl) as (n & Hn & Hok); [lia|].
    exists (n + 1). split; [cbn [length]; lia|].
    eapply ledger_ok_step; [exact Hh|exact Hq|by eapply lifecycle_rws_plan|done..|lia].
  - cbn [length] in Hlen. destruct (IH _ _ eq_refl) as (n & Hn & Hok); [lia|].
    exists n. split; [cbn [length]; lia|]. eapply ledger_ok_same; [|lia|exact Hok].
    intros k Hlk. apply (commit_keeps _ _ _ _ Hc). intros Hin. by eapply Hk.
Qed.

(** How the definition of a name changes with one committed transaction. *)
Definition definition_step (v v' : option (Store.ChaincodeDefinition * bool)) : Prop :=
  v' = v ∨
  (∃ def, v' = Some (def, negb (Store.InitRequired def)) ∧
     Store.Sequence def = match v with Some (d, _) => Store.Sequence d + 1 | None => 1 end) ∨
  ∃ def, Store.InitRequired def = true ∧ v = Some (def, false) ∧ v' = Some (def, true).

Lemma current_of_ledger L n def event active :
  valid_utf8 channel = true → ledger_ok L n →
  current_definition channel def event (L !! Ledger.LedgerKey channel (Store.Name def)) =
    Ok (active, false) →
  active = fst <$> ledger_view L (Store.Name def) ∧
  (∀ d, active = Some d → is_int64 (Store.Sequence d)) ∧
  (active = Some def → ledger_view L (Store.Name def) = Some (def, false) ∧
     Store.InitRequired def = true).
Proof.
  intros Hc Hok Hcur. destruct (L !! Ledger.LedgerKey channel (Store.Name def)) as [r|] eqn:E.
  2:{ injection Hcur as <-. unfold ledger_view. rewrite E. by split_and!. }
  destruct (ok_records L n Hok (Store.Name def)) as ((d & init & Hrec) & _); [by eexists|].
  pose proof (record_view L _ d init Hc Hrec) as (Hview & _ & _).
  destruct Hrec as (data & v & HL & Hm & Hp & Hn & Hflag). rewrite HL in E. injection E as <-.
  cbn [current_definition] in Hcur. rewrite (Ledger.definition_roundtrip channel d init data Hc Hp Hm) in Hcur.
  cbn [mbind result_mbind Ledger.ld_ChannelID Ledger.ld_Name Ledger.ld_Initialized] in Hcur.
  apply bind_ok in Hcur as ([] & _ & Hcur). cbv zeta in Hcur.
  unfold Ledger.ChaincodeDefinitionFromLedger in Hcur. cbn in Hcur.
  replace (Store.mkDefinition (Store.Name d) (Store.Version d) (Store.Sequence d) (Store.InitRequired d))
    with d in Hcur by (by destruct d).
  apply bind_ok in Hcur as ([] & _ & [= <- Hproven]). rewrite Hview. split_and!; [done| |].
  - intros d' [= <-]. apply Hp.
  - intros [= ->]. rewrite bool_decide_eq_true_2 in Hproven by done. bool_props.
    match goal with H : _ && _ = false |- _ => apply andb_false_iff in H as [?|?] end; [done|].
    bool_props. subst init. split; [done|]. by destruct (Store.InitRequired def); [|discriminate Hflag].
Qed.

(** C15: Only one of several concurrent lifecycle transactions can succeed: whatever ledgers the
    orchestrators read, each committed transaction leaves a name's definition, raises its
    sequence by exactly one from the active one, or marks the active definition that requires
    initialization as initialized. *)
Theorem ledger_definitions_advance hist L L' name :
  valid_utf8 channel = true → history (L' :: L :: hist) →
  Z.of_nat (length hist) < 2 ^ 64 - 1 →
  definition_step (ledger_view L name) (ledger_view L' name).
Proof.
  intros Hc Hh Hlen.
  inversion Hh as [|L1 hist1 q def e rws value L1' Hh1 Hq Hp He Hpl Hcm|L1 hist1 rws L1' Hh1 Hcm Hk];
    subst.
  2:{ left. unfold ledger_view. rewrite (commit_keeps _ _ _ _ Hcm); [done|].
      intros Hin. apply (Hk _ Hin). right; left. by eexists. }
  destruct (history_ok hist L Hh1 Hlen) as (n & Hn & Hok).
  pose proof (lifecycle_rws_plan _ _ _ _ _ Hpl) as Hplan.
  destruct (plan_commits _ _ _ _ _ _ _ _ Hh1 Hq Hplan Hcm Hok) as
    (active & init & data & v1 & v2 & v3 & Hcur & Hinit & Hval & Hkey & _ & _ & Hrest); [lia|].
  destruct (decide (name = Store.Name def)) as [->|Hne].
  2:{ left. unfold ledger_view. rewrite Hrest; [done| |apply Ledger.LedgerKey_not_index|
        apply Ledger.LedgerKey_not_high]. by intros [_ ?]%Ledger.LedgerKey_inj. }
  assert (Hrec : record_at L' (Store.Name def) def init).
  { exists data, v1. split_and!; try done. by eapply next_initialized_flag. }
  destruct (record_view L' (Store.Name def) def init Hc Hrec) as (-> & _ & _).
  destruct (current_of_ledger L n def e active Hc Hok Hcur) as (Ha & Hint & Hsame).
  unfold next_initialized in Hinit. case_bool_decide.
  - right; right. exists def. case_bool_decide as Hact; [|done]. injection Hinit as <-.
    destruct (Hsame Hact) as [-> Hreq]. by split_and!.
  - right; left. exists def. apply bind_ok in Hinit as ([] & Hnext & [= <-]). split; [done|].
    apply Store.ValidateNextSequence_ok in Hnext as [_ Hnext]; [|done|apply Hp].
    rewrite Ha in Hnext. by destruct (ledger_view L (Store.Name def)) as [[d i]|]; [destruct Hnext|].
Qed.

(** ** Synchronization from a reachable ledger *)

(** An update with a record the store does not have, or already shows. *)
Lemma Upsert_synced now s def init :
  Store.store_ok s → now ≠ "" → Store.validateDefinition def = Ok () →
  Store.committed_view s (Store.Name def) = None ∨
    Store.committed_view s (Store.Name def) = Some (def, init) →
  ∃ s' c, Store.UpsertCommittedFromLedger now s def init = (s', Ok c) ∧ Store.store_ok s' ∧
    ∀ name, Store.committed_view s' name =
      if decide (name = Store.Name def) then Some (def, init) else Store.committed_view s name.
Proof.
  intros Hs Hnow Hv Hview.
  assert (Hne : Store.Name def ≠ "") by (by apply Store.validateDefinition_ok in Hv as (? & _)).
  assert (Hok : ∃ s' c, Store.UpsertCommittedFromLedger now s def init = (s', Ok c)).
  { unfold Store.UpsertCommittedFromLedger. rewrite Hv. cbn [mbind result_mbind].
    rewrite Store.GetCommitted_view by done.
    pose proof (Store.upsertCommitted_spec now s def now init Hs Hv Hnow) as Hup.
    unfold Store.committed_view in Hview, Hup.
    destruct (Store.committed_definitions s !! Store.Name def) as [r|]; cbn in Hview, Hup |- *.
    - destruct Hview as [?|[= Hd Hi]]; [done|].
      destruct Hup as (row & -> & _); [by right|]. rewrite Hd, Hi.
      rewrite (proj2 (Store.definitionMatches_eq def def)) by done. cbn.
      repeat case_match; eexists _, _; reflexivity.
    - destruct Hup as (row & -> & _); [done|]. by eexists _, _. }
  destruct Hok as (s' & c & Hup). exists s', c. split; [done|].
  pose proof (Store.upsert_join now s def init Hs Hnow Hv) as Hjoin. rewrite Hup in Hjoin. cbn [fst] in Hjoin.
  split.
  - pose proof (Store.step_Upsert s now def init) as Hstep. rewrite Hup in Hstep.
    by apply (Store.step_inv s s' Hs Hstep).
  - intros name. rewrite Hjoin.
    + case_decide; [|done]. destruct Hview as [-> | ->]; [done|]. cbn.
      rewrite Z.eqb_refl. replace (Store.Sequence def >? Store.Sequence def) with false by lia.
      by rewrite orb_diag.
    + intros d i Hd _. destruct Hview as [Hview|Hview]; congruence.
Qed.

(** The store holds the ledger's definitions of the entries before [i] and nothing else. *)
Definition synced (L : Rows) (i : Z) (s : Store.Store) : Prop :=
  Store.store_ok s ∧
  (∀ name, Store.committed_view s name = None ∨ Store.committed_view s name = ledger_view L name) ∧
  ∀ j name, 1 <= j < i → entry_at L j name → Store.committed_view s name = ledger_view L name.

Definition answers_now (L : Rows) (query : QueryService) : Prop :=
  ∀ key, lifecycleRow query (lifecycleNamespace namespace) key = Ok (L !! key).

Lemma sync_record_ok L n query i :
  valid_utf8 channel = true → ledger_ok L n → answers_now L query → 1 <= i <= n → n < 2 ^ 64 →
  ∃ name d init v, entry_at L i name ∧ record_at L name d init ∧
    sync_record channel namespace query i = Ok v ∧
    Ledger.ChaincodeDefinitionFromLedger v = d ∧ Ledger.ld_Initialized v = init.
Proof.
  intros Hc Hok Hq Hi Hn. destruct (ok_entries L n Hok i Hi) as (name & d & init & Hent & Hrec).
  destruct (record_view L name d init Hc Hrec) as (_ & _ & Hch).
  pose proof Hrec as (data & v & HL & Hm & Hp & Hname & _).
  exists name, d, init,
    (Ledger.mkLedger channel (Store.Name d) (Store.Version d) (Store.Sequence d) (Store.InitRequired d) init).
  split; [done|]. split; [done|]. split; [|by split; [destruct d|]].
  destruct (entry_at_unmarshal L i name Hc Hch) as (ed & ev & entry & HE & HU & H1 & H2 & H3 & H4);
    [split; lia|done|].
  unfold sync_record. rewrite Hq, HE. cbn [wrap mbind result_mbind]. rewrite HU.
  cbn [wrap mbind result_mbind]. rewrite H1, H2, H4, H3, Z.eqb_refl.
  rewrite (bool_decide_eq_true_2 (channel = channel)) by done. cbn [negb orb guard_err mbind result_mbind].
  rewrite (bool_decide_eq_false_2 (Ledger.LedgerKey channel name = "")) by done.
  cbn [guard_err mbind result_mbind]. rewrite Hq, HL. cbn [wrap mbind result_mbind].
  rewrite (Ledger.definition_roundtrip channel d init data Hc Hp Hm).
  cbn [wrap mbind result_mbind Ledger.ld_ChannelID Ledger.ld_Name].
  by rewrite (bool_decide_eq_true_2 (channel = channel)), (bool_decide_eq_true_2 (Store.Name d = name)).
Qed.

Lemma sync_entries_ok L n query now k i s :
  valid_utf8 channel = true → ledger_ok L n → answers_now L query → n < 2 ^ 64 → now ≠ "" →
  1 <= i → i + Z.of_nat k = n + 1 → synced L i s →
  ∃ s', sync_entries channel namespace query now k i s = (s', None) ∧ synced L (n + 1) s'.
Proof.
  intros Hc Hok Hq Hn Hnow. revert i s. induction k as [|k IH]; intros i s Hi Hk Hs.
  { exists s. split; [done|]. by replace (n + 1) with i by lia. }
  destruct (sync_record_ok L n query i Hc Hok Hq) as (name & d & init & v & Hent & Hrec & Hv & Hd & Hinit);
    [lia|lia|].
  destruct (record_view L name d init Hc Hrec) as (Hview & Hvalid & Hch).
  destruct Hs as (Hso & Hall & Hpast).
  destruct Hrec as (data & ver & _ & _ & _ & Hname & _).
  destruct (Upsert_synced now s d init Hso Hnow Hvalid) as (s' & c & Hup & Hso' & Hview').
  { rewrite Hname, <- Hview. apply Hall. }
  cbn [sync_entries]. rewrite Hv, Hd, Hinit, Hup. rewrite Hname in Hview'.
  apply IH; [lia|lia|]. split; [done|]. split.
  - intros name'. rewrite Hview'. case_decide as E; [right; by rewrite E|apply Hall].
  - intros j name' Hj Hent'. rewrite Hview'. case_decide as E; [by rewrite E|].
    destruct (decide (j = i)) as [->|]; [|apply (Hpast j); [lia|done]].
    exfalso.
    destruct (entry_at_unmarshal L i name Hc Hch) as (d1 & v1 & e1 & HL1 & HU1 & _ & _ & Hn1 & _);
      [split; lia|done|].
    destruct (entry_at_unmarshal L i name' Hc Hch) as (d2 & v2 & e2 & HL2 & HU2 & _ & _ & Hn2 & _);
      [split; lia|done|]. congruence.
Qed.

(** C14: A starting orchestrator reproduces the ledger: on every ledger that lifecycle
    transactions can produce, the synchronization of an empty store succeeds and leaves
    exactly the ledger's definitions as the active ones. *)
Theorem sync_reproduces_ledger hist L query now s0 :
  valid_utf8 channel = true → history (L :: hist) → Z.of_nat (length hist) < 2 ^ 64 - 1 →
  answers_now L query → now ≠ "" → Store.NewMemoryStore channel = Ok s0 →
  ∃ s, syncLifecycleFromLedger channel namespace query now s0 = (s, None) ∧
    ∀ name, Store.committed_view s name = ledger_view L name.
Proof.
  intros Hc Hh Hlen Hq Hnow Hs0. destruct (history_ok hist L Hh Hlen) as (n & Hn & Hok).
  assert (Hempty : synced L 1 s0).
  { split; [by eapply Store.new_store_ok|]. unfold Store.NewMemoryStore in Hs0.
    case_bool_decide; [done|]. injection Hs0 as <-. split; [by left|]. intros; lia. }
  assert (Hdone : ∀ s, synced L (n + 1) s → ∀ name, Store.committed_view s name = ledger_view L name).
  { intros s (_ & Hall & Hpast) name. destruct (L !! Ledger.LedgerKey channel name) as [r|] eqn:E.
    - destruct (ok_records L n Hok name) as (_ & i & Hi & Hent); [by eexists|].
      apply (Hpast i); [lia|done].
    - assert (ledger_view L name = None) as Hnone by (unfold ledger_view; by rewrite E).
      destruct (Hall name) as [H|H]; congruence. }
  unfold syncLifecycleFromLedger. rewrite Hq. pose proof (ok_watermark L n Hok) as Hw.
  unfold watermark_at in Hw. destruct (L !! Ledger.LifecycleHighWatermarkKey channel) as [[b v]|].
  - cbn [fst] in Hw. subst b. rewrite Ledger.watermark_roundtrip by (split; lia).
    destruct (sync_entries_ok L n query now (Z.to_nat n) 1 s0 Hc Hok Hq) as (s & -> & Hs); [lia|done|lia|lia|done|].
    exists s. split; [done|by apply Hdone].
  - exists s0. split; [done|]. subst n. by apply Hdone.
Qed.

End Network.

(** ** Witnesses *)

(** A ledger that counts the writes of each row. *)
Definition next_version (L : Rows) (k : string) : Z :=
  match L !! k with Some r => r.2 + 1 | None => 0 end.

Definition apply_writes (L : Rows) (writes : list (string * bytes)) : Rows :=
  foldr (λ w acc, <[w.1 := (w.2, next_version L w.1)]> acc) L writes.

Definition read_current_b (L : Rows) (r : string * option Z) : bool :=
  bool_decide (option_map snd (L !! r.1) = r.2).

#[local] Instance example_ledger : NativeLedger := λ L rws,
  if forallb (read_current_b L) (Reads rws) then Some (apply_writes L (Writes rws)) else None.

Lemma apply_writes_cons L k value writes :
  apply_writes L ((k, value) :: writes) = <[k := (value, next_version L k)]> (apply_writes L writes).
Proof. done. Qed.

Lemma apply_writes_in L writes k : k ∈ writes.*1 →
  ∃ value, apply_writes L writes !! k = Some (value, next_version L k).
Proof.
  induction writes as [|[k' v'] writes IH]; intros Hk; [by apply not_elem_of_nil in Hk|].
  rewrite apply_writes_cons.
  destruct (decide (k = k')) as [->|Hne]; [rewrite lookup_insert_eq; by eexists|].
  rewrite lookup_insert_ne by done. apply IH. by apply elem_of_cons in Hk as [?|?].
Qed.

Lemma apply_writes_out L writes k : k ∉ writes.*1 → apply_writes L writes !! k = L !! k.
Proof.
  induction writes as [|[k' v'] writes IH]; intros Hk; [done|].
  cbn in Hk. apply not_elem_of_cons in Hk as [Hne Hk]. rewrite apply_writes_cons.
  rewrite lookup_insert_ne by done. by apply IH.
Qed.

Lemma apply_writes_value L writes k value : NoDup writes.*1 → (k, value) ∈ writes →
  apply_writes L writes !! k = Some (value, next_version L k).
Proof.
  induction writes as [|[k' v'] writes IH]; intros Hnd Hk; [by apply not_elem_of_nil in Hk|].
  cbn in Hnd. apply NoDup_cons in Hnd as [Hout Hnd]. rewrite apply_writes_cons.
  apply elem_of_cons in Hk as [[= <- <-]|Hk]; [by rewrite lookup_insert_eq|].
  rewrite lookup_insert_ne; [by apply IH|]. intros ->. apply Hout.
  apply (list_elem_of_fmap_2 fst) in Hk. exact Hk.
Qed.

Lemma example_commit L rws L' : example_ledger L rws = Some L' →
  forallb (read_current_b L) (Reads rws) = true ∧ L' = apply_writes L (Writes rws).
Proof. unfold example_ledger. destruct (forallb _ _); [by intros [= <-]|done]. Qed.

#[local] Instance example_ledger_laws : NativeLedgerLaws (N := example_ledger).
Proof.
  split; intros L rws L'.
  - intros k v [Hr _]%example_commit Hin. rewrite forallb_forall in Hr.
    specialize (Hr (k, v) (proj1 (list_elem_of_In _ _) Hin)). by apply bool_decide_eq_true in Hr.
  - intros k value [_ ->]%example_commit Hnd Hin. exists (next_version L k). by apply apply_writes_value.
  - intros k [_ ->]%example_commit. apply apply_writes_out.
  - intros k r r' [_ ->]%example_commit Hk Hr Hr'.
    destruct (apply_writes_in L (Writes rws) k Hk) as [value Hv]. rewrite Hv in Hr'.
    injection Hr' as <-. cbn. unfold next_version. rewrite Hr. lia.
  - intros k [_ ->]%example_commit [r Hr]. destruct (decide (k ∈ (Writes rws).*1)) as [Hk|Hk].
    + destruct (apply_writes_in L (Writes rws) k Hk) as [value ->]. by eexists.
    + rewrite apply_writes_out by done. by eexists.
Qed.

Definition ledger_query (L : Rows) : QueryService := λ ns key,
  Ok [(ns, match L !! key with Some r => [mkRow key r.1 r.2] | None => [] end)].

Lemma ledger_query_now L : answers_now "" L (ledger_query L).
Proof.
  intros key. unfold lifecycleRow, ledger_query. cbn [mbind result_mbind find_namespace].
  rewrite bool_decide_eq_true_2 by done. cbn [negb].
  destruct (L !! key) as [[value v]|]; cbn; [by rewrite bool_decide_eq_true_2|done].
Qed.

Definition ex_plan : ReadWriteSet * bytes :=
  match lifecycle_rws (J := example_json) "mychannel" "" (ledger_query ∅) Store.ex_def
          Ledger.LifecycleEventCommit with
  | Ok (Some plan) => plan
  | _ => (mkRWS [] [], "")
  end.

Definition ex_rws : ReadWriteSet := ex_plan.1.

Definition ex_rows : Rows := apply_writes ∅ (Writes ex_rws).

Lemma ex_history : history (J := example_json) "mychannel" "" [ex_rows; ∅].
Proof.
  eapply (history_lifecycle (J := example_json) "mychannel" "" ∅ [] (ledger_query ∅) Store.ex_def
    Ledger.LifecycleEventCommit ex_rws ex_plan.2).
  - apply history_start. intros k _. apply lookup_empty.
  - intros key row H. exists ∅. split; [by left|]. rewrite ledger_query_now in H. by injection H.
  - split; [reflexivity|split; [reflexivity|]]. unfold is_int64. cbn [Store.Sequence Store.ex_def]. lia.
  - by left.
  - vm_compute. reflexivity.
  - change (example_ledger ∅ ex_rws = Some (apply_writes ∅ (Writes ex_rws))).
    unfold example_ledger.
    assert (Hreads : forallb (read_current_b ∅) (Reads ex_rws) = true) by (vm_compute; reflexivity).
    by rewrite Hreads.
Qed.

Lemma ledger_definitions_advance_witness :
  ledger_view (J := example_json) "mychannel" ex_rows "basic" = Some (Store.ex_def, false) ∧
  definition_step (ledger_view (J := example_json) "mychannel" ∅ "basic")
    (ledger_view (J := example_json) "mychannel" ex_rows "basic").
Proof.
  split; [vm_compute; reflexivity|].
  apply (ledger_definitions_advance (J := example_json) (JL := example_json_laws)
    (N := example_ledger) (NL := example_ledger_laws) "mychannel" "" [] ∅ ex_rows "basic");
    [reflexivity|exact ex_history|reflexivity].
Defined.

Lemma sync_reproduces_ledger_witness :
  ∃ s, syncLifecycleFromLedger (J := example_json) "mychannel" "" (ledger_query ex_rows) "t1"
         Store.ex_empty = (s, None) ∧
    Store.committed_view s "basic" = Some (Store.ex_def, false).
Proof.
  destruct (sync_reproduces_ledger (J := example_json) (JL := example_json_laws)
    (N := example_ledger) (NL := example_ledger_laws) "mychannel" "" [∅] ex_rows
    (ledger_query ex_rows) "t1" Store.ex_empty) as (s & Hs & Hview);
    [reflexivity|exact ex_history|reflexivity|apply ledger_query_now|discriminate|reflexivity|].
  exists s. split; [exact Hs|]. rewrite Hview. vm_compute. reflexivity.
Defined.

End LedgerSync.
