(* ===== verification/PendingLifecycle.v ===== *)
(** Pending lifecycle work, [pkg/orchestrator/lifecycle_ledger.go]: registering an operation,
    advancing its transaction, finalizing it and the recovery pass.

    Pending operations are shared by pointer, so they live in a heap.  [None] as a result of
    an operation means that the goroutine blocks there. *)
From Stdlib Require Import ZArith Lia.
From stdpp Require Import base option list strings gmap.
From S2P Require Import Prelude LifecycleStore OrchestratorTypes Json LifecycleLedger LifecycleAuth.
From S2P Require Import Msp Package LifecycleRPC LedgerSync Finality Idempotency Submission.
Import Json Finality LedgerSync.
Local Open Scope Z_scope.

Module Pending.

#[local] Existing Instance Store.ChaincodeDefinition_eq_dec.

(** The fields [Name], [Sequence] and [Event] of [lifecycleOperation]. *)
Definition lifecycleOperationKey : Type := string * Z * string.

Record pendingLifecycle := mkPending {
  operation : lifecycleOperationKey;
  definition : Store.ChaincodeDefinition;
  result_ : RPC.LedgerCommitResult;
  propagation : RPC.DefinitionPropagation;
  gate : bool }.

(** The fields under [recoveryMu], with the heap the pointers refer to. *)
Record Recovery := mkRecovery {
  heap : gmap positive pendingLifecycle;
  lifecyclePending : gmap lifecycleOperationKey positive;
  recoveryClosed : bool }.

Definition set_pending (p : positive) (v : pendingLifecycle) (s : Recovery) : Recovery :=
  mkRecovery (<[p := v]> (heap s)) (lifecyclePending s) (recoveryClosed s).

Definition with_gate (b : bool) (v : pendingLifecycle) : pendingLifecycle :=
  mkPending (operation v) (definition v) (result_ v) (propagation v) b.

Definition with_result (r : RPC.LedgerCommitResult) (v : pendingLifecycle) : pendingLifecycle :=
  mkPending (operation v) (definition v) r (propagation v) (gate v).

Definition with_propagation (p : RPC.DefinitionPropagation) (v : pendingLifecycle)
    : pendingLifecycle :=
  mkPending (operation v) (definition v) (result_ v) p (gate v).

Definition no_result : RPC.LedgerCommitResult := RPC.mkCommitResult "" "" 0 0 "" "".

Definition with_TxID (tx : string) (r : RPC.LedgerCommitResult) : RPC.LedgerCommitResult :=
  RPC.mkCommitResult tx (RPC.lc_Status r) (RPC.lc_BlockNum r) (RPC.lc_TxNum r)
    (RPC.lc_Namespace r) (RPC.lc_Key r).

Definition with_Status (st : string) (block num : Z) (r : RPC.LedgerCommitResult)
    : RPC.LedgerCommitResult :=
  RPC.mkCommitResult (RPC.lc_TxID r) st block num (RPC.lc_Namespace r) (RPC.lc_Key r).

(** ** The map of pending operations *)

(** [lock]: [ctx] is [ctx.Err()] and [arm] the [ctx.Done()] arm when [select] takes it. *)
Definition lock (v : pendingLifecycle) (ctx arm : ctx_err) : option (pendingLifecycle * option goerr) :=
  match ctx, arm with
  | Some e, _ | None, Some e => Some (v, Some e)
  | None, None => if gate v then None else Some (with_gate true v, None)
  end.

(** Receiving from an empty gate blocks. *)
Definition unlock (s : Recovery) (p : positive) : option Recovery :=
  v ← heap s !! p;
  if gate v then Some (set_pending p (with_gate false v) s) else None.

Definition event_of (initialized : bool) : string :=
  if initialized then Ledger.LifecycleEventInitialized else Ledger.LifecycleEventCommit.

(** A new operation; its gate is taken unless [ctx'] is already an error. *)
Definition create_operation (s : Recovery) (key : lifecycleOperationKey)
    (def : Store.ChaincodeDefinition) (ctx' : ctx_err) : Recovery * result positive :=
  let p := fresh (dom (heap s)) in
  let v := mkPending key def no_result (RPC.mkPropagation false [])
             (negb (bool_decide (is_Some ctx'))) in
  (mkRecovery (<[p := v]> (heap s)) (<[key := p]> (lifecyclePending s)) (recoveryClosed s),
   match ctx' with Some e => Err e | None => Ok p end).

(** [ctx] and [ctx'] are [ctx.Err()] at its two checks; [arm] belongs to [lock]. *)
Definition lifecycleOperation (s : Recovery) (ctx ctx' arm : ctx_err)
    (def : Store.ChaincodeDefinition) (initialized : bool) : option (Recovery * result positive) :=
  let key := (Store.Name def, Store.Sequence def, event_of initialized) in
  if recoveryClosed s then Some (s, Err (ENew "orchestrator is closed"))
  else
    match (p ← lifecyclePending s !! key; v ← heap s !! p; Some (p, v)) with
    | Some (p, v) =>
        if negb (bool_decide (definition v = def))
        then Some (s, Err (ENew "conflicting pending lifecycle definition for %s sequence %d"))
        else
          '(v', err) ← lock v ctx arm;
          Some (set_pending p v' s, match err with Some e => Err e | None => Ok p end)
    | None =>
        match ctx with
        | Some e => if negb initialized then Some (s, Err e)
                    else Some (create_operation s key def ctx')
        | None => Some (create_operation s key def ctx')
        end
    end.

Definition removeLifecycleOperation (s : Recovery) (p : positive) : Recovery :=
  match heap s !! p with
  | None => s
  | Some v =>
      if bool_decide (lifecyclePending s !! operation v = Some p)
      then mkRecovery (heap s) (delete (operation v) (lifecyclePending s)) (recoveryClosed s)
      else s
  end.


(** ** Advancing a transaction *)

Definition errLifecyclePending : goerr :=
  ENew "lifecycle transaction finality is pending; it will not be resubmitted".

(** What the network learns and what is learnt of it: a transaction that may have been
    ordered, and the final status of a transaction. *)
Inductive Event :=
  | Sent (txID : string)
  | Observed (txID : string) (status : CommitterStatus).

(** What one call meets: the query client and its answers, the notification stream, if any,
    and the broadcast of the transaction. *)
Record Env := mkEnv {
  e_query : QueryService;
  e_configured : bool;
  e_statuses : result (list TxStatus);
  e_notify : option notifier;
  e_broadcast : Submission.broadcast }.

(** The new [pending.result], the returned result and error, whether the operation leaves
    the map, and the events. *)
Record Outcome := mkOutcome {
  o_pending : RPC.LedgerCommitResult;
  o_result : RPC.LedgerCommitResult;
  o_err : option goerr;
  o_remove : bool;
  o_events : list Event }.

Definition emit (evs : list Event) (o : Outcome) : Outcome :=
  mkOutcome (o_pending o) (o_result o) (o_err o) (o_remove o) (evs ++ o_events o).

Section Advance.
Context {J : JSONText} {B : ProposalBuilder}.
Variable ChannelID LifecycleNamespace : string.
Variable Status_String : CommitterStatus → string.

Definition observeLifecycleFinality (event : string) (r : RPC.LedgerCommitResult) (st : TxStatus)
    : Outcome :=
  let res := with_Status (Status_String (st_Status st)) (ref_BlockNum st) (ref_TxNum st) r in
  let seen := [Observed (ref_TxId st) (st_Status st)] in
  if negb (bool_decide (st_Status st = COMMITTED))
  then
    let err := Some (ENew "lifecycle transaction status %s") in
    if bool_decide (event = Ledger.LifecycleEventInitialized)
    then mkOutcome no_result res err false seen
    else mkOutcome r res err true seen
  else mkOutcome res res None false seen.

(** The broadcast may have put the transaction into the order: it was sent, and no rejection
    came back. *)
Definition may_be_ordered (b : Submission.broadcast) : bool :=
  bool_decide (Submission.bc_package b = None) && bool_decide (Submission.bc_open b = None) &&
  match Submission.bc_send b, Submission.bc_recv b with
  | Some _, _ => true
  | None, Ok Submission.SUCCESS => true
  | None, Ok _ => false
  | None, Err _ => true
  end.

(** Delivering the prepared transaction [tx] and, with a stream, its finality. *)
Definition send_transaction (event : string) (r : RPC.LedgerCommitResult) (tx : string)
    (subscription : option (list received)) (b : Submission.broadcast) : option Outcome :=
  let sent := if may_be_ordered b then [Sent tx] else [] in
  match Submission.Submit b with
  | Some e =>
      let r := if Submission.uncertain e then r else with_TxID "" r in
      Some (mkOutcome r r (Some (EWrap "submit lifecycle transaction: %w" e)) false sent)
  | None =>
      match subscription with
      | None => Some (mkOutcome r r (Some errLifecyclePending) false sent)
      | Some stream =>
          f ← Wait tx (Some stream);
          match fr_err f, fr_status f with
          | None, Some st =>
              if isFinalStatus tx (Some st)
              then Some (emit sent (observeLifecycleFinality event r st))
              else Some (mkOutcome r r
                     (Some (EWrap "wait lifecycle finality: %w" errLifecyclePending)) false sent)
          | e, _ => Some (mkOutcome r r
                     (Some (EWrap "wait lifecycle finality: %w"
                        (match e with Some e => EJoin errLifecyclePending e | None => errLifecyclePending end)))
                     false sent)
          end
      end
  end.

(** [advanceLifecycleTransaction] on an operation for [def] and [event] whose result is [r]. *)
Definition advance (event : string) (def : Store.ChaincodeDefinition) (r : RPC.LedgerCommitResult)
    (wait : bool) (env : Env) : option Outcome :=
  if bool_decide (RPC.lc_Status r = Status_String COMMITTED) then Some (mkOutcome r r None false [])
  else if negb (bool_decide (RPC.lc_TxID r = ""))
  then match queryTransactionStatus (e_configured env) (e_statuses env) (RPC.lc_TxID r) with
       | Err e => Some (mkOutcome r r (Some e) false [])
       | Ok None => Some (mkOutcome r r (Some errLifecyclePending) false [])
       | Ok (Some st) => Some (observeLifecycleFinality event r st)
       end
  else
    match prepareLifecycleTransaction ChannelID LifecycleNamespace (e_query env) def event with
    | Err e => Some (mkOutcome r r (Some e) (errors_Is e errLifecycleSuperseded) [])
    | Ok (_, tx) =>
        let r := RPC.mkCommitResult tx "" 0 0 (lifecycleNamespace LifecycleNamespace)
                   (Ledger.LedgerKey ChannelID (Store.Name def)) in
        if bool_decide (tx = "")
        then let r := with_Status (Status_String COMMITTED) 0 0 r in Some (mkOutcome r r None false [])
        else if wait then
          match subscribeFinality (e_notify env) with
          | Err e => Some (mkOutcome (with_TxID "" r) (with_TxID "" r)
                        (Some (EWrap "subscribe lifecycle finality: %w" e)) false [])
          | Ok subscription => send_transaction event r tx subscription (e_broadcast env)
          end
        else send_transaction event r tx None (e_broadcast env)
    end.

Definition advanceLifecycleTransaction (s : Recovery) (p : positive) (wait : bool) (env : Env)
    : option (Recovery * RPC.LedgerCommitResult * option goerr * list Event) :=
  v ← heap s !! p;
  o ← advance (operation v).2 (definition v) (result_ v) wait env;
  let s' := set_pending p (with_result (o_pending o) v) s in
  Some (if o_remove o then removeLifecycleOperation s' p else s', o_result o, o_err o, o_events o).

(** [submitLifecycleDefinition]: [None] in the answer's error is a nil error. *)
Definition submitLifecycleDefinition (s : Recovery) (ctx ctx' arm : ctx_err)
    (def : Store.ChaincodeDefinition) (initialized : bool) (env : Env)
    : option (Recovery * RPC.LedgerCommitResult * option goerr * list Event) :=
  '(s1, reserved) ← lifecycleOperation s ctx ctx' arm def initialized;
  match reserved with
  | Err e => Some (s1, no_result, Some e, [])
  | Ok p =>
      '(s2, result, err, evs) ← advanceLifecycleTransaction s1 p true env;
      let s3 := if bool_decide (is_Some err) && bool_decide (RPC.lc_TxID result = "") && negb initialized
                then removeLifecycleOperation s2 p else s2 in
      s4 ← unlock s3 p;
      Some (s4, result, err, evs)
  end.

Definition CommitLifecycleDefinition (s : Recovery) (ctx ctx' arm : ctx_err)
    (def : Store.ChaincodeDefinition) (env : Env) :=
  submitLifecycleDefinition s ctx ctx' arm def false env.

Definition MarkLifecycleInitialized (s : Recovery) (ctx ctx' arm : ctx_err)
    (def : Store.ChaincodeDefinition) (env : Env) :=
  if negb (Store.InitRequired def)
  then Some (s, no_result, Some (ENew "definition %s does not require init"), [])
  else submitLifecycleDefinition s ctx ctx' arm def true env.

End Advance.

(** ** Finalizing *)

Section Finalize.
Context {J : JSONText} {L : Msp.MSPLib} {PJ : RPC.PayloadJSON} {B : ProposalBuilder}.
Variable ChannelID LifecycleNamespace MspID : string.
Variable lifecycleAuth : option LifecycleAuth.Authorizer.
Variable signer : option LifecycleAuth.Signer.
Variable Status_String : CommitterStatus → string.

(** [lifecycleServer]: the service is its own ledger backend and peer provider.  [commit] and
    [finalize] are its methods of those names. *)
Definition lifecycleServer (query : QueryService)
    (commit : Store.ChaincodeDefinition → result RPC.LedgerCommitResult)
    (finalize : Store.Store → Store.ChaincodeDefinition → bool →
       Store.Store * result Store.CommittedDefinition)
    (remotes : option (Store.ChaincodeDefinition → result (list RPC.RemotePeer))) : RPC.Server :=
  RPC.mkServer ChannelID lifecycleAuth signer MspID
    (Some (RPC.mkBackend commit (ReadLifecycleDefinition ChannelID LifecycleNamespace query)
       (Some finalize))) remotes.

Definition zero_committed : Store.CommittedDefinition :=
  Store.mkCommitted (Store.mkDefinition "" "" 0 false) "" false.

(** [srv] is [lifecycleServer] with the service's methods. *)
Definition finalizeLifecycleOperation (srv : RPC.Server) (senv : RPC.Env) (query : QueryService)
    (s : Recovery) (store : Store.Store) (p : positive)
    : option (Recovery * Store.Store * result Store.CommittedDefinition) :=
  v ← heap s !! p;
  match ReadLifecycleDefinition ChannelID LifecycleNamespace query (definition v) with
  | Err e => Some (s, store, Err e)
  | Ok ledger =>
      if match ledger with
         | Some l => Ledger.ld_Sequence l >? Store.Sequence (definition v)
         | None => false
         end
      then Some (removeLifecycleOperation s p, store, Ok zero_committed)
      else
        let initialized := bool_decide ((operation v).2 = Ledger.LifecycleEventInitialized) in
        let '(store', progress, r) :=
          RPC.ReconcileDefinition srv senv store (definition v) initialized (propagation v) in
        let s' := set_pending p (with_propagation progress v) s in
        Some (if is_ok r then removeLifecycleOperation s' p else s', store', r)
  end.

Definition FinalizeLifecycleDefinition (srv : RPC.Server) (senv : RPC.Env) (query : QueryService)
    (s : Recovery) (store : Store.Store) (ctx ctx' arm : ctx_err) (def : Store.ChaincodeDefinition)
    (initialized : bool) : option (Recovery * Store.Store * result Store.CommittedDefinition) :=
  '(s1, reserved) ← lifecycleOperation s ctx ctx' arm def initialized;
  match reserved with
  | Err e => Some (s1, store, Err e)
  | Ok p =>
      '(s2, store', r) ← finalizeLifecycleOperation srv senv query s1 store p;
      s3 ← unlock s2 p;
      Some (s3, store', r)
  end.

(** [markInitializedAfterCommit] on a service with a lifecycle store; the surroundings of its
    two steps are apart. *)
Definition markInitializedAfterCommit (srv : RPC.Server) (senv : RPC.Env) (env env' : Env)
    (s : Recovery) (store : Store.Store) (ctx ctx' arm : ctx_err) (ctx2 ctx2' arm2 : ctx_err)
    (def : Store.ChaincodeDefinition) : option (Recovery * Store.Store * option goerr) :=
  '(s1, _, err, _) ← MarkLifecycleInitialized ChannelID LifecycleNamespace Status_String
                       s ctx ctx' arm def env;
  match err with
  | Some e => Some (s1, store, Some (EWrap "mark lifecycle initialized on ledger: %w" e))
  | None =>
      '(s2, store', r) ← FinalizeLifecycleDefinition srv senv (e_query env') s1 store
                           ctx2 ctx2' arm2 def true;
      Some (s2, store', match r with
                        | Err e => Some (EWrap "reconcile lifecycle initialized mirrors: %w" e)
                        | Ok _ => None
                        end)
  end.

(** ** The recovery pass *)

(** What the pass meets at one operation of its batch. *)
Record Visit := mkVisit { vi_ctx : ctx_err; vi_env : Env; vi_server : RPC.Server; vi_senv : RPC.Env }.

Definition recover_one (s : Recovery) (store : Store.Store) (p : positive) (visit : Visit)
    : option (Recovery * Store.Store * list Event) :=
  v ← heap s !! p;
  if gate v then Some (s, store, [])
  else
    let s := set_pending p (with_gate true v) s in
    if negb (bool_decide (lifecyclePending s !! operation v = Some p))
    then s ← unlock s p; Some (s, store, [])
    else if bool_decide ((operation v).2 = Ledger.LifecycleEventCommit) &&
            bool_decide (RPC.lc_TxID (result_ v) = "") && bool_decide (RPC.lc_Status (result_ v) = "")
    then s ← unlock (removeLifecycleOperation s p) p; Some (s, store, [])
    else
      '(s, _, err, evs) ← advanceLifecycleTransaction ChannelID LifecycleNamespace Status_String
                            s p false (vi_env visit);
      match err with
      | Some _ => s ← unlock s p; Some (s, store, evs)
      | None =>
          '(s, store, _) ← finalizeLifecycleOperation (vi_server visit) (vi_senv visit)
                             (e_query (vi_env visit)) s store p;
          s ← unlock s p; Some (s, store, evs)
      end.

Fixpoint recover_batch (s : Recovery) (store : Store.Store) (batch : list (positive * Visit))
    : option (Recovery * Store.Store * list Event) :=
  match batch with
  | [] => Some (s, store, [])
  | (p, visit) :: rest =>
      if bool_decide (is_Some (vi_ctx visit)) then Some (s, store, [])
      else
        '(s, store, evs) ← recover_one s store p visit;
        '(s, store, evs') ← recover_batch s store rest;
        Some (s, store, evs ++ evs')
  end.

(** [order] is the iteration order of the map, as pointers; [visits] what is met at each. *)
Definition reconcileLifecyclePending (s : Recovery) (store : Store.Store) (order : list positive)
    (visits : positive → Visit) : option (Recovery * Store.Store * list Event) :=
  recover_batch s store ((λ p, (p, visits p)) <$> take Submission.recoveryBatchSize order).

(** The service as its own backend meets what the lifecycle server expects of a finalizer: a
    finalized definition is what the ledger holds for it. *)
Lemma finalizeLifecycleOperation_mirrors srv senv query s store p v s' store' r :
  heap s !! p = Some v →
  finalizeLifecycleOperation srv senv query s store p = Some (s', store', r) →
  RPC.mirrors srv store (definition v) store'.
Proof.
  unfold finalizeLifecycleOperation. intros ->. cbn [mbind option_bind].
  destruct (ReadLifecycleDefinition _ _ _ _) as [l|e]; [|injection 1 as <- <- <-; by left].
  destruct (match l with Some _ => _ | None => _ end); [injection 1 as <- <- <-; by left|].
  destruct (RPC.ReconcileDefinition _ _ _ _ _ _) as [[st pr] r'] eqn:E. intros [= _ <- _].
  by eapply RPC.ReconcileDefinition_mirrors.
Qed.

Lemma lifecycleOperation_definition s ctx ctx' arm def initialized s' p :
  lifecycleOperation s ctx ctx' arm def initialized = Some (s', Ok p) →
  ∃ v, heap s' !! p = Some v ∧ definition v = def.
Proof.
  assert (Hnew : ∀ s key, (create_operation s key def ctx') = (s', Ok p) →
    ∃ v, heap s' !! p = Some v ∧ definition v = def).
  { intros s0 key. unfold create_operation. destruct ctx'; [done|]. intros [= <- <-].
    eexists. cbn. by rewrite lookup_insert_eq. }
  unfold lifecycleOperation. destruct (recoveryClosed s); [done|].
  destruct (p ← _; _) as [[q v]|].
  - case_bool_decide as Hd; [|done]. cbn [negb]. unfold lock.
    destruct ctx as [e|]; [done|]. destruct arm as [e|]; [done|]. destruct (gate v); [done|].
    intros [= <- <-]. exists (with_gate true v). cbn. by rewrite lookup_insert_eq.
  - destruct ctx as [e|]; [destruct (negb initialized); [done|]|]; intros H; apply (inj Some) in H;
      by eapply Hnew.
Qed.

Lemma FinalizeLifecycleDefinition_mirrors srv senv query s store ctx ctx' arm def initialized s' store' r :
  FinalizeLifecycleDefinition srv senv query s store ctx ctx' arm def initialized =
    Some (s', store', r) → RPC.mirrors srv store def store'.
Proof.
  unfold FinalizeLifecycleDefinition.
  destruct (lifecycleOperation _ _ _ _ _ _) as [[s1 [p|e]]|] eqn:Hop; [|intros [= _ <- _]; by left|done].
  apply lifecycleOperation_definition in Hop as (v & Hv & <-). cbn [mbind option_bind].
  destruct (finalizeLifecycleOperation _ _ _ _ _ _) as [[[s2 st] r']|] eqn:Hfin; [|done].
  cbn [mbind option_bind]. destruct (unlock s2 p); [|done]. intros [= _ <- _].
  by eapply finalizeLifecycleOperation_mirrors.
Qed.

End Finalize.

(** ** Traces of one operation *)

Section Traces.
Context {J : JSONText} {B : ProposalBuilder}.
Variable ChannelID LifecycleNamespace : string.
Variable Status_String : CommitterStatus → string.

(** Successive calls for one operation, each with its surroundings. *)
Fixpoint advance_all (event : string) (def : Store.ChaincodeDefinition) (r : RPC.LedgerCommitResult)
    (calls : list (bool * Env)) : option (RPC.LedgerCommitResult * list Event) :=
  match calls with
  | [] => Some (r, [])
  | (wait, env) :: rest =>
      o ← advance ChannelID LifecycleNamespace Status_String event def r wait env;
      '(r', evs) ← advance_all event def (o_pending o) rest;
      Some (r', o_events o ++ evs)
  end.

(** What is known of the operation's transaction. *)
Inductive phase := Idle | Outstanding (tx : string) | Rejected (tx : string) | Done.

Definition move (ph : phase) (e : Event) : option phase :=
  match ph, e with
  | (Idle | Rejected _), Sent tx => Some (Outstanding tx)
  | (Outstanding tx | Rejected tx), Observed tx' st =>
      if bool_decide (tx' = tx)
      then Some (if bool_decide (st = COMMITTED) then Done else Rejected tx) else None
  | _, _ => None
  end.

Fixpoint moves (ph : phase) (evs : list Event) : option phase :=
  match evs with
  | [] => Some ph
  | e :: rest => ph' ← move ph e; moves ph' rest
  end.

(** The stored result agrees with what is known. *)
Definition agrees (r : RPC.LedgerCommitResult) (ph : phase) : Prop :=
  let committed := RPC.lc_Status r = Status_String COMMITTED in
  match ph with
  | Idle => RPC.lc_TxID r = "" ∨ committed
  | Outstanding tx => RPC.lc_TxID r = tx ∧ tx ≠ "" ∧ ¬ committed
  | Rejected tx => committed ∨ RPC.lc_TxID r = "" ∨ RPC.lc_TxID r = tx
  | Done => committed
  end.

Lemma moves_app ph evs1 evs2 ph' :
  moves ph evs1 = Some ph' → moves ph (evs1 ++ evs2) = moves ph' evs2.
Proof.
  revert ph. induction evs1 as [|e evs1 IH]; intros ph; cbn [app moves]; [by intros [= ->]|].
  destruct (move ph e); [|done]. apply IH.
Qed.

(** The enum's name of the committed status is not the empty string. *)
Hypothesis Status_nonempty : Status_String COMMITTED ≠ "".

Lemma Submit_ordered b :
  (∀ e, Submission.bc_package b = Some e → errors_As_ordering e = None) →
  may_be_ordered b = match Submission.Submit b with Some e => Submission.uncertain e | None => true end.
Proof.
  intros Hp. unfold may_be_ordered, Submission.Submit, Submission.uncertain.
  destruct (Submission.bc_package b) as [e|]; [cbn; by rewrite (Hp e eq_refl)|].
  destruct (Submission.bc_open b); [done|]. destruct (Submission.bc_send b); [done|].
  by destruct (Submission.bc_recv b) as [[]|].
Qed.

Lemma observe_agrees event r st ph :
  (ph = Outstanding (ref_TxId st) ∨ ph = Rejected (ref_TxId st)) → RPC.lc_TxID r = ref_TxId st →
  let o := observeLifecycleFinality Status_String event r st in
  ∃ ph', moves ph (o_events o) = Some ph' ∧ agrees (o_pending o) ph'.
Proof.
  intros Hph Hr. unfold observeLifecycleFinality.
  assert (Hmove : move ph (Observed (ref_TxId st) (st_Status st)) =
    Some (if bool_decide (st_Status st = COMMITTED) then Done else Rejected (ref_TxId st))).
  { destruct Hph as [-> | ->]; cbn [move]; by rewrite bool_decide_eq_true_2. }
  case_bool_decide as Hc; cbn [negb].
  - exists Done. cbn [o_events o_pending moves]. rewrite Hmove. split; [done|]. cbn. by rewrite Hc.
  - exists (Rejected (ref_TxId st)).
    case_bool_decide; cbn [o_events o_pending moves]; rewrite Hmove; (split; [done|]).
    + right. by left.
    + right. by right.
Qed.

Lemma send_agrees event r tx subscription b ph o :
  (∀ e, Submission.bc_package b = Some e → errors_As_ordering e = None) →
  RPC.lc_TxID r = tx → tx ≠ "" → RPC.lc_Status r = "" → (ph = Idle ∨ ∃ tx', ph = Rejected tx') →
  send_transaction Status_String event r tx subscription b = Some o →
  ∃ ph', moves ph (o_events o) = Some ph' ∧ agrees (o_pending o) ph'.
Proof.
  intros Hp Hr Htx Hst Hph. unfold send_transaction. rewrite (Submit_ordered b Hp).
  assert (Hsent : move ph (Sent tx) = Some (Outstanding tx)) by (by destruct Hph as [-> |[tx' ->]]).
  assert (Hout : agrees r (Outstanding tx)) by (split_and!; [done..|by rewrite Hst]).
  assert (Hkept : ∃ ph', moves ph [Sent tx] = Some ph' ∧ agrees r ph').
  { exists (Outstanding tx). cbn [moves]. by rewrite Hsent. }
  destruct (Submission.Submit b) as [e|].
  { destruct (Submission.uncertain e); intros [= <-]; cbn [o_events o_pending]; [done|].
    exists ph. split; [done|]. destruct Hph as [-> |[tx' ->]]; cbn; auto. }
  destruct subscription as [stream|]; [|by intros [= <-]].
  destruct (Wait tx (Some stream)) as [f|]; [|done]. cbn [mbind option_bind].
  destruct (fr_err f); [by intros [= <-]|]. destruct (fr_status f) as [st|]; [|by intros [= <-]].
  destruct (isFinalStatus tx (Some st)) eqn:Hfin; [|by intros [= <-]]. intros [= <-].
  cbn in Hfin. apply andb_true_iff in Hfin as [Hfin%bool_decide_eq_true _].
  destruct (observe_agrees event r st (Outstanding (ref_TxId st))) as (ph' & Hm & Ha); [by left|congruence|].
  exists ph'. split; [|done]. cbn [emit o_events app moves]. rewrite Hsent. cbn [mbind option_bind].
  by rewrite <- Hfin.
Qed.

Lemma advance_agrees event def r wait env ph o :
  (∀ e, Submission.bc_package (e_broadcast env) = Some e → errors_As_ordering e = None) →
  agrees r ph →
  advance ChannelID LifecycleNamespace Status_String event def r wait env = Some o →
  ∃ ph', moves ph (o_events o) = Some ph' ∧ agrees (o_pending o) ph'.
Proof.
  intros Hp Ha. unfold advance.
  assert (Hsame : ∃ ph', moves ph [] = Some ph' ∧ agrees r ph') by (by exists ph).
  case_bool_decide as Hc; [by intros [= <-]|]. case_bool_decide as Htx; cbn [negb].
  2:{ destruct (queryTransactionStatus _ _ _) as [[st|]|e] eqn:Hq; [|by intros [= <-]..].
      intros [= <-]. unfold queryTransactionStatus in Hq. destruct (negb _); [done|].
      destruct (e_statuses env) as [l|]; [|done]. injection Hq as Hq.
      assert (Href : ref_TxId st = RPC.lc_TxID r).
      { clear -Hq. induction l as [|s l IH]; [done|]. cbn [find_final] in Hq.
        destruct (isFinalStatus _ (Some s)) eqn:Hf; [|by apply IH].
        injection Hq as ->. cbn in Hf. by apply andb_true_iff in Hf as [Hf%bool_decide_eq_true _]. }
      apply observe_agrees; [|done]. rewrite Href.
      destruct ph as [|tx|tx|]; cbn in Ha; [naive_solver| | |done].
      - destruct Ha as (<- & _). by left.
      - destruct Ha as [?|[?|<-]]; [done..|]. by right. }
  assert (Hph : ph = Idle ∨ ∃ tx', ph = Rejected tx').
  { destruct ph as [|tx|tx|]; cbn in Ha; [by left| |right; by eexists|done].
    by destruct Ha as (<- & ? & _). }
  destruct (prepareLifecycleTransaction _ _ _ _ _) as [[end_ tx]|e]; [|by intros [= <-]].
  case_bool_decide as Hne.
  { intros [= <-]. exists ph. split; [done|]. destruct Hph as [-> |[tx' ->]]; cbn; auto. }
  destruct wait; [destruct (subscribeFinality (e_notify env)) as [sub|e]|].
  - by apply send_agrees.
  - intros [= <-]. exists ph. split; [done|]. destruct Hph as [-> |[tx' ->]]; cbn; auto.
  - by apply send_agrees.
Qed.

Definition certain_packager (env : Env) : Prop :=
  ∀ e, Submission.bc_package (e_broadcast env) = Some e → errors_As_ordering e = None.

Lemma advance_all_moves event def r calls ph r' evs :
  (∀ x, x ∈ calls → certain_packager x.2) → agrees r ph →
  advance_all event def r calls = Some (r', evs) → ∃ ph', moves ph evs = Some ph' ∧ agrees r' ph'.
Proof.
  revert r ph evs. induction calls as [|[wait env] calls IH]; intros r ph evs Hp Ha; cbn [advance_all].
  { intros [= <- <-]. by exists ph. }
  destruct (advance _ _ _ _ _ _ _ _) as [o|] eqn:Ho; [|done]. cbn [mbind option_bind].
  apply (advance_agrees _ _ _ _ _ ph) in Ho as (ph1 & Hm1 & Ha1); [|apply (Hp (wait, env)); by left|done].
  destruct (advance_all event def (o_pending o) calls) as [[r1 evs1]|] eqn:Hrest; [|done].
  intros [= <- <-]. eapply IH in Hrest as (ph2 & Hm2 & Ha2); [|intros x Hx; apply Hp; by right|done].
  exists ph2. split; [|done]. by rewrite (moves_app _ _ _ _ Hm1).
Qed.

Lemma moves_resend tx t2 tx' t3 ph :
  moves (Outstanding tx) (t2 ++ Sent tx' :: t3) = Some ph →
  ∃ st, Observed tx st ∈ t2 ∧ st ≠ COMMITTED.
Proof.
  destruct t2 as [|[tx2|tx2 st] t2]; [done..|]. cbn [app moves move].
  case_bool_decide as E; [|done]. cbn [mbind option_bind]. subst tx2. case_bool_decide as Hc.
  - assert (Hdone : ∀ l, moves Done (l ++ Sent tx' :: t3) = None) by (by intros [|[]]).
    by rewrite Hdone.
  - intros _. exists st. split; [by left|done].
Qed.

(** C16: A lifecycle transaction that may have been ordered is never sent again: between two
    sends for one operation, however often and with whatever outcomes it is advanced, the
    first transaction was observed with a final status other than committed. *)
Theorem lifecycle_never_resent event def calls r' t1 tx t2 tx' t3 :
  (∀ x, x ∈ calls → certain_packager x.2) →
  advance_all event def no_result calls = Some (r', t1 ++ Sent tx :: t2 ++ Sent tx' :: t3) →
  ∃ st, Observed tx st ∈ t2 ∧ st ≠ COMMITTED.
Proof.
  intros Hp Hall. apply (advance_all_moves _ _ _ _ Idle) in Hall as (ph & Hm & _); [|done|by left].
  destruct (moves Idle t1) as [ph1|] eqn:Ht1.
  - rewrite (moves_app _ _ _ _ Ht1) in Hm. cbn [moves] in Hm.
    destruct (move ph1 (Sent tx)) as [ph2|] eqn:Hs; [|done].
    assert (ph2 = Outstanding tx) as -> by (destruct ph1; by simplify_eq/=).
    by eapply moves_resend.
  - exfalso. assert (Hnone : ∀ ph l, moves ph t1 = None → moves ph (t1 ++ l) = None).
    { clear. induction t1 as [|e t1 IH]; intros ph l; [done|]. cbn [app moves].
      destruct (move ph e); [apply IH|done]. }
    by rewrite Hnone in Hm.
Qed.

End Traces.


(** ** Witnesses *)

#[local] Instance example_builder : ProposalBuilder := {
  NewSignedProposal _ _ _ := Ok (Types.mkSignedProposal "proposal" "signature");
  Parse prop := Ok (mkInvocation (Types.mkProposal "" (Types.ProposalBytes prop) "") "tx1");
  Endorse _ _ _ := Ok (Types.mkProposalResponse None "" None) }.

Definition ex_status (st : CommitterStatus) : string :=
  if bool_decide (st = COMMITTED) then "COMMITTED" else "OTHER".

(** The acknowledgement of the first send is lost; the network reports an abort; the marker is
    sent again. *)
Definition ex_env (statuses : list TxStatus) : Env :=
  mkEnv (ledger_query ex_rows) true (Ok statuses) None
    (Submission.mkBroadcast None None None (Err ECanceled)).

Definition ex_calls : list (bool * Env) :=
  [(true, ex_env []); (false, ex_env [mkTxStatus "tx1" 7 0 ABORTED_MVCC_CONFLICT]); (false, ex_env [])].

Lemma lifecycle_never_resent_witness :
  ∃ r', advance_all (J := example_json) "mychannel" "" ex_status Ledger.LifecycleEventInitialized
      Store.ex_def no_result ex_calls =
      Some (r', [] ++ Sent "tx1" :: [Observed "tx1" ABORTED_MVCC_CONFLICT] ++ Sent "tx1" :: []) ∧
    ∃ st, Observed "tx1" st ∈ [Observed "tx1" ABORTED_MVCC_CONFLICT] ∧ st ≠ COMMITTED.
Proof.
  assert (H : snd <$> advance_all (J := example_json) "mychannel" "" ex_status
      Ledger.LifecycleEventInitialized Store.ex_def no_result ex_calls =
    Some ([] ++ Sent "tx1" :: [Observed "tx1" ABORTED_MVCC_CONFLICT] ++ Sent "tx1" :: []))
    by (vm_compute; reflexivity).
  destruct (advance_all (J := example_json) "mychannel" "" ex_status Ledger.LifecycleEventInitialized
      Store.ex_def no_result ex_calls) as [[r' evs]|] eqn:E; [|discriminate H].
  injection H as ->. exists r'. split; [reflexivity|].
  refine (lifecycle_never_resent (J := example_json) "mychannel" "" ex_status _
    Ledger.LifecycleEventInitialized Store.ex_def ex_calls r' [] "tx1" [Observed "tx1" ABORTED_MVCC_CONFLICT] "tx1" [] _ E);
    [discriminate|].
  intros x Hx e. apply list_elem_of_In in Hx.
  destruct Hx as [<-|[<-|[<-|[]]]]; discriminate.
Defined.

End Pending.
