(* ===== verification/RecoveryShutdown.v ===== *)
(** The shutdown of the recovery passes of [orchestrator/execution.go] and
    [orchestrator/lifecycle_ledger.go], with what a pass does.

    [Passes] counts the passes; here the pass that works runs the body of
    [triggerReconciliation], [reconcilePendingBefore] and then [reconcileLifecyclePending],
    statement by statement, on the submission records and the pending lifecycle operations that
    it shares with every other goroutine.  Taking the lock of a record and the gate of an
    operation does not wait; releasing them is a receive, which blocks when they are not held.  A
    call of the network is [Network] as long as the pass's context lives: it needs an answer.
    Once the context has ended it is [Own], because a gRPC call returns then, with any result;
    a call that did not get the context would stay [Network].  [pass_body_refined] ties the body to
    the functions of [Submission] and [Pending]: what they compute, its statements reach. *)
From Stdlib Require Import ZArith Lia.
From stdpp Require Import base option list strings gmap relations.
From S2P Require Import Prelude LifecycleStore OrchestratorTypes Json LifecycleLedger LifecycleAuth.
From S2P Require Import Msp Package LifecycleRPC LedgerSync Finality Idempotency Submission.
From S2P Require Import PendingLifecycle RecoveryPass Instances.
Local Open Scope Z_scope.

Module Shutdown.

(** ** State *)

(** What all goroutines share. *)
Record shared := mkShared {
  sh_records : Idempotency.idempotencyStore;
  sh_pending : Pending.Recovery;
  sh_store : Store.Store }.

(** Where the body of a pass is.  The map is the code's [pending], from transaction IDs to the
    records whose locks are held. *)
Inductive place : Type :=
  | Start
  | Locking (batch : list positive) (held : gmap string positive)
  | Holding (p : positive) (batch : list positive) (held : gmap string positive)
  | Querying (held : gmap string positive)
  | Recording (statuses : list Finality.TxStatus) (held : gmap string positive)
  | Unlocking (ps : list positive)
  | Listing
  | Visiting (batch : list positive)
  | Entering (p : positive) (batch : list positive)
  | Checking (p : positive) (batch : list positive)
  | Advancing (p : positive) (batch : list positive)
  | Finalizing (p : positive) (batch : list positive)
  | Releasing (p : positive) (batch : list positive)
  | Ended.

(** Who makes a step possible: the goroutine alone, or an answer of the network. *)
Inductive origin : Type := Own | Network.

Definition call (ended : bool) : origin := if ended then Own else Network.

Definition gate_of (s : Pending.Recovery) (p : positive) : option bool :=
  Pending.gate <$> Pending.heap s !! p.

(** ** The body of a pass *)

Section Body.
Context {J : Json.JSONText} {L : Msp.MSPLib} {PJ : RPC.PayloadJSON} {B : LedgerSync.ProposalBuilder}.
Variable ChannelID LifecycleNamespace : string.
Variable Status_String : Finality.CommitterStatus → string.
Variable queryService : bool.

(** One statement; [ended] is whether the pass's context has ended. *)
Inductive body_step (cutoff : Z) (ended : bool) : shared → place → origin → shared → place → Prop :=
  (** [reconcilePendingBefore] *)
  | bs_skip sh : queryService = false ∨ ended = true → body_step cutoff ended sh Start Own sh Listing
  | bs_pending sh order : queryService = true → ended = false →
      body_step cutoff ended sh Start Own sh
        (Locking (Idempotency.pendingRecordsBefore (sh_records sh) order Submission.recoveryBatchSize
           (Some cutoff)) ∅)
  | bs_busy s pn st p batch held s' :
      Idempotency.tryLockFinality s p = (s', false) →
      body_step cutoff ended (mkShared s pn st) (Locking (p :: batch) held) Own
        (mkShared s' pn st) (Locking batch held)
  | bs_lock s pn st p batch held s' :
      Idempotency.tryLockFinality s p = (s', true) →
      body_step cutoff ended (mkShared s pn st) (Locking (p :: batch) held) Own
        (mkShared s' pn st) (Holding p batch held)
  | bs_gone s pn st p batch held s' :
      Idempotency.pending s (Some p) = None → Idempotency.unlockFinality s p = Some s' →
      body_step cutoff ended (mkShared s pn st) (Holding p batch held) Own
        (mkShared s' pn st) (Locking batch held)
  | bs_hold sh p batch held inv :
      Idempotency.pending (sh_records sh) (Some p) = Some inv →
      body_step cutoff ended sh (Holding p batch held) Own
        sh (Locking batch (<[Types.TxID (Idempotency.si_Response inv) := p]> held))
  | bs_none sh : body_step cutoff ended sh (Locking [] ∅) Own sh Listing
  | bs_query sh held : held ≠ ∅ → body_step cutoff ended sh (Locking [] held) Own sh (Querying held)
  | bs_unavailable sh held ps : ps ≡ₚ (map_to_list held).*2 →
      body_step cutoff ended sh (Querying held) (call ended) sh (Unlocking ps)
  | bs_statuses sh held statuses :
      body_step cutoff ended sh (Querying held) (call ended) sh (Recording statuses held)
  | bs_ignore sh held st statuses :
      held !! Finality.ref_TxId st = None ∨
        Finality.isFinalStatus (Finality.ref_TxId st) (Some st) = false →
      body_step cutoff ended sh (Recording (st :: statuses) held) Own sh (Recording statuses held)
  | bs_record now s pn ls held st statuses p after_commit s' err ran :
      held !! Finality.ref_TxId st = Some p →
      Finality.isFinalStatus (Finality.ref_TxId st) (Some st) = true →
      Submission.recordFinality Status_String now s (Some p) (Some st) after_commit = Some (s', err, ran) →
      body_step cutoff ended (mkShared s pn ls) (Recording (st :: statuses) held) (call ended)
        (mkShared s' pn ls) (Recording statuses held)
  | bs_recorded sh held ps : ps ≡ₚ (map_to_list held).*2 →
      body_step cutoff ended sh (Recording [] held) Own sh (Unlocking ps)
  | bs_unlock s pn st p ps s' :
      Idempotency.unlockFinality s p = Some s' →
      body_step cutoff ended (mkShared s pn st) (Unlocking (p :: ps)) Own (mkShared s' pn st) (Unlocking ps)
  | bs_unlocked sh : body_step cutoff ended sh (Unlocking []) Own sh Listing
  (** [reconcileLifecyclePending] *)
  | bs_list sh order :
      (∀ p, p ∈ order → ∃ k, Pending.lifecyclePending (sh_pending sh) !! k = Some p) →
      body_step cutoff ended sh Listing Own sh (Visiting (take Submission.recoveryBatchSize order))
  | bs_cancelled sh p batch : ended = true → body_step cutoff ended sh (Visiting (p :: batch)) Own sh Ended
  | bs_live sh p batch : ended = false → body_step cutoff ended sh (Visiting (p :: batch)) Own sh (Entering p batch)
  (** The [select] with its [default]: a gate that another goroutine holds is passed over. *)
  | bs_taken sh p batch : gate_of (sh_pending sh) p = Some true →
      body_step cutoff ended sh (Entering p batch) Own sh (Visiting batch)
  | bs_gate s pn st p batch v :
      Pending.heap pn !! p = Some v → Pending.gate v = false →
      body_step cutoff ended (mkShared s pn st) (Entering p batch) Own
        (mkShared s (Pending.set_pending p (Pending.with_gate true v) pn) st) (Checking p batch)
  | bs_replaced sh p batch v :
      Pending.heap (sh_pending sh) !! p = Some v →
      Pending.lifecyclePending (sh_pending sh) !! Pending.operation v ≠ Some p →
      body_step cutoff ended sh (Checking p batch) Own sh (Releasing p batch)
  | bs_unsent s pn st p batch v :
      Pending.heap pn !! p = Some v →
      (Pending.operation v).2 = Ledger.LifecycleEventCommit →
      RPC.lc_TxID (Pending.result_ v) = "" → RPC.lc_Status (Pending.result_ v) = "" →
      body_step cutoff ended (mkShared s pn st) (Checking p batch) Own
        (mkShared s (Pending.removeLifecycleOperation pn p) st) (Releasing p batch)
  | bs_current sh p batch v :
      Pending.heap (sh_pending sh) !! p = Some v →
      Pending.lifecyclePending (sh_pending sh) !! Pending.operation v = Some p →
      ((Pending.operation v).2 ≠ Ledger.LifecycleEventCommit ∨
       RPC.lc_TxID (Pending.result_ v) ≠ "" ∨ RPC.lc_Status (Pending.result_ v) ≠ "") →
      body_step cutoff ended sh (Checking p batch) Own sh (Advancing p batch)
  | bs_advance env s pn st p batch pn' res err evs :
      Pending.advanceLifecycleTransaction ChannelID LifecycleNamespace Status_String pn p false env =
        Some (pn', res, err, evs) →
      body_step cutoff ended (mkShared s pn st) (Advancing p batch) (call ended)
        (mkShared s pn' st) (if err then Releasing p batch else Finalizing p batch)
  | bs_finalize srv senv query s pn st p batch pn' st' r :
      Pending.finalizeLifecycleOperation ChannelID LifecycleNamespace srv senv query pn st p =
        Some (pn', st', r) →
      body_step cutoff ended (mkShared s pn st) (Finalizing p batch) (call ended)
        (mkShared s pn' st') (Releasing p batch)
  | bs_release s pn st p batch pn' :
      Pending.unlock pn p = Some pn' →
      body_step cutoff ended (mkShared s pn st) (Releasing p batch) Own (mkShared s pn' st) (Visiting batch)
  | bs_visited sh : body_step cutoff ended sh (Visiting []) Own sh Ended.

End Body.

(** ** The body and the operations it is made of

    A pass whose context lives runs [reconcilePendingBefore] and [reconcileLifecyclePending]: what
    these leave, as they are defined in [Submission] and [Pending], the body leaves after finitely
    many of its statements. *)
Section Refinement.
Context {J : Json.JSONText} {L : Msp.MSPLib} {PJ : RPC.PayloadJSON} {B : LedgerSync.ProposalBuilder}.
Variable ChannelID LifecycleNamespace : string.
Variable Status_String : Finality.CommitterStatus → string.
Variable queryService : bool.
Variable cutoff : Z.

Definition body_runs (a b : shared * place) : Prop :=
  rtc (λ x y, ∃ o, body_step ChannelID LifecycleNamespace Status_String queryService cutoff false x.1 x.2 o y.1 y.2)
    a b.

Lemma body_first sh pl o sh1 pl1 b :
  body_step ChannelID LifecycleNamespace Status_String queryService cutoff false sh pl o sh1 pl1 →
  body_runs (sh1, pl1) b → body_runs (sh, pl) b.
Proof. intros H1 H2. eapply rtc_l; [|exact H2]. by exists o. Qed.

#[local] Instance body_runs_trans : Transitive body_runs.
Proof. intros x y z H1 H2. unfold body_runs in *. by etrans. Qed.

Lemma locking_runs pn st batch s held txIDs s' held' txIDs' :
  Submission.reconcile_lock s batch held txIDs = Some (s', held', txIDs') → (txIDs = [] ↔ held = ∅) →
  body_runs (mkShared s pn st, Locking batch held) (mkShared s' pn st, Locking [] held') ∧
  (txIDs' = [] ↔ held' = ∅).
Proof.
  revert s held txIDs. induction batch as [|p batch IH]; intros s held txIDs; cbn [Submission.reconcile_lock].
  { intros [= <- <- <-] H. split; [apply rtc_refl|done]. }
  destruct (Idempotency.tryLockFinality s p) as [s1 b] eqn:Ht. destruct b; cbn [negb].
  - destruct (Idempotency.pending s1 (Some p)) as [inv|] eqn:Hp.
    + intros H Hh. apply IH in H as [H Hh'].
      * split; [|done]. eapply body_first; [by apply bs_lock|]. eapply body_first; [by apply bs_hold|]. done.
      * split; [by destruct txIDs|]. intros E. by apply insert_non_empty in E.
    + destruct (Idempotency.unlockFinality s1 p) as [s2|] eqn:Hu; [|done]. cbn [mbind option_bind].
      intros H Hh. apply IH in H as [H Hh']; [|done]. split; [|done].
      eapply body_first; [by apply bs_lock|]. eapply body_first; [by eapply bs_gone|]. done.
  - intros H Hh. apply IH in H as [H Hh']; [|done]. split; [|done]. eapply body_first; [by apply bs_busy|]. done.
Qed.

Lemma statuses_run pn st now after_commit held statuses s s' :
  Submission.reconcile_statuses Status_String now s held statuses after_commit = Some s' →
  body_runs (mkShared s pn st, Recording statuses held) (mkShared s' pn st, Recording [] held).
Proof.
  revert s. induction statuses as [|x statuses IH]; intros s; cbn [Submission.reconcile_statuses].
  { intros [= <-]. apply rtc_refl. }
  destruct (held !! Finality.ref_TxId x) as [p|] eqn:Hp.
  - destruct (Finality.isFinalStatus _ _) eqn:Hf.
    + destruct (Submission.recordFinality _ _ _ _ _ _) as [[[s1 err] ran]|] eqn:Hr; [|done]. cbn [mbind option_bind].
      intros H. eapply body_first; [by eapply bs_record|]. by apply IH.
    + intros H. eapply body_first; [apply bs_ignore; by right|]. by apply IH.
  - intros H. eapply body_first; [apply bs_ignore; by left|]. by apply IH.
Qed.

Lemma unlocking_runs pn st ps s s' :
  Submission.unlock_all s ps = Some s' →
  body_runs (mkShared s pn st, Unlocking ps) (mkShared s' pn st, Listing).
Proof.
  revert s. induction ps as [|p ps IH]; intros s; cbn [Submission.unlock_all].
  { intros [= <-]. eapply body_first; [apply bs_unlocked|apply rtc_refl]. }
  destruct (Idempotency.unlockFinality s p) as [s1|] eqn:Hu; [|done]. cbn [mbind option_bind].
  intros H. eapply body_first; [by apply bs_unlock|]. by apply IH.
Qed.

Lemma records_run pn st now s order response unlocks after_commit s' :
  (∀ held, unlocks held ≡ₚ (map_to_list held).*2) →
  Submission.reconcilePendingBefore Status_String now None queryService s order (Some cutoff) response unlocks
    after_commit = Some s' →
  body_runs (mkShared s pn st, Start) (mkShared s' pn st, Listing).
Proof.
  intros Hperm. unfold Submission.reconcilePendingBefore.
  destruct queryService eqn:Hq; cbn [negb orb]; [rewrite bool_decide_eq_false_2 by by intros [? ?]|].
  2:{ intros [= <-]. eapply body_first; [apply bs_skip; by left|apply rtc_refl]. }
  destruct (Submission.reconcile_lock _ _ _ _) as [[[s1 held] txIDs]|] eqn:Hl; [|done]. cbn [mbind option_bind].
  apply (locking_runs pn st) in Hl as [Hl Hh]; [|done]. intros H.
  eapply body_first; [by apply (bs_pending _ _ _ _ _ _ _ order)|]. etrans; [exact Hl|]. revert H.
  case_bool_decide as Ht.
  { intros [= <-]. apply Hh in Ht as ->. eapply body_first; [apply bs_none|apply rtc_refl]. }
  intros H. eapply body_first; [apply bs_query; tauto|]. destruct response as [statuses|e].
  - destruct (Submission.reconcile_statuses _ _ _ _ _ _) as [s2|] eqn:Hs; [|done]. cbn [mbind option_bind] in H.
    eapply body_first; [apply (bs_statuses _ _ _ _ _ _ _ _ statuses)|].
    apply (statuses_run pn st) in Hs. etrans; [exact Hs|].
    eapply body_first; [apply bs_recorded, Hperm|]. by apply (unlocking_runs pn st) in H.
  - cbn [mbind option_bind] in H. eapply body_first; [apply bs_unavailable, Hperm|].
    by apply (unlocking_runs pn st) in H.
Qed.

Lemma visit_runs s pn st p batch visit pn' st' evs :
  Pending.recover_one ChannelID LifecycleNamespace Status_String pn st p visit = Some (pn', st', evs) →
  body_runs (mkShared s pn st, Visiting (p :: batch)) (mkShared s pn' st', Visiting batch).
Proof.
  unfold Pending.recover_one. destruct (Pending.heap pn !! p) as [v|] eqn:Hp; [|done]. cbn [mbind option_bind].
  destruct (Pending.gate v) eqn:Hg.
  { intros [= <- <- <-]. eapply body_first; [by apply bs_live|]. eapply body_first; [|apply rtc_refl]. apply bs_taken. cbn. unfold gate_of. by rewrite Hp, <- Hg. }
  intros H. eapply body_first; [by apply bs_live|].
  eapply body_first; [by apply (bs_gate _ _ _ _ _ _ s pn st p batch v)|]. revert H.
  set (pn1 := Pending.set_pending p _ pn).
  assert (Hp1 : Pending.heap pn1 !! p = Some (Pending.with_gate true v)) by apply lookup_insert_eq.
  assert (Hend : ∀ s0 pn0 st0 pn2, Pending.unlock pn0 p = Some pn2 →
    body_runs (mkShared s0 pn0 st0, Releasing p batch) (mkShared s0 pn2 st0, Visiting batch)).
  { intros s0 pn0 st0 pn2 Hu. eapply body_first; [by apply bs_release|apply rtc_refl]. }
  case_bool_decide as Hc; cbn [negb].
  2:{ destruct (Pending.unlock pn1 p) as [pn2|] eqn:Hu; [|done]. intros [= <- <- <-].
      eapply body_first; [by eapply bs_replaced|]. by apply Hend. }
  destruct (_ && _) eqn:Hu0.
  { rewrite !andb_true_iff, !bool_decide_eq_true in Hu0. destruct Hu0 as [[H1 H2] H3].
    destruct (Pending.unlock _ p) as [pn2|] eqn:Hu; [|done]. intros [= <- <- <-].
    eapply body_first; [by eapply bs_unsent|]. by apply Hend. }
  assert (Hsent : (Pending.operation v).2 ≠ Ledger.LifecycleEventCommit ∨
    RPC.lc_TxID (Pending.result_ v) ≠ "" ∨ RPC.lc_Status (Pending.result_ v) ≠ "").
  { rewrite !andb_false_iff, !bool_decide_eq_false in Hu0. tauto. }
  destruct (Pending.advanceLifecycleTransaction _ _ _ _ _ _ _) as [[[[pn2 res] err] evs2]|] eqn:Ha; [|done].
  cbn [mbind option_bind]. intros H. eapply body_first; [by eapply bs_current|]. eapply body_first; [by eapply bs_advance|].
  revert H. destruct err as [e|].
  - destruct (Pending.unlock pn2 p) as [pn3|] eqn:Hu; [|done]. intros [= <- <- <-]. by apply Hend.
  - destruct (Pending.finalizeLifecycleOperation _ _ _ _ _ _ _ _) as [[[pn3 st3] r]|] eqn:Hf; [|done].
    cbn [mbind option_bind]. destruct (Pending.unlock pn3 p) as [pn4|] eqn:Hu; [|done]. intros [= <- <- <-].
    eapply body_first; [by eapply bs_finalize|]. by apply Hend.
Qed.

Lemma operations_run s pn st order visits pn' st' evs :
  (∀ p, p ∈ order → ∃ k, Pending.lifecyclePending pn !! k = Some p) → (∀ p, Pending.vi_ctx (visits p) = None) →
  Pending.reconcileLifecyclePending ChannelID LifecycleNamespace Status_String pn st order visits =
    Some (pn', st', evs) →
  body_runs (mkShared s pn st, Listing) (mkShared s pn' st', Ended).
Proof.
  intros Hreg Hctx. unfold Pending.reconcileLifecyclePending. intros H.
  eapply body_first; [by apply (bs_list _ _ _ _ _ _ _ order)|]. clear Hreg. revert pn st evs H.
  induction (take Submission.recoveryBatchSize order) as [|p batch IH]; intros pn st evs; cbn [fmap list_fmap Pending.recover_batch].
  { intros [= <- <- <-]. eapply body_first; [apply bs_visited|apply rtc_refl]. }
  rewrite Hctx, bool_decide_eq_false_2 by by intros [? ?].
  destruct (Pending.recover_one _ _ _ _ _ _ _) as [[[pn1 st1] evs1]|] eqn:Ho; [|done]. cbn [mbind option_bind].
  destruct (Pending.recover_batch _ _ _ _ _ _) as [[[pn2 st2] evs2]|] eqn:Hb; [|done]. cbn [mbind option_bind].
  intros [= <- <- <-]. etrans; [by eapply visit_runs|]. by apply (IH pn1 st1 evs2).
Qed.

(** The whole pass. *)
Lemma pass_body_refined sh now order response unlocks after_commit order' visits s' pn' st' evs :
  (∀ held, unlocks held ≡ₚ (map_to_list held).*2) →
  Submission.reconcilePendingBefore Status_String now None queryService (sh_records sh) order (Some cutoff) response
    unlocks after_commit = Some s' →
  (∀ p, p ∈ order' → ∃ k, Pending.lifecyclePending (sh_pending sh) !! k = Some p) →
  (∀ p, Pending.vi_ctx (visits p) = None) →
  Pending.reconcileLifecyclePending ChannelID LifecycleNamespace Status_String (sh_pending sh) (sh_store sh) order'
    visits = Some (pn', st', evs) →
  body_runs (sh, Start) (mkShared s' pn' st', Ended).
Proof.
  intros Hperm Hr Hreg Hctx Ho. destruct sh as [s pn st]. etrans; [by eapply records_run|].
  by eapply operations_run.
Qed.

End Refinement.

(** ** The system *)

(** The pass that works, if any, with its cutoff, and whether its context has timed out. *)
Record system := mkSystem {
  sy_recovery : Passes.recovery;
  sy_pass : option (Z * place);
  sy_timeout : bool;
  sy_shared : shared }.

(** [passCtx], derived from the service's context, has ended. *)
Definition pass_ended (rc : Passes.recovery) (timeout : bool) : bool :=
  timeout || bool_decide (Passes.recoveryCtx rc = Some true).

(** The record locks and the gates that the pass holds. *)
Definition holds_record (pl : place) (p : positive) : Prop :=
  match pl with
  | Locking _ held | Querying held | Recording _ held => ∃ t, held !! t = Some p
  | Holding q _ held => p = q ∨ ∃ t, held !! t = Some p
  | Unlocking ps => p ∈ ps
  | _ => False
  end.

Definition holds_gate (pl : place) (p : positive) : Prop :=
  match pl with
  | Checking q _ | Advancing q _ | Finalizing q _ | Releasing q _ => p = q
  | _ => False
  end.

Definition records_ok (sh : shared) : Prop := ∃ o, Idempotency.system_ok (Idempotency.mkSystem (sh_records sh) o).

(** The registered operations exist. *)
Definition pending_ok (sh : shared) : Prop :=
  ∀ k p, Pending.lifecyclePending (sh_pending sh) !! k = Some p → is_Some (Pending.heap (sh_pending sh) !! p).

(** What the other goroutines do: anything that keeps the records and operations well formed and
    releases no lock and no gate that the pass holds. *)
Record others (pass : option (Z * place)) (sh sh' : shared) : Prop := mkOthers {
  ot_records : records_ok sh';
  ot_pending : pending_ok sh';
  ot_heap : ∀ p, is_Some (Pending.heap (sh_pending sh) !! p) → is_Some (Pending.heap (sh_pending sh') !! p);
  ot_locks : ∀ c pl p, pass = Some (c, pl) → holds_record pl p →
    Submission.lock_of (sh_records sh') p = Submission.lock_of (sh_records sh) p;
  ot_gates : ∀ c pl p, pass = Some (c, pl) → holds_gate pl p →
    gate_of (sh_pending sh') p = gate_of (sh_pending sh) p }.

Section System.
Context {J : Json.JSONText} {L : Msp.MSPLib} {PJ : RPC.PayloadJSON} {B : LedgerSync.ProposalBuilder}.
Variable ChannelID LifecycleNamespace : string.
Variable Status_String : Finality.CommitterStatus → string.
Variable queryService : bool.

(** A step of the goroutine of a pass. *)
Inductive pass_step : system → origin → system → Prop :=
  | ps_body rc cutoff pl timeout sh o sh' pl' :
      body_step ChannelID LifecycleNamespace Status_String queryService cutoff (pass_ended rc timeout)
        sh pl o sh' pl' →
      pass_step (mkSystem rc (Some (cutoff, pl)) timeout sh) o (mkSystem rc (Some (cutoff, pl')) timeout sh')
  | ps_leave rc i cutoff timeout sh :
      Passes.passes rc !! i = Some (Passes.Working cutoff) →
      pass_step (mkSystem rc (Some (cutoff, Ended)) timeout sh) Own
        (mkSystem (Passes.leave i rc) None timeout sh)
  | ps_finish rc i rc' pass timeout sh :
      Passes.passes rc !! i = Some Passes.Leaving → Passes.finish i rc = Some rc' →
      pass_step (mkSystem rc pass timeout sh) Own (mkSystem rc' pass timeout sh).

(** A step of anything else. *)
Inductive other_step : system → system → Prop :=
  | os_trigger rc cutoff rc' pass timeout sh :
      Passes.triggerReconciliation cutoff rc = Some rc' →
      other_step (mkSystem rc pass timeout sh)
        (if Passes.recoveryClosed rc || Passes.recoveryRunning rc then mkSystem rc' pass timeout sh
         else mkSystem rc' (Some (cutoff, Start)) false sh)
  | os_stop rc pass timeout sh :
      other_step (mkSystem rc pass timeout sh) (mkSystem (Passes.stop rc) pass timeout sh)
  | os_wait rc pass timeout sh : (0 < Passes.stopping rc)%nat →
      other_step (mkSystem rc pass timeout sh) (mkSystem (Passes.stop_wait rc) pass timeout sh)
  | os_timeout rc pass timeout sh :
      other_step (mkSystem rc pass timeout sh) (mkSystem rc pass true sh)
  | os_others rc pass timeout sh sh' :
      others pass sh sh' → other_step (mkSystem rc pass timeout sh) (mkSystem rc pass timeout sh').

Definition step (σ σ' : system) : Prop := (∃ o, pass_step σ o σ') ∨ other_step σ σ'.

Definition initial (σ : system) : Prop :=
  ∃ ctx, sy_recovery σ = Passes.initial ctx ∧ sy_pass σ = None ∧
    records_ok (sy_shared σ) ∧ pending_ok (sy_shared σ).

Definition reachable (σ : system) : Prop := ∃ σ0, initial σ0 ∧ rtc step σ0 σ.

End System.

(** ** Lemmas on the shared state *)

Lemma tryLock_ok s o p s' b :
  Idempotency.system_ok (Idempotency.mkSystem s o) → Idempotency.tryLockFinality s p = (s', b) →
  Idempotency.system_ok (Idempotency.mkSystem s' o) ∧
  (∀ q, q ≠ p → Submission.lock_of s' q = Submission.lock_of s q) ∧
  (b = false → s' = s) ∧
  (b = true → Submission.lock_of s p = Some false ∧ Submission.lock_of s' p = Some true).
Proof.
  intros Hok. unfold Idempotency.tryLockFinality, Submission.lock_of.
  destruct (Idempotency.heap s !! p) as [r|] eqn:Hr; [|by intros [= <- <-]].
  destruct (Idempotency.finalityCheck r) eqn:Hf; intros [= <- <-]; [by split_and!|].
  destruct (Idempotency.lock_ok (Idempotency.mkSystem s o) p r true Hok Hr) as [Hok' _].
  split_and!; [done| |done|].
  - intros q Hq. cbn. by rewrite lookup_insert_ne.
  - intros _. split; cbn; [by rewrite Hf|by rewrite lookup_insert_eq].
Qed.

Lemma unlock_defined s o p :
  Idempotency.system_ok (Idempotency.mkSystem s o) → Submission.lock_of s p = Some true →
  ∃ s', Idempotency.unlockFinality s p = Some s' ∧
    Idempotency.system_ok (Idempotency.mkSystem s' o) ∧
    ∀ q, q ≠ p → Submission.lock_of s' q = Submission.lock_of s q.
Proof.
  intros Hok. unfold Idempotency.unlockFinality, Submission.lock_of.
  destruct (Idempotency.heap s !! p) as [r|] eqn:Hr; [|done]. cbn. intros [= Hf]. rewrite Hf.
  destruct (Idempotency.lock_ok (Idempotency.mkSystem s o) p r false Hok Hr) as [Hok' _].
  eexists. split_and!; [done|done|]. intros q Hq. cbn. by rewrite lookup_insert_ne.
Qed.

Section Operations.
Context {J : Json.JSONText} {L : Msp.MSPLib} {PJ : RPC.PayloadJSON} {B : LedgerSync.ProposalBuilder}.
Variable ChannelID LifecycleNamespace : string.
Variable Status_String : Finality.CommitterStatus → string.

(** The operations stay registered with an object, and no gate changes but [p]'s. *)
Definition gates_kept (p : positive) (s s' : Pending.Recovery) : Prop :=
  (∀ q, is_Some (Pending.heap s !! q) → is_Some (Pending.heap s' !! q)) ∧
  (∀ k q, Pending.lifecyclePending s' !! k = Some q → Pending.lifecyclePending s !! k = Some q) ∧
  (∀ q, q ≠ p → gate_of s' q = gate_of s q).

Lemma remove_gates s p q : gate_of (Pending.removeLifecycleOperation s p) q = gate_of s q.
Proof. unfold Pending.removeLifecycleOperation. destruct (Pending.heap s !! p); [|done]. by case_bool_decide. Qed.

Lemma remove_kept s p : gates_kept p s (Pending.removeLifecycleOperation s p).
Proof.
  split_and!; [| |intros; apply remove_gates]; unfold Pending.removeLifecycleOperation;
    destruct (Pending.heap s !! p); try done; case_bool_decide; try done.
  intros k q Hk. cbn in Hk. by apply lookup_delete_Some in Hk as [_ ?].
Qed.

Lemma set_pending_kept s p v w :
  Pending.heap s !! p = Some w → gates_kept p s (Pending.set_pending p v s).
Proof.
  intros Hp. split_and!; [|done|].
  - intros q Hq. cbn. destruct (decide (q = p)) as [->|]; [rewrite lookup_insert_eq; by eexists|].
    by rewrite lookup_insert_ne.
  - intros q Hq. unfold gate_of. cbn. by rewrite lookup_insert_ne.
Qed.

Lemma gates_kept_trans p s1 s2 s3 : gates_kept p s1 s2 → gates_kept p s2 s3 → gates_kept p s1 s3.
Proof. intros (H1 & H2 & H3) (K1 & K2 & K3). split_and!; [auto|auto|]. intros q Hq. by rewrite K3, H3. Qed.

(** A call that does not wait for the notification returns, and the gate stays as it was. *)
Lemma advance_defined s p v env :
  Pending.heap s !! p = Some v →
  ∃ s' res err evs,
    Pending.advanceLifecycleTransaction ChannelID LifecycleNamespace Status_String s p false env =
      Some (s', res, err, evs) ∧ gates_kept p s s' ∧ gate_of s' p = gate_of s p.
Proof.
  intros Hp. unfold Pending.advanceLifecycleTransaction. rewrite Hp. cbn [mbind option_bind].
  assert (∃ o, Pending.advance ChannelID LifecycleNamespace Status_String (Pending.operation v).2
    (Pending.definition v) (Pending.result_ v) false env = Some o) as [o ->].
  { unfold Pending.advance, Pending.send_transaction. repeat (case_match; try by eexists). }
  cbn [mbind option_bind]. set (s1 := Pending.set_pending p _ s).
  assert (Hk : gates_kept p s s1) by (by eapply set_pending_kept).
  assert (Hg : gate_of s1 p = gate_of s p) by (unfold gate_of, s1; cbn; by rewrite lookup_insert_eq, Hp).
  do 4 eexists. split; [done|]. destruct (Pending.o_remove o); [|done]. split.
  - eapply gates_kept_trans; [exact Hk|apply remove_kept].
  - by rewrite remove_gates.
Qed.

Lemma finalize_defined srv senv query s store p v :
  Pending.heap s !! p = Some v →
  ∃ s' store' r,
    Pending.finalizeLifecycleOperation ChannelID LifecycleNamespace srv senv query s store p =
      Some (s', store', r) ∧ gates_kept p s s' ∧ gate_of s' p = gate_of s p.
Proof.
  intros Hp. unfold Pending.finalizeLifecycleOperation. rewrite Hp. cbn [mbind option_bind].
  destruct (LedgerSync.ReadLifecycleDefinition _ _ _ _) as [l|e]; [|by do 3 eexists].
  destruct (match l with Some _ => _ | None => _ end).
  { do 3 eexists. split; [done|]. split; [apply remove_kept|apply remove_gates]. }
  destruct (RPC.ReconcileDefinition _ _ _ _ _ _) as [[store' progress] r].
  set (s1 := Pending.set_pending p _ s).
  assert (Hk : gates_kept p s s1) by (by eapply set_pending_kept).
  assert (Hg : gate_of s1 p = gate_of s p) by (unfold gate_of, s1; cbn; by rewrite lookup_insert_eq, Hp).
  do 3 eexists. split; [done|]. destruct (is_ok r); [|done]. split.
  - eapply gates_kept_trans; [exact Hk|apply remove_kept].
  - by rewrite remove_gates.
Qed.

Lemma release_defined s p :
  gate_of s p = Some true → ∃ s', Pending.unlock s p = Some s' ∧ gates_kept p s s'.
Proof.
  unfold gate_of, Pending.unlock. destruct (Pending.heap s !! p) as [v|] eqn:Hp; [|done].
  cbn. intros [= Hg]. rewrite Hg. eexists. split; [done|]. by eapply set_pending_kept.
Qed.

End Operations.

(** ** Invariant of the body *)

(** The locks in the map are held, each once. *)
Definition held_ok (s : Idempotency.idempotencyStore) (held : gmap string positive) : Prop :=
  (∀ t p, held !! t = Some p → Submission.lock_of s p = Some true) ∧
  (∀ t t' p, held !! t = Some p → held !! t' = Some p → t = t').

Definition registered (s : Pending.Recovery) (batch : list positive) : Prop :=
  ∀ p, p ∈ batch → is_Some (Pending.heap s !! p).

Definition place_ok (sh : shared) (pl : place) : Prop :=
  match pl with
  | Start | Listing | Ended => True
  | Locking _ held | Querying held | Recording _ held => held_ok (sh_records sh) held
  | Holding p _ held =>
      held_ok (sh_records sh) held ∧ Submission.lock_of (sh_records sh) p = Some true ∧
      ∀ t, held !! t ≠ Some p
  | Unlocking ps => NoDup ps ∧ ∀ p, p ∈ ps → Submission.lock_of (sh_records sh) p = Some true
  | Visiting batch => registered (sh_pending sh) batch
  | Entering p batch => registered (sh_pending sh) (p :: batch)
  | Checking p batch | Advancing p batch | Finalizing p batch | Releasing p batch =>
      gate_of (sh_pending sh) p = Some true ∧ registered (sh_pending sh) batch
  end.

Definition shared_ok (sh : shared) (pl : place) : Prop :=
  records_ok sh ∧ pending_ok sh ∧ place_ok sh pl.

Lemma held_ok_locks s s' held :
  (∀ t p, held !! t = Some p → Submission.lock_of s' p = Submission.lock_of s p) →
  held_ok s held → held_ok s' held.
Proof. intros Hl [H1 H2]. split; [|done]. intros t p Hp. rewrite (Hl t p Hp). by eapply H1. Qed.

(** What the locks of the map are, as the list to be released. *)
Lemma held_values s held ps :
  held_ok s held → ps ≡ₚ (map_to_list held).*2 →
  NoDup ps ∧ ∀ p, p ∈ ps → Submission.lock_of s p = Some true.
Proof.
  intros [H1 H2] Hps. split.
  - rewrite Hps. apply NoDup_fmap_2_strong; [|apply NoDup_map_to_list].
    intros [t p] [t' p'] Ht%elem_of_map_to_list Ht'%elem_of_map_to_list Eq. simpl in *. subst p'.
    by rewrite (H2 t t' p Ht Ht').
  - intros p. rewrite Hps. intros ([t q] & -> & Hq%elem_of_map_to_list)%list_elem_of_fmap_1. by eapply H1.
Qed.

(** The rest of the system leaves the invariant of the working pass alone. *)
Lemma others_place_ok c pl sh sh' :
  others (Some (c, pl)) sh sh' → place_ok sh pl → place_ok sh' pl.
Proof.
  intros [_ _ Hheap Hlocks Hgates]. specialize (Hlocks c pl). specialize (Hgates c pl).
  assert (Hreg : ∀ batch, registered (sh_pending sh) batch → registered (sh_pending sh') batch)
    by (intros batch Hb p Hp; by apply Hheap, Hb).
  destruct pl; cbn [place_ok holds_record holds_gate] in *; try done; try (apply Hreg).
  - apply held_ok_locks. eauto.
  - intros (Hh & Hp & Hne). split_and!; [|rewrite Hlocks by auto; done|done].
    revert Hh. apply held_ok_locks. eauto.
  - apply held_ok_locks. eauto.
  - apply held_ok_locks. eauto.
  - intros [Hnd Hps]. split; [done|]. intros p Hp. rewrite Hlocks by done. by apply Hps.
  - intros [Hg Hb]. rewrite Hgates by done. auto.
  - intros [Hg Hb]. rewrite Hgates by done. auto.
  - intros [Hg Hb]. rewrite Hgates by done. auto.
  - intros [Hg Hb]. rewrite Hgates by done. auto.
Qed.

Section Invariant.
Context {J : Json.JSONText} {L : Msp.MSPLib} {PJ : RPC.PayloadJSON} {B : LedgerSync.ProposalBuilder}.
Variable ChannelID LifecycleNamespace : string.
Variable Status_String : Finality.CommitterStatus → string.
Variable queryService : bool.
Notation body_step := (body_step ChannelID LifecycleNamespace Status_String queryService).

Lemma pending_kept p s pn pn' st st' :
  pending_ok (mkShared s pn st) → gates_kept p pn pn' → pending_ok (mkShared s pn' st').
Proof. intros Hp (H1 & H2 & _) k q Hq. cbn in *. apply H1. by eapply Hp, H2. Qed.

Lemma registered_kept p pn pn' batch :
  gates_kept p pn pn' → registered pn batch → registered pn' batch.
Proof. intros (H1 & _) Hb q Hq. by apply H1, Hb. Qed.

(** The records' part of the body. *)
Lemma records_step_ok cutoff ended sh pl o sh' pl' :
  shared_ok sh pl → body_step cutoff ended sh pl o sh' pl' →
  match pl with
  | Start | Locking _ _ | Holding _ _ _ | Querying _ | Recording _ _ | Unlocking _ => shared_ok sh' pl'
  | _ => True
  end.
Proof.
  intros (Hrec & Hpend & Hpl) Hst. destruct Hst; try done; cbn [place_ok sh_records] in *;
    try (split_and!; cbn [place_ok]; by auto); destruct Hrec as [own Hok]; cbn [sh_records] in Hok;
    unfold shared_ok, records_ok; cbn [sh_records place_ok].
  - match goal with H : Idempotency.tryLockFinality _ _ = _ |- _ =>
      pose proof (tryLock_ok s own p s' false Hok H) as (_ & _ & Hs & _) end.
    rewrite (Hs eq_refl). split; [by exists own|]. by split.
  - match goal with H : Idempotency.tryLockFinality _ _ = _ |- _ =>
      destruct (tryLock_ok s own p s' true Hok H) as (Hok' & Hother & _ & Hlock) end.
    destruct (Hlock eq_refl) as [Hfree Hheld].
    assert (Hne : ∀ t q, held !! t = Some q → q ≠ p).
    { intros t q Hq ->. pose proof (proj1 Hpl t p Hq). congruence. }
    split; [by exists own|]. split; [done|]. split; [|split; [done|intros t Ht; by apply (Hne t p Ht)]].
    revert Hpl. apply held_ok_locks. intros t q Hq. by apply Hother, (Hne t).
  - destruct Hpl as (Hheld & Hlock & Hne).
    destruct (unlock_defined s own p Hok Hlock) as (s1 & Hs1 & Hok' & Hother).
    match goal with H : Idempotency.unlockFinality _ _ = Some s' |- _ =>
      rewrite Hs1 in H; apply (inj Some) in H; subst s1 end.
    split; [by exists own|]. split; [done|].
    revert Hheld. apply held_ok_locks. intros t q Hq. apply Hother. intros ->. by eapply Hne.
  - destruct Hpl as ([H1 H2] & Hlock & Hne). split; [by exists own|]. split; [done|]. split.
    + intros t q [[<- <-]|[_ Hq]]%lookup_insert_Some; [done|by eapply H1].
    + intros t t' q Hq Hq'. apply lookup_insert_Some in Hq as [[<- Hq]|[Ht Hq]];
        apply lookup_insert_Some in Hq' as [[<- Hq']|[Ht' Hq']]; [done|..|by eapply H2].
      * subst q. by destruct (Hne t').
      * subst q. by destruct (Hne t).
  - destruct (held_values _ _ _ Hpl ltac:(done)) as [? ?]. split; [by exists own|]. by split.
  - match goal with H : Submission.recordFinality _ _ _ _ _ _ = Some (s', _, _) |- _ =>
      destruct (Submission.recordFinality_step Status_String now s own (Some p) (Some st) after_commit Hok)
        as (s1 & err1 & ran1 & Hs1 & Hok' & _ & Hlocks); rewrite Hs1 in H; injection H as <- <- <- end.
    split; [by exists own|]. split; [done|]. revert Hpl. apply held_ok_locks. intros. apply Hlocks.
  - destruct (held_values _ _ _ Hpl ltac:(done)) as [? ?]. split; [by exists own|]. by split.
  - destruct Hpl as [Hnd Hps]. apply NoDup_cons in Hnd as [Hp Hnd].
    destruct (unlock_defined s own p Hok) as (s1 & Hs1 & Hok' & Hother); [apply Hps; by left|].
    match goal with H : Idempotency.unlockFinality _ _ = Some s' |- _ =>
      rewrite Hs1 in H; apply (inj Some) in H; subst s1 end.
    split; [by exists own|]. split; [done|]. split; [done|]. intros q Hq. rewrite Hother; [apply Hps; by right|].
    intros ->. done.
Qed.

(** The part of the lifecycle operations. *)
Lemma operations_step_ok cutoff ended sh pl o sh' pl' :
  shared_ok sh pl → body_step cutoff ended sh pl o sh' pl' →
  match pl with
  | Start | Locking _ _ | Holding _ _ _ | Querying _ | Recording _ _ | Unlocking _ => True
  | _ => shared_ok sh' pl'
  end.
Proof.
  intros (Hrec & Hpend & Hpl) Hst. destruct Hst; try done; cbn [place_ok sh_pending] in *;
    try (split_and!; cbn [place_ok]; by auto); unfold shared_ok; cbn [sh_pending place_ok].
  - split_and!; [done|done|]. intros p Hp. apply list_elem_of_lookup in Hp as [i Hi].
    apply lookup_take_Some in Hi as [Hi _]. apply list_elem_of_lookup_2 in Hi.
    match goal with H : ∀ p, p ∈ order → _ |- _ => destruct (H p Hi) as [k Hk] end. by eapply Hpend.
  - split_and!; [done|done|]. intros q Hq. apply Hpl. by right.
  - match goal with H : Pending.heap pn !! p = Some v |- _ =>
      pose proof (set_pending_kept pn p (Pending.with_gate true v) v H) as Hk end.
    split_and!; [done|by eapply pending_kept| |].
    + unfold gate_of. cbn. by rewrite lookup_insert_eq.
    + eapply registered_kept; [exact Hk|]. intros q Hq. apply Hpl. by right.
  - destruct Hpl as [Hg Hb]. split_and!; [done|by eapply pending_kept, remove_kept| |].
    + by rewrite remove_gates.
    + eapply registered_kept; [apply remove_kept|done].
  - destruct Hpl as [Hg Hb]. destruct (Pending.heap pn !! p) as [v|] eqn:Hp.
    2:{ unfold gate_of in Hg. by rewrite Hp in Hg. }
    destruct (advance_defined ChannelID LifecycleNamespace Status_String pn p v env Hp)
      as (s1 & res1 & err1 & evs1 & Hs1 & Hk & Hgate).
    match goal with H : Pending.advanceLifecycleTransaction _ _ _ _ _ _ _ = Some (pn', _, _, _) |- _ =>
      rewrite Hs1 in H; injection H as <- <- <- <- end.
    split_and!; [done|by eapply pending_kept|]. rewrite Hg in Hgate.
    pose proof (registered_kept p _ _ _ Hk Hb). destruct err1; by split.
  - destruct Hpl as [Hg Hb]. destruct (Pending.heap pn !! p) as [v|] eqn:Hp.
    2:{ unfold gate_of in Hg. by rewrite Hp in Hg. }
    destruct (finalize_defined ChannelID LifecycleNamespace srv senv query pn st p v Hp)
      as (s1 & st1 & r1 & Hs1 & Hk & Hgate).
    match goal with H : Pending.finalizeLifecycleOperation _ _ _ _ _ _ _ _ = Some (pn', _, _) |- _ =>
      rewrite Hs1 in H; injection H as <- <- <- end.
    split_and!; [done|by eapply pending_kept|by rewrite Hgate|by eapply registered_kept].
  - destruct Hpl as [Hg Hb]. destruct (release_defined pn p Hg) as (s1 & Hs1 & Hk).
    match goal with H : Pending.unlock _ _ = Some pn' |- _ =>
      rewrite Hs1 in H; apply (inj Some) in H; subst s1 end.
    split_and!; [done|by eapply pending_kept|by eapply registered_kept].
Qed.

Lemma body_step_ok cutoff ended sh pl o sh' pl' :
  shared_ok sh pl → body_step cutoff ended sh pl o sh' pl' → shared_ok sh' pl'.
Proof.
  intros Hok Hst. pose proof (records_step_ok _ _ _ _ _ _ _ Hok Hst).
  pose proof (operations_step_ok _ _ _ _ _ _ _ Hok Hst). by destruct pl.
Qed.

End Invariant.

(** ** Progress and termination of the body *)

(** How far a pass is from its end: the part of the body, and what is left of its loop. *)
Definition rank (pl : place) : nat * nat :=
  match pl with
  | Start => (9, 0)
  | Locking batch _ => (8, 2 * length batch)
  | Holding _ batch _ => (8, 2 * length batch + 1)
  | Querying _ => (7, 0)
  | Recording statuses _ => (6, length statuses)
  | Unlocking ps => (5, length ps)
  | Listing => (4, 0)
  | Visiting batch => (3, 6 * length batch)
  | Entering _ batch => (3, 6 * length batch + 5)
  | Checking _ batch => (3, 6 * length batch + 4)
  | Advancing _ batch => (3, 6 * length batch + 3)
  | Finalizing _ batch => (3, 6 * length batch + 2)
  | Releasing _ batch => (3, 6 * length batch + 1)
  | Ended => (0, 0)
  end%nat.

Definition nearer (a b : nat * nat) : Prop := (a.1 < b.1 ∨ (a.1 = b.1 ∧ a.2 < b.2))%nat.

Lemma lex_wf {A} (R : A → A → Prop) : well_founded R →
  well_founded (λ a b : A * nat, R a.1 b.1 ∨ (a.1 = b.1 ∧ (a.2 < b.2)%nat)).
Proof.
  intros HR [a n]. revert n. induction (HR a) as [a _ IHa]. intros n.
  induction (lt_wf n) as [n _ IHn]. constructor. intros [a' n'] [H|[H1 H2]]; cbn in *.
  - by apply IHa.
  - subst a'. by apply IHn.
Qed.

Lemma nearer_wf : well_founded nearer.
Proof. apply (lex_wf lt lt_wf). Qed.

Section Progress.
Context {J : Json.JSONText} {L : Msp.MSPLib} {PJ : RPC.PayloadJSON} {B : LedgerSync.ProposalBuilder}.
Variable ChannelID LifecycleNamespace : string.
Variable Status_String : Finality.CommitterStatus → string.
Variable queryService : bool.
Notation body_step := (body_step ChannelID LifecycleNamespace Status_String queryService).

Lemma body_step_nearer cutoff ended sh pl o sh' pl' :
  body_step cutoff ended sh pl o sh' pl' → nearer (rank pl') (rank pl).
Proof. unfold nearer. intros []; try destruct err; cbn [rank fst snd length]; lia. Qed.

(** Once its context has ended, a pass can always go on by itself. *)
Lemma records_progress cutoff sh pl :
  shared_ok sh pl →
  match pl with
  | Start | Locking _ _ | Holding _ _ _ | Querying _ | Recording _ _ | Unlocking _ =>
      ∃ sh' pl', body_step cutoff true sh pl Own sh' pl'
  | _ => True
  end.
Proof.
  destruct sh as [s pn st]. intros ([own Hok] & _ & Hpl). cbn [sh_records] in Hok.
  destruct pl as [|[|p batch] held|p batch held|held|[|x statuses] held|[|p ps]| | | | | | | |]; try done;
    cbn [place_ok sh_records] in Hpl.
  - do 2 eexists. apply bs_skip. by right.
  - destruct (decide (held = ∅)) as [->|]; [do 2 eexists; apply bs_none|]. do 2 eexists. by apply bs_query.
  - destruct (Idempotency.tryLockFinality s p) as [s' []] eqn:E;
      do 2 eexists; [by eapply bs_lock|by eapply bs_busy].
  - destruct Hpl as (_ & Hlock & _). destruct (Idempotency.pending s (Some p)) as [inv|] eqn:E.
    + do 2 eexists. by apply (bs_hold _ _ _ _ cutoff true (mkShared s pn st)).
    + destruct (unlock_defined s own p Hok Hlock) as (s' & Hs' & _). do 2 eexists. by eapply bs_gone.
  - do 2 eexists. by apply (bs_unavailable _ _ _ _ cutoff true).
  - do 2 eexists. by apply bs_recorded.
  - destruct (held !! Finality.ref_TxId x) as [p|] eqn:E; [|do 2 eexists; apply bs_ignore; by left].
    destruct (Finality.isFinalStatus (Finality.ref_TxId x) (Some x)) eqn:Ef;
      [|do 2 eexists; apply bs_ignore; by right].
    destruct (Submission.recordFinality_step Status_String 0 s own (Some p) (Some x) (λ _, None) Hok)
      as (s' & err & ran & Hs' & _). do 2 eexists. by eapply (bs_record _ _ _ _ cutoff true).
  - do 2 eexists. apply bs_unlocked.
  - destruct Hpl as [_ Hps]. destruct (unlock_defined s own p Hok) as (s' & Hs' & _); [apply Hps; by left|].
    do 2 eexists. by eapply bs_unlock.
Qed.

(** What the calls of a pass meet whose context has ended. *)
Definition cancelled : Pending.Env :=
  Pending.mkEnv (λ _ _, Err ECanceled) true (Err ECanceled) None
    (Submission.mkBroadcast None (Some ECanceled) None (Err ECanceled)).

Lemma operations_progress cutoff sh pl :
  shared_ok sh pl → pl ≠ Ended →
  match pl with
  | Start | Locking _ _ | Holding _ _ _ | Querying _ | Recording _ _ | Unlocking _ => True
  | _ => ∃ sh' pl', body_step cutoff true sh pl Own sh' pl'
  end.
Proof.
  destruct sh as [s pn st]. intros (_ & _ & Hpl) Hne. cbn [sh_pending] in *.
  destruct pl as [| | | | | | |[|p batch]|p batch|p batch|p batch|p batch|p batch|]; try done;
    cbn [place_ok sh_pending] in Hpl;
    try (destruct Hpl as [Hg _]; assert (is_Some (Pending.heap pn !! p)) as [v Hv]
           by (unfold gate_of in Hg; by destruct (Pending.heap pn !! p))).
  - do 2 eexists. apply (bs_list _ _ _ _ cutoff true _ []). by intros p ?%elem_of_nil.
  - do 2 eexists. apply bs_visited.
  - do 2 eexists. by apply bs_cancelled.
  - destruct (Hpl p) as [v Hv]; [by left|]. destruct (Pending.gate v) eqn:Hg; do 2 eexists.
    + apply bs_taken. cbn. unfold gate_of. by rewrite Hv, <- Hg.
    + by eapply bs_gate.
  - destruct (decide (Pending.lifecyclePending pn !! Pending.operation v = Some p)) as [Hc|Hc].
    2:{ do 2 eexists. by eapply (bs_replaced _ _ _ _ cutoff true (mkShared s pn st)). }
    destruct (decide ((Pending.operation v).2 = Ledger.LifecycleEventCommit)).
    2:{ do 2 eexists. eapply (bs_current _ _ _ _ cutoff true (mkShared s pn st)); [done..|by left]. }
    destruct (decide (RPC.lc_TxID (Pending.result_ v) = "")).
    2:{ do 2 eexists. eapply (bs_current _ _ _ _ cutoff true (mkShared s pn st)); [done..|by right; left]. }
    destruct (decide (RPC.lc_Status (Pending.result_ v) = "")).
    2:{ do 2 eexists. eapply (bs_current _ _ _ _ cutoff true (mkShared s pn st)); [done..|by right; right]. }
    do 2 eexists. by eapply bs_unsent.
  - destruct (advance_defined ChannelID LifecycleNamespace Status_String pn p v cancelled Hv)
      as (pn' & res & err & evs & Ha & _). do 2 eexists. by eapply (bs_advance _ _ _ _ cutoff true).
  - destruct (finalize_defined ChannelID LifecycleNamespace (RPC.mkServer ChannelID None None "" None None)
      (RPC.mkEnv 0 0 "" (λ _, []) (Err ECanceled)) (λ _ _, Err ECanceled) pn st p v Hv)
      as (pn' & st' & r & Hf & _). do 2 eexists. by eapply (bs_finalize _ _ _ _ cutoff true).
  - destruct (release_defined pn p Hg) as (pn' & Hu & _). do 2 eexists. by eapply bs_release.
Qed.

End Progress.

(** ** The system *)

Section Shutdowns.
Context {J : Json.JSONText} {L : Msp.MSPLib} {PJ : RPC.PayloadJSON} {B : LedgerSync.ProposalBuilder}.
Variable ChannelID LifecycleNamespace : string.
Variable Status_String : Finality.CommitterStatus → string.
Variable queryService : bool.
Notation pass_step := (pass_step ChannelID LifecycleNamespace Status_String queryService).
Notation step := (step ChannelID LifecycleNamespace Status_String queryService).
Notation reachable := (reachable ChannelID LifecycleNamespace Status_String queryService).

(** The body that runs is that of the pass that works. *)
Record sys_ok (σ : system) : Prop := mkSysOk {
  sk_recovery : Passes.reachable (sy_recovery σ);
  sk_pass : match sy_pass σ with
            | Some (cutoff, _) => Passes.Working cutoff ∈ Passes.passes (sy_recovery σ)
            | None => ∀ cutoff, Passes.Working cutoff ∉ Passes.passes (sy_recovery σ)
            end;
  sk_shared : shared_ok (sy_shared σ) (default Ended (snd <$> sy_pass σ)) }.

Lemma no_workers rc cutoff : Passes.workers rc = 0%nat → Passes.Working cutoff ∉ Passes.passes rc.
Proof.
  unfold Passes.workers. intros H%nil_length_inv Hin.
  assert (Hf : Passes.Working cutoff ∈ filter (λ p, Passes.working p = true) (Passes.passes rc))
    by (by apply list_elem_of_filter).
  rewrite H in Hf. by apply elem_of_nil in Hf.
Qed.

Lemma working_delete (i : nat) (l : list Passes.phase) cutoff :
  l !! i = Some Passes.Leaving →
  Passes.Working cutoff ∈ delete i l ↔ Passes.Working cutoff ∈ l.
Proof.
  intros Hi. rewrite <- (take_drop_middle l i Passes.Leaving Hi) at 2. rewrite delete_take_drop.
  rewrite !elem_of_app, elem_of_cons. naive_solver.
Qed.

Lemma reachable_next rc rc' : Passes.reachable rc → Passes.step rc rc' → Passes.reachable rc'.
Proof. intros [ctx H] Hs. exists ctx. by eapply rtc_r. Qed.

Lemma finish_passes i rc rc' : Passes.finish i rc = Some rc' →
  Passes.passes rc' = delete i (Passes.passes rc) ∧ Passes.recoveryClosed rc' = Passes.recoveryClosed rc.
Proof. unfold Passes.finish. destruct (Passes.Add _ _) as [[w b]|]; [|done]. by intros [= <-]. Qed.

Lemma pass_step_ok σ o σ' : sys_ok σ → pass_step σ o σ' → sys_ok σ'.
Proof.
  intros Hok Hst. destruct Hst as [rc cutoff pl timeout sh o sh' pl' Hb|rc i cutoff timeout sh Hi|
    rc i rc' pass timeout sh Hi Hf]; destruct Hok as [Hrec Hp Hsh]; cbn in *.
  - constructor; cbn; [done|done|]. by eapply body_step_ok.
  - assert (Hrec' : Passes.reachable (Passes.leave i rc))
      by (eapply reachable_next; [exact Hrec|]; apply Passes.step_pass; by eapply Passes.step_leave).
    constructor; cbn; [done| |done]. intros c.
    apply (no_workers (Passes.leave i rc)), (Passes.ro_running _ (Passes.recovery_reachable _ Hrec')).
  - assert (Hrec' : Passes.reachable rc')
      by (eapply reachable_next; [exact Hrec|]; apply Passes.step_pass; by eapply Passes.step_finish).
    apply finish_passes in Hf as [Hps _]. constructor; cbn; [done| |done]. rewrite Hps.
    destruct pass as [[c pl]|]; [by apply working_delete|]. intros c. by rewrite working_delete.
Qed.

Lemma other_step_ok σ σ' : sys_ok σ → other_step σ σ' → sys_ok σ'.
Proof.
  intros Hok Hst. destruct Hst as [rc cutoff rc' pass timeout sh Ht|rc pass timeout sh|
    rc pass timeout sh Hw|rc pass timeout sh|rc pass timeout sh sh' Ho];
    destruct Hok as [Hrec Hp Hsh]; cbn in *.
  - assert (Hrec' : Passes.reachable rc')
      by (eapply reachable_next; [exact Hrec|]; by eapply Passes.step_trigger).
    unfold Passes.triggerReconciliation in Ht.
    destruct (Passes.recoveryClosed rc || Passes.recoveryRunning rc); [injection Ht as <-; by constructor|].
    destruct (Passes.Add _ _) as [[w b]|]; [|done]. cbn [mbind option_bind] in Ht. injection Ht as <-.
    constructor; cbn; [done| |].
    + apply elem_of_app. right. by left.
    + destruct Hsh as (? & ? & _). by split_and!.
  - constructor; cbn; [|done|done]. eapply reachable_next; [exact Hrec|]. apply Passes.step_stop.
  - constructor; cbn; [|by unfold Passes.stop_wait; destruct (Passes.Wait _)|done].
    eapply reachable_next; [exact Hrec|]. by apply Passes.step_wait.
  - by constructor.
  - constructor; cbn; [done|done|]. pose proof Ho as [Hr Hpend _ _ _]. split; [done|]. split; [done|].
    destruct pass as [[c pl]|]; [|done]. cbn. eapply others_place_ok; [done|]. apply Hsh.
Qed.

Lemma shutdown_reachable_ok σ : reachable σ → sys_ok σ.
Proof.
  intros (σ0 & (ctx & Hrc & Hp & Hr & Hpend) & Hst).
  assert (Hok : sys_ok σ0).
  { constructor; rewrite ?Hrc, ?Hp; cbn; [by exists ctx|by intros c ?%elem_of_nil|by split_and!]. }
  clear - Hok Hst. induction Hst as [|σ1 σ2 σ3 [[o H]|H] _ IH]; [done|..]; apply IH.
  - by eapply pass_step_ok.
  - by eapply other_step_ok.
Qed.

(** ** Termination *)

Definition measure (σ : system) : nat * nat * nat :=
  let r := rank (default Ended (snd <$> sy_pass σ)) in (Passes.work (sy_recovery σ), r.1, r.2).

Definition smaller (a b : nat * nat * nat) : Prop :=
  nearer a.1 b.1 ∨ (a.1 = b.1 ∧ (a.2 < b.2)%nat).

Lemma pass_step_smaller σ o σ' :
  pass_step σ o σ' → smaller (measure σ') (measure σ) ∧
    Passes.recoveryClosed (sy_recovery σ') = Passes.recoveryClosed (sy_recovery σ).
Proof.
  intros Hst. destruct Hst as [rc cutoff pl timeout sh o sh' pl' Hb|rc i cutoff timeout sh Hi|
    rc i rc' pass timeout sh Hi Hf]; unfold smaller, measure; cbn.
  - apply body_step_nearer in Hb. unfold nearer in *. cbn. split; [|done].
    destruct Hb as [?|[-> ?]]; [left; right; done|by right].
  - destruct (Passes.pass_step_work rc (Passes.leave i rc)) as [Hw _]; [by eapply Passes.step_leave|].
    split; [|done]. left. by left.
  - destruct (Passes.pass_step_work rc rc') as [Hw Hcl]; [by eapply Passes.step_finish|].
    split; [|exact Hcl]. left. by left.
Qed.

Lemma other_step_measure σ σ' :
  other_step σ σ' → Passes.recoveryClosed (sy_recovery σ) = true →
  measure σ' = measure σ ∧ Passes.recoveryClosed (sy_recovery σ') = true.
Proof.
  intros Hst. destruct Hst as [rc cutoff rc' pass timeout sh Ht|rc pass timeout sh|
    rc pass timeout sh Hw|rc pass timeout sh|rc pass timeout sh sh' Ho]; cbn; intros Hc; try done.
  - unfold Passes.triggerReconciliation in Ht. rewrite Hc in Ht |- *. cbn [orb] in *. by injection Ht as <-.
  - unfold measure, Passes.work. cbn. unfold Passes.stop_wait. by destruct (Passes.Wait _).
Qed.

Lemma shutdown_terminates σ :
  Passes.recoveryClosed (sy_recovery σ) = true →
  Acc (λ σ2 σ0, ∃ σ1 o, rtc other_step σ0 σ1 ∧ pass_step σ1 o σ2) σ.
Proof.
  remember (measure σ) as m eqn:Hm. revert σ Hm.
  induction (lex_wf nearer nearer_wf m) as [m _ IH]. intros σ -> Hc. constructor.
  intros σ2 (σ1 & o & Hrtc & Hp).
  assert (H1 : measure σ1 = measure σ ∧ Passes.recoveryClosed (sy_recovery σ1) = true).
  { clear - Hrtc Hc. induction Hrtc as [|σ0 σ1 σ2 Hst _ IH]; [done|].
    destruct (other_step_measure _ _ Hst Hc) as [<- Hc']. by apply IH. }
  destruct H1 as [Hm Hc1]. apply pass_step_smaller in Hp as [Hlt Hc2].
  apply (IH (measure σ2)); [|done|congruence]. by rewrite <- Hm.
Qed.

(** ** The property *)

(** C25: A shutdown returns.  In every state the service can be in once it is closed, while its
    recovery pass runs its body on records and operations that all goroutines share: the passes
    make only finitely many steps more, whatever the others do between them; as long as one is
    left, it can make its next step by itself, without an answer of the network and without a
    lock or a gate that another goroutine holds; and when none is left, no caller of the shutdown
    is blocked and waiting returns at once. *)
Theorem shutdown_returns σ :
  reachable σ → Passes.recoveryClosed (sy_recovery σ) = true →
  Acc (λ σ2 σ0, ∃ σ1 o, rtc other_step σ0 σ1 ∧ pass_step σ1 o σ2) σ ∧
  (Passes.passes (sy_recovery σ) ≠ [] → ∃ σ', pass_step σ Own σ') ∧
  (Passes.passes (sy_recovery σ) = [] →
     Passes.waiters (Passes.recoveryWait (sy_recovery σ)) = 0%nat ∧
     Passes.stopped (Passes.stop_wait (sy_recovery σ)) = true).
Proof.
  intros Hr Hc. apply shutdown_reachable_ok in Hr as Hok. split; [by apply shutdown_terminates|].
  destruct σ as [rc pass timeout sh]. destruct Hok as [Hrec Hp Hsh]. cbn in *.
  pose proof (Passes.recovery_reachable _ Hrec) as Hro. split; [|by apply Passes.no_pass_returns].
  intros Hne. destruct pass as [[c pl]|].
  - assert (Hend : pl = Ended ∨ pl ≠ Ended) by (destruct pl; auto). destruct Hend as [->|Hpl].
    { apply list_elem_of_lookup in Hp as [i Hi]. eexists. by apply (ps_leave _ _ _ _ rc i). }
    assert (He : pass_ended rc timeout = true).
    { unfold pass_ended. destruct (Passes.ro_ctx _ Hro Hne) as [b Hb].
      pose proof (Passes.ro_closed_ctx _ Hro Hc). rewrite Hb. destruct b; [|congruence].
      rewrite bool_decide_eq_true_2 by done. apply orb_true_r. }
    assert (∃ sh' pl', body_step ChannelID LifecycleNamespace Status_String queryService c true sh pl Own sh' pl')
      as (sh' & pl' & Hb).
    { pose proof (records_progress ChannelID LifecycleNamespace Status_String queryService c sh pl Hsh) as H1.
      pose proof (operations_progress ChannelID LifecycleNamespace Status_String queryService c sh pl Hsh Hpl) as H2.
      by destruct pl. }
    rewrite <- He in Hb. eexists. by apply ps_body.
  - destruct (Passes.passes rc) as [|[c|] l] eqn:E; [done|destruct (Hp c); rewrite ?E; by left|].
    destruct (Passes.finish_defined 0 rc Hro) as [rc' Hf]; [by rewrite E|].
    eexists. eapply (ps_finish _ _ _ _ rc 0); [by rewrite E|exact Hf].
Qed.

End Shutdowns.

(** ** Witness: the service is closed while its pass asks for the status of a submitted record *)

#[local] Existing Instances Json.example_json Instances.example_msp.

#[local] Instance example_payload : RPC.PayloadJSON := {
  RPC.marshal_payload _ := "{}";
  RPC.unmarshal_Install _ := Ok "outer";
  RPC.unmarshal_QueryInstalled _ := Ok ();
  RPC.unmarshal_Definition _ := Ok Store.ex_def;
  RPC.unmarshal_Approve _ := Ok (Store.ex_def, "basic:ab12");
  RPC.unmarshal_Query _ := Ok ("", "") }.

#[local] Instance example_builder : LedgerSync.ProposalBuilder := {
  LedgerSync.NewSignedProposal _ _ _ := Err (EExt "unused");
  LedgerSync.Parse _ := Err (EExt "unused");
  LedgerSync.Endorse _ _ _ := Err (EExt "unused") }.

Definition ex_status (st : Finality.CommitterStatus) : string :=
  match st with Finality.COMMITTED => "COMMITTED" | _ => "OTHER" end.

Definition ex_records : Idempotency.idempotencyStore := Idempotency.store Idempotency.ex_submitted.

Definition ex_held : Idempotency.idempotencyStore := (Idempotency.tryLockFinality ex_records 1).1.

Definition ex_shared (s : Idempotency.idempotencyStore) : shared :=
  mkShared s (Pending.mkRecovery ∅ ∅ false) (Store.mkStore "ch" ∅ ∅ ∅ ∅).

Definition ex_started : Passes.recovery :=
  default (Passes.initial None) (Passes.triggerReconciliation 20 (Passes.initial (Some false))).

Definition ex_place : place := Querying {["tx1" := 1%positive]}.

Definition ex_closing : system :=
  mkSystem (Passes.stop_wait (Passes.stop ex_started)) (Some (20, ex_place)) false (ex_shared ex_held).

#[local] Notation ex_step := (step "mychannel" "" ex_status true).
#[local] Notation ex_body := (body_step "mychannel" "" ex_status true).

Lemma ex_body_step rc pl sh o sh' pl' :
  ex_body 20 (pass_ended rc false) sh pl o sh' pl' →
  ex_step (mkSystem rc (Some (20, pl)) false sh) (mkSystem rc (Some (20, pl')) false sh').
Proof. intros H. left. exists o. by apply ps_body. Qed.

Lemma ex_closing_reachable : reachable "mychannel" "" ex_status true ex_closing.
Proof.
  exists (mkSystem (Passes.initial (Some false)) None false (ex_shared ex_records)). split.
  { exists (Some false). split_and!; [done|done| |by intros k p].
    exists (Idempotency.owner Idempotency.ex_submitted).
    exact (Idempotency.reachable_ok _ _ Idempotency.ex_submitted_reachable). }
  eapply rtc_l; [right; by apply (os_trigger (Passes.initial (Some false)) 20 ex_started)|].
  eapply rtc_l; [eapply (ex_body_step ex_started Start); by apply (bs_pending _ _ _ _ 20 false _ ["tx1"])|].
  eapply rtc_l; [eapply (ex_body_step ex_started); by apply (bs_lock _ _ _ _ 20 false _ _ _ 1 [] ∅ ex_held)|].
  eapply rtc_l; [eapply (ex_body_step ex_started); by eapply (bs_hold _ _ _ _ 20 false (ex_shared ex_held) 1 [] ∅)|].
  eapply rtc_l; [eapply (ex_body_step ex_started); by apply (bs_query _ _ _ _ 20 false)|].
  eapply rtc_l; [right; apply os_stop|]. eapply rtc_l; [right; apply os_wait; cbn; lia|]. apply rtc_refl.
Qed.

Lemma shutdown_returns_witness :
  Passes.waiters (Passes.recoveryWait (sy_recovery ex_closing)) = 1%nat ∧
  Submission.lock_of (sh_records (sy_shared ex_closing)) 1 = Some true ∧
  ∃ σ', pass_step "mychannel" "" ex_status true ex_closing Own σ'.
Proof.
  split; [reflexivity|]. split; [reflexivity|].
  destruct (shutdown_returns "mychannel" "" ex_status true ex_closing ex_closing_reachable eq_refl)
    as (_ & Hgo & _).
  apply Hgo. discriminate.
Defined.

End Shutdown.
