(* ===== verification/Service.v ===== *)
(** The flows [Execute] and [ProcessProposal] of [orchestrator/service.go].  They compose
    admission ([Auth], [Requests]), execution ([Invocation]) and the submission records
    ([Idempotency], [Submission]).

    What other goroutines do to the submission records while a flow is outside them is an
    argument ([su_meanwhile], [su_later]), and so are the times, the contexts and the answers of
    the network.  A flow is [None] when it panics or has not returned.  [triggerReconciliation]
    only starts the background pass that [Submission.reconcilePendingBefore] describes. *)
From Stdlib Require Import Ascii ZArith Lia.
From stdpp Require Import base option list strings gmap sets relations.
From S2P Require Import Prelude LifecycleStore OrchestratorTypes GoStrings Json Proto Msp Idempotency.
From S2P Require Import EndorsementPolicy PolicyResolver EndorsementSearch Collect Finality Submission.
From S2P Require Import Instances ExecContext Shim Helper Requests Auth Config Network ChaincodeResolver.
From S2P Require Import Binding Invocation.
Import Types Proto Idempotency Invocation.
Local Open Scope Z_scope.

Module Service.

(** ** Configuration *)

Section Config.
Context {L : Msp.MSPLib}.

(** What the flows read of [Service]: the part admission reads, its own MSP, and whether an
    ordering client is set. *)
Record config := mkConfig {
  c_auth : Auth.Service;
  c_MSPID : string;
  c_submitter : bool }.

Definition c_channel (c : config) : string := Auth.s_ChannelID (c_auth c).
Definition c_namespace (c : config) : string := Auth.s_Namespace (c_auth c).

(** [s.proposalAuth.identities]. *)
Definition trusted (c : config) : option Msp.manager :=
  match Auth.s_proposalAuth (c_auth c) with
  | Some v => match Auth.trust v with Some t => Msp.identities t | None => None end
  | None => None
  end.

End Config.

Section Flows.
Context {L : Msp.MSPLib} {P : Policy.PolicyLib} {R : Collect.RemoteOrchestrators}.
Context {PU : ProtoUtil} {PL : ProposalLib} {J : Json.JSONText} {PP : PolicyResolver.PolicyProto}.

Variable eventOf : SdkEndorsement → string → option ChaincodeEvent.
Variable Status_String : Finality.CommitterStatus → string.
Variable sha256_hex : bytes → string.
Variable c : config.

(** ** Execute *)

Definition endorse_invocation (senv : stage_env) (cenv : collect_env) (req : InvocationRequest)
    : option (endorsedInvocation * option goerr) :=
  endorseInvocation (c_channel c) (c_MSPID c) (c_namespace c) senv cenv req.

(** What an invocation meets after [begin]. *)
Record submission_env := mkSubmissionEnv {
  su_executed : Z;
  su_submit : Z;
  su_complete : Z;
  (** The records before [markExecuted], and before [complete]. *)
  su_meanwhile : idempotencyStore → idempotencyStore;
  su_later : idempotencyStore → idempotencyStore;
  (** [ctx.Err()] and the [select] of the finality lock, and [ctx.Err()] before sending. *)
  su_lock_ctx : ctx_err;
  su_lock : ctx_err;
  su_ctx : ctx_err;
  su_broadcast : SdkEndorsement → Submission.broadcast;
  su_timer : bool;
  su_notify : option Finality.notifier;
  su_after_commit : Store.ChaincodeDefinition → option goerr }.

(** What a duplicate meets. *)
Record replay_env := mkReplayEnv {
  rp_arm : wait_arm;
  rp_ctx : ctx_err;
  rp_lock : ctx_err;
  rp_later : idempotencyStore }.

(** The response of a local execution. *)
Definition executed_response (key : string) (result : endorsedInvocation) : InvocationResponse :=
  match res_Response (ei_Local result) with
  | None => zero_response
  | Some response =>
      with_LifecycleBindings (Binding.lifecycleBindings (ei_Local result) (ei_Remote result))
        (with_IdempotencyKey key (Requests.responseFromPeer (res_TxID (ei_Local result)) response))
  end.

(** [Execute] between [begin] and the deferred [complete]. *)
Definition execute_first (x : submission_env) (s : idempotencyStore) (p : positive)
    (req : InvocationRequest) (endorsed : endorsedInvocation * option goerr)
    : option (idempotencyStore * InvocationResponse * option goerr) :=
  let result := endorsed.1 in
  let s := match res_Response (ei_Local result) with
           | None => s
           | Some _ => markExecuted (su_executed x) s (Some p) (res_TxID (ei_Local result))
           end in
  let out := executed_response (IdempotencyKey req) result in
  match endorsed.2 with
  | Some e => Some (s, out, Some e)
  | None =>
      if negb (status_ok (out_Status out)) then Some (s, out, None)
      else
        Submission.submitAndWaitFinality eventOf Status_String (su_submit x) (su_lock_ctx x) (su_lock x)
          (su_ctx x) (c_submitter c) (su_broadcast x (ei_Endorsement result)) s (ei_Endorsement result) out
          (Some p) (if IsInit req then ei_InitDefinition result else None) (su_timer x)
          (su_notify x) (su_after_commit x)
  end.

(** [Execute] with [submit] set. *)
Definition Execute_submit (begun : Z) (s : idempotencyStore) (req : InvocationRequest)
    (senv : stage_env) (cenv : collect_env) (x : submission_env) (rp : replay_env)
    : option (idempotencyStore * InvocationResponse * option goerr) :=
  match Requests.prepareInvocation (c_namespace c) req with
  | Err e => Some (s, zero_response, Some e)
  | Ok (namespace, _) =>
      let '(key, digest) := Requests.idempotencyIdentity sha256_hex (c_channel c) namespace req true in
      let req := Requests.with_identity key digest req in
      match begin begun s key digest with
      | (s, Err e) => Some (s, zero_response, Some e)
      | (s, Ok (p, false)) =>
          '(s, out, err) ← Submission.replaySubmission s p (rp_arm rp) (rp_ctx rp) (rp_lock rp) (rp_later rp);
          Some (s, with_IdempotentReplay true out, err)
      | (s, Ok (p, true)) =>
          endorsed ← endorse_invocation senv cenv req;
          '(s, out, err) ← execute_first x (su_meanwhile x s) p req endorsed;
          s ← complete (su_complete x) (su_later x s) (Some p) out err;
          Some (s, out, err)
      end
  end.

(** [Execute] without it; [ctx] is [ctx.Err()] on entry. *)
Definition Execute_query (senv : stage_env) (ctx : ctx_err) (req : InvocationRequest)
    : flow InvocationResponse :=
  flow_bind (evaluate (c_channel c) (c_MSPID c) (c_namespace c) senv ctx req)
    (λ result,
      match res_Response result with
      | None => None
      | Some response =>
          Some (Ok (with_LifecycleBindings (Binding.lifecycleBindings result [])
                      (Requests.responseFromPeer (res_TxID result) response)))
      end).

(** ** ProcessProposal *)

(** [json.Marshal] of a response. *)
Variable marshal_response : InvocationResponse → result bytes.

(** The error of an execution as a status. *)
Definition request_error (e : goerr) : goerr :=
  if errors_Is e EDeadlineExceeded
  then EStatus CodeDeadlineExceeded (ENew "orchestrator request deadline exceeded")
  else if errors_Is e ECanceled
  then EStatus CodeCanceled (ENew "orchestrator request canceled")
  else EStatus CodeInternal e.

(** Remote Gateway endorsement carries the qualified chaincode name. *)
Definition qualified_route (operation : string) (req : InvocationRequest) : result InvocationRequest :=
  if bool_decide (operation = Requests.GRPCOperationEndorse) && GoStrings.has_char ":"%char (ChaincodeName req)
  then route ← Requests.gatewayChaincodeRoute (ChaincodeName req);
       Ok (Requests.with_route route.1 route.2 req)
  else Ok req.

Definition forwarded_namespace (md : Requests.incoming) (req : InvocationRequest)
    : result InvocationRequest :=
  match Requests.namespaceFromContext md with
  | None => Ok req
  | Some namespace =>
      if negb (bool_decide (Namespace req = "")) && negb (bool_decide (Namespace req = namespace))
      then Err (ENew "forwarded namespace conflicts with the signed Gateway route")
      else Ok (Requests.with_route (ChaincodeName req) namespace req)
  end.

(** The operation and the request of an accepted proposal. *)
Definition proposal_request (md : Requests.incoming) (now : Z) (prop : option SignedProposal)
    : result (string * InvocationRequest) :=
  proposal ← Auth.authenticateClientProposal (c_auth c) now prop;
  '(operation, req) ← Auth.status_err CodeInvalidArgument
    (operation ← Requests.operationFromContext md;
     req ← Requests.requestFromProposal proposal.1;
     req ← qualified_route operation req;
     req ← forwarded_namespace md req;
     Requests.validateInitMetadata md (IsInit req);;
     guard_err (IsInit req && bool_decide (operation = Requests.GRPCOperationQuery))
       (ENew "is-init is only valid for invoke");;
     Ok (operation, req));
  req ← Auth.authorizeClientInvocation (c_auth c) proposal prop req;
  Ok (operation, req).

(** The response and, for an endorsement, the binding to send as a header; failing to set it is
    only logged. *)
Definition ProcessProposal (md : Requests.incoming) (now : Z) (s : idempotencyStore)
    (prop : option SignedProposal) (senv : stage_env) (cenv : collect_env) (ctx : ctx_err)
    (begun : Z) (x : submission_env) (rp : replay_env)
    : option (idempotencyStore * result (ProposalResponse * option LifecycleExecutionBinding)) :=
  match proposal_request md now prop with
  | Err e => Some (s, Err e)
  | Ok (operation, req) =>
      if bool_decide (operation = Requests.GRPCOperationEndorse)
      then
        match EndorseOnly (c_channel c) (c_MSPID c) (c_namespace c) senv req with
        | None => None
        | Some (Err e) => Some (s, Err (request_error e))
        | Some (Ok result) =>
            Some (s, match end_Responses (res_Endorsement result) with
                     | Some response :: _ => Ok (response, res_Binding result)
                     | _ => Err (EStatus CodeInternal (ENew "helper returned no proposal response"))
                     end)
        end
      else
        '(s, res, err) ←
          (if bool_decide (operation = Requests.GRPCOperationInvoke)
           then Execute_submit begun s req senv cenv x rp
           else r ← Execute_query senv ctx req;
                Some (s, match r with Ok out => out | Err _ => zero_response end,
                      match r with Ok _ => None | Err e => Some e end));
        Some (s, match err with
                 | Some e => Err (request_error e)
                 | None =>
                     match marshal_response res with
                     | Err e => Err (EStatus CodeInternal e)
                     | Ok payload =>
                         Ok (mkProposalResponse
                               (Some (mkResponse (out_Status res) (out_Message res) payload)) "" None,
                             None)
                     end
                 end)
  end.

End Flows.

(** ** The record of an invocation *)

(** How far the creating call has come, in a well-formed store. *)
Definition at_phase (p : positive) (ph : phase) (s : idempotencyStore) : Prop :=
  ∃ o, system_ok (mkSystem s o) ∧ o !! p = Some ph.

(** A record that was given to ordering. *)
Definition handed (r : idempotencyRecord) : Prop :=
  State r = idempotencySubmitted ∨
  (State r = idempotencyCompleted ∧ CommitStatus (rec_Response r) ≠ "").

(** A record that only its creating call changes. *)
Definition unsubmitted (r : idempotencyRecord) : Prop :=
  (State r = idempotencyInProgress ∨ State r = idempotencyExecuted) ∧ finalityCheck r = false.

(** What other goroutines do to the records: each operation of theirs keeps the store well
    formed, moves records forward only, and touches no record before it is submitted. *)
Record concurrent (p : positive) (f : idempotencyStore → idempotencyStore) : Prop := mkConcurrent {
  co_phase : ∀ s ph, at_phase p ph s → at_phase p ph (f s);
  co_record : ∀ s r, heap s !! p = Some r →
    ∃ r', heap (f s) !! p = Some r' ∧ record_le r r' ∧ (unsubmitted r → r' = r) }.

Definition tracked (p : positive) (k : string) (Q : idempotencyRecord → Prop) (s : idempotencyStore)
    : Prop := ∃ r, heap s !! p = Some r ∧ Key r = k ∧ Q r.

Lemma tracked_unsubmitted p k f s :
  concurrent p f → tracked p k unsubmitted s → tracked p k unsubmitted (f s).
Proof.
  intros Hf (r & Hr & Hk & Hu). destruct (co_record p f Hf s r Hr) as (r' & Hr' & _ & He).
  rewrite (He Hu) in Hr'. by exists r.
Qed.

Lemma handed_le r r' : record_le r r' → handed r → handed r'.
Proof.
  intros (_ & _ & Hle) [E|[E Hc]]; rewrite E in Hle.
  - destruct Hle as [(? & _)|(? & ? & _)]; [by left|by right].
  - destruct Hle as (E' & Er & _). right. by rewrite Er, E'.
Qed.

Lemma tracked_handed p k f s :
  concurrent p f → tracked p k handed s → tracked p k handed (f s).
Proof.
  intros Hf (r & Hr & Hk & Hu). destruct (co_record p f Hf s r Hr) as (r' & Hr' & Hle & _).
  exists r'. split_and!; [done| |by eapply handed_le]. destruct Hle as (-> & _). done.
Qed.

Lemma markExecuted_tracked now p k tx s :
  at_phase p Begun s → tracked p k unsubmitted s →
  at_phase p Executed (markExecuted now s (Some p) tx) ∧
  tracked p k unsubmitted (markExecuted now s (Some p) tx).
Proof.
  intros (o & Hok & Ho) (r & Hr & Hk & _ & Hl). split.
  - exists (<[p := Executed]> o). split; [|by rewrite lookup_insert_eq].
    eapply (idem_step_inv (λ _ _, None) (mkSystem s o) _ Hok). by apply step_markExecuted.
  - unfold markExecuted. rewrite Hr. eexists. split; [simpl; by rewrite lookup_insert_eq|].
    split; [done|]. split; [by right|done].
Qed.

(** [complete] settles an unsubmitted record with the caller's answer and leaves a handed one. *)
Lemma complete_settles now p k ph s out err :
  at_phase p ph s → ph ≠ Returned → tracked p k unsubmitted s →
  ∃ s', complete now s (Some p) out err = Some s' ∧ at_phase p Returned s' ∧
    tracked p k (λ r, State r = match err with Some _ => idempotencyFailed | None => idempotencyCompleted end ∧
                      rec_Response r = out ∧ rec_Err r = err) s'.
Proof.
  intros (o & Hok & Ho) Hph (r & Hr & Hk & Hu & _).
  destruct (complete_step now (mkSystem s o) p ph out err Hok Ho) as (s' & Hc & Hok' & _).
  exists s'. split; [done|]. split.
  { exists (<[p := Returned]> o). split; [by apply Hok'|]. by rewrite lookup_insert_eq. }
  cbn [store] in Hc. rewrite (complete_spec _ _ _ r) in Hc by done.
  rewrite (proj2 (submitted_or_terminal_false r)) in Hc by done.
  destruct (done r); [done|]. injection Hc as <-.
  eexists. rewrite heap_remove. simpl. rewrite lookup_insert_eq. split_and!; done.
Qed.

Lemma complete_handed now p k ph s out err :
  at_phase p ph s → ph ≠ Returned → tracked p k handed s →
  ∃ s', complete now s (Some p) out err = Some s' ∧ at_phase p Returned s' ∧ tracked p k handed s'.
Proof.
  intros (o & Hok & Ho) Hph (r & Hr & Hk & Hu).
  destruct (complete_step now (mkSystem s o) p ph out err Hok Ho) as (s' & Hc & Hok' & _).
  exists s'. split; [done|]. split.
  { exists (<[p := Returned]> o). split; [by apply Hok'|]. by rewrite lookup_insert_eq. }
  cbn [store] in Hc. rewrite (complete_spec _ _ _ r) in Hc by done.
  assert (submitted_or_terminal r = true) as E.
  { unfold submitted_or_terminal, in_state. destruct Hu as [->|[-> _]]; done. }
  rewrite E in Hc. injection Hc as <-. by exists r.
Qed.

Section Flows.
Context {L : Msp.MSPLib} {P : Policy.PolicyLib} {R : Collect.RemoteOrchestrators}.
Context {PU : ProtoUtil} {PL : ProposalLib} {J : Json.JSONText} {PP : PolicyResolver.PolicyProto}.
Variable eventOf : SdkEndorsement → string → option ChaincodeEvent.
Variable Status_String : Finality.CommitterStatus → string.

(** The ordering stage either hands the record over or leaves the store alone. *)
Lemma submitTransaction_tracked now ctx submitter b end_ out p k s after :
  at_phase p Executed s → tracked p k (λ r, State r = idempotencyExecuted) s →
  ∃ s' out' err called,
    Submission.submitTransaction eventOf now ctx submitter b s end_ out (Some p) after =
      Some (s', out', err, called) ∧
    ((s' = s ∧ out' = out ∧ err ≠ None) ∨
     (at_phase p Handed s' ∧ tracked p k (λ r, State r = idempotencySubmitted) s' ∧
      (∀ q, Submission.lock_of s' q = Submission.lock_of s q) ∧
      submitter = true ∧
      out' = with_FinalityPending true (with_Submitted true out) ∧
      match Submission.Submit b with None => err = None | Some e => Submission.uncertain e = true end)).
Proof.
  intros (o & Hok & Ho) (r & Hr & Hk & Hst). unfold Submission.submitTransaction.
  rewrite bool_decide_eq_false_2 by done. cbn [orb].
  destruct submitter; cbn [negb]; [|do 4 eexists; split; [done|]; by left].
  destruct ctx as [e|]; [do 4 eexists; split; [done|]; by left|].
  assert (Hsub : submitted r = false).
  { destruct (so_records (mkSystem s o) Hok p r Hr) as (ph & _ & Hrec). unfold record_ok in Hrec.
    rewrite Hst in Hrec. by destruct Hrec. }
  assert (Hmark : ∀ submitErr out, ∃ s', markSubmission eventOf now s (Some p) out end_ after submitErr = Some s' ∧
    at_phase p Handed s' ∧ tracked p k (λ r, State r = idempotencySubmitted) s' ∧
    (∀ q, Submission.lock_of s' q = Submission.lock_of s q)).
  { intros submitErr out0. rewrite (markSubmission_spec _ _ _ _ r) by done. eexists. split; [done|].
    split_and!.
    - exists (<[p := Handed]> o). split; [|by rewrite lookup_insert_eq].
      eapply (idem_step_inv eventOf (mkSystem s o) _ Hok).
      eapply (step_markSubmission eventOf (mkSystem s o) now p out0 end_ after submitErr); [done|].
      cbn [store]. by rewrite (markSubmission_spec _ _ _ _ r) by done.
    - eexists. simpl. rewrite lookup_insert_eq. split_and!; done.
    - intros q. rewrite Submission.lock_of_with_record. case_decide; [subst|done].
      unfold Submission.lock_of. by rewrite Hr. }
  destruct (Submission.Submit b) as [e|] eqn:Eb.
  - destruct (Submission.uncertain e) eqn:Eu.
    + destruct (Hmark (Some e) (with_FinalityPending true (with_Submitted true out))) as (s' & -> & ? & ? & ?).
      cbn [mbind option_bind]. do 4 eexists. split; [done|]. right. by split_and!.
    + do 4 eexists. split; [done|]. by left.
  - unfold markSubmitted.
    destruct (Hmark None (with_FinalityPending true (with_Submitted true out))) as (s' & -> & ? & ? & ?).
    cbn [mbind option_bind]. do 4 eexists. split; [done|]. right. by split_and!.
Qed.

Lemma waitResult_tracked p k Q s e :
  tracked p k Q s → ∃ out err, waitResult s p e = Some (out, err).
Proof. intros (r & Hr & _). unfold waitResult. rewrite Hr. simpl. repeat case_match; eauto. Qed.

Lemma lock_at_phase p ph k Q s b :
  (∀ r b, Q r → Q (set_lock b r)) →
  at_phase p ph s → tracked p k Q s → Submission.lock_of s p = Some (negb b) →
  ∃ r, heap s !! p = Some r ∧ finalityCheck r = negb b ∧
    at_phase p ph (with_record p (set_lock b r) s) ∧
    tracked p k Q (with_record p (set_lock b r) s) ∧
    Submission.lock_of (with_record p (set_lock b r) s) p = Some b.
Proof.
  intros HQ (o & Hok & Ho) (r & Hr & Hk & Hq) Hl. exists r.
  unfold Submission.lock_of in Hl. rewrite Hr in Hl. injection Hl as Hl.
  destruct (lock_ok (mkSystem s o) p r b Hok Hr) as [Hok' _]. split_and!; [done|done| | |].
  - by exists o.
  - exists (set_lock b r). split; [simpl; by rewrite lookup_insert_eq|]. split; [done|by apply HQ].
  - rewrite Submission.lock_of_with_record, decide_True by done. done.
Qed.

Lemma unlock_tracked p ph k Q s :
  (∀ r b, Q r → Q (set_lock b r)) →
  at_phase p ph s → tracked p k Q s → Submission.lock_of s p = Some true →
  ∃ s', unlockFinality s p = Some s' ∧ at_phase p ph s' ∧ tracked p k Q s' ∧
    Submission.lock_of s' p = Some false.
Proof.
  intros HQ Hp Ht Hl. destruct (lock_at_phase p ph k Q s false HQ Hp Ht Hl) as (r & Hr & Hf & ? & ? & ?).
  unfold unlockFinality. rewrite Hr. cbn [mbind option_bind]. rewrite Hf. eexists. by split_and!.
Qed.

Lemma recordFinality_tracked now p ph k s st after :
  at_phase p ph s → tracked p k handed s →
  ∃ s' err ran, Submission.recordFinality Status_String now s (Some p) st after = Some (s', err, ran) ∧
    at_phase p ph s' ∧ tracked p k handed s' ∧
    ∀ q, Submission.lock_of s' q = Submission.lock_of s q.
Proof.
  intros (o & Hok & Ho) (r & Hr & Hk & Hh).
  destruct (Submission.recordFinality_step Status_String now s o (Some p) st after Hok)
    as (s' & err & ran & Hf & Hok' & Hle & Hl).
  exists s', err, ran. split_and!; [done|by exists o| |done].
  destruct (Hle p r Hr) as (r' & Hr' & Hrec). exists r'. split_and!; [done| |by eapply handed_le].
  destruct Hrec as (-> & _). done.
Qed.

Lemma awaitOutcome_tracked now p k s txID timer sub after_commit :
  at_phase p Handed s → tracked p k handed s → is_Some (Finality.Wait txID sub) →
  ∃ s' out err,
    Submission.awaitOutcome Status_String now s p txID timer sub after_commit = Some (s', out, err) ∧
    at_phase p Handed s' ∧ tracked p k handed s' ∧
    ∀ q, Submission.lock_of s' q = Submission.lock_of s q.
Proof.
  intros Hp Hh [f Hf]. unfold Submission.awaitOutcome.
  destruct (waitResult_tracked p k handed s None Hh) as (o & e & Hw).
  destruct timer; [rewrite Hw; cbn [mbind option_bind]; do 3 eexists; by split_and!|].
  rewrite Hf. cbn [mbind option_bind].
  destruct (bool_decide (is_Some (Finality.fr_err f)) || _);
    [rewrite Hw; cbn [mbind option_bind]; do 3 eexists; by split_and!|].
  destruct (recordFinality_tracked now p Handed k s (Finality.fr_status f) after_commit Hp Hh)
    as (s2 & err2 & ran & -> & Hp2 & Hh2 & Hl). cbn [mbind option_bind].
  destruct (waitResult_tracked p k handed s2 None Hh2) as (o' & e' & ->). cbn [mbind option_bind].
  do 3 eexists. by split_and!.
Qed.

Definition executed_record (r : idempotencyRecord) : Prop := State r = idempotencyExecuted.

(** The orderer may have the envelope. *)
Definition delivered (b : Submission.broadcast) : Prop :=
  match Submission.Submit b with None => True | Some e => Submission.uncertain e = true end.

(** The submission and its wait return, having handed the record over or left it alone. *)
Lemma submitAndWaitFinality_returns now lock_ctx lock ctx submitter b s end_ out p k after timer notify after_commit :
  at_phase p Executed s → tracked p k executed_record s → Submission.lock_of s p = Some false →
  is_Some (Finality.Wait (TxID out) (Finality.subscription_or_nil notify)) →
  ∃ s' out' err',
    Submission.submitAndWaitFinality eventOf Status_String now lock_ctx lock ctx submitter b s end_ out (Some p)
      after timer notify after_commit = Some (s', out', err') ∧
    ((at_phase p Executed s' ∧ tracked p k executed_record s' ∧
      Submission.lock_of s' p = Some false ∧ out' = out ∧ err' ≠ None) ∨
     (at_phase p Handed s' ∧ tracked p k handed s' ∧ submitter = true ∧ delivered b)).
Proof.
  intros Hp Ht Hl Hwait. unfold Submission.submitAndWaitFinality, lockFinality.
  destruct lock_ctx as [e|]; [cbn [mbind option_bind]; do 3 eexists; split; [done|]; left; by split_and!|].
  destruct lock as [e|]; [cbn [mbind option_bind]; do 3 eexists; split; [done|]; left; by split_and!|].
  destruct (lock_at_phase p Executed k executed_record s true) as (r & Hr & Hf & Hp1 & Ht1 & Hl1);
    [done..|]. unfold tryLockFinality. rewrite Hr, Hf. cbn [negb mbind option_bind].
  destruct (submitTransaction_tracked now ctx submitter b end_ out p k _ after Hp1 Ht1)
    as (s1 & out1 & err1 & called & Hs & Hcase). rewrite Hs. cbn [mbind option_bind].
  destruct Hcase as [(-> & -> & He)|(Hp2 & Ht2 & Hl2 & Hsub & Hout & Hb)].
  - destruct err1 as [e|]; [|done]. cbn [mbind option_bind].
    destruct (unlock_tracked p Executed k executed_record _ ltac:(done) Hp1 Ht1 Hl1)
      as (s' & -> & ? & ? & ?).
    cbn [mbind option_bind]. do 3 eexists. split; [done|]. left. by split_and!.
  - assert (Hh : tracked p k handed s1) by (destruct Ht2 as (r2 & ? & ? & ?); exists r2; split_and!; [done|done|by left]).
    assert (∃ s2 out2 err2, match err1 with
       | Some e => Some (s1, out1, Some e)
       | None => Submission.awaitOutcome Status_String now s1 p (TxID out) timer (Finality.subscription_or_nil notify) after_commit
       end = Some (s2, out2, err2) ∧ at_phase p Handed s2 ∧ tracked p k handed s2 ∧
       Submission.lock_of s2 p = Some true) as (s2 & out2 & err2 & -> & Hp3 & Hh3 & Hl3).
    { destruct err1 as [e|]; [do 3 eexists; split; [done|]; split_and!; [done|done|by rewrite Hl2]|].
      destruct (awaitOutcome_tracked now p k s1 (TxID out) timer (Finality.subscription_or_nil notify) after_commit Hp2 Hh Hwait)
        as (s2 & o2 & e2 & -> & ? & ? & Hl3).
      do 3 eexists. split; [done|]. split_and!; [done|done|by rewrite Hl3, Hl2]. }
    cbn [mbind option_bind].
    destruct (unlock_tracked p Handed k handed s2 ltac:(done) Hp3 Hh3 Hl3) as (s' & -> & ? & ? & _).
    cbn [mbind option_bind]. do 3 eexists. split; [done|]. right. split_and!; [done..|].
    unfold delivered. by destruct (Submission.Submit b).
Qed.

Variable sha256_hex : bytes → string.
Variable c : config.

Lemma execute_first_returns x s p k req endorsed :
  at_phase p Begun s → tracked p k unsubmitted s →
  (∀ tx, is_Some (Finality.Wait tx (Finality.subscription_or_nil (su_notify x)))) →
  ∃ s' out err, execute_first eventOf Status_String c x s p req endorsed = Some (s', out, err) ∧
    ((∃ ph, at_phase p ph s' ∧ ph ≠ Returned ∧ tracked p k unsubmitted s' ∧
        out = executed_response (IdempotencyKey req) endorsed.1 ∧
        (err = None → status_ok (out_Status out) = false)) ∨
     (at_phase p Handed s' ∧ tracked p k handed s' ∧ endorsed.2 = None ∧
        status_ok (out_Status (executed_response (IdempotencyKey req) endorsed.1)) = true ∧
        c_submitter c = true ∧ delivered (su_broadcast x (ei_Endorsement endorsed.1)))).
Proof.
  intros Hp Ht Hwait. unfold execute_first. destruct endorsed as [result e]. cbn [fst snd].
  destruct (res_Response (ei_Local result)) as [response|] eqn:Er.
  - destruct (markExecuted_tracked (su_executed x) p k (res_TxID (ei_Local result)) s Hp Ht) as [Hp1 Ht1].
    set (s1 := markExecuted _ _ _ _) in *.
    destruct e as [e|].
    { do 3 eexists. split; [done|]. left. exists Executed. by split_and!. }
    destruct (status_ok _) eqn:Est; cbn [negb].
    2:{ do 3 eexists. split; [done|]. left. exists Executed. by split_and!. }
    assert (Ht2 : tracked p k executed_record s1 ∧ Submission.lock_of s1 p = Some false).
    { destruct Ht as (r & Hr & Hk & _ & Hl). subst s1. unfold markExecuted. rewrite Hr. split.
      - eexists. simpl. rewrite lookup_insert_eq. by split_and!.
      - rewrite Submission.lock_of_with_record, decide_True by done. simpl. by rewrite Hl. }
    destruct Ht2 as [Ht2 Hl].
    edestruct (submitAndWaitFinality_returns (su_submit x) (su_lock_ctx x) (su_lock x) (su_ctx x) (c_submitter c)
      (su_broadcast x (ei_Endorsement result)) s1 (ei_Endorsement result)) as (s2 & out & err & -> & Hc);
      [done|done|done|apply Hwait|].
    do 3 eexists. split; [done|]. destruct Hc as [(? & (r & Hr & Hk & He) & Hl2 & -> & Hne)|(? & ? & ? & ?)].
    + left. exists Executed. split_and!; [done|done| |done|done].
      exists r. split_and!; [done|done|]. split; [by right|].
      unfold Submission.lock_of in Hl2. rewrite Hr in Hl2. by injection Hl2.
    + right. by split_and!.
  - assert (Hz : executed_response (IdempotencyKey req) result = zero_response)
      by (unfold executed_response; by rewrite Er). rewrite Hz.
    destruct e as [e|]; (do 3 eexists; split; [done|]; left; exists Begun; by split_and!).
Qed.

(** What [Execute] needs to return: its record is new, its stages return, and the rest of the
    system keeps to its own records. *)
Record first_invocation (begun : Z) (s : idempotencyStore) (req : InvocationRequest)
    (senv : stage_env) (cenv : collect_env) (x : submission_env) (key digest : string)
    (s1 : idempotencyStore) (p : positive) : Prop := mkFirst {
  fi_store : ∃ o, system_ok (mkSystem s o);
  fi_identity : ∃ ns args, Requests.prepareInvocation (c_namespace c) req = Ok (ns, args) ∧
    Requests.idempotencyIdentity sha256_hex (c_channel c) ns req true = (key, digest);
  fi_new : begin begun s key digest = (s1, Ok (p, true));
  fi_stages : is_Some (endorse_invocation c senv cenv (Requests.with_identity key digest req));
  fi_wait : ∀ tx, is_Some (Finality.Wait tx (Finality.subscription_or_nil (su_notify x)));
  fi_meanwhile : concurrent p (su_meanwhile x);
  fi_later : concurrent p (su_later x) }.

Lemma first_invocation_settles begun s req senv cenv x rp key digest s1 p :
  first_invocation begun s req senv cenv x key digest s1 p →
  ∃ s' out err r result,
    Execute_submit eventOf Status_String sha256_hex c begun s req senv cenv x rp = Some (s', out, err) ∧
    at_phase p Returned s' ∧ heap s' !! p = Some r ∧ Key r = key ∧
    endorse_invocation c senv cenv (Requests.with_identity key digest req) = Some result ∧
    ((handed r ∧ result.2 = None ∧ status_ok (out_Status (executed_response key result.1)) = true ∧
      c_submitter c = true ∧ delivered (su_broadcast x (ei_Endorsement result.1))) ∨
     (State r = match err with Some _ => idempotencyFailed | None => idempotencyCompleted end ∧
      rec_Response r = out ∧ rec_Err r = err ∧ out = executed_response key result.1)).
Proof.
  intros [[o Hok] (ns & args & Hprep & Hid) Hbegin [[result e] Hend] Hwait Hm Hl].
  unfold Execute_submit. rewrite Hprep, Hid, Hbegin, Hend. cbn [mbind option_bind].
  assert (Hp1 : at_phase p Begun s1 ∧ tracked p key unsubmitted s1).
  { destruct (begin_ok begun (mkSystem s o) key digest s1 p Hok Hbegin) as [Hok1 _]. split.
    - eexists. split; [exact Hok1|]. by rewrite lookup_insert_eq.
    - apply begin_new in Hbegin as (_ & _ & _ & _ & ->). eexists. simpl. rewrite lookup_insert_eq.
      split_and!; [done|done|]. split; [by left|done]. }
  destruct Hp1 as [Hp1 Ht1].
  destruct (execute_first_returns x (su_meanwhile x s1) p key (Requests.with_identity key digest req)
    (result, e)) as (s2 & out & err & -> & Hcase);
    [by apply (co_phase p _ Hm)|by apply tracked_unsubmitted|done|]. cbn [mbind option_bind].
  destruct Hcase as [(ph & Hp2 & Hph & Ht2 & Hout & _)|(Hp2 & Ht2 & ? & ? & ? & ?)].
  - destruct (complete_settles (su_complete x) p key ph (su_later x s2) out err)
      as (s3 & -> & Hp3 & r & ? & ? & ? & ? & ?);
      [by apply (co_phase p _ Hl)|done|by apply tracked_unsubmitted|].
    exists s3, out, err, r, (result, e). split_and!; auto 10.
  - destruct (complete_handed (su_complete x) p key Handed (su_later x s2) out err)
      as (s3 & -> & Hp3 & r & ? & ? & ?);
      [by apply (co_phase p _ Hl)|done|by apply tracked_handed|].
    exists s3, out, err, r, (result, e). split_and!; auto 10.
Qed.

(** C26: An invocation never leaves its submission record unsettled: once its stages return, so
    does [Execute], whatever else happens to the records meanwhile, and then the record either
    was handed to ordering, and is kept until its commit status is known, or it is finished with
    exactly the answer the caller got.  Hence every duplicate that waits is answered. *)
Theorem Execute_completes begun s req senv cenv x rp key digest s1 p :
  first_invocation begun s req senv cenv x key digest s1 p →
  ∃ s' out err r,
    Execute_submit eventOf Status_String sha256_hex c begun s req senv cenv x rp = Some (s', out, err) ∧
    heap s' !! p = Some r ∧ Key r = key ∧
    (handed r ∨
     (State r = match err with Some _ => idempotencyFailed | None => idempotencyCompleted end ∧
      rec_Response r = out ∧ rec_Err r = err)) ∧
    ∃ arm, (arm = arm_done ∨ arm = arm_submitted) ∧ is_Some (wait s' (Some p) arm).
Proof.
  intros H. destruct (first_invocation_settles begun s req senv cenv x rp key digest s1 p H)
    as (s' & out & err & r & result & Hx & (o & Hok & Ho) & Hr & Hk & _ & Hcase).
  exists s', out, err, r. split_and!; [done..| |exact (returned_answers (mkSystem s' o) p Hok Ho)].
  destruct Hcase as [(? & _)|(? & ? & ? & _)]; auto.
Qed.

(** C1: An invocation is handed to ordering only endorsed: if its record shows a submission, then
    every stage of the same request answered: the active definition was selected and allowed
    it to run, the policy of its namespace was loaded, the local helper executed it successfully,
    and the envelope that was sent carries an endorsement that meets that policy for the client's
    transaction. *)
Theorem Execute_submits_endorsed begun s req senv cenv x rp key digest s1 p s' out err r :
  first_invocation begun s req senv cenv x key digest s1 p →
  Execute_submit eventOf Status_String sha256_hex c begun s req senv cenv x rp = Some (s', out, err) →
  heap s' !! p = Some r → handed r →
  ∃ req' ns args policy compiled result,
    endorsed_run (c_channel c) (c_MSPID c) (c_namespace c) senv cenv
      (Requests.with_identity key digest req) req' ns args policy compiled result ∧
    Collect.endorsement_ok (ce_now cenv) compiled req' (ei_Local result) (ei_Endorsement result) ∧
    delivered (su_broadcast x (ei_Endorsement result)) ∧ c_submitter c = true.
Proof.
  intros H Hx Hr Hh. destruct (first_invocation_settles begun s req senv cenv x rp key digest s1 p H)
    as (s2 & out2 & err2 & r2 & [result e] & Hx2 & _ & Hr2 & _ & Hend & Hcase).
  cbn [fst snd] in Hcase. simplify_eq.
  destruct Hcase as [(_ & -> & Hst & Hc & Hd)|(Es & Eo & _ & ->)].
  - unfold endorse_invocation in Hend. unfold executed_response in Hst.
    destruct (res_Response (ei_Local result)) as [response|] eqn:Er; [|done].
    destruct (endorseInvocation_ok _ _ _ _ _ _ _ _ Hend Er Hst)
      as (req' & ns & args & policy & compiled & Hrun).
    exists req', ns, args, policy, compiled, result. split_and!; [done|apply Hrun|done|done].
  - destruct Hh as [E|[E Hc]]; rewrite E in Es; [by destruct err|].
    destruct Hc. rewrite Eo. unfold executed_response. by destruct (res_Response _).
Qed.

End Flows.

(** ** Admission of a proposal *)

Section Admission.
Context {L : Msp.MSPLib} {PU : ProtoUtil}.
Variable c : config.

(** The request of an admitted proposal keeps the signed arguments and identity. *)
Record proposal_admitted (md : Requests.incoming) (now : Z) (prop : option SignedProposal)
    (operation : string) (req : InvocationRequest) (inv : Proto.Invocation) (id : Msp.identity)
    : Prop := mkProposalAdmitted {
  pa_operation : Requests.operationFromContext md = Ok operation;
  pa_admitted : Auth.admitted (c_auth c) now prop inv id (ChaincodeName req) (Namespace req);
  pa_args : Function req :: Args req = inv_Args inv;
  pa_client : ClientTxID req = inv_TxID inv ∧ ClientCreator req = inv_Creator inv ∧
    ClientNonce req = inv_Nonce inv ∧ ClientSignedProposal req = prop;
  pa_namespace : Namespace req ≠ "" ∧
    ∀ ns, Requests.namespaceFromContext md = Some ns → Namespace req = ns;
  pa_chaincode : ChaincodeName req = inv_Namespace inv ∨
    (operation = Requests.GRPCOperationEndorse ∧
     Requests.gatewayChaincodeRoute (inv_Namespace inv) = Ok (ChaincodeName req, Namespace req));
  pa_init : operation = Requests.GRPCOperationQuery → IsInit req = false }.

Lemma requestFromProposal_fields inv req :
  Requests.requestFromProposal inv = Ok req →
  Function req :: Args req = inv_Args inv ∧ ChaincodeName req = inv_Namespace inv ∧ Namespace req = "".
Proof.
  unfold Requests.requestFromProposal. intros H. destruct (inv_Args inv) as [|f rest]; [done|].
  case_bool_decide; [done|]. destruct (inv_Proposal inv) as [p|]; [|by injection H as <-].
  destruct (UnmarshalChaincodeProposalPayload _) as [cpp|]; [|done].
  apply bind_ok in H as (ii & _ & H). by injection H as <-.
Qed.

Lemma route_namespace name cc ns :
  Requests.gatewayChaincodeRoute name = Ok (cc, ns) → ns ≠ "".
Proof.
  unfold Requests.gatewayChaincodeRoute. destruct (Requests.Cut name) as [[a b]|]; [|done].
  destruct (_ || _) eqn:E; [done|]. intros [= -> ->]. by bool_props.
Qed.

Lemma prepared_namespace default_ns req ns args :
  Requests.prepareInvocation default_ns req = Ok (ns, args) →
  ns ≠ "" ∧ (Namespace req ≠ "" → ns = Namespace req).
Proof.
  unfold Requests.prepareInvocation. cbn zeta. intros H.
  destruct (bool_decide (Namespace req = "")) eqn:E; case_bool_decide as Hn; try done;
    (destruct (Requests.invocationArgs req); [done|]); injection H as <- <-; bool_props; done.
Qed.

(** Routing changes the chaincode's name and namespace only. *)
Lemma qualified_route_ok operation r r' :
  qualified_route operation r = Ok r' → Namespace r = "" →
  Function r' = Function r ∧ Args r' = Args r ∧ IsInit r' = IsInit r ∧
  ((ChaincodeName r' = ChaincodeName r ∧ Namespace r' = "") ∨
   (operation = Requests.GRPCOperationEndorse ∧ Namespace r' ≠ "" ∧
    Requests.gatewayChaincodeRoute (ChaincodeName r) = Ok (ChaincodeName r', Namespace r'))).
Proof.
  unfold qualified_route. intros H Hn. destruct (_ && _) eqn:E.
  - bool_props. apply bind_ok in H as ([cc ns] & Hr & H). injection H as <-. rewrite Hr. cbn.
    split_and!; [done..|]. right. split_and!; [done|by eapply route_namespace|done].
  - injection H as <-. split_and!; auto.
Qed.

Lemma forwarded_namespace_ok md r r' :
  forwarded_namespace md r = Ok r' →
  Function r' = Function r ∧ Args r' = Args r ∧ ChaincodeName r' = ChaincodeName r ∧
  IsInit r' = IsInit r ∧
  (∀ n, Requests.namespaceFromContext md = Some n → Namespace r' = n ∧ n ≠ "") ∧
  (Namespace r ≠ "" → Namespace r' = Namespace r).
Proof.
  unfold forwarded_namespace. intros H.
  destruct (Requests.namespaceFromContext md) as [n|] eqn:En; [|injection H as <-; naive_solver].
  destruct (_ && _) eqn:E; [done|]. injection H as <-. cbn. split_and!; [done..| |].
  - intros n' [= <-]. split; [done|]. unfold Requests.namespaceFromContext in En.
    destruct (md _) as [|v l]; [done|]. clear E. case_bool_decide; [done|]. congruence.
  - intros Hne. rewrite andb_false_iff, !negb_false_iff, !bool_decide_eq_true in E. by destruct E.
Qed.

Lemma proposal_request_admits md now prop operation req :
  proposal_request c md now prop = Ok (operation, req) →
  ∃ inv id, proposal_admitted md now prop operation req inv id.
Proof.
  unfold proposal_request. intros H. apply bind_ok in H as ([inv id] & Hau & H).
  apply Auth.authenticateClientProposal_ok in Hau as (Hparse & Hch & Hsig & Hext).
  apply bind_ok in H as ([op req1] & H1 & H). apply Auth.status_err_ok in H1. cbn [fst] in H1.
  apply bind_ok in H1 as (op' & Hop & H1). apply bind_ok in H1 as (r0 & Hr0 & H1).
  apply bind_ok in H1 as (r1 & Hr1 & H1). apply bind_ok in H1 as (r2 & Hr2 & H1).
  apply bind_ok in H1 as ([] & Hinit & H1). apply bind_ok in H1 as ([] & Hq & H1).
  assert (op' = op ∧ r2 = req1) as [-> ->] by (by simplify_eq). clear H1. apply guard_err_ok in Hq.
  apply bind_ok in H as (req2 & Hreq & H).
  assert (op = operation ∧ req2 = req) as [-> ->] by (by simplify_eq). clear H.
  apply Auth.authorizeClientInvocation_ok in Hreq as (ns & args & Hprep & -> & Hrule).
  apply requestFromProposal_fields in Hr0 as (Hargs & Hcc & Hns0).
  apply prepared_namespace in Hprep as [Hns Hsame]. cbn [Namespace Requests.with_client] in Hsame.
  apply qualified_route_ok in Hr1 as (Hf1 & Ha1 & Hi1 & Hroute); [|done].
  apply forwarded_namespace_ok in Hr2 as (Hf2 & Ha2 & Hc2 & Hi2 & Hn2 & Hk2).
  exists inv, id. constructor; cbn.
  - done.
  - constructor; [done..| |done]. destruct Hsig as (v & t & sp & Hv & Ht & -> & Hsp).
    exists v, t, sp. split_and!; try done. apply Auth.authorize_rules_ok. by rewrite Hv in Hrule.
  - congruence.
  - done.
  - split; [done|]. intros n Hn. destruct (Hn2 n Hn) as [He Hne]. rewrite Hsame, He; congruence.
  - destruct Hroute as [[Hr _]|(? & Hne & Hr)]; [left; congruence|right]. split; [done|].
    rewrite <- Hcc, Hr, Hc2. f_equal. f_equal. rewrite Hsame, Hk2; [done..|]. by rewrite Hk2.
  - intros ->. destruct (IsInit req1) eqn:Ei; [|done]. by rewrite bool_decide_eq_true_2 in Hq.
Qed.

Context {P : @Policy.PolicyLib L} {R : Collect.RemoteOrchestrators}.
Context {PL : ProposalLib} {J : Json.JSONText} {PP : PolicyResolver.PolicyProto}.
Variable eventOf : SdkEndorsement → string → option ChaincodeEvent.
Variable Status_String : Finality.CommitterStatus → string.
Variable sha256_hex : bytes → string.
Variable marshal_response : InvocationResponse → result bytes.

(** C7: [ProcessProposal] runs only what its client signed and may invoke: whenever it answers
    without an error, or changes a submission record at all, the proposal was parsed from the
    signed bytes, its creator is trusted now and accepted by a rule for exactly the chaincode and
    namespace that are executed, the executed arguments and transaction are the signed ones, a
    namespace in the metadata never replaces another in the signed route, and a query never
    initializes; queries and endorsements leave every record alone. *)
Theorem ProcessProposal_admits md now s prop senv cenv ctx begun x rp s' r :
  ProcessProposal eventOf Status_String sha256_hex c marshal_response md now s prop senv cenv ctx
    begun x rp = Some (s', r) →
  is_ok r = true ∨ s' ≠ s →
  ∃ operation req inv id, proposal_request c md now prop = Ok (operation, req) ∧
    proposal_admitted md now prop operation req inv id ∧
    (s' = s ∨ (operation = Requests.GRPCOperationInvoke ∧
       ∃ out err, Execute_submit eventOf Status_String sha256_hex c begun s req senv cenv x rp =
         Some (s', out, err))) ∧
    (operation = Requests.GRPCOperationEndorse →
       ∃ result, EndorseOnly (c_channel c) (c_MSPID c) (c_namespace c) senv req = Some (Ok result) ∧
         ∃ resp rest, r = Ok (resp, res_Binding result) ∧
           end_Responses (res_Endorsement result) = Some resp :: rest).
Proof.
  unfold ProcessProposal. intros H Hr.
  destruct (proposal_request c md now prop) as [[operation req]|e] eqn:Hreq.
  2:{ injection H as <- <-. destruct Hr as [Hr|Hr]; done. }
  apply proposal_request_admits in Hreq as Had. destruct Had as (inv & id & Had).
  exists operation, req, inv, id. split; [done|]. split; [done|].
  case_bool_decide as Hop.
  - destruct (EndorseOnly _ _ _ _ _) as [[result|e]|] eqn:Hx; [| |done].
    + injection H as <- <-. destruct Hr as [Hr|Hr]; [|done]. split; [by left|]. intros _.
      exists result. split; [done|].
      destruct (end_Responses (res_Endorsement result)) as [|[resp|] rest]; [done| |done].
      by exists resp, rest.
    + injection H as <- <-. by destruct Hr.
  - split; [|done].
    case_bool_decide as Hinv.
    + destruct (Execute_submit _ _ _ _ _ _ _ _ _ _ _) as [[[s1 out] err]|] eqn:Hx; cbn [mbind option_bind] in H;
        [|done]. injection H as <- <-. right. split; [done|]. by exists out, err.
    + left. destruct (Execute_query _ _ _ _) as [[out|e]|]; cbn [mbind option_bind] in H; [| |done];
        by injection H as <- <-.
Qed.

End Admission.

(** ** Concrete instances: one invocation of [Org1MSP]'s orchestrator *)

Lemma concurrent_id p : concurrent p (λ s, s).
Proof. constructor; [done|]. intros s r Hr. exists r. split_and!; [done|apply record_le_refl|done]. Qed.

#[local] Existing Instances Instances.example_msp Instances.example_policy Collect.ex_remotes
  Proto.example_util Json.example_json.

#[local] Instance ex_proposals : ProposalLib := {|
  NewSignedProposal _ _ _ := Ok (mkSignedProposal "proposal" "sig");
  spec_with_IsInit b := Ok b;
  marshal_ProposalPayload cpp := Ok cpp.1;
  GetSignedProposal p := Ok (mkSignedProposal (pp_Payload p) "sig");
  ComputeTxID _ _ := "tx1";
  CreateChaincodeProposal _ _ _ _ _ _ _ _ _ _ := Ok (mkProposal "h" "proposal" "");
  marshal_Proposal p := Ok (pp_Payload p) |}.

#[local] Instance ex_policies : PolicyResolver.PolicyProto :=
  {| PolicyResolver.unmarshal_NamespacePolicy b := Ok (Policy.MspRule b) |}.

(** A helper whose identity is [peer] of [Org1MSP]. *)
Definition ex_helper : Helper.Service :=
  Helper.mkService "ch" {["*" := Helper.ex_executor]}
    (λ inv r, Ok (mkProposalResponse (Some (mkResponse 200 "" "done")) "native"
                    (Some (mkEndorsement "Org1MSP:peer" "peer"))))
    (Some (λ _, Ok "peer"))
    (λ r, mkResponse 200 "" "").

Definition ex_evidence : evidence_env :=
  mkEvidenceEnv Binding.ex_executor "t" (λ _, Err (ENew "no resolver")) None.

Definition ex_stage : stage_env :=
  mkStageEnv None None (Some ∅) (Some (Ok [PolicyResolver.mkItem "native" 1 "Org1MSP"]))
    (Some (mkCall ex_helper Exec.ex_env 50)) ex_evidence.

Definition ex_collect : collect_env := mkCollectEnv (Some ()) 50 (λ _ _, None).

Definition ex_config : config :=
  mkConfig (Auth.mkService "ch" "native" None None) "Org1MSP" true.

Definition ex_submission : submission_env :=
  mkSubmissionEnv 11 12 13 (λ s, s) (λ s, s) None None None
    (λ _, Submission.mkBroadcast None None None (Ok Submission.SUCCESS)) false None (λ _, None).

Definition ex_replay : replay_env := mkReplayEnv arm_done None None newIdempotencyStore.

Definition ex_req : InvocationRequest :=
  mkRequest None "" "" "" None ∅ [] "" "" "" "cc" "1.0" false "put" ["k"].

Definition ex_hash (_ : bytes) : string := "digest".

Lemma ex_first :
  first_invocation ex_hash ex_config 10 newIdempotencyStore ex_req ex_stage ex_collect
    ex_submission "digest" "digest" (begin 10 newIdempotencyStore "digest" "digest").1 1.
Proof.
  constructor.
  - exists ∅. apply initial_ok.
  - exists "native", ["put"; "k"]. split; vm_compute; reflexivity.
  - vm_compute. reflexivity.
  - eexists. vm_compute. reflexivity.
  - intros tx. by eexists.
  - apply concurrent_id.
  - apply concurrent_id.
Qed.

Definition ex_run : option (idempotencyStore * InvocationResponse * option goerr) :=
  Execute_submit ex_event Submission.ex_status_string ex_hash ex_config 10 newIdempotencyStore ex_req
    ex_stage ex_collect ex_submission ex_replay.

Lemma ex_run_state : (λ t, State <$> heap t.1.1 !! 1%positive) <$> ex_run = Some (Some idempotencySubmitted).
Proof. vm_compute. reflexivity. Qed.

Lemma Execute_completes_witness :
  ∃ s' out err r, ex_run = Some (s', out, err) ∧ heap s' !! 1%positive = Some r ∧ Key r = "digest".
Proof.
  destruct (Execute_completes ex_event Submission.ex_status_string ex_hash ex_config 10
    newIdempotencyStore ex_req ex_stage ex_collect ex_submission ex_replay "digest" "digest" _ 1 ex_first)
    as (s' & out & err & r & Hx & Hr & Hk & _).
  exists s', out, err, r. split; [exact Hx|]. split; [exact Hr|exact Hk].
Defined.

Lemma Execute_submits_endorsed_witness :
  ∃ req' ns args policy compiled result,
    endorsed_run "ch" "Org1MSP" "native" ex_stage ex_collect
      (Requests.with_identity "digest" "digest" ex_req) req' ns args policy compiled result.
Proof.
  pose proof ex_run_state as Hst.
  destruct ex_run as [[[s' out] err]|] eqn:E; [|discriminate Hst].
  cbn [option_fmap option_map fmap fst] in Hst.
  destruct (heap s' !! 1%positive) as [r|] eqn:Hr; [|discriminate Hst].
  edestruct (Execute_submits_endorsed ex_event Submission.ex_status_string ex_hash ex_config 10
    newIdempotencyStore ex_req ex_stage ex_collect ex_submission ex_replay "digest" "digest" _ 1
    s' out err r ex_first E Hr) as (req' & ns & args & policy & compiled & result & Hrun & _).
  - left. cbn in Hst. congruence.
  - exists req', ns, args, policy, compiled, result. exact Hrun.
Defined.

(** The same helper behind a client's signed proposal to endorse. *)
Definition ex_client_config : config := mkConfig Auth.ex_service "Org1MSP" true.

Definition ex_md : Requests.incoming :=
  λ key, if bool_decide (key = Requests.GRPCOperationMetadata) then ["endorse"] else [].

Definition ex_client_stage : stage_env :=
  mkStageEnv None None (Some ∅) (Some (Ok [PolicyResolver.mkItem "ns" 1 "Org1MSP"]))
    (Some (mkCall ex_helper Exec.ex_env 50)) ex_evidence.

Definition ex_signed : option SignedProposal := Some (mkSignedProposal "proposal" "alice").

Definition ex_processed
    : option (idempotencyStore * result (ProposalResponse * option LifecycleExecutionBinding)) :=
  ProcessProposal ex_event Submission.ex_status_string ex_hash ex_client_config (λ _, Ok "json")
    ex_md 50 newIdempotencyStore ex_signed ex_client_stage ex_collect None 10 ex_submission ex_replay.

Lemma ex_processed_ok : (λ t, is_ok t.2) <$> ex_processed = Some true.
Proof. vm_compute. reflexivity. Qed.

Lemma ProcessProposal_admits_witness :
  ∃ operation req inv id, proposal_admitted ex_client_config ex_md 50 ex_signed operation req inv id ∧
    (operation = Requests.GRPCOperationEndorse →
       ∃ result, EndorseOnly "ch" "Org1MSP" "default" ex_client_stage req = Some (Ok result)).
Proof.
  pose proof ex_processed_ok as Hok. destruct ex_processed as [[s' r]|] eqn:E; [|discriminate Hok].
  destruct (ProcessProposal_admits ex_client_config ex_event Submission.ex_status_string ex_hash
    (λ _, Ok "json") ex_md 50 newIdempotencyStore ex_signed ex_client_stage ex_collect None 10
    ex_submission ex_replay s' r E) as (operation & req & inv & id & _ & Had & _ & Hend).
  - left. cbn in Hok. congruence.
  - exists operation, req, inv, id. split; [exact Had|]. intros Ho.
    destruct (Hend Ho) as (result & Hx & _). exists result. exact Hx.
Defined.

End Service.
