(* ===== verification/Gateway.v ===== *)
(** The Gateway API of [orchestrator/service.go] and [execution.go]: [Evaluate] with its remote
    forwarding, [Endorse], [Submit] and [CommitStatus].

    They use the same stages and records as [Service.Execute]; [su_meanwhile] of the submission is
    what happens to the records before [begin], [su_later] before [complete].  Contexts, times and
    the answers of other orchestrators are arguments. *)
From Stdlib Require Import Ascii ZArith Lia.
From stdpp Require Import base option list strings gmap sets relations.
From S2P Require Import Prelude LifecycleStore OrchestratorTypes GoStrings Json Proto Msp Idempotency.
From S2P Require Import EndorsementPolicy PolicyResolver EndorsementSearch Collect Finality Submission.
From S2P Require Import Instances ExecContext Shim Helper Requests Auth Packager Config Network ChaincodeResolver.
From S2P Require Import Binding Invocation Service.
Import Types Proto Idempotency Invocation Service.
Local Open Scope Z_scope.

Module Gateway.

(** ** Messages *)

Record EndorseRequest := mkEndorseRequest {
  er_TransactionId : string;
  er_ChannelId : string;
  er_ProposedTransaction : option SignedProposal;
  er_EndorsingOrganizations : list string }.

Record EvaluateRequest := mkEvaluateRequest {
  vr_TransactionId : string;
  vr_ChannelId : string;
  vr_ProposedTransaction : option SignedProposal;
  vr_TargetOrganizations : list string }.

Record ErrorDetail := mkDetail { ed_MspId : string; ed_Address : string; ed_Message : goerr }.

(** The Gateway service of another orchestrator. *)
Class GatewayRemotes {R : Collect.RemoteOrchestrators} := {
  (** [contact.peer] is set. *)
  has_peer : Collect.contact → bool;
  (** The forwarded call; its answer may be nil. *)
  Evaluate_remote : Collect.contact → EvaluateRequest → result (option (option Response)) }.

Definition gatewayEvaluateLocalOnly : string := "x-compat-evaluate-local-only".

(** A nonempty MSP ID without surrounding space. *)
Definition plain_msp (target : string) : bool :=
  negb (bool_decide (target = "")) && bool_decide (GoStrings.TrimSpace target = target).

(** [if err := ctx.Err(); err != nil { return nil, status.FromContextError(err).Err() }]. *)
Definition entered (ctx : ctx_err) : result () :=
  match ctx with Some e => Err (status_FromContextError e) | None => Ok () end.

Section Handlers.
Context {L : Msp.MSPLib} {P : Policy.PolicyLib} {R : Collect.RemoteOrchestrators} {GR : GatewayRemotes}.
Context {PU : ProtoUtil} {PL : ProposalLib} {J : Json.JSONText} {PP : PolicyResolver.PolicyProto}.
Context {MP : MetadataProto} {PK : Packager.PackagerLib} {GP : Auth.GatewayProto}.

Variable eventOf : SdkEndorsement → string → option ChaincodeEvent.
Variable Status_String : Finality.CommitterStatus → string.
Variable sha256_hex : bytes → string.
Variable c : config.

(** ** Evaluate *)

(** The client's answer, the details of an unavailable status, and the contacts that were sent
    the proposal. *)
Record evaluation := mkEvaluation {
  ev_result : result (option Response);
  ev_details : list ErrorDetail;
  ev_asked : list Collect.contact }.

(** The forwarded request. *)
Definition forwarded (request : EvaluateRequest) (target : string) : EvaluateRequest :=
  mkEvaluateRequest (vr_TransactionId request) (vr_ChannelId request)
    (vr_ProposedTransaction request) [target].

(** Errors after which another contact may be tried. *)
Definition retryable (e : goerr) : bool :=
  match status_Code e with
  | CodeUnavailable | CodeDeadlineExceeded | CodeAborted | CodeUnimplemented => true
  | _ => false
  end.

Section Remote.
Variable request : EvaluateRequest.
(** [ctx.Err()] before and after the [n]-th call, by the number of contacts asked. *)
Variables before after : nat → ctx_err.

(** The loop over the contacts of a target: the answer, or the details and contacts so far. *)
Fixpoint ask_contacts (target : string) (contacts : list (option Collect.contact))
    (details : list ErrorDetail) (asked : list Collect.contact)
    : evaluation + (list ErrorDetail * list Collect.contact) :=
  match contacts with
  | [] => inr (details, asked)
  | contact :: rest =>
      match (x ← contact; if has_peer x then Some x else None) with
      | None => ask_contacts target rest details asked
      | Some contact =>
          match before (length asked) with
          | Some e => inl (mkEvaluation (Err (status_FromContextError e)) [] asked)
          | None =>
              let asked' := asked ++ [contact] in
              match Evaluate_remote contact (forwarded request target) with
              | Ok None =>
                  inl (mkEvaluation (Err (EStatus CodeInternal (ENew "remote evaluation returned no result"))) [] asked')
              | Ok (Some response) =>
                  inl (mkEvaluation (Requests.gatewayEvaluationResponse response) [] asked')
              | Err e =>
                  match after (length asked) with
                  | Some ce => inl (mkEvaluation (Err (status_FromContextError ce)) [] asked')
                  | None =>
                      if retryable e
                      then ask_contacts target rest
                             (details ++ [mkDetail target (Collect.Address contact) e]) asked'
                      else inl (mkEvaluation (Err e) [] asked')
                  end
              end
          end
      end
  end.

(** The loop over the target organizations. *)
Fixpoint ask_targets (resolve : string → result (option (list (option Collect.contact))))
    (targets : list string) (visited : gset string)
    (details : list ErrorDetail) (asked : list Collect.contact)
    : evaluation + (list ErrorDetail * list Collect.contact) :=
  match targets with
  | [] => inr (details, asked)
  | target :: rest =>
      if bool_decide (target ∈ visited) then ask_targets resolve rest visited details asked
      else
        let visited := {[target]} ∪ visited in
        match resolve target with
        | Err e => ask_targets resolve rest visited (details ++ [mkDetail target "" e]) asked
        | Ok None | Ok (Some []) =>
            ask_targets resolve rest visited
              (details ++ [mkDetail target "" (ENew "no Orchestrator endpoint found")]) asked
        | Ok (Some contacts) =>
            match ask_contacts target contacts details asked with
            | inl r => inl r
            | inr (details, asked) => ask_targets resolve rest visited details asked
            end
        end
  end.

(** [remotes] says whether a resolver is configured.  The request was selected by
    [gatewayInvocation], so its definition is set. *)
Definition evaluateRemote (remotes : bool) (last : ctx_err) (req : InvocationRequest)
    (def : Store.ChaincodeDefinition) : evaluation :=
  if negb remotes
  then mkEvaluation (Err (EStatus CodeUnavailable (ENew "no target Orchestrator is configured"))) [] []
  else
    match ask_targets (λ target, Collect.Resolve (Collect.mkResolveRequest (c_MSPID c) target
             (c_channel c) (Namespace req) (ChaincodeName req) (Store.Version def)
             (Store.Sequence def))) (vr_TargetOrganizations request) ∅ [] [] with
    | inl r => r
    | inr (details, asked) =>
        match last with
        | Some e => mkEvaluation (Err (status_FromContextError e)) [] asked
        | None =>
            mkEvaluation (Err (EStatus CodeUnavailable
              (ENew "no requested organization could evaluate the transaction"))) details asked
        end
    end.

End Remote.

(** Any value other than ["true"] is refused. *)
Fixpoint local_only (values : list string) : result bool :=
  match values with
  | [] => Ok false
  | value :: rest =>
      if negb (bool_decide (value = "true"))
      then Auth.invalid "invalid evaluation routing restriction"
      else local_only rest;; Ok true
  end.

(** What a Gateway call meets: the clock, [ctx.Err()] where it is consulted, the lifecycle store
    at the second check of the definition's state, the stages and the collection. *)
Record gateway_env := mkGatewayEnv {
  ge_now : Z;
  ge_entry : ctx_err;
  ge_select : ctx_err;
  ge_exec : ctx_err;
  ge_done : ctx_err;
  ge_init : option Store.Store;
  ge_stage : stage_env;
  ge_collect : collect_env }.

Record evaluate_env := mkEvaluateEnv {
  ee_md : Requests.incoming;
  ee_remotes : bool;
  ee_before : nat → ctx_err;
  ee_after : nat → ctx_err;
  ee_last : ctx_err }.

(** The selected request, and whether it must run here. *)
Definition admit_evaluation (e : gateway_env) (v : evaluate_env) (request : EvaluateRequest)
    : result (InvocationRequest * bool) :=
  entered (ge_entry e);;
  req ← Auth.gatewayInvocation (c_auth c) (ge_now e) (ge_select e) (vr_ChannelId request)
          (vr_TransactionId request) (vr_ProposedTransaction request);
  guard_err (IsInit req)
    (EStatus CodeInvalidArgument (ENew "initialization cannot be evaluated"));;
  Auth.status_err CodeFailedPrecondition
    (Requests.validateInitState (ge_init e) req Requests.GRPCOperationQuery);;
  localOnly ← local_only (ee_md v gatewayEvaluateLocalOnly);
  guard_err (negb (forallb plain_msp (vr_TargetOrganizations request)))
    (EStatus CodeInvalidArgument (ENew "target organization must be a nonempty MSP ID"));;
  Ok (req, localOnly).

Definition refused (e : goerr) : option evaluation := Some (mkEvaluation (Err e) [] []).

Definition Evaluate (e : gateway_env) (v : evaluate_env) (request : option EvaluateRequest)
    : option evaluation :=
  match request with
  | None => refused (EStatus CodeInvalidArgument (ENew "an evaluate request is required"))
  | Some request =>
      match admit_evaluation e v request with
      | Err er => refused er
      | Ok (req, localOnly) =>
          if bool_decide (vr_TargetOrganizations request = []) ||
             Requests.containsMSP (vr_TargetOrganizations request) (c_MSPID c)
          then
            match evaluate (c_channel c) (c_MSPID c) (c_namespace c) (ge_stage e) (ge_exec e) req with
            | None => None
            | Some (Err er) => refused (Requests.invocationRPCError (ge_done e) er)
            | Some (Ok result) =>
                Some (mkEvaluation (Requests.gatewayEvaluationResponse (res_Response result)) [] [])
            end
          else if localOnly
          then refused (EStatus CodeFailedPrecondition
                 (ENew "forwarded evaluation reached an Orchestrator outside the target organization"))
          else
            match definition req with
            | None => None
            | Some d => Some (evaluateRemote request (ee_before v) (ee_after v) (ee_remotes v)
                                (ee_last v) req (Store.com_Definition d))
            end
      end
  end.

(** ** Endorse *)

(** The requested organizations, each once. *)
Fixpoint requested_orgs (targets : list string) (seen : gset string) : result (list string) :=
  match targets with
  | [] => Ok []
  | target :: rest =>
      guard_err (negb (plain_msp target))
        (EStatus CodeInvalidArgument (ENew "endorsing organization must be a nonempty MSP ID"));;
      orgs ← requested_orgs rest ({[target]} ∪ seen);
      Ok (if bool_decide (target ∈ seen) then orgs else target :: orgs)
  end.

Definition admit_endorsement (e : gateway_env) (request : EndorseRequest) : result InvocationRequest :=
  entered (ge_entry e);;
  req ← Auth.gatewayInvocation (c_auth c) (ge_now e) (ge_select e) (er_ChannelId request)
          (er_TransactionId request) (er_ProposedTransaction request);
  orgs ← requested_orgs (er_EndorsingOrganizations request) ∅;
  Ok (Requests.with_orgs (EndorsingOrganizations req ++ orgs) req).

(** The payload of the prepared transaction for the client to sign. *)
Definition prepare (e : gateway_env) (request : EndorseRequest) (result : endorsedInvocation)
    : Prelude.result bytes :=
  match Requests.gatewayResponseError (res_Response (ei_Local result)) with
  | Some er => Err er
  | None =>
      proposal ← Auth.status_err CodeInvalidArgument
        (UnmarshalProposal (from_option ProposalBytes "" (er_ProposedTransaction request)));
      prepared ← match Packager.createGatewayTransaction (Some proposal)
                         (ChaincodeVersion (ei_Request result)) (ei_Endorsement result) with
                 | Err _ => Err (EStatus CodeInternal (ENew "prepare endorsed transaction: %v"))
                 | Ok prepared => Ok prepared
                 end;
      entered (ge_done e);;
      Ok prepared
  end.

Definition Endorse (e : gateway_env) (request : option EndorseRequest) : flow bytes :=
  match request with
  | None => Some (Err (EStatus CodeInvalidArgument (ENew "an endorse request is required")))
  | Some request =>
      match admit_endorsement e request with
      | Err er => Some (Err er)
      | Ok req =>
          '(result, err) ← endorse_invocation c (ge_stage e) (ge_collect e) req;
          Some (match err with
                | None => prepare e request result
                | Some er =>
                    Err (match ge_exec e, status_FromError er with
                         | Some ce, _ => status_FromContextError ce
                         | None, Some _ => er
                         | None, None => EStatus CodeAborted er
                         end)
                end)
      end
  end.

(** ** Submit *)

(** The loop of [validateSubmissionEndorsements]. *)
Fixpoint verify_each (now : Z) (compiled : Policy.namespaceEndorsementPolicy) (txID : string)
    (proposal : option Proposal) (responses : list (option ProposalResponse)) (seen : gset string)
    : flow () :=
  match responses with
  | [] => Some (Ok ())
  | response :: rest =>
      match (r ← response; e ← pr_Endorsement r; Some (r, e)) with
      | None => None
      | Some (r, e) =>
          match (identity ← Msp.unmarshal_Identity (Endorser e);
                 verified ← Policy.authenticate now compiled
                   (mkResult (mkSdkEndorsement proposal [response]) txID (pr_Response r) None)
                   (Msp.MspId identity) false;
                 guard_err (bool_decide (Policy.ve_key verified ∈ seen))
                   (ENew "a signing identity cannot be counted more than once");;
                 Ok (Policy.ve_key verified)) with
          | Err er => Some (Err er)
          | Ok key => verify_each now compiled txID proposal rest ({[key]} ∪ seen)
          end
      end
  end.

(** What [Submit] meets before the records. *)
Record submit_env := mkSubmitEnv {
  sb_now : Z;
  sb_entry : ctx_err;
  sb_select : ctx_err;
  sb_verify : ctx_err;
  sb_done : ctx_err;
  sb_stores : option Store.Store * option Store.Store;
  sb_policies : option (gmap string Policy.NamespacePolicySnapshot);
  sb_query : option (result (list PolicyResolver.PolicyItem));
  sb_verified_at : Z;
  (** A duplicate's wait, and the records when it reads the outcome. *)
  sb_arm : wait_arm;
  sb_outcomes : idempotencyStore * idempotencyStore }.

Definition validateSubmissionEndorsements (e : submit_env)
    (prepared : Packager.gatewayPreparedInvocation) : flow () :=
  let req := Packager.gp_Request prepared in
  let end_ := Packager.gp_Endorsement prepared in
  match (policy ← (PolicyResolver.resolveNamespacePolicy (sb_policies e) (sb_query e) (Namespace req)).2;
         Policy.newNamespaceEndorsementPolicy policy (trusted c)) with
  | Err er => Some (Err er)
  | Ok compiled =>
      flow_bind (verify_each (sb_verified_at e) compiled (ClientTxID req) (end_Proposal end_)
                   (end_Responses end_) ∅)
        (λ _, Some (Policy.verifySelection compiled end_ (ClientTxID req)))
  end.

(** The parsed transaction of an authenticated and authorized client. *)
Definition admit_submission (e : submit_env) (request : option Auth.SubmitRequest)
    : result (Auth.Envelope * Packager.gatewayPreparedInvocation) :=
  entered (sb_entry e);;
  identity ← Auth.authenticateGatewayTransaction (c_auth c) (sb_now e) request;
  match request ≫= Auth.sr_PreparedTransaction with
  | None => Auth.invalid "a prepared transaction is required"
  | Some envelope =>
      prepared ← Auth.status_err CodeInvalidArgument (Packager.parseGatewayTransaction (Some envelope));
      Auth.status_err CodePermissionDenied
        (Auth.authorize (Auth.s_proposalAuth (c_auth c)) (Some identity)
           (ChaincodeName (Packager.gp_Request prepared)) (Namespace (Packager.gp_Request prepared)));;
      Ok (envelope, prepared)
  end.

(** The definition to initialize, when the endorsed revision is active and may run. *)
Definition check_revision (e : submit_env) (prepared : Packager.gatewayPreparedInvocation)
    : result (option Store.ChaincodeDefinition) :=
  req ← match Requests.selectLifecycleDefinition (sb_stores e).1 (Packager.gp_Request prepared) with
        | Err er => Err (Requests.invocationRPCError (sb_select e) er)
        | Ok req => Ok req
        end;
  match definition req with
  | None => Err (EStatus CodeNotFound (ENew "submitted chaincode has no committed definition"))
  | Some d =>
      let def := Store.com_Definition d in
      let binding := Packager.gp_Binding prepared in
      guard_err (negb (bool_decide (Store.Version def = Packager.gb_ChaincodeVersion binding)) ||
                 negb (Store.Sequence def =? Packager.gb_Sequence binding))
        (EStatus CodeFailedPrecondition
           (ENew "endorsed lifecycle revision is no longer active; obtain a fresh endorsement"));;
      Auth.status_err CodeFailedPrecondition
        (Requests.validateInitState (sb_stores e).2 req Requests.GRPCOperationEndorse)
  end.

(** The answer to a transaction that is already recorded. *)
Definition answer_duplicate (e : submit_env) (s : idempotencyStore) (p : positive) : flow () :=
  match Submission.replayOrderingSubmission s (sb_outcomes e).1 (sb_outcomes e).2 p (sb_arm e) with
  | None => None
  | Some None => Some (Ok ())
  | Some (Some er) => Some (Err (Submission.submissionRPCError (sb_done e) er))
  end.

(** From the record on; the named result that [complete] reads is the status error. *)
Definition submit_first (e : submit_env) (x : submission_env) (s : idempotencyStore) (p : positive)
    (prepared : Packager.gatewayPreparedInvocation) (init : option Store.ChaincodeDefinition)
    : option (idempotencyStore * result ()) :=
  let txID := ClientTxID (Packager.gp_Request prepared) in
  let end_ := Packager.gp_Endorsement prepared in
  response ← head (end_Responses end_); response ← response; response ← pr_Response response;
  let out := with_IdempotencyKey txID (Requests.responseFromPeer txID response) in
  let s := markExecuted (su_executed x) s (Some p) txID in
  '(s, out, err, _) ← Submission.submitTransaction eventOf (su_submit x) (su_ctx x) (c_submitter c)
                        (su_broadcast x end_) s end_ out (Some p) init;
  let err := Submission.submissionRPCError (sb_done e) <$> err in
  s ← complete (su_complete x) (su_later x s) (Some p) out err;
  Some (s, match err with Some er => Err er | None => Ok () end).

Definition Submit (begun : Z) (e : submit_env) (x : submission_env) (s : idempotencyStore)
    (request : option Auth.SubmitRequest) : option (idempotencyStore * result ()) :=
  match admit_submission e request with
  | Err er => Some (s, Err er)
  | Ok (envelope, prepared) =>
      let txID := ClientTxID (Packager.gp_Request prepared) in
      let digest := "gateway-submit:" +:+ sha256_hex (Auth.env_Payload envelope) in
      match existing s txID digest with
      | Err er => Some (s, Err (EStatus CodeAlreadyExists er))
      | Ok (Some p) => r ← answer_duplicate e s p; Some (s, r)
      | Ok None =>
          match check_revision e prepared with
          | Err er => Some (s, Err er)
          | Ok init =>
              v ← validateSubmissionEndorsements e prepared;
              match v with
              | Err er =>
                  Some (s, Err (match sb_verify e with
                                | Some ce => status_FromContextError ce
                                | None => EStatus CodeFailedPrecondition
                                            (ENew "invalid native endorsements: %v")
                                end))
              | Ok _ =>
                  match begin begun (su_meanwhile x s) txID digest with
                  | (s, Err er) => Some (s, Err (EStatus CodeAlreadyExists er))
                  | (s, Ok (p, false)) => r ← answer_duplicate e s p; Some (s, r)
                  | (s, Ok (p, true)) => submit_first e x s p prepared init
                  end
              end
          end
      end
  end.

(** ** CommitStatus *)

Record CommitStatusResponse := mkCommitStatus {
  cr_Result : Finality.TxValidationCode;
  cr_BlockNumber : Z }.

(** [first] and [its] are what [waitForTransactionStatus] meets; [ctx] is [ctx.Err()] after it. *)
Definition CommitStatus (now : Z) (entry ctx : ctx_err) (configured : bool)
    (first : result (list Finality.TxStatus)) (its : list Finality.iteration) (refreshed : Z)
    (order : list string) (after_commit : Store.ChaincodeDefinition → option goerr)
    (s : idempotencyStore) (signed : option Auth.SignedRequest)
    : option (idempotencyStore * result CommitStatusResponse) :=
  match (entered entry;; Auth.authenticateGatewayCommitStatus (c_auth c) now signed) with
  | Err er => Some (s, Err er)
  | Ok request =>
      r ← Finality.waitForTransactionStatus configured first its (Auth.cs_TransactionId request);
      match ctx, r with
      | Some ce, _ => Some (s, Err (status_FromContextError ce))
      | None, Err er => Some (s, Err (EStatus CodeUnavailable er))
      | None, Ok st =>
          s ← Submission.refreshObservedFinality Status_String refreshed s order st after_commit;
          Some (s, Ok (mkCommitStatus (Finality.gatewayValidationCode (Finality.st_Status st))
                         (Finality.ref_BlockNum st)))
      end
  end.

End Handlers.

(** ** Lemmas *)

Section Lemmas.
Context {L : Msp.MSPLib} {P : Policy.PolicyLib} {R : Collect.RemoteOrchestrators} {GR : GatewayRemotes}.
Context {PU : ProtoUtil} {PL : ProposalLib} {J : Json.JSONText} {PP : PolicyResolver.PolicyProto}.
Context {MP : MetadataProto} {PK : Packager.PackagerLib} {GP : Auth.GatewayProto}.
Variable eventOf : SdkEndorsement → string → option ChaincodeEvent.
Variable Status_String : Finality.CommitterStatus → string.
Variable sha256_hex : bytes → string.
Variable c : config.

(** A response that was verified on its own. *)
Definition verified_response (now : Z) (compiled : Policy.namespaceEndorsementPolicy) (txID : string)
    (proposal : option Proposal) (response : option ProposalResponse)
    (v : Policy.verifiedEndorsement) : Prop :=
  ∃ r e identity, response = Some r ∧ pr_Endorsement r = Some e ∧
    Msp.unmarshal_Identity (Endorser e) = Ok identity ∧
    Policy.authenticate now compiled
      (mkResult (mkSdkEndorsement proposal [response]) txID (pr_Response r) None)
      (Msp.MspId identity) false = Ok v.

Lemma verify_each_ok now compiled txID proposal responses seen :
  verify_each now compiled txID proposal responses seen = Some (Ok ()) →
  ∃ vs, Forall2 (verified_response now compiled txID proposal) responses vs ∧
    NoDup (Policy.ve_key <$> vs) ∧ ∀ v, v ∈ vs → Policy.ve_key v ∉ seen.
Proof.
  revert seen. induction responses as [|response rest IH]; intros seen; cbn [verify_each].
  { intros _. exists []. split_and!; [constructor|constructor|set_solver]. }
  destruct response as [r|]; cbn [mbind option_bind]; [|done].
  destruct (pr_Endorsement r) as [e|] eqn:He; cbn [mbind option_bind]; [|done].
  destruct (Msp.unmarshal_Identity (Endorser e)) as [identity|er] eqn:Hid; cbn [mbind result_mbind]; [|done].
  destruct (Policy.authenticate _ _ _ _ _) as [v|er] eqn:Hv; cbn [mbind result_mbind]; [|done].
  case_bool_decide as Hs; cbn [guard_err mbind result_mbind]; [done|]. intros H.
  destruct (IH _ H) as (vs & Hvs & Hnd & Hseen). exists (v :: vs). split_and!.
  - constructor; [|done]. by exists r, e, identity.
  - cbn. constructor; [|done]. intros (v' & Ek & Hv')%list_elem_of_fmap.
    apply (Hseen v' Hv'). rewrite <- Ek. set_solver.
  - intros v' [->|Hv']%elem_of_cons; [done|]. specialize (Hseen v' Hv'). set_solver.
Qed.

(** The client of an accepted envelope. *)
Definition submitter_authentic (now : Z) (envelope : Auth.Envelope) (chaincode namespace : string) : Prop :=
  ∃ v t id creator, Auth.s_proposalAuth (c_auth c) = Some v ∧ Auth.trust v = Some t ∧
    (∃ header data, UnmarshalPayload (Auth.env_Payload envelope) = Ok (Some header, data) ∧
       UnmarshalSignatureHeader (SignatureHeader header) = Ok creator ∧
       ∃ channel, UnmarshalChannelHeader (ChannelHeader header) = Ok channel ∧
         ChannelId channel = c_channel c) ∧
    Msp.authentic t creator (Auth.env_Payload envelope) (Auth.env_Signature envelope) now id ∧
    Exists (λ rule, Auth.rule_selects rule chaincode namespace = true ∧
      Msp.EvaluateIdentities (Auth.p_policy rule) [id] = None) (Auth.rules v).

Lemma admit_submission_ok e request envelope prepared :
  admit_submission c e request = Ok (envelope, prepared) →
  request ≫= Auth.sr_PreparedTransaction = Some envelope ∧ sb_entry e = None ∧
  Packager.parseGatewayTransaction (Some envelope) = Ok prepared ∧
  submitter_authentic (sb_now e) envelope (ChaincodeName (Packager.gp_Request prepared))
    (Namespace (Packager.gp_Request prepared)).
Proof.
  unfold admit_submission. intros H. apply bind_ok in H as ([] & Hentry & H).
  apply bind_ok in H as (id & Hid & H).
  destruct request as [request|]; [|done]. cbn [mbind option_bind] in *.
  destruct (Auth.sr_PreparedTransaction request) as [env|] eqn:Henv; [|done].
  apply bind_ok in H as (prep & Hprep & H). apply Auth.status_err_ok in Hprep.
  apply bind_ok in H as ([] & Hau & H). apply Auth.status_err_ok in Hau.
  injection H as -> ->. split_and!; [done|by destruct (sb_entry e)|done|].
  unfold Auth.authenticateGatewayTransaction in Hid. rewrite Henv in Hid.
  destruct (bool_decide _); [done|]. destruct (bool_decide _); [done|].
  destruct (UnmarshalPayload _) as [[[header|] data]|] eqn:Hp; [|done..].
  destruct (UnmarshalChannelHeader _) as [channel|] eqn:Hch; [|done].
  destruct (_ || _) eqn:Hm; [done|]. bool_props.
  destruct (UnmarshalSignatureHeader _) as [creator|] eqn:Hs; [|done].
  destruct (Auth.s_proposalAuth (c_auth c)) as [v|] eqn:Hv; [|done].
  apply Auth.status_err_ok in Hid. unfold submitter_authentic. rewrite Hv.
  destruct (Auth.trust v) as [t|] eqn:Ht.
  - exists v, t, id, creator. split_and!; [done|done| |by apply Msp.Authenticate_ok|].
    + exists header, data. split_and!; [done|done|]. by exists channel.
    + by apply Auth.authorize_rules_ok.
  - unfold Msp.Authenticate in Hid. inv_ok.
Qed.

Lemma parsed_definition envelope g :
  Packager.parseGatewayTransaction (Some envelope) = Ok g → definition (Packager.gp_Request g) = None.
Proof.
  intros (header & data & channel & signature & action & pp & rp & input & id & ci & response & results
    & es & record & p & resps & Hp)%Packager.parseGatewayTransaction_ok.
  pose proof (Packager.pa_request _ _ _ _ _ _ _ _ _ _ _ _ _ _ _ _ _ _ Hp) as H.
  unfold Packager.prepared_request in H. apply bind_ok in H as (req & Hreq & H).
  apply bind_ok in H as (route & _ & H). injection H as <-. cbn.
  unfold Requests.requestFromProposal in Hreq. cbn [inv_Args inv_Proposal] in Hreq.
  destruct (in_Args ci) as [|f rest]; [done|]. case_bool_decide; [done|].
  destruct (UnmarshalChaincodeProposalPayload _) as [cpp|]; [|done].
  apply bind_ok in Hreq as (ii & _ & Hreq). by injection Hreq as <-.
Qed.

(** The endorsed revision is the active one. *)
Definition revision_active (store : option Store.Store) (g : Packager.gatewayPreparedInvocation) : Prop :=
  ∃ s d, store = Some s ∧
    Store.GetCommitted s (ChaincodeName (Packager.gp_Request g)) = Ok (Some d) ∧
    Store.Version (Store.com_Definition d) = Packager.gb_ChaincodeVersion (Packager.gp_Binding g) ∧
    Store.Sequence (Store.com_Definition d) = Packager.gb_Sequence (Packager.gp_Binding g).

Lemma check_revision_ok e g init :
  definition (Packager.gp_Request g) = None → check_revision e g = Ok init →
  revision_active (sb_stores e).1 g.
Proof.
  unfold check_revision. intros Hnone H. apply bind_ok in H as (req & Hreq & H).
  destruct (Requests.selectLifecycleDefinition _ _) as [req'|] eqn:Hsel; [|done].
  injection Hreq as ->. destruct (definition req) as [d|] eqn:Hd; [|done].
  apply bind_ok in H as ([] & Hg & _). apply guard_err_ok in Hg. bool_props.
  unfold Requests.selectLifecycleDefinition in Hsel.
  destruct (sb_stores e).1 as [s|] eqn:Hs; [|injection Hsel as <-; congruence].
  case_bool_decide; [injection Hsel as <-; congruence|].
  destruct (Store.GetCommitted s _) as [[d'|]|] eqn:Hc; [|injection Hsel as <-; congruence|done].
  injection Hsel as <-. cbn in Hd. injection Hd as ->. by exists s, d.
Qed.

Lemma validateSubmissionEndorsements_ok e prepared :
  validateSubmissionEndorsements c e prepared = Some (Ok ()) →
  ∃ policy compiled vs,
    (PolicyResolver.resolveNamespacePolicy (sb_policies e) (sb_query e)
       (Namespace (Packager.gp_Request prepared))).2 = Ok policy ∧
    Policy.newNamespaceEndorsementPolicy policy (trusted c) = Ok compiled ∧
    Forall2 (verified_response (sb_verified_at e) compiled (ClientTxID (Packager.gp_Request prepared))
      (end_Proposal (Packager.gp_Endorsement prepared)))
      (end_Responses (Packager.gp_Endorsement prepared)) vs ∧
    NoDup (Policy.ve_key <$> vs) ∧
    Policy.verifySelection compiled (Packager.gp_Endorsement prepared)
      (ClientTxID (Packager.gp_Request prepared)) = Ok ().
Proof.
  unfold validateSubmissionEndorsements. intros H.
  destruct (PolicyResolver.resolveNamespacePolicy _ _ _).2 as [policy|er] eqn:Hp;
    cbn [mbind result_mbind] in H; [|done].
  destruct (Policy.newNamespaceEndorsementPolicy _ _) as [compiled|er] eqn:Hc; [|done].
  apply flow_bind_ok in H as ([] & Hv & H). injection H as H.
  destruct (verify_each_ok _ _ _ _ _ _ Hv) as (vs & ? & ? & _).
  by exists policy, compiled, vs.
Qed.

(** What a first submission passed before it was recorded. *)
Definition submission_verified (e : submit_env) (g : Packager.gatewayPreparedInvocation) : Prop :=
  revision_active (sb_stores e).1 g ∧
  ∃ policy compiled vs,
    (PolicyResolver.resolveNamespacePolicy (sb_policies e) (sb_query e)
       (Namespace (Packager.gp_Request g))).2 = Ok policy ∧
    Policy.newNamespaceEndorsementPolicy policy (trusted c) = Ok compiled ∧
    Forall2 (verified_response (sb_verified_at e) compiled (ClientTxID (Packager.gp_Request g))
      (end_Proposal (Packager.gp_Endorsement g))) (end_Responses (Packager.gp_Endorsement g)) vs ∧
    NoDup (Policy.ve_key <$> vs) ∧
    Policy.verifySelection compiled (Packager.gp_Endorsement g)
      (ClientTxID (Packager.gp_Request g)) = Ok ().

Lemma submit_first_ok e x s p g init s' :
  submit_first eventOf c e x s p g init = Some (s', Ok ()) →
  c_submitter c = true ∧ Submission.Submit (su_broadcast x (Packager.gp_Endorsement g)) = None.
Proof.
  unfold submit_first. intros H.
  destruct (head _) as [response|]; cbn [mbind option_bind] in H; [|done].
  destruct response as [response|]; cbn [mbind option_bind] in H; [|done].
  destruct (pr_Response response) as [response'|]; cbn [mbind option_bind] in H; [|done].
  unfold Submission.submitTransaction in H. rewrite bool_decide_eq_false_2 in H by done. cbn [orb] in H.
  assert (Hfail : ∀ (s0 : idempotencyStore) (o : InvocationResponse) er,
    (s1 ← complete (su_complete x) (su_later x s0) (Some p) o (Submission.submissionRPCError (sb_done e) <$> Some er);
     Some (s1, match Submission.submissionRPCError (sb_done e) <$> Some er with Some er => Err er | None => Ok () end))
      ≠ Some (s', Ok ())).
  { intros s0 o er Hc. cbn [fmap option_fmap option_map] in Hc. destruct (complete _ _ _ _ _); done. }
  destruct (c_submitter c); cbn [negb] in H; [|by apply Hfail in H].
  destruct (su_ctx x); [by apply Hfail in H|].
  destruct (Submission.Submit _) as [er|]; [|done].
  destruct (Submission.uncertain er).
  - destruct (markSubmission _ _ _ _ _ _ _ _); cbn [mbind option_bind] in H; [|done]. by apply Hfail in H.
  - by apply Hfail in H.
Qed.

(** A duplicate is acknowledged only when its transaction was. *)
Lemma answer_duplicate_ok e s p :
  answer_duplicate e s p = Some (Ok ()) → submissionOutcome (sb_outcomes e).2 p = Some (true, None).
Proof.
  unfold answer_duplicate. destruct (Submission.replayOrderingSubmission _ _ _ _ _) as [[er|]|] eqn:H; [done| |done].
  intros _. unfold Submission.replayOrderingSubmission in H.
  assert (Submission.final_outcome (sb_outcomes e).2 p = Some None) as Hf.
  { destruct (wait _ _ _) as [[o er]|]; cbn [mbind option_bind] in H; [|done].
    destruct (submissionOutcome (sb_outcomes e).1 p) as [[b er']|]; cbn [mbind option_bind] in H; [|done].
    destruct er; [|done]. by destruct b. }
  unfold Submission.final_outcome in Hf.
  destruct (submissionOutcome (sb_outcomes e).2 p) as [[[] [er|]]|]; done.
Qed.

(** The digest of a submission's record, from the signed bytes. *)
Definition submission_digest (envelope : Auth.Envelope) : string :=
  "gateway-submit:" +:+ sha256_hex (Auth.env_Payload envelope).

(** The record [p] is the one [s] holds for this transaction, with this digest. *)
Definition recorded (s : idempotencyStore) (txID digest : string) (p : positive) : Prop :=
  ∃ r, records s !! txID = Some p ∧ heap s !! p = Some r ∧ Digest r = digest.

Lemma existing_recorded s txID digest p :
  existing s txID digest = Ok (Some p) → recorded s txID digest p.
Proof.
  unfold existing. intros Hex. destruct (records s !! txID) as [q|] eqn:Hq; [|done].
  destruct (heap s !! q) as [r|] eqn:Hr; [|done]. case_bool_decide as Hd; [|done].
  injection Hex as ->. by exists r.
Qed.

Lemma begin_recorded now s txID digest s' p :
  begin now s txID digest = (s', Ok (p, false)) → s' = s ∧ recorded s txID digest p.
Proof.
  unfold begin. intros Hb. destruct (_ || _); [done|].
  destruct (records s !! txID ≫= _) as [[q r]|] eqn:Hq; [|done].
  case_bool_decide as Hd; [|done]. injection Hb as <- ->. split; [done|].
  destruct (records s !! txID) as [q'|] eqn:Hk; [|done]. cbn in Hq.
  destruct (heap s !! q') as [r'|] eqn:Hr; [|done]. cbn in Hq. injection Hq as -> ->. by exists r.
Qed.

(** How a submission that was not refused went on: its transaction was on record when the request
    arrived, or after it was verified, or it is verified, newly recorded and sent. *)
Lemma Submit_flow begun e x s request s' res :
  Submit eventOf sha256_hex c begun e x s request = Some (s', res) →
  (s' = s ∧ res ≠ Ok ()) ∨
  ∃ envelope g, request ≫= Auth.sr_PreparedTransaction = Some envelope ∧
    Packager.parseGatewayTransaction (Some envelope) = Ok g ∧
    submitter_authentic (sb_now e) envelope (ChaincodeName (Packager.gp_Request g))
      (Namespace (Packager.gp_Request g)) ∧
    let txID := ClientTxID (Packager.gp_Request g) in
    let digest := submission_digest envelope in
    (∃ p, s' = s ∧ recorded s txID digest p ∧ answer_duplicate e s p = Some res) ∨
    (submission_verified e g ∧
     ((s' = su_meanwhile x s ∧ res ≠ Ok ()) ∨
      (∃ p, s' = su_meanwhile x s ∧ recorded s' txID digest p ∧ answer_duplicate e s' p = Some res) ∨
      (∃ s1 p init, begin begun (su_meanwhile x s) txID digest = (s1, Ok (p, true)) ∧
         submit_first eventOf c e x s1 p g init = Some (s', res)))).
Proof.
  unfold Submit. intros H.
  destruct (admit_submission c e request) as [[envelope g]|er] eqn:Had; [|left; by simplify_eq].
  apply admit_submission_ok in Had as (Henv & _ & Hparse & Hau). cbn zeta in H.
  fold (submission_digest envelope) in H.
  destruct (existing s (ClientTxID (Packager.gp_Request g)) (submission_digest envelope))
    as [[p|]|er] eqn:Hex; [| |left; by simplify_eq].
  { right. exists envelope, g. split_and!; [done..|]. left. exists p.
    destruct (answer_duplicate e s p) as [a|]; [|done]. cbn in H. simplify_eq.
    split_and!; [done|by apply existing_recorded|done]. }
  destruct (check_revision e g) as [init|er] eqn:Hrev; [|left; by simplify_eq].
  apply check_revision_ok in Hrev; [|by eapply parsed_definition].
  destruct (validateSubmissionEndorsements c e g) as [[[]|er]|] eqn:Hval; cbn [mbind option_bind] in H;
    [|left; by simplify_eq|done].
  apply validateSubmissionEndorsements_ok in Hval.
  right. exists envelope, g. split_and!; [done..|]. right. split; [done|].
  destruct (begin begun (su_meanwhile x s) _ _) as [s1 [[p []]|er]] eqn:Hb.
  - right; right. by exists s1, p, init.
  - right; left. destruct (answer_duplicate e s1 p) as [a|] eqn:Ha; [|done]. cbn in H. simplify_eq.
    apply begin_recorded in Hb as [-> Hp]. by exists p.
  - left. simplify_eq. split; [|done]. revert Hb. unfold begin.
    destruct (_ || _); [by intros [= <- _]|]. destruct (records _ !! _ ≫= _) as [[q r]|]; [|done].
    by intros [= <- _].
Qed.


(** ** What the records stand for *)

Section Records.

(** The submissions of a run, with what each of them met. *)
Variable calls : list (submit_env * submission_env * option Auth.SubmitRequest).

(** One of them was verified and handed to ordering with this digest. *)
Definition verified_call (digest : string) : Prop :=
  ∃ e x request envelope g, (e, x, request) ∈ calls ∧
    request ≫= Auth.sr_PreparedTransaction = Some envelope ∧
    Packager.parseGatewayTransaction (Some envelope) = Ok g ∧
    submitter_authentic (sb_now e) envelope (ChaincodeName (Packager.gp_Request g))
      (Namespace (Packager.gp_Request g)) ∧
    submission_verified e g ∧ delivered (su_broadcast x (Packager.gp_Endorsement g)) ∧
    digest = submission_digest envelope.

(** Every Gateway record that shows a submission stands for such a call. *)
Definition accounted (s : idempotencyStore) : Prop :=
  ∀ p r, heap s !! p = Some r → Submitted (rec_Response r) = true →
    String.prefix "gateway-submit:" (Digest r) = true → verified_call (Digest r).

(** Records keep their digests. *)
Definition digests_kept (s s' : idempotencyStore) : Prop :=
  ∀ p r, heap s !! p = Some r → ∃ r', heap s' !! p = Some r' ∧ Digest r' = Digest r.

(** The pointer of the next record is not in use. *)
Definition system_fresh (s : idempotencyStore) : Prop := heap s !! next_ptr s = None.

(** What the rest of the system may do to the records. *)
Definition others (f : idempotencyStore → idempotencyStore) : Prop :=
  ∀ s, digests_kept s (f s) ∧ (accounted s → accounted (f s)).

Lemma digests_kept_update s p r r' :
  heap s !! p = Some r → Digest r' = Digest r → digests_kept s (with_record p r' s).
Proof.
  intros Hp Hd q r0 Hq. simpl. destruct (decide (q = p)) as [->|].
  - rewrite lookup_insert_eq. exists r'. split; [done|]. congruence.
  - rewrite lookup_insert_ne by done. by exists r0.
Qed.

Lemma digests_kept_refl s : digests_kept s s.
Proof. intros p r H. by exists r. Qed.

Lemma digests_kept_trans s1 s2 s3 : digests_kept s1 s2 → digests_kept s2 s3 → digests_kept s1 s3.
Proof.
  intros H12 H23 p r Hr. destruct (H12 _ _ Hr) as (r2 & Hr2 & Hd).
  destruct (H23 _ _ Hr2) as (r3 & Hr3 & Hd3). exists r3. split; [done|]. congruence.
Qed.

(** A record may come to show a submission only when it stands for one. *)
Lemma accounted_update s p r r' :
  accounted s → heap s !! p = Some r → Digest r' = Digest r →
  (Submitted (rec_Response r') = true → Submitted (rec_Response r) = true ∨ verified_call (Digest r)) →
  accounted (with_record p r' s).
Proof.
  intros Hs Hp Hd Hsub q r0. simpl. destruct (decide (q = p)) as [->|].
  - rewrite lookup_insert_eq. intros [= <-] [Hr|Hv]%Hsub; rewrite Hd; [|done]. by apply (Hs p r).
  - rewrite lookup_insert_ne by done. by apply Hs.
Qed.

Lemma accounted_begin now s k d s' p :
  begin now s k d = (s', Ok (p, true)) → system_fresh s → accounted s →
  accounted s' ∧ digests_kept s s' ∧ ∃ r, heap s' !! p = Some r ∧ Digest r = d.
Proof.
  intros (_ & _ & -> & _ & ->)%begin_new Hf Hs. split_and!; simpl.
  - intros q r. simpl. destruct (decide (q = next_ptr s)) as [->|].
    + rewrite lookup_insert_eq. by intros [= <-].
    + rewrite lookup_insert_ne by done. by apply Hs.
  - intros q r Hq. simpl. rewrite lookup_insert_ne; [by exists r|]. intros <-. by rewrite Hf in Hq.
  - eexists. by rewrite lookup_insert_eq.
Qed.

Lemma markSubmission_accounted now s p r out end_ after err s' :
  accounted s → heap s !! p = Some r → verified_call (Digest r) →
  markSubmission eventOf now s (Some p) out end_ after err = Some s' →
  accounted s' ∧ digests_kept s s'.
Proof.
  intros Hs Hr Hv. unfold markSubmission. rewrite Hr. destruct (submitted_or_terminal r).
  { intros [= <-]. split; [done|apply digests_kept_refl]. }
  destruct (close _); cbn [mbind option_bind]; [|done]. intros [= <-]. split.
  - eapply accounted_update; [done..|]. by right.
  - by eapply digests_kept_update.
Qed.

Lemma complete_accounted now s p r out err s' :
  accounted s → heap s !! p = Some r →
  (Submitted out = true → verified_call (Digest r)) →
  complete now s (Some p) out err = Some s' → accounted s' ∧ digests_kept s s'.
Proof.
  intros Hs Hr Hv. rewrite (complete_spec now s p r) by done.
  destruct (submitted_or_terminal r).
  { intros [= <-]. split; [done|apply digests_kept_refl]. }
  destruct (Idempotency.done r); [done|]. intros [= <-].
  set (r' := mkRecord _ _ _ _ _ _ _ _ _ _ _ _ _).
  split; intros q r0; rewrite heap_remove.
  - apply (accounted_update s p r r'); [done..|]. intros Ho. right. by apply Hv.
  - by apply (digests_kept_update s p r r').
Qed.

(** The ordering stage hands over only what it was asked to submit. *)
Lemma submit_first_accounted e x s p r g init s' res :
  accounted s → heap s !! p = Some r → others (su_later x) →
  (delivered (su_broadcast x (Packager.gp_Endorsement g)) → verified_call (Digest r)) →
  submit_first eventOf c e x s p g init = Some (s', res) → accounted s' ∧ digests_kept s s'.
Proof.
  intros Hs Hr Hlater Hv. unfold submit_first.
  destruct (head _) as [response|]; cbn [mbind option_bind]; [|done].
  destruct response as [response|]; cbn [mbind option_bind]; [|done].
  destruct (pr_Response response) as [response'|]; cbn [mbind option_bind]; [|done].
  set (out := with_IdempotencyKey _ _). set (txID := ClientTxID _).
  assert (∃ r1, heap (markExecuted (su_executed x) s (Some p) txID) !! p = Some r1 ∧ Digest r1 = Digest r ∧
    accounted (markExecuted (su_executed x) s (Some p) txID) ∧
    digests_kept s (markExecuted (su_executed x) s (Some p) txID)) as (r1 & Hr1 & Hd1 & Hs1 & Hk1).
  { unfold markExecuted. rewrite Hr. eexists. simpl. rewrite lookup_insert_eq. split_and!; [done|done| |].
    - eapply accounted_update; [done..|]. cbn. by left.
    - by eapply digests_kept_update. }
  set (s1 := markExecuted _ _ _ _) in *.
  destruct (Submission.submitTransaction _ _ _ _ _ _ _ _ _ _) as [[[[s2 out2] err] called]|] eqn:Hsub;
    cbn [mbind option_bind]; [|done].
  assert (accounted s2 ∧ digests_kept s1 s2 ∧ (Submitted out2 = true → verified_call (Digest r)))
    as (Hs2 & Hk2 & Hout).
  { revert Hsub. unfold Submission.submitTransaction. rewrite bool_decide_eq_false_2 by done. cbn [orb].
    assert (Hsame : s1 = s2 → out = out2 →
      accounted s2 ∧ digests_kept s1 s2 ∧ (Submitted out2 = true → verified_call (Digest r))).
    { intros <- <-. split_and!; [done|apply digests_kept_refl|done]. }
    destruct (c_submitter c); cbn [negb]; [|intros [= Es Eo _ _]; by apply Hsame].
    destruct (su_ctx x); [intros [= Es Eo _ _]; by apply Hsame|].
    unfold delivered in Hv. unfold markSubmitted. destruct (Submission.Submit _) as [er|].
    - destruct (Submission.uncertain er) eqn:Eu; [|intros [= Es Eo _ _]; by apply Hsame].
      destruct (markSubmission _ _ _ _ _ _ _ _) as [s3|] eqn:Hm; cbn [mbind option_bind]; [|done].
      intros [= <- <- _ _]. rewrite <- Hd1 in Hv |- *.
      destruct (markSubmission_accounted _ _ _ _ _ _ _ _ _ Hs1 Hr1 (Hv eq_refl) Hm). by split_and!; auto.
    - destruct (markSubmission _ _ _ _ _ _ _ _) as [s3|] eqn:Hm; cbn [mbind option_bind]; [|done].
      intros [= <- <- _ _]. rewrite <- Hd1 in Hv |- *.
      destruct (markSubmission_accounted _ _ _ _ _ _ _ _ _ Hs1 Hr1 (Hv I) Hm). by split_and!; auto. }
  destruct (Hlater s2) as [Hk3 Ha3]. specialize (Ha3 Hs2).
  destruct (Hk2 p r1 Hr1) as (r2 & Hr2 & Hd2). destruct (Hk3 p r2 Hr2) as (r3 & Hr3 & Hd3).
  destruct (complete _ _ _ _ _) as [s4|] eqn:Hc; cbn [mbind option_bind]; [|done].
  intros [= <- _].
  eapply complete_accounted in Hc as [? Hk4]; [|done..|].
  2:{ intros Ho. rewrite Hd3, Hd2, Hd1. by apply Hout. }
  split; [done|]. eapply digests_kept_trans; [exact Hk1|]. eapply digests_kept_trans; [exact Hk2|].
  by eapply digests_kept_trans.
Qed.


End Records.

(** ** Forwarding *)

Section Forwarding.
Variable request : EvaluateRequest.
Variables before after : nat → ctx_err.

(** Every contact asked so far failed in a way that allows another. *)
Definition all_failed (resolve : string → result (option (list (option Collect.contact))))
    (asked : list Collect.contact) : Prop :=
  Forall (λ x, ∃ target contacts er, target ∈ vr_TargetOrganizations request ∧
    resolve target = Ok (Some contacts) ∧ Some x ∈ contacts ∧ has_peer x = true ∧
    Evaluate_remote x (forwarded request target) = Err er ∧ retryable er = true) asked.

(** The last contact asked, its target and its answer. *)
Definition answered (resolve : string → result (option (list (option Collect.contact))))
    (r : evaluation) : Prop :=
  ∃ earlier x target contacts, ev_asked r = earlier ++ [x] ∧ all_failed resolve earlier ∧
    target ∈ vr_TargetOrganizations request ∧
    resolve target = Ok (Some contacts) ∧ Some x ∈ contacts ∧ has_peer x = true ∧
    match Evaluate_remote x (forwarded request target) with
    | Ok None => ∃ er, ev_result r = Err er
    | Ok (Some response) => ev_result r = Requests.gatewayEvaluationResponse response
    | Err er => ev_result r = Err er ∨ ∃ ce, ev_result r = Err (status_FromContextError ce)
    end.

Definition outcome_good resolve (o : evaluation + (list ErrorDetail * list Collect.contact)) : Prop :=
  match o with
  | inl r => answered resolve r ∨ (all_failed resolve (ev_asked r) ∧ ∃ ce, ev_result r = Err (status_FromContextError ce))
  | inr (_, asked) => all_failed resolve asked
  end.

Lemma ask_contacts_good resolve target all contacts details asked :
  target ∈ vr_TargetOrganizations request → resolve target = Ok (Some all) →
  (∀ x, x ∈ contacts → x ∈ all) → all_failed resolve asked →
  outcome_good resolve (ask_contacts request before after target contacts details asked).
Proof.
  intros Ht Hall. revert details asked. induction contacts as [|contact rest IH]; intros details asked Hin Hf.
  { done. }
  assert (Hrest : ∀ x, x ∈ rest → x ∈ all) by (intros x Hx; apply Hin; by right).
  cbn [ask_contacts]. destruct contact as [x|]; cbn [mbind option_bind]; [|by apply IH].
  destruct (has_peer x) eqn:Hp; [|by apply IH].
  destruct (before (length asked)) as [e|]; [right; split; [done|by eexists]|].
  assert (Hx : Some x ∈ all) by (apply Hin; by left).
  assert (Hans : ∀ res, match Evaluate_remote x (forwarded request target) with
    | Ok None => ∃ er, res = Err er
    | Ok (Some response) => res = Requests.gatewayEvaluationResponse response
    | Err er => res = Err er ∨ ∃ ce, res = Err (status_FromContextError ce)
    end → answered resolve (mkEvaluation res [] (asked ++ [x]))).
  { intros res Hres. by exists asked, x, target, all. }
  destruct (Evaluate_remote x (forwarded request target)) as [[response|]|er] eqn:Hev.
  - left. by apply Hans.
  - left. apply Hans. by eexists.
  - destruct (after (length asked)) as [ce|]; [left; apply Hans; right; by eexists|].
    destruct (retryable er) eqn:Hr; [|left; apply Hans; by left].
    apply IH; [done|]. apply Forall_app. split; [done|]. apply Forall_singleton.
    by exists target, all, er.
Qed.

Lemma ask_targets_good resolve targets visited details asked :
  (∀ t, t ∈ targets → t ∈ vr_TargetOrganizations request) → all_failed resolve asked →
  outcome_good resolve (ask_targets request before after resolve targets visited details asked).
Proof.
  revert visited details asked.
  induction targets as [|target rest IH]; intros visited details asked Hin Hf; [done|].
  assert (Hrest : ∀ t, t ∈ rest → t ∈ vr_TargetOrganizations request) by (intros t ?; apply Hin; by right).
  cbn [ask_targets]. case_bool_decide; [by apply IH|].
  destruct (resolve target) as [[[|contact contacts]|]|er] eqn:Hr; [by apply IH| |by apply IH..].
  pose proof (ask_contacts_good resolve target (contact :: contacts) (contact :: contacts) details asked
    ltac:(apply Hin; by left) Hr ltac:(done) Hf) as Hc.
  destruct (ask_contacts _ _ _ _ _ _ _) as [r|[details' asked']]; [done|]. by apply IH.
Qed.

(** A proposal that is forwarded for evaluation is answered by one orchestrator at most: each
    contact asked belongs to a requested organization and receives the client's own signed
    proposal, another is asked only after an error that is not final, and a response to the client is the response of the last contact asked. *)
Theorem evaluateRemote_once remotes last req def :
  let r := evaluateRemote c request before after remotes last req def in
  let resolve target := Collect.Resolve (Collect.mkResolveRequest (c_MSPID c) target (c_channel c)
    (Namespace req) (ChaincodeName req) (Store.Version def) (Store.Sequence def)) in
  (∃ e, ev_result r = Err e ∧ all_failed resolve (ev_asked r)) ∨ answered resolve r.
Proof.
  intros r resolve. subst r. unfold evaluateRemote. destruct remotes; cbn [negb];
    [|left; eexists; split; [done|constructor]].
  pose proof (ask_targets_good resolve (vr_TargetOrganizations request) ∅ [] []
    ltac:(done) ltac:(constructor)) as Hg. fold resolve.
  destruct (ask_targets _ _ _ _ _ _ _ _) as [r|[details asked]].
  - destruct Hg as [Ha|[Hf [ce He]]]; [by right|left; by exists (status_FromContextError ce)].
  - left. destruct last; (eexists; split; [done|exact Hg]).
Qed.

End Forwarding.

End Lemmas.

(** ** Concrete instances *)

#[local] Existing Instances Instances.example_msp Json.example_json Packager.ex_lib Packager.ex_metadata
  Service.ex_policies.

(** Envelopes signed by [alice]. *)
#[local] Instance ex_util : ProtoUtil := {|
  efab_Parse _ _ := Err (EExt "unused");
  UnmarshalProposal := @UnmarshalProposal Packager.ex_util;
  UnmarshalHeader := @UnmarshalHeader Packager.ex_util;
  UnmarshalChannelHeader := @UnmarshalChannelHeader Packager.ex_util;
  UnmarshalSignatureHeader b := Ok "Org1MSP:alice";
  UnmarshalPayload := @UnmarshalPayload Packager.ex_util;
  UnmarshalHeaderExtension := @UnmarshalHeaderExtension Packager.ex_util;
  UnmarshalChaincodeProposalPayload := @UnmarshalChaincodeProposalPayload Packager.ex_util;
  UnmarshalChaincodeInvocationSpec := @UnmarshalChaincodeInvocationSpec Packager.ex_util;
  GetProposalHash1 := @GetProposalHash1 Packager.ex_util;
  UnmarshalTx := @UnmarshalTx Packager.ex_util;
  MarshalTx := @MarshalTx Packager.ex_util;
  NsASN1Marshal := @NsASN1Marshal Packager.ex_util |}.

(** The policy library with the native transactions of the packager. *)
#[local] Instance ex_native_policy : Policy.PolicyLib := {|
  Policy.unmarshal_Envelope := @Policy.unmarshal_Envelope _ Instances.example_policy;
  Policy.unmarshal_MSPRole := @Policy.unmarshal_MSPRole _ Instances.example_policy;
  Policy.unmarshal_OrganizationUnit := @Policy.unmarshal_OrganizationUnit _ Instances.example_policy;
  Policy.unmarshal_CombinedPrincipal := @Policy.unmarshal_CombinedPrincipal _ Instances.example_policy;
  Policy.unmarshal_Anonymity := @Policy.unmarshal_Anonymity _ Instances.example_policy;
  Policy.unmarshal_Tx := UnmarshalTx;
  Policy.cauthdsl_NewPolicy := @Policy.cauthdsl_NewPolicy _ Instances.example_policy;
  Policy.SatisfiesPrincipal := @Policy.SatisfiesPrincipal _ Instances.example_policy;
  Policy.ASN1Marshal := @Policy.ASN1Marshal _ Instances.example_policy;
  Policy.nsVerifier := ();
  Policy.NewNsVerifier _ _ := Ok ();
  Policy.VerifyNs _ _ _ endorsements _ := Instances.test (negb (bool_decide (endorsements = []))) |}.

Definition ex_end : SdkEndorsement :=
  mkSdkEndorsement (Some Packager.ex_helper_proposal)
    [Some (mkProposalResponse (Some Packager.ex_reply) Packager.ex_tx
             (Some (mkEndorsement "Org1MSP:peer" "peer")))].

Definition ex_prepared : bytes :=
  match Packager.createGatewayTransaction (Some Packager.ex_proposal) "1.0" ex_end with
  | Ok b => b
  | Err _ => ""
  end.

Definition ex_request : option Auth.SubmitRequest :=
  Some (Auth.mkSubmitRequest "n1alice" "ch" (Some (Auth.mkEnvelope ex_prepared "alice"))).

Definition ex_store : Store.Store :=
  Store.mkStore "ch" ∅ ∅ {["cc" := Store.mkCommittedRow "1.0" 4 0 0 "t"]} ∅.

Definition ex_gateway_config : config :=
  mkConfig (Auth.mkService "ch" "default" (Some ex_store) (Some Auth.ex_verifier)) "Org1MSP" true.

Definition ex_submit_env : submit_env :=
  mkSubmitEnv 50 None None None None (Some ex_store, Some ex_store) (Some ∅)
    (Some (Ok [PolicyResolver.mkItem "ns" 1 "Org1MSP"])) 50 arm_done
    (newIdempotencyStore, newIdempotencyStore).

Definition ex_submitted_run : option (idempotencyStore * result ()) :=
  Submit ex_event ex_hash ex_gateway_config 10 ex_submit_env ex_submission newIdempotencyStore ex_request.

Lemma ex_submitted_ok : (λ t, t.2) <$> ex_submitted_run = Some (Ok ()).
Proof. vm_compute. reflexivity. Qed.


(** The same request again, answered from the record of the first. *)
Definition ex_repeat_env (s : idempotencyStore) : submit_env :=
  mkSubmitEnv 60 None None None None (Some ex_store, Some ex_store) (Some ∅)
    (Some (Ok [PolicyResolver.mkItem "ns" 1 "Org1MSP"])) 60 arm_submitted (s, s).

Definition ex_repeated_run (s : idempotencyStore) : option (idempotencyStore * result ()) :=
  Submit ex_event ex_hash ex_gateway_config 11 (ex_repeat_env s) ex_submission s ex_request.

Lemma ex_repeated_ok : (λ t, t.2) <$> (t ← ex_submitted_run; ex_repeated_run t.1) = Some (Ok ()).
Proof. vm_compute. reflexivity. Qed.


End Gateway.
