(* ===== verification/Acceptance.v ===== *)
(** What [Endorse] prepared, [Submit] accepts: the Gateway's two calls composed, across
    [orchestrator/service.go], [execution.go] and [fabricx_packager.go].

    Between the two the client signs the prepared bytes.  The conditions under which the second
    call accepts them are those the code checks again at that time, [still_good]. *)
From Stdlib Require Import Ascii ZArith Lia.
From stdpp Require Import base option list strings gmap sets.
From S2P Require Import Prelude LifecycleStore OrchestratorTypes GoStrings Json Proto Msp Idempotency.
From S2P Require Import EndorsementPolicy PolicyResolver EndorsementSearch Collect Finality Submission.
From S2P Require Import Instances ExecContext Shim Helper Requests Auth Framing Packager Config Network.
From S2P Require Import ChaincodeResolver Binding Invocation Service Gateway.
Import Types Proto Idempotency Invocation Service Gateway.
Local Open Scope Z_scope.

Module Acceptance.

(** ** Endorsements that verify on their own *)

Section Endorsements.
Context {L : Msp.MSPLib} {P : Policy.PolicyLib}.

(** The key that counts an endorser once. *)
Definition endorser_key (compiled : Policy.namespaceEndorsementPolicy) (endorser : bytes) : option string :=
  if bool_decide (is_Some (Policy.envelope compiled)) then
    match Msp.unmarshal_Identity endorser, Policy.deserializer compiled with
    | Ok ser, Some m =>
        match Msp.DeserializeIdentity m ser with
        | Ok id => Some (Policy.identity_key id)
        | Err _ => None
        end
    | _, _ => None
    end
  else Some endorser.

(** The namespace of a transaction is the one the policy is for. *)
Definition in_scope (compiled : Policy.namespaceEndorsementPolicy) (tx : Tx) (ns : TxNamespace) : Prop :=
  Namespaces tx = [ns] ∧ NsId ns = Policy.snap_Namespace (Policy.snapshot compiled) ∧
  NsVersion ns = Policy.snap_Version (Policy.snapshot compiled).

(** A trusted identity's signature over the transaction. *)
Definition signed_by (now : Z) (compiled : Policy.namespaceEndorsementPolicy) (txID : string) (tx : Tx)
    (ns : TxNamespace) (e : Endorsement) : Prop :=
  ∃ m ser id data, Policy.deserializer compiled = Some m ∧
    Msp.unmarshal_Identity (Endorser e) = Ok ser ∧ Msp.DeserializeIdentity m ser = Ok id ∧
    Msp.Validate id = None ∧ Msp.ValidateIdentityTime id now = Ok () ∧
    Policy.ASN1Marshal ns txID (Metadata tx) = Ok data ∧ Msp.Verify id data (Signature e) = None.

Record endorses (now : Z) (compiled : Policy.namespaceEndorsementPolicy) (txID : string) (tx : Tx)
    (ns : TxNamespace) (e : Endorsement) (key : string) : Prop := mkEndorses {
  en_scope : in_scope compiled tx ns;
  en_signature : Signature e ≠ "";
  en_key : endorser_key compiled (Endorser e) = Some key;
  en_signed : is_Some (Policy.envelope compiled) → signed_by now compiled txID tx ns e }.

(** An endorsement of [tx] verifies alone; organizations are not explicit. *)
Lemma authenticate_endorses now compiled r msp v :
  Policy.authenticate now compiled r msp false = Ok v →
  ∃ x resp e tx ns, end_Responses (res_Endorsement r) = [Some x] ∧ pr_Response x = Some resp ∧
    pr_Endorsement x = Some e ∧ Policy.unmarshal_Tx (pr_Payload x) = Ok tx ∧
    endorses now compiled (res_TxID r) tx ns e (Policy.ve_key v).
Proof.
  unfold Policy.authenticate. destruct (end_Responses _) as [|[x|] [|]]; [done| |done..].
  destruct (pr_Response x) as [resp|] eqn:Hr; [|done].
  destruct (pr_Endorsement x) as [e|] eqn:He; [|done]. intros H.
  apply bind_ok in H as ([] & Hs & H). apply guard_err_ok in Hs. bool_props.
  apply bind_ok in H as ([] & _ & H). apply bind_ok in H as (tx & Htx & H).
  apply Msp.wrap_err_ok in Htx. destruct (Namespaces tx) as [|ns [|]] eqn:Hns; [done| |done].
  apply bind_ok in H as ([] & Hscope & H). apply guard_err_ok in Hscope. bool_props.
  exists x, resp, e, tx, ns. do 4 (split; [done|]).
  destruct (bool_decide (is_Some (Policy.envelope compiled))) eqn:Henv; cbn [negb andb] in H.
  - apply bind_ok in H as ([] & _ & H). apply bind_ok in H as (ser & Hser & H). apply Msp.wrap_err_ok in Hser.
    apply bind_ok in H as (id & Hid & H). destruct (Policy.deserializer compiled) as [m|] eqn:Hm; [|done].
    apply Msp.wrap_err_ok in Hid. apply bind_ok in H as ([] & _ & H).
    apply bind_ok in H as ([] & Hval & H). apply Msp.wrap_err_ok, Msp.check_err_ok in Hval.
    apply bind_ok in H as ([] & Htime & H). apply bind_ok in H as (data & Hdata & H).
    apply bind_ok in H as ([] & Hver & [= <-]). apply Msp.wrap_err_ok, Msp.check_err_ok in Hver.
    split; [done|done| |].
    + unfold endorser_key. by rewrite Henv, Hser, Hm, Hid.
    + intros _. by exists m, ser, id, data.
  - injection H as <-. split; [done|done| |].
    + unfold endorser_key. by rewrite Henv.
    + intros Hsome. by rewrite bool_decide_eq_true_2 in Henv.
Qed.

End Endorsements.

(** ** Laws of the libraries that the two calls share *)

Section Acceptance.
Context {L : Msp.MSPLib} {P : Policy.PolicyLib} {R : Collect.RemoteOrchestrators} {GR : GatewayRemotes}.
Context {PU : ProtoUtil} {PL : ProposalLib} {J : Json.JSONText} {PP : PolicyResolver.PolicyProto}.
Context {MP : MetadataProto} {PK : Packager.PackagerLib} {GP : Auth.GatewayProto}.

(** The policy package and the packager decode the same message; an MSP deserializes the
    identities that carry its own ID; the SDK's parser returns the proposal it decoded, with the
    channel, transaction and creator of its header; and the chaincode ID of a header is one
    message. *)
Class ClientLaws : Prop := {
  tx_view b : Policy.unmarshal_Tx b = (n ← Packager.unmarshal_Native b; Ok (Packager.nt_Tx n));
  identifier_msp m ser id : Msp.DeserializeIdentity m ser = Ok id → Msp.GetMSPIdentifier id = Msp.MspId ser;
  parsed_proposal sp now inv : efab_Parse (Some sp) now = Ok inv →
    ∃ p header ch, UnmarshalProposal (ProposalBytes sp) = Ok p ∧ inv_Proposal inv = Some p ∧
      UnmarshalHeader (Header p) = Ok header ∧ UnmarshalChannelHeader (ChannelHeader header) = Ok ch ∧
      ChannelId ch = inv_Channel inv ∧ TxId ch = inv_TxID inv ∧
      UnmarshalSignatureHeader (SignatureHeader header) = Ok (inv_Creator inv);
  extension_view b : UnmarshalHeaderExtension b =
    (id ← Packager.unmarshal_ExtensionID b;
     Ok (option_map (λ id, (Packager.cid_Name id, Packager.cid_Version id)) id)) }.

Context {CL : ClientLaws} {LW : Packager.PackagerLaws} {JL : Json.JSONLaws}.

(** ** Verifying again *)

Lemma endorses_authenticate now compiled proposal x resp e tx ns txID ser key :
  pr_Response x = Some resp → status_ok (Status resp) = true → pr_Endorsement x = Some e →
  Policy.unmarshal_Tx (pr_Payload x) = Ok tx → Msp.unmarshal_Identity (Endorser e) = Ok ser →
  endorses now compiled txID tx ns e key →
  ∃ v, Policy.authenticate now compiled
      (mkResult (mkSdkEndorsement proposal [Some x]) txID (Some resp) None) (Msp.MspId ser) false = Ok v ∧
    Policy.ve_key v = key.
Proof.
  intros Hr Hok He Htx Hser [(Hns & Hid & Hv) Hsig Hkey Hsigned]. unfold Policy.authenticate.
  cbn [end_Responses res_Endorsement res_TxID]. rewrite Hr, He.
  rewrite (bool_decide_eq_false_2 (Signature e = "")) by done. cbn [guard_err mbind result_mbind].
  rewrite Hok. cbn [negb guard_err mbind result_mbind]. rewrite Htx.
  cbn [Msp.wrap_err mbind result_mbind]. rewrite Hns, Hid, Hv, Z.eqb_refl.
  rewrite (bool_decide_eq_true_2 (Policy.snap_Namespace _ = _)) by done.
  cbn [negb orb guard_err mbind result_mbind]. unfold endorser_key in Hkey.
  destruct (bool_decide (is_Some (Policy.envelope compiled))) eqn:Henv; cbn [negb andb].
  - apply bool_decide_eq_true in Henv.
    destruct (Hsigned Henv) as (m & ser' & id & data & Hm & Hser' & Hd & Hval & Htime & Hdata & Hver).
    rewrite Hser in Hser'. injection Hser' as <-. rewrite Hser, Hm, Hd in Hkey. injection Hkey as <-.
    cbn [mbind result_mbind]. rewrite Hser. cbn [Msp.wrap_err mbind result_mbind]. rewrite Hm, Hd.
    cbn [Msp.wrap_err mbind result_mbind]. rewrite (identifier_msp m ser id Hd).
    rewrite bool_decide_eq_true_2 by done. cbn [negb guard_err mbind result_mbind].
    rewrite Hval. cbn [Msp.check_err Msp.wrap_err mbind result_mbind]. rewrite Htime.
    cbn [mbind result_mbind]. rewrite Hdata. cbn [mbind result_mbind]. rewrite Hver.
    cbn [Msp.check_err Msp.wrap_err mbind result_mbind]. by eexists.
  - injection Hkey as <-. by eexists.
Qed.

Lemma endorses_later now later compiled txID tx ns e key :
  (∀ id, Msp.ValidateIdentityTime id now = Ok () → Msp.ValidateIdentityTime id later = Ok ()) →
  endorses now compiled txID tx ns e key → endorses later compiled txID tx ns e key.
Proof.
  intros Ht [? ? ? Hs]. split; [done..|]. intros He.
  destruct (Hs He) as (m & ser & id & data & ? & ? & ? & ? & ? & ?). exists m, ser, id, data. naive_solver.
Qed.

(** The endorsements of a prepared transaction pass the loop, each counted once. *)
Lemma verify_each_endorses now compiled txID proposal response data tx ns used keys seen :
  status_ok (Status response) = true → Policy.unmarshal_Tx data = Ok tx →
  Forall2 (endorses now compiled txID tx ns) used keys → NoDup keys → (∀ k, k ∈ keys → k ∉ seen) →
  Forall (λ e, is_ok (Msp.unmarshal_Identity (Endorser e)) = true) used →
  verify_each now compiled txID proposal (Packager.with_endorsement response data <$> used) seen =
    Some (Ok ()).
Proof.
  intros Hok Htx Hall. revert seen. induction Hall as [|e key used keys He Hall IH]; intros seen Hnd Hs Hid; [done|].
  apply NoDup_cons in Hnd as [Hkey Hnd]. apply Forall_cons in Hid as [Hser Hid].
  rewrite fmap_cons. cbn [verify_each Packager.with_endorsement mbind option_bind pr_Endorsement].
  destruct (Msp.unmarshal_Identity (Endorser e)) as [ser|] eqn:Hu; [|done]. cbn [mbind result_mbind pr_Response].
  destruct (endorses_authenticate now compiled proposal
    (mkProposalResponse (Some response) data (Some e)) response e tx ns txID ser key eq_refl Hok eq_refl Htx Hu He)
    as (v & Hv & Hk).
  unfold Packager.with_endorsement. rewrite Hv. cbn [mbind result_mbind]. rewrite Hk.
  rewrite (bool_decide_eq_false_2 (key ∈ seen)) by (apply Hs; left). cbn [guard_err mbind result_mbind].
  apply IH; [done| |done]. intros k Hin. apply not_elem_of_union. split; [|apply Hs; by right].
  intros ->%elem_of_singleton. done.
Qed.

(** The namespace verifier reads the endorsements and the transaction of the first response. *)
Lemma identities_with response data used :
  ∀ resps, Packager.response_endorsements resps = Ok used →
  Policy.endorsements_with_identity (Packager.with_endorsement response data <$> used) =
    Policy.endorsements_with_identity resps.
Proof.
  intros resps. revert used. induction resps as [|r resps IH]; intros used; cbn [Packager.response_endorsements].
  { by intros [= <-]. }
  destruct (r ≫= pr_Endorsement) as [e|] eqn:He; [|done]. intros H. apply bind_ok in H as (l & Hl & [= <-]).
  rewrite fmap_cons. cbn [Policy.endorsements_with_identity]. rewrite He, (IH l Hl). done.
Qed.

Lemma selection_with compiled end_ proposal response data used tx txID r rest :
  end_Responses end_ = Some r :: rest → Policy.unmarshal_Tx (pr_Payload r) = Ok tx →
  Policy.unmarshal_Tx data = Ok tx → Packager.response_endorsements (end_Responses end_) = Ok used →
  Policy.verifySelection compiled
    (mkSdkEndorsement proposal (Packager.with_endorsement response data <$> used)) txID =
  Policy.verifySelection compiled end_ txID.
Proof.
  intros Hr Htx Hd Hes. unfold Policy.verifySelection. cbn [end_Responses].
  rewrite (identities_with response data used _ Hes). rewrite Hr in *. cbn [default option_map fmap option_fmap].
  destruct used as [|e used].
  { cbn [Packager.response_endorsements] in Hes. destruct (Some r ≫= _); [|done].
    by apply bind_ok in Hes as (? & _ & ?). }
  rewrite fmap_cons. cbn [Packager.with_endorsement]. cbn. by rewrite Htx, Hd.
Qed.

(** ** What was endorsed *)

Lemma chosen_used now compiled txID payload tx ns chosen used :
  Forall (λ v, (∃ msp, Policy.authenticate now compiled (Policy.ve_result v) msp false = Ok v) ∧
    res_TxID (Policy.ve_result v) = txID) chosen →
  Forall (Packager.successful payload)
    (mjoin ((λ v, end_Responses (res_Endorsement (Policy.ve_result v))) <$> chosen)) →
  Policy.unmarshal_Tx payload = Ok tx → Namespaces tx = [ns] →
  Packager.response_endorsements
    (mjoin ((λ v, end_Responses (res_Endorsement (Policy.ve_result v))) <$> chosen)) = Ok used →
  Forall2 (endorses now compiled txID tx ns) used (Policy.ve_key <$> chosen).
Proof.
  intros Hall Hok Htx Hns. revert used. induction Hall as [|v chosen [[msp Ha] Hid] Hall IH]; intros used.
  { intros [= <-]. constructor. }
  rewrite fmap_cons in Hok |- *. cbn [mjoin list_join] in Hok |- *.
  destruct (authenticate_endorses _ _ _ _ _ Ha) as (y & resp & e & tx' & ns' & Hr & _ & He & Htx' & Hen).
  rewrite Hr in *. cbn [app] in *. apply Forall_cons in Hok as [(y' & ? & [= <-] & _ & _ & Hp) Hok].
  cbn [Packager.response_endorsements mbind option_bind]. rewrite He. intros H.
  apply bind_ok in H as (l & Hl & [= <-]). rewrite fmap_cons. constructor; [|by apply IH].
  rewrite Hp, Htx in Htx'. injection Htx' as <-. rewrite Hid in Hen.
  destruct (en_scope _ _ _ _ _ _ _ Hen) as [Hns' _]. rewrite Hns in Hns'. by injection Hns' as <-.
Qed.

Lemma endorsers_distinct now compiled txID tx ns used keys :
  Forall2 (endorses now compiled txID tx ns) used keys → NoDup keys → NoDup (Endorser <$> used).
Proof.
  induction 1 as [|e k used keys He Hall IH]; intros Hnd; [constructor|].
  apply NoDup_cons in Hnd as [Hk Hnd]. rewrite fmap_cons. constructor; [|by apply IH].
  intros (e' & Heq & Hin)%list_elem_of_fmap. apply Hk.
  apply list_elem_of_lookup in Hin as [i Hi].
  destruct (Forall2_lookup_l _ _ _ _ _ Hall Hi) as (k' & Hk' & Hen).
  pose proof (en_key _ _ _ _ _ _ _ He) as H1. pose proof (en_key _ _ _ _ _ _ _ Hen) as H2.
  rewrite Heq, H2 in H1. injection H1 as <-. by eapply list_elem_of_lookup_2.
Qed.

(** Every endorsement in a Gateway transaction made of collected ones verifies for the transaction
    it carries. *)
Lemma made_endorses now compiled req local p version end_ out header channel sig cpp spec route data
    native response pub rp action tx used :
  Packager.gateway_made p version end_ out header channel sig cpp spec route data native response pub rp
    action tx used →
  Collect.endorsement_ok now compiled req local end_ → EndorsingOrganizations req = [] →
  ∃ ns keys r rest, end_Responses end_ = Some r :: rest ∧
    Policy.unmarshal_Tx (pr_Payload r) = Ok (Packager.nt_Tx native) ∧
    Policy.unmarshal_Tx data = Ok (Packager.nt_Tx native) ∧
    Forall2 (endorses now compiled (res_TxID local) (Packager.nt_Tx native) ns) used keys ∧ NoDup keys ∧
    NoDup (Endorser <$> used) ∧
    Forall (λ e, is_ok (Msp.unmarshal_Identity (Endorser e)) = true) used ∧
    status_ok (Status response) = true ∧
    Policy.verifySelection compiled end_ (res_TxID local) = Ok ().
Proof.
  intros Hmade (chosen & _ & Hall & Hnd & Hresp & _ & Hsel & _) Horgs.
  destruct Hmade as [_ _ _ Hnat Hr _ _ (Hes & _)].
  apply Packager.native_transaction_ok in Hnat as (q & c0 & o & nonce & payload & n & es & cb & sb & _ &
    Hnm & _ & -> & Hns & _).
  destruct Hnm as [[Hne _] _ Hok Hfirst [Hn Hdata] _].
  assert (Hone : ∃ ns, Namespaces (Packager.nt_Tx n) = [ns]).
  { destruct (Namespaces _) as [|ns [|]]; [done| |done]. by exists ns. }
  destruct Hone as [ns Hone]. exists ns, (Policy.ve_key <$> chosen).
  assert (Htx : Policy.unmarshal_Tx payload = Ok (Packager.nt_Tx n)) by (by rewrite tx_view, Hn).
  assert (Hend : Forall2 (endorses now compiled (res_TxID local) (Packager.nt_Tx n) ns) used (Policy.ve_key <$> chosen)).
  { rewrite Hresp in Hok, Hes. apply (chosen_used _ _ _ payload); [|done..].
    eapply Forall_impl; [exact Hall|]. intros v (Ha & Hid & _). split; [|done].
    unfold Collect.requireMSP in Ha. by rewrite Horgs in Ha. }
  pose proof (endorsers_distinct _ _ _ _ _ _ _ Hend Hnd) as Hdist.
  destruct (end_Responses end_) as [|r rest] eqn:He; [done|].
  pose proof Hok as Hok'. apply Forall_cons in Hok' as [(r' & response' & -> & Hr' & Hst & Hp) _].
  exists r', rest. cbn in Hr. rewrite Hr' in Hr. injection Hr as ->. rewrite Hp. split_and!; try done.
  - rewrite tx_view, (Packager.native_roundtrip _ _ Hdata). done.
  - destruct (Packager.response_endorsements_of _ _ Hes) as [Hof _].
    rewrite Hof, Packager.first_of_endorser_id in Hfirst by (done || set_solver).
    clear -Hfirst. induction Hfirst as [|e x used es (_ & id & _ & Hid) _ IH]; constructor; [by rewrite Hid|done].
  - by apply Hsel.
Qed.

(** ** The orderer accepts a first submission *)

(** A record that was just begun is executed and then submitted. *)
Lemma begun_submitted eventOf s p r executed tx now out end_ init :
  heap s !! p = Some r → submitted r = false →
  ∃ s' rec, markSubmitted eventOf now (markExecuted executed s (Some p) tx) (Some p) out end_ init = Some s' ∧
    heap s' !! p = Some rec ∧ State rec = idempotencySubmitted ∧ Key rec = Key r ∧ Digest rec = Digest r.
Proof.
  intros Hr Hs. unfold markSubmitted, markSubmission, markExecuted. rewrite Hr.
  unfold with_record at 1. cbn [heap]. rewrite lookup_insert_eq. cbn. rewrite Hs. cbn.
  eexists _, _. split; [reflexivity|]. unfold with_record. cbn. by rewrite lookup_insert_eq.
Qed.

Lemma submit_first_accepted eventOf c e x s0 s p g init begun key digest r rest response :
  begin begun s0 key digest = (s, Ok (p, true)) → concurrent p (su_later x) →
  c_submitter c = true → su_ctx x = None →
  Submission.Submit (su_broadcast x (Packager.gp_Endorsement g)) = None →
  end_Responses (Packager.gp_Endorsement g) = Some r :: rest → pr_Response r = Some response →
  ∃ s' rec, submit_first eventOf c e x s p g init = Some (s', Ok ()) ∧
    heap s' !! p = Some rec ∧ Key rec = key ∧ Digest rec = digest ∧ handed rec.
Proof.
  intros Hb Hl Hsub Hctx Hacc Hr Hresp. apply begin_new in Hb as (_ & _ & _ & _ & ->).
  unfold submit_first. rewrite Hr. cbn [head mbind option_bind]. rewrite Hresp.
  cbn [mbind option_bind]. unfold Submission.submitTransaction.
  rewrite Hsub, Hctx, Hacc, bool_decide_eq_false_2 by done. cbn [negb orb].
  match goal with |- context [markExecuted _ (mkIdem (<[p := ?r0]> _) _ _) _ _] => set (r1 := r0) end.
  match goal with |- context [markSubmitted _ ?now (markExecuted ?t ?s1 _ ?tx) _ ?out ?en _] =>
    destruct (begun_submitted eventOf s1 p r1 t tx now out en init (lookup_insert_eq _ _ _) eq_refl)
      as (s2 & rec0 & Hm & Hs2 & Hst & Hk0 & Hd0)
  end.
  rewrite Hm. cbn [mbind option_bind fmap option_fmap option_map].
  destruct (co_record p _ Hl s2 rec0 Hs2) as (rec & Hrec & Hle & _).
  assert (Hh : handed rec).
  { destruct Hle as (_ & _ & Hle). rewrite Hst in Hle. destruct Hle as [(? & _)|(? & ? & _)]; [by left|by right]. }
  exists (su_later x s2), rec. unfold complete. rewrite Hrec.
  assert (submitted_or_terminal rec = true) as ->.
  { unfold submitted_or_terminal, in_state. destruct Hh as [->|[-> _]]; done. }
  destruct Hle as (Hk & Hd & _). rewrite Hk, Hd, Hk0, Hd0. by split_and!.
Qed.

(** ** The two calls *)

Section Calls.
Variable c : config.

(** An endorsement the native transaction keeps as it is: canonical identities, and text that
    protobuf accepts in a string. *)
Definition storable (r : endorsedInvocation) : Prop :=
  Forall Packager.canonical (Packager.endorsements_of (end_Responses (ei_Endorsement r))) ∧
  Json.valid_utf8 (ChaincodeVersion (ei_Request r)) = true ∧
  ∀ x response, Some x ∈ end_Responses (ei_Endorsement r) → pr_Response x = Some response →
    Json.valid_utf8 (Message response) = true.

(** What [Submit] checks again: the creator of the proposal [p] signed the prepared bytes and is
    still trusted, the endorsed revision is still active, the namespace's policy is the same and
    no certificate has expired. *)
Record still_good (ge : gateway_env) (p : Proposal) (out signature : bytes) (e : submit_env)
    (g : Packager.gatewayPreparedInvocation) : Prop := mkStillGood {
  sg_entry : sb_entry e = None;
  sg_client : ∃ v header creator id, Auth.s_proposalAuth (c_auth c) = Some v ∧
    UnmarshalHeader (Header p) = Ok header ∧
    UnmarshalSignatureHeader (SignatureHeader header) = Ok creator ∧
    Msp.Authenticate (Auth.trust v) creator out signature (sb_now e) = Ok id;
  sg_revision : is_ok (check_revision e g) = true;
  sg_policy : (PolicyResolver.resolveNamespacePolicy (sb_policies e) (sb_query e)
      (Namespace (Packager.gp_Request g))).2 =
    (PolicyResolver.resolveNamespacePolicy (se_policies (ge_stage ge)) (se_query (ge_stage ge))
      (Namespace (Packager.gp_Request g))).2;
  sg_certificates : ∀ id, Msp.ValidateIdentityTime id (ce_now (ge_collect ge)) = Ok () →
    Msp.ValidateIdentityTime id (sb_verified_at e) = Ok () }.

Definition submitted_request (request : EndorseRequest) (out signature : bytes) : Auth.SubmitRequest :=
  Auth.mkSubmitRequest (er_TransactionId request) (er_ChannelId request)
    (Some (Auth.mkEnvelope out signature)).

(** A first submission, which the orderer accepts. *)
Record ordered (sha256_hex : bytes → string) (begun : Z) (x : submission_env) (s s1 : idempotencyStore)
    (p : positive) (txID : string) (out : bytes) (end_ : SdkEndorsement) : Prop := mkOrdered {
  or_new : existing s txID ("gateway-submit:" +:+ sha256_hex out) = Ok None;
  or_begun : begin begun (su_meanwhile x s) txID ("gateway-submit:" +:+ sha256_hex out) = (s1, Ok (p, true));
  or_concurrent : concurrent p (su_later x);
  or_client : c_submitter c = true ∧ su_ctx x = None;
  or_accepted : Submission.Submit (su_broadcast x end_) = None }.

Lemma Endorse_ok ge request out :
  Endorse c ge (Some request) = Some (Ok out) →
  ∃ req result, admit_endorsement c ge request = Ok req ∧
    endorse_invocation c (ge_stage ge) (ge_collect ge) req = Some (result, None) ∧
    prepare ge request result = Ok out.
Proof.
  unfold Endorse. intros H. destruct (admit_endorsement c ge request) as [req|]; [|done].
  destruct (endorse_invocation _ _ _ req) as [[result [er|]]|] eqn:He; cbn [mbind option_bind] in H; [done| |done].
  injection H as H. by exists req, result.
Qed.

Lemma prepare_ok ge request sp result out :
  er_ProposedTransaction request = Some sp → prepare ge request result = Ok out →
  ∃ response p, res_Response (ei_Local result) = Some response ∧ status_ok (Status response) = true ∧
    UnmarshalProposal (ProposalBytes sp) = Ok p ∧
    Packager.createGatewayTransaction (Some p) (ChaincodeVersion (ei_Request result)) (ei_Endorsement result) =
      Ok out.
Proof.
  unfold prepare. intros -> H. cbn [from_option] in H.
  destruct (res_Response (ei_Local result)) as [response|]; [|done]. cbn [Requests.gatewayResponseError] in H.
  destruct (status_ok (Status response)) eqn:Hs; cbn [negb] in H; [|done].
  apply bind_ok in H as (p & Hp & H). apply Auth.status_err_ok in Hp. apply bind_ok in H as (out' & Ho & H).
  apply bind_ok in H as ([] & _ & [= <-]). destruct (Packager.createGatewayTransaction _ _ _) eqn:Hc; [|done].
  injection Ho as ->. exists response, p. by rewrite Hc.
Qed.

Lemma admit_endorsement_ok ge request req :
  admit_endorsement c ge request = Ok req → er_EndorsingOrganizations request = [] →
  EndorsingOrganizations req = [] ∧
  ∃ inv id, Auth.admitted (c_auth c) (ge_now ge) (er_ProposedTransaction request) inv id
      (ChaincodeName req) (Namespace req) ∧
    er_ChannelId request = inv_Channel inv ∧ er_TransactionId request = inv_TxID inv ∧
    Requests.gatewayChaincodeRoute (inv_Namespace inv) = Ok (ChaincodeName req, Namespace req).
Proof.
  unfold admit_endorsement. intros H Horgs. apply bind_ok in H as ([] & _ & H).
  apply bind_ok in H as (req' & Hreq & H). rewrite Horgs in H. cbn in H. injection H as <-.
  apply Auth.gatewayInvocation_ok in Hreq as (inv & id & Had & Hch & Htx & Hroute & _ & _ & _ & _ & Ho & _).
  cbn. rewrite Ho. split; [done|]. by exists inv, id.
Qed.

(** The identity is that of the first call: it is determined by the creator. *)
Lemma same_client t creator m m' s s' now now' id id' :
  Msp.authentic t creator m s now id → Msp.authentic t creator m' s' now' id' → id' = id.
Proof. intros [(? & ? & ? & ? & ? & _ & _ & ?) _ _ _] [(? & ? & ? & ? & ? & _ & _ & ?) _ _ _]. congruence. Qed.

Lemma admit_again e request out signature g header data ch creator v id :
  sb_entry e = None → out ≠ "" → UnmarshalPayload out = Ok (Some header, data) →
  UnmarshalChannelHeader (ChannelHeader header) = Ok ch → ChannelId ch = c_channel c →
  er_ChannelId request = ChannelId ch → er_TransactionId request = TxId ch →
  UnmarshalSignatureHeader (SignatureHeader header) = Ok creator →
  Auth.s_proposalAuth (c_auth c) = Some v →
  Msp.Authenticate (Auth.trust v) creator out signature (sb_now e) = Ok id →
  Packager.parseGatewayTransaction (Some (Auth.mkEnvelope out signature)) = Ok g →
  Auth.authorize (Some v) (Some id) (ChaincodeName (Packager.gp_Request g))
    (Namespace (Packager.gp_Request g)) = Ok () →
  admit_submission c e (Some (submitted_request request out signature)) =
    Ok (Auth.mkEnvelope out signature, g).
Proof.
  intros He Hne Hp Hch Hc Hrc Hrt Hcr Hv Hid Hg Hau. unfold admit_submission. rewrite He.
  cbn [entered mbind result_mbind]. unfold Auth.authenticateGatewayTransaction, submitted_request.
  cbn [Auth.sr_PreparedTransaction Auth.env_Payload Auth.env_Signature Auth.sr_ChannelId Auth.sr_TransactionId].
  rewrite bool_decide_eq_false_2 by done. rewrite bool_decide_eq_false_2.
  2:{ intros ->. unfold Msp.Authenticate in Hid. by rewrite orb_true_r in Hid. }
  rewrite Hp, Hch. unfold c_channel in Hc.
  rewrite (bool_decide_eq_true_2 (ChannelId ch = _)), (bool_decide_eq_true_2 (er_ChannelId request = _)),
    (bool_decide_eq_true_2 (er_TransactionId request = _)) by done. cbn [negb orb]. rewrite Hcr, Hv, Hid.
  cbn [Auth.status_err mbind result_mbind option_bind Auth.sr_PreparedTransaction]. rewrite Hg.
  cbn [Auth.status_err mbind result_mbind]. by rewrite Hau.
Qed.

(** The client's header and identity, as both calls read them. *)
Record client_known (request : EndorseRequest) (p : Proposal) (out : bytes) (req : InvocationRequest)
    (v : Auth.proposalVerifier) (t : Msp.Verifier) (creator : bytes) (id : Msp.identity) (txID : string)
    : Prop := mkClientKnown {
  ck_payload : out ≠ "" ∧ ∃ header data ch, UnmarshalHeader (Header p) = Ok header ∧
    UnmarshalPayload out = Ok (Some header, data) ∧
    UnmarshalChannelHeader (ChannelHeader header) = Ok ch ∧ ChannelId ch = c_channel c ∧
    er_ChannelId request = ChannelId ch ∧ er_TransactionId request = TxId ch ∧ txID = TxId ch ∧
    UnmarshalSignatureHeader (SignatureHeader header) = Ok creator;
  ck_client : Auth.s_proposalAuth (c_auth c) = Some v ∧ Auth.trust v = Some t;
  ck_identity : ∃ m s now, Msp.authentic t creator m s now id;
  ck_rule : Auth.authorize (Some v) (Some id) (ChaincodeName req) (Namespace req) = Ok () }.

Lemma client_read ge request sp p version end_ out header channel sig cpp spec route data native response
    pub rp action tx used inv id cc ns req :
  Packager.gateway_made p version end_ out header channel sig cpp spec route data native response pub rp
    action tx used →
  Auth.admitted (c_auth c) (ge_now ge) (Some sp) inv id cc ns → UnmarshalProposal (ProposalBytes sp) = Ok p →
  er_ChannelId request = inv_Channel inv → er_TransactionId request = inv_TxID inv →
  Requests.gatewayChaincodeRoute (inv_Namespace inv) = Ok (cc, ns) →
  (∃ eid, Packager.unmarshal_ExtensionID (Packager.cm_Extension channel) = Ok (Some eid) ∧
     Requests.gatewayChaincodeRoute (Packager.cid_Name eid) = Ok (ChaincodeName req, Namespace req)) →
  ns = Namespace req ∧ ∃ v t creator, client_known request p out req v t creator id (Packager.cm_TxId channel).
Proof.
  intros [(Hh & Hc & _) _ _ _ _ _ _ (_ & _ & _ & Hout)] [Hparse Hchan Hsig Hhc] Hp Hrc Hrt Hroute (eid & Hext & Hr).
  destruct Hsig as (v & t & sp' & Hv & Ht & [= <-] & Hau & Hrule).
  destruct (parsed_proposal sp _ inv Hparse) as (p' & header' & ch & Hp' & Hip & Hh' & Hch & Hid & Htx & Hcr).
  rewrite Hp in Hp'. injection Hp' as <-. rewrite Hh in Hh'. injection Hh' as <-.
  pose proof Hch as Hch'. rewrite Packager.channel_hdr, Hc in Hch'. injection Hch' as <-.
  unfold Auth.header_chaincode in Hhc. rewrite Hip in Hhc. cbn [from_option] in Hhc.
  rewrite Hh in Hhc. cbn [Auth.status_err mbind result_mbind] in Hhc. rewrite Hch in Hhc.
  cbn [Auth.status_err mbind result_mbind ch_Extension Packager.hdr_of] in Hhc.
  rewrite extension_view, Hext in Hhc. cbn in Hhc. injection Hhc as Hname _. rewrite <- Hname, Hr in Hroute.
  injection Hroute as <- <-.
  split; [done|]. exists v, t, (inv_Creator inv). split; [| |by exists (ProposalBytes sp), (sp_Signature sp), (ge_now ge)|].
  - destruct (Packager.payload_roundtrip _ _ _ Hout) as [Hpay Hne]. split; [done|].
    exists header, tx, (Packager.hdr_of channel). split_and!; try done; unfold c_channel; congruence.
  - done.
  - cbn [Auth.authorize]. by apply Auth.authorize_rules_ok.
Qed.

(** The second check of the endorsements. *)
Record endorsements_known (compiled : Policy.namespaceEndorsementPolicy) (now : Z)
    (g : Packager.gatewayPreparedInvocation) : Prop := mkEndorsementsKnown {
  ek_responses : ∃ proposal response data tx ns e used keys,
    Packager.gp_Endorsement g =
      mkSdkEndorsement proposal (Packager.with_endorsement response data <$> e :: used) ∧
    status_ok (Status response) = true ∧ Policy.unmarshal_Tx data = Ok tx ∧
    Forall2 (endorses now compiled (ClientTxID (Packager.gp_Request g)) tx ns) (e :: used) keys ∧
    NoDup keys ∧ Forall (λ e, is_ok (Msp.unmarshal_Identity (Endorser e)) = true) (e :: used);
  ek_selection : Policy.verifySelection compiled (Packager.gp_Endorsement g)
    (ClientTxID (Packager.gp_Request g)) = Ok () }.

Lemma validate_again e g compiled policy now :
  endorsements_known compiled now g →
  (PolicyResolver.resolveNamespacePolicy (sb_policies e) (sb_query e) (Namespace (Packager.gp_Request g))).2 =
    Ok policy →
  Policy.newNamespaceEndorsementPolicy policy (trusted c) = Ok compiled →
  (∀ id, Msp.ValidateIdentityTime id now = Ok () → Msp.ValidateIdentityTime id (sb_verified_at e) = Ok ()) →
  validateSubmissionEndorsements c e g = Some (Ok ()).
Proof.
  intros [(proposal & response & data & tx & ns & e0 & used & keys & Hend & Hok & Htx & Hall & Hnd & Hids) Hsel]
    Hpol Hcomp Htime.
  unfold validateSubmissionEndorsements. rewrite Hpol. cbn [mbind result_mbind]. rewrite Hcomp.
  rewrite Hend in Hsel |- *. cbn [end_Proposal end_Responses].
  rewrite (verify_each_endorses _ compiled _ _ response data tx ns (e0 :: used) keys); [|done|done| |done| |done].
  - cbn [flow_bind]. by rewrite Hsel.
  - eapply Forall2_impl; [exact Hall|]. intros. by eapply endorses_later.
  - set_solver.
Qed.

(** The transaction of an endorsement is the one its local execution had. *)
Lemma endorsed_txID senv cenv req req' ns args policy compiled r txID :
  endorsed_run (c_channel c) (c_MSPID c) (c_namespace c) senv cenv req req' ns args policy compiled r →
  Requests.txIDFromEndorsement (ei_Endorsement r) = Ok txID → txID = res_TxID (ei_Local r).
Proof.
  intros [_ _ _ _ _ Hx _ (_ & _ & _ & _ & _ & Hprop & _) _] Htx.
  apply executeFresh_ok in Hx as (call & prop & proposal & resp & response & _ & _ & _ & _ & _ & Hid & _ & Hend).
  unfold Requests.txIDFromEndorsement in Htx. rewrite Hprop, Hend in Htx. cbn [end_Proposal] in Htx.
  rewrite Hid in Htx. by injection Htx.
Qed.

Lemma endorsed_known senv cenv req req' ns args policy compiled r g p version out header channel sig cpp spec
    route data response pub rp action tx used proposal name f fargs prop :
  endorsed_run (c_channel c) (c_MSPID c) (c_namespace c) senv cenv req req' ns args policy compiled r →
  EndorsingOrganizations req' = [] →
  Packager.gateway_made p version (ei_Endorsement r) out header channel sig cpp spec route data
    (Packager.gp_Native g) response pub rp action tx used →
  Packager.gp_Endorsement g = mkSdkEndorsement proposal (Packager.with_endorsement response data <$> used) →
  Packager.prepared_request channel sig name version (f :: fargs) prop = Ok (Packager.gp_Request g) →
  endorsements_known compiled (ce_now cenv) g.
Proof.
  intros Hrun Horgs Hmade Hend Hreq.
  apply Packager.prepared_request_ok in Hreq as (_ & _ & _ & Htx & _).
  pose proof (endorsed_txID _ _ _ _ _ _ _ _ _ _ Hrun (Packager.gm_txid _ _ _ _ _ _ _ _ _ _ _ _ _ _ _ _ _ _ Hmade)) as Hid.
  destruct (made_endorses _ _ _ _ _ _ _ _ _ _ _ _ _ _ _ _ _ _ _ _ _ _ Hmade
    (er_endorsed _ _ _ _ _ _ _ _ _ _ _ _ Hrun) Horgs)
    as (n & keys & x & rest & Hr & Hx & Hdata & Hall & Hnd & _ & Hids & Hok & Hsel).
  assert (Hes : Packager.response_endorsements (end_Responses (ei_Endorsement r)) = Ok used) by apply Hmade.
  rewrite <- Hid, <- Htx in Hall, Hsel. destruct used as [|e used].
  { rewrite Hr in Hes. cbn [Packager.response_endorsements] in Hes. destruct (Some x ≫= _); [|done].
    by apply bind_ok in Hes as (? & _ & ?). }
  split.
  - by exists proposal, response, data, (Packager.nt_Tx (Packager.gp_Native g)), n, e, used, keys.
  - rewrite Hend, (selection_with compiled (ei_Endorsement r) proposal response data (e :: used) _ _ x rest Hr Hx Hdata Hes).
    done.
Qed.

Lemma selected_orgs store req req' :
  Requests.selectLifecycleDefinition store req = Ok req' → EndorsingOrganizations req' = EndorsingOrganizations req.
Proof.
  unfold Requests.selectLifecycleDefinition. destruct store as [s|]; [|by intros [= <-]].
  case_bool_decide; [by intros [= <-]|]. destruct (Store.GetCommitted _ _) as [[d|]|]; [|by intros [= <-]|done].
  by intros [= <-].
Qed.

(** Collected endorsements have distinct endorsers. *)
Lemma endorsed_distinct now compiled req local p version end_ out :
  Packager.createGatewayTransaction (Some p) version end_ = Ok out →
  Collect.endorsement_ok now compiled req local end_ → EndorsingOrganizations req = [] →
  NoDup (Endorser <$> Packager.endorsements_of (end_Responses end_)).
Proof.
  intros (header & channel & sig & cpp & spec & route & data & native & response & pub & rp & action & tx &
    used & Hmade)%Packager.createGatewayTransaction_ok Hen Horgs.
  destruct (made_endorses _ _ _ _ _ _ _ _ _ _ _ _ _ _ _ _ _ _ _ _ _ _ Hmade Hen Horgs)
    as (n & keys & x & rest & _ & _ & _ & _ & _ & Hnd & _).
  destruct Hmade as [_ _ _ _ _ _ _ (Hes & _)]. by destruct (Packager.response_endorsements_of _ _ Hes) as [-> _].
Qed.

(** Everything [Submit] reads from what [Endorse] prepared. *)
Record prepared_known (ge : gateway_env) (request : EndorseRequest) (p : Proposal) (out signature : bytes)
    (f : string) (args : list string) (g : Packager.gatewayPreparedInvocation) : Prop := mkPreparedKnown {
  pk_parsed : Packager.parseGatewayTransaction (Some (Auth.mkEnvelope out signature)) = Ok g;
  pk_function : Function (Packager.gp_Request g) = f ∧ Args (Packager.gp_Request g) = args;
  pk_client : ∃ v t creator id, client_known request p out (Packager.gp_Request g) v t creator id
    (ClientTxID (Packager.gp_Request g));
  pk_policy : ∃ policy compiled,
    (PolicyResolver.resolveNamespacePolicy (se_policies (ge_stage ge)) (se_query (ge_stage ge))
       (Namespace (Packager.gp_Request g))).2 = Ok policy ∧
    Policy.newNamespaceEndorsementPolicy policy (ce_deser (ge_collect ge)) = Ok compiled ∧
    endorsements_known compiled (ce_now (ge_collect ge)) g }.

Lemma endorse_known ge request sp p f args out signature :
  er_ProposedTransaction request = Some sp → er_EndorsingOrganizations request = [] →
  UnmarshalProposal (ProposalBytes sp) = Ok p → Packager.invokes p f args →
  Endorse c ge (Some request) = Some (Ok out) →
  (∀ req result, admit_endorsement c ge request = Ok req →
     endorse_invocation c (ge_stage ge) (ge_collect ge) req = Some (result, None) → storable result) →
  ∃ g, prepared_known ge request p out signature f args g.
Proof.
  intros Hsp Horgs Hup Hinv Hen Hsto.
  destruct (Endorse_ok _ _ _ Hen) as (req & result & Had & Hend & Hprep).
  destruct (prepare_ok _ _ _ _ _ Hsp Hprep) as (response0 & p' & Hres & Hst & Hup' & Hcreate).
  rewrite Hup in Hup'. injection Hup' as <-. destruct (Hsto _ _ Had Hend) as (Hcan & Hutf & Hmsg).
  destruct (admit_endorsement_ok _ _ _ Had Horgs) as (Hreqorgs & inv & id & Hadm & Hrc & Hrt & Hroute).
  destruct (endorseInvocation_ok _ _ _ _ _ _ _ _ Hend Hres Hst) as (req' & ns & iargs & policy & compiled & Hrun).
  assert (Horgs' : EndorsingOrganizations req' = [])
    by (rewrite (selected_orgs _ _ _ (er_selected _ _ _ _ _ _ _ _ _ _ _ _ Hrun)); done).
  pose proof (endorsed_distinct _ _ _ _ _ _ _ _ Hcreate (er_endorsed _ _ _ _ _ _ _ _ _ _ _ _ Hrun) Horgs') as Hnd.
  destruct (Packager.prepared_parsed p _ _ out signature f args Hcreate Hinv Hnd Hcan Hutf Hmsg)
    as (g & header & channel & sig & cpp & spec & route & data & response & pub & rp & action & tx & used &
      Hg & Hmade & Hge & Hreq).
  pose proof (endorsed_known _ _ _ _ _ _ _ _ _ _ _ _ _ _ _ _ _ _ _ _ _ _ _ _ _ _ _ _ _ _ _ Hrun Horgs' Hmade Hge Hreq) as Hek.
  pose proof (Packager.prepared_request_ok _ _ _ _ _ _ _ Hreq) as (Hfa & _ & Hroute' & Htx & _).
  injection Hfa as Hf Ha. rewrite Hsp in Hadm.
  destruct Hinv as (header1 & channel1 & cpp1 & eid & isInit & Hh1 & Hc1 & Hext & Hcpp1 & Hspec1 & _).
  pose proof Hmade as [(Hh & Hc & _) _ (Hcpp & Hspec & _) _ _ _ _ _].
  rewrite Hh in Hh1. injection Hh1 as <-. rewrite Hc in Hc1. injection Hc1 as <-.
  rewrite Hcpp in Hcpp1. injection Hcpp1 as <-. rewrite Hspec in Hspec1. injection Hspec1 as ->.
  cbn [Packager.spec_name mbind option_bind Packager.is_ChaincodeId] in Hroute'.
  destruct (client_read _ request _ _ _ _ _ _ _ _ _ _ _ _ _ _ _ _ _ _ _ _ _ _ _ (Packager.gp_Request g)
    Hmade Hadm Hup Hrc Hrt Hroute ltac:(by exists eid)) as (Hns & v & t & creator & Hck).
  exists g. split; [done|done| |].
  - rewrite Htx. by exists v, t, creator, id.
  - exists policy, compiled. split_and!; [|by apply Hrun|done].
    apply route_namespace in Hroute as Hne.
    destruct (prepared_namespace _ _ _ _ (er_prepared _ _ _ _ _ _ _ _ _ _ _ _ Hrun)) as [_ Hsame].
    rewrite <- Hns, <- (Hsame Hne). by apply Hrun.
Qed.

(** C4: What [Endorse] prepared, [Submit] orders.  Take a client's proposal that invokes a function,
    endorsed by the organizations the policy needs, and the bytes [Endorse] returned.  Whatever the
    client signs them with, they parse as a request for the same function and arguments; and once
    its creator signs them, and as long as the endorsed revision is active, the namespace's policy
    is the same and no certificate expired, [Submit] admits the client, verifies every endorsement
    again, hands the transaction to the orderer and acknowledges it, leaving a record of it. *)
Theorem endorsed_accepted eventOf sha256_hex ge request sp p f args out signature :
  er_ProposedTransaction request = Some sp → er_EndorsingOrganizations request = [] →
  UnmarshalProposal (ProposalBytes sp) = Ok p → Packager.invokes p f args →
  Endorse c ge (Some request) = Some (Ok out) →
  (∀ req result, admit_endorsement c ge request = Ok req →
     endorse_invocation c (ge_stage ge) (ge_collect ge) req = Some (result, None) → storable result) →
  ce_deser (ge_collect ge) = trusted c →
  ∃ g, Packager.parseGatewayTransaction (Some (Auth.mkEnvelope out signature)) = Ok g ∧
    Function (Packager.gp_Request g) = f ∧ Args (Packager.gp_Request g) = args ∧
    ∀ e begun x s s1 q, still_good ge p out signature e g →
      ordered sha256_hex begun x s s1 q (er_TransactionId request) out (Packager.gp_Endorsement g) →
      ∃ s' r, Submit eventOf sha256_hex c begun e x s (Some (submitted_request request out signature)) =
          Some (s', Ok ()) ∧
        heap s' !! q = Some r ∧ Key r = er_TransactionId request ∧
        Digest r = "gateway-submit:" +:+ sha256_hex out ∧ handed r.
Proof.
  intros Hsp Horgs Hup Hinv Hen Hsto Hdeser.
  destruct (endorse_known ge request sp p f args out signature Hsp Horgs Hup Hinv Hen Hsto)
    as (g & [Hg [Hf Ha] (v & t & creator & id & Hck) (policy & compiled & Hpol & Hcomp & Hek)]).
  exists g. do 3 (split; [done|]). intros e begun x s s1 q [He Hcl Hrev Hsame Hcert] [Hnew Hbeg Hconc [Hsub Hctx] Hacc].
  destruct Hck as [(Hne & header & data & ch & Hh & Hpay & Hch & Hchan & Hrc & Hrt & Htx & Hcr) [Hv Ht]
    (m & sg & t0 & Hauth) Hrule].
  destruct Hcl as (v' & header' & creator' & id' & Hv' & Hh' & Hcr' & Hid).
  rewrite Hv in Hv'. injection Hv' as <-. rewrite Hh in Hh'. injection Hh' as <-.
  rewrite Hcr in Hcr'. injection Hcr' as <-.
  assert (id' = id) as ->.
  { rewrite Ht in Hid. apply Msp.Authenticate_ok in Hid. by eapply same_client. }
  unfold Submit. rewrite (admit_again e request out signature g header data ch creator v id) by done.
  rewrite Htx, <- Hrt. cbn [Auth.env_Payload]. rewrite Hnew.
  destruct (check_revision e g) as [init|]; [|done].
  rewrite (validate_again e g compiled policy (ce_now (ge_collect ge)));
    [|done|by rewrite Hsame|by rewrite <- Hdeser|done].
  cbn [mbind option_bind]. rewrite Hbeg.
  destruct Hek as [(proposal & response & rdata & tx & n & e0 & used & keys & Hend & _) _].
  eapply submit_first_accepted; [done..| |]; [rewrite Hend; cbn [end_Responses]; rewrite fmap_cons; done|done].
Qed.

End Calls.

End Acceptance.

(** ** A concrete instance: a proposal of [alice], endorsed by the helper of [Org1MSP] *)

#[local] Existing Instances Instances.example_msp Json.example_json Packager.ex_lib Packager.ex_metadata
  Service.ex_policies Collect.ex_remotes Auth.example_gateway.

Definition ex_proposal_bytes (p : Proposal) : bytes :=
  Framing.frame [Header p; pp_Payload p; Extension p].

Definition ex_unproposal : bytes → result Proposal :=
  Packager.ex_fields (λ l, match l with [h; p; x] => Some (mkProposal h p x) | _ => None end).

Definition ex_parse (sp : option SignedProposal) (_ : Z) : result Invocation :=
  match sp with
  | None => Err (EExt "no proposal")
  | Some sp =>
      p ← ex_unproposal (ProposalBytes sp);
      h ← Packager.ex_unheader (Header p); ch ← Packager.ex_unchannel (ChannelHeader h);
      s ← Packager.unmarshal_SignatureMsg (SignatureHeader h);
      cpp ← Packager.ex_uncpp (pp_Payload p); spec ← Packager.ex_unspec cpp.1;
      Ok (mkInv (Packager.cm_TxId ch) (Packager.cm_ChannelId ch) (Packager.cm_Extension ch)
            (Packager.spec_args spec) (Packager.sm_Creator s) (Packager.sm_Nonce s) "" 0 (Some p))
  end.

#[local] Instance ex_util : ProtoUtil := {|
  efab_Parse := ex_parse;
  UnmarshalProposal := ex_unproposal;
  UnmarshalHeader := @UnmarshalHeader Packager.ex_util;
  UnmarshalChannelHeader := @UnmarshalChannelHeader Packager.ex_util;
  UnmarshalSignatureHeader b := (m ← Packager.unmarshal_SignatureMsg b; Ok (Packager.sm_Creator m));
  UnmarshalPayload := @UnmarshalPayload Packager.ex_util;
  UnmarshalHeaderExtension b := Ok (Some (b, ""));
  UnmarshalChaincodeProposalPayload := @UnmarshalChaincodeProposalPayload Packager.ex_util;
  UnmarshalChaincodeInvocationSpec := @UnmarshalChaincodeInvocationSpec Packager.ex_util;
  GetProposalHash1 := @GetProposalHash1 Packager.ex_util;
  UnmarshalTx := @UnmarshalTx Packager.ex_util;
  MarshalTx := @MarshalTx Packager.ex_util;
  NsASN1Marshal := @NsASN1Marshal Packager.ex_util |}.

#[local] Instance ex_policy_lib : Policy.PolicyLib := {|
  Policy.unmarshal_Envelope := @Policy.unmarshal_Envelope _ Instances.example_policy;
  Policy.unmarshal_MSPRole := @Policy.unmarshal_MSPRole _ Instances.example_policy;
  Policy.unmarshal_OrganizationUnit := @Policy.unmarshal_OrganizationUnit _ Instances.example_policy;
  Policy.unmarshal_CombinedPrincipal := @Policy.unmarshal_CombinedPrincipal _ Instances.example_policy;
  Policy.unmarshal_Anonymity := @Policy.unmarshal_Anonymity _ Instances.example_policy;
  Policy.unmarshal_Tx b := (n ← Packager.unmarshal_Native b; Ok (Packager.nt_Tx n));
  Policy.cauthdsl_NewPolicy := @Policy.cauthdsl_NewPolicy _ Instances.example_policy;
  Policy.SatisfiesPrincipal := @Policy.SatisfiesPrincipal _ Instances.example_policy;
  Policy.ASN1Marshal := @Policy.ASN1Marshal _ Instances.example_policy;
  Policy.nsVerifier := ();
  Policy.NewNsVerifier _ _ := Ok ();
  Policy.VerifyNs _ _ _ endorsements _ := Instances.test (negb (bool_decide (endorsements = []))) |}.

(** The helper's proposals keep the client's header. *)
#[local] Instance ex_proposals : ProposalLib := {|
  NewSignedProposal _ _ _ := Err (EExt "unused");
  spec_with_IsInit b := Ok b;
  marshal_ProposalPayload cpp := Ok (Packager.ex_cpp cpp);
  GetSignedProposal p := Ok (mkSignedProposal (ex_proposal_bytes p) "sig");
  ComputeTxID nonce creator := nonce +:+ creator;
  CreateChaincodeProposal tx ch name version args _ init nonce creator transient :=
    Ok (mkProposal
      (Packager.ex_header (mkHeader
         (Packager.ex_channel (Packager.mkChannelMsg 3 0 None ch tx 0 name ""))
         (Framing.frame [creator; nonce])))
      (Packager.ex_cpp (Packager.ex_spec (Packager.mkChaincodeID "" name version) (mkInput args init), transient))
      "");
  marshal_Proposal p := Ok (ex_proposal_bytes p) |}.

#[local] Instance ex_gateways : GatewayRemotes :=
  {| has_peer _ := true; Evaluate_remote _ _ := Err (EExt "unused") |}.

Lemma ex_client_laws : ClientLaws.
Proof.
  split; [done|by intros [] s id [= ->]| |done].
  intros sp now inv H. cbn [efab_Parse ex_util ex_parse] in H.
  apply bind_ok in H as (p & Hp & H). apply bind_ok in H as (h & Hh & H).
  apply bind_ok in H as (ch & Hch & H). apply bind_ok in H as (s & Hs & H).
  apply bind_ok in H as (cpp & _ & H). apply bind_ok in H as (spec & _ & [= <-]).
  exists p, h, (Packager.hdr_of ch).
  cbn [UnmarshalProposal UnmarshalHeader UnmarshalChannelHeader UnmarshalSignatureHeader ex_util Packager.ex_util].
  rewrite Hch, Hs. by split_and!.
Qed.

Lemma ex_packager_laws : Packager.PackagerLaws.
Proof. destruct Packager.ex_laws. by constructor. Qed.

Definition ex_txid : string := "n1Org1MSP:alice".

Definition ex_header : CommonHeader :=
  mkHeader (Packager.ex_channel (Packager.mkChannelMsg 3 0 None "ch" ex_txid 0 "cc:ns" ""))
    (Framing.frame ["Org1MSP:alice"; "n1"]).

Definition ex_p : Proposal :=
  mkProposal (Packager.ex_header ex_header) (Packager.ex_cpp (Packager.ex_input, {["secret" := "s"]})) "".

Definition ex_sp : SignedProposal := mkSignedProposal (ex_proposal_bytes ex_p) "alice".

Definition ex_request : EndorseRequest := mkEndorseRequest ex_txid "ch" (Some ex_sp) [].

(** A helper that transfers. *)
Definition ex_helper : Helper.Service :=
  Helper.mkService "ch" {["*" := Helper.ex_executor]}
    (λ inv r, Ok (mkProposalResponse (Some Packager.ex_reply)
       (Packager.ex_native (Packager.mkNative (mkTx [mkTxNamespace "ns" 1 [] [] [("k", "v")]]
          [Framing.frame ["moved"; "e"; "done"; Framing.frame (inv_Args inv)]]) []))
       (Some (mkEndorsement "Org1MSP:peer" "old"))))
    (Some (λ _, Ok "peer"))
    (λ r, Packager.ex_reply).

Definition ex_stage : stage_env :=
  mkStageEnv (Some Auth.ex_store) (Some Auth.ex_store) (Some ∅)
    (Some (Ok [PolicyResolver.mkItem "ns" 1 "Org1MSP"]))
    (Some (mkCall ex_helper Exec.ex_env 50)) Service.ex_evidence.

Definition ex_gateway : gateway_env :=
  mkGatewayEnv 50 None None None None (Some Auth.ex_store) ex_stage Service.ex_collect.

Definition ex_config : config := mkConfig Auth.ex_service "Org1MSP" true.

#[local] Notation ex_endorsed := (Endorse ex_config ex_gateway (Some ex_request)).

#[local] Notation ex_admitted := (admit_endorsement ex_config ex_gateway ex_request).

Definition ex_out : bytes := match ex_endorsed with Some (Ok b) => b | _ => "" end.

Lemma ex_endorsed_ok : ex_endorsed = Some (Ok ex_out).
Proof. vm_compute. reflexivity. Qed.

Lemma ex_invokes : Packager.invokes ex_p "transfer" ["a1"].
Proof.
  exists ex_header, (Packager.mkChannelMsg 3 0 None "ch" ex_txid 0 "cc:ns" ""),
    (Packager.ex_input, {["secret" := "s"]}), Packager.ex_id, false.
  split_and!; [vm_compute; reflexivity..|discriminate].
Qed.

(** The endorsements and the texts of the collected endorsement. *)
Definition ex_collected (r : option (endorsedInvocation * option goerr)) : list Endorsement * list string :=
  match r with
  | Some (r, None) =>
      (Packager.endorsements_of (end_Responses (ei_Endorsement r)),
       ChaincodeVersion (ei_Request r) ::
       omap (λ x, Message <$> (x ≫= pr_Response)) (end_Responses (ei_Endorsement r)))
  | _ => ([], [])
  end.

Lemma ex_collected_ok req :
  ex_admitted = Ok req →
  ex_collected (endorse_invocation ex_config ex_stage Service.ex_collect req) =
    ([mkEndorsement "Org1MSP:peer" "peer"], ["1.0"; ""]).
Proof.
  intros H. transitivity (match ex_admitted with Ok req => ex_collected (endorse_invocation ex_config ex_stage Service.ex_collect req) | Err _ => ([], []) end).
  - by rewrite H.
  - vm_compute. reflexivity.
Qed.

Lemma ex_storable req result :
  ex_admitted = Ok req →
  endorse_invocation ex_config ex_stage Service.ex_collect req = Some (result, None) → storable result.
Proof.
  intros Hreq Hres. pose proof (ex_collected_ok req Hreq) as H. rewrite Hres in H. cbn [ex_collected] in H.
  injection H as He Hv Hm. split_and!.
  - rewrite He. constructor; [|constructor]. split; [discriminate|].
    exists ("Org1MSP", "peer"). vm_compute. reflexivity.
  - rewrite Hv. reflexivity.
  - intros x response Hx Hr.
    assert (Message response ∈ [""]) as ->%list_elem_of_singleton; [|reflexivity].
    rewrite <- Hm. apply list_elem_of_omap. exists (Some x). split; [done|]. cbn. by rewrite Hr.
Qed.

#[local] Notation ex_envelope := (Auth.mkEnvelope ex_out "alice").

Definition ex_submit : submit_env :=
  mkSubmitEnv 60 None None None None (Some Auth.ex_store, Some Auth.ex_store) (Some ∅)
    (Some (Ok [PolicyResolver.mkItem "ns" 1 "Org1MSP"])) 60 arm_done
    (newIdempotencyStore, newIdempotencyStore).

Lemma ex_times id : Msp.ValidateIdentityTime id 50 = Ok () → Msp.ValidateIdentityTime id 60 = Ok ().
Proof. by intros _. Qed.

(** What of the parsed transaction the second check reads. *)
Lemma ex_revision g :
  Packager.parseGatewayTransaction (Some ex_envelope) = Ok g →
  is_ok (check_revision ex_submit g) = true ∧ Namespace (Packager.gp_Request g) = "ns".
Proof.
  intros H.
  assert (Hall : match Packager.parseGatewayTransaction (Some ex_envelope) with
    | Ok g => is_ok (check_revision ex_submit g) && bool_decide (Namespace (Packager.gp_Request g) = "ns")
    | Err _ => false end = true) by (vm_compute; reflexivity).
  rewrite H in Hall. apply andb_prop in Hall as [Hrev Hns]. apply bool_decide_eq_true in Hns. by split.
Qed.

Lemma ex_still_good g :
  Packager.parseGatewayTransaction (Some ex_envelope) = Ok g →
  still_good ex_config ex_gateway ex_p ex_out "alice" ex_submit g.
Proof.
  intros [Hrev Hns]%ex_revision. split; [done| |done| |exact ex_times].
  - exists Auth.ex_verifier, ex_header, "Org1MSP:alice", ("Org1MSP", "alice").
    split_and!; vm_compute; reflexivity.
  - by rewrite Hns.
Qed.

Lemma ex_ordered end_ :
  ordered ex_config Service.ex_hash 10 Service.ex_submission newIdempotencyStore
    (begin 10 newIdempotencyStore ex_txid ("gateway-submit:" +:+ Service.ex_hash ex_out)).1 1
    ex_txid ex_out end_.
Proof.
  split; [vm_compute; reflexivity|vm_compute; reflexivity|apply Service.concurrent_id|done|vm_compute; reflexivity].
Qed.

Lemma endorsed_accepted_witness :
  ∃ s' r, Submit ex_event Service.ex_hash ex_config 10 ex_submit Service.ex_submission newIdempotencyStore
      (Some (submitted_request ex_request ex_out "alice")) = Some (s', Ok ()) ∧
    heap s' !! 1%positive = Some r ∧ handed r.
Proof.
  destruct (endorsed_accepted (CL := ex_client_laws) (LW := ex_packager_laws) (JL := Json.example_json_laws)
    ex_config ex_event Service.ex_hash ex_gateway ex_request ex_sp ex_p "transfer" ["a1"] ex_out "alice")
    as (g & Hg & _ & _ & Hall).
  - reflexivity.
  - reflexivity.
  - vm_compute. reflexivity.
  - exact ex_invokes.
  - exact ex_endorsed_ok.
  - exact ex_storable.
  - reflexivity.
  - destruct (Hall ex_submit 10 Service.ex_submission newIdempotencyStore _ 1%positive (ex_still_good g Hg) (ex_ordered _))
      as (s' & r & Hs & Hr & _ & _ & Hh).
    exists s', r. split; [exact Hs|]. split; [exact Hr|exact Hh].
Defined.

End Acceptance.
