(* ===== verification/Coordination.v ===== *)
(** How the orchestrators of several organizations coordinate a lifecycle change: the provider of
    lifecycle peers, [RemotePeers] of [orchestrator/service.go], over the resolvers of
    [RemoteResolver.v], together with the handlers of [LifecycleRPC.v] at both ends of each call.

    A remote orchestrator is a site: its server, the surroundings of the call and its store.  The
    theorems state what a commit that succeeds at one orchestrator says of the stores of the
    others. *)
From Stdlib Require Import ZArith Lia.
From stdpp Require Import base option list strings gmap sets relations.
From S2P Require Import Prelude LifecycleStore OrchestratorTypes GoStrings Json Msp LifecycleAuth LifecycleLedger.
From S2P Require Import Instances Collect Config Network ChaincodeResolver Package LifecycleRPC RemoteResolver.
Import Json LifecycleAuth.
Local Open Scope Z_scope.

Module Coordination.

(** ** The peers of a lifecycle definition *)

Section Peers.
Context {NL : Network.NetworkLib}.

(** The request of [RemotePeers]: the requester is the service's own organization when the caller
    names none. *)
Definition peers_request (channelID : string) (identity : option string) (requester : string)
    (def : Store.ChaincodeDefinition) : Collect.remoteOrchestratorResolveRequest :=
  let requester := if bool_decide (requester = "") then default requester identity else requester in
  Collect.mkResolveRequest requester "" channelID "" (Store.Name def) (Store.Version def) (Store.Sequence def).

(** [remotes] is nil in a service that no constructor made. *)
Definition RemotePeers (call : Ccr.ResolveRequest → result Ccr.ResolveResponse) (order : list string)
    (n : Network.net) (remotes : option Remote.resolvers) (req : Collect.remoteOrchestratorResolveRequest)
    : Network.net * option Remote.resolvers * option (result (list Remote.OrchestratorContact)) :=
  match remotes with
  | None => (n, None, Some (Ok []))
  | Some r =>
      let '(n, r, out) := Remote.RemotePeers call order n r req in (n, Some r, out)
  end.

(** The service as the peer provider of its lifecycle server, which consults it once in a call. *)
Definition provider (cl : Remote.lifecycle_client) (channelID : string) (identity : option string)
    (requester : string) (call : Ccr.ResolveRequest → result Ccr.ResolveResponse) (order : list string)
    (n : Network.net) (remotes : option Remote.resolvers) (def : Store.ChaincodeDefinition)
    : result (list RPC.RemotePeer) :=
  match (RemotePeers call order n remotes (peers_request channelID identity requester def)).2 with
  | Some (Ok l) => Ok (Remote.remote_peer cl <$> l)
  | Some (Err e) => Err e
  | None => Err (ENew "panic: assignment to entry in nil map")
  end.

(** ** Which organizations the resolvers find *)

(** The resolver service names an orchestrator of the organization. *)
Definition named (call : Ccr.ResolveRequest → result Ccr.ResolveResponse)
    (req : Collect.remoteOrchestratorResolveRequest) (m : string) : Prop :=
  ∃ out, call (Remote.resolve_request (Remote.with_target m req)) = Ok out ∧ Ccr.Found out = true ∧
    Remote.remoteOrchestratorCandidatesFromResponse m out ≠ Ok [].

(** The organization has a configured contact, or is one to resolve that the service names. *)
Definition finds (call : Ccr.ResolveRequest → result Ccr.ResolveResponse) (r : Remote.resolvers)
    (req : Collect.remoteOrchestratorResolveRequest) (m : string) : Prop :=
  (∃ st c rest, Remote.static r = Some st ∧ st !! m = Some (c :: rest)) ∨
  (∃ d, Remote.dynamic r = Some d ∧ m ∈ Remote.targetMSPIDs d ∧ named call req m).

(** A contact of [r] whose connection, made to its address, is open in [n]. *)
Definition reachable (n : Network.net) (c : Remote.OrchestratorContact) (p : Network.Peer) : Prop :=
  Remote.c_peer c = Some p ∧ Config.pc_Address (Network.peer_conf p) = Remote.c_address c ∧
  Network.peer_id p ∈ Network.opened n.

Lemma dynamic_Resolve_found call n d req n' d' found :
  Collect.TargetMSPID req ∈ Remote.targetMSPIDs d →
  Remote.dynamic_Resolve call n d req = (n', d', Some (Ok found)) →
  is_Some found ↔ ∃ out, call (Remote.resolve_request req) = Ok out ∧ Ccr.Found out = true ∧
    Remote.remoteOrchestratorCandidatesFromResponse (Collect.TargetMSPID req) out ≠ Ok [].
Proof.
  intros Ht. assert (Hallow : Remote.targetAllowed d (Collect.TargetMSPID req) = true).
  { apply existsb_exists. exists (Collect.TargetMSPID req). split; [by apply list_elem_of_In|].
    by apply bool_decide_eq_true_2. }
  unfold Remote.dynamic_Resolve. rewrite Hallow. cbn [negb].
  destruct (call (Remote.resolve_request req)) as [out|e]; [|done].
  destruct (Ccr.Found out) eqn:Hf; cbn [negb].
  2:{ intros [= <- <- <-]. split; [by intros []|]. intros (out' & [= <-] & Hf' & _). congruence. }
  destruct (Remote.remoteOrchestratorCandidatesFromResponse _ out) as [[|c cs]|e] eqn:Hc; [| |done].
  - intros [= <- <- <-]. split; [by intros []|]. by intros (out' & [= <-] & _ & []).
  - destruct (Remote.contacts_for _ _ _ _) as [[n1 d1] [[l|e]|]]; try done. intros [= <- <- <-].
    split; [|by eexists]. intros _. exists out. split_and!; [done..|]. by rewrite Hc.
Qed.

Lemma dynamic_peers_found base frame call req targets n d n' d' l :
  Remote.owns base n (frame ++ Remote.owned_dynamic d) → Remote.dyn_ok d → targets ⊆ Remote.targetMSPIDs d →
  Remote.dynamic_peers call n d targets req = (n', d', Some (Ok l)) →
  Forall (λ c, Remote.contact_ok c ∧ c ∈ Remote.dynamic_list d') l ∧
  ∀ m, m ∈ Remote.c_mspID <$> l ↔ m ∈ targets ∧ m ≠ Collect.RequesterMSPID req ∧ named call req m.
Proof.
  revert n d n' d' l. induction targets as [|t rest IH]; intros n d n' d' l Ho Hd Hsub H; cbn in H.
  { injection H as <- <- <-. split; [constructor|]. intros m.
    split; [by intros ?%not_elem_of_nil|intros [?%not_elem_of_nil _]; done]. }
  assert (Hrest : rest ⊆ Remote.targetMSPIDs d) by (intros x Hx; apply Hsub; by right).
  case_bool_decide as Ht.
  { destruct (IH n d n' d' l Ho Hd Hrest H) as [Hall Hin]. split; [done|]. intros m. rewrite Hin, elem_of_cons.
    naive_solver. }
  destruct (Remote.dynamic_Resolve call n d (Remote.with_target t req)) as [[n1 d1] o1] eqn:Hr.
  destruct (Remote.dynamic_Resolve_spec base frame call n d _ n1 d1 o1 Ho Hd Hr)
    as [(Ho1 & Hd1 & [Hs1 _] & Hl1) (r1 & -> & Hr1)].
  destruct r1 as [found|e]; [|done].
  apply dynamic_Resolve_found in Hr; [|apply Hsub; by left]. cbn [Remote.with_target Collect.TargetMSPID] in Hr.
  destruct (Remote.dynamic_peers call n1 d1 rest req) as [[n2 d2] [[l2|e]|]] eqn:Hp; try done.
  injection H as <- <- <-. rewrite <- Hs1 in Hrest.
  destruct (Remote.dynamic_peers_spec base frame call rest n1 d1 req n2 d2 _ Ho1 Hd1 Hp) as [(_ & _ & _ & Hl2) _].
  destruct (IH n1 d1 n2 d2 l2 Ho1 Hd1 Hrest Hp) as [Hall Hin].
  destruct found as [[|c cs]|].
  - by destruct (Hr1 [] eq_refl).
  - destruct (Hr1 (c :: cs) eq_refl) as (_ & _ & Hcs). apply Forall_inv in Hcs as (cand & (Hm & Hok & _) & Hc).
    change (option_list (Some (c :: cs) ≫= head) ++ l2) with (c :: l2).
    split; [constructor; [split; [done|by apply Hl2]|done]|].
    intros m. rewrite fmap_cons, !elem_of_cons, Hin, Hm. cbn [Remote.with_target Collect.TargetMSPID].
    assert (Hn : named call req t) by by apply Hr. naive_solver.
  - change (option_list (None ≫= head) ++ l2) with l2. split; [done|]. intros m. rewrite Hin, elem_of_cons.
    assert (Hn : ¬ named call req t) by (intros Hn; by destruct (proj2 Hr Hn)). naive_solver.
Qed.

Lemma static_peers_found st order req :
  Remote.static_ok st → order ≡ₚ Remote.keys st →
  Forall (λ c, Remote.contact_ok c ∧ c ∈ Remote.static_list st) (Remote.static_RemotePeers order st req) ∧
  ∀ m, m ∈ Remote.c_mspID <$> Remote.static_RemotePeers order st req ↔
    m ≠ Collect.RequesterMSPID req ∧ ∃ c rest, st !! m = Some (c :: rest).
Proof.
  intros Hok Hord. unfold Remote.static_RemotePeers, Remote.lifecycleRemoteCandidates.
  assert (Hkey : ∀ k x, st !! k = Some x → k ∈ order).
  { intros k x Hk. rewrite Hord. apply list_elem_of_fmap. exists (k, x). split; [done|]. by apply elem_of_map_to_list. }
  assert (Hhead : ∀ k c, head (default [] (st !! k)) = Some c →
    Remote.c_mspID c = k ∧ Remote.contact_ok c ∧ c ∈ Remote.static_list st ∧ ∃ rest, st !! k = Some (c :: rest)).
  { intros k c Hc. destruct (st !! k) as [[|c' rest]|] eqn:Hk; try done. injection Hc as ->.
    pose proof (Hok k _ Hk) as Hall. apply Forall_inv in Hall as [Hm Hcok]. split_and!; [done..| |by eexists].
    unfold Remote.static_list. apply list_elem_of_bind. exists (k, c :: rest).
    split; [by left|]. by apply elem_of_map_to_list. }
  split.
  - apply Forall_forall. intros c [_ Hc]%list_elem_of_filter.
    apply list_elem_of_omap in Hc as (k & _ & Hc). apply Hhead in Hc. by split_and!; apply Hc.
  - intros m. rewrite list_elem_of_fmap. split.
    + intros (c & -> & [Hne Hc]%list_elem_of_filter). apply list_elem_of_omap in Hc as (k & _ & Hc).
      apply Hhead in Hc as (<- & _ & _ & rest & Hk). split; [done|]. by exists c, rest.
    + intros (Hne & c & rest & Hk). exists c.
      assert (Hh : head (default [] (st !! m)) = Some c) by by rewrite Hk.
      destruct (Hhead m c Hh) as (Hm & _). split; [done|]. apply list_elem_of_filter.
      split; [by rewrite Hm|]. apply list_elem_of_omap. exists m. split; [|done]. by eapply Hkey.
Qed.

(** The peers are one or more reachable contacts of every other organization that the resolvers
    find, and of no other. *)
Lemma peers_found base n r call order req n' r' l :
  Remote.resolvers_ok base n r → (∀ st, Remote.static r = Some st → order ≡ₚ Remote.keys st) →
  Remote.RemotePeers call order n r req = (n', r', Some (Ok l)) →
  Forall (λ c, ∃ p, reachable n' c p) l ∧
  ∀ m, m ∈ Remote.c_mspID <$> l ↔ m ≠ Collect.RequesterMSPID req ∧ finds call r req m.
Proof.
  intros Hr Hord H.
  assert (Hr' : Remote.resolvers_ok base n' r').
  { eapply Remote.use_kept; [exact Hr|]. by eapply Remote.use_RemotePeers. }
  assert (Hopen : ∀ c, Remote.contact_ok c →
    (c ∈ from_option Remote.static_list [] (Remote.static r') ∨ c ∈ from_option Remote.dynamic_list [] (Remote.dynamic r')) →
    ∃ p, reachable n' c p).
  { intros c Hok Hc. pose proof (Remote.ro_owns _ _ _ Hr') as Ho. unfold Remote.owned in Ho. destruct Hc as [Hc|Hc].
    - destruct (Remote.static r') as [st|]; [|by apply not_elem_of_nil in Hc]. cbn [from_option] in Ho, Hc.
      eapply Remote.owns_perm in Ho; [|apply Permutation_app_comm].
      exact (Remote.contact_open base n' _ _ c Ho Hc Hok).
    - destruct (Remote.dynamic r') as [d|]; [|by apply not_elem_of_nil in Hc]. cbn [from_option] in Ho, Hc.
      unfold Remote.owned_dynamic in Ho. rewrite app_assoc in Ho.
      exact (Remote.contact_open base n' _ _ c Ho Hc Hok). }
  unfold Remote.RemotePeers in H. set (fixed := from_option _ [] (Remote.static r)) in H.
  assert (Hfixed : Forall (λ c, Remote.contact_ok c ∧ c ∈ from_option Remote.static_list [] (Remote.static r)) fixed ∧
    ∀ m, m ∈ Remote.c_mspID <$> fixed ↔
      m ≠ Collect.RequesterMSPID req ∧ ∃ st c rest, Remote.static r = Some st ∧ st !! m = Some (c :: rest)).
  { unfold fixed. destruct (Remote.static r) as [st|] eqn:Est; cbn [from_option].
    - destruct (static_peers_found st order req) as [Ha Hb]; [by apply (Remote.ro_static _ _ _ Hr)|by apply Hord|].
      split; [done|]. intros m. rewrite Hb. naive_solver.
    - split; [constructor|]. intros m. split; [by intros ?%not_elem_of_nil|naive_solver]. }
  destruct Hfixed as [Hfok Hfin].
  destruct (Remote.dynamic r) as [d|] eqn:Ed.
  2:{ injection H as <- <- <-. split.
      - eapply Forall_impl; [exact Hfok|]. intros c [Hok Hc].
      exact (Hopen c Hok (or_introl Hc)).
      - intros m. rewrite Hfin. unfold finds. rewrite Ed. naive_solver. }
  destruct (Remote.dynamic_RemotePeers call n d req) as [[n1 d1] [[dl|e]|]] eqn:Hp; try done.
  injection H as <- <- <-. destruct (Remote.dynamic_owned base n r d Hr Ed) as [Ho Hd].
  unfold Remote.dynamic_RemotePeers in Hp.
  destruct (dynamic_peers_found base _ call req _ n d n1 d1 dl Ho Hd (reflexivity _) Hp) as [Hdok Hdin].
  split.
  - apply Forall_app. split.
    + eapply Forall_impl; [exact Hfok|]. intros c [Hok Hc].
      exact (Hopen c Hok (or_introl Hc)).
    + apply Forall_forall. intros c [_ Hc]%list_elem_of_filter. rewrite Forall_forall in Hdok.
      destruct (Hdok c Hc) as [Hok Hl].
      exact (Hopen c Hok (or_intror Hl)).
  - intros m. unfold finds. rewrite Ed, fmap_app, elem_of_app, Hfin.
    assert (Hdl : m ∈ Remote.c_mspID <$> filter (λ c, Remote.c_mspID c ∉ map Remote.c_mspID fixed) dl ↔
      m ∉ Remote.c_mspID <$> fixed ∧ m ∈ Remote.c_mspID <$> dl).
    { rewrite !list_elem_of_fmap. setoid_rewrite list_elem_of_filter. split.
      - intros (c & -> & Hn & Hc). split; [|by exists c]. intros Hx. apply Hn. by apply list_elem_of_fmap.
      - intros (Hn & c & -> & Hc). exists c. split_and!; try done.
        intros Hx. apply Hn. by apply list_elem_of_fmap in Hx. }
    rewrite Hdl, Hfin, Hdin.
    destruct (decide (m ∈ Remote.c_mspID <$> fixed)) as [Hx|Hx]; rewrite Hfin in Hx; naive_solver.
Qed.

End Peers.

(** ** The orchestrators of the other organizations *)

Section Sites.
Context {NL : Network.NetworkLib} {J : JSONText} {L : Msp.MSPLib} {PL : Package.PackageLib} {PJ : RPC.PayloadJSON}.

(** The orchestrator behind a connection, when a call reaches it. *)
Record site := mkSite { s_server : RPC.Server; s_env : RPC.Env; s_store : Store.Store }.

Variable sites : Network.Peer → site.

(** The store of a site after an internal update. *)
Definition updated_store (p : Network.Peer) (initialized : bool) (req : SignedRequest) : option Store.Store :=
  let st := Some (s_store (sites p)) in
  if initialized then (RPC.MarkInitialized (s_server (sites p)) (s_env (sites p)) st (Some req)).1
  else (RPC.Commit (s_server (sites p)) (s_env (sites p)) st (Some req)).1.

(** The lifecycle client of a contact: the handlers of the site. *)
Definition client : Remote.lifecycle_client :=
  Remote.mkClient
    (λ p req, RPC.CheckCommitReadiness (s_server (sites p)) (s_env (sites p)) (Some (s_store (sites p))) (Some req))
    (λ p req, (RPC.Commit (s_server (sites p)) (s_env (sites p)) (Some (s_store (sites p))) (Some req)).2;; Ok ())
    (λ p req, (RPC.MarkInitialized (s_server (sites p)) (s_env (sites p)) (Some (s_store (sites p))) (Some req)).2;;
              Ok ()).

(** The JSON of the requests about a definition is read back. *)
Definition payloads_read (def : Store.ChaincodeDefinition) : Prop :=
  RPC.unmarshal_Definition (RPC.marshal_payload (CheckCommitReadinessRequest def)) = Ok def ∧
  RPC.unmarshal_Definition (RPC.marshal_payload (CommitRequest def)) = Ok def ∧
  RPC.unmarshal_Definition (RPC.marshal_payload (MarkInitializedRequest def)) = Ok def.

(** The deployment: the orchestrator at a contact's address is of the contact's organization. *)
Definition organized (l : list Remote.OrchestratorContact) : Prop :=
  ∀ c p, c ∈ l → Remote.c_peer c = Some p → RPC.srv_mspID (s_server (sites p)) = Remote.c_mspID c.

Lemma signRequest_fields signer channelID payload body internal now random req :
  signRequest signer channelID payload body internal now random = Ok req →
  Internal req = internal ∧ Payload req = body.
Proof.
  unfold signRequest. destruct signer as [sg|]; [|done]. destruct (bool_decide _); [done|]. destruct (_ || _); [done|].
  intros H. apply bind_ok in H as (creator & _ & H). apply bind_ok in H as (nonce & _ & H).
  by apply bind_ok in H as (sig & _ & [= <-]).
Qed.

(** What a site says of its organization when it is asked internally. *)
Lemma site_readiness p def req a :
  payloads_read def → Internal req = true → Payload req = RPC.marshal_payload (CheckCommitReadinessRequest def) →
  Remote.lc_CheckCommitReadiness client p req = Ok a →
  ∃ b, Store.HasMatchingApproval (s_store (sites p)) def (RPC.srv_mspID (s_server (sites p))) = Ok b ∧
    a = {[RPC.srv_mspID (s_server (sites p)) := b]}.
Proof.
  intros Hpay Hint Hbody H. cbn [client Remote.lc_CheckCommitReadiness] in H. unfold RPC.CheckCommitReadiness in H.
  apply bind_ok in H as ([msp def'] & Hv & H). apply RPC.verify_ok in Hv as (s & q & [= <-] & [= <-] & _ & _ & Hun).
  rewrite Hbody, (proj1 Hpay) in Hun. injection Hun as <-. cbn [from_option snd] in H. rewrite Hint in H.
  unfold RPC.checkCommitReadiness in H. apply bind_ok in H as (b & Hb & H).
  apply RPC.with_status_ok in Hb. exists b. split; [exact Hb|]. by injection H as <-.
Qed.

(** The approvals after the answers of sites. *)
Definition ballots (votes : list (string * bool)) : list (gmap string bool) := (λ x, {[x.1 := x.2]}) <$> votes.

Definition tally (known : gmap string bool) (votes : list (string * bool)) : gmap string bool :=
  foldl (λ k a, a ∪ k) known (ballots votes).

(** The last answer about an organization counts. *)
Lemma last_answer (l : list (string * bool)) (known : gmap string bool) m b :
  tally known l !! m = Some b →
  (m, b) ∈ l ∨ (m ∉ l.*1 ∧ known !! m = Some b).
Proof.
  revert known. induction l as [|[m' b'] l IH]; intros known.
  { intros H. right. split; [apply not_elem_of_nil|done]. }
  change (tally known ((m', b') :: l)) with (tally ({[m' := b']} ∪ known) l). intros H.
  apply IH in H as [H|[Hn H]]; [left; by right|].
  apply lookup_union_Some_raw in H as [H|[Hm H]].
  - apply lookup_singleton_Some in H as [<- <-]. left. by left.
  - right. split; [|done]. rewrite fmap_cons, elem_of_cons. intros [->|?]; [|done].
    by rewrite lookup_singleton_eq in Hm.
Qed.

Lemma fold_keeps (m : string) (l : list (string * bool)) (known : gmap string bool) :
  is_Some (known !! m) → is_Some (tally known l !! m).
Proof.
  revert known. induction l as [|x l IH]; intros known H; [done|].
  apply IH, lookup_union_is_Some. by right.
Qed.

Lemma fold_answers_dom (l : list (string * bool)) (known : gmap string bool) m :
  m ∈ l.*1 → is_Some (tally known l !! m).
Proof.
  revert known. induction l as [|[m' b'] l IH]; intros known; [by intros ?%not_elem_of_nil|].
  change (tally known ((m', b') :: l)) with (tally ({[m' := b']} ∪ known) l). rewrite fmap_cons.
  intros [->|H]%elem_of_cons; [|by apply IH]. apply fold_keeps, lookup_union_is_Some. left.
  rewrite lookup_singleton_eq. by eexists.
Qed.

(** The answers of reachable contacts are those of their sites. *)
Lemma readiness_of_sites n l def req answers :
  payloads_read def → Internal req = true → Payload req = RPC.marshal_payload (CheckCommitReadinessRequest def) →
  organized l → Forall (λ c, ∃ p, reachable n c p) l →
  Forall2 (λ remote a, RPC.peer_CheckCommitReadiness remote req = Ok a) (Remote.remote_peer client <$> l) answers →
  ∃ votes, answers = ballots votes ∧ votes.*1 = Remote.c_mspID <$> l ∧
    ∀ m b, (m, b) ∈ votes → ∃ c p, c ∈ l ∧ Remote.c_mspID c = m ∧ reachable n c p ∧
      Store.HasMatchingApproval (s_store (sites p)) def m = Ok b.
Proof.
  intros Hpay Hint Hbody Horg Hreach. revert answers. induction Hreach as [|c l (p & Hp) _ IH]; intros answers H.
  { apply Forall2_nil_inv_l in H as ->. exists []. split_and!; [done..|]. by intros m b ?%not_elem_of_nil. }
  rewrite fmap_cons in H. apply Forall2_cons_inv_l in H as (a & answers' & Ha & H & ->).
  destruct (IH (λ c p Hc, Horg c p (list_elem_of_further _ _ _ Hc)) answers' H) as (votes & -> & Hn & Hv).
  cbn [Remote.remote_peer RPC.peer_CheckCommitReadiness] in Ha.
  unfold Remote.CheckCommitReadiness, Remote.contact_call in Ha. rewrite (proj1 Hp) in Ha.
  destruct (Remote.lc_CheckCommitReadiness client p req) as [a'|e] eqn:Hc; [|done]. injection Ha as ->.
  destruct (site_readiness p def req a Hpay Hint Hbody Hc) as (b & Hb & ->).
  rewrite (Horg c p) in Hb |- * by (first [by left | apply Hp]).
  exists ((Remote.c_mspID c, b) :: votes). split_and!; [done|by rewrite !fmap_cons, Hn|].
  intros m' b' [[= -> ->]|Hin]%elem_of_cons.
  - exists c, p. split_and!; [by left|done..].
  - destruct (Hv m' b' Hin) as (c' & p' & Hc' & Hr). exists c', p'. split; [by right|done].
Qed.

(** ** Mirrors *)

(** The store shows the definition, or a later one of its name. *)
Definition shows (s : Store.Store) (def : Store.ChaincodeDefinition) (initialized : bool) : Prop :=
  ∃ d i, Store.committed_view s (Store.Name def) = Some (d, i) ∧
    (Store.Sequence def < Store.Sequence d ∨ d = def ∧ (initialized = true → i = true)).

Lemma upsert_shows now s def init s' c :
  Store.store_ok s → now ≠ "" → Store.UpsertCommittedFromLedger now s def init = (s', Ok c) → shows s' def init.
Proof.
  intros Hs Hnow Hu.
  assert (Hv : Store.validateDefinition def = Ok ()).
  { unfold Store.UpsertCommittedFromLedger in Hu. destruct (Store.validateDefinition def) as [[]|]; done. }
  assert (Hconf : ∀ d i, Store.committed_view s (Store.Name def) = Some (d, i) →
    Store.Sequence d = Store.Sequence def → d = def).
  { intros d i Hview Hseq. unfold Store.UpsertCommittedFromLedger in Hu. rewrite Hv in Hu.
    cbn [mbind result_mbind] in Hu. pose proof (proj1 (Store.validateDefinition_ok _ _) Hv) as (Hn & _ & _).
    rewrite Store.GetCommitted_view in Hu by done. unfold Store.committed_view in Hview.
    destruct (Store.committed_definitions s !! Store.Name def) as [row|]; [|done].
    assert (Hd : Store.com_Definition (Store.scanCommitted (Store.Name def) row) = d) by (by injection Hview).
    cbn [fmap option_fmap option_map] in Hu. rewrite Hd, Hseq in Hu.
    rewrite Z.gtb_ltb, Z.ltb_irrefl, Z.eqb_refl in Hu.
    destruct (Store.definitionMatches d def) eqn:Hm; [|done]. by apply Store.definitionMatches_eq in Hm. }
  pose proof (Store.upsert_join now s def init Hs Hnow Hv Hconf (Store.Name def)) as Hj.
  rewrite Hu, decide_True in Hj by done. cbn [fst] in Hj. unfold shows. rewrite Hj.
  destruct (Store.committed_view s (Store.Name def)) as [[d i]|] eqn:Hview; cbn [Store.join_view].
  - destruct (Z.gtb_spec (Store.Sequence d) (Store.Sequence def)).
    + exists d, i. split; [done|]. by left.
    + destruct (Z.eqb_spec (Store.Sequence d) (Store.Sequence def)) as [E|E].
      * exists d, (i || init). split; [done|]. right. split; [by eapply Hconf|]. intros ->. apply orb_true_r.
      * exists def, init. split; [done|]. by right.
  - exists def, init. split; [done|]. by right.
Qed.

Lemma apply_shows srv env s def init s' c :
  Store.store_ok s → RPC.e_time env ≠ "" → RPC.applyLedgerDefinition srv env s def init = (s', Ok c) →
  shows s' def init.
Proof.
  intros Hs Ht. unfold RPC.applyLedgerDefinition. destruct (RPC.srv_ledgerCommitter srv) as [b|]; [|done].
  destruct (RPC.ReadLifecycleDefinition b def) as [[l|]|e]; [|done|done].
  destruct (_ || _) eqn:E; [done|]. bool_props.
  destruct (Store.UpsertCommittedFromLedger _ _ _ _) as [s1 [c1|e1]] eqn:Hu; [|done]. intros [= <- <-].
  destruct (upsert_shows _ _ _ _ _ _ Hs Ht Hu) as (d & i & Hview & [Hlt|[-> Hi]]).
  - exists d, i. split; [done|]. by left.
  - exists def, i. split; [done|]. right. split; [done|]. intros ->. apply Hi. by destruct (Ledger.ld_Initialized l).
Qed.

(** A site that accepts an update shows the definition afterwards. *)
Lemma site_updated p def (initialized : bool) req :
  payloads_read def → Internal req = true →
  Payload req = RPC.marshal_payload (if initialized then MarkInitializedRequest def else CommitRequest def) →
  Store.store_ok (s_store (sites p)) → RPC.e_time (s_env (sites p)) ≠ "" →
  (if initialized then Remote.lc_MarkInitialized client p req else Remote.lc_Commit client p req) = Ok () →
  ∃ st, updated_store p initialized req = Some st ∧ shows st def initialized.
Proof.
  intros (_ & Hcommit & Hmark) Hint Hbody Hok Ht. unfold updated_store. cbn [client Remote.lc_MarkInitialized Remote.lc_Commit].
  destruct (sites p) as [srv' env' st']. cbn [s_server s_env s_store] in *.
  destruct initialized; [unfold RPC.MarkInitialized|unfold RPC.Commit];
    destruct (RPC.verifyAndUnmarshal _ _ _ _ _ _) as [[msp def']|e] eqn:Hv; try done;
    apply RPC.verify_ok in Hv as (s & q & [= <-] & [= <-] & _ & _ & Hun);
    rewrite Hbody, ?Hcommit, ?Hmark in Hun; injection Hun as <-;
    cbn [from_option]; rewrite ?Hint;
    match goal with |- context [RPC.applyLedgerDefinition ?a ?b ?c ?d ?e] =>
      destruct (RPC.applyLedgerDefinition a b c d e) as [s1 [com|er]] eqn:Ha end; try done; intros _;
    exists s1; (split; [done|]); by apply apply_shows in Ha.
Qed.

(** ** Properties *)

(** An orchestrator of [channelID], with the resolvers [r] on the connections of [n] and a lifecycle
    server that gets its peers from them. *)
Record coordinator (base n : Network.net) (r : Remote.resolvers)
    (call : Ccr.ResolveRequest → result Ccr.ResolveResponse) (order : list string) (channelID : string)
    (identity : option string) (srv : RPC.Server) : Prop := mkCoordinator {
  co_resolvers : Remote.resolvers_ok base n r;
  co_order : ∀ st, Remote.static r = Some st → order ≡ₚ Remote.keys st;
  co_msp : RPC.srv_mspID srv ≠ "";
  co_provider : RPC.srv_remotes srv =
    Some (provider client channelID identity (RPC.srv_mspID srv) call order n (Some r)) }.

Section Coordinator.
Variable base n : Network.net.
Variable r : Remote.resolvers.
Variable call : Ccr.ResolveRequest → result Ccr.ResolveResponse.
Variable order : list string.
Variable channelID : string.
Variable identity : option string.
Variable srv : RPC.Server.

(** What the service asks its resolvers for a definition, and the outcome. *)
Definition asks (def : Store.ChaincodeDefinition) : Collect.remoteOrchestratorResolveRequest :=
  peers_request channelID identity (RPC.srv_mspID srv) def.

Definition resolved (def : Store.ChaincodeDefinition)
    : Network.net * option Remote.resolvers * option (result (list Remote.OrchestratorContact)) :=
  RemotePeers call order n (Some r) (asks def).

(** The requests about the definition are read back and every contact is of its organization. *)
Definition deployed (def : Store.ChaincodeDefinition) : Prop :=
  payloads_read def ∧ ∀ l, (resolved def).2 = Some (Ok l) → organized l.

(** The peers that the server gets are reachable contacts of the organizations found. *)
Lemma provided def remotes :
  coordinator base n r call order channelID identity srv → RPC.remotePeers srv def = Ok remotes →
  ∃ l, (resolved def).2 = Some (Ok l) ∧ remotes = Remote.remote_peer client <$> l ∧
    Forall (λ c, ∃ p, reachable (resolved def).1.1 c p) l ∧
    ∀ m, m ∈ Remote.c_mspID <$> l ↔ m ≠ RPC.srv_mspID srv ∧ finds call r (asks def) m.
Proof.
  intros [Hr Hord Hmsp Hprov]. unfold RPC.remotePeers. rewrite Hprov. unfold provider.
  fold (asks def). fold (resolved def).
  destruct (resolved def).2 as [[l|e]|] eqn:Hout; intros H; try done. injection H as <-.
  exists l. split; [done|]. split; [done|].
  unfold resolved, RemotePeers in Hout |- *.
  destruct (Remote.RemotePeers call order n r (asks def)) as [[n1 r1] o1] eqn:Hp. cbn in Hout |- *. subst o1.
  apply (peers_found base) in Hp as [H1 H2]; [|done..]. split; [done|]. intros m. rewrite H2.
  unfold asks, peers_request. cbn [Collect.RequesterMSPID]. by rewrite bool_decide_eq_false_2 by done.
Qed.

(** C5: A public commit succeeds only with the approval of everyone it can find: the definition is
    approved in the store of this organization, and in the store of an orchestrator of every
    other organization that is configured statically or that the resolver service names, reached
    over an open connection to the contact's address.  One refusal, or one contact that cannot be
    asked, is enough to stop it. *)
Theorem commit_unanimous env s req st' committed approvals ledger :
  coordinator base n r call order channelID identity srv →
  (∀ def, RPC.unmarshal_Definition (Payload req) = Ok def → deployed def) →
  RPC.Commit srv env (Some s) (Some req) = (st', Ok (committed, Some (approvals, ledger))) →
  ∃ def, RPC.unmarshal_Definition (Payload req) = Ok def ∧
    Store.HasMatchingApproval s def (RPC.srv_mspID srv) = Ok true ∧
    ∀ m, m ≠ RPC.srv_mspID srv → finds call r (asks def) m →
      ∃ c p, Remote.c_mspID c = m ∧ reachable (resolved def).1.1 c p ∧
        Store.HasMatchingApproval (s_store (sites p)) def m = Ok true.
Proof.
  intros Hco Hdep H. unfold RPC.Commit in H.
  destruct (RPC.verifyAndUnmarshal _ _ _ _ _ _) as [[msp def]|e] eqn:Hv; [|done].
  apply RPC.verify_ok in Hv as (s0 & q & [= <-] & [= <-] & _ & _ & Hun). cbn [from_option] in H.
  destruct (Hdep def Hun) as [Hpay Horg]. exists def. split; [done|].
  destruct (Internal req); [by destruct (RPC.applyLedgerDefinition srv env s def false) as [? [|]]|].
  destruct (RPC.commit_public srv env s def) as [s1 [[[c a] lg]|e]] eqn:Hpub; [|done].
  apply RPC.commit_public_checked in Hpub as (Hready & Hall & _). clear H.
  unfold RPC.checkCommitReadiness in Hready. apply bind_ok in Hready as (own & Hown & Hready).
  apply RPC.with_status_ok in Hown. cbn [negb] in Hready.
  apply bind_ok in Hready as (remotes & Hrem & Hready). apply bind_ok in Hready as (internal & Hsign & Hready).
  apply RPC.with_status_ok, signRequest_fields in Hsign as [Hint Hbody].
  apply RPC.remote_readiness_answers in Hready as (answers & Hans & ->).
  destruct (provided def remotes Hco Hrem) as (l & Hout & -> & Hreach & Hin).
  destruct (readiness_of_sites _ l def internal answers Hpay Hint Hbody (Horg l Hout) Hreach Hans)
    as (votes & -> & Hnames & Hvotes).
  change (foldl _ _ (ballots votes)) with (tally {[RPC.srv_mspID srv := own]} votes) in Hall.
  assert (Hvote : ∀ m b, tally {[RPC.srv_mspID srv := own]} votes !! m = Some b → b = true) by (intros m b Hb; by apply (Hall m)).
  split.
  - rewrite Hown. f_equal.
    assert (Hself : RPC.srv_mspID srv ∉ votes.*1) by (rewrite Hnames, Hin; naive_solver).
    apply (Hvote (RPC.srv_mspID srv)).
    destruct (tally _ _ !! RPC.srv_mspID srv) as [b|] eqn:Hb.
    + pose proof Hb as [Hx|[_ Hx]]%last_answer.
      * by destruct Hself; apply (list_elem_of_fmap_2 fst) in Hx.
      * by rewrite lookup_singleton_eq in Hx.
    + destruct (fold_keeps (RPC.srv_mspID srv) votes {[RPC.srv_mspID srv := own]}) as [b Hb'];
        [rewrite lookup_singleton_eq; by eexists|congruence].
  - intros m Hne Hfind.
    assert (Hm : m ∈ votes.*1) by (rewrite Hnames; apply Hin; done).
    destruct (fold_answers_dom votes {[RPC.srv_mspID srv := own]} m Hm) as [b Hb].
    pose proof (Hvote m b Hb) as ->. apply last_answer in Hb as [Hb|[Hn _]]; [|done].
    destruct (Hvotes m true Hb) as (c' & p & _ & Hcm & Hp & Happ). by exists c', p.
Qed.

(** C18: A propagation that finishes leaves the organizations agreed: the mirror of this orchestrator
    and that of every other organization's that the resolvers find, as it is after the update it
    accepted, show the definition or a later one of its name, and show it initialized when that
    is what was propagated. *)
Theorem mirrors_agree env s def (initialized : bool) s' p' c :
  coordinator base n r call order channelID identity srv → deployed def →
  Store.store_ok s → RPC.e_time env ≠ "" →
  (∀ p, Store.store_ok (s_store (sites p)) ∧ RPC.e_time (s_env (sites p)) ≠ "") →
  RPC.ReconcileDefinition srv env s def initialized (RPC.mkPropagation false []) = (s', p', Ok c) →
  shows s' def initialized ∧
  ∀ m, m ≠ RPC.srv_mspID srv → finds call r (asks def) m →
    ∃ ct p internal st, Remote.c_mspID ct = m ∧ reachable (resolved def).1.1 ct p ∧
      RPC.SignInternalRequest srv env (if initialized then MarkInitializedRequest def else CommitRequest def) =
        Ok internal ∧
      updated_store p initialized internal = Some st ∧ shows st def initialized.
Proof.
  intros Hco [Hpay _] Hs Ht Hsites H. apply RPC.reconcile_all in H as (Ha & remotes & Hrem & Hall).
  split; [by apply apply_shows in Ha|]. intros m Hne Hfind.
  destruct (provided def remotes Hco Hrem) as (l & _ & -> & Hreach & Hin).
  assert (Hm : m ∈ Remote.c_mspID <$> l) by (apply Hin; done).
  apply list_elem_of_fmap in Hm as (ct & -> & Hct).
  destruct (Hall (Remote.remote_peer client ct)) as (remotes' & remote & internal & Hrem' & Hr & Hmsp & Hsign & Hacc);
    [by apply list_elem_of_fmap_2|].
  rewrite Hrem in Hrem'. injection Hrem' as <-. apply list_elem_of_fmap in Hr as (ct' & -> & Hct').
  rewrite Forall_forall in Hreach. destruct (Hreach ct' Hct') as [p Hp].
  pose proof (signRequest_fields _ _ _ _ _ _ _ _ Hsign) as [Hint Hbody]. destruct (Hsites p) as [Hok Htime].
  destruct (site_updated p def initialized internal Hpay Hint Hbody Hok Htime) as (st & Hst & Hshow).
  { unfold Remote.remote_peer, RPC.peer_MarkInitialized, RPC.peer_Commit, Remote.MarkInitialized, Remote.Commit,
      Remote.contact_call in Hacc. rewrite (proj1 Hp) in Hacc.
    destruct initialized; repeat case_match; by simplify_eq. }
  by exists ct', p, internal, st.
Qed.

End Coordinator.

End Sites.

(** ** Concrete instances *)

(** Three organizations: the second is configured, the third is resolved. *)
#[local] Existing Instances example_json Ccr.ex_network Instances.example_msp Package.example_lib RPC.example_payload.

Definition ex_sites (p : Network.Peer) : site :=
  let msp := if bool_decide (Config.pc_Address (Network.peer_conf p) = "org2:7051") then "Org2MSP" else "Org3MSP" in
  mkSite
    (RPC.mkServer "mychannel" (Some RPC.ex_caller) None msp (Some RPC.ex_backend) None)
    RPC.ex_env (Store.ApproveForMyOrg "t1" Store.ex_installed Store.ex_def "basic:ab12" msp).1.

#[local] Notation ex_net := (Remote.ex_new.1).
#[local] Notation ex_resolvers :=
  (match Remote.ex_new.2 with Ok r => r | Err _ => Remote.mkResolvers None None end).

Definition ex_coordinator (call : Ccr.ResolveRequest → result Ccr.ResolveResponse) : RPC.Server :=
  RPC.mkServer "mychannel" (Some RPC.ex_caller)
    (Some (mkSigner (Ok "Org1MSP:orch") (λ _, Ok "orch"))) "Org1MSP" (Some RPC.ex_backend)
    (Some (provider (client ex_sites) "mychannel" (Some "Org1MSP") "Org1MSP" call ["Org2MSP"]
             ex_net (Some ex_resolvers))).

Lemma ex_coordinated call :
  coordinator ex_sites Network.no_connections ex_net ex_resolvers call ["Org2MSP"] "mychannel"
    (Some "Org1MSP") (ex_coordinator call).
Proof.
  assert (E : Remote.ex_new = (ex_net, Ok ex_resolvers)) by (vm_compute; reflexivity).
  constructor; [| |discriminate|reflexivity].
  - apply (Remote.new_resolvers_spec _ Remote.ex_remote_config [] _ (Ok ex_resolvers)); [constructor|exact Remote.ex_plain|].
    exact E.
  - intros st Hst. assert (Hk : Remote.keys <$> Remote.static ex_resolvers = Some ["Org2MSP"]) by (vm_compute; reflexivity).
    rewrite Hst in Hk. injection Hk as Hk. by rewrite Hk.
Qed.

Lemma ex_deployed def :
  def = Store.ex_def →
  deployed ex_sites ex_net ex_resolvers Remote.ex_remote_call ["Org2MSP"] "mychannel"
    (Some "Org1MSP") (ex_coordinator Remote.ex_remote_call) def.
Proof.
  intros ->. split; [done|]. intros l Hl. vm_compute in Hl. injection Hl as <-.
  intros c p Hc Hp. repeat (apply elem_of_cons in Hc as [->|Hc]; [injection Hp as <-; vm_compute; reflexivity|]).
  by apply not_elem_of_nil in Hc.
Qed.

Lemma ex_finds_resolved def :
  finds Remote.ex_remote_call ex_resolvers
    (asks "mychannel" (Some "Org1MSP") (ex_coordinator Remote.ex_remote_call) def) "Org3MSP".
Proof.
  right. eexists. split; [vm_compute; reflexivity|]. split; [by left|].
  eexists. split; [reflexivity|]. split; [reflexivity|]. discriminate.
Qed.

Lemma commit_unanimous_witness :
  ∃ c p, Remote.c_mspID c = "Org3MSP" ∧ Remote.c_peer c = Some p ∧
    Store.HasMatchingApproval (s_store (ex_sites p)) Store.ex_def "Org3MSP" = Ok true.
Proof.
  destruct (RPC.Commit (ex_coordinator Remote.ex_remote_call) RPC.ex_env
    (Some Store.ex_approved) (Some RPC.ex_commit)) as [st' out] eqn:E.
  assert (Hr : match out with Ok (_, Some _) => True | _ => False end).
  { apply (f_equal snd) in E. cbn [snd] in E. rewrite <- E. vm_compute. exact I. }
  destruct out as [[committed [[approvals ledger]|]]|]; [|destruct Hr..].
  destruct (commit_unanimous ex_sites Network.no_connections ex_net ex_resolvers
    Remote.ex_remote_call ["Org2MSP"] "mychannel" (Some "Org1MSP") (ex_coordinator Remote.ex_remote_call)
    RPC.ex_env Store.ex_approved RPC.ex_commit st' committed approvals ledger
    (ex_coordinated _) (λ def Hdef, ex_deployed def (eq_sym (f_equal (λ r, match r with Ok d => d | Err _ => def end) Hdef))) E)
    as (def & Hdef & _ & Hall).
  injection Hdef as <-.
  destruct (Hall "Org3MSP" ltac:(discriminate) (ex_finds_resolved _)) as (c & p & Hc & (Hp & _) & Happ).
  exists c, p. split; [exact Hc|]. split; [exact Hp|exact Happ].
Defined.

Lemma ex_store_ok msp :
  Store.store_ok (Store.ApproveForMyOrg "t1" Store.ex_installed Store.ex_def "basic:ab12" msp).1.
Proof.
  apply Store.reachable_store_ok. eapply Store.reachable_step; [apply Store.ex_installed_reachable|].
  apply Store.step_Approve.
Qed.

Lemma ex_sites_ok p : Store.store_ok (s_store (ex_sites p)) ∧ RPC.e_time (s_env (ex_sites p)) ≠ "".
Proof. split; [apply ex_store_ok|discriminate]. Qed.

Lemma mirrors_agree_witness :
  ∃ p st, Network.peer_id p ∈ Network.opened (resolved ex_net ex_resolvers Remote.ex_remote_call ["Org2MSP"]
      "mychannel" (Some "Org1MSP") (ex_coordinator Remote.ex_remote_call) Store.ex_def).1.1 ∧
    shows st Store.ex_def false.
Proof.
  destruct (RPC.ReconcileDefinition (ex_coordinator Remote.ex_remote_call) RPC.ex_env
    Store.ex_approved Store.ex_def false (RPC.mkPropagation false [])) as [[s' p'] out] eqn:E.
  assert (Hr : is_ok out = true).
  { apply (f_equal (λ x, is_ok x.2)) in E. cbn [snd] in E. rewrite <- E. vm_compute. reflexivity. }
  destruct out as [com|]; [|discriminate Hr].
  destruct (mirrors_agree ex_sites Network.no_connections ex_net ex_resolvers
    Remote.ex_remote_call ["Org2MSP"] "mychannel" (Some "Org1MSP") (ex_coordinator Remote.ex_remote_call)
    RPC.ex_env Store.ex_approved Store.ex_def false s' p' com (ex_coordinated _) (ex_deployed _ eq_refl)
    (ex_store_ok "Org1MSP") ltac:(discriminate)
    ex_sites_ok E) as [_ Hall].
  destruct (Hall "Org3MSP" ltac:(discriminate) (ex_finds_resolved _))
    as (ct & p & internal & st & _ & (_ & _ & Hopen) & _ & _ & Hshow).
  exists p, st. split; [exact Hopen|exact Hshow].
Defined.

(** An organization to resolve that the service does not name is not asked: the commit succeeds
    with the others' approval. *)
Lemma unnamed_not_asked :
  let call (_ : Ccr.ResolveRequest) := Ok (Ccr.mkResolveResponse false "" "" "" 0 []) in
  match (RPC.Commit (ex_coordinator call) RPC.ex_env (Some Store.ex_approved) (Some RPC.ex_commit)).2 with
  | Ok (_, Some (approvals, _)) => Some approvals
  | _ => None
  end = Some (<["Org2MSP" := true]> {["Org1MSP" := true]}).
Proof. vm_compute. reflexivity. Qed.

End Coordination.
