(* ===== verification/LifecycleCLI.v ===== *)
(** The lifecycle commands, [pkg/lifecycle/cli/command.go], with the client stubs of
    [pkg/lifecycle/rpc.go] they call.

    A command is a value of [Command], as its flags leave it; parsing the command line is the
    command library's.  Reading the configuration, the signer, the clock and the random source are
    in [cli_env].  The other end of a connection is [ClientConn], over a state of its own, so that
    a command can be composed with the server of [LifecycleRPC.v].  No command prints before it
    fails, so a command's outcome is its output or its error. *)
From Stdlib Require Import ZArith Lia Ascii.
From stdpp Require Import base option list sorting strings gmap.
From S2P Require Import Prelude LifecycleStore OrchestratorTypes GoStrings Json Msp LifecycleAuth Config.
From S2P Require Import Collect Network Package PackageBuild LifecycleRPC.
Import Json LifecycleAuth.
Local Open Scope Z_scope.

Module Cli.

(** ** The client *)

Record CommitResponse := mkCommitResponse {
  cr_Definition : Store.CommittedDefinition;
  cr_Approvals : gmap string bool;
  cr_Ledger : RPC.LedgerCommitResult }.

(** What invoking each method of the service over a connection does to the other side. *)
Record ClientConn (S : Type) := mkConn {
  invoke_Install : S → SignedRequest → S * result Store.InstalledPackage;
  invoke_QueryInstalled : S → SignedRequest → S * result (list (string * string));
  invoke_ApproveForMyOrg : S → SignedRequest → S * result Store.ApprovedDefinition;
  invoke_CheckCommitReadiness : S → SignedRequest → S * result (gmap string bool);
  invoke_Commit : S → SignedRequest → S * result CommitResponse;
  invoke_QueryCommitted : S → SignedRequest → S * result (list Store.CommittedDefinition) }.
Arguments mkConn {S}.
Arguments invoke_Install {S}.
Arguments invoke_QueryInstalled {S}.
Arguments invoke_ApproveForMyOrg {S}.
Arguments invoke_CheckCommitReadiness {S}.
Arguments invoke_Commit {S}.
Arguments invoke_QueryCommitted {S}.

Record Client (S : Type) := mkClient { conn : ClientConn S; channelID : string }.
Arguments mkClient {S}.
Arguments conn {S}.
Arguments channelID {S}.

Definition Install {S} (c : Client S) := invoke_Install (conn c).
Definition QueryInstalled {S} (c : Client S) := invoke_QueryInstalled (conn c).
Definition ApproveForMyOrg {S} (c : Client S) := invoke_ApproveForMyOrg (conn c).
Definition CheckCommitReadiness {S} (c : Client S) := invoke_CheckCommitReadiness (conn c).
Definition Commit {S} (c : Client S) := invoke_Commit (conn c).
Definition QueryCommitted {S} (c : Client S) := invoke_QueryCommitted (conn c).

(** ** Configuration *)

(** The protocol is read and not used. *)
Record clientConfig := mkClientConfig {
  ChannelID : string;
  Protocol : string;
  Identity : option Config.IdentityConfig;
  Orchestrator : option Config.ClientConfig }.

(** [host == "" || port <= 0] after [net.SplitHostPort] and [strconv.Atoi]. *)
Definition parseHostEndpoint (value : string) : result Config.Endpoint :=
  match GoStrings.SplitHostPort value with
  | Err _ => Err (ENew "invalid host %q: expected host:port")
  | Ok (host, portValue) =>
      match GoStrings.ParseInt portValue with
      | Err _ => Err (ENew "invalid host %q: port must be numeric")
      | Ok port =>
          if bool_decide (host = "") || (port <=? 0)
          then Err (ENew "invalid host %q: expected host:port")
          else Ok (Config.mkEndpoint host port)
      end
  end.

(** What a command meets outside the repository.  [ce_ReadConfig] and [ce_Unmarshal] are the
    configuration parser's two steps on the text of the file. *)
Record cli_env := mkCliEnv {
  ce_config : string;
  ce_host : string;
  ce_Open : string → result bytes;
  ce_ReadConfig : bytes → option goerr;
  ce_Unmarshal : bytes → result clientConfig;
  ce_SignerFromMSP : string → string → result Signer;
  ce_stat : string → result Build.node;
  ce_now : Z;
  ce_random : result bytes }.

Definition with_endpoint (e : Config.Endpoint) (c : option Config.ClientConfig) : Config.ClientConfig :=
  Config.mkClientConfig (Some e) (from_option Config.cl_TLS Config.no_tls c).

Definition with_orchestrator (c : Config.ClientConfig) (cfg : clientConfig) : clientConfig :=
  mkClientConfig (ChannelID cfg) (Protocol cfg) (Identity cfg) (Some c).

(** The [--host] flag replaces the endpoint and keeps the rest of the client's settings. *)
Definition apply_host (host : string) (cfg : clientConfig) : result clientConfig :=
  if bool_decide (host = "") then Ok cfg
  else
    endpoint ← parseHostEndpoint host;
    Ok (with_orchestrator (with_endpoint endpoint (Orchestrator cfg)) cfg).

Definition loadClientConfig (env : cli_env) : result clientConfig :=
  guard_err (bool_decide (ce_config env = "")) (ENew "config is required");;
  f ← Msp.wrap_err "open config: %w" (ce_Open env (ce_config env));
  match ce_ReadConfig env f with
  | Some e => Err (EWrap "read config: %w" e)
  | None =>
      cfg ← Msp.wrap_err "invalid config: %w" (ce_Unmarshal env f);
      guard_err (bool_decide (ChannelID cfg = "")) (ENew "channel-id is required");;
      guard_err (Config.is_nil (Identity cfg)) (ENew "identity is required");;
      cfg ← apply_host (ce_host env) cfg;
      guard_err (Config.is_nil (Orchestrator cfg ≫= Config.cl_Endpoint)) (ENew "host is required");;
      Ok cfg
  end.

(** ** Output *)

Definition newline : string := String (GoStrings.byte_at 10) "".

(** [fmt.Fprintf(w, key=%s, value)] with a newline after it. *)
Definition line (key value : string) : string := key +:+ "=" +:+ value +:+ newline.

(** [%t]. *)
Definition format_bool (b : bool) : string := if b then "true" else "false".

Definition printPackage (p : Store.InstalledPackage) : string :=
  line "package_id" (Store.pkg_PackageID p) +:+ line "label" (Store.pkg_Label p) +:+
  line "type" (Store.pkg_Type p) +:+ line "address" (Store.pkg_Address p) +:+
  line "installed_by_msp" (Store.pkg_InstalledByMSP p) +:+
  line "installed_at" (Store.pkg_InstalledAt p).

(** A summary is the label and the package ID. *)
Definition printPackageSummary (p : string * string) : string :=
  line "package_id" p.2 +:+ line "label" p.1.

Definition printDefinition (d : Store.ChaincodeDefinition) : string :=
  line "name" (Store.Name d) +:+ line "version" (Store.Version d) +:+
  line "sequence" (GoStrings.FormatInt (Store.Sequence d)) +:+
  line "init_required" (format_bool (Store.InitRequired d)).

Definition printApproval (a : Store.ApprovedDefinition) : string :=
  printDefinition (Store.app_Definition a) +:+ line "package_id" (Store.app_PackageID a) +:+
  line "package_address" (Store.app_PackageAddress a) +:+
  line "approving_msp" (Store.app_ApprovingMSP a) +:+
  line "approved_at" (Store.app_ApprovedAt a).

Definition printCommitted (c : Store.CommittedDefinition) : string :=
  printDefinition (Store.com_Definition c) +:+
  line "initialized" (format_bool (Store.com_Initialized c)) +:+
  line "committed_at" (Store.com_CommittedAt c).

Definition printLedgerCommit (l : RPC.LedgerCommitResult) : string :=
  line "ledger_tx_id" (RPC.lc_TxID l) +:+ line "ledger_status" (RPC.lc_Status l) +:+
  line "ledger_block_num" (GoStrings.FormatUint (RPC.lc_BlockNum l)) +:+
  line "ledger_tx_num" (GoStrings.FormatUint (RPC.lc_TxNum l)) +:+
  line "ledger_namespace" (RPC.lc_Namespace l) +:+ line "ledger_key" (RPC.lc_Key l).

Fixpoint approval_lines (keys : list string) (approvals : gmap string bool) : string :=
  match keys with
  | [] => ""
  | key :: rest =>
      line key (format_bool (default false (approvals !! key))) +:+ approval_lines rest approvals
  end.

(** [keys] is the map's keys in the order its iteration gives them. *)
Definition printApprovals_of (keys : list string) (approvals : gmap string bool) : string :=
  approval_lines (Collect.sort_strings keys) approvals.

Definition printApprovals (approvals : gmap string bool) : string :=
  printApprovals_of (map_to_list approvals).*1 approvals.

(** A list of records with an empty line between them, or [none]. *)
Fixpoint separated {A} (print : A → string) (l : list A) : string :=
  match l with
  | [] => ""
  | [x] => print x
  | x :: rest => print x +:+ newline +:+ separated print rest
  end.

Definition print_list {A} (print : A → string) (none : string) (l : list A) : string :=
  match l with [] => none +:+ newline | _ => separated print l end.

Definition print_commit (res : CommitResponse) : string :=
  printCommitted (cr_Definition res) +:+
  (if bool_decide (RPC.lc_TxID (cr_Ledger res) = "") then ""
   else newline +:+ printLedgerCommit (cr_Ledger res)) +:+
  (if bool_decide (cr_Approvals res = ∅) then "" else newline +:+ printApprovals (cr_Approvals res)).

(** ** Commands *)

Inductive Command :=
  | CmdInstall (opts : Build.PackageOptions)
  | CmdQueryInstalled
  | CmdApproveForMyOrg (def : Store.ChaincodeDefinition) (packageID : string)
  | CmdCheckCommitReadiness (def : Store.ChaincodeDefinition)
  | CmdCommit (def : Store.ChaincodeDefinition)
  | CmdQueryCommitted (name version : string).

Section Commands.
Context {NL : Network.NetworkLib} {J : Json.JSONText} {M : Build.MetadataLib} {PL : Package.PackageLib}
  {W : Build.PackageWriter} {PJ : RPC.PayloadJSON} {S : Type}.

(** The connection of a peer. *)
Variable connect : Network.Peer → ClientConn S.
Variable env : cli_env.

Definition SignRequest (c : Client S) (signer : Signer) (payload : RequestPayload)
    : result SignedRequest :=
  signRequest (Some signer) (channelID c) payload (RPC.marshal_payload payload) false (ce_now env)
    (ce_random env).

(** The client with the peer that its close function closes. *)
Definition lifecycleClient (n : Network.net)
    : Network.net * result (Client S * Network.Peer * Signer) :=
  match (cfg ← loadClientConfig env;
         id ← match Identity cfg with Some id => Ok id | None => Err (ENew "panic: nil identity") end;
         signer ← Msp.wrap_err "load identity: %w"
                    (ce_SignerFromMSP env (Config.MSPDir id) (Config.MspID id));
         conf ← match Orchestrator cfg ≫= Config.ToPeerConf with
                | Some conf => Ok conf
                | None => Err (ENew "panic: nil endpoint")
                end;
         Ok (cfg, signer, conf)) with
  | Err e => (n, Err e)
  | Ok (cfg, signer, conf) =>
      match Network.NewPeer n conf with
      | (n, Err e) => (n, Err (EWrap "connect orchestrator: %w" e))
      | (n, Ok peer) => (n, Ok (mkClient (connect peer) (ChannelID cfg), peer, signer))
      end
  end.

(** A signed call and what is printed of its answer. *)
Definition call {A} (c : Client S) (signer : Signer) (payload : RequestPayload)
    (method : S → SignedRequest → S * result A) (msg : string) (print : A → string) (st : S)
    : S * result string :=
  match SignRequest c signer payload with
  | Err e => (st, Err e)
  | Ok req =>
      let '(st, res) := method st req in
      (st, res ← Msp.wrap_err msg res; Ok (print res))
  end.

(** [defer closeClient()]. *)
Definition with_client (st : S) (n : Network.net) (body : Client S → Signer → S * result string)
    : S * Network.net * result string :=
  match lifecycleClient n with
  | (n, Err e) => (st, n, Err e)
  | (n, Ok (client, peer, signer)) =>
      let '(st, r) := body client signer in (st, (Network.close_peer n peer).1, r)
  end.

Definition install (opts : Build.PackageOptions) (st : S) (n : Network.net)
    : S * Network.net * result string :=
  match Msp.wrap_err "build install package: %w" (Build.BuildExternalChaincodePackage (ce_stat env) opts) with
  | Err e => (st, n, Err e)
  | Ok pkg => with_client st n (λ client signer,
      call client signer (InstallRequest (Package.PackageTGZ pkg)) (Install client)
        "install package: %w" printPackage st)
  end.

Definition queryinstalled (st : S) (n : Network.net) : S * Network.net * result string :=
  with_client st n (λ client signer,
    call client signer QueryInstalledRequest (QueryInstalled client)
      "query installed packages: %w" (print_list printPackageSummary "installed_packages=0") st).

Definition approveformyorg (def : Store.ChaincodeDefinition) (packageID : string) (st : S)
    (n : Network.net) : S * Network.net * result string :=
  with_client st n (λ client signer,
    call client signer (ApproveForMyOrgRequest def packageID) (ApproveForMyOrg client)
      "approve for my org: %w" printApproval st).

Definition checkcommitreadiness (def : Store.ChaincodeDefinition) (st : S) (n : Network.net)
    : S * Network.net * result string :=
  with_client st n (λ client signer,
    call client signer (CheckCommitReadinessRequest def) (CheckCommitReadiness client)
      "check commit readiness: %w" printApprovals st).

Definition commit (def : Store.ChaincodeDefinition) (st : S) (n : Network.net)
    : S * Network.net * result string :=
  with_client st n (λ client signer,
    call client signer (CommitRequest def) (Commit client) "commit definition: %w" print_commit st).

Definition querycommitted (name version : string) (st : S) (n : Network.net)
    : S * Network.net * result string :=
  with_client st n (λ client signer,
    call client signer (QueryCommittedRequest name version) (QueryCommitted client)
      "query committed definitions: %w" (print_list printCommitted "committed_definitions=0") st).

Definition run (c : Command) : S → Network.net → S * Network.net * result string :=
  match c with
  | CmdInstall opts => install opts
  | CmdQueryInstalled => queryinstalled
  | CmdApproveForMyOrg def packageID => approveformyorg def packageID
  | CmdCheckCommitReadiness def => checkcommitreadiness def
  | CmdCommit def => commit def
  | CmdQueryCommitted name version => querycommitted name version
  end.

End Commands.

(** The files of a package are not part of its JSON. *)
Definition wire_package (p : Store.InstalledPackage) : Store.InstalledPackage :=
  Store.mkInstalledPackage (Store.pkg_PackageID p) (Store.pkg_Label p) (Store.pkg_Type p) (Store.pkg_Address p)
    (Store.pkg_InstalledByMSP p) (Store.pkg_InstalledAt p) "" "" "".

(** A connection to the lifecycle server: the transport carries status errors as they are, answers
    without the files of a package, and an absent part of a commit's answer as its zero value. *)
Definition no_ledger : RPC.LedgerCommitResult := RPC.mkCommitResult "" "" 0 0 "" "".

Definition server_conn {J : Json.JSONText} {L : Msp.MSPLib} {PL : Package.PackageLib} {PJ : RPC.PayloadJSON}
    (srv : RPC.Server) (renv : RPC.Env) : ClientConn (option Store.Store) :=
  mkConn (λ st req, let '(st', r) := RPC.Install srv renv st (Some req) in (st', wire_package <$> r))
    (λ st req, (st, RPC.QueryInstalled srv renv st (Some req)))
    (λ st req, RPC.ApproveForMyOrg srv renv st (Some req))
    (λ st req, (st, RPC.CheckCommitReadiness srv renv st (Some req)))
    (λ st req, let '(st', r) := RPC.Commit srv renv st (Some req) in
       (st', x ← r; Ok (mkCommitResponse x.1 (from_option fst ∅ x.2) (from_option snd no_ledger x.2))))
    (λ st req, (st, RPC.QueryCommitted srv renv st (Some req))).

(** ** Host addresses *)

Lemma cut_first_no_char c s before after :
  GoStrings.cut_first c s = Some (before, after) →
  GoStrings.has_char c before = false ∧ s = before +:+ String c after.
Proof.
  revert before. induction s as [|a s IH]; intros before; [done|]. cbn [GoStrings.cut_first].
  destruct (Ascii.eqb_spec a c) as [->|Hne]; [by intros [= <- <-]|].
  destruct (GoStrings.cut_first c s) as [[b r]|]; [|done]. intros [= <- <-].
  destruct (IH b eq_refl) as [Hb ->]. cbn. by rewrite Hb, (proj2 (Ascii.eqb_neq a c) Hne).
Qed.

Lemma cut_last_split c s before after :
  GoStrings.cut_last c s = Some (before, after) →
  s = before +:+ String c after ∧ GoStrings.has_char c after = false.
Proof.
  assert (Hnone : ∀ r, GoStrings.cut_last c r = None → GoStrings.has_char c r = false).
  { induction r as [|a r IH]; [done|]. cbn. destruct (GoStrings.cut_last c r); [done|].
    destruct (Ascii.eqb a c); [done|]. by rewrite IH. }
  revert before. induction s as [|a s IH]; intros before; [done|]. cbn [GoStrings.cut_last].
  destruct (GoStrings.cut_last c s) as [[b r]|] eqn:E.
  - intros [= <- <-]. destruct (IH b eq_refl) as [-> Hr]. done.
  - destruct (Ascii.eqb_spec a c) as [->|]; [|done]. intros [= <- <-]. split; [done|]. by apply Hnone.
Qed.

(** The host that an address is split into has no bracket. *)
Lemma SplitHostPort_host v host port :
  GoStrings.SplitHostPort v = Ok (host, port) →
  GoStrings.has_char "[" host = false ∧ GoStrings.has_char "]" host = false.
Proof.
  unfold GoStrings.SplitHostPort, GoStrings.AddrError.
  destruct (GoStrings.cut_last ":" v) as [[before p]|] eqn:Hcut; [|done].
  apply cut_last_split in Hcut as [Hv _].
  assert (Hplain : (if GoStrings.has_char ":" before then Err (ENew "too many colons in address")
    else if GoStrings.has_char "[" v then Err (ENew "unexpected '[' in address")
    else if GoStrings.has_char "]" v then Err (ENew "unexpected ']' in address")
    else Ok (before, p)) = Ok (host, port) →
    GoStrings.has_char "[" host = false ∧ GoStrings.has_char "]" host = false).
  { rewrite Hv, !GoStrings.has_char_app. destruct (GoStrings.has_char ":" before); [done|].
    destruct (GoStrings.has_char "[" before) eqn:H1; [done|].
    destruct (GoStrings.has_char "]" before) eqn:H2; cbn [orb].
    - by case_match.
    - repeat case_match; try done. by intros [= <- <-]. }
  destruct v as [|a inner]; [exact Hplain|].
  destruct (Ascii.eqb_spec a "[") as [->|Hne].
  - destruct (GoStrings.cut_first "]" inner) as [[h r]|] eqn:Hf; [|done].
    apply cut_first_no_char in Hf as [Hh ->]. case_bool_decide; [done|].
    destruct (negb _); [by repeat case_match|]. rewrite GoStrings.has_char_app.
    destruct (GoStrings.has_char "[" h) eqn:H1; [done|]. cbn [orb].
    destruct (GoStrings.has_char "[" (String "]" r)); [done|].
    destruct (GoStrings.has_char "]" r); [done|]. by intros [= <- <-].
  - destruct a as [[] [] [] [] [] [] [] []]; try exact Hplain. done.
Qed.

Lemma ParseInt_range s z : GoStrings.ParseInt s = Ok z → is_int64 z.
Proof.
  unfold GoStrings.ParseInt, is_int64. destruct s as [|a r]; [done|].
  assert (Hdigits : ∀ r acc z, 0 <= acc → GoStrings.parse_digits r acc = Some z → 0 <= z).
  { clear. induction r as [|a r IH]; intros acc z Hacc; cbn; [by intros [= <-]|].
    destruct (GoStrings.digit_val a) as [d|] eqn:Hd; [|done]. cbn. apply IH.
    unfold GoStrings.digit_val in Hd. destruct (_ && _) eqn:E; [|done]. injection Hd as <-. lia. }
  assert (Hgo : ∀ r (neg : bool), (if decide (r = "") then Err GoStrings.ErrSyntax
    else match GoStrings.parse_digits r 0 with
         | None => Err GoStrings.ErrSyntax
         | Some z => if neg then if z <=? 2 ^ 63 then Ok (- z) else Err GoStrings.ErrRange
                     else if z <? 2 ^ 63 then Ok z else Err GoStrings.ErrRange
         end) = Ok z → - 2 ^ 63 <= z < 2 ^ 63).
  { intros q neg. destruct (decide _); [done|].
    destruct (GoStrings.parse_digits q 0) as [y|] eqn:Hy; [|done].
    apply Hdigits in Hy; [|lia]. destruct neg.
    - destruct (Z.leb_spec y (2 ^ 63)); [|done]. intros [= <-]. lia.
    - destruct (Z.ltb_spec y (2 ^ 63)); [|done]. intros [= <-]. lia. }
  cbv zeta. destruct (decide (a = "-"%char)); [apply (Hgo r true)|].
  destruct (decide (a = "+"%char)); [apply (Hgo r false)|apply (Hgo (String a r) false)].
Qed.

Lemma Port_chars c e :
  is_int64 (Config.Port e) → GoStrings.digit_val c = None → c ≠ "-"%char →
  GoStrings.has_char c (GoStrings.FormatInt (Config.Port e)) = false.
Proof. apply GoStrings.FormatInt_chars. Qed.

(** A host flag is taken exactly as the address of an endpoint: the address of an endpoint,
    its host without brackets, is accepted as that very endpoint when its host is not empty and
    its port is positive, and refused otherwise; and whatever text is accepted stands for an
    endpoint of that kind, whose own address is accepted as the same endpoint. *)
Theorem parse_host_exact :
  (∀ e, is_int64 (Config.Port e) → GoStrings.has_char "[" (Config.Host e) = false →
     GoStrings.has_char "]" (Config.Host e) = false →
     parseHostEndpoint (Config.Endpoint_Address e) =
       if decide (Config.Host e ≠ "" ∧ 0 < Config.Port e) then Ok e
       else Err (ENew "invalid host %q: expected host:port")) ∧
  (∀ value e, parseHostEndpoint value = Ok e →
     Config.Host e ≠ "" ∧ 0 < Config.Port e ∧ is_int64 (Config.Port e) ∧
     parseHostEndpoint (Config.Endpoint_Address e) = Ok e).
Proof.
  assert (Hadd : ∀ e, is_int64 (Config.Port e) → GoStrings.has_char "[" (Config.Host e) = false →
    GoStrings.has_char "]" (Config.Host e) = false →
    parseHostEndpoint (Config.Endpoint_Address e) =
      if decide (Config.Host e ≠ "" ∧ 0 < Config.Port e) then Ok e
      else Err (ENew "invalid host %q: expected host:port")).
  { intros e Hp H1 H2. unfold parseHostEndpoint, Config.Endpoint_Address.
    rewrite GoStrings.SplitHostPort_JoinHostPort by (try apply Port_chars; done).
    rewrite GoStrings.ParseInt_FormatInt by done. destruct e as [host port]. cbn in *.
    destruct (decide (host ≠ "" ∧ 0 < port)) as [[Hh Hpos]|Hn].
    - rewrite bool_decide_eq_false_2 by done. by replace (port <=? 0) with false by lia.
    - destruct (decide (host = "")); [by rewrite bool_decide_eq_true_2|].
      rewrite bool_decide_eq_false_2 by done. destruct (Z.leb_spec port 0); [done|]. destruct Hn. done. }
  split; [exact Hadd|]. intros value e H. unfold parseHostEndpoint in H.
  destruct (GoStrings.SplitHostPort value) as [[host pv]|] eqn:Hs; [|done].
  apply SplitHostPort_host in Hs as [H1 H2].
  destruct (GoStrings.ParseInt pv) as [port|] eqn:Hp; [|done]. apply ParseInt_range in Hp.
  destruct (bool_decide (host = "") || (port <=? 0)) eqn:Hg; [done|]. injection H as <-. bool_props.
  cbn. split_and!; try done. rewrite Hadd by done. cbn. by rewrite decide_True.
Qed.

(** ** Printed approvals *)

#[local] Instance leb_trans : Transitive (λ a b, String.leb a b = true).
Proof.
  intros a. induction a as [|x a IH]; intros b c; unfold String.leb; [by destruct b, c|].
  destruct b as [|y b]; [done|]. destruct c as [|z c]; [by cbn; case_match|]. cbn [String.compare].
  specialize (IH b c). unfold String.leb in IH. unfold Ascii.compare.
  destruct (N.compare_spec (N_of_ascii x) (N_of_ascii y)) as [E1|E1|E1];
    destruct (N.compare_spec (N_of_ascii y) (N_of_ascii z)) as [E2|E2|E2]; intros H1 H2; try done.
  - rewrite E1, E2, N.compare_refl. exact (IH H1 H2).
  - rewrite E1. by rewrite (proj2 (N.compare_lt_iff _ _) E2).
  - rewrite <- E2. by rewrite (proj2 (N.compare_lt_iff _ _) E1).
  - by rewrite (proj2 (N.compare_lt_iff _ _) (N.lt_trans _ _ _ E1 E2)).
Qed.

#[local] Instance leb_antisym : AntiSymm (=) (λ a b, String.leb a b = true).
Proof. intros a b. apply String.leb_antisym. Qed.

#[local] Instance leb_total : Total (λ a b, String.leb a b = true).
Proof. intros a b. destruct (String.leb_total a b); auto. Qed.

(** Approvals are printed in the order of their names, whatever order the map gives them in. *)
Theorem approvals_order_irrelevant keys approvals :
  keys ≡ₚ (map_to_list approvals).*1 → printApprovals_of keys approvals = printApprovals approvals.
Proof.
  intros Hk. unfold printApprovals, printApprovals_of. f_equal. unfold Collect.sort_strings.
  apply (Sorted_unique (λ a b, String.leb a b = true)); [apply Sorted_merge_sort, _..|].
  by rewrite !merge_sort_Permutation.
Qed.

(** ** Connections *)

Section Connections.
Context {NL : Network.NetworkLib} {J : Json.JSONText} {M : Build.MetadataLib} {PL : Package.PackageLib}
  {W : Build.PackageWriter} {PJ : RPC.PayloadJSON} {S : Type}.
Variable connect : Network.Peer → ClientConn S.
Variable env : cli_env.

(** A usable configuration names a channel, an identity and an endpoint. *)
Lemma loadClientConfig_ok cfg :
  loadClientConfig env = Ok cfg →
  ChannelID cfg ≠ "" ∧ is_Some (Identity cfg) ∧ is_Some (Orchestrator cfg ≫= Config.ToPeerConf).
Proof.
  unfold loadClientConfig. intros H. apply bind_ok in H as ([] & _ & H).
  apply bind_ok in H as (f & _ & H). destruct (ce_ReadConfig env f); [done|].
  apply bind_ok in H as (c & _ & H). apply bind_ok in H as ([] & Hc & H).
  apply bind_ok in H as ([] & Hi & H). apply bind_ok in H as (c' & Hh & H).
  apply bind_ok in H as ([] & He & [= <-]). apply guard_err_ok in Hc, Hi, He. bool_props.
  assert (Hsame : ChannelID c' = ChannelID c ∧ Identity c' = Identity c).
  { unfold apply_host in Hh. case_bool_decide; [by injection Hh as <-|].
    apply bind_ok in Hh as (e & _ & [= <-]). done. }
  destruct Hsame as [-> ->]. split; [done|]. split; [by destruct (Identity c)|].
  destruct (Orchestrator c') as [o|]; [|done]. cbn in He. unfold Config.ToPeerConf. cbn.
  by destruct (Config.cl_Endpoint o).
Qed.

Lemma lifecycleClient_spec n n' r :
  Network.net_ok n → lifecycleClient connect env n = (n', r) →
  Network.net_ok n' ∧
  match r with
  | Ok (client, peer, _) =>
      Network.grew n n' [peer] ∧ (Network.made n ≤ Network.peer_id peer)%nat ∧
      conn client = connect peer ∧ channelID client ≠ ""
  | Err _ => Network.grew n n' []
  end.
Proof.
  intros Hn. unfold lifecycleClient.
  destruct (cfg ← loadClientConfig env; _) as [[[cfg signer] conf]|e] eqn:Hpre.
  2:{ intros [= <- <-]. split; [done|apply Network.grew_refl]. }
  apply bind_ok in Hpre as (cfg' & Hcfg & Hpre). apply loadClientConfig_ok in Hcfg as [Hc _].
  assert (cfg' = cfg) as ->.
  { apply bind_ok in Hpre as (? & _ & Hpre). apply bind_ok in Hpre as (? & _ & Hpre).
    by apply bind_ok in Hpre as (? & _ & [= <- _ _]). }
  destruct (Network.NewPeer n conf) as [n1 [peer|e]] eqn:Hp; intros [= <- <-].
  - apply Network.NewPeer_ok in Hp as (? & ? & ? & _); [|done]. by split_and!.
  - apply Network.NewPeer_err in Hp as [? ?]; [|done]. by split.
Qed.

Lemma with_client_spec st n body st' n' r :
  Network.net_ok n → with_client connect env st n body = (st', n', r) →
  Network.opened n' = Network.opened n ∧
  match (lifecycleClient connect env n).2 with
  | Ok (client, _, signer) => body client signer = (st', r)
  | Err e => st' = st ∧ r = Err e
  end.
Proof.
  intros Hn. unfold with_client.
  destruct (lifecycleClient connect env n) as [n1 [[[client peer] signer]|e]] eqn:Hl;
    apply lifecycleClient_spec in Hl as [Hn1 Hl]; try done; cbn [snd].
  - destruct Hl as (Hg & Hid & _). destruct (body client signer) as [st1 r1]. intros [= <- <- <-].
    split; [by apply Network.close_new|done].
  - destruct Hl as [_ Hl]. intros [= <- <- <-]. rewrite Hl. by rewrite app_nil_r.
Qed.

(** Whatever happens during it, a command leaves the open connections as they were. *)
Theorem command_closes c st n st' n' r :
  Network.net_ok n → run connect env c st n = (st', n', r) → Network.opened n' = Network.opened n.
Proof.
  intros Hn. destruct c; cbn [run]; intros H; try by apply with_client_spec in H as [H _].
  unfold install in H. destruct (Msp.wrap_err _ _); [|by injection H as _ <- _].
  by apply with_client_spec in H as [H _].
Qed.

Lemma call_spec {A} c signer payload (method : S → SignedRequest → S * result A) msg print st st' r :
  call env c signer payload method msg print st = (st', r) →
  (∃ e, SignRequest env c signer payload = Err e ∧ st' = st ∧ r = Err e) ∨
  ∃ req res, SignRequest env c signer payload = Ok req ∧ method st req = (st', res) ∧
    r = match res with Ok x => Ok (print x) | Err e => Err (EWrap msg e) end.
Proof.
  unfold call. destruct (SignRequest env c signer payload) as [req|e].
  - destruct (method st req) as [st1 res] eqn:Hm. intros [= <- <-]. right. exists req, res.
    split_and!; try done. by destruct res.
  - intros [= <- <-]. left. by exists e.
Qed.

End Connections.

(** ** Installing *)

Section Installing.
Context {NL : Network.NetworkLib} {J : Json.JSONText} {L : Msp.MSPLib} {M : Build.MetadataLib}
  {PL : Package.PackageLib} {W : Build.PackageWriter} {PJ : RPC.PayloadJSON}.

(** The record of a package that [mspID] installed at [now]. *)
Definition installed_record (d : Package.PackageDescriptor) (mspID now : string) : Store.InstalledPackage :=
  Store.mkInstalledPackage (Package.PackageID d) (Package.Label d) (Package.Type_ d) (Package.Address d)
    mspID now (Package.MetadataJSON d) (Package.ConnectionJSON d) (Package.PackageTGZ d).

(** The store finds a package it has just written. *)
Lemma installed_listed now s d mspID :
  Store.store_ok s → Package.PackageID d ≠ "" →
  let s' := Store.set_installed <[Package.PackageID d := installed_record d mspID now]> s in
  Store.Install now s (installed_record d mspID "") = (s', Ok ()) ∧
  ∃ i, list_find (λ e, Store.pkg_PackageID e = Package.PackageID d) (Store.ListInstalled s') =
    Some (i, installed_record d mspID now).
Proof.
  intros Hs Hid s'.
  assert (Hi : Store.Install now s (installed_record d mspID "") = (s', Ok ())).
  { unfold Store.Install. cbn [installed_record Store.pkg_PackageID Store.pkg_InstalledAt].
    by rewrite bool_decide_eq_false_2. }
  split; [done|]. pose proof (Store.Install_step now s (installed_record d mspID "") Hs) as [Hs' _].
  rewrite Hi in Hs'. cbn [fst] in Hs'. destruct (Store.ListInstalled_sorted s' Hs') as (_ & _ & Hin).
  assert (Hp : installed_record d mspID now ∈ Store.ListInstalled s').
  { apply Hin. unfold Store.GetInstalled. rewrite bool_decide_eq_false_2 by done.
    f_equal. apply lookup_insert_eq. }
  apply (list_find_elem_of (λ e, Store.pkg_PackageID e = Package.PackageID d)) in Hp as [[i p] Hf]; [|done].
  exists i. rewrite Hf. apply list_find_Some in Hf as (Hl & Hk & _). do 2 f_equal.
  apply list_elem_of_lookup_2, Hin in Hl. unfold Store.GetInstalled in Hl. rewrite Hk in Hl.
  rewrite bool_decide_eq_false_2 in Hl by done. cbn in Hl.
  rewrite lookup_insert_eq in Hl. by injection Hl as <-.
Qed.

(** What the server makes of a package that inspection accepts. *)
Lemma server_installs srv renv s req b d :
  Store.store_ok s → RPC.unmarshal_Install (Payload req) = Ok b → Package.InspectPackageBytes b = Ok d →
  RPC.Install srv renv (Some s) (Some req) =
    match check (RPC.srv_auth srv) (RPC.e_now renv) (RPC.e_now' renv) (RPC.e_md renv) (Some req)
            OperationInstall with
    | Err e => (Some s, Err e)
    | Ok mspID =>
        if bool_decide (Store.channelID s = RPC.srv_channelID srv)
        then (Some (Store.set_installed <[Package.PackageID d := installed_record d mspID (RPC.e_time renv)]> s),
              Ok (installed_record d mspID (RPC.e_time renv)))
        else (Some s, Err (EStatus CodeInternal (ENew "lifecycle store channel does not match the server")))
    end.
Proof.
  intros Hs Hb Hd. unfold RPC.Install, RPC.verifyAndUnmarshal.
  destruct (check _ _ _ _ _ _) as [mspID|e]; [|done]. cbn [mbind result_mbind fmap option_fmap option_map].
  destruct (decide (Store.channelID s = RPC.srv_channelID srv)) as [Hc|Hc].
  2:{ rewrite bool_decide_eq_false_2 by congruence. by rewrite bool_decide_eq_false_2. }
  rewrite bool_decide_eq_true_2 by congruence. rewrite bool_decide_eq_true_2 by done.
  cbn [negb guard_err mbind result_mbind from_option]. rewrite Hb. cbn [RPC.with_status mbind result_mbind snd fst].
  rewrite Hd. cbn [RPC.with_status mbind result_mbind].
  assert (Hid : Package.PackageID d ≠ "").
  { apply Package.InspectPackageBytes_fields in Hd as (_ & _ & Hl & _ & _ & ->). by destruct (Package.Label d). }
  destruct (installed_listed (RPC.e_time renv) s d mspID Hs Hid) as [Hi [i Hf]].
  change (Store.mkInstalledPackage _ _ _ _ mspID "" _ _ _) with (installed_record d mspID "").
  rewrite Hi. cbn [RPC.with_status mbind result_mbind]. by rewrite Hf.
Qed.

Lemma Build_inspects stat opts d :
  Build.BuildExternalChaincodePackage stat opts = Ok d → Package.InspectPackageBytes (Package.PackageTGZ d) = Ok d.
Proof.
  unfold Build.BuildExternalChaincodePackage. intros H. apply bind_ok in H as (? & _ & H).
  apply bind_ok in H as (? & _ & H). apply bind_ok in H as (? & _ & H). apply bind_ok in H as (? & _ & H).
  apply bind_ok in H as (? & _ & H). apply bind_ok in H as (b & _ & H).
  destruct (Package.InspectPackageBytes b) as [d'|] eqn:Hi; [|done]. injection H as ->.
  pose proof Hi as Hf. apply Package.InspectPackageBytes_fields in Hf as [-> _]. done.
Qed.

Lemma SignRequest_payload {S} env (c : Client S) signer payload req :
  SignRequest env c signer payload = Ok req → Payload req = RPC.marshal_payload payload.
Proof.
  unfold SignRequest, signRequest. case_bool_decide as Hc; [done|]. cbv zeta. destruct (_ || _); [done|].
  intros H. apply bind_ok in H as (creator & _ & H). apply bind_ok in H as (nonce & _ & H).
  by apply bind_ok in H as (signature & _ & [= <-]).
Qed.

(** What it takes to install the package [d]. *)
Record installable (srv : RPC.Server) (renv : RPC.Env) (env : cli_env) (opts : Build.PackageOptions)
    (s : Store.Store) (n : Network.net) (d : Package.PackageDescriptor) (mspID : string) : Prop := {
  in_built : Build.BuildExternalChaincodePackage (ce_stat env) opts = Ok d;
  in_admitted : ∃ client peer signer req,
    (lifecycleClient (λ _, server_conn srv renv) env n).2 = Ok (client, peer, signer) ∧
    SignRequest env client signer (InstallRequest (Package.PackageTGZ d)) = Ok req ∧
    check (RPC.srv_auth srv) (RPC.e_now renv) (RPC.e_now' renv) (RPC.e_md renv) (Some req)
      OperationInstall = Ok mspID;
  in_channel : Store.channelID s = RPC.srv_channelID srv }.

(** C22: Installing a directory at a lifecycle server leaves no connection open and either reports
    an error with the store as it was, or succeeds, which it does exactly when the package can be
    built, the client configured and connected, and the signed request admitted: the store then
    differs in the one record of the package, under the ID the build computed, with the archive of
    the directory's files and the installing organization, and that record is printed. *)
Theorem install_exact `{JL : !Json.JSONLaws, ML : !Build.MetadataLaws, WL : !Build.WriterLaws}
    srv renv env opts s n st' n' r :
  (∀ b, RPC.unmarshal_Install (RPC.marshal_payload (InstallRequest b)) = Ok b) →
  (∀ dir, ce_stat env (Package.Clean (Build.SourceDir opts)) = Ok dir → Build.named dir) →
  Json.valid_utf8 (Build.opt_Label opts) = true →
  Store.store_ok s → Network.net_ok n →
  install (λ _, server_conn srv renv) env opts (Some s) n = (st', n', r) →
  Network.opened n' = Network.opened n ∧
  (is_ok r = true ↔ ∃ d mspID, installable srv renv env opts s n d mspID) ∧
  match r with
  | Err _ => st' = Some s
  | Ok out => ∃ d mspID dir conn address metadata,
      let record := installed_record d mspID (RPC.e_time renv) in
      installable srv renv env opts s n d mspID ∧
      Build.buildable (ce_stat env) opts dir conn address metadata ∧
      Build.packaged opts dir conn address metadata d ∧
      st' = Some (Store.set_installed <[Package.PackageID d := record]> s) ∧ out = printPackage record
  end.
Proof.
  intros Hlaw Hnamed Hutf Hs Hn H. unfold install in H.
  destruct (Build.BuildExternalChaincodePackage (ce_stat env) opts) as [d|e] eqn:Hb.
  2:{ cbn in H. injection H as <- <- <-. split; [done|]. split; [|done]. split; [done|].
      intros (d & m & [Hd _ _]). congruence. }
  cbn [Msp.wrap_err] in H. apply with_client_spec in H as [Hopen H]; [|done]. split; [done|].
  destruct (lifecycleClient _ env n).2 as [[[client peer] signer]|e] eqn:Hl.
  2:{ destruct H as [-> ->]. split; [|done]. split; [done|].
      intros (d' & m & [_ (c & p & sg & q & Hc & _) _]). congruence. }
  assert (Hconn : conn client = server_conn srv renv).
  { destruct (lifecycleClient _ env n) as [n1 r1] eqn:E. cbn in Hl. subst r1.
    by apply lifecycleClient_spec in E as (_ & _ & _ & E & _). }
  apply call_spec in H as [(e & Hsign & -> & ->)|(req & res & Hsign & Hcall & ->)].
  { split; [|done]. split; [done|]. intros (d' & m & [Hd (c & p & sg & q & Hc & Hq & _) _]).
    rewrite Hl in Hc. injection Hc as <- <- <-. rewrite Hb in Hd. injection Hd as <-. congruence. }
  pose proof (Build_inspects _ _ _ Hb) as Hi. pose proof (SignRequest_payload _ _ _ _ _ Hsign) as Hp.
  unfold Install in Hcall. rewrite Hconn in Hcall. cbn [invoke_Install server_conn] in Hcall.
  rewrite (server_installs srv renv s req _ d Hs (eq_trans (f_equal _ Hp) (Hlaw _)) Hi) in Hcall.
  assert (Hfail : ∀ res, (∀ m, check (RPC.srv_auth srv) (RPC.e_now renv) (RPC.e_now' renv) (RPC.e_md renv)
      (Some req) OperationInstall = Ok m → Store.channelID s ≠ RPC.srv_channelID srv) →
    is_ok (A := string) res = false → is_ok res = true ↔ ∃ d mspID, installable srv renv env opts s n d mspID).
  { intros res' Hno Hres. rewrite Hres. split; [done|].
    intros (d' & m & [Hd (c & p & sg & q & Hc & Hq & Hm) Hch]).
    rewrite Hl in Hc. injection Hc as <- <- <-. rewrite Hb in Hd. injection Hd as <-.
    rewrite Hsign in Hq. injection Hq as <-. by apply Hno in Hm. }
  destruct (check _ _ _ _ _ _) as [mspID|e] eqn:Hcheck.
  2:{ injection Hcall as <- <-. split; [by apply Hfail|done]. }
  destruct (decide (Store.channelID s = RPC.srv_channelID srv)) as [Hch|Hch].
  2:{ rewrite bool_decide_eq_false_2 in Hcall by done. injection Hcall as <- <-. split; [by apply Hfail|done]. }
  rewrite bool_decide_eq_true_2 in Hcall by done. injection Hcall as <- <-.
  assert (Hin : installable srv renv env opts s n d mspID).
  { split; [done| |done]. by exists client, peer, signer, req. }
  split; [split; [|done]; intros _; by exists d, mspID|].
  destruct (Build.Build_sound _ opts d Hnamed Hutf Hb) as (dir & cn & address & metadata & Hbuild & Hpk).
  by exists d, mspID, dir, cn, address, metadata.
Qed.

End Installing.

(** ** Example *)

(** A payload is marked with its operation; only the package is read back. *)
Definition ex_payload : RPC.PayloadJSON := {|
  RPC.marshal_payload p := match p with InstallRequest b => String "I" b | _ => "{}" end;
  RPC.unmarshal_Install b := match b with String _ r => Ok r | _ => Err (ENew "unexpected end of JSON input") end;
  RPC.unmarshal_QueryInstalled _ := Ok ();
  RPC.unmarshal_Definition _ := Ok Store.ex_def;
  RPC.unmarshal_Approve _ := Ok (Store.ex_def, "basic:ab12");
  RPC.unmarshal_Query _ := Ok ("", "") |}.

Definition ex_network : Network.NetworkLib := {| Network.dial _ _ := None; Network.close_error _ := None |}.

Definition ex_authorizer : Authorizer (L := Instances.Instances.example_msp) :=
  mkAuthorizer (L := Instances.Instances.example_msp)
    (Msp.mkVerifier (L := Instances.Instances.example_msp) (Some ()) {["Org1MSP"]})
    "mychannel" "Org1MSP" {[OperationInstall := "Org1MSP"]} ∅.

Definition ex_server : RPC.Server (L := Instances.Instances.example_msp) :=
  RPC.mkServer (L := Instances.Instances.example_msp) "mychannel" (Some ex_authorizer) None "Org1MSP" None None.

(** The configuration has no endpoint; the flag names it. *)
Definition ex_env : cli_env :=
  mkCliEnv "client.yaml" "localhost:9443" (λ _, Ok "") (λ _, None)
    (λ _, Ok (mkClientConfig "mychannel" "" (Some (Config.mkIdentityConfig "Org1MSP" "msp")) None))
    (λ _ _, Ok (mkSigner (Ok "Org1MSP:admin") (λ _, Ok "admin"))) Build.ex_stat 0
    (Ok "abcdefghijklmnopqrstuvwx").

Definition ex_install : option Store.Store * Network.net * result string :=
  @install ex_network Build.ex_json Build.ex_metadata Build.ex_package Build.ex_writer ex_payload _
    (λ _, @server_conn Build.ex_json Instances.Instances.example_msp Build.ex_package ex_payload ex_server RPC.ex_env)
    ex_env Build.ex_options (Some Store.ex_empty) Network.no_connections.

Lemma ex_authenticates (message : bytes) :
  message ≠ "" →
  Msp.Authenticate (L := Instances.Instances.example_msp) (Some (trust ex_authorizer)) "Org1MSP:admin" message
    "admin" 50 = Ok ("Org1MSP", "admin").
Proof. destruct message as [|a message]; [done|]. intros _. vm_compute. reflexivity. Qed.

Lemma ex_encodes (o : Json.jobject) : o ≠ [] → Json.json_encode (JSONText := Build.ex_json) o ≠ "".
Proof.
  intros Ho He. apply (f_equal Json.unbits) in He. cbn in He. rewrite Json.unbits_bits in He.
  pose proof (decode_encode o) as H. rewrite He in H. by injection H.
Qed.

(** The example server admits the installation of any package. *)
Lemma ex_admits (b : bytes) req :
  req = mkSignedRequest 1 "mychannel" OperationInstall false 0 "abcdefghijklmnopqrstuvwx" (String "I" b)
          "Org1MSP:admin" "admin" →
  check (J := Build.ex_json) (RPC.srv_auth ex_server) (RPC.e_now RPC.ex_env) (RPC.e_now' RPC.ex_env)
    (RPC.e_md RPC.ex_env) (Some req) OperationInstall = Ok "Org1MSP".
Proof.
  intros ->. unfold check. cbn [RPC.srv_auth ex_server RPC.e_now RPC.e_now' RPC.ex_env].
  cbn [Creator Signature]. rewrite ex_authenticates by by apply ex_encodes. reflexivity.
Qed.

Lemma install_exact_witness :
  ∃ st' n' out, ex_install = (st', n', Ok out) ∧ Network.opened n' = [] ∧
    ∃ d record, st' = Some (Store.set_installed <[Package.PackageID d := record]> Store.ex_empty) ∧
      out = printPackage record.
Proof.
  assert (Hb : is_ok Build.ex_built = true) by (vm_compute; reflexivity).
  destruct ex_install as [[st' n'] r] eqn:E. unfold Build.ex_built in Hb.
  destruct (@Build.BuildExternalChaincodePackage _ _ _ _ _ _) as [d|] eqn:Ed in Hb; [|discriminate Hb].
  assert (Hn : ∀ dir, ce_stat ex_env (Package.Clean (Build.SourceDir Build.ex_options)) = Ok dir → Build.named dir)
    by (intros dir; vm_compute; intros [= <-]; exact Build.ex_named).
  assert (Hin : installable (J := Build.ex_json) (NL := ex_network) (M := Build.ex_metadata) (W := Build.ex_writer)
    (PL := Build.ex_package) (PJ := ex_payload) ex_server RPC.ex_env ex_env Build.ex_options Store.ex_empty
    Network.no_connections d "Org1MSP").
  { split; [exact Ed| |reflexivity]. do 4 eexists. split; [reflexivity|split; [reflexivity|]].
    apply (ex_admits (Package.PackageTGZ d)). reflexivity. }
  assert (Hs : Store.store_ok Store.ex_empty).
  { apply (Store.new_store_ok "mychannel"). reflexivity. }
  destruct (@install_exact ex_network Build.ex_json Instances.Instances.example_msp Build.ex_metadata Build.ex_package
    Build.ex_writer ex_payload Build.ex_json_laws Build.ex_metadata_laws Build.ex_writer_laws ex_server RPC.ex_env ex_env
    Build.ex_options Store.ex_empty Network.no_connections st' n' r (λ _, eq_refl) Hn eq_refl Hs (Forall_nil_2 _) E)
    as (Ho & Hok & Hr).
  destruct r as [out|e]; [|discriminate (proj2 Hok (ex_intro _ d (ex_intro _ "Org1MSP" Hin)))].
  exists st', n', out. split; [reflexivity|]. split; [exact Ho|].
  destruct Hr as (d' & mspID & dir & conn & address & metadata & _ & _ & _ & Hst & Hout).
  exists d', (installed_record d' mspID (RPC.e_time RPC.ex_env)). split; [exact Hst|exact Hout].
Defined.

End Cli.
