(* ===== verification/Client.v ===== *)
(** The command-line client, [cmd/client/main.go].

    [protoutil]'s construction of a proposal is [ClientProto]; its laws [ClientProtoLaws] say what
    the orchestrator's parsers read of a proposal made by it.  The orchestrator behind a connection
    is a function on a state of its own, [None] when it panics or has not answered; the Gateway SDK
    that [evaluate] uses is the argument [sdk_evaluate]. *)
From Stdlib Require Import ZArith Lia Ascii.
From stdpp Require Import base option list strings gmap.
From S2P Require Import Prelude LifecycleStore OrchestratorTypes GoStrings Json Proto Msp LifecycleAuth Config.
From S2P Require Import EndorsementPolicy PolicyResolver Collect Finality Idempotency Submission Helper Invocation.
From S2P Require Import Framing GoText JsonTree ResponseJson Instances ExecContext Shim Network Requests Auth Service LifecycleCLI.
Import Types Proto.
Local Open Scope Z_scope.

Module Client.

(** ** Configuration and flags *)

Record Config := mkConfig {
  ChannelID : string;
  Protocol : string;
  Identity : option Config.IdentityConfig;
  Orchestrator : option Config.ClientConfig }.

(** The flags every command shares. *)
Record flags := mkFlags {
  f_config : string;
  f_namespace : string;
  f_name : string;
  f_version : string;
  f_host : string }.

Record txInput := mkTxInput {
  tx_Function : string;
  tx_Args : list string;
  tx_Transient : gmap string string }.

(** What the client meets outside the repository: [env_ReadConfig] and [env_Unmarshal] are the two
    steps of the configuration parser on the text of the file, [env_decode_tx] is
    [json.Unmarshal] of a [txInput]. *)
Record client_env := mkClientEnv {
  env_Open : string → result bytes;
  env_ReadConfig : bytes → option goerr;
  env_Unmarshal : bytes → result Config;
  env_decode_tx : string → result txInput;
  env_SignerFromMSP : string → string → result LifecycleAuth.Signer;
  env_random : result bytes }.

Definition parseHostEndpoint (value : string) : result Config.Endpoint :=
  match GoStrings.SplitHostPort value with
  | Err _ => Err (ENew "invalid host %q: expected host:port")
  | Ok (host, portValue) =>
      match GoStrings.ParseInt portValue with
      | Err _ => Err (ENew "invalid host %q: port must be numeric")
      | Ok port =>
          if bool_decide (host = "") || (port <=? 0)
          then Err (ENew "invalid host %q: expected host:port")
          else Ok (Config.mkEndpoint host port)
      end
  end.

Definition with_orchestrator (c : Config.ClientConfig) (cfg : Config) : Config :=
  mkConfig (ChannelID cfg) (Protocol cfg) (Identity cfg) (Some c).

Definition apply_host (host : string) (cfg : Config) : result Config :=
  if bool_decide (host = "") then Ok cfg
  else
    endpoint ← parseHostEndpoint host;
    Ok (with_orchestrator (Cli.with_endpoint endpoint (Orchestrator cfg)) cfg).

Definition validate (cfg : Config) : result () :=
  guard_err (bool_decide (ChannelID cfg = "")) (ENew "channel-id is required");;
  guard_err (Config.is_nil (Orchestrator cfg ≫= Config.cl_Endpoint)) (ENew "orchestrator.endpoint is required");;
  guard_err (Config.is_nil (Identity cfg)) (ENew "identity is required for orchestrator transport").

Definition loadConfig (env : client_env) (fl : flags) : result Config :=
  f ← Msp.wrap_err "open config: %w" (env_Open env (f_config fl));
  match env_ReadConfig env f with
  | Some e => Err (EWrap "read config: %w" e)
  | None =>
      cfg ← Msp.wrap_err "invalid config: %w" (env_Unmarshal env f);
      cfg ← apply_host (f_host fl) cfg;
      Msp.wrap_err "invalid config: %w" (validate cfg);;
      Ok cfg
  end.

(** The decoded input, the arguments with the function first, and the transient data; strings and
    their bytes are one value of the model, and so are a nil and an empty map. *)
Definition parseTxArgs (env : client_env) (txJSON : string)
    : result (txInput * list bytes * gmap string bytes) :=
  match env_decode_tx env txJSON with
  | Err e => Err (EWrap "invalid transaction JSON: %w" e)
  | Ok tx =>
      let txArgs := (if bool_decide (tx_Function tx = "") then [] else [tx_Function tx]) ++ tx_Args tx in
      Ok (tx, txArgs, tx_Transient tx)
  end.

Definition prepare (env : client_env) (fl : flags) (txJSON : string)
    : result (Config * txInput * list bytes * gmap string bytes) :=
  cfg ← loadConfig env fl;
  '(tx, txArgs, transient) ← parseTxArgs env txJSON;
  Ok (cfg, tx, txArgs, transient).

Definition namespaceFromFlag (fl : flags) : result string :=
  if bool_decide (f_namespace fl = "") then Err (ENew "namespace is required") else Ok (f_namespace fl).

Definition chaincodeIdentity (fl : flags) : result (string * string) :=
  if bool_decide (f_name fl = "") then Err (ENew "name is required") else Ok (f_name fl, f_version fl).

(** ** Proposals *)

(** [peer.ChaincodeInvocationSpec] with the fields the client sets. *)
Record InvocationSpec := mkSpec {
  is_Name : string;
  is_Version : string;
  is_Args : list bytes;
  is_IsInit : bool }.

Class ClientProto := {
  ComputeTxID : bytes → bytes → string;
  (** Transaction ID, channel, specification, nonce, creator and transient data; the header type is
      that of an endorser transaction. *)
  CreateChaincodeProposalWithTxIDNonceAndTransient :
    string → string → InvocationSpec → bytes → bytes → gmap string bytes → result Proposal;
  GetSignedProposal : Proposal → LifecycleAuth.Signer → result SignedProposal;
  (** [json.MarshalIndent] of a response. *)
  marshal_indent : InvocationResponse → result string;
  (** [proto.Unmarshal] of a serialized identity: its MSP and certificate; and the two steps of
      the Gateway SDK that make an identity of them. *)
  unmarshal_identity : bytes → result (string * bytes);
  gateway_identity : string → bytes → result () }.

(** What the orchestrator reads of a proposal the client made and signed, if its parser accepts
    the proposal at all. *)
Class ClientProtoLaws {PU : ProtoUtil} {CP : ClientProto} : Prop := {
  signed_bytes prop signer sp :
    GetSignedProposal prop signer = Ok sp →
    ProposalBytes sp ≠ "" ∧ LifecycleAuth.Sign signer (ProposalBytes sp) = Ok (sp_Signature sp);
  created_parses channel spec nonce creator transient prop signer sp now inv :
    CreateChaincodeProposalWithTxIDNonceAndTransient (ComputeTxID nonce creator) channel spec nonce
      creator transient = Ok prop →
    GetSignedProposal prop signer = Ok sp → efab_Parse (Some sp) now = Ok inv →
    ∃ nsVersion, inv = mkInv (ComputeTxID nonce creator) channel (is_Name spec) (is_Args spec) creator
      nonce (is_Version spec) nsVersion (Some prop);
  created_header channel txid spec nonce creator transient prop :
    CreateChaincodeProposalWithTxIDNonceAndTransient txid channel spec nonce creator transient = Ok prop →
    Auth.header_chaincode (Some prop) = Ok (Some (is_Name spec, is_Version spec));
  created_payload channel txid spec nonce creator transient prop :
    CreateChaincodeProposalWithTxIDNonceAndTransient txid channel spec nonce creator transient = Ok prop →
    ∃ input, UnmarshalChaincodeProposalPayload (pp_Payload prop) = Ok (input, transient) ∧
      UnmarshalChaincodeInvocationSpec input =
        Ok (Some (Proto.mkSpec (is_Name spec) (Some (mkInput (is_Args spec) (is_IsInit spec))))) }.

(** Incoming metadata of a call that sent these two values. *)
Definition outgoing (operation namespace : string) : Requests.incoming :=
  λ key, if bool_decide (key = Requests.GRPCOperationMetadata) then [operation]
         else if bool_decide (key = Requests.GRPCNamespaceMetadata) then [namespace] else [].

Section Commands.
Context {NL : Network.NetworkLib} {CP : ClientProto} {T : Tree.TreeText} {S : Type}.

(** The [ProcessProposal] and the Gateway's Evaluate of the orchestrator at a peer. *)
Variable process_proposal : Network.Peer → S → Requests.incoming → SignedProposal →
  option (S * result (option ProposalResponse)).
Variable sdk_evaluate : Network.Peer → LifecycleAuth.Signer → string → string → string → list bytes →
  gmap string bytes → list string → S → option (S * result bytes).
Variable env : client_env.

Definition newNonce : result bytes := env_random env.

Definition newSignedProposal (signer : LifecycleAuth.Signer) (channel namespace nsVersion : string)
    (args : list bytes) (transient : gmap string bytes) (isInit : bool) : result SignedProposal :=
  creator ← LifecycleAuth.Serialize signer;
  nonce ← newNonce;
  proposal ← CreateChaincodeProposalWithTxIDNonceAndTransient (ComputeTxID nonce creator) channel
    (mkSpec namespace nsVersion args isInit) nonce creator transient;
  GetSignedProposal proposal signer.

(** [cfg.Identity] and [cfg.Orchestrator.ToPeerConf()] of a validated configuration. *)
Definition identity_of (cfg : Config) : result Config.IdentityConfig :=
  match Identity cfg with Some id => Ok id | None => Err (ENew "panic: nil identity") end.

Definition peer_conf (cfg : Config) : result Config.PeerConf :=
  match Orchestrator cfg ≫= Config.ToPeerConf with
  | Some conf => Ok conf
  | None => Err (ENew "panic: nil endpoint")
  end.

Definition known_operation (operation : string) : bool :=
  bool_decide (operation = Requests.GRPCOperationInvoke) ||
  bool_decide (operation = Requests.GRPCOperationQuery).

(** The answer of the call, decoded. *)
Definition decode_response (resp : result (option ProposalResponse)) : result InvocationResponse :=
  match resp with
  | Err e => Err (EWrap "orchestrator grpc call failed: %w" e)
  | Ok resp =>
      match resp ≫= pr_Response with
      | None => Err (ENew "orchestrator returned no response")
      | Some r => Msp.wrap_err "decode orchestrator grpc response: %w" (Tree.Unmarshal Response.c_response (Payload r))
      end
  end.

Definition callOrchestrator (cfg : Config) (namespace ccName ccVersion operation : string)
    (txArgs : list bytes) (transient : gmap string bytes) (isInit : bool) (st : S) (n : Network.net)
    : option (S * Network.net * result InvocationResponse) :=
  match (id ← identity_of cfg;
         signer ← Msp.wrap_err "load identity: %w"
                    (env_SignerFromMSP env (Config.MSPDir id) (Config.MspID id));
         guard_err (negb (known_operation operation)) (ENew "unknown orchestrator operation %q");;
         prop ← Msp.wrap_err "create signed proposal: %w"
                  (newSignedProposal signer (ChannelID cfg) ccName ccVersion txArgs transient isInit);
         conf ← peer_conf cfg;
         Ok (prop, conf)) with
  | Err e => Some (st, n, Err e)
  | Ok (prop, conf) =>
      match Network.NewPeer n conf with
      | (n, Err e) => Some (st, n, Err (EWrap "create orchestrator grpc client: %w" e))
      | (n, Ok peer) =>
          '(st, resp) ← process_proposal peer st (outgoing operation namespace) prop;
          Some (st, (Network.close_peer n peer).1, decode_response resp)
      end
  end.

(** ** Commands *)

(** What [query] and [invoke] read before they call. *)
Definition target (fl : flags) (txJSON : string)
    : result (Config * list bytes * gmap string bytes * string * string * string) :=
  '(cfg, _, txArgs, transient) ← prepare env fl txJSON;
  ns ← namespaceFromFlag fl;
  '(ccName, ccVersion) ← chaincodeIdentity fl;
  Ok (cfg, txArgs, transient, ns, ccName, ccVersion).

Definition print_query (res : InvocationResponse) : result string :=
  if (out_Status res <? 200) || (400 <=? out_Status res)
  then Err (ENew "orchestrator returned error status %d: %s")
  else Ok (if bool_decide (out_Payload res = "") then "" else out_Payload res +:+ Cli.newline).

Definition query (fl : flags) (txJSON : string) (st : S) (n : Network.net)
    : option (S * Network.net * result string) :=
  match target fl txJSON with
  | Err e => Some (st, n, Err e)
  | Ok (cfg, txArgs, transient, ns, ccName, ccVersion) =>
      '(st, n, res) ← callOrchestrator cfg ns ccName ccVersion "query" txArgs transient false st n;
      Some (st, n, res ← res; print_query res)
  end.

Definition invoke (fl : flags) (isInit : bool) (txJSON : string) (st : S) (n : Network.net)
    : option (S * Network.net * result string) :=
  match target fl txJSON with
  | Err e => Some (st, n, Err e)
  | Ok (cfg, txArgs, transient, ns, ccName, ccVersion) =>
      '(st, n, res) ← callOrchestrator cfg ns ccName ccVersion "invoke" txArgs transient isInit st n;
      Some (st, n, res ← res; out ← marshal_indent res; Ok (out +:+ Cli.newline))
  end.

(** The name of the contract the Gateway SDK is asked for. *)
Definition contract_name (name namespace : string) : string := name +:+ ":" +:+ namespace.

(** Everything of [evaluate] before it connects. *)
Definition evaluate_target (fl : flags) (txJSON : string)
    : result (Config * bytes * list bytes * gmap string bytes * string * LifecycleAuth.Signer * Config.PeerConf) :=
  '(cfg, _, txArgs, transient) ← prepare env fl txJSON;
  match txArgs with
  | [] => Err (ENew "function is required")
  | f :: rest =>
      guard_err (bool_decide (f = "")) (ENew "function is required");;
      namespace ← namespaceFromFlag fl;
      '(name, _) ← chaincodeIdentity fl;
      guard_err (negb (bool_decide (f_version fl = "")))
        (ENew "evaluate selects the active definition by name; omit --version");;
      id ← identity_of cfg;
      signer ← env_SignerFromMSP env (Config.MSPDir id) (Config.MspID id);
      creator ← LifecycleAuth.Serialize signer;
      serialized ← unmarshal_identity creator;
      gateway_identity serialized.1 serialized.2;;
      conf ← peer_conf cfg;
      Ok (cfg, f, rest, transient, contract_name name namespace, signer, conf)
  end.

(** Connecting the SDK to a given connection is part of [sdk_evaluate]; closing it keeps the
    connection, which is closed after it. *)
Definition evaluate (fl : flags) (targetOrgs : list string) (txJSON : string) (st : S) (n : Network.net)
    : option (S * Network.net * result string) :=
  match evaluate_target fl txJSON with
  | Err e => Some (st, n, Err e)
  | Ok (cfg, f, rest, transient, contract, signer, conf) =>
      match Network.NewPeer n conf with
      | (n, Err e) => Some (st, n, Err e)
      | (n, Ok peer) =>
          '(st, res) ← sdk_evaluate peer signer (ChannelID cfg) contract f rest transient targetOrgs st;
          Some (st, (Network.close_peer n peer).1, res)
      end
  end.

End Commands.

(** ** What arrives *)

Section Arrival.
Context {L : Msp.MSPLib} {PU : ProtoUtil} {CP : ClientProto} {CL : ClientProtoLaws}.
Variable c : Service.config.
Variable env : client_env.

(** The request that stands for a client's call. *)
Definition sent_request (creator nonce : bytes) (sp : SignedProposal) (transient : gmap string bytes)
    (namespace name version : string) (isInit : bool) (f : bytes) (rest : list bytes) : InvocationRequest :=
  mkRequest None (ComputeTxID nonce creator) creator nonce (Some sp) transient [] "" "" namespace name
    version isInit f rest.

Lemma outgoing_operation operation namespace :
  known_operation operation = true →
  Requests.operationFromContext (outgoing operation namespace) = Ok operation.
Proof.
  unfold known_operation. rewrite orb_true_iff, !bool_decide_eq_true. by intros [-> | ->].
Qed.

Lemma outgoing_namespace operation namespace :
  namespace ≠ "" → Requests.namespaceFromContext (outgoing operation namespace) = Some namespace.
Proof.
  intros Hn. unfold Requests.namespaceFromContext, outgoing. rewrite bool_decide_eq_false_2 by done.
  rewrite bool_decide_eq_true_2 by done. by rewrite bool_decide_eq_false_2.
Qed.

Lemma newSignedProposal_ok signer channel name version args transient isInit sp :
  newSignedProposal env signer channel name version args transient isInit = Ok sp →
  ∃ creator nonce prop, LifecycleAuth.Serialize signer = Ok creator ∧ env_random env = Ok nonce ∧
    CreateChaincodeProposalWithTxIDNonceAndTransient (ComputeTxID nonce creator) channel
      (mkSpec name version args isInit) nonce creator transient = Ok prop ∧
    GetSignedProposal prop signer = Ok sp.
Proof.
  unfold newSignedProposal. intros H. apply bind_ok in H as (creator & Hc & H).
  apply bind_ok in H as (nonce & Hn & H). apply bind_ok in H as (prop & Hp & H). by exists creator, nonce, prop.
Qed.

(** What the orchestrator reads of the proposal before it authorizes it. *)
Lemma requestFromProposal_sent creator nonce channel name version args transient isInit prop nsVersion :
  CreateChaincodeProposalWithTxIDNonceAndTransient (ComputeTxID nonce creator) channel
    (mkSpec name version args isInit) nonce creator transient = Ok prop →
  Requests.requestFromProposal
    (mkInv (ComputeTxID nonce creator) channel name args creator nonce version nsVersion (Some prop)) =
  match args with
  | f :: rest =>
      if bool_decide (f = "") then Err (ENew "orchestrator proposal requires function")
      else Ok (mkRequest None "" "" "" None transient [] "" "" "" name version isInit f rest)
  | [] => Err (ENew "orchestrator proposal requires function")
  end.
Proof.
  intros Hp. apply created_payload in Hp as (input & Hpay & Hspec). unfold Requests.requestFromProposal.
  cbn [inv_Args inv_Proposal inv_Namespace inv_ChaincodeVersion]. destruct args as [|f rest]; [done|].
  case_bool_decide; [done|]. unfold Helper.ProposalIsInit. rewrite Hpay. cbn [fst snd].
  by rewrite Hspec.
Qed.

(** The signed part of the request, before it is authorized. *)
Definition signed_part (args : list bytes) (transient : gmap string bytes) (isInit : bool)
    (operation namespace name version : string) : result InvocationRequest :=
  match args with
  | [] => Err (ENew "orchestrator proposal requires function")
  | f :: rest =>
      guard_err (bool_decide (f = "")) (ENew "orchestrator proposal requires function");;
      guard_err (isInit && bool_decide (operation = Requests.GRPCOperationQuery))
        (ENew "is-init is only valid for invoke");;
      Ok (mkRequest None "" "" "" None transient [] "" "" namespace name version isInit f rest)
  end.

(** Admission of a proposal that was made by the client. *)
Lemma proposal_request_sent signer creator nonce channel name version args transient isInit prop sp operation
    namespace now inv :
  CreateChaincodeProposalWithTxIDNonceAndTransient (ComputeTxID nonce creator) channel
    (mkSpec name version args isInit) nonce creator transient = Ok prop →
  GetSignedProposal prop signer = Ok sp → efab_Parse (Some sp) now = Ok inv →
  known_operation operation = true → namespace ≠ "" →
  Service.proposal_request c (outgoing operation namespace) now (Some sp) =
    (guard_err (negb (bool_decide (channel = Service.c_channel c)))
       (EStatus CodeInvalidArgument (ENew "channel must be %s"));;
     id ← Auth.status_err CodeUnauthenticated
            (Auth.authenticate (Auth.s_proposalAuth (Service.c_auth c)) (Some sp) creator now);
     r ← Auth.status_err CodeInvalidArgument (signed_part args transient isInit operation namespace name version);
     r ← Auth.authorizeClientInvocation (Service.c_auth c) (inv, id) (Some sp) r;
     Ok (operation, r)) ∧
  inv_TxID inv = ComputeTxID nonce creator ∧ inv_Creator inv = creator ∧ inv_Nonce inv = nonce.
Proof.
  intros Hcp Hsp Hparse Hop Hns. destruct (signed_bytes prop signer sp Hsp) as [Hbytes _].
  destruct (created_parses _ _ _ _ _ _ _ _ _ _ Hcp Hsp Hparse) as [nsv ->]. split; [|done].
  pose proof (created_header _ _ _ _ _ _ _ Hcp) as Hhdr. cbn [is_Name is_Version is_Args] in *.
  assert (Hne : operation ≠ Requests.GRPCOperationEndorse).
  { unfold known_operation in Hop. rewrite orb_true_iff, !bool_decide_eq_true in Hop.
    destruct Hop as [-> | ->]; discriminate. }
  unfold Service.proposal_request, Auth.authenticateClientProposal. cbn [from_option].
  rewrite bool_decide_eq_false_2 by done. rewrite Hparse.
  cbn [Auth.status_err mbind result_mbind inv_Channel inv_Creator inv_Proposal inv_Namespace inv_ChaincodeVersion].
  fold (Service.c_channel c). destruct (guard_err _ _); [|reflexivity]. cbn [mbind result_mbind].
  destruct (Auth.status_err _ _) as [id|]; [|reflexivity]. cbn [mbind result_mbind]. rewrite Hhdr.
  cbn [mbind result_mbind]. rewrite bool_decide_eq_true_2 by done. cbn [negb guard_err mbind result_mbind fst].
  rewrite outgoing_operation by done. cbn [mbind result_mbind].
  rewrite (requestFromProposal_sent _ _ _ _ _ _ _ _ _ _ Hcp). unfold signed_part.
  destruct args as [|f rest]; [reflexivity|]. destruct (bool_decide (f = "")); [reflexivity|]. cbn [guard_err mbind result_mbind].
  unfold Service.qualified_route. rewrite (bool_decide_eq_false_2 (operation = Requests.GRPCOperationEndorse)) by done.
  cbn [andb mbind result_mbind]. unfold Service.forwarded_namespace. rewrite outgoing_namespace by done.
  cbn [Namespace ChaincodeName]. rewrite (bool_decide_eq_true_2 ("" = "")) by done. cbn [negb andb mbind result_mbind].
  unfold Requests.validateInitMetadata. change (outgoing operation namespace Requests.GRPCInitMetadata) with (@nil string).
  cbn [Requests.check_init_metadata mbind result_mbind Requests.with_route IsInit].
  by destruct (guard_err _ _).
Qed.

(** An orchestrator that accepts a client's query or invocation is asked for exactly what the
    client was told: the request it makes of the signed proposal and the metadata has the client's
    namespace, chaincode name and version, function, arguments, transient data and init flag, and
    its identity, nonce and transaction; and a proposal it can parse is accepted exactly when there
    is a function, the channel is its own, a query does not initialize, and the creator's signature
    is authentic and authorized for that chaincode and namespace. *)
Theorem client_request_arrives signer channel name version args transient isInit sp operation namespace
    now inv operation' req :
  newSignedProposal env signer channel name version args transient isInit = Ok sp →
  known_operation operation = true → namespace ≠ "" → efab_Parse (Some sp) now = Ok inv →
  Service.proposal_request c (outgoing operation namespace) now (Some sp) = Ok (operation', req) ↔
  ∃ creator nonce f rest id,
    LifecycleAuth.Serialize signer = Ok creator ∧ env_random env = Ok nonce ∧ args = f :: rest ∧ f ≠ "" ∧
    channel = Service.c_channel c ∧ (operation = "query" → isInit = false) ∧
    Auth.authenticate (Auth.s_proposalAuth (Service.c_auth c)) (Some sp) creator now = Ok id ∧
    Auth.authorize (Auth.s_proposalAuth (Service.c_auth c)) (Some id) name namespace = Ok () ∧
    operation' = operation ∧ req = sent_request creator nonce sp transient namespace name version isInit f rest.
Proof.
  intros Hnew Hop Hns Hparse. apply newSignedProposal_ok in Hnew as (creator & nonce & prop & Hcr & Hno & Hcp & Hsp).
  destruct (proposal_request_sent signer creator nonce channel name version args transient isInit prop sp
    operation namespace now inv Hcp Hsp Hparse Hop Hns) as (Heq & Htx & Hcreator & Hnonce).
  rewrite Heq. clear Heq. split.
  - intros H. apply bind_ok in H as ([] & Hch & H). apply guard_err_ok in Hch. bool_props.
    apply bind_ok in H as (id & Hid & H). apply Auth.status_err_ok in Hid.
    apply bind_ok in H as (r & Hr & H). apply Auth.status_err_ok in Hr. unfold signed_part in Hr.
    destruct args as [|f rest]; [done|]. apply bind_ok in Hr as ([] & Hf & Hr). apply guard_err_ok in Hf.
    apply bind_ok in Hr as ([] & Hi & [= <-]). apply guard_err_ok in Hi. bool_props.
    apply bind_ok in H as (r & Hr & [= <- <-]).
    apply Auth.authorizeClientInvocation_ok in Hr as (ns & args & Hprep & -> & Hrule).
    apply Service.prepared_namespace in Hprep as [_ Hsame]. assert (ns = namespace) as -> by exact (Hsame Hns).
    exists creator, nonce, f, rest, id. split_and!; try done.
    + intros ->. by destruct isInit.
    + unfold sent_request. cbn. by rewrite Htx, Hcreator, Hnonce.
  - intros (creator' & nonce' & f & rest & id & Hcr' & Hno' & -> & Hf & Hch & Hi & Hid & Hau & -> & ->).
    rewrite Hcr in Hcr'. injection Hcr' as <-. rewrite Hno in Hno'. injection Hno' as <-.
    rewrite bool_decide_eq_true_2 by done. cbn [negb guard_err mbind result_mbind]. rewrite Hid.
    cbn [Auth.status_err mbind result_mbind]. unfold signed_part. rewrite (bool_decide_eq_false_2 (f = "")) by done.
    cbn [guard_err mbind result_mbind].
    replace (isInit && bool_decide (operation = Requests.GRPCOperationQuery)) with false
      by (case_bool_decide as Hq; [by rewrite (Hi Hq)|by rewrite andb_false_r]).
    cbn [guard_err mbind result_mbind Auth.status_err]. unfold Auth.authorizeClientInvocation.
    unfold Requests.prepareInvocation, Requests.invocationArgs, Requests.with_client. cbn [fst snd Namespace Function Args].
    rewrite (bool_decide_eq_false_2 (namespace = "")), (bool_decide_eq_false_2 (namespace = "")) by done.
    rewrite (bool_decide_eq_false_2 (f = "")) by done. cbn [Auth.status_err mbind result_mbind fst ChaincodeName].
    cbn -[Auth.authorize]. rewrite Hau. cbn. unfold sent_request. by rewrite Htx, Hcreator, Hnonce.
Qed.

End Arrival.

(** ** Calls *)

Section Calls.
Context {L : Msp.MSPLib} {P : Policy.PolicyLib} {R : Collect.RemoteOrchestrators}.
Context {PU : ProtoUtil} {PL : Invocation.ProposalLib} {J : Json.JSONText} {PP : PolicyResolver.PolicyProto}.
Context {NL : Network.NetworkLib} {CP : ClientProto} {CL : ClientProtoLaws}.
Context {T : Tree.TreeText} {TL : Response.ReplacingLaws}.
Variable eventOf : SdkEndorsement → string → option ChaincodeEvent.
Variable Status_String : Finality.CommitterStatus → string.
Variable sha256_hex : bytes → string.
Variable c : Service.config.
Variable env : client_env.

(** The encoder never fails on a response: its fields are strings, integers and booleans. *)
Definition marshal_response (r : InvocationResponse) : result bytes := Ok (Tree.Marshal Response.c_response r).

(** What a call meets at the orchestrator. *)
Record served_env := mkServed {
  sv_now : Z;
  sv_senv : Invocation.stage_env;
  sv_cenv : Invocation.collect_env;
  sv_ctx : ctx_err;
  sv_begun : Z;
  sv_submission : Service.submission_env;
  sv_replay : Service.replay_env }.

(** The orchestrator of [Service.v] behind every peer; errors reach the client as they are. *)
Definition served (e : served_env) (_ : Network.Peer) (s : Idempotency.idempotencyStore) (md : Requests.incoming)
    (sp : SignedProposal) : option (Idempotency.idempotencyStore * result (option ProposalResponse)) :=
  '(s, r) ← Service.ProcessProposal eventOf Status_String sha256_hex c marshal_response md (sv_now e) s (Some sp)
    (sv_senv e) (sv_cenv e) (sv_ctx e) (sv_begun e) (sv_submission e) (sv_replay e);
  Some (s, resp ← r; Ok (Some resp.1)).

(** What the client decodes of the outcome of an execution: of a failed one nothing, of a
    successful one the response as JSON carries it. *)
Definition answered (out : InvocationResponse) (err : option goerr) (r : result InvocationResponse) : Prop :=
  match err with
  | Some _ => is_ok r = false
  | None => Response.ranged out → r = Ok (Response.received out)
  end.

(** What the orchestrator did for a request. *)
Definition executed (e : served_env) (operation : string) (req : InvocationRequest)
    (s s' : Idempotency.idempotencyStore) (r : result InvocationResponse) : Prop :=
  (operation = Requests.GRPCOperationInvoke ∧ ∃ out err,
     Service.Execute_submit eventOf Status_String sha256_hex c (sv_begun e) s req (sv_senv e) (sv_cenv e)
       (sv_submission e) (sv_replay e) = Some (s', out, err) ∧ answered out err r) ∨
  (operation = Requests.GRPCOperationQuery ∧ s' = s ∧
     match Service.Execute_query c (sv_senv e) (sv_ctx e) req with
     | Some (Ok out) => answered out None r ∧
         Json.base64_decode (out_PayloadBase64 (Response.received out)) = Ok (out_Payload out)
     | Some (Err er) => answered zero_response (Some er) r
     | None => False
     end).

(** The response of a query has the payload in base64 beside the text. *)
Lemma query_payload senv ctx req out :
  Service.Execute_query c senv ctx req = Some (Ok out) → out_PayloadBase64 out = Json.base64 (out_Payload out).
Proof.
  unfold Service.Execute_query, Invocation.flow_bind. destruct (Invocation.evaluate _ _ _ _ _ _) as [[result|er]|]; [|done..].
  destruct (res_Response result); [|done]. by intros [= <-].
Qed.

(** The client reads the response the orchestrator wrote. *)
Lemma decode_marshalled status message out :
  Response.ranged out →
  decode_response (Ok (Some (mkProposalResponse
    (Some (mkResponse status message (Tree.Marshal Response.c_response out))) "" None))) =
    Ok (Response.received out).
Proof. intros Hr. unfold decode_response. cbn [mbind option_bind pr_Response Payload]. by rewrite Response.response_received. Qed.

Lemma served_spec e peer s operation namespace sp s' resp :
  known_operation operation = true →
  served e peer s (outgoing operation namespace) sp = Some (s', resp) →
  (s' = s ∧ is_ok resp = false) ∨
  ∃ req, Service.proposal_request c (outgoing operation namespace) (sv_now e) (Some sp) = Ok (operation, req) ∧
    executed e operation req s s' (decode_response resp).
Proof.
  intros Hop H. unfold served in H.
  destruct (Service.ProcessProposal _ _ _ _ _ _ _ _ _ _ _ _ _ _ _) as [[s1 r]|] eqn:E; [|done].
  cbn [mbind option_bind] in H. injection H as <- <-. unfold Service.ProcessProposal in E.
  destruct (Service.proposal_request _ _ _ _) as [[op req]|er] eqn:Hreq; [|injection E as <- <-; by left].
  assert (op = operation) as ->.
  { unfold Service.proposal_request in Hreq. apply bind_ok in Hreq as (pr & _ & Hreq).
    apply bind_ok in Hreq as ([op1 r1] & H1 & Hreq). apply Auth.status_err_ok in H1.
    rewrite outgoing_operation in H1 by done. cbn [mbind result_mbind] in H1.
    apply bind_ok in H1 as (? & _ & H1). apply bind_ok in H1 as (? & _ & H1). apply bind_ok in H1 as (? & _ & H1).
    apply bind_ok in H1 as (? & _ & H1). apply bind_ok in H1 as (? & _ & [= -> _]).
    by apply bind_ok in Hreq as (? & _ & [= -> _]). }
  right. exists req. split; [done|]. unfold executed.
  unfold known_operation in Hop. rewrite orb_true_iff, !bool_decide_eq_true in Hop. destruct Hop as [-> | ->]; cbn in E.
  - left. split; [done|]. destruct (Service.Execute_submit _ _ _ _ _ _ _ _ _ _ _) as [[[s2 out] err]|]; [|done].
    cbn in E. injection E as <- <-. exists out, err. split; [done|]. destruct err as [er|]; [done|].
    intros Hr. by apply decode_marshalled.
  - right. split; [done|]. destruct (Service.Execute_query _ _ _ _) as [[out|er]|] eqn:Hq; [| |done]; cbn in E.
    + injection E as <- <-. split; [done|]. split; [intros Hr; by apply decode_marshalled|].
      by apply Response.received_payload, (query_payload _ _ _ _ Hq).
    + injection E as <- <-. by split.
Qed.

(** How a call ends: nothing was sent, no connection was made, or the orchestrator at the new one
    answered, and it is closed. *)
Lemma callOrchestrator_spec e cfg namespace ccName ccVersion operation txArgs transient isInit s n s' n' r :
  Network.net_ok n →
  callOrchestrator (served e) env cfg namespace ccName ccVersion operation txArgs transient isInit s n =
    Some (s', n', r) →
  Network.opened n' = Network.opened n ∧
  ((s' = s ∧ is_ok r = false) ∨
   ∃ id signer sp peer resp, Identity cfg = Some id ∧
     env_SignerFromMSP env (Config.MSPDir id) (Config.MspID id) = Ok signer ∧ known_operation operation = true ∧
     newSignedProposal env signer (ChannelID cfg) ccName ccVersion txArgs transient isInit = Ok sp ∧
     served e peer s (outgoing operation namespace) sp = Some (s', resp) ∧ r = decode_response resp).
Proof.
  intros Hn. unfold callOrchestrator.
  destruct (id ← identity_of cfg; _) as [[sp conf]|er] eqn:Hpre.
  2:{ intros [= <- <- <-]. split; [done|by left]. }
  apply bind_ok in Hpre as (id & Hid & Hpre). unfold identity_of in Hid.
  destruct (Identity cfg) as [id'|] eqn:Hcfg; [injection Hid as ->|done].
  apply bind_ok in Hpre as (signer & Hsg & Hpre). apply Msp.wrap_err_ok in Hsg.
  apply bind_ok in Hpre as ([] & Hop & Hpre). apply guard_err_ok in Hop. apply negb_false_iff in Hop.
  apply bind_ok in Hpre as (sp' & Hsp & Hpre). apply bind_ok in Hpre as (conf' & _ & [= -> ->]).
  apply Msp.wrap_err_ok in Hsp.
  destruct (Network.NewPeer n conf) as [n1 [peer|er]] eqn:Hp.
  - apply Network.NewPeer_ok in Hp as (Hg & _ & Hmade & _); [|done].
    destruct (served e peer s _ sp) as [[s1 resp]|] eqn:Hs; [|done]. cbn [mbind option_bind].
    intros [= <- <- <-]. split; [by apply Network.close_new|]. right. by exists id, signer, sp, peer, resp.
  - apply Network.NewPeer_err in Hp as [[_ Hg] _]; [|done]. intros [= <- <- <-].
    split; [by rewrite Hg, app_nil_r|by left].
Qed.

(** C23: A call of the client against the orchestrator's service either fails without having changed
    a submission record, or the orchestrator accepted and ran exactly the request the client was
    told to make, with the namespace, chaincode, arguments, transient data and init flag of the
    command and the client's own identity, nonce and transaction; a query changes no record.  Of a
    failed execution the client gets an error, and of a successful one it decodes exactly the
    response that was computed, with every byte of its text fields that is not valid UTF-8 replaced
    by U+FFFD; the payload of a query it also has byte for byte, in base64.  Either way the client
    leaves no connection open. *)
Theorem call_end_to_end e cfg namespace ccName ccVersion operation txArgs transient isInit s n s' n' r :
  Network.net_ok n → namespace ≠ "" →
  callOrchestrator (served e) env cfg namespace ccName ccVersion operation txArgs transient isInit s n =
    Some (s', n', r) →
  Network.opened n' = Network.opened n ∧
  ((s' = s ∧ is_ok r = false) ∨
   ∃ id signer creator nonce sp f rest,
     Identity cfg = Some id ∧ env_SignerFromMSP env (Config.MSPDir id) (Config.MspID id) = Ok signer ∧
     LifecycleAuth.Serialize signer = Ok creator ∧ env_random env = Ok nonce ∧
     LifecycleAuth.Sign signer (ProposalBytes sp) = Ok (sp_Signature sp) ∧
     txArgs = f :: rest ∧ f ≠ "" ∧ ChannelID cfg = Service.c_channel c ∧
     let req := sent_request creator nonce sp transient namespace ccName ccVersion isInit f rest in
     Service.proposal_request c (outgoing operation namespace) (sv_now e) (Some sp) = Ok (operation, req) ∧
     executed e operation req s s' r).
Proof.
  intros Hn Hns H. apply callOrchestrator_spec in H as [Ho H]; [|done]. split; [done|].
  destruct H as [H|(mid & signer & sp & peer & resp & Hmid & Hsg & Hop & Hnew & Hs & ->)]; [by left|].
  apply served_spec in Hs as [[-> Hr]|(req & Hreq & Hex)]; [|right|done].
  { left. split; [done|]. by destruct resp. }
  pose proof Hreq as Hinv. unfold Service.proposal_request in Hinv.
  apply bind_ok in Hinv as ([inv id0] & Hau & _).
  apply Auth.authenticateClientProposal_ok in Hau as (Hparse & _).
  destruct (proj1 (client_request_arrives c env signer _ _ _ _ _ _ sp operation namespace _ inv operation req
    Hnew Hop Hns Hparse) Hreq) as (creator & nonce & f & rest & id & Hcr & Hno & Hargs & Hf & Hch & Hi & Hid & Hau & _ & Heq).
  subst txArgs req.
  pose proof Hnew as Hsig. apply newSignedProposal_ok in Hsig as (? & ? & prop & _ & _ & _ & Hsig).
  apply signed_bytes in Hsig as [_ Hsig].
  exists mid, signer, creator, nonce, sp, f, rest. split_and!; try done.
Qed.

End Calls.

(** The commands' copies of the address parser are one function. *)
Lemma parseHostEndpoint_cli value : parseHostEndpoint value = Cli.parseHostEndpoint value.
Proof. reflexivity. Qed.

(** A contract name the Gateway accepts names the client's chaincode and namespace. *)
Lemma contract_route name namespace cc ns :
  Requests.gatewayChaincodeRoute (contract_name name namespace) = Ok (cc, ns) → cc = name ∧ ns = namespace.
Proof.
  unfold Requests.gatewayChaincodeRoute, contract_name.
  destruct (Requests.Cut (name +:+ ":" +:+ namespace)) as [[a b]|] eqn:Hcut; [|done].
  destruct (_ || _) eqn:E; [done|]. intros [= -> ->].
  rewrite !orb_false_iff in E. destruct E as [[[_ Hb] _] _]. clear - Hcut Hb.
  revert cc Hcut. induction name as [|x name IH]; intros cc Hcut.
  - cbn in Hcut. injection Hcut as <- <-. done.
  - change (String x name +:+ ":" +:+ namespace) with (String x (name +:+ ":" +:+ namespace)) in Hcut.
    cbn [Requests.Cut] in Hcut. destruct (Ascii.eqb_spec x ":") as [->|Hx].
    + injection Hcut as <- <-. rewrite GoStrings.has_char_app in Hb. cbn in Hb.
      by rewrite orb_true_r in Hb.
    + destruct (Requests.Cut _) as [[a b]|] eqn:Hc; [|done]. injection Hcut as <- ->.
      by destruct (IH a eq_refl) as [-> ->].
Qed.

(** ** Example *)

(** Proposals as framed fields; whatever is not one is left to [example_util]. *)
Definition ex_header (b : bytes) : option (string * string * string * string * bytes * bytes) := Framing.unpack b.

Definition ex_input (b : bytes) : option (string * list bytes * bool) := Framing.unpack b.

Definition ex_payload (b : bytes) : option (bytes * gmap string bytes) := Framing.unpack b.

Definition ex_parse (b : bytes) : option Invocation :=
  match Framing.unframe b with
  | Some [h; p; x] =>
      '(channel, txid, name, version, creator, nonce) ← ex_header h;
      '(input, transient) ← ex_payload p;
      '(_, args, _) ← ex_input input;
      Some (mkInv txid channel name args creator nonce version 0 (Some (mkProposal h p x)))
  | _ => None
  end.

Definition ex_util : ProtoUtil := {|
  efab_Parse p now :=
    match p ≫= (λ sp, ex_parse (ProposalBytes sp)) with
    | Some inv => Ok inv
    | None => efab_Parse (ProtoUtil := example_util) p now
    end;
  UnmarshalProposal b :=
    match Framing.unframe b with
    | Some [h; p; x] => Ok (mkProposal h p x)
    | _ => UnmarshalProposal (ProtoUtil := example_util) b
    end;
  UnmarshalHeader b := Ok (mkHeader b b);
  UnmarshalChannelHeader b := Ok (mkChannelHdr "ch" "tx1" b 0);
  UnmarshalSignatureHeader b := Ok "Org1MSP:alice";
  UnmarshalPayload b := Ok (Some (mkHeader "ch" b), b);
  UnmarshalHeaderExtension b :=
    match ex_header b with
    | Some (_, _, name, version, _, _) => Ok (Some (name, version))
    | None => Ok (Some ("cc:ns", ""))
    end;
  UnmarshalChaincodeProposalPayload b :=
    match ex_payload b with Some p => Ok p | None => Ok (b, ∅) end;
  UnmarshalChaincodeInvocationSpec b :=
    match ex_input b with
    | Some (name, args, isInit) => Ok (Some (Proto.mkSpec name (Some (mkInput args isInit))))
    | None => Ok (Some (Proto.mkSpec "cc:ns" (Some (mkInput ["put"] false))))
    end;
  GetProposalHash1 _ b := Ok b;
  UnmarshalTx := UnmarshalTx (ProtoUtil := example_util);
  MarshalTx := MarshalTx (ProtoUtil := example_util);
  NsASN1Marshal := NsASN1Marshal (ProtoUtil := example_util) |}.

Definition ex_proto : ClientProto := {|
  ComputeTxID _ _ := "tx1";
  CreateChaincodeProposalWithTxIDNonceAndTransient txid channel spec nonce creator transient :=
    Ok (mkProposal (Framing.pack (channel, txid, is_Name spec, is_Version spec, creator, nonce))
          (Framing.pack (Framing.pack (is_Name spec, is_Args spec, is_IsInit spec), transient)) "");
  GetSignedProposal p signer :=
    let b := Framing.frame [Header p; pp_Payload p; Extension p] in
    sig ← LifecycleAuth.Sign signer b; Ok (mkSignedProposal b sig);
  marshal_indent r := Ok (out_PayloadBase64 r);
  unmarshal_identity b := Ok ("Org1MSP", b);
  gateway_identity _ _ := Ok () |}.

Lemma ex_proto_laws : @ClientProtoLaws ex_util ex_proto.
Proof.
  split.
  - intros prop signer sp H. cbn in H. apply bind_ok in H as (sig & Hs & [= <-]). cbn. split; [|done].
    apply Framing.frame_nonempty.
  - intros channel spec nonce creator transient prop signer sp now inv [= <-] H Hp. cbn in H.
    apply bind_ok in H as (sig & _ & [= <-]). cbn in Hp. unfold ex_parse in Hp.
    rewrite Framing.unframe_frame in Hp. unfold ex_header, ex_payload, ex_input in Hp.
    rewrite !Framing.unpack_pack in Hp. cbn in Hp. rewrite Framing.unpack_pack in Hp. cbn in Hp.
    injection Hp as <-. by exists 0.
  - intros channel txid spec nonce creator transient prop [= <-]. unfold Auth.header_chaincode. cbn.
    unfold ex_header. by rewrite Framing.unpack_pack.
  - intros channel txid spec nonce creator transient prop [= <-]. cbn. unfold ex_payload, ex_input.
    eexists. rewrite Framing.unpack_pack. split; [done|]. by rewrite Framing.unpack_pack.
Qed.

#[local] Existing Instances Instances.example_msp Instances.example_policy Collect.ex_remotes ex_util ex_proto
  Response.ex_text Json.example_json Service.ex_proposals Service.ex_policies.

Definition ex_network : Network.NetworkLib := {| Network.dial _ _ := None; Network.close_error _ := None |}.

Definition ex_signer : LifecycleAuth.Signer := LifecycleAuth.mkSigner (Ok "Org1MSP:alice") (λ _, Ok "alice").

Definition ex_env : client_env :=
  mkClientEnv (λ _, Ok "") (λ _, None) (λ _, Err (ENew "unused")) (λ _, Err (ENew "unused"))
    (λ _ _, Ok ex_signer) (Ok "n1").

Definition ex_cfg : Config :=
  mkConfig "ch" "" (Some (Config.mkIdentityConfig "Org1MSP" "msp"))
    (Some (Config.mkClientConfig (Some (Config.mkEndpoint "localhost" 7050)) Config.no_tls)).

(** A chaincode that answers with bytes that are not text. *)
Definition ex_helper : Helper.Service :=
  Helper.mkService "ch" {["*" := Helper.ex_executor]}
    (λ inv r, Ok (mkProposalResponse (Some (mkResponse 200 "" Response.ex_binary)) "native"
                    (Some (mkEndorsement "Org1MSP:peer" "peer"))))
    (Some (λ _, Ok "peer"))
    (λ r, mkResponse 200 "" "").

Definition ex_stage : Invocation.stage_env :=
  Invocation.mkStageEnv None None (Some ∅) (Some (Ok [PolicyResolver.mkItem "ns" 1 "Org1MSP"]))
    (Some (Invocation.mkCall ex_helper Exec.ex_env 50)) Service.ex_evidence.

Definition ex_served : served_env :=
  mkServed 50 ex_stage Service.ex_collect None 10 Service.ex_submission Service.ex_replay.

(** The client's query of chaincode [cc:ns] in namespace [ns]. *)
Definition ex_call : option (Idempotency.idempotencyStore * Network.net * result InvocationResponse) :=
  @callOrchestrator ex_network ex_proto _ _
    (served Idempotency.ex_event Submission.ex_status_string Service.ex_hash Service.ex_client_config ex_served)
    ex_env ex_cfg "ns" "cc" "" "query" ["get"; "k"] ∅ false Idempotency.newIdempotencyStore Network.no_connections.

Lemma ex_call_answer :
  (λ t, res ← t.2; Ok (GoText.bytes_of (out_Payload res), out_PayloadBase64 res)) <$> ex_call =
    Some (Ok ([0; 239; 191; 189], "AP8=")).
Proof. vm_compute. reflexivity. Qed.

Lemma call_end_to_end_witness :
  ∃ s' n' res, ex_call = Some (s', n', Ok res) ∧ Network.opened n' = [] ∧
    ∃ sp f rest, ["get"; "k"] = f :: rest ∧
      executed Idempotency.ex_event Submission.ex_status_string Service.ex_hash Service.ex_client_config ex_served
        "query" (sent_request "Org1MSP:alice" "n1" sp ∅ "ns" "cc" "" false f rest)
        Idempotency.newIdempotencyStore s' (Ok res).
Proof.
  pose proof ex_call_answer as Hok. destruct ex_call as [[[s' n'] r]|] eqn:E; [|discriminate Hok].
  destruct r as [res|er]; [|discriminate Hok].
  exists s', n', res. split; [reflexivity|].
  destruct (call_end_to_end (CL := ex_proto_laws) (NL := ex_network) (TL := Response.ex_text_laws)
    Idempotency.ex_event Submission.ex_status_string
    Service.ex_hash Service.ex_client_config ex_env ex_served ex_cfg "ns" "cc" "" "query" ["get"; "k"] ∅
    false Idempotency.newIdempotencyStore Network.no_connections s' n' (Ok res) (Forall_nil_2 _)
    ltac:(discriminate) E)
    as [Ho [[_ Hr]|(id & signer & creator & nonce & sp & f & rest & _ & Hsg & Hcr & Hno & _ & Hargs & _ & _ & _ & Hex)]].
  - discriminate Hr.
  - split; [exact Ho|]. exists sp, f, rest. split; [exact Hargs|].
    injection Hsg as <-. injection Hcr as <-. injection Hno as <-. exact Hex.
Defined.

End Client.
