(* ===== verification/Chaincode.v ===== *)
(** Chaincode behind the shim: the sample chaincodes [sample_external_chaincode/cmd/server/main.go]
    and [cmd/e2e-server/main.go], as programs of stub calls.

    A program is a tree of the calls it makes, with what it does with each answer.  The chaincode
    library's stub is the class [StubLib]: what it refuses before it sends anything, its composite
    keys, and the encoding of its messages.  A program runs in two ways: [exec] acts on the state
    of an invocation, and [session] is the stream of messages that a chaincode process running the
    program sends, each after the handler's reply to the one before. *)
From Stdlib Require Import ZArith Lia Ascii.
From stdpp Require Import base option list strings gmap.
From S2P Require Import Prelude LifecycleStore OrchestratorTypes GoStrings Json ExecContext Shim.
From S2P Require Import Framing.
Import Types Shim.
Local Open Scope Z_scope.

Module Chaincode.

(** ** Programs *)

Inductive prog (A : Type) : Type :=
  | Ret (a : A)
  | GetState (key : string) (k : result bytes → prog A)
  | PutState (key : string) (value : bytes) (k : option goerr → prog A)
  | DelState (key : string) (k : option goerr → prog A)
  | GetStateByRange (startKey endKey : string) (k : result (list (result bytes)) → prog A)
  | SetEvent (name : string) (payload : bytes) (k : option goerr → prog A).
Arguments Ret {A}.
Arguments GetState {A}.
Arguments PutState {A}.
Arguments DelState {A}.
Arguments GetStateByRange {A}.
Arguments SetEvent {A}.

Fixpoint bind {A B} (f : A → prog B) (p : prog A) : prog B :=
  match p with
  | Ret a => f a
  | GetState key k => GetState key (λ r, bind f (k r))
  | PutState key value k => PutState key value (λ e, bind f (k e))
  | DelState key k => DelState key (λ e, bind f (k e))
  | GetStateByRange startKey endKey k => GetStateByRange startKey endKey (λ r, bind f (k r))
  | SetEvent name payload k => SetEvent name payload (λ e, bind f (k e))
  end.

#[export] Instance prog_mbind : MBind prog := @bind.

(** What a stub gives without a message: the transaction and its proposal. *)
Record stub := mkStub {
  GetArgs : list bytes;
  GetFunctionAndParameters : string * list string;
  GetTxID : string;
  GetChannelID : string;
  GetCreator : result bytes;
  cid_GetMSPID : result string;
  cid_GetID : result string;
  GetBinding : result bytes;
  GetTransient : result (gmap string bytes);
  (** Seconds and nanoseconds. *)
  GetTxTimestamp : result (Z * Z);
  GetSignedProposal : result (option SignedProposal);
  GetDecorations : gmap string bytes }.

(** What the stub refuses on its own, its composite keys, the text of an error and the encoding of
    the messages of a process. *)
Class StubLib := {
  put_error : string → bytes → option goerr;
  del_error : string → option goerr;
  event_error : string → bytes → option goerr;
  CreateCompositeKey : string → list string → result string;
  SplitCompositeKey : string → result (string * list string);
  err_text : goerr → string;
  MarshalGetState : string → bytes;
  MarshalPutState : string → bytes → bytes;
  MarshalDelState : string → bytes;
  MarshalRange : string → string → bytes;
  MarshalResponse : Response → bytes }.

(** The handler decodes what the stub encodes. *)
Class StubLaws {SP : ShimProto} {SL : StubLib} : Prop := {
  get_decodes key : UnmarshalGetState (MarshalGetState key) = Ok (key, "");
  put_decodes key value : UnmarshalPutState (MarshalPutState key value) = Ok (key, value, "");
  del_decodes key : UnmarshalDelState (MarshalDelState key) = Ok (key, "");
  response_decodes r : UnmarshalResponse (MarshalResponse r) = Ok r }.

(** ** Running a program on the state of an invocation *)

Section Semantics.
Context {S : Type} {SS : ShimState S} {SL : StubLib}.

(** The context that a read in a state meets. *)
Variable ctx_of : S → GetCtx.

(** An error that crossed the stream is its text. *)
Definition sent_error (e : goerr) : goerr := EExt (err_text e).

Definition got (r : result bytes) : result bytes :=
  match r with Ok v => Ok v | Err e => Err (sent_error (EWrap "get state %q: %w" e)) end.

Definition no_range : goerr := sent_error (ENew "unsupported chaincode message type %s").

Fixpoint exec {A} (p : prog A) (st : S) (ev : option Event) : A * S * option Event :=
  match p with
  | Ret a => (a, st, ev)
  | GetState key k => let '(st', r) := st_GetState (ctx_of st) key st in exec (k (got r)) st' ev
  | PutState key value k =>
      match put_error key value with
      | Some e => exec (k (Some e)) st ev
      | None => exec (k None) (st_PutState key value st) ev
      end
  | DelState key k =>
      match del_error key with
      | Some e => exec (k (Some e)) st ev
      | None => exec (k None) (st_DelState key st) ev
      end
  | GetStateByRange _ _ k => exec (k (Err no_range)) st ev
  | SetEvent name payload k =>
      match event_error name payload with
      | Some e => exec (k (Some e)) st ev
      | None => exec (k None) st (Some (mkEvent name payload))
      end
  end.

(** ** The messages of a process that runs a program *)

Context {SP : ShimProto}.
Variable txid channel : string.

(** [GET_STATE_BY_RANGE]. *)
Definition range_message : msgtype := UNKNOWN 14.

Definition message (t : msgtype) (payload : bytes) (ev : option Event) : ChaincodeMessage :=
  mkMsg t payload txid channel ev.

Definition received (st : S) (msg : ChaincodeMessage) : recv := mkRecv None (Ok (Some msg)) None (ctx_of st).

(** What the process takes from a reply. *)
Definition answer_of (m : OutMsg) : result bytes :=
  match o_Type m, o_Payload m with
  | RESPONSE, Data b => Ok b
  | _, ErrorText e => Err (sent_error e)
  | _, Data b => Err (EExt b)
  end.

Definition error_of {A} (r : result A) : option goerr := match r with Ok _ => None | Err e => Some e end.

(** Every message follows the reply to the one before, which the handler makes of its state. *)
Fixpoint session (p : prog Response) (st : S) (ev : option Event) : list recv :=
  let ask (msg : ChaincodeMessage) (k : result bytes → S → list recv) : list recv :=
    let '(st', r) := perform (ctx_of st) (request_of msg) st in
    received st msg :: k (answer_of (reply msg r)) st' in
  match p with
  | Ret res => [received st (message COMPLETED (MarshalResponse res) ev)]
  | GetState key k => ask (message GET_STATE (MarshalGetState key) None) (λ r st, session (k r) st ev)
  | PutState key value k =>
      match put_error key value with
      | Some e => session (k (Some e)) st ev
      | None => ask (message PUT_STATE (MarshalPutState key value) None) (λ r st, session (k (error_of r)) st ev)
      end
  | DelState key k =>
      match del_error key with
      | Some e => session (k (Some e)) st ev
      | None => ask (message DEL_STATE (MarshalDelState key) None) (λ r st, session (k (error_of r)) st ev)
      end
  | GetStateByRange startKey endKey k =>
      ask (message range_message (MarshalRange startKey endKey) None)
        (λ r st, session (k (match r with Ok _ => Err (EExt "unexpected answer") | Err e => Err e end)) st ev)
  | SetEvent name payload k =>
      match event_error name payload with
      | Some e => session (k (Some e)) st ev
      | None => session (k None) st (Some (mkEvent name payload))
      end
  end.

(** ** A process and the handler *)

Context {SB : StubLaws}.

Definition result_of (res : Response) (st : S) (ev : option Event) : Result :=
  mkShimResult (Status res) (Message res) (Payload res) (eventPayload ev) (eventName ev) (st_QueryView st).

Lemma loop_ask io msg k st log :
  (∀ l m, ans_send io l m = None) →
  is_terminal msg = false → m_Type msg ≠ KEEPALIVE →
  ∃ log', loop io (received st msg :: k) st log =
    loop io k (perform (ctx_of st) (request_of msg) st).1 log'.
Proof.
  intros Hio Ht Hk. rewrite loop_cons. cbn [received rv_ctx rv_got rv_get]. rewrite Ht, decide_False by done.
  rewrite (handled_serve io msg (ctx_of st) st log Ht Hk), Hio. unfold serve. cbn [fst snd].
  destruct (perform _ _ _) as [st' r]. cbn [fst snd]. by eexists.
Qed.

Lemma answer_reply msg r :
  answer_of (reply msg r) = match r with Ok v => Ok v | Err e => Err (sent_error e) end.
Proof. by destruct r. Qed.

Lemma perform_get key st :
  perform (ctx_of st) (request_of (message GET_STATE (MarshalGetState key) None)) st =
    ((st_GetState (ctx_of st) key st).1,
     match (st_GetState (ctx_of st) key st).2 with Ok v => Ok v | Err e => Err (EWrap "get state %q: %w" e) end).
Proof.
  unfold request_of, no_collection. cbn [message m_Type m_Payload]. rewrite get_decodes, decide_True by done.
  cbn [perform]. by destruct (st_GetState _ _ _).
Qed.

Lemma perform_put key value st :
  perform (ctx_of st) (request_of (message PUT_STATE (MarshalPutState key value) None)) st =
    (st_PutState key value st, Ok "").
Proof.
  unfold request_of, no_collection. cbn [message m_Type m_Payload]. by rewrite put_decodes, decide_True.
Qed.

Lemma perform_del key st :
  perform (ctx_of st) (request_of (message DEL_STATE (MarshalDelState key) None)) st = (st_DelState key st, Ok "").
Proof.
  unfold request_of, no_collection. cbn [message m_Type m_Payload]. by rewrite del_decodes, decide_True.
Qed.

(** Over a stream whose sends succeed, the handler serves a process exactly as the program runs on
    the state: the result is the program's response and event, and the state is the one it leaves. *)
Lemma session_served io p st ev log :
  (∀ l m, ans_send io l m = None) →
  let '(res, st', ev') := exec p st ev in
  ∃ log', loop io (session p st ev) st log = (Some (Ok (result_of res st' ev')), st', log').
Proof.
  intros Hio. revert st ev log.
  induction p as [res|key k IH|key value k IH|key k IH|startKey endKey k IH|name payload k IH]; intros st ev log;
    cbn [exec session].
  - exists log. rewrite loop_cons. cbn [received rv_ctx rv_got message m_Type is_terminal].
    unfold completedResult. cbn. rewrite response_decodes. reflexivity.
  - rewrite perform_get. destruct (loop_ask io (message GET_STATE (MarshalGetState key) None)
      (session (k (got (st_GetState (ctx_of st) key st).2)) (st_GetState (ctx_of st) key st).1 ev) st log)
      as [log1 Hl]; [done..|]. rewrite perform_get in Hl. rewrite answer_reply.
    destruct (st_GetState (ctx_of st) key st) as [st1 r]. cbn [fst snd] in *.
    replace (match (match r with Ok v => Ok v | Err e => Err (EWrap "get state %q: %w" e) end) with
      Ok v => Ok v | Err e => Err (sent_error e) end) with (got r) by by destruct r.
    rewrite Hl. exact (IH (got r) st1 ev log1).
  - destruct (put_error key value) as [e|]; [exact (IH (Some e) st ev log)|].
    rewrite perform_put. destruct (loop_ask io (message PUT_STATE (MarshalPutState key value) None)
      (session (k None) (st_PutState key value st) ev) st log) as [log1 Hl]; [done..|].
    rewrite perform_put in Hl. cbn [fst] in Hl. cbn [answer_of reply o_Type o_Payload error_of].
    rewrite Hl. exact (IH None _ ev log1).
  - destruct (del_error key) as [e|]; [exact (IH (Some e) st ev log)|].
    rewrite perform_del. destruct (loop_ask io (message DEL_STATE (MarshalDelState key) None)
      (session (k None) (st_DelState key st) ev) st log) as [log1 Hl]; [done..|].
    rewrite perform_del in Hl. cbn [fst] in Hl. cbn [answer_of reply o_Type o_Payload error_of].
    rewrite Hl. exact (IH None _ ev log1).
  - destruct (loop_ask io (message range_message (MarshalRange startKey endKey) None)
      (session (k (Err no_range)) st ev) st log) as [log1 Hl]; [done..|].
    specialize (IH (Err no_range) st ev log1). destruct (exec _ st ev) as [[res st'] ev'].
    destruct IH as [log' IH]. exists log'. exact (eq_trans Hl IH).
  - destruct (event_error name payload) as [e|]; [exact (IH (Some e) st ev log)|exact (IH None st _ log)].
Qed.

End Semantics.

(** ** Running a program on a committed snapshot *)

Section Snapshot.
Context {SL : StubLib}.

(** Reads see [db] whatever was written; writes are pending. *)
Fixpoint denote {A} (db : string → bytes) (p : prog A) (w : gmap string (option bytes)) (ev : option Event)
    : A * gmap string (option bytes) * option Event :=
  match p with
  | Ret a => (a, w, ev)
  | GetState key k => denote db (k (Ok (db key))) w ev
  | PutState key value k =>
      match put_error key value with
      | Some e => denote db (k (Some e)) w ev
      | None => denote db (k None) (<[key := Some value]> w) ev
      end
  | DelState key k =>
      match del_error key with
      | Some e => denote db (k (Some e)) w ev
      | None => denote db (k None) (<[key := None]> w) ev
      end
  | GetStateByRange _ _ k => denote db (k (Err no_range)) w ev
  | SetEvent name payload k =>
      match event_error name payload with
      | Some e => denote db (k (Some e)) w ev
      | None => denote db (k None) w (Some (mkEvent name payload))
      end
  end.

Lemma denote_bind {A B} db (f : A → prog B) p w ev :
  denote db (bind f p) w ev = let '(a, w', ev') := denote db p w ev in denote db (f a) w' ev'.
Proof.
  revert w ev. induction p as [a|key k IH|key value k IH|key k IH|startKey endKey k IH|name payload k IH];
    intros w ev; cbn [bind denote]; [done|by rewrite IH| | |by rewrite IH|]; case_match; by rewrite IH.
Qed.

Variable en : Exec.env.
Variable ctx_of : Exec.ExecutionContext * list Exec.call → GetCtx.

(** What running a program keeps. *)
Definition later (c c' : Exec.ExecutionContext) : Prop :=
  Exec.closed c' = Exec.closed c ∧ Exec.namespace c' = Exec.namespace c ∧
  (Exec.readErr c' = None → Exec.readErr c = None) ∧
  ∀ v, Exec.queryView c = Some v → Exec.queryView c' = Some v.

Lemma later_refl c : later c c.
Proof. by split_and!. Qed.

Lemma later_trans c1 c2 c3 : later c1 c2 → later c2 c3 → later c1 c3.
Proof. intros (? & ? & ? & ?) (? & ? & ? & ?). split_and!; [congruence|congruence|auto|auto]. Qed.

Lemma get_later g key c h c' h' r :
  Exec.GetState en (g_ctx g) (g_begin g) (g_remaining g) c h key = (c', h', r) → later c c'.
Proof.
  intros H. apply Exec.GetState_cases in H as
    [(-> & _)|[(_ & _ & e & _ & -> & _)|(Hc & He & v & c1 & h1 & Hv & Hread)]]; [apply later_refl|by split_and!|].
  apply Exec.read_in_view_cases in Hread as [_ Hcase].
  destruct Hv as [(Hv & -> & _)|(Hv & -> & _)]; destruct Hcase as [(e & _ & ->)|(x & l & _ & _ & _ & ->)];
    unfold later; cbn; naive_solver congruence.
Qed.

Lemma exec_later {A} (p : prog A) c h ev a c' h' ev' :
  exec (SS := ExecutionContext_State en) ctx_of p (c, h) ev = (a, (c', h'), ev') → later c c'.
Proof.
  revert c h ev. induction p as [x|key k IH|key value k IH|key k IH|startKey endKey k IH|name payload k IH];
    intros c h ev; cbn [exec].
  - intros [= _ <- _ _]. apply later_refl.
  - cbn [st_GetState ExecutionContext_State fst snd].
    destruct (Exec.GetState _ _ _ _ _ _ _) as [[c1 h1] r] eqn:Hg. intros H.
    eapply later_trans; [by eapply get_later|by eapply IH].
  - destruct (put_error key value); [apply IH|]. cbn [st_PutState st_DelState ExecutionContext_State fst snd]. intros H.
    eapply later_trans; [|by eapply IH]. by unfold later; cbn.
  - destruct (del_error key); [apply IH|]. cbn [st_PutState st_DelState ExecutionContext_State fst snd]. intros H.
    eapply later_trans; [|by eapply IH]. by unfold later; cbn.
  - apply IH.
  - destruct (event_error name payload); apply IH.
Qed.

(** A run none of whose reads failed is the run on the snapshot of its view. *)
Lemma exec_snapshot {A} (p : prog A) snap db c h ev a c' h' ev' :
  Exec.repeatable en snap → Exec.closed c = false →
  exec (SS := ExecutionContext_State en) ctx_of p (c, h) ev = (a, (c', h'), ev') → Exec.readErr c' = None →
  (∀ v, Exec.queryView c' = Some v → ∀ key, db key = Exec.vv_Value (snap v (Exec.namespace c) key)) →
  denote db p (Exec.writes c) ev = (a, Exec.writes c', ev').
Proof.
  intros Hrep. revert c h ev.
  induction p as [x|key k IH|key value k IH|key k IH|startKey endKey k IH|name payload k IH];
    intros c h ev Hc; cbn [exec denote].
  - by intros [= -> -> _ ->].
  - cbn [st_GetState ExecutionContext_State fst snd].
    destruct (Exec.GetState _ _ _ _ _ _ _) as [[c1 h1] r] eqn:Hg. intros H He Hdb.
    pose proof (get_later _ _ _ _ _ _ _ Hg) as (Hc1 & Hns & Herr & Hview).
    pose proof (exec_later _ _ _ _ _ _ _ _ H) as (_ & _ & Herr1 & Hview1).
    assert (Hr : r = Ok (db key) ∧ Exec.writes c1 = Exec.writes c).
    { apply Exec.GetState_cases in Hg as
        [(_ & _ & [Hx|(e & Hx & _)] & _)|[(_ & _ & e & _ & -> & _)|(_ & _ & v & c2 & h2 & Hv & Hread)]].
      - congruence.
      - rewrite (Herr (Herr1 He)) in Hx. done.
      - by specialize (Herr1 He).
      - apply Exec.read_in_view_cases in Hread as [_ [(e & _ & ->)|(x & l & Hans & -> & -> & ->)]];
          [by specialize (Herr1 He)|].
        assert (Hc2 : Exec.queryView c2 = Some v ∧ Exec.namespace c2 = Exec.namespace c ∧
          Exec.writes c2 = Exec.writes c) by (destruct Hv as [(? & -> & _)|(? & -> & _)]; by split_and!).
        destruct Hc2 as (Hqv & Hn2 & Hw2). split; [|exact Hw2].
        rewrite (Hrep _ _ _ _ _ Hans), Hn2. by rewrite (Hdb v (Hview1 v Hqv)). }
    destruct Hr as [-> <-]. apply (IH (Ok (db key)) c1 h1 ev); [congruence|exact H|done|].
    intros v Hv k'. rewrite Hns. by apply Hdb.
  - destruct (put_error key value); intros H; [by apply (IH _ c h ev Hc H)|].
    by apply (IH None (Exec.PutState c key value) h ev Hc H).
  - destruct (del_error key); intros H; [by apply (IH _ c h ev Hc H)|].
    by apply (IH None (Exec.DelState c key) h ev Hc H).
  - intros H. by apply (IH _ c h ev Hc H).
  - destruct (event_error name payload); intros H; by apply (IH _ c h _ Hc H).
Qed.

End Snapshot.

(** ** The sample chaincodes *)

(** A value of the sample's JSON answers. *)
Inductive field : Type :=
  | FString (s : string)
  | FNull
  | FInt (z : Z)
  | FBool (b : bool)
  | FList (l : list string)
  | FMap (m : gmap string string).

(** [json.Marshal] of a [map[string]any], and [time.Unix(s, n).UTC().Format(time.RFC3339Nano)]. *)
Class FieldsJSON := {
  marshal_fields : list (string * field) → result bytes;
  format_rfc3339nano : Z → Z → string }.

Section Samples.
Context {SL : StubLib} {FJ : FieldsJSON}.

(** [shim.OK] and [shim.ERROR]. *)
Definition shim_OK : Z := 200.
Definition shim_ERROR : Z := 500.

Definition shim_Success (payload : bytes) : Response := mkResponse shim_OK "" payload.
Definition shim_Error (msg : string) : Response := mkResponse shim_ERROR msg "".

(** [if err != nil { return shim.Error(err.Error()) }]. *)
Definition or_error {A} (r : result A) (k : A → prog Response) : prog Response :=
  match r with Ok x => k x | Err e => Ret (shim_Error (err_text e)) end.

Definition unless_error (e : option goerr) (k : prog Response) : prog Response :=
  match e with Some e => Ret (shim_Error (err_text e)) | None => k end.

Definition get (key : string) (k : bytes → prog Response) : prog Response :=
  GetState key (λ r, or_error r k).

Definition put (key : string) (value : bytes) (k : prog Response) : prog Response :=
  PutState key value (λ e, unless_error e k).

Definition del (key : string) (k : prog Response) : prog Response := DelState key (λ e, unless_error e k).

Definition set_event (name : string) (payload : bytes) (k : prog Response) : prog Response :=
  SetEvent name payload (λ e, unless_error e k).

(** [strings.ToLower] on ASCII text; no other letter has the lower case of a letter of the names it
    is compared with. *)
Definition lower (a : ascii) : ascii :=
  let c := GoStrings.byte_of a in if (65 <=? c) && (c <=? 90) then GoStrings.byte_at (c + 32) else a.

Fixpoint ToLower (s : string) : string :=
  match s with EmptyString => "" | String a r => String (lower a) (ToLower r) end.

(** A nil value is the empty one. *)
Definition nullableString (value : bytes) : field := if bool_decide (value = "") then FNull else FString value.

Definition byteArgsToStrings (args : list bytes) : list string := args.
Definition byteMapToStrings (values : gmap string bytes) : gmap string string := values.

Definition timestampString (seconds nanos : Z) : string :=
  if (seconds =? 0) && (nanos =? 0) then "" else format_rfc3339nano seconds nanos.

(** The values a compatibility function reads. *)
Record observed := mkObserved {
  committedOldValue : bytes;
  committedDeleteValue : bytes;
  oldValue : bytes;
  afterPutValue : bytes;
  deleteOldValue : bytes;
  afterDeleteValue : bytes }.

Definition seedOldValue : bytes := "old-value".
Definition seedDeleteValue : bytes := "delete-me".

(** The reads and writes that the compatibility functions share. *)
Definition compat_state (key : string) (value : bytes) (deleteKey : string) (k : observed → prog Response)
    : prog Response :=
  get key (λ committedOldValue,
  get deleteKey (λ committedDeleteValue,
  put key seedOldValue (
  get key (λ oldValue,
  put key value (
  get key (λ afterPutValue,
  put deleteKey seedDeleteValue (
  get deleteKey (λ deleteOldValue,
  del deleteKey (
  get deleteKey (λ afterDeleteValue,
  k (mkObserved committedOldValue committedDeleteValue oldValue afterPutValue deleteOldValue
       afterDeleteValue))))))))))).

Definition observed_fields (o : observed) : list (string * field) :=
  [("committed_old_value", nullableString (committedOldValue o));
   ("committed_delete_old_value", nullableString (committedDeleteValue o));
   ("seed_old_value", FString seedOldValue); ("seed_delete_value", FString seedDeleteValue);
   ("old_value", nullableString (oldValue o)); ("after_put_value", nullableString (afterPutValue o));
   ("delete_old_value", nullableString (deleteOldValue o));
   ("after_delete_value", nullableString (afterDeleteValue o))].

(** The composite key made and taken apart again. *)
Definition composite_fields (objectType : string) (attributes : list string) : result (list (string * field)) :=
  compositeKey ← CreateCompositeKey objectType attributes;
  '(splitObjectType, splitAttributes) ← SplitCompositeKey compositeKey;
  Ok [("composite_key", FString compositeKey); ("split_object_type", FString splitObjectType);
      ("split_attributes", FList splitAttributes)].

Definition status_fields : list (string * field) :=
  [("ok_status", FInt shim_OK); ("error_status", FInt shim_ERROR)].

Variable st : stub.

Definition GetStringArgs : list string := GetArgs st.

Definition call_fields : list (string * field) :=
  [("function", FString (GetFunctionAndParameters st).1);
   ("parameters", FList (GetFunctionAndParameters st).2);
   ("tx_id", FString (GetTxID st)); ("channel_id", FString (GetChannelID st))].

Definition args_fields : list (string * field) :=
  [("args", FList (byteArgsToStrings (GetArgs st))); ("string_args", FList GetStringArgs)].

(** Everything a chaincode can ask about its client. *)
Definition context_fields : result (list (string * field)) :=
  creator ← GetCreator st;
  clientMSPID ← cid_GetMSPID st;
  clientID ← cid_GetID st;
  binding ← GetBinding st;
  transient ← GetTransient st;
  '(seconds, nanos) ← GetTxTimestamp st;
  signedProposal ← GetSignedProposal st;
  Ok [("creator_bytes", FInt (Z.of_nat (String.length creator)));
      ("creator_base64", FString (Json.base64 creator));
      ("client_id", FString clientID); ("client_msp_id", FString clientMSPID);
      ("binding_bytes", FInt (Z.of_nat (String.length binding)));
      ("binding_base64", FString (Json.base64 binding));
      ("transient", FMap (byteMapToStrings transient));
      ("transient_count", FInt (Z.of_nat (size transient)));
      ("tx_timestamp_seconds", FInt seconds); ("tx_timestamp_nanos", FInt nanos);
      ("tx_timestamp_rfc3339", FString (timestampString seconds nanos));
      ("decorations", FMap (byteMapToStrings (GetDecorations st)));
      ("signed_proposal_present", FBool (bool_decide (is_Some signedProposal)));
      ("signed_proposal_bytes",
        FInt (from_option (λ p, Z.of_nat (String.length (ProposalBytes p))) 0 signedProposal));
      ("signed_proposal_signature_bytes",
        FInt (from_option (λ p, Z.of_nat (String.length (sp_Signature p))) 0 signedProposal))].

(** The answer and the event of a compatibility function. *)
Definition compat_answer (fields : list (string * field)) (key : string) (value : bytes) (deleteKey event : string)
    : prog Response :=
  or_error (marshal_fields fields) (λ payload,
  or_error (marshal_fields
    [("function", FString (GetFunctionAndParameters st).1); ("key", FString key); ("value", FString value);
     ("deleted_key", FString deleteKey)]) (λ eventPayload,
  set_event event eventPayload (Ret (shim_Success payload)))).

Definition compatv1 (key : string) (value : bytes) (deleteKey : string) : prog Response :=
  compat_state key value deleteKey (λ o,
  or_error (composite_fields "compatv1" [key; deleteKey]) (λ composite,
  compat_answer (args_fields ++ call_fields ++ observed_fields o ++ composite ++ status_fields)
    key value deleteKey "compatv1-event")).

(** [compatv2] and [compat-v3], which differ in their name. *)
Definition compatv2 (name key : string) (value : bytes) (deleteKey : string) : prog Response :=
  compat_state key value deleteKey (λ o,
  or_error (composite_fields name [key; deleteKey]) (λ composite,
  or_error context_fields (λ context,
  compat_answer (args_fields ++ call_fields ++ context ++ observed_fields o ++ composite ++ status_fields)
    key value deleteKey (name +:+ "-event")))).

Definition compatv3 : string → bytes → string → prog Response := compatv2 "compat-v3".

(** [SimpleKVChaincode.Init]. *)
Definition Init : prog Response :=
  match GetFunctionAndParameters st with
  | (fn, [key; value]) =>
      if bool_decide (fn = "initialize") then put key value (Ret (shim_Success ""))
      else Ret (shim_Error "initialize expects 2 arguments: key value")
  | _ => Ret (shim_Error "initialize expects 2 arguments: key value")
  end.

(** [SimpleKVChaincode.Invoke]. *)
Definition Invoke : prog Response :=
  let '(fn, args) := GetFunctionAndParameters st in
  let fn := ToLower fn in
  if bool_decide (fn = "get") then
    match args with
    | [key] => get key (λ value, Ret (shim_Success value))
    | _ => Ret (shim_Error "get expects 1 argument: key")
    end
  else if bool_decide (fn = "put") then
    match args with
    | [key; value] => put key value (Ret (shim_Success value))
    | _ => Ret (shim_Error "put expects 2 arguments: key value")
    end
  else if bool_decide (fn = "putget") then
    match args with
    | [key; value] => get key (λ oldValue, put key value (Ret (shim_Success oldValue)))
    | _ => Ret (shim_Error "putget expects 2 arguments: key value")
    end
  else if bool_decide (fn = "del") then
    match args with
    | [key] => del key (Ret (shim_Success ""))
    | _ => Ret (shim_Error "del expects 1 argument: key")
    end
  else if bool_decide (fn = "context") then
    or_error (marshal_fields (args_fields ++ call_fields)) (λ payload, Ret (shim_Success payload))
  else if bool_decide (fn = "compatv1") then
    match args with
    | [key; value; deleteKey] => compatv1 key value deleteKey
    | _ => Ret (shim_Error "compatv1 expects 3 arguments: key value delete_key")
    end
  else if bool_decide (fn = "compatv2") then
    match args with
    | [key; value; deleteKey] => compatv2 "compatv2" key value deleteKey
    | _ => Ret (shim_Error "compatv2 expects 3 arguments: key value delete_key")
    end
  else if bool_decide (fn = "compat-v3") then
    match args with
    | [key; value; deleteKey] => compatv3 key value deleteKey
    | _ => Ret (shim_Error "compat-v3 expects 3 arguments: key value delete_key")
    end
  else if bool_decide (fn = "compaterror") then Ret (shim_Error "compat error requested")
  else Ret (shim_Error "unknown function %q").

(** ** The end-to-end test chaincode *)

(** What it reads of its process environment: the duration to sleep, whose parsing may fail, and
    the marker of an answer that differs between organizations. *)
Variable sleep : result ().
Variable mismatch : string.

(** [E2EChaincode.Init]. *)
Definition E2E_Init : prog Response :=
  match GetFunctionAndParameters st with
  | (fn, [key; value]) =>
      if bool_decide (fn = "initialize") then
        if bool_decide (value = "noop-init") then Ret (shim_Success "")
        else put key value
          (if bool_decide (value = "fail-init") then Ret (shim_Error "deliberate initialization failure")
           else set_event "initialized" value (Ret (shim_Success "init-called")))
      else Ret (shim_Error "Init expects initialize with key and value")
  | _ => Ret (shim_Error "Init expects initialize with key and value")
  end.

(** [E2EChaincode.compatv2]. *)
Definition E2E_compatv2 (key : string) (value : bytes) (deleteKey : string) : prog Response :=
  compat_state key value deleteKey (λ o,
  compat_answer (call_fields ++ observed_fields o ++
      (if bool_decide (mismatch = "") then [] else [("mismatch_marker", FString mismatch)]))
    key value deleteKey "compatv2-event").

(** [E2EChaincode.Invoke]. *)
Definition E2E_Invoke : prog Response :=
  let '(fn, args) := GetFunctionAndParameters st in
  let fn := ToLower fn in
  if bool_decide (fn = "get") then
    match args with
    | [key] => get key (λ value, Ret (shim_Success value))
    | _ => Ret (shim_Error "get expects 1 argument: key")
    end
  else if bool_decide (fn = "compatv2") then
    match args with
    | [key; value; deleteKey] => or_error sleep (λ _, E2E_compatv2 key value deleteKey)
    | _ => Ret (shim_Error "compatv2 expects 3 arguments: key value delete_key")
    end
  else Ret (shim_Error "unknown function %q").

End Samples.

(** ** Properties *)

(** What the view of an invocation holds. *)
Definition committed (snap : Exec.View → string → string → Exec.VersionedValue) (c : Exec.ExecutionContext)
    (key : string) : bytes :=
  from_option (λ v, Exec.vv_Value (snap v (Exec.namespace c) key)) "" (Exec.queryView c).

(** A new invocation. *)
Definition new_state (ns : string) : Exec.ExecutionContext * list Exec.call :=
  (Exec.NewExecutionContext true ns, []).

Section Properties.
Context {SL : StubLib} {FJ : FieldsJSON}.

Lemma exec_committed {A} en snap ctx_of ns (p : prog A) a c' h' ev' :
  Exec.repeatable en snap →
  exec (SS := ExecutionContext_State en) ctx_of p (new_state ns) None = (a, (c', h'), ev') →
  Exec.readErr c' = None → denote (committed snap c') p ∅ None = (a, Exec.writes c', ev').
Proof.
  intros Hrep H He. pose proof (exec_later _ _ _ _ _ _ _ _ _ _ H) as (_ & Hns & _).
  apply (exec_snapshot en ctx_of p snap (committed snap c') (Exec.NewExecutionContext true ns) [] None a c' h' ev');
    [done|done|exact H|done|].
  intros v Hv key. unfold committed. by rewrite Hv, Hns.
Qed.

(** C19: A chaincode process that speaks the protocol is served exactly as its program runs: when the
    first message and the replies can be sent, the handler returns the program's own response and
    event; and unless a read failed, they and the pending writes are those of the program run on
    the committed snapshot of one view, in which no read sees a write of the invocation. *)
Theorem chaincode_served {SP : ShimProto} {SB : StubLaws} io en snap inv ctx_of txid channel p ns log log1 :
  sendTransaction io inv log = (log1, None) → (∀ l m, ans_send io l m = None) → Exec.repeatable en snap →
  ∃ res c' h' ev' log',
    handler_Execute (SS := ExecutionContext_State en) io inv
        (session (SS := ExecutionContext_State en) ctx_of txid channel p (new_state ns) None) (new_state ns) log =
      (Some (Ok (result_of (SS := ExecutionContext_State en) res (c', h') ev')), (c', h'), log') ∧
    (Exec.readErr c' = None → denote (committed snap c') p ∅ None = (res, Exec.writes c', ev')).
Proof.
  intros Hsend Hio Hrep. unfold handler_Execute. rewrite Hsend.
  pose proof (session_served (SS := ExecutionContext_State en) ctx_of txid channel io p (new_state ns) None log1 Hio)
    as H.
  destruct (exec ctx_of p (new_state ns) None) as [[res [c' h']] ev'] eqn:E. destruct H as [log' Hl].
  exists res, c', h', ev', log'. split; [exact Hl|]. by apply (exec_committed en snap ctx_of ns p res c' h' ev').
Qed.

Lemma denote_get db key k w ev : denote db (get key k) w ev = denote db (k (db key)) w ev.
Proof. done. Qed.

Lemma denote_put db key value k w ev res w' ev' :
  denote db (put key value k) w ev = (res, w', ev') → Status res = shim_OK →
  denote db k (<[key := Some value]> w) ev = (res, w', ev').
Proof. cbn. destruct (put_error key value); cbn; [by intros [= <- _ _]|done]. Qed.

Lemma denote_del db key k w ev res w' ev' :
  denote db (del key k) w ev = (res, w', ev') → Status res = shim_OK →
  denote db k (<[key := None]> w) ev = (res, w', ev').
Proof. cbn. destruct (del_error key); cbn; [by intros [= <- _ _]|done]. Qed.

Lemma or_error_ok {A} db (r : result A) k w ev res w' ev' :
  denote db (or_error r k) w ev = (res, w', ev') → Status res = shim_OK →
  ∃ x, r = Ok x ∧ denote db (k x) w ev = (res, w', ev').
Proof. destruct r as [x|e]; cbn; [by exists x|by intros [= <- _ _]]. Qed.

(** Every read of a compatibility function sees the committed value. *)
Definition observes (db : string → bytes) (key deleteKey : string) : observed :=
  mkObserved (db key) (db deleteKey) (db key) (db key) (db deleteKey) (db deleteKey).

Lemma compat_state_ok db key value deleteKey k w ev res w' ev' :
  denote db (compat_state key value deleteKey k) w ev = (res, w', ev') → Status res = shim_OK →
  denote db (k (observes db key deleteKey)) (<[deleteKey := None]> (<[key := Some value]> w)) ev = (res, w', ev').
Proof.
  intros H Hs. unfold compat_state in H. rewrite !denote_get in H. apply denote_put in H; [|done].
  rewrite denote_get in H. apply denote_put in H; [|done]. rewrite denote_get in H.
  apply denote_put in H; [|done]. rewrite denote_get in H. apply denote_del in H; [|done].
  rewrite denote_get in H. by rewrite !insert_insert_eq in H.
Qed.

Lemma compat_answer_ok st db fields key value deleteKey event w ev res w' ev' :
  denote db (compat_answer st fields key value deleteKey event) w ev = (res, w', ev') → Status res = shim_OK →
  marshal_fields fields = Ok (Payload res) ∧ w' = w ∧ ∃ payload, ev' = Some (mkEvent event payload).
Proof.
  intros H Hs. unfold compat_answer in H. apply or_error_ok in H as (payload & Hp & H); [|done].
  apply or_error_ok in H as (evp & _ & H); [|done]. cbn in H. destruct (event_error event evp) as [e|].
  - cbn in H. by injection H as <- _ _.
  - cbn in H. injection H as <- <- <-. split_and!; [exact Hp|done|by exists evp].
Qed.

(** A compatibility function that succeeds reports that a chaincode never reads its own writes:
    run against a repeatable view with no failed read, each of its six reads, before and after it
    wrote and deleted the keys, answers the committed value, and it leaves exactly the last write
    of the one key and the deletion of the other. *)
Theorem compat_reads_committed en snap ctx_of st name ns key value deleteKey res c' h' ev' :
  Exec.repeatable en snap →
  exec (SS := ExecutionContext_State en) ctx_of (compatv2 st name key value deleteKey) (new_state ns) None =
    (res, (c', h'), ev') →
  Exec.readErr c' = None → Status res = shim_OK →
  Exec.writes c' = <[deleteKey := None]> {[key := Some value]} ∧
  (∃ payload, ev' = Some (mkEvent (name +:+ "-event") payload)) ∧
  ∃ composite context,
    composite_fields name [key; deleteKey] = Ok composite ∧ context_fields st = Ok context ∧
    marshal_fields (args_fields st ++ call_fields st ++ context ++
      observed_fields (observes (committed snap c') key deleteKey) ++ composite ++ status_fields) =
      Ok (Payload res).
Proof.
  intros Hrep H He Hs. apply (exec_committed _ snap) in H; [|done..]. unfold compatv2 in H.
  apply compat_state_ok in H; [|done]. apply or_error_ok in H as (composite & Hcomp & H); [|done].
  apply or_error_ok in H as (context & Hctx & H); [|done].
  apply compat_answer_ok in H as (Hm & Hw & Hev); [|done]. split; [done|]. split; [done|].
  by exists composite, context.
Qed.

End Properties.

(** ** Example *)

Definition ex_proto : ShimProto := {|
  UnmarshalGetState b := Ok (b, "");
  UnmarshalPutState b :=
    match Framing.unframe b with Some [key; value] => Ok (key, value, "") | _ => Err (EExt "malformed message") end;
  UnmarshalDelState b := Ok (b, "");
  UnmarshalResponse b :=
    match Framing.unframe b with
    | Some [code; message; payload] =>
        match Framing.unpack code with
        | Some code => Ok (mkResponse code message payload)
        | None => Err (EExt "malformed message")
        end
    | _ => Err (EExt "malformed message")
    end;
  UnmarshalChaincodeID b := Ok b;
  MarshalChaincodeInput _ _ _ := Ok "input";
  CreateChaincodeProposal _ _ _ _ _ _ _ _ := Ok (mkProposal "h" "p" "");
  MarshalProposal p := Ok (pp_Payload p) |}.

Definition ex_stub : StubLib := {|
  put_error key _ := if bool_decide (key = "") then Some (ENew "key must not be an empty string") else None;
  del_error _ := None;
  event_error name _ := if bool_decide (name = "") then Some (ENew "event name can not be empty string") else None;
  CreateCompositeKey objectType attributes := Ok (Framing.frame (objectType :: attributes));
  SplitCompositeKey key :=
    match Framing.unframe key with Some (t :: l) => Ok (t, l) | _ => Err (ENew "invalid composite key") end;
  err_text _ := "error";
  MarshalGetState key := key;
  MarshalPutState key value := Framing.frame [key; value];
  MarshalDelState key := key;
  MarshalRange _ _ := "";
  MarshalResponse r := Framing.frame [Framing.pack (Status r); Message r; Payload r] |}.

Lemma ex_stub_laws : @StubLaws ex_proto ex_stub.
Proof.
  split; [done| |done|].
  - intros key value. cbn. by rewrite Framing.unframe_frame.
  - intros [code msg payload]. cbn. rewrite Framing.unframe_frame. by rewrite Framing.unpack_pack.
Qed.

Definition ex_fields : FieldsJSON := {|
  marshal_fields l := Ok (Framing.frame (map fst l));
  format_rfc3339nano _ _ := "1970-01-01T00:00:01Z" |}.

Definition ex_call : stub :=
  mkStub ["compatv2"; "k"; "y"; "j"] ("compatv2", ["k"; "y"; "j"]) "t1" "ch" (Ok "alice") (Ok "Org1MSP") (Ok "id")
    (Ok "binding") (Ok ∅) (Ok (1, 0)) (Ok None) ∅.

Definition ex_ctx (_ : Exec.ExecutionContext * list Exec.call) : GetCtx := mkGetCtx None None None.

Definition ex_snap (_ : Exec.View) (ns key : string) : Exec.VersionedValue :=
  Exec.find_in_rows ns key [("ns", [("k", "x", 7)])].

Lemma chaincode_served_witness :
  ∃ res c' h' ev' log',
    handler_Execute (SP := ex_proto) (SS := ExecutionContext_State Exec.ex_env) Shim.ex_io Shim.ex_inv
        (session (SP := ex_proto) (SL := ex_stub) (SS := ExecutionContext_State Exec.ex_env) ex_ctx "t1" "ch"
           (Invoke (SL := ex_stub) (FJ := ex_fields) ex_call) (new_state "ns") None) (new_state "ns") [] =
      (Some (Ok (result_of (SS := ExecutionContext_State Exec.ex_env) res (c', h') ev')), (c', h'), log') ∧
    (Exec.readErr c' = None →
     denote (SL := ex_stub) (committed ex_snap c') (Invoke (SL := ex_stub) (FJ := ex_fields) ex_call) ∅ None =
       (res, Exec.writes c', ev')).
Proof.
  assert (Hrep : Exec.repeatable Exec.ex_env ex_snap) by exact Exec.ex_env_repeatable.
  apply (chaincode_served (SL := ex_stub) (SP := ex_proto) (SB := ex_stub_laws) Shim.ex_io Exec.ex_env ex_snap
    Shim.ex_inv ex_ctx "t1" "ch" (Invoke (SL := ex_stub) (FJ := ex_fields) ex_call) "ns" []
    (sendTransaction (SP := ex_proto) Shim.ex_io Shim.ex_inv []).1); [reflexivity|reflexivity|exact Hrep].
Defined.

#[local] Notation ex_run :=
  (exec (SL := ex_stub) (SS := ExecutionContext_State Exec.ex_env) ex_ctx
    (compatv2 (SL := ex_stub) (FJ := ex_fields) ex_call "compatv2" "k" "y" "j") (new_state "ns") None).

Lemma compat_reads_committed_witness :
  ∃ res c' h' ev', ex_run = (res, (c', h'), ev') ∧ Exec.writes c' = <["j" := None]> {["k" := Some "y"]} ∧
    committed ex_snap c' "k" = "x".
Proof.
  destruct ex_run as [[res [c' h']] ev'] eqn:E. exists res, c', h', ev'. split; [reflexivity|].
  assert (Hv : (Status ex_run.1.1, Exec.readErr ex_run.1.2.1, committed ex_snap ex_run.1.2.1 "k") =
    (200, None, "x")) by (vm_compute; reflexivity).
  rewrite E in Hv. cbn [fst snd] in Hv. injection Hv as Hs He Hk.
  destruct (compat_reads_committed (SL := ex_stub) (FJ := ex_fields) Exec.ex_env ex_snap ex_ctx ex_call "compatv2"
    "ns" "k" "y" "j" res c' h' ev' Exec.ex_env_repeatable E He Hs) as (Hw & _).
  split; [exact Hw|exact Hk].
Defined.

End Chaincode.
