(* ===== verification/AssetTransfer.v ===== *)
(** The asset-transfer sample, [sample_external_chaincode/asset_transfer/chaincode/smartcontract.go],
    as programs of [Chaincode.v].

    The contract library, which picks the function and converts its arguments, is a parameter.
    The abstract specification is a registry of assets by ID; the theorem is that every history of
    committed invocations answers as the registry does. *)
From Stdlib Require Import ZArith Lia Ascii.
From stdpp Require Import base option list strings gmap.
From S2P Require Import Prelude LifecycleStore OrchestratorTypes GoStrings Json ExecContext Shim Chaincode Framing.
Import Chaincode.
Local Open Scope Z_scope.

Module AssetTransfer.

(** ** The contract *)

Record Asset := mkAsset {
  AppraisedValue : Z;
  Color : string;
  ID : string;
  Owner : string;
  Size : Z }.

Section Contract.
Context {J : Json.JSONText}.

Definition asset_object (a : Asset) : Json.jobject :=
  [("AppraisedValue", Json.JNumber (AppraisedValue a)); ("Color", Json.JString (Color a));
   ("ID", Json.JString (ID a)); ("Owner", Json.JString (Owner a)); ("Size", Json.JNumber (Size a))].

(** [json.Marshal(asset)]. *)
Definition marshal_asset (a : Asset) : result bytes := Ok (Json.json_encode (asset_object a)).

(** [json.Unmarshal(assetJSON, &asset)] into the zero asset. *)
Definition unmarshal_asset (data : bytes) : result Asset :=
  o ← Json.json_object data;
  value ← Json.json_field Json.as_int64 "AppraisedValue" o 0;
  color ← Json.json_field Json.as_string "Color" o "";
  id ← Json.json_field Json.as_string "ID" o "";
  owner ← Json.json_field Json.as_string "Owner" o "";
  size ← Json.json_field Json.as_int64 "Size" o 0;
  Ok (mkAsset value color id owner size).

Definition initial_assets : list Asset :=
  [mkAsset 300 "blue" "asset1" "Tomoko" 5; mkAsset 400 "red" "asset2" "Brad" 5;
   mkAsset 500 "green" "asset3" "Jin Soo" 10; mkAsset 600 "yellow" "asset4" "Max" 10;
   mkAsset 700 "black" "asset5" "Adriana" 15; mkAsset 800 "white" "asset6" "Michel" 15].

(** A call that returns only an error. *)
Definition done (e : option goerr) : result () := match e with None => Ok () | Some e => Err e end.

Fixpoint init_assets (l : list Asset) : prog (result ()) :=
  match l with
  | [] => Ret (Ok ())
  | asset :: rest =>
      match marshal_asset asset with
      | Err e => Ret (Err e)
      | Ok assetJSON =>
          PutState (ID asset) assetJSON (λ e,
            match e with
            | Some e => Ret (Err (EWrap "failed to put to world state. %w" e))
            | None => init_assets rest
            end)
      end
  end.

Definition InitLedger : prog (result ()) := init_assets initial_assets.

(** An absent value is the empty one. *)
Definition AssetExists (id : string) : prog (result bool) :=
  GetState id (λ r, Ret match r with
    | Err e => Err (EWrap "failed to read from world state: %w" e)
    | Ok assetJSON => Ok (negb (bool_decide (assetJSON = "")))
    end).

(** The asset is encoded and stored under [id]. *)
Definition put_asset (id : string) (asset : Asset) : prog (result ()) :=
  match marshal_asset asset with
  | Err e => Ret (Err e)
  | Ok assetJSON => PutState id assetJSON (λ e, Ret (done e))
  end.

Definition CreateAsset (id color : string) (size : Z) (owner : string) (appraisedValue : Z) : prog (result ()) :=
  exists_ ← AssetExists id;
  match exists_ with
  | Err e => Ret (Err e)
  | Ok true => Ret (Err (ENew "the asset %s already exists"))
  | Ok false => put_asset id (mkAsset appraisedValue color id owner size)
  end.

Definition ReadAsset (id : string) : prog (result Asset) :=
  GetState id (λ r, Ret match r with
    | Err e => Err (EWrap "failed to read from world state: %w" e)
    | Ok assetJSON =>
        if bool_decide (assetJSON = "") then Err (ENew "the asset %s does not exist")
        else unmarshal_asset assetJSON
    end).

Definition UpdateAsset (id color : string) (size : Z) (owner : string) (appraisedValue : Z) : prog (result ()) :=
  exists_ ← AssetExists id;
  match exists_ with
  | Err e => Ret (Err e)
  | Ok false => Ret (Err (ENew "the asset %s does not exist"))
  | Ok true => put_asset id (mkAsset appraisedValue color id owner size)
  end.

Definition DeleteAsset (id : string) : prog (result ()) :=
  exists_ ← AssetExists id;
  match exists_ with
  | Err e => Ret (Err e)
  | Ok false => Ret (Err (ENew "the asset %s does not exist"))
  | Ok true => DelState id (λ e, Ret (done e))
  end.

Definition with_owner (owner : string) (a : Asset) : Asset :=
  mkAsset (AppraisedValue a) (Color a) (ID a) owner (Size a).

Definition TransferAsset (id newOwner : string) : prog (result string) :=
  asset ← ReadAsset id;
  match asset with
  | Err e => Ret (Err e)
  | Ok asset =>
      r ← put_asset id (with_owner newOwner asset);
      Ret match r with Err e => Err e | Ok _ => Ok (Owner asset) end
  end.

(** The loop over the iterator's results. *)
Fixpoint decode_assets (l : list (result bytes)) : result (list Asset) :=
  match l with
  | [] => Ok []
  | r :: rest => b ← r; a ← unmarshal_asset b; assets ← decode_assets rest; Ok (a :: assets)
  end.

Definition GetAllAssets : prog (result (list Asset)) :=
  GetStateByRange "" "" (λ r, Ret (l ← r; decode_assets l)).

(** ** Invocations *)

Inductive Op :=
  | OpInitLedger
  | OpCreateAsset (id color : string) (size : Z) (owner : string) (appraisedValue : Z)
  | OpReadAsset (id : string)
  | OpUpdateAsset (id color : string) (size : Z) (owner : string) (appraisedValue : Z)
  | OpDeleteAsset (id : string)
  | OpAssetExists (id : string)
  | OpTransferAsset (id newOwner : string)
  | OpGetAllAssets.

Inductive answer := Done | AnAsset (a : Asset) | ABool (b : bool) | AnOwner (s : string) | Assets (l : list Asset).

Definition returns {A} (f : A → answer) (p : prog (result A)) : prog (result answer) :=
  r ← p; Ret (match r with Ok x => Ok (f x) | Err e => Err e end).

Definition contract (op : Op) : prog (result answer) :=
  match op with
  | OpInitLedger => returns (λ _, Done) InitLedger
  | OpCreateAsset id color size owner appraisedValue =>
      returns (λ _, Done) (CreateAsset id color size owner appraisedValue)
  | OpReadAsset id => returns AnAsset (ReadAsset id)
  | OpUpdateAsset id color size owner appraisedValue =>
      returns (λ _, Done) (UpdateAsset id color size owner appraisedValue)
  | OpDeleteAsset id => returns (λ _, Done) (DeleteAsset id)
  | OpAssetExists id => returns ABool (AssetExists id)
  | OpTransferAsset id newOwner => returns AnOwner (TransferAsset id newOwner)
  | OpGetAllAssets => returns Assets GetAllAssets
  end.

End Contract.

(** ** The registry *)

Notation registry := (gmap string Asset).

Definition absent {A} : result A := Err (ENew "the asset %s does not exist").

(** What the contract promises of a registry. *)
Definition registry_step {SL : StubLib} (op : Op) (m : registry) : result answer * registry :=
  match op with
  | OpInitLedger => (Ok Done, foldl (λ m a, <[ID a := a]> m) m initial_assets)
  | OpCreateAsset id color size owner appraisedValue =>
      match m !! id with
      | Some _ => (Err (ENew "the asset %s already exists"), m)
      | None => (Ok Done, <[id := mkAsset appraisedValue color id owner size]> m)
      end
  | OpReadAsset id => (match m !! id with Some a => Ok (AnAsset a) | None => absent end, m)
  | OpUpdateAsset id color size owner appraisedValue =>
      match m !! id with
      | Some _ => (Ok Done, <[id := mkAsset appraisedValue color id owner size]> m)
      | None => (absent, m)
      end
  | OpDeleteAsset id => match m !! id with Some _ => (Ok Done, delete id m) | None => (absent, m) end
  | OpAssetExists id => (Ok (ABool (bool_decide (is_Some (m !! id)))), m)
  | OpTransferAsset id newOwner =>
      match m !! id with
      | Some a => (Ok (AnOwner (Owner a)), <[id := with_owner newOwner a]> m)
      | None => (absent, m)
      end
  | OpGetAllAssets => (Err no_range, m)
  end.

(** ** Committed histories *)

(** What a write set makes of a snapshot. *)
Definition apply_writes (w : gmap string (option bytes)) (db : string → bytes) (key : string) : bytes :=
  match w !! key with Some (Some v) => v | Some None => "" | None => db key end.

(** Invocations one after the other, each on the snapshot that the ones before committed; one that
    fails commits nothing. *)
Fixpoint history {SL : StubLib} {J : Json.JSONText} (db : string → bytes) (ops : list Op)
    : list (result answer) * (string → bytes) :=
  match ops with
  | [] => ([], db)
  | op :: rest =>
      let '(r, w, _) := denote db (contract op) ∅ None in
      let '(rs, db') := history (if is_ok r then apply_writes w db else db) rest in
      (r :: rs, db')
  end.

Fixpoint registry_history {SL : StubLib} (m : registry) (ops : list Op) : list (result answer) * registry :=
  match ops with
  | [] => ([], m)
  | op :: rest =>
      let '(r, m) := registry_step op m in
      let '(rs, m) := registry_history m rest in
      (r :: rs, m)
  end.

(** ** Correctness *)

(** Texts that the encoder keeps and integers of the machine's width. *)
Definition valid_asset {J : Json.JSONText} (a : Asset) : Prop :=
  is_int64 (AppraisedValue a) ∧ Json.valid_utf8 (Color a) = true ∧ Json.valid_utf8 (ID a) = true ∧
  Json.valid_utf8 (Owner a) = true ∧ is_int64 (Size a).

(** The arguments of an invocation. *)
Definition op_ok {J : Json.JSONText} (op : Op) : Prop :=
  match op with
  | OpCreateAsset id color size owner value | OpUpdateAsset id color size owner value =>
      id ≠ "" ∧ valid_asset (mkAsset value color id owner size)
  | OpTransferAsset _ owner => Json.valid_utf8 owner = true
  | _ => True
  end.

(** Snapshot [db] holds the assets of registry [m] and nothing else. *)
Definition represents {J : Json.JSONText} (db : string → bytes) (m : registry) : Prop :=
  ∀ id, match m !! id with
        | Some a => id ≠ "" ∧ ID a = id ∧ valid_asset a ∧ marshal_asset a = Ok (db id)
        | None => db id = ""
        end.

Section Correctness.
Context {J : Json.JSONText} {JL : Json.JSONLaws} {SL : StubLib}.
Hypothesis decode_empty : Json.json_decode "" = None.
Hypothesis put_accepted : ∀ key value, key ≠ "" → put_error key value = None.
Hypothesis del_accepted : ∀ key, key ≠ "" → del_error key = None.

Lemma unmarshal_marshal a b : valid_asset a → marshal_asset a = Ok b → b ≠ "" ∧ unmarshal_asset b = Ok a.
Proof.
  intros (Hv & Hc & Hi & Ho & Hs) [= <-].
  assert (He : Json.json_decode (Json.json_encode (asset_object a)) = Some (asset_object a)).
  { apply Json.json_decode_encode. unfold Json.valid_object, asset_object. cbn [forallb fst snd Json.valid_scalar].
    rewrite Hc, Hi, Ho, !Json.valid_utf8_ascii by reflexivity. done. }
  split; [intros E; rewrite E, decode_empty in He; done|].
  unfold unmarshal_asset, Json.json_object. rewrite He. cbn [mbind result_mbind].
  assert (Hn : ∀ z, is_int64 z → Json.as_int64 (Json.JNumber z) = Some z).
  { intros z [??]. unfold Json.as_int64, Json.as_int. by rewrite (proj2 (Z.leb_le _ _)), (proj2 (Z.ltb_lt _ _)). }
  apply Hn in Hv, Hs. unfold asset_object. Json.json_fields. by destruct a.
Qed.

Lemma represents_put db m id a b :
  represents db m → id ≠ "" → ID a = id → valid_asset a → marshal_asset a = Ok b →
  represents (λ key, if decide (key = id) then b else db key) (<[id := a]> m).
Proof.
  intros Hr Hid Ha Hv Hb key. destruct (decide (key = id)) as [->|Hne].
  - rewrite lookup_insert_eq. by split_and!.
  - rewrite lookup_insert_ne by done. apply Hr.
Qed.

Lemma represents_delete db m id :
  represents db m → represents (λ key, if decide (key = id) then "" else db key) (delete id m).
Proof.
  intros Hr key. destruct (decide (key = id)) as [->|Hne].
  - by rewrite lookup_delete_eq.
  - rewrite lookup_delete_ne by done. apply Hr.
Qed.

Lemma represents_ext db db' m : (∀ key, db key = db' key) → represents db m → represents db' m.
Proof. intros He Hr key. specialize (Hr key). by rewrite <- He. Qed.

Lemma apply_writes_insert w db id v key :
  apply_writes (<[id := Some v]> w) db key = if decide (key = id) then v else apply_writes w db key.
Proof.
  unfold apply_writes. case_decide as H; [subst; by rewrite lookup_insert_eq|by rewrite lookup_insert_ne].
Qed.

(** Storing an asset under its ID. *)
Lemma denote_put_asset db0 db m w ev id a :
  represents (apply_writes w db) m → id ≠ "" → ID a = id → valid_asset a →
  ∃ w', denote db0 (put_asset id a) w ev = (Ok (), w', ev) ∧ represents (apply_writes w' db) (<[id := a]> m).
Proof.
  intros Hr Hid Ha Hv. unfold put_asset. destruct (marshal_asset a) as [b|e] eqn:Hb; [|done].
  cbn [denote]. rewrite put_accepted by done. eexists. split; [done|].
  eapply represents_ext; [intros key; symmetry; apply apply_writes_insert|]. by apply represents_put.
Qed.

Lemma denote_init_assets db0 db ev l m w :
  represents (apply_writes w db) m → Forall (λ a, ID a ≠ "" ∧ valid_asset a) l →
  ∃ w', denote db0 (init_assets l) w ev = (Ok (), w', ev) ∧
    represents (apply_writes w' db) (foldl (λ m a, <[ID a := a]> m) m l).
Proof.
  intros Hr Hl. revert m w Hr. induction Hl as [|a l [Hid Hv] Hl IH]; intros m w Hr; [by exists w|].
  cbn [init_assets foldl]. destruct (marshal_asset a) as [b|e] eqn:Hb; [|done].
  cbn [denote]. rewrite put_accepted by done. apply IH.
  eapply represents_ext; [intros key; symmetry; apply apply_writes_insert|]. by apply represents_put.
Qed.

Lemma initial_assets_valid : Forall (λ a, ID a ≠ "" ∧ valid_asset a) initial_assets.
Proof.
  unfold initial_assets. repeat constructor; cbn; try done; apply Json.valid_utf8_ascii; reflexivity.
Qed.

Lemma denote_AssetExists db m w ev id :
  represents db m → denote db (AssetExists id) w ev = (Ok (bool_decide (is_Some (m !! id))), w, ev).
Proof.
  intros Hr. cbn. repeat f_equal. specialize (Hr id). destruct (m !! id) as [a|].
  - destruct Hr as (_ & _ & Hv & Hb). apply unmarshal_marshal in Hb as [Hne _]; [|done].
    rewrite bool_decide_eq_false_2 by done. by rewrite bool_decide_eq_true_2.
  - by rewrite Hr.
Qed.

Lemma denote_ReadAsset db m w ev id :
  represents db m →
  denote db (ReadAsset id) w ev = (match m !! id with Some a => Ok a | None => absent end, w, ev).
Proof.
  intros Hr. unfold ReadAsset. cbn [denote]. repeat f_equal. specialize (Hr id). destruct (m !! id) as [a|].
  - destruct Hr as (_ & _ & Hv & Hb). apply unmarshal_marshal in Hb as [Hne Hu]; [|done].
    by rewrite bool_decide_eq_false_2.
  - by rewrite Hr.
Qed.

Lemma prog_bind_denote {A B} db (f : A → prog B) p w ev :
  denote db (p ≫= f) w ev = let '(a, w', ev') := denote db p w ev in denote db (f a) w' ev'.
Proof. apply denote_bind. Qed.

(** One invocation. *)
Lemma contract_step db m op :
  represents db m → op_ok op →
  let '(r, w, _) := denote db (contract op) ∅ None in
  let '(r', m') := registry_step op m in
  r = r' ∧ represents (if is_ok r then apply_writes w db else db) m'.
Proof.
  intros Hr Hop.
  assert (Hr0 : represents (apply_writes ∅ db) m) by done.
  assert (Hput : ∀ id a, id ≠ "" → ID a = id → valid_asset a →
    ∃ w', denote db (put_asset id a) ∅ None = (Ok (), w', None) ∧ represents (apply_writes w' db) (<[id := a]> m)).
  { intros id a. by apply denote_put_asset. }
  destruct op as [|id color size owner value|id|id color size owner value|id|id|id owner|];
    cbn [contract registry_step]; unfold returns; rewrite prog_bind_denote.
  - destruct (denote_init_assets db db None initial_assets m ∅ Hr0 initial_assets_valid) as (w' & Hd & Hw).
    unfold InitLedger. by rewrite Hd.
  - destruct Hop as [Hid Hv]. unfold CreateAsset. rewrite prog_bind_denote, denote_AssetExists with (m := m) by done.
    destruct (m !! id) as [a|] eqn:Hm; cbn -[put_asset denote]; [done|].
    destruct (Hput id (mkAsset value color id owner size) Hid eq_refl Hv) as (w' & -> & Hw). done.
  - rewrite denote_ReadAsset with (m := m) by done. by destruct (m !! id).
  - destruct Hop as [Hid Hv]. unfold UpdateAsset. rewrite prog_bind_denote, denote_AssetExists with (m := m) by done.
    destruct (m !! id) as [a|] eqn:Hm; cbn -[put_asset denote]; [|done].
    destruct (Hput id (mkAsset value color id owner size) Hid eq_refl Hv) as (w' & -> & Hw). done.
  - unfold DeleteAsset. rewrite prog_bind_denote, denote_AssetExists with (m := m) by done.
    specialize (Hr id) as Hi. destruct (m !! id) as [a|] eqn:Hm; cbn; [|done].
    rewrite del_accepted by apply Hi. cbn. split; [done|].
    eapply represents_ext; [|by apply represents_delete].
    intros key. unfold apply_writes. case_decide as H; [subst; by rewrite lookup_insert_eq|by rewrite lookup_insert_ne].
  - rewrite denote_AssetExists with (m := m) by done. done.
  - unfold TransferAsset. rewrite prog_bind_denote, denote_ReadAsset with (m := m) by done.
    specialize (Hr id) as Hi. destruct (m !! id) as [a|] eqn:Hm; cbn -[put_asset denote bind]; [|done].
    destruct Hi as (Hid & Ha & (Hv & Hc & Hi & _ & Hs) & _).
    destruct (Hput id (with_owner owner a)) as (w' & Hd & Hw); [done..|by split_and!|].
    rewrite prog_bind_denote, Hd. done.
  - done.
Qed.

(** C20: The sample contract refines its abstract specification, a registry of assets by ID: from any
    snapshot that holds the assets of a registry, every sequence of invocations, each run on what the
    ones before committed and committing nothing when it fails, returns exactly the registry's answers
    (an asset is created once, read, updated, transferred or deleted only while it exists, and
    transferring returns the former owner), and the snapshot it ends with holds exactly the
    registry's assets.  Listing all the assets always fails, since the shim has no range query. *)
Theorem asset_history_exact db m ops :
  represents db m → Forall op_ok ops →
  let '(rs, db') := history db ops in
  let '(rs', m') := registry_history m ops in
  rs = rs' ∧ represents db' m'.
Proof.
  intros Hr Hops. revert db m Hr. induction Hops as [|op ops Hop _ IH]; intros db m Hr; [done|].
  cbn [history registry_history]. pose proof (contract_step db m op Hr Hop) as Hstep.
  destruct (denote db (contract op) ∅ None) as [[r w] ev], (registry_step op m) as [r' m'].
  destruct Hstep as [-> Hr']. specialize (IH _ _ Hr').
  destruct (history _ ops) as [rs db'], (registry_history m' ops) as [rs' m'']. destruct IH as [-> Hr'']. done.
Qed.

End Correctness.

(** ** Example *)

#[local] Existing Instances Json.jscalar_eq_dec Json.jscalar_countable.

Definition ex_asset_json : Json.JSONText := {|
  Json.json_encode o := String "j" (Framing.pack (o : list (string * Json.jscalar)));
  Json.json_decode b := match b with String _ b => Framing.unpack (A := list (string * Json.jscalar)) b | EmptyString => None end;
  Json.valid_utf8 _ := true |}.

Lemma ex_asset_json_laws : @Json.JSONLaws ex_asset_json.
Proof. split; [|done]. intros o _. cbn. apply Framing.unpack_pack. Qed.

Definition ex_ops : list Op :=
  [OpInitLedger; OpCreateAsset "asset7" "pink" 5 "Ann" 10; OpCreateAsset "asset7" "grey" 6 "Bob" 11;
   OpTransferAsset "asset7" "Bob"; OpReadAsset "asset7"; OpDeleteAsset "asset1"; OpAssetExists "asset1";
   OpUpdateAsset "asset1" "pink" 5 "Ann" 10; OpGetAllAssets].

Lemma asset_history_exact_witness :
  (history (SL := ex_stub) (J := ex_asset_json) (λ _, "") ex_ops).1 =
    [Ok Done; Ok Done; Err (ENew "the asset %s already exists"); Ok (AnOwner "Ann");
     Ok (AnAsset (mkAsset 10 "pink" "asset7" "Bob" 5)); Ok Done; Ok (ABool false); absent;
     Err (no_range (SL := ex_stub))].
Proof.
  assert (Hput : ∀ key value, key ≠ "" → put_error (StubLib := ex_stub) key value = None).
  { intros key value Hk. cbn. by rewrite bool_decide_eq_false_2. }
  assert (Hok : Forall (op_ok (J := ex_asset_json)) ex_ops).
  { repeat constructor; done. }
  pose proof (asset_history_exact (J := ex_asset_json) (JL := ex_asset_json_laws) (SL := ex_stub) eq_refl Hput (λ _ _, eq_refl)
    (λ _, "") ∅ ex_ops (λ _, eq_refl) Hok) as H.
  assert (Hr : (registry_history (SL := ex_stub) ∅ ex_ops).1 =
    [Ok Done; Ok Done; Err (ENew "the asset %s already exists"); Ok (AnOwner "Ann");
     Ok (AnAsset (mkAsset 10 "pink" "asset7" "Bob" 5)); Ok Done; Ok (ABool false); absent;
     Err (no_range (SL := ex_stub))]) by (vm_compute; reflexivity).
  rewrite <- Hr. destruct (history _ ex_ops) as [rs db'], (registry_history ∅ ex_ops) as [rs' m'].
  destruct H as [H _]. exact H.
Defined.

End AssetTransfer.
