(* ===== verification/SampleResolver.v ===== *)
(** The sample resolver, [sample_external_resolver/cmd/server/main.go]: its configuration from the
    command line, its TLS configuration, and the two resolutions it serves, composed with the
    resolvers of the orchestrator that call it. *)
From Stdlib Require Import ZArith Lia Ascii.
From stdpp Require Import base option list strings gmap.
From S2P Require Import Prelude LifecycleStore OrchestratorTypes GoStrings Json Config Network.
From S2P Require Import ChaincodeResolver Collect RemoteResolver.
Import Ccr.
Local Open Scope Z_scope.

Module SampleResolver.

(** ** Lists separated by commas *)

(** [strings.Split(value, ",")] after [acc], the current part so far. *)
Fixpoint Split (acc value : string) : list string :=
  match value with
  | EmptyString => [acc]
  | String a rest =>
      if bool_decide (a = ","%char) then acc :: Split "" rest else Split (acc +:+ String a "") rest
  end.

Definition splitCSV (value : string) : list string :=
  if bool_decide (value = "") then []
  else omap (λ part, let trimmed := GoStrings.TrimSpace part in
                     if bool_decide (trimmed = "") then None else Some trimmed) (Split "" value).

(** ** The server *)

Record server := mkServer {
  name : string;
  version : string;
  sequence : Z;
  org0Address : string;
  org0PackageID : string;
  org1Address : string;
  org1PackageID : string;
  org0OrchestratorAddresses : list string;
  org1OrchestratorAddresses : list string }.

(** The values of the command-line flags. *)
Record flags := mkFlags {
  f_listen : string;
  f_name : string;
  f_version : string;
  f_sequence : Z;
  f_org0Address : string;
  f_org0Package : string;
  f_org1Address : string;
  f_org1Package : string;
  f_org0Orch : string;
  f_org1Orch : string;
  f_tlsMode : string;
  f_tlsCert : string;
  f_tlsKey : string;
  f_clientCAs : string }.

Definition default_flags : flags :=
  mkFlags "127.0.0.1:9300" "sample" "1.0" 0 "127.0.0.1:9999" "" "127.0.0.1:10000" "" "127.0.0.1:9102"
    "127.0.0.1:9202" "mtls" "" "" "".

Definition new_server (f : flags) : server :=
  mkServer (f_name f) (f_version f) (f_sequence f) (f_org0Address f) (f_org0Package f) (f_org1Address f)
    (f_org1Package f) (splitCSV (f_org0Orch f)) (splitCSV (f_org1Orch f)).

(** The zero response: not found. *)
Definition not_found : ResolveResponse := mkResolveResponse false "" "" "" 0 [].

Definition resolveChaincode (s : server) (req : ResolveRequest) : ResolveResponse :=
  if negb (bool_decide (rq_Name req = name s)) || negb (bool_decide (rq_Version req = version s)) then not_found
  else if (0 <? sequence s) && negb (rq_Sequence req =? sequence s) then not_found
  else
    let found address packageID := mkResolveResponse true address "none" packageID (rq_Sequence req) [] in
    if bool_decide (rq_MSPID req = "org-0") then found (org0Address s) (org0PackageID s)
    else if bool_decide (rq_MSPID req = "org-1") then found (org1Address s) (org1PackageID s)
    else not_found.

(** One candidate for each address, numbered from [i + 1]. *)
Fixpoint candidates_from (targetMSP : string) (i : Z) (addresses : list string) : list ResolveCandidate :=
  match addresses with
  | [] => []
  | address :: rest =>
      mkCandidate targetMSP (targetMSP +:+ "-" +:+ GoStrings.FormatInt (i + 1)) address "mtls" ∅ ::
      candidates_from targetMSP (i + 1) rest
  end.

Definition orchestrators (s : server) (targetMSP : string) : option (list string) :=
  if bool_decide (targetMSP = "org-0") then Some (org0OrchestratorAddresses s)
  else if bool_decide (targetMSP = "org-1") then Some (org1OrchestratorAddresses s)
  else None.

Definition resolveRemoteOrchestrator (s : server) (req : ResolveRequest) : ResolveResponse :=
  let targetMSP := if bool_decide (Ccr.TargetMSP req = "") then rq_MSPID req else Ccr.TargetMSP req in
  match orchestrators s targetMSP with
  | None => not_found
  | Some addresses =>
      match candidates_from targetMSP 0 addresses with
      | [] => not_found
      | (c :: _) as candidates => mkResolveResponse true (cand_Address c) (cand_TLSMode c) "" 0 candidates
      end
  end.

(** A nil request is [None]. *)
Definition Resolve (s : server) (req : option ResolveRequest) : ResolveResponse :=
  match req with
  | None => not_found
  | Some req =>
      if bool_decide (Operation req = OperationChaincodeResolution) then resolveChaincode s req
      else if bool_decide (Operation req = OperationRemoteOrchestrator) then resolveRemoteOrchestrator s req
      else not_found
  end.

(** ** TLS *)

(** [tls.LoadX509KeyPair], [os.ReadFile] and [AppendCertsFromPEM] on the pool so far. *)
Class TLSFiles := {
  certificate : Type;
  pool : Type;
  LoadX509KeyPair : string → string → result certificate;
  ReadFile : string → result bytes;
  NewCertPool : pool;
  AppendCertsFromPEM : pool → bytes → option pool }.

(** [Some] client CAs require and verify a client certificate. *)
Record tls_config {TF : TLSFiles} := mkTLS {
  Certificate : certificate;
  ClientCAs : option pool }.

Section TLS.
Context {TF : TLSFiles}.

Fixpoint load_pool (p : pool) (caPaths : list string) : result pool :=
  match caPaths with
  | [] => Ok p
  | path :: rest =>
      match ReadFile path with
      | Err e => Err (EWrap "read client CA %s: %w" e)
      | Ok pemBytes =>
          match AppendCertsFromPEM p pemBytes with
          | None => Err (ENew "parse client CA %s")
          | Some p => load_pool p rest
          end
      end
  end.

Definition loadServerTLSConfig (mode certPath keyPath : string) (caPaths : list string) : result tls_config :=
  guard_err (negb (bool_decide (mode = "tls")) && negb (bool_decide (mode = "mtls")))
    (ENew "tls-mode must be tls or mtls");;
  guard_err (bool_decide (certPath = "")) (ENew "tls-cert is required");;
  guard_err (bool_decide (keyPath = "")) (ENew "tls-key is required");;
  match LoadX509KeyPair certPath keyPath with
  | Err e => Err (EWrap "load server certificate: %w" e)
  | Ok cert =>
      if bool_decide (mode = "mtls") then
        guard_err (bool_decide (caPaths = [])) (ENew "client-ca is required for mtls");;
        p ← load_pool NewCertPool caPaths;
        Ok (mkTLS TF cert (Some p))
      else Ok (mkTLS TF cert None)
  end.

(** What [main] serves; the listener is opened after the TLS configuration is complete. *)
Definition main (f : flags) (listen : string → option goerr) : result (tls_config * server) :=
  match loadServerTLSConfig (f_tlsMode f) (f_tlsCert f) (f_tlsKey f) (splitCSV (f_clientCAs f)) with
  | Err e => Err (EWrap "resolver TLS error: %v" e)
  | Ok cfg =>
      match listen (f_listen f) with
      | Some e => Err (EWrap "resolver listen error: %v" e)
      | None => Ok (cfg, new_server f)
      end
  end.

End TLS.

(** ** Lists separated by commas and back *)

Fixpoint join (l : list string) : string :=
  match l with
  | [] => ""
  | [s] => s
  | s :: rest => s +:+ "," +:+ join rest
  end.

(** A part that is kept as it is. *)
Definition part_ok (s : string) : Prop :=
  s ≠ "" ∧ GoStrings.TrimSpace s = s ∧ GoStrings.has_char "," s = false.

Lemma str_app_nil s : s +:+ "" = s.
Proof. induction s as [|a s IH]; [done|]. change (String a (s +:+ "") = String a s). by rewrite IH. Qed.

Lemma has_char_cons c a s : GoStrings.has_char c (String a s) = Ascii.eqb a c || GoStrings.has_char c s.
Proof. done. Qed.

Lemma Split_part acc s rest :
  GoStrings.has_char "," s = false → Split acc (s +:+ String "," rest) = (acc +:+ s) :: Split "" rest.
Proof.
  revert acc. induction s as [|a s IH]; intros acc H.
  - rewrite str_app_nil. done.
  - rewrite has_char_cons in H. apply orb_false_iff in H as [Ha H].
    change (Split acc (String a s +:+ String "," rest)) with
      (if bool_decide (a = ","%char) then acc :: Split "" (s +:+ String "," rest)
       else Split (acc +:+ String a "") (s +:+ String "," rest)).
    rewrite (bool_decide_eq_false_2 (a = ","%char)) by by apply Ascii.eqb_neq.
    rewrite IH by done. by rewrite <- GoStrings.app_assoc_str.
Qed.

Lemma Split_last acc s : GoStrings.has_char "," s = false → Split acc s = [acc +:+ s].
Proof.
  revert acc. induction s as [|a s IH]; intros acc H; [by rewrite str_app_nil|].
  rewrite has_char_cons in H. apply orb_false_iff in H as [Ha H]. cbn [Split].
  rewrite (bool_decide_eq_false_2 (a = ","%char)) by by apply Ascii.eqb_neq.
  rewrite IH by done. by rewrite <- GoStrings.app_assoc_str.
Qed.

Lemma Split_join s l : Forall part_ok (s :: l) → Split "" (join (s :: l)) = s :: l.
Proof.
  revert s. induction l as [|t l IH]; intros s H; inversion_clear H as [|? ? (_ & _ & Hs) Hl].
  - by apply Split_last.
  - change (join (s :: t :: l)) with (s +:+ String "," (join (t :: l))). rewrite Split_part by done.
    by rewrite IH.
Qed.

Lemma has_char_trim c s : GoStrings.has_char c s = false → GoStrings.has_char c (GoStrings.TrimSpace s) = false.
Proof.
  assert (Hl : ∀ s, GoStrings.has_char c s = false → GoStrings.has_char c (GoStrings.trim_left s) = false).
  { intros t. induction t as [|a t IH]; intros H; [done|]. cbn [GoStrings.trim_left].
    destruct (GoStrings.is_space a); [|done]. apply IH. rewrite has_char_cons in H. by apply orb_false_iff in H as []. }
  assert (Hr : ∀ s, GoStrings.has_char c s = false → GoStrings.has_char c (GoStrings.trim_right s) = false).
  { intros t. induction t as [|a t IH]; intros H; [done|].
    rewrite has_char_cons in H. apply orb_false_iff in H as [Ha H]. specialize (IH H). cbn [GoStrings.trim_right].
    destruct (GoStrings.trim_right t) as [|b u]; [destruct (GoStrings.is_space a); [done|]|];
      rewrite has_char_cons, Ha; done. }
  intros H. by apply Hr, Hl.
Qed.

Lemma TrimSpace_idem s : GoStrings.TrimSpace (GoStrings.TrimSpace s) = GoStrings.TrimSpace s.
Proof.
  assert (Hr : ∀ s, GoStrings.trim_right (GoStrings.trim_right s) = GoStrings.trim_right s).
  { intros t. induction t as [|a t IH]; [done|]. cbn [GoStrings.trim_right].
    destruct (GoStrings.trim_right t) as [|b u] eqn:E.
    - destruct (GoStrings.is_space a) eqn:Ha; [done|]. cbn [GoStrings.trim_right]. by rewrite Ha.
    - change (GoStrings.trim_right (String a (String b u))) with
        (match GoStrings.trim_right (String b u) with
         | EmptyString => if GoStrings.is_space a then "" else String a "" | t => String a t end).
      by rewrite IH. }
  assert (Hl : GoStrings.trim_left (GoStrings.TrimSpace s) = GoStrings.TrimSpace s).
  { unfold GoStrings.TrimSpace. induction s as [|a s IH]; [done|]. cbn [GoStrings.trim_left].
    destruct (GoStrings.is_space a) eqn:Ha; [exact IH|]. cbn [GoStrings.trim_right]. rewrite Ha.
    destruct (GoStrings.trim_right s); cbn [GoStrings.trim_left]; by rewrite Ha. }
  unfold GoStrings.TrimSpace at 1. rewrite Hl. unfold GoStrings.TrimSpace. apply Hr.
Qed.

Lemma Split_no_comma acc s :
  GoStrings.has_char "," acc = false → Forall (λ p, GoStrings.has_char "," p = false) (Split acc s).
Proof.
  revert acc. induction s as [|a s IH]; intros acc H; cbn [Split]; [by constructor|].
  case_bool_decide as Ha; [constructor; [done|by apply IH]|].
  apply IH. rewrite GoStrings.has_char_app, H, has_char_cons. rewrite (proj2 (Ascii.eqb_neq _ _) Ha). done.
Qed.

(** The comma-separated flags: every entry that [splitCSV] makes is non-empty, without
    surrounding white space and without commas, and a list of such entries joined by commas is read
    back exactly. *)
Theorem splitCSV_exact v l :
  Forall part_ok (splitCSV v) ∧ (Forall part_ok l → splitCSV (join l) = l).
Proof.
  split.
  - unfold splitCSV. case_bool_decide; [constructor|]. apply Forall_forall. intros p Hp.
    apply list_elem_of_omap in Hp as (q & Hq & Hpq).
    pose proof (Split_no_comma "" v eq_refl) as Hc. rewrite Forall_forall in Hc. specialize (Hc q Hq).
    case_bool_decide as He; [done|]. injection Hpq as <-. split; [done|].
    split; [apply TrimSpace_idem|by apply has_char_trim].
  - intros Hl. destruct l as [|s l]; [done|]. unfold splitCSV.
    rewrite bool_decide_eq_false_2.
    + rewrite Split_join by done. induction Hl as [|t ts (Hne & Ht & _) Hts IH]; [done|].
      cbn [omap list_omap]. rewrite Ht, (bool_decide_eq_false_2 (t = "")) by done. by f_equal.
    + inversion_clear Hl as [|? ? (Hne & _)]. destruct s as [|a s]; [done|]. by destruct l.
Qed.

(** ** What the orchestrators that call it get *)

(** A call of the sample resolver. *)
Definition served_by (s : server) (req : ResolveRequest) : result ResolveResponse := Ok (Resolve s (Some req)).

(** The address and package of an organization's chaincode. *)
Definition chaincode_of (s : server) (msp : string) : option (string * string) :=
  if bool_decide (msp = "org-0") then Some (org0Address s, org0PackageID s)
  else if bool_decide (msp = "org-1") then Some (org1Address s, org1PackageID s)
  else None.

Definition is_its_chaincode (s : server) (def : Store.ChaincodeDefinition) : bool :=
  bool_decide (Store.Name def = name s) && bool_decide (Store.Version def = version s) &&
  ((sequence s <=? 0) || (Store.Sequence def =? sequence s)).

(** What a chaincode resolution of the sample resolver is to its caller: the configured address, or
    nothing. *)
Lemma sample_resolves_chaincode {NL : Network.NetworkLib} s req :
  grpc_Resolve (served_by s) req =
    let def := Definition_ req in
    match (if is_its_chaincode s def then chaincode_of s (MSPID req) else None) with
    | None => Ok None
    | Some (address, packageID) =>
        if bool_decide (address = "") then Err (ENew "dynamic chaincode resolver response missing address")
        else Ok (Some (Store.mkConnection (MSPID req) (Store.Name def) (Store.Version def) (Store.Sequence def)
                         address "none" packageID ""))
    end.
Proof.
  unfold grpc_Resolve, served_by, Resolve, grpc_request, is_its_chaincode. cbn [Operation].
  rewrite bool_decide_eq_true_2 by done. unfold resolveChaincode. cbn [rq_Name rq_Version rq_Sequence rq_MSPID].
  destruct (bool_decide (Store.Name _ = name s)); [|done]. destruct (bool_decide (Store.Version _ = version s)); [|done].
  cbn [negb orb andb]. rewrite Z.ltb_antisym. destruct (sequence s <=? 0); cbn [negb orb andb].
  2: destruct (Store.Sequence _ =? sequence s); cbn [negb]; [|done].
  all: unfold chaincode_of; destruct (bool_decide (MSPID req = "org-0")); [|destruct (bool_decide (MSPID req = "org-1"))];
    cbn; rewrite ?Z.eqb_refl, ?andb_false_r; try done.
  all: first [by destruct (bool_decide (org0Address s = "")) | by destruct (bool_decide (org1Address s = ""))].
Qed.

Lemma candidates_checked target i l :
  Forall (λ a, a ≠ "") l →
  Remote.check_candidates target (candidates_from target i l) = Ok (candidates_from target i l).
Proof.
  intros H. revert i. induction H as [|a l Ha _ IH]; intros i; [done|]. cbn [candidates_from Remote.check_candidates cand_Address cand_MSPID].
  rewrite (bool_decide_eq_false_2 (a = "")) by done. rewrite (bool_decide_eq_true_2 (target = target)) by done.
  rewrite andb_false_r. cbn [guard_err mbind result_mbind]. by rewrite IH.
Qed.

Lemma candidates_addresses target i l : map cand_Address (candidates_from target i l) = l.
Proof. revert i. induction l as [|a l IH]; intros i; [done|]. cbn. by rewrite IH. Qed.

(** The answer for an organization: every candidate is accepted. *)
Lemma orchestrators_answer s target req :
  Ccr.TargetMSP req = target → target ≠ "" →
  let out := resolveRemoteOrchestrator s req in
  (Found out = true ↔ ∃ a l, orchestrators s target = Some (a :: l)) ∧
  ∀ l, orchestrators s target = Some l → Forall (λ a, a ≠ "") l →
    (Found out = true → Remote.remoteOrchestratorCandidatesFromResponse target out = Ok (candidates_from target 0 l)).
Proof.
  intros Ht Hne. unfold resolveRemoteOrchestrator. rewrite Ht, (bool_decide_eq_false_2 (target = "")) by done. cbn zeta.
  destruct (orchestrators s target) as [[|a l]|] eqn:Ho; (split; [split; [|intros (a' & l' & ?)]|]); try done.
  - intros _. by exists a, l.
  - intros ? [= <-] Hall _. unfold Remote.remoteOrchestratorCandidatesFromResponse.
    by apply (candidates_checked target 0 (a :: l)).
Qed.

Lemma splitCSV_parts v : Forall (λ a, a ≠ "") (splitCSV v).
Proof.
  unfold splitCSV. case_bool_decide; [constructor|]. apply Forall_forall. intros p Hp.
  apply list_elem_of_omap in Hp as (q & _ & Hpq). case_bool_decide; [done|]. by injection Hpq as <-.
Qed.

Lemma new_server_addresses f target l :
  orchestrators (new_server f) target = Some l → Forall (λ a, a ≠ "") l.
Proof.
  unfold orchestrators. repeat case_bool_decide; [intros [= <-]; apply splitCSV_parts..|done].
Qed.

(** An orchestrator whose remote resolver is the sample one: asking for the orchestrators of an
    organization never panics and never fails because of the answer's form.  It finds nothing exactly
    when the organization is not one it may ask for or the resolver has no address for it; otherwise,
    unless an address cannot be parsed or dialled, it gets one contact for each entry of the
    organization's flag, in the flag's order, each for that organization and made to the endpoint
    that the entry names. *)
Theorem sample_resolves_orchestrators {NL : Network.NetworkLib} base frame f n d req n' d' out :
  Remote.owns base n (frame ++ Remote.owned_dynamic d) → Remote.dyn_ok d →
  let target := Collect.TargetMSPID req in
  target ≠ "" → Remote.dynamic_Resolve (served_by (new_server f)) n d req = (n', d', out) →
  ∃ r, out = Some r ∧
    (r = Ok None ↔ Remote.targetAllowed d target = false ∨
       ¬ ∃ a l, orchestrators (new_server f) target = Some (a :: l)) ∧
    ∀ contacts, r = Ok (Some contacts) →
      ∃ addresses, orchestrators (new_server f) target = Some addresses ∧
        Forall2 (Remote.contact_of target) addresses contacts.
Proof.
  intros Ho Hd target Hne H. unfold Remote.dynamic_Resolve, served_by in H. fold target in H.
  destruct (Remote.targetAllowed d target) eqn:Ha; cbn [negb] in H.
  2: { injection H as <- <- <-. eexists. split; [done|]. split; [|done]. split; [by left|done]. }
  change (Resolve (new_server f) (Some (Remote.resolve_request req))) with
    (resolveRemoteOrchestrator (new_server f) (Remote.resolve_request req)) in H.
  destruct (orchestrators_answer (new_server f) target (Remote.resolve_request req) eq_refl Hne) as [Hf Hc].
  destruct (Found _) eqn:Ef; cbn [negb] in H.
  2: { injection H as <- <- <-. eexists. split; [done|]. split; [|done]. split; [|done].
       intros _. right. intros Hex. by apply Hf in Hex. }
  destruct (proj1 Hf eq_refl) as (a & l & Hl). rewrite (Hc _ Hl (new_server_addresses _ _ _ Hl) eq_refl) in H.
  assert (Hin : target ∈ Remote.targetMSPIDs d).
  { unfold Remote.targetAllowed in Ha. apply existsb_exists in Ha as (m & Hm & Heq). bool_props.
    subst m. by apply list_elem_of_In. }
  cbn [candidates_from] in H. destruct (Remote.contacts_for n d target _) as [[n1 d1] o1] eqn:Hcs.
  destruct (Remote.contacts_for_spec base frame _ n d target n1 d1 o1 Ho Hd Hin Hcs) as (_ & r1 & -> & Hr1).
  destruct r1 as [cs|e]; injection H as <- <- <-; eexists; (split; [done|]); split.
  1, 3: split; [done|]; intros [|[]]; [done|by exists a, l].
  - intros ? [= <-]. exists (a :: l). split; [done|]. specialize (Hr1 cs eq_refl).
    rewrite <- (candidates_addresses target 0 (a :: l)). apply Forall2_fmap_l.
    eapply Forall2_impl; [exact Hr1|]. by intros cand c [].
  - done.
Qed.

(** ** Example *)

Definition ex_flags : flags :=
  mkFlags "127.0.0.1:9300" "asset" "1.0" 0 "cc0:9999" "" "cc1:9999" "" "o0:9102" " o1:9202, ,o2:9202 " "mtls" "cert" "key" "".

Definition ex_dynamic : Remote.dynamicRemote :=
  Remote.mkDynamicRemote "resolver:9300" None 0 ["org-1"] Config.no_tls (Some ∅).

Lemma splitCSV_exact_witness : splitCSV (join ["o1:9202"; "o2:9202"]) = ["o1:9202"; "o2:9202"].
Proof. apply (splitCSV_exact "" ["o1:9202"; "o2:9202"]). repeat constructor; done. Defined.

#[local] Notation ex_run :=
  (Remote.dynamic_Resolve (NL := Ccr.ex_network) (served_by (new_server ex_flags)) Network.no_connections ex_dynamic
    (Remote.ex_remote_request "org-1")).

Lemma sample_resolves_orchestrators_witness :
  ∃ contacts, ex_run.2 = Some (Ok (Some contacts)) ∧
    Forall2 (Remote.contact_of "org-1") ["o1:9202"; "o2:9202"] contacts.
Proof.
  destruct ex_run as [[n' d'] out] eqn:E.
  destruct (sample_resolves_orchestrators (NL := Ccr.ex_network) Network.no_connections [] ex_flags
    Network.no_connections ex_dynamic (Remote.ex_remote_request "org-1") n' d' out) as (r & -> & Hn & Hc).
  - apply (Remote.owns_none Network.no_connections). constructor.
  - constructor; [by eexists|intros m key c [= <-]; by rewrite lookup_empty|repeat constructor].
  - done.
  - exact E.
  - assert (Hr : from_option is_ok false ex_run.2 = true)
      by (vm_compute; done).
    rewrite E in Hr. cbn in Hr.
    destruct r as [[contacts|]|e]; [|exfalso|done].
    + exists contacts. split; [done|]. destruct (Hc contacts eq_refl) as (addresses & Ha & Hall).
      vm_compute in Ha. injection Ha as <-. exact Hall.
    + destruct (proj1 Hn eq_refl) as [Hf|Hf]; [by vm_compute in Hf|].
      apply Hf. exists "o1:9202", ["o2:9202"]. vm_compute. reflexivity.
Defined.

End SampleResolver.
