(* ===== verification/Unary.v ===== *)
(** Unary gRPC methods with JSON messages, as [pkg/lifecycle/rpc.go] and [pkg/ccresolver/rpc.go]
    register, serve and call them.

    The gRPC library is the class [Grpc]: which registered method a path selects and what of an
    error reaches the caller. *)
From Stdlib Require Import ZArith Lia.
From stdpp Require Import base option list strings gmap.
From S2P Require Import Prelude OrchestratorTypes JsonTree.
Import Tree.

Module Unary.

(** The method that a path selects, the error of a path that selects none, and what the caller sees
    of an error. *)
Class Grpc := {
  select {A} : string → list (string * A) → string → option A;
  unknown_method : goerr;
  carried : goerr → goerr }.

Definition full_method (service name : string) : string := "/" +:+ service +:+ "/" +:+ name.

(** A registered method is selected by its full name. *)
Class GrpcLaws {G : Grpc} : Prop :=
  select_registered : ∀ A service (ms : list (string * A)) name a,
    NoDup ms.*1 → (name, a) ∈ ms → select service ms (full_method service name) = Some a.

(** A service description and its implementation on a state. *)
Record service (S Req : Type) := mkService {
  ServiceName : string;
  Method : Type;
  MethodName : Method → string;
  Methods : list (string * Method);
  Response : Method → Type;
  c_request : codec Req;
  c_response : ∀ m, codec (Response m);
  serve : ∀ m, S → Req → S * result (Response m) }.
Arguments mkService {S Req}.
Arguments ServiceName {S Req}.
Arguments Method {S Req}.
Arguments MethodName {S Req}.
Arguments Methods {S Req}.
Arguments Response {S Req}.
Arguments c_request {S Req}.
Arguments c_response {S Req}.
Arguments serve {S Req}.

(** [grpc.UnaryServerInterceptor]: given the full method and the request, it may call the handler. *)
Definition interceptor (S Req : Type) : Type :=
  ∀ R, string → Req → (Req → S → S * result R) → S → S * result R.

(** One that only observes. *)
Definition transparent {S Req} (i : interceptor S Req) : Prop := ∀ R path req h st, i R path req h st = h req st.

Section Rpc.
Context {S Req : Type} {G : Grpc} {T : TreeText}.
Variable srv : service S Req.
Variable i : option (interceptor S Req).

(** The handler of each method; [dec] is what decoding the request gives. *)
Definition handler (m : Method srv) (dec : result Req) (st : S) : S * result (Response srv m) :=
  match dec with
  | Err e => (st, Err e)
  | Ok req =>
      match i with
      | None => serve srv m st req
      | Some i => i (Response srv m) (full_method (ServiceName srv) (MethodName srv m)) req
                    (λ req st, serve srv m st req) st
      end
  end.

(** A call as the server meets it. *)
Definition receive (path : string) (body : bytes) (st : S) : S * result bytes :=
  match select (ServiceName srv) (Methods srv) path with
  | None => (st, Err unknown_method)
  | Some m =>
      let '(st', r) := handler m (Unmarshal (c_request srv) body) st in
      (st', Marshal (c_response srv m) <$> r)
  end.

(** [conn.Invoke] with the JSON codec. *)
Definition Invoke {R} (c : codec R) (path : string) (req : Req) (st : S) : S * result R :=
  let '(st', r) := receive path (Marshal (c_request srv) req) st in
  (st', match r with Ok body => Unmarshal c body | Err e => Err (carried e) end).

(** The client's method of each name. *)
Definition call (m : Method srv) (st : S) (req : Req) : S * result (Response srv m) :=
  Invoke (c_response srv m) ("/" +:+ ServiceName srv +:+ "/" +:+ MethodName srv m) req st.

(** Every method is registered under its own name. *)
Definition registered : Prop := NoDup (Methods srv).*1 ∧ ∀ m, (MethodName srv m, m) ∈ Methods srv.

(** A call whose request and answer have an encoding, with an interceptor that only observes. *)
Lemma call_served `{GL : !GrpcLaws} (arrives : ∀ m, Response srv m → Response srv m) m st req :
  registered → (∀ f, i = Some f → transparent f) →
  Unmarshal (c_request srv) (Marshal (c_request srv) req) = Ok req →
  (∀ x, (serve srv m st req).2 = Ok x →
     Unmarshal (c_response srv m) (Marshal (c_response srv m) x) = Ok (arrives m x)) →
  call m st req =
    ((serve srv m st req).1,
     match (serve srv m st req).2 with Ok x => Ok (arrives m x) | Err e => Err (carried e) end).
Proof.
  intros [Hnd Hin] Hi Hreq Hresp. unfold call, Invoke, receive.
  pose proof (select_registered _ (ServiceName srv) (Methods srv) (MethodName srv m) m Hnd (Hin m)) as Hsel.
  unfold full_method in Hsel. rewrite Hsel, Hreq.
  assert (Hh : handler m (Ok req) st = serve srv m st req).
  { unfold handler. destruct i as [f|]; [|done]. by apply Hi. }
  rewrite Hh. destruct (serve srv m st req) as [st' [x|e]]; [|done]. cbn [fmap result_fmap snd fst] in *.
  by rewrite Hresp.
Qed.

(** A body that is not a request changes nothing. *)
Lemma receive_malformed path body st e :
  Unmarshal (c_request srv) body = Err e → (receive path body st).1 = st.
Proof. intros He. unfold receive. rewrite He. by destruct (select _ _ _). Qed.

End Rpc.

(** ** Example *)

Definition ex_grpc : Grpc := {|
  select A service ms path := snd ∘ snd <$> list_find (λ p, path = full_method service p.1) ms;
  unknown_method := EStatus CodeNotFound (ENew "unknown method");
  carried e := e |}.

Lemma ex_grpc_laws : @GrpcLaws ex_grpc.
Proof.
  intros A service ms name a Hnd Hin. cbn. pose proof Hin as Hat.
  apply (list_find_elem_of (λ p, full_method service name = full_method service p.1)) in Hin as [[j [n b]] Hf]; [|done].
  rewrite Hf. cbn. apply list_find_Some in Hf as (Hl & Hp & _). cbn in Hp.
  apply (inj (String.append "/")), (inj (String.append service)), (inj (String.append "/")) in Hp. subst n.
  apply list_elem_of_lookup_1 in Hat as [k Hk].
  assert (j = k) as ->.
  { apply (NoDup_lookup ms.*1 j k name Hnd); by rewrite list_lookup_fmap, ?Hl, ?Hk. }
  congruence.
Qed.

End Unary.
