(* ===== verification/LifecycleTransport.v ===== *)
(** The gRPC layer of the lifecycle service, [pkg/lifecycle/rpc.go]: the JSON of its messages, the
    registered methods and their handlers, and the client's calls.

    The theorems say that a client's call over this layer is the server's method. *)
From Stdlib Require Import ZArith Lia Ascii.
From stdpp Require Import base option list strings gmap.
From S2P Require Import Prelude LifecycleStore OrchestratorTypes GoStrings Json Msp Auth LifecycleAuth.
From S2P Require Import Package LifecycleRPC LifecycleCLI JsonTree Unary.
Import LifecycleAuth Tree Unary.
Local Open Scope Z_scope.

Module Transport.

(** ** Messages *)

Definition c_signed_request : codec SignedRequest :=
  struct (λ r, field c_uint32 "version" (Version r) ++ field c_string "channel_id" (ChannelID r) ++
               field c_string "operation" (Operation r) ++ omit c_bool negb "internal" (Internal r) ++
               field c_int64 "issued_at" (IssuedAt r) ++ field c_bytes "nonce" (Nonce r) ++
               field c_bytes "payload" (Payload r) ++ field c_bytes "creator" (Creator r) ++
               field c_bytes "signature" (Signature r) ++ [])
    (λ acc o,
       version ← get c_uint32 "version" o (Version acc);
       channel ← get c_string "channel_id" o (ChannelID acc);
       operation ← get c_string "operation" o (Operation acc);
       internal ← get c_bool "internal" o (Internal acc);
       issued ← get c_int64 "issued_at" o (IssuedAt acc);
       nonce ← get c_bytes "nonce" o (Nonce acc);
       payload ← get c_bytes "payload" o (Payload acc);
       creator ← get c_bytes "creator" o (Creator acc);
       signature ← get c_bytes "signature" o (Signature acc);
       Ok (mkSignedRequest version channel operation internal issued nonce payload creator signature))
    (mkSignedRequest 0 "" "" false 0 "" "" "" "").

(** The files of a package have no field. *)
Definition c_installed_package : codec Store.InstalledPackage :=
  struct (λ p, field c_string "package_id" (Store.pkg_PackageID p) ++ field c_string "label" (Store.pkg_Label p) ++
               field c_string "type" (Store.pkg_Type p) ++ field c_string "address" (Store.pkg_Address p) ++
               field c_string "installed_by_msp" (Store.pkg_InstalledByMSP p) ++
               field c_string "installed_at" (Store.pkg_InstalledAt p) ++ [])
    (λ acc o,
       id ← get c_string "package_id" o (Store.pkg_PackageID acc);
       label ← get c_string "label" o (Store.pkg_Label acc);
       type ← get c_string "type" o (Store.pkg_Type acc);
       address ← get c_string "address" o (Store.pkg_Address acc);
       msp ← get c_string "installed_by_msp" o (Store.pkg_InstalledByMSP acc);
       installed ← get c_string "installed_at" o (Store.pkg_InstalledAt acc);
       Ok (Store.mkInstalledPackage id label type address msp installed (Store.pkg_MetadataJSON acc)
             (Store.pkg_ConnectionJSON acc) (Store.pkg_PackageTGZ acc)))
    (Store.mkInstalledPackage "" "" "" "" "" "" "" "" "").

Definition c_definition : codec Store.ChaincodeDefinition :=
  struct (λ d, field c_string "name" (Store.Name d) ++ field c_string "version" (Store.Version d) ++
               field c_int64 "sequence" (Store.Sequence d) ++ field c_bool "init_required" (Store.InitRequired d) ++ [])
    (λ acc o,
       name ← get c_string "name" o (Store.Name acc);
       version ← get c_string "version" o (Store.Version acc);
       sequence ← get c_int64 "sequence" o (Store.Sequence acc);
       init ← get c_bool "init_required" o (Store.InitRequired acc);
       Ok (Store.mkDefinition name version sequence init))
    (Store.mkDefinition "" "" 0 false).

Definition c_approved : codec Store.ApprovedDefinition :=
  struct (λ a, field c_definition "definition" (Store.app_Definition a) ++
               field c_string "package_id" (Store.app_PackageID a) ++
               field c_string "approving_msp" (Store.app_ApprovingMSP a) ++
               field c_string "approved_at" (Store.app_ApprovedAt a) ++
               omit c_string empty_string "package_address" (Store.app_PackageAddress a) ++ [])
    (λ acc o,
       def ← get c_definition "definition" o (Store.app_Definition acc);
       id ← get c_string "package_id" o (Store.app_PackageID acc);
       msp ← get c_string "approving_msp" o (Store.app_ApprovingMSP acc);
       approved ← get c_string "approved_at" o (Store.app_ApprovedAt acc);
       address ← get c_string "package_address" o (Store.app_PackageAddress acc);
       Ok (Store.mkApproved def id msp approved address))
    (Store.mkApproved (zero c_definition) "" "" "" "").

Definition c_committed : codec Store.CommittedDefinition :=
  struct (λ c, field c_definition "definition" (Store.com_Definition c) ++
               field c_string "committed_at" (Store.com_CommittedAt c) ++
               field c_bool "initialized" (Store.com_Initialized c) ++ [])
    (λ acc o,
       def ← get c_definition "definition" o (Store.com_Definition acc);
       committed ← get c_string "committed_at" o (Store.com_CommittedAt acc);
       initialized ← get c_bool "initialized" o (Store.com_Initialized acc);
       Ok (Store.mkCommitted def committed initialized))
    (Store.mkCommitted (zero c_definition) "" false).

Definition c_ledger : codec RPC.LedgerCommitResult :=
  struct (λ l, omit c_string empty_string "tx_id" (RPC.lc_TxID l) ++
               omit c_string empty_string "status" (RPC.lc_Status l) ++
               omit c_uint64 empty_int "block_num" (RPC.lc_BlockNum l) ++
               omit c_uint32 empty_int "tx_num" (RPC.lc_TxNum l) ++
               omit c_string empty_string "namespace" (RPC.lc_Namespace l) ++
               omit c_string empty_string "key" (RPC.lc_Key l) ++ [])
    (λ acc o,
       tx ← get c_string "tx_id" o (RPC.lc_TxID acc);
       status ← get c_string "status" o (RPC.lc_Status acc);
       block ← get c_uint64 "block_num" o (RPC.lc_BlockNum acc);
       num ← get c_uint32 "tx_num" o (RPC.lc_TxNum acc);
       namespace ← get c_string "namespace" o (RPC.lc_Namespace acc);
       key ← get c_string "key" o (RPC.lc_Key acc);
       Ok (RPC.mkCommitResult tx status block num namespace key))
    (RPC.mkCommitResult "" "" 0 0 "" "").

(** An [InstalledPackageSummary] is its label and its package ID. *)
Definition c_summary : codec (string * string) :=
  struct (λ s, field c_string "label" s.1 ++ field c_string "package_id" s.2 ++ [])
    (λ acc o, label ← get c_string "label" o acc.1; id ← get c_string "package_id" o acc.2; Ok (label, id))
    ("", "").

(** A response of one field. *)
Definition c_single {A} (c : codec A) (name : string) : codec A :=
  struct (λ a, field c name a ++ []) (λ acc o, get c name o acc) (zero c).

Definition c_InstallResponse := c_single c_installed_package "package".
Definition c_QueryInstalledResponse := c_single (c_list c_summary) "packages".
Definition c_ApproveForMyOrgResponse := c_single c_approved "approval".
Definition c_CheckCommitReadinessResponse := c_single (c_map c_bool) "approvals".
Definition c_MarkInitializedResponse := c_single c_committed "definition".
Definition c_QueryCommittedResponse := c_single (c_list c_committed) "definitions".

(** The ledger result is a struct, which [omitempty] never leaves out. *)
Definition c_CommitResponse : codec Cli.CommitResponse :=
  struct (λ r, field c_committed "definition" (Cli.cr_Definition r) ++
               field (c_map c_bool) "approvals" (Cli.cr_Approvals r) ++
               field c_ledger "ledger" (Cli.cr_Ledger r) ++ [])
    (λ acc o,
       def ← get c_committed "definition" o (Cli.cr_Definition acc);
       approvals ← get (c_map c_bool) "approvals" o (Cli.cr_Approvals acc);
       ledger ← get c_ledger "ledger" o (Cli.cr_Ledger acc);
       Ok (Cli.mkCommitResponse def approvals ledger))
    (Cli.mkCommitResponse (zero c_committed) ∅ (zero c_ledger)).

(** ** The messages survive *)

Section Lawful.
Context {T : TreeText} {TL : TreeLaws}.

Definition fits_request (r : SignedRequest) : Prop :=
  is_uint32 (Version r) ∧ text (ChannelID r) ∧ text (Operation r) ∧ is_int64 (IssuedAt r).

Lemma signed_request_lawful : lawful c_signed_request fits_request.
Proof. struct_lawful. Qed.

Definition fits_package (p : Store.InstalledPackage) : Prop :=
  text (Store.pkg_PackageID p) ∧ text (Store.pkg_Label p) ∧ text (Store.pkg_Type p) ∧
  text (Store.pkg_Address p) ∧ text (Store.pkg_InstalledByMSP p) ∧ text (Store.pkg_InstalledAt p).

(** A package arrives without its files. *)
Lemma installed_package_wire p :
  fits_package p →
  dec c_installed_package (zero c_installed_package) (enc c_installed_package p) = Ok (Cli.wire_package p) ∧
  valid (enc c_installed_package p) = true.
Proof.
  intros (Hid & Hl & Ht & Ha & Hm & Hi). unfold c_installed_package. split; cbn [struct enc dec zero].
  - by struct_decode.
  - struct_valid.
Qed.

Definition fits_definition (d : Store.ChaincodeDefinition) : Prop :=
  text (Store.Name d) ∧ text (Store.Version d) ∧ is_int64 (Store.Sequence d).

Lemma definition_lawful : lawful c_definition fits_definition.
Proof. struct_lawful. Qed.

#[local] Hint Resolve definition_lawful : codecs.

Definition fits_approved (a : Store.ApprovedDefinition) : Prop :=
  fits_definition (Store.app_Definition a) ∧ text (Store.app_PackageID a) ∧ text (Store.app_ApprovingMSP a) ∧
  text (Store.app_ApprovedAt a) ∧ text (Store.app_PackageAddress a).

Lemma approved_lawful : lawful c_approved fits_approved.
Proof. struct_lawful. Qed.

Definition fits_committed (c : Store.CommittedDefinition) : Prop :=
  fits_definition (Store.com_Definition c) ∧ text (Store.com_CommittedAt c).

Lemma committed_lawful : lawful c_committed fits_committed.
Proof. struct_lawful. Qed.

Definition fits_ledger (l : RPC.LedgerCommitResult) : Prop :=
  text (RPC.lc_TxID l) ∧ text (RPC.lc_Status l) ∧ is_uint64 (RPC.lc_BlockNum l) ∧ is_uint32 (RPC.lc_TxNum l) ∧
  text (RPC.lc_Namespace l) ∧ text (RPC.lc_Key l).

Lemma ledger_lawful : lawful c_ledger fits_ledger.
Proof. struct_lawful. Qed.

Lemma summary_lawful : lawful c_summary (λ s, text s.1 ∧ text s.2).
Proof. struct_lawful. Qed.

Lemma single_lawful {A} (c : codec A) fits name : lawful c fits → text name → lawful (c_single c name) fits.
Proof.
  intros Hl Hn. split; intros a Ha.
  - cbn [c_single struct enc dec zero]. rewrite (get_take c fits) by done. done.
  - cbn [c_single struct enc]. rewrite valid_fields_app. by rewrite (field_valid c fits).
Qed.

#[local] Hint Resolve approved_lawful committed_lawful ledger_lawful : codecs.

Definition fits_commit (r : Cli.CommitResponse) : Prop :=
  fits_committed (Cli.cr_Definition r) ∧ map_Forall (λ k _, text k ∧ True) (Cli.cr_Approvals r) ∧
  fits_ledger (Cli.cr_Ledger r).

Lemma commit_lawful : lawful c_CommitResponse fits_commit.
Proof. struct_lawful. Qed.

End Lawful.

(** ** Decoded messages *)

Definition request_in_range (r : SignedRequest) : Prop := is_uint32 (Version r) ∧ is_int64 (IssuedAt r).

Definition definition_in_range (d : Store.ChaincodeDefinition) : Prop := is_int64 (Store.Sequence d).

Definition ledger_in_range (l : RPC.LedgerCommitResult) : Prop :=
  is_uint64 (RPC.lc_BlockNum l) ∧ is_uint32 (RPC.lc_TxNum l).

Create HintDb typed.
#[export] Hint Resolve int64_typed uint64_typed uint32_typed list_typed : typed.

(** The fields of a struct that have a range. *)
Ltac typed_fields :=
  apply struct_typed; cbv beta;
  [split_and?; first [done | vm_compute; repeat split; discriminate]|];
  intros acc o a Hacc H; destruct_and?; repeat (apply bind_ok in H as (? & ? & H)); injection H as <-;
  split_and?; (eapply get_typed; [solve [eauto with typed]|eassumption..]).

Lemma signed_request_typed : typed c_signed_request request_in_range.
Proof. unfold request_in_range. typed_fields. Qed.

Lemma definition_typed : typed c_definition definition_in_range.
Proof. unfold definition_in_range. typed_fields. Qed.

#[export] Hint Resolve definition_typed : typed.

Lemma approved_typed : typed c_approved (λ a, definition_in_range (Store.app_Definition a)).
Proof. typed_fields. Qed.

Lemma committed_typed : typed c_committed (λ c, definition_in_range (Store.com_Definition c)).
Proof. typed_fields. Qed.

Lemma ledger_typed : typed c_ledger ledger_in_range.
Proof. unfold ledger_in_range. typed_fields. Qed.

#[export] Hint Resolve approved_typed committed_typed ledger_typed : typed.

Lemma commit_typed :
  typed c_CommitResponse (λ r, definition_in_range (Store.com_Definition (Cli.cr_Definition r)) ∧
    ledger_in_range (Cli.cr_Ledger r)).
Proof.
  apply struct_typed; cbv beta; [vm_compute; repeat split; discriminate|].
  intros acc o a [Hd Hl] H. repeat (apply bind_ok in H as (? & ? & H)). injection H as <-. split.
  - eapply (get_typed c_committed (λ c, definition_in_range (Store.com_Definition c)));
      [apply committed_typed|exact Hd|eassumption].
  - eapply (get_typed c_ledger ledger_in_range); [apply ledger_typed|exact Hl|eassumption].
Qed.

Lemma single_typed {A} (c : codec A) name P : typed c P → typed (c_single c name) P.
Proof. intros Hc. apply struct_typed; [apply Hc|]. intros acc o a Hacc. by apply get_typed. Qed.

(** ** Methods *)

Inductive Method := MInstall | MQueryInstalled | MApproveForMyOrg | MCheckCommitReadiness | MCommit
  | MMarkInitialized | MQueryCommitted.

Definition lifecycleServiceName : string := "compat.lifecycle.Lifecycle".

Definition method_name (m : Method) : string :=
  match m with
  | MInstall => "Install"
  | MQueryInstalled => "QueryInstalled"
  | MApproveForMyOrg => "ApproveForMyOrg"
  | MCheckCommitReadiness => "CheckCommitReadiness"
  | MCommit => "Commit"
  | MMarkInitialized => "MarkInitialized"
  | MQueryCommitted => "QueryCommitted"
  end.

(** The methods of the service description, in its order. *)
Definition methods : list (string * Method) :=
  [("Install", MInstall); ("QueryInstalled", MQueryInstalled); ("ApproveForMyOrg", MApproveForMyOrg);
   ("CheckCommitReadiness", MCheckCommitReadiness); ("Commit", MCommit);
   ("MarkInitialized", MMarkInitialized); ("QueryCommitted", MQueryCommitted)].

Definition response (m : Method) : Type :=
  match m with
  | MInstall => Store.InstalledPackage
  | MQueryInstalled => list (string * string)
  | MApproveForMyOrg => Store.ApprovedDefinition
  | MCheckCommitReadiness => gmap string bool
  | MCommit => Cli.CommitResponse
  | MMarkInitialized => Store.CommittedDefinition
  | MQueryCommitted => list Store.CommittedDefinition
  end.

Definition c_response (m : Method) : codec (response m) :=
  match m with
  | MInstall => c_InstallResponse
  | MQueryInstalled => c_QueryInstalledResponse
  | MApproveForMyOrg => c_ApproveForMyOrgResponse
  | MCheckCommitReadiness => c_CheckCommitReadinessResponse
  | MCommit => c_CommitResponse
  | MMarkInitialized => c_MarkInitializedResponse
  | MQueryCommitted => c_QueryCommittedResponse
  end.

(** [LifecycleServer]: the method of each name on a state. *)
Definition LifecycleServer (S : Type) : Type := ∀ m : Method, S → SignedRequest → S * result (response m).

Definition lifecycle_server {J : Json.JSONText} {L : Msp.MSPLib} {PL : Package.PackageLib} {PJ : RPC.PayloadJSON}
    (srv : RPC.Server) (renv : RPC.Env) : LifecycleServer (option Store.Store) := λ m st req,
  match m with
  | MInstall => RPC.Install srv renv st (Some req)
  | MQueryInstalled => (st, RPC.QueryInstalled srv renv st (Some req))
  | MApproveForMyOrg => RPC.ApproveForMyOrg srv renv st (Some req)
  | MCheckCommitReadiness => (st, RPC.CheckCommitReadiness srv renv st (Some req))
  | MCommit =>
      let '(st', r) := RPC.Commit srv renv st (Some req) in
      (st', x ← r; Ok (Cli.mkCommitResponse x.1 (from_option fst ∅ x.2) (from_option snd Cli.no_ledger x.2)))
  | MMarkInitialized => RPC.MarkInitialized srv renv st (Some req)
  | MQueryCommitted => (st, RPC.QueryCommitted srv renv st (Some req))
  end.

(** What [RegisterLifecycleServer] registers. *)
Definition RegisterLifecycleServer {S} (srv : LifecycleServer S) : service S SignedRequest :=
  mkService lifecycleServiceName Method method_name methods response c_signed_request c_response srv.

(** The seven handlers. *)
Definition lifecycle_handler {S} (srv : LifecycleServer S) (i : option (interceptor S SignedRequest)) (m : Method)
    (dec : result SignedRequest) (st : S) : S * result (response m) :=
  handler (RegisterLifecycleServer srv) i m dec st.

Lemma lifecycle_registered {S} (srv : LifecycleServer S) : registered (RegisterLifecycleServer srv).
Proof.
  split; [repeat constructor; set_solver|].
  intros m. cbn. destruct m; unfold methods; cbn [method_name]; set_solver.
Qed.

Section Responses.
Context {T : TreeText}.

(** The answers that have a JSON encoding, and what arrives of them. *)
Definition fits_response (m : Method) : response m → Prop :=
  match m with
  | MInstall => fits_package
  | MQueryInstalled => Forall (λ s, text s.1 ∧ text s.2)
  | MApproveForMyOrg => fits_approved
  | MCheckCommitReadiness => map_Forall (λ k _, text k ∧ True)
  | MCommit => fits_commit
  | MMarkInitialized => fits_committed
  | MQueryCommitted => Forall fits_committed
  end.

Definition arrives (m : Method) : response m → response m :=
  match m with MInstall => Cli.wire_package | _ => id end.

Lemma response_arrives `{TL : !TreeLaws} m x :
  fits_response m x → Unmarshal (c_response m) (Marshal (c_response m) x) = Ok (arrives m x).
Proof.
  destruct m; cbn [fits_response c_response arrives]; intros Hx.
  - destruct (installed_package_wire x Hx) as [Hd Hv].
    unfold Unmarshal, Marshal, c_InstallResponse, c_single. cbn [struct enc dec zero].
    rewrite tree_decode_encode.
    + cbn [get field app fst]. rewrite decide_True by done. by rewrite Hd.
    + apply valid_join; [|done]. change (utf8 "package" && valid (enc c_installed_package x) && true = true).
      by rewrite Hv, utf8_ascii.
  - eapply Unmarshal_Marshal; [|exact Hx]. apply single_lawful; [apply list_lawful, summary_lawful|by apply utf8_ascii].
  - eapply Unmarshal_Marshal; [|exact Hx]. apply single_lawful; [apply approved_lawful|by apply utf8_ascii].
  - eapply Unmarshal_Marshal; [|exact Hx]. apply single_lawful; [apply map_lawful, bool_lawful|by apply utf8_ascii].
  - eapply Unmarshal_Marshal; [apply commit_lawful|exact Hx].
  - eapply Unmarshal_Marshal; [|exact Hx]. apply single_lawful; [apply committed_lawful|by apply utf8_ascii].
  - eapply Unmarshal_Marshal; [|exact Hx]. apply single_lawful; [apply list_lawful, committed_lawful|by apply utf8_ascii].
Qed.

End Responses.

Section Calls.
Context {S : Type} {G : Grpc} {T : TreeText}.
Variable srv : LifecycleServer S.
Variable i : option (interceptor S SignedRequest).

(** The client's method of each name. *)
Definition client_call (m : Method) (st : S) (req : SignedRequest) : S * result (response m) :=
  call (RegisterLifecycleServer srv) i m st req.

Lemma client_call_served `{TL : !TreeLaws, GL : !GrpcLaws} m st req :
  (∀ f, i = Some f → transparent f) → fits_request req →
  (∀ x, (srv m st req).2 = Ok x → fits_response m x) →
  client_call m st req =
    ((srv m st req).1,
     match (srv m st req).2 with Ok x => Ok (arrives m x) | Err e => Err (carried e) end).
Proof.
  intros Hi Hreq Hfits. apply (call_served (RegisterLifecycleServer srv) i arrives); [|done| |].
  - apply lifecycle_registered.
  - by apply (Unmarshal_Marshal c_signed_request fits_request req signed_request_lawful).
  - intros x Hx. by apply response_arrives, Hfits.
Qed.

End Calls.

(** A client's connection over the transport. *)
Definition grpc_conn {S} {G : Grpc} {T : TreeText} (srv : LifecycleServer S) (i : option (interceptor S SignedRequest))
    : Cli.ClientConn S :=
  Cli.mkConn (client_call srv i MInstall) (client_call srv i MQueryInstalled) (client_call srv i MApproveForMyOrg)
    (client_call srv i MCheckCommitReadiness) (client_call srv i MCommit) (client_call srv i MQueryCommitted).

(** ** Properties *)

(** C21: A lifecycle client's call is the server's method of that name: the request that a client
    sends under a method's path reaches that method, and no other, exactly as it was signed, on the
    state the server has, with every interceptor that only observes; the client gets the method's
    answer, without the files of an installed package, or what the transport carries of its error.
    A body that is not a request never reaches the server's state. *)
Theorem lifecycle_call_served {S} {G : Grpc} `{TL : TreeLaws, GL : !GrpcLaws} (srv : LifecycleServer S) i m st req :
  (∀ f, i = Some f → transparent f) → fits_request req →
  (∀ x, (srv m st req).2 = Ok x → fits_response m x) →
  client_call srv i m st req =
    ((srv m st req).1,
     match (srv m st req).2 with Ok x => Ok (arrives m x) | Err e => Err (carried e) end) ∧
  (∀ path body e, Unmarshal c_signed_request body = Err e → (receive (RegisterLifecycleServer srv) i path body st).1 = st).
Proof.
  intros Hi Hreq Hfits. split; [by apply client_call_served|].
  intros path body e. apply (receive_malformed (RegisterLifecycleServer srv)).
Qed.

(** What a decoded answer's integers are: those of its declared types. *)
Definition response_in_range (m : Method) : response m → Prop :=
  match m with
  | MApproveForMyOrg => λ a, definition_in_range (Store.app_Definition a)
  | MCommit => λ r, definition_in_range (Store.com_Definition (Cli.cr_Definition r)) ∧ ledger_in_range (Cli.cr_Ledger r)
  | MMarkInitialized => λ c, definition_in_range (Store.com_Definition c)
  | MQueryCommitted => Forall (λ c, definition_in_range (Store.com_Definition c))
  | _ => λ _, True
  end.

(** Whatever bytes arrive, a message that is decoded has its declared type: the version of a
    lifecycle request is an unsigned 32-bit integer and its time a signed 64-bit one, and in every
    answer that a lifecycle client gets, from any server, the sequences are signed 64-bit integers
    and the position of a ledger commit an unsigned 64-bit block and 32-bit transaction number: an
    integer outside its range is refused and never wrapped around. *)
Theorem decoded_in_range {T : TreeText} :
  (∀ body req, Unmarshal c_signed_request body = Ok req → request_in_range req) ∧
  (∀ m body x, Unmarshal (c_response m) body = Ok x → response_in_range m x).
Proof.
  split; [intros body req; apply typed_Unmarshal, signed_request_typed|].
  intros m body x. apply typed_Unmarshal.
  destruct m; cbn; try apply any_typed; unfold c_ApproveForMyOrgResponse, c_MarkInitializedResponse,
    c_QueryCommittedResponse; eauto using single_typed, commit_typed with typed.
Qed.

(** The connection that the lifecycle commands are proved against is the transport's, when it
    carries errors as they are. *)
Theorem grpc_conn_is_server_conn {G : Grpc} `{TL : TreeLaws, GL : !GrpcLaws} {J : Json.JSONText} {L : Msp.MSPLib}
    {PL : Package.PackageLib} {PJ : RPC.PayloadJSON} (srv : RPC.Server) (renv : RPC.Env) st req :
  let served := lifecycle_server srv renv in
  let over := grpc_conn served None in let direct := Cli.server_conn srv renv in
  (∀ e, carried e = e) → fits_request req → (∀ m x, (served m st req).2 = Ok x → fits_response m x) →
  Cli.invoke_Install over st req = Cli.invoke_Install direct st req ∧
  Cli.invoke_QueryInstalled over st req = Cli.invoke_QueryInstalled direct st req ∧
  Cli.invoke_ApproveForMyOrg over st req = Cli.invoke_ApproveForMyOrg direct st req ∧
  Cli.invoke_CheckCommitReadiness over st req = Cli.invoke_CheckCommitReadiness direct st req ∧
  Cli.invoke_Commit over st req = Cli.invoke_Commit direct st req ∧
  Cli.invoke_QueryCommitted over st req = Cli.invoke_QueryCommitted direct st req.
Proof.
  intros served over direct Hc Hreq Hfits.
  assert (Hcall : ∀ m, client_call served None m st req = ((served m st req).1,
    match (served m st req).2 with Ok x => Ok (arrives m x) | Err e => Err (carried e) end)).
  { intros m. by apply client_call_served; auto. }
  unfold over, direct. cbn [grpc_conn Cli.server_conn Cli.invoke_Install Cli.invoke_QueryInstalled
    Cli.invoke_ApproveForMyOrg Cli.invoke_CheckCommitReadiness Cli.invoke_Commit Cli.invoke_QueryCommitted].
  rewrite !Hcall. unfold served, lifecycle_server. cbn [arrives fst snd]. unfold id.
  split_and!;
    [destruct (RPC.Install _ _ _ _) as [st' [x|e]]
    |destruct (RPC.QueryInstalled _ _ _ _)
    |destruct (RPC.ApproveForMyOrg _ _ _ _) as [st' [x|e]]
    |destruct (RPC.CheckCommitReadiness _ _ _ _)
    |destruct (RPC.Commit _ _ _ _) as [st' [x|e]]
    |destruct (RPC.QueryCommitted _ _ _ _)]; cbn; by rewrite ?Hc.
Qed.

(** ** Example *)

Definition ex_served : LifecycleServer (option Store.Store) :=
  lifecycle_server (J := Json.example_json) (PL := Package.example_lib) (PJ := RPC.example_payload)
    RPC.ex_server RPC.ex_env.

Lemma lifecycle_call_served_witness :
  ∃ st' response,
    client_call (G := ex_grpc) (T := ex_tree) ex_served None MCommit (Some Store.ex_approved) RPC.ex_commit =
      (st', Ok response) ∧
    Store.com_Definition (Cli.cr_Definition response) = Store.ex_def ∧
    Cli.cr_Ledger response = RPC.mkCommitResult "tx" "COMMITTED" 1 0 "_lifecycle" "key".
Proof.
  destruct (ex_served MCommit (Some Store.ex_approved) RPC.ex_commit) as [st' r] eqn:E.
  assert (Hr : (x ← r; Ok (Store.com_Definition (Cli.cr_Definition x), Cli.cr_Ledger x)) =
    Ok (Store.ex_def, RPC.mkCommitResult "tx" "COMMITTED" 1 0 "_lifecycle" "key")).
  { apply (f_equal snd) in E. cbn [snd] in E. rewrite <- E. vm_compute. reflexivity. }
  destruct r as [x|e]; [|discriminate Hr]. cbn in Hr. injection Hr as Hd Hl.
  destruct (lifecycle_call_served (G := ex_grpc) (T := ex_tree) (TL := ex_tree_laws) (GL := ex_grpc_laws)
    ex_served None MCommit (Some Store.ex_approved) RPC.ex_commit) as [Hcall _].
  - discriminate.
  - split; [cbn; unfold is_uint32; lia|]. split; [done|]. split; [done|cbn; unfold is_int64; lia].
  - intros y. rewrite E. cbn [snd]. intros [= <-]. split; [|split].
    + split; [|done]. rewrite Hd. split; [done|]. split; [done|cbn; unfold is_int64; lia].
    + intros k v Hk. by split.
    + rewrite Hl. split; [done|]. split; [done|]. split; [cbn; unfold is_uint64; lia|].
      split; [cbn; unfold is_uint32; lia|by split].
  - rewrite E in Hcall. cbn [fst snd arrives] in Hcall. unfold id in Hcall.
    exists st', x. split; [exact Hcall|split; [exact Hd|exact Hl]].
Defined.

End Transport.
