(* ===== verification/LifecyclePayloads.v ===== *)
(** The JSON of the request payloads of [pkg/lifecycle/rpc.go], which [LifecycleRPC.v] and
    [LifecycleCLI.v] take as the interface [RPC.PayloadJSON]: the codec of each request type makes an
    instance of it, and the theorems show the laws that the clients of the interface rely on. *)
From Stdlib Require Import ZArith Lia Ascii.
From stdpp Require Import base option list strings gmap.
From S2P Require Import Prelude LifecycleStore OrchestratorTypes GoStrings Json Msp Auth LifecycleAuth.
From S2P Require Import Package LifecycleRPC Coordination LifecycleCLI JsonTree Unary LifecycleTransport.
Import LifecycleAuth Tree Transport.
Local Open Scope Z_scope.

Module Payloads.

(** ** The request types *)

Definition c_InstallRequest : codec bytes := c_single c_bytes "package".

(** A struct without fields. *)
Definition c_QueryInstalledRequest : codec () := struct (λ _, []) (λ acc _, Ok acc) ().

(** [CheckCommitReadinessRequest], [CommitRequest] and [MarkInitializedRequest]. *)
Definition c_definition_request : codec Store.ChaincodeDefinition := c_single c_definition "definition".

Definition c_ApproveForMyOrgRequest : codec (Store.ChaincodeDefinition * string) :=
  struct (λ r, field c_definition "definition" r.1 ++ field c_string "package_id" r.2 ++ [])
    (λ acc o, def ← get c_definition "definition" o acc.1; id ← get c_string "package_id" o acc.2; Ok (def, id))
    (zero c_definition, "").

(** The name and the version. *)
Definition c_QueryCommittedRequest : codec (string * string) :=
  struct (λ r, omit c_string empty_string "name" r.1 ++ omit c_string empty_string "version" r.2 ++ [])
    (λ acc o, name ← get c_string "name" o acc.1; version ← get c_string "version" o acc.2; Ok (name, version))
    ("", "").

Definition marshal {T : TreeText} (p : RequestPayload) : bytes :=
  match p with
  | InstallRequest package => Marshal c_InstallRequest package
  | QueryInstalledRequest => Marshal c_QueryInstalledRequest ()
  | ApproveForMyOrgRequest d packageID => Marshal c_ApproveForMyOrgRequest (d, packageID)
  | CheckCommitReadinessRequest d | CommitRequest d | MarkInitializedRequest d => Marshal c_definition_request d
  | QueryCommittedRequest name version => Marshal c_QueryCommittedRequest (name, version)
  end.

#[export] Instance payload_json {T : TreeText} : RPC.PayloadJSON := {|
  RPC.marshal_payload := marshal;
  RPC.unmarshal_Install := Unmarshal c_InstallRequest;
  RPC.unmarshal_QueryInstalled := Unmarshal c_QueryInstalledRequest;
  RPC.unmarshal_Definition := Unmarshal c_definition_request;
  RPC.unmarshal_Approve := Unmarshal c_ApproveForMyOrgRequest;
  RPC.unmarshal_Query := Unmarshal c_QueryCommittedRequest |}.

(** ** What a server reads of a client's payload *)

(** The payload that a handler of the operation decodes. *)
Definition read_payload {PJ : RPC.PayloadJSON} (operation : string) (b : bytes) : result RequestPayload :=
  if bool_decide (operation = OperationInstall) then InstallRequest <$> RPC.unmarshal_Install b
  else if bool_decide (operation = OperationQueryInstalled)
  then RPC.unmarshal_QueryInstalled b;; Ok QueryInstalledRequest
  else if bool_decide (operation = OperationApprove)
  then x ← RPC.unmarshal_Approve b; Ok (ApproveForMyOrgRequest x.1 x.2)
  else if bool_decide (operation = OperationReadiness) then CheckCommitReadinessRequest <$> RPC.unmarshal_Definition b
  else if bool_decide (operation = OperationCommit) then CommitRequest <$> RPC.unmarshal_Definition b
  else if bool_decide (operation = OperationMarkInitialized) then MarkInitializedRequest <$> RPC.unmarshal_Definition b
  else x ← RPC.unmarshal_Query b; Ok (QueryCommittedRequest x.1 x.2).

Section Lawful.
Context {T : TreeText} {TL : TreeLaws}.

#[local] Hint Resolve definition_lawful : codecs.

Lemma approve_lawful : lawful c_ApproveForMyOrgRequest (λ r, fits_definition r.1 ∧ text r.2).
Proof. struct_lawful. Qed.

Lemma query_lawful : lawful c_QueryCommittedRequest (λ r, text r.1 ∧ text r.2).
Proof. struct_lawful. Qed.

Lemma query_installed_lawful : lawful c_QueryInstalledRequest (λ _, True).
Proof. by split; intros []. Qed.

Lemma install_lawful : lawful c_InstallRequest (λ _, True).
Proof. apply single_lawful; [apply bytes_lawful|by apply utf8_ascii]. Qed.

Lemma definition_request_lawful : lawful c_definition_request fits_definition.
Proof. apply single_lawful; [apply definition_lawful|by apply utf8_ascii]. Qed.

(** Valid UTF-8 and machine integers. *)
Definition fits_payload (p : RequestPayload) : Prop :=
  match p with
  | InstallRequest _ | QueryInstalledRequest => True
  | ApproveForMyOrgRequest d packageID => fits_definition d ∧ text packageID
  | CheckCommitReadinessRequest d | CommitRequest d | MarkInitializedRequest d => fits_definition d
  | QueryCommittedRequest name version => text name ∧ text version
  end.

(** A handler reads exactly the payload that the client made for its operation. *)
Theorem payload_read p : fits_payload p → read_payload (operationForPayload p) (RPC.marshal_payload p) = Ok p.
Proof.
  destruct p as [b| |d id|d|d|n v|d]; intros Hf;
    cbn [RPC.marshal_payload payload_json marshal operationForPayload];
    unfold read_payload; cbn [RPC.unmarshal_Install RPC.unmarshal_QueryInstalled RPC.unmarshal_Definition
      RPC.unmarshal_Approve RPC.unmarshal_Query payload_json];
    repeat match goal with |- context [bool_decide (?a = ?b)] =>
      let v := eval vm_compute in (bool_decide (a = b)) in change (bool_decide (a = b)) with v; cbn iota end.
  - by rewrite (Unmarshal_Marshal _ _ _ install_lawful).
  - by rewrite (Unmarshal_Marshal _ _ _ query_installed_lawful).
  - by rewrite (Unmarshal_Marshal _ _ _ approve_lawful).
  - by rewrite (Unmarshal_Marshal _ _ _ definition_request_lawful).
  - by rewrite (Unmarshal_Marshal _ _ _ definition_request_lawful).
  - by rewrite (Unmarshal_Marshal _ _ _ query_lawful).
  - by rewrite (Unmarshal_Marshal _ _ _ definition_request_lawful).
Qed.

(** The deployments of [Coordination.v] need no assumption about the payloads. *)
Lemma definitions_read def : fits_definition def → Coordination.payloads_read def.
Proof.
  intros Hf. split_and!; apply (Unmarshal_Marshal _ _ _ definition_request_lawful); exact Hf.
Qed.

(** What any bytes decode to has a sequence that the store can keep. *)
Lemma decoded_definition b def : RPC.unmarshal_Definition b = Ok def → is_int64 (Store.Sequence def).
Proof. apply (typed_Unmarshal _ definition_in_range). apply single_typed, definition_typed. Qed.

(** One signature is for one operation with one payload: requests with the same signing bytes ask
    for the same. *)
Theorem signature_means {J : Json.JSONText} {JL : Json.JSONLaws} r1 r2 p1 p2 :
  Payload r1 = RPC.marshal_payload p1 → Operation r1 = operationForPayload p1 → fits_payload p1 →
  Payload r2 = RPC.marshal_payload p2 → Operation r2 = operationForPayload p2 → fits_payload p2 →
  Json.valid_utf8 (ChannelID r1) = true → Json.valid_utf8 (ChannelID r2) = true →
  signingBytes r1 = signingBytes r2 → p1 = p2 ∧ ChannelID r1 = ChannelID r2 ∧ Internal r1 = Internal r2.
Proof.
  intros H1 O1 F1 H2 O2 F2 V1 V2 Hs.
  assert (Hop : ∀ p, Json.valid_utf8 (operationForPayload p) = true).
  { intros p. apply Json.valid_utf8_ascii. by destruct p. }
  destruct (signing_bytes_bind r1 r2) as (_ & Hc & Ho & Hi & _ & _ & Hp & _); [done|by rewrite O1|done|by rewrite O2|done|].
  split; [|done]. pose proof (payload_read p1 F1) as R1. rewrite <- H1, <- O1, Hp, Ho, H2, O2, payload_read in R1 by done.
  congruence.
Qed.

End Lawful.

(** ** Concrete instance *)

Lemma signature_means_witness :
  let p := CommitRequest Store.ex_def in
  let r := mkSignedRequest 1 "mychannel" (operationForPayload p) false 0 "n"
             (RPC.marshal_payload (PayloadJSON := payload_json (T := ex_tree)) p) "c" "s" in
  signingBytes (J := Json.example_json) r = signingBytes (J := Json.example_json) (with_signature "other" r) ∧ p = p.
Proof.
  intros p r. split; [reflexivity|].
  assert (Hf : fits_payload (T := ex_tree) p) by (vm_compute; repeat split; congruence).
  destruct (signature_means (T := ex_tree) (TL := ex_tree_laws) (J := Json.example_json) (JL := Json.example_json_laws)
    r (with_signature "other" r) p p) as [H _]; [reflexivity|reflexivity|exact Hf|reflexivity|reflexivity|exact Hf|
      reflexivity|reflexivity|reflexivity|exact H].
Defined.

End Payloads.
