(* ===== verification/ResolverTransport.v ===== *)
(** The gRPC layer of the resolver service, [pkg/ccresolver/rpc.go]: the JSON of its messages, its
    one method and the client's call, and the sample resolver called over it. *)
From Stdlib Require Import ZArith Lia.
From stdpp Require Import base option list strings gmap.
From S2P Require Import Prelude LifecycleStore OrchestratorTypes GoStrings Config Network ChaincodeResolver.
From S2P Require Import JsonTree Unary SampleResolver.
Import Ccr Tree Unary.
Local Open Scope Z_scope.

Module ResolverTransport.

(** ** Messages *)

Definition c_resolve_request : codec ResolveRequest :=
  struct (λ r, field c_string "operation" (Operation r) ++
               omit c_string empty_string "msp_id" (rq_MSPID r) ++
               omit c_string empty_string "requester_msp_id" (RequesterMSP r) ++
               omit c_string empty_string "target_msp_id" (TargetMSP r) ++
               omit c_string empty_string "channel_id" (rq_ChannelID r) ++
               omit c_string empty_string "namespace" (rq_Namespace r) ++
               omit c_string empty_string "name" (rq_Name r) ++
               omit c_string empty_string "version" (rq_Version r) ++
               omit c_int64 empty_int "sequence" (rq_Sequence r) ++ [])
    (λ acc o,
       operation ← get c_string "operation" o (Operation acc);
       msp ← get c_string "msp_id" o (rq_MSPID acc);
       requester ← get c_string "requester_msp_id" o (RequesterMSP acc);
       target ← get c_string "target_msp_id" o (TargetMSP acc);
       channel ← get c_string "channel_id" o (rq_ChannelID acc);
       namespace ← get c_string "namespace" o (rq_Namespace acc);
       name ← get c_string "name" o (rq_Name acc);
       version ← get c_string "version" o (rq_Version acc);
       sequence ← get c_int64 "sequence" o (rq_Sequence acc);
       Ok (mkResolveRequest operation msp requester target channel namespace name version sequence))
    (mkResolveRequest "" "" "" "" "" "" "" "" 0).

Definition empty_map {A} (m : gmap string A) : bool := (size m =? 0)%nat.

Definition c_candidate : codec ResolveCandidate :=
  struct (λ c, omit c_string empty_string "msp_id" (cand_MSPID c) ++
               omit c_string empty_string "instance_id" (cand_InstanceID c) ++
               omit c_string empty_string "address" (cand_Address c) ++
               omit c_string empty_string "tls_mode" (cand_TLSMode c) ++
               omit (c_map c_string) empty_map "metadata" (cand_Metadata c) ++ [])
    (λ acc o,
       msp ← get c_string "msp_id" o (cand_MSPID acc);
       instance ← get c_string "instance_id" o (cand_InstanceID acc);
       address ← get c_string "address" o (cand_Address acc);
       tls ← get c_string "tls_mode" o (cand_TLSMode acc);
       metadata ← get (c_map c_string) "metadata" o (cand_Metadata acc);
       Ok (mkCandidate msp instance address tls metadata))
    (mkCandidate "" "" "" "" ∅).

Definition c_resolve_response : codec ResolveResponse :=
  struct (λ r, field c_bool "found" (Found r) ++
               omit c_string empty_string "address" (rsp_Address r) ++
               omit c_string empty_string "tls_mode" (rsp_TLSMode r) ++
               omit c_string empty_string "package_id" (rsp_PackageID r) ++
               omit c_int64 empty_int "sequence" (rsp_Sequence r) ++
               omit (c_list c_candidate) empty_list "candidates" (Candidates r) ++ [])
    (λ acc o,
       found ← get c_bool "found" o (Found acc);
       address ← get c_string "address" o (rsp_Address acc);
       tls ← get c_string "tls_mode" o (rsp_TLSMode acc);
       package ← get c_string "package_id" o (rsp_PackageID acc);
       sequence ← get c_int64 "sequence" o (rsp_Sequence acc);
       candidates ← get (c_list c_candidate) "candidates" o (Candidates acc);
       Ok (mkResolveResponse found address tls package sequence candidates))
    (mkResolveResponse false "" "" "" 0 []).

Section Lawful.
Context {T : TreeText} {TL : TreeLaws}.

Definition fits_request (r : ResolveRequest) : Prop :=
  text (Operation r) ∧ text (rq_MSPID r) ∧ text (RequesterMSP r) ∧ text (TargetMSP r) ∧ text (rq_ChannelID r) ∧
  text (rq_Namespace r) ∧ text (rq_Name r) ∧ text (rq_Version r) ∧ is_int64 (rq_Sequence r).

Lemma omits_int64 z : empty_int z = true → z = zero c_int64.
Proof. apply Z.eqb_eq. Qed.

Lemma omits_map {A} (c : codec A) m : empty_map m = true → m = zero (c_map c).
Proof. intros H%Nat.eqb_eq. by apply map_size_empty_inv in H. Qed.

#[local] Hint Resolve omits_int64 omits_map : codecs.

Lemma resolve_request_lawful : lawful c_resolve_request fits_request.
Proof. struct_lawful. Qed.

Definition fits_candidate (c : ResolveCandidate) : Prop :=
  text (cand_MSPID c) ∧ text (cand_InstanceID c) ∧ text (cand_Address c) ∧ text (cand_TLSMode c) ∧
  map_Forall (λ k v, text k ∧ text v) (cand_Metadata c).

Lemma candidate_lawful : lawful c_candidate fits_candidate.
Proof. struct_lawful. Qed.

#[local] Hint Resolve candidate_lawful : codecs.

Definition fits_response (r : ResolveResponse) : Prop :=
  text (rsp_Address r) ∧ text (rsp_TLSMode r) ∧ text (rsp_PackageID r) ∧ is_int64 (rsp_Sequence r) ∧
  Forall fits_candidate (Candidates r).

Lemma resolve_response_lawful : lawful c_resolve_response fits_response.
Proof. struct_lawful. Qed.

End Lawful.

(** ** The service *)

(** [ResolverServer]; the resolver keeps no state of its own. *)
Definition ResolverServer : Type := ResolveRequest → result ResolveResponse.

Definition RegisterResolverServer (srv : ResolverServer) : service () ResolveRequest :=
  mkService "compat.chaincode_resolver.Resolver" () (λ _, "Resolve") [("Resolve", tt)] (λ _, ResolveResponse)
    c_resolve_request (λ _, c_resolve_response) (λ _ st req, (st, srv req)).

Definition resolverResolveHandler (srv : ResolverServer) (i : option (interceptor () ResolveRequest))
    (dec : result ResolveRequest) : result ResolveResponse :=
  (handler (RegisterResolverServer srv) i tt dec tt).2.

Section Calls.
Context {G : Grpc} {T : TreeText}.

(** The client's [Resolve]. *)
Definition client_Resolve (srv : ResolverServer) (i : option (interceptor () ResolveRequest))
    (req : ResolveRequest) : result ResolveResponse :=
  (call (RegisterResolverServer srv) i tt tt req).2.

Lemma client_Resolve_served `{TL : !TreeLaws, GL : !GrpcLaws} srv i req :
  (∀ f, i = Some f → transparent f) → fits_request req → (∀ out, srv req = Ok out → fits_response out) →
  client_Resolve srv i req = match srv req with Ok out => Ok out | Err e => Err (carried e) end.
Proof.
  intros Hi Hreq Hfits. unfold client_Resolve.
  rewrite (call_served (RegisterResolverServer srv) i (λ _, id)); cbn; [done| |done| |].
  - split; [by repeat constructor; set_solver|]. intros []. cbn. by left.
  - by apply (Unmarshal_Marshal c_resolve_request fits_request _ resolve_request_lawful).
  - intros out Ho. by apply (Unmarshal_Marshal c_resolve_response fits_response _ resolve_response_lawful), Hfits.
Qed.

End Calls.

(** ** The sample resolver over the wire *)

(** The texts of a request and of the configuration are UTF-8. *)
Definition request_text {T : TreeText} (req : chaincodeResolverRequest) : Prop :=
  text (ChannelID req) ∧ text (MSPID req) ∧ text (Store.Name (Definition_ req)) ∧
  text (Store.Version (Definition_ req)) ∧ is_int64 (Store.Sequence (Definition_ req)).

Definition server_text {T : TreeText} (s : SampleResolver.server) : Prop :=
  text (SampleResolver.org0Address s) ∧ text (SampleResolver.org0PackageID s) ∧
  text (SampleResolver.org1Address s) ∧ text (SampleResolver.org1PackageID s).

Lemma resolveChaincode_fits {T : TreeText} {TL : TreeLaws} s req :
  server_text s → is_int64 (rq_Sequence req) → fits_response (SampleResolver.resolveChaincode s req).
Proof.
  intros (Ha0 & Hp0 & Ha1 & Hp1) Hseq.
  assert (He : text "") by by apply utf8_ascii.
  assert (Hn : text "none") by by apply utf8_ascii.
  assert (Hnf : fits_response SampleResolver.not_found) by (split_and!; done).
  unfold SampleResolver.resolveChaincode. repeat case_match; try exact Hnf.
  all: split_and!; cbn; try done; apply Forall_nil_2.
Qed.

(** C37: An orchestrator whose dynamic chaincode resolver is the sample one, called over the JSON
    transport, gets for the configured chaincode exactly the configured address and package of its
    organization, for the sequence it asked for and without TLS, and finds nothing for any other
    chaincode or organization.  The only refusal is that of an organization configured with an empty
    address: nothing is lost on the way, and an answer never has another sequence or a TLS mode that
    the orchestrator refuses. *)
Theorem resolution_over_wire {NL : Network.NetworkLib} {G : Grpc} {T : TreeText} {TL : TreeLaws} {GL : GrpcLaws}
    s i req :
  (∀ f, i = Some f → transparent f) → server_text s → request_text req →
  grpc_Resolve (client_Resolve (SampleResolver.served_by s) i) req =
    let def := Definition_ req in
    match (if SampleResolver.is_its_chaincode s def then SampleResolver.chaincode_of s (MSPID req) else None) with
    | None => Ok None
    | Some (address, packageID) =>
        if bool_decide (address = "") then Err (ENew "dynamic chaincode resolver response missing address")
        else Ok (Some (Store.mkConnection (MSPID req) (Store.Name def) (Store.Version def) (Store.Sequence def)
                         address "none" packageID ""))
    end.
Proof.
  intros Hi Hs (Hc & Hm & Hn & Hv & Hseq). rewrite <- SampleResolver.sample_resolves_chaincode.
  assert (He : text "") by by apply utf8_ascii.
  assert (Ho : text OperationChaincodeResolution) by by apply utf8_ascii.
  unfold grpc_Resolve. rewrite client_Resolve_served; [done|done|by split_and!|].
  intros out [= <-]. by apply resolveChaincode_fits.
Qed.

(** ** Example *)

Definition ex_resolver : SampleResolver.server :=
  SampleResolver.mkServer "basic" "1.0" 0 "cc0:9999" "basic:ab12" "cc1:9999" "" [] [].

Lemma resolution_over_wire_witness :
  grpc_Resolve (client_Resolve (G := ex_grpc) (T := ex_tree) (SampleResolver.served_by ex_resolver) None)
    (mkRequest "ch" "org-0" (Store.mkDefinition "basic" "1.0" 3 false)) =
  Ok (Some (Store.mkConnection "org-0" "basic" "1.0" 3 "cc0:9999" "none" "basic:ab12" "")).
Proof.
  rewrite (resolution_over_wire (NL := ex_network) (G := ex_grpc) (T := ex_tree) (TL := ex_tree_laws)
    (GL := ex_grpc_laws) ex_resolver None (mkRequest "ch" "org-0" (Store.mkDefinition "basic" "1.0" 3 false))).
  - reflexivity.
  - discriminate.
  - split_and!; reflexivity.
  - split; [reflexivity|]. split; [reflexivity|]. split; [reflexivity|]. split; [reflexivity|].
    cbn. unfold is_int64. lia.
Defined.

End ResolverTransport.
