(* ===== verification/BlockDump.v ===== *)
(** The block inspection tool, [src/cmd/block-dump/main.go]: what it prints of a block, which
    blocks it asks for and how it exits.

    A printed line is its format with the arguments, so two lines are equal when the tool prints the
    same values.  The protobuf decoders are a class; unlike elsewhere a nil byte slice and an
    empty one differ here ([option bytes]), since the tool prints them differently. *)
From Stdlib Require Import ZArith Lia Ascii.
From stdpp Require Import base option list strings.
From S2P Require Import Prelude GoStrings GoText Json Msp Config Package.
Import GoText.
Local Open Scope Z_scope.

Module BlockDump.

Definition gobytes : Type := option bytes.
Definition content (b : gobytes) : bytes := default "" b.
Definition len (b : gobytes) : Z := Z.of_nat (String.length (content b)).

(** ** Printing *)

Inductive arg :=
  | AText (s : string)
  | ANum (z : Z)
  | ABool (b : bool)
  | ABytes (l : bytes)
  | AErr (e : goerr).

(** A call of [fmt.Printf] or [fmt.Println], its format as the source has it; the final newline is
    left out. *)
Record printed := mkPrinted { p_format : string; p_args : list arg }.

Definition base64_std (b : gobytes) : string := Json.base64 (content b).

Section Render.
Variable IsPrint : Z → bool.

Definition renderVersion (v : option Z) : string :=
  match v with None => "<nil>" | Some v => GoStrings.FormatUint v end.

Definition is_control (r : Z) : bool := (r <? 32) || (r =? 127).

Definition renderBytes (b : gobytes) : string :=
  match b with
  | None => "<nil>"
  | Some "" => text_of [34; 34]
  | Some s =>
      match runes (bytes_of s) with
      | Some l => if existsb is_control l then "base64:" +:+ Json.base64 s
                  else text_of (quote_runes IsPrint l)
      | None => "base64:" +:+ Json.base64 s
      end
  end.

End Render.

(** ** Messages *)

Record BlockHeader := mkBlockHeader { bh_Number : Z; bh_PreviousHash : gobytes; bh_DataHash : gobytes }.

Record Block := mkBlock {
  b_Header : option BlockHeader;
  b_Data : option (list bytes);
  b_Metadata : option (list bytes) }.

Record ChannelHeader := mkChannelHeader { ch_Type : Z; ch_ChannelId : string; ch_TxId : string }.

(** The channel header of a payload's header, and the data. *)
Record Payload := mkPayload { pl_Header : option bytes; pl_Data : gobytes }.

Record XNamespace := mkXNamespace {
  xn_NsId : string;
  xn_NsVersion : Z;
  xn_ReadsOnly : list (gobytes * option Z);
  xn_ReadWrites : list (gobytes * option Z * gobytes);
  xn_BlindWrites : list (gobytes * gobytes) }.

(** A signer's MSP ID, when the identity is set, and the endorsement. *)
Definition Signer : Type := option string * gobytes.

Record XTx := mkXTx {
  xt_Namespaces : list XNamespace;
  xt_Endorsements : list (option (list Signer));
  xt_Metadata : list gobytes }.

(** [bfabx.DecodeMetadata]. *)
Record SdkMetadata := mkSdkMetadata {
  sm_InputArgs : list gobytes;
  sm_Payload : gobytes;
  sm_Event : gobytes;
  sm_EventName : string }.

Record ChaincodeEvent := mkEvent {
  ev_ChaincodeId : string; ev_TxId : string; ev_EventName : string; ev_Payload : gobytes }.

Class BlockProto := {
  protojson_Marshal : Block → result string;
  (** The payload and the signature of an envelope. *)
  unmarshal_Envelope : bytes → result (gobytes * gobytes);
  UnmarshalPayload : gobytes → result Payload;
  UnmarshalChannelHeader : bytes → result ChannelHeader;
  (** The generated names of the header types. *)
  HeaderType_name : Z → string;
  (** The sequence of the configuration, if any, and whether the last update is set. *)
  unmarshal_ConfigEnvelope : gobytes → result (option Z * bool);
  (** The update and the number of signatures. *)
  unmarshal_ConfigUpdateEnvelope : gobytes → result (gobytes * nat);
  unmarshal_ConfigUpdate : gobytes → result string;
  (** The number of actions. *)
  unmarshal_Transaction : gobytes → result nat;
  unmarshal_Tx : gobytes → result XTx;
  DecodeMetadata : list gobytes → SdkMetadata;
  unmarshal_ChaincodeEvent : gobytes → result ChaincodeEvent;
  (** [json.Valid], whose syntax is not modelled. *)
  json_Valid : bytes → bool }.

Definition HeaderType_MESSAGE : Z := 0.
Definition HeaderType_CONFIG : Z := 1.
Definition HeaderType_CONFIG_UPDATE : Z := 2.
Definition HeaderType_ENDORSER_TRANSACTION : Z := 3.
Definition TRANSACTIONS_FILTER : nat := 2.

Section Dump.
Context {BP : BlockProto}.
Variable IsPrint : Z → bool.
Notation render := (renderBytes IsPrint).

Definition line (format : string) (args : list arg) : list printed := [mkPrinted format args].
Definition num (n : nat) : arg := ANum (Z.of_nat n).

(** ** A native transaction *)

Definition dump_read (r : gobytes * option Z) : printed :=
  mkPrinted "        read key=%s version=%s" [AText (render r.1); AText (renderVersion r.2)].

Definition dump_read_write (rw : gobytes * option Z * gobytes) : printed :=
  mkPrinted "        read_write key=%s version=%s value=%s"
    [AText (render rw.1.1); AText (renderVersion rw.1.2); AText (render rw.2)].

Definition dump_blind_write (w : gobytes * gobytes) : printed :=
  mkPrinted "        blind_write key=%s value=%s" [AText (render w.1); AText (render w.2)].

Definition dump_namespace (i : nat) (ns : XNamespace) : list printed :=
  line "      ns[%d] id=%s version=%d reads_only=%d read_writes=%d blind_writes=%d"
    [num i; AText (xn_NsId ns); ANum (xn_NsVersion ns); num (length (xn_ReadsOnly ns));
     num (length (xn_ReadWrites ns)); num (length (xn_BlindWrites ns))] ++
  (dump_read <$> xn_ReadsOnly ns) ++ (dump_read_write <$> xn_ReadWrites ns) ++
  (dump_blind_write <$> xn_BlindWrites ns).

Definition dump_namespaces (l : list XNamespace) : list printed := mjoin (imap dump_namespace l).

Definition dump_signer (i : nat) (s : Signer) : printed :=
  mkPrinted "        signer[%d] msp_id=%s signature_bytes=%d"
    [num i; AText (default "<nil>" s.1); ANum (len s.2)].

Definition dump_endorsements (i : nat) (e : option (list Signer)) : list printed :=
  match e with
  | None => line "      endorsements[%d] signers=0" [num i]
  | Some signers =>
      line "      endorsements[%d] signers=%d" [num i; num (length signers)] ++ imap dump_signer signers
  end.

Definition event_format : string := "      event chaincode_id=%s tx_id=%s name=%s payload=%s".

Definition dump_event (chaincode tx name : string) (payload : gobytes) : list printed :=
  line event_format [AText chaincode; AText tx; AText name; AText (render payload)].

(** [strings.Join(l, sep)]. *)
Fixpoint Join (sep : string) (l : list string) : string :=
  match l with
  | [] => ""
  | [s] => s
  | s :: rest => s +:+ sep +:+ Join sep rest
  end.

(** The SDK's metadata. *)
Definition dump_metadata (tx : XTx) (txID : string) (m : SdkMetadata) : list printed :=
  (match sm_InputArgs m with
   | [] => []
   | args => line "      input_args=[%s]" [AText (Join ", " (render <$> args))]
   end) ++
  (if 0 <? len (sm_Payload m) then line "      response_payload=%s" [AText (render (sm_Payload m))] else []) ++
  (if (0 <? len (sm_Event m)) || negb (bool_decide (sm_EventName m = ""))
   then dump_event (match xt_Namespaces tx with ns :: _ => xn_NsId ns | [] => "" end) txID
          (sm_EventName m) (sm_Event m)
   else []).

(** The other entries that are JSON text. *)
Definition dump_record (i : nat) (record : gobytes) : list printed :=
  if (i =? 0)%nat || negb (json_Valid (content record)) then []
  else line "      metadata[%d]=%s" [num i; AText (render record)].

(** An event kept as a message in the second entry. *)
Definition dump_second (tx : XTx) (m : SdkMetadata) : list printed :=
  match xt_Metadata tx with
  | _ :: second :: _ =>
      if negb (0 <? len (sm_Event m)) && bool_decide (sm_EventName m = "") && (0 <? len second) &&
         negb (json_Valid (content second))
      then
        match unmarshal_ChaincodeEvent second with
        | Err e => line "      event decode failed: %v" [AErr e]
        | Ok ev => dump_event (ev_ChaincodeId ev) (ev_TxId ev) (ev_EventName ev) (ev_Payload ev)
        end
      else []
  | _ => []
  end.

Definition dump_tx (tx : XTx) (txID : string) : list printed :=
  let m := DecodeMetadata (xt_Metadata tx) in
  line "    data: applicationpb.Tx namespaces=%d endorsements=%d metadata=%d"
    [num (length (xt_Namespaces tx)); num (length (xt_Endorsements tx)); num (length (xt_Metadata tx))] ++
  mjoin (imap dump_endorsements (xt_Endorsements tx)) ++
  dump_metadata tx txID m ++
  mjoin (imap dump_record (xt_Metadata tx)) ++
  dump_second tx m ++
  dump_namespaces (xt_Namespaces tx).

Definition dumpFabricXTx (data : gobytes) (txID : string) : list printed :=
  match unmarshal_Tx data with
  | Err e => line "    data: applicationpb.Tx decode failed: %v" [AErr e]
  | Ok tx => dump_tx tx txID
  end.

(** ** Other payloads *)

Definition dumpConfig (data : gobytes) : list printed :=
  match unmarshal_ConfigEnvelope data with
  | Err e => line "    data: ConfigEnvelope decode failed: %v" [AErr e]
  | Ok (config, update) =>
      line "    data: ConfigEnvelope sequence=%d last_update_present=%t" [ANum (default 0 config); ABool update]
  end.

Definition dumpConfigUpdate (data : gobytes) : list printed :=
  match unmarshal_ConfigUpdateEnvelope data with
  | Err e => line "    data: ConfigUpdateEnvelope decode failed: %v" [AErr e]
  | Ok (update, signatures) =>
      match unmarshal_ConfigUpdate update with
      | Err _ => line "    data: ConfigUpdateEnvelope signatures=%d config_update_bytes=%d"
                   [num signatures; ANum (len update)]
      | Ok channel => line "    data: ConfigUpdateEnvelope channel=%s signatures=%d" [AText channel; num signatures]
      end
  end.

Definition dumpEndorserTx (data : gobytes) : list printed :=
  match unmarshal_Transaction data with
  | Err e => line "    data: peer.Transaction decode failed: %v" [AErr e]
  | Ok actions => line "    data: peer.Transaction actions=%d" [num actions]
  end.

Definition dump_payload (data : gobytes) (chdr : ChannelHeader) : list printed :=
  if ch_Type chdr =? HeaderType_CONFIG then dumpConfig data
  else if ch_Type chdr =? HeaderType_CONFIG_UPDATE then dumpConfigUpdate data
  else if ch_Type chdr =? HeaderType_ENDORSER_TRANSACTION then dumpEndorserTx data
  else if ch_Type chdr =? HeaderType_MESSAGE then dumpFabricXTx data (ch_TxId chdr)
  else line "    data: unsupported/opaque payload type" [].

Definition type_name (t : Z) : string :=
  let n := HeaderType_name t in if bool_decide (n = "") then "UNKNOWN" else n.

Definition dumpEnvelope (i : nat) (envBytes : bytes) : list printed :=
  match unmarshal_Envelope envBytes with
  | Err e => line "  [%d] malformed envelope: %v" [num i; AErr e]
  | Ok (payload, signature) =>
      match UnmarshalPayload payload with
      | Err e => line "  [%d] malformed payload: %v" [num i; AErr e]
      | Ok payload =>
          match pl_Header payload with
          | None => line "  [%d] payload has nil header" [num i]
          | Some header =>
              match UnmarshalChannelHeader header with
              | Err e => line "  [%d] malformed channel header: %v" [num i; AErr e]
              | Ok chdr =>
                  line "  [%d] Envelope type=%s/%d channel=%s tx_id=%s payload_bytes=%d signature_bytes=%d"
                    [num i; AText (type_name (ch_Type chdr)); ANum (ch_Type chdr); AText (ch_ChannelId chdr);
                     AText (ch_TxId chdr); ANum (len (pl_Data payload)); ANum (len signature)] ++
                  dump_payload (pl_Data payload) chdr
              end
          end
      end
  end.

(** ** A block *)

(** What was printed, and the failed step of [must], which ends the process. *)
Definition output : Type := list printed * option (string * goerr).

Definition dump_filter (metadata : option (list bytes)) : list printed :=
  match metadata ≫= (λ l, l !! TRANSACTIONS_FILTER) with
  | Some filter => if bool_decide (filter = "") then [] else line "  tx_filter=%v" [ABytes filter]
  | None => []
  end.

Definition dumpBlock (block : Block) (rawJSON : bool) : output :=
  if rawJSON then
    match protojson_Marshal block with
    | Err e => ([], Some ("marshal block json", e))
    | Ok out => (line "%s" [AText out], None)
    end
  else
    match b_Header block with
    | None => (line "Block <nil header>" [], None)
    | Some header =>
        (line "\nBlock %d tx_count=%d data_hash=%s previous_hash=%s"
           [ANum (bh_Number header); num (length (default [] (b_Data block)));
            AText (base64_std (bh_DataHash header)); AText (base64_std (bh_PreviousHash header))] ++
         dump_filter (b_Metadata block) ++
         mjoin (imap dumpEnvelope (default [] (b_Data block))), None)
    end.

End Dump.

(** ** The program *)

Definition filepath_Join (l : list string) : string :=
  match filter (λ s, s ≠ "") l with [] => "" | l => Package.Clean (Package.join_slash l) end.

Definition serverName (address : string) : string :=
  match GoStrings.SplitHostPort address with
  | Ok (host, _) => if bool_decide (host = "") then "127.0.0.1" else host
  | Err _ => "127.0.0.1"
  end.

(** The TLS configuration of the helper's identity in the generated artifacts. *)
Definition queryTLS (artifacts address : string) : Config.TLSConfig :=
  Config.mkTLS "mtls"
    (filepath_Join [artifacts; "peerOrganizations"; "peer-org-0"; "peers"; "helper.peer-org-0"; "tls"; "server.crt"])
    (filepath_Join [artifacts; "peerOrganizations"; "peer-org-0"; "peers"; "helper.peer-org-0"; "tls"; "server.key"])
    [filepath_Join [artifacts; "peerOrganizations"; "peer-org-0"; "msp"; "tlscacerts";
                    "tlsca.peer-org-0-cert.pem"]]
    (serverName address).

(** The chain's height and the hashes of its last blocks. *)
Record BlockchainInfo := mkInfo { i_Height : Z; i_CurrentBlockHash : gobytes; i_PreviousBlockHash : gobytes }.

(** The connection made with a TLS configuration, and the answers of the Block Query Service.
    The request timeout shows as an error of an answer. *)
Record service := mkService {
  sv_LoadClientTLSConfig : Config.TLSConfig → string → result ();
  sv_NewClient : string → result ();
  sv_GetBlockchainInfo : result BlockchainInfo;
  sv_GetBlockByTxID : string → result Block;
  sv_GetBlockByNumber : Z → result Block }.

Record flags := mkFlags {
  fl_artifacts : string;
  fl_queryAddr : string;
  fl_from : Z;
  fl_to : Z;
  fl_txID : string;
  fl_rawJSON : bool }.

Definition queryConn (s : service) (artifacts address : string) : result () :=
  sv_LoadClientTLSConfig s (queryTLS artifacts address) (serverName address);;
  sv_NewClient s address.

Section Main.
Context {BP : BlockProto}.
Variable IsPrint : Z → bool.
Variable s : service.

(** The blocks asked for by number, what was printed and the failed step, if any. *)
Record run := mkRun { r_asked : list Z; r_printed : list printed; r_failed : option (string * goerr) }.

Definition stopped (step : string) (e : goerr) (asked : list Z) (out : list printed) : run :=
  mkRun asked out (Some (step, e)).

Definition with_output (asked : list Z) (out : list printed) (o : output) : run :=
  mkRun asked (out ++ o.1) o.2.

(** [for n := from; n <= last; n++], the counter a [uint64]; [None] when the fuel ends first. *)
Fixpoint dump_range (fuel : nat) (raw : bool) (last n : Z) (asked : list Z) (out : list printed) : option run :=
  match fuel with
  | O => None
  | S fuel =>
      if n <=? last then
        match sv_GetBlockByNumber s n with
        | Err e => Some (stopped ("get block " +:+ GoStrings.FormatUint n) e (asked ++ [n]) out)
        | Ok block =>
            let o := dumpBlock IsPrint block raw in
            match o.2 with
            | Some (step, e) => Some (stopped step e (asked ++ [n]) (out ++ o.1))
            | None => dump_range fuel raw last (uint64_wrap (n + 1)) (asked ++ [n]) (out ++ o.1)
            end
        end
      else Some (mkRun asked out None)
  end.

(** The last block to print. *)
Definition last_block (height to : Z) : Z :=
  let last := if 0 <? height then uint64_wrap (height - 1) else 0 in
  if 0 <=? to then to else last.

Definition main (fuel : nat) (f : flags) : option run :=
  match queryConn s (fl_artifacts f) (fl_queryAddr f) with
  | Err e => Some (stopped "connect block query service" e [] [])
  | Ok _ =>
      match sv_GetBlockchainInfo s with
      | Err e => Some (stopped "get blockchain info" e [] [])
      | Ok info =>
          let out := line "height=%d current_hash=%s previous_hash=%s"
            [ANum (i_Height info); AText (base64_std (i_CurrentBlockHash info));
             AText (base64_std (i_PreviousBlockHash info))] in
          if negb (bool_decide (fl_txID f = "")) then
            match sv_GetBlockByTxID s (fl_txID f) with
            | Err e => Some (stopped "get block by txid" e [] out)
            | Ok block => Some (with_output [] out (dumpBlock IsPrint block (fl_rawJSON f)))
            end
          else
            let last := last_block (i_Height info) (fl_to f) in
            if last <? fl_from f then Some (mkRun [] out None)
            else dump_range fuel (fl_rawJSON f) last (fl_from f) [] out
      end
  end.

End Main.

(** ** What is printed identifies the values *)

Section Identify.
Variable IsPrint : Z → bool.

Lemma renderVersion_inj v w :
  match v with Some z => is_uint64 z | None => True end →
  match w with Some z => is_uint64 z | None => True end →
  renderVersion v = renderVersion w → v = w.
Proof.
  assert (Hd : ∀ z, is_uint64 z → GoStrings.FormatUint z ≠ "<nil>").
  { intros z Hz E. pose proof (GoStrings.ParseUint_FormatUint z Hz) as Hp. by rewrite E in Hp. }
  destruct v as [v|], w as [w|]; unfold renderVersion; intros Hv Hw E; [|by apply Hd in E|by symmetry in E; apply Hd in E|done].
  apply (f_equal GoStrings.ParseUint) in E. rewrite !GoStrings.ParseUint_FormatUint in E by done. congruence.
Qed.

(** The three forms are told apart by their first character. *)
Inductive rendered (t : string) : gobytes → Prop :=
  | rendered_nil : t = "<nil>" → rendered t None
  | rendered_text s l : runes (bytes_of s) = Some l → t = text_of (quote_runes IsPrint l) → rendered t (Some s)
  | rendered_base64 s : t = "base64:" +:+ Json.base64 s → rendered t (Some s).

Lemma renderBytes_form b : rendered (renderBytes IsPrint b) b.
Proof.
  destruct b as [s|]; [|by constructor]. destruct s as [|a s']; [by apply (rendered_text _ "" [])|].
  cbn [renderBytes]. destruct (runes (bytes_of (String a s'))) as [l|] eqn:E; [|by apply rendered_base64].
  case_match; [by apply rendered_base64|by eapply rendered_text].
Qed.

Lemma renderBytes_inj b1 b2 : renderBytes IsPrint b1 = renderBytes IsPrint b2 → b1 = b2.
Proof.
  pose proof (renderBytes_form b1) as H1. pose proof (renderBytes_form b2) as H2. intros E. rewrite E in H1.
  clear E. destruct H1 as [E1|s1 l1 R1 E1|s1 E1], H2 as [E2|s2 l2 R2 E2|s2 E2];
    rewrite E1 in E2; try done; f_equal.
  - apply runes_encode in R1 as [R1 H1]; [|apply bytes_of_pos].
    apply runes_encode in R2 as [R2 H2]; [|apply bytes_of_pos]. apply bytes_of_inj.
    apply text_of_inj in E2; [|by apply quote_runes_bytes..]. apply quote_runes_inj in E2; [|done..]. congruence.
  - apply Json.base64_inj. by injection E2.
Qed.

End Identify.

(** ** What a transaction's dump says of it *)

Section Transactions.
Context {BP : BlockProto}.
Variable IsPrint : Z → bool.

(** The lines of a namespace. *)
Definition row_formats : list string :=
  ["      ns[%d] id=%s version=%d reads_only=%d read_writes=%d blind_writes=%d";
   "        read key=%s version=%s"; "        read_write key=%s version=%s value=%s";
   "        blind_write key=%s value=%s"].

Definition rows : list printed → list printed := filter (λ p, p_format p ∈ row_formats).

Lemma rows_none l : Forall (λ p, p_format p ∉ row_formats) l → rows l = [].
Proof. induction 1 as [|p l Hp _ IH]; [done|]. unfold rows in *. by rewrite filter_cons_False. Qed.

Lemma rows_all l : Forall (λ p, p_format p ∈ row_formats) l → rows l = l.
Proof. induction 1 as [|p l Hp _ IH]; [done|]. unfold rows in *. by rewrite filter_cons_True, IH. Qed.

Lemma Forall_pieces {A} (Q : printed → Prop) (f : nat → A → list printed) l :
  (∀ i x, Forall Q (f i x)) → Forall Q (mjoin (imap f l)).
Proof.
  intros Hf. revert f Hf. induction l as [|x l IH]; intros f Hf; [constructor|].
  rewrite imap_cons. cbn. apply Forall_app. split; [apply Hf|]. apply IH. intros i y. apply Hf.
Qed.

Ltac other_lines := repeat (apply Forall_cons; split; [apply (bool_decide_unpack _); vm_compute; done|]); try apply Forall_nil; try done.

Lemma rows_event chaincode tx name payload :
  Forall (λ p, p_format p ∉ row_formats) (dump_event IsPrint chaincode tx name payload).
Proof. unfold dump_event, line. other_lines. Qed.

Lemma rows_dump tx txID : rows (dump_tx IsPrint tx txID) = dump_namespaces IsPrint (xt_Namespaces tx).
Proof.
  unfold dump_tx, rows. rewrite !filter_app. fold rows.
  rewrite (rows_none (line _ _)) by (unfold line; other_lines).
  rewrite (rows_none (mjoin (imap dump_endorsements _))).
  2:{ apply Forall_pieces. intros i [signers|]; unfold dump_endorsements, line; [|by other_lines].
      apply Forall_app. split; [by other_lines|]. apply Forall_lookup. intros j p Hj.
      rewrite list_lookup_imap in Hj. destruct (signers !! j) as [s|]; [|done]. injection Hj as <-.
      apply (bool_decide_unpack _). reflexivity. }
  rewrite (rows_none (dump_metadata _ _ _ _)).
  2:{ unfold dump_metadata, line. repeat (apply Forall_app; split).
      - destruct (sm_InputArgs _); other_lines.
      - case_match; other_lines.
      - case_match; [apply rows_event|constructor]. }
  rewrite (rows_none (mjoin (imap (dump_record IsPrint) _))).
  2:{ apply Forall_pieces. intros i r. unfold dump_record, line. case_match; other_lines. }
  rewrite (rows_none (dump_second _ _ _)).
  2:{ unfold dump_second, line. repeat case_match; first [apply Forall_nil; done|apply rows_event|other_lines]. }
  cbn [app]. apply rows_all. apply Forall_pieces. intros i ns. unfold dump_namespace, line.
  repeat (apply Forall_app; split); [other_lines| | |]; apply Forall_fmap, Forall_true; intros x;
    cbn -[row_formats]; apply (bool_decide_unpack _); vm_compute; done.
Qed.

(** A namespace whose key versions are machine words. *)
Definition versions_ok (ns : XNamespace) : Prop :=
  Forall (λ r, from_option is_uint64 True r.2) (xn_ReadsOnly ns) ∧
  Forall (λ rw, from_option is_uint64 True rw.1.2) (xn_ReadWrites ns).

Lemma lines_inj {A} (f : A → printed) (Q : A → Prop) l1 l2 :
  (∀ x y, Q x → Q y → f x = f y → x = y) → Forall Q l1 → Forall Q l2 → f <$> l1 = f <$> l2 → l1 = l2.
Proof.
  intros Hf H1. revert l2. induction H1 as [|x l1 Hx H1 IH]; intros [|y l2] H2 E; try done.
  apply Forall_cons in H2 as [Hy H2]. rewrite !fmap_cons in E. injection E as E1 E2.
  f_equal; [by apply Hf|by apply IH].
Qed.

Lemma dump_read_inj r1 r2 :
  from_option is_uint64 True r1.2 → from_option is_uint64 True r2.2 →
  dump_read IsPrint r1 = dump_read IsPrint r2 → r1 = r2.
Proof.
  destruct r1 as [k1 v1], r2 as [k2 v2]. unfold dump_read. cbn [fst snd]. intros H1 H2 H.
  injection H as Hk Hv. apply renderBytes_inj in Hk. apply renderVersion_inj in Hv; [congruence|..].
  all: by destruct v1, v2.
Qed.

Lemma dump_read_write_inj r1 r2 :
  from_option is_uint64 True r1.1.2 → from_option is_uint64 True r2.1.2 →
  dump_read_write IsPrint r1 = dump_read_write IsPrint r2 → r1 = r2.
Proof.
  destruct r1 as [[k1 v1] x1], r2 as [[k2 v2] x2]. unfold dump_read_write. cbn [fst snd]. intros H1 H2 H.
  injection H as Hk Hv Hx. apply renderBytes_inj in Hk, Hx. apply renderVersion_inj in Hv; [congruence|..].
  all: by destruct v1, v2.
Qed.

Lemma dump_blind_write_inj w1 w2 : dump_blind_write IsPrint w1 = dump_blind_write IsPrint w2 → w1 = w2.
Proof.
  destruct w1 as [k1 x1], w2 as [k2 x2]. unfold dump_blind_write. cbn [fst snd]. intros H.
  injection H as Hk Hx. apply renderBytes_inj in Hk, Hx. congruence.
Qed.

Lemma app_eq_length {A} (a1 a2 b1 b2 : list A) :
  length a1 = length a2 → a1 ++ b1 = a2 ++ b2 → a1 = a2 ∧ b1 = b2.
Proof. intros Hl H. by apply app_inj_1. Qed.

Lemma dump_namespace_inj i ns1 ns2 rest1 rest2 :
  versions_ok ns1 → versions_ok ns2 →
  dump_namespace IsPrint i ns1 ++ rest1 = dump_namespace IsPrint i ns2 ++ rest2 → ns1 = ns2 ∧ rest1 = rest2.
Proof.
  intros [Hr1 Hw1] [Hr2 Hw2]. unfold dump_namespace, line. rewrite <- !app_assoc. cbn [app].
  unfold num. intros H. injection H as Hid Hv Hn1 Hn2 Hn3 H. apply Nat2Z.inj in Hn1, Hn2, Hn3.
  apply app_eq_length in H as [Ha H]; [|by rewrite !length_fmap].
  apply app_eq_length in H as [Hb H]; [|by rewrite !length_fmap].
  apply app_eq_length in H as [Hc H]; [|by rewrite !length_fmap].
  apply (lines_inj _ _ _ _ dump_read_inj Hr1 Hr2) in Ha.
  apply (lines_inj _ _ _ _ dump_read_write_inj Hw1 Hw2) in Hb.
  apply (lines_inj _ (λ _, True)) in Hc; [|intros ????; by apply dump_blind_write_inj|by apply Forall_true..].
  destruct ns1, ns2; cbn in *. by subst.
Qed.

Lemma dump_namespaces_inj l1 l2 :
  Forall versions_ok l1 → Forall versions_ok l2 →
  dump_namespaces IsPrint l1 = dump_namespaces IsPrint l2 → l1 = l2.
Proof.
  unfold dump_namespaces. intros H1.
  assert (Hgen : ∀ k l1 l2, Forall versions_ok l1 → Forall versions_ok l2 →
    mjoin (imap (λ i, dump_namespace IsPrint (k + i)) l1) = mjoin (imap (λ i, dump_namespace IsPrint (k + i)) l2) →
    l1 = l2).
  2:{ intros H2. by apply (Hgen 0%nat). }
  clear l1 l2 H1. intros k l1 l2 H1. revert k l2. induction H1 as [|n1 l1 Hn1 H1 IH]; intros k [|n2 l2] H2; [done|done|done|].
  apply Forall_cons in H2 as [Hn2 H2]. rewrite !imap_cons. cbn [mjoin list_join].
  intros H. apply dump_namespace_inj in H as [-> H]; [|done..]. f_equal. apply (IH (S k)); [done|].
  rewrite (imap_ext _ ((λ i, dump_namespace IsPrint (k + i)) ∘ S)), (imap_ext (λ i, dump_namespace IsPrint (S k + i)) ((λ i, dump_namespace IsPrint (k + i)) ∘ S)).
  - exact H.
  - intros i x _. cbn. by rewrite Nat.add_succ_r.
  - intros i x _. cbn. by rewrite Nat.add_succ_r.
Qed.

(** The printed transaction identifies what it reads and writes: two transactions that are printed
    alike have the same namespaces, with the same keys, versions and values in the same order;
    an absent value and an empty one are printed differently. *)
Theorem dump_identifies tx1 tx2 id1 id2 :
  Forall versions_ok (xt_Namespaces tx1) → Forall versions_ok (xt_Namespaces tx2) →
  dump_tx IsPrint tx1 id1 = dump_tx IsPrint tx2 id2 → xt_Namespaces tx1 = xt_Namespaces tx2.
Proof.
  intros H1 H2 H. apply (f_equal rows) in H. rewrite !rows_dump in H. by apply dump_namespaces_inj in H.
Qed.

End Transactions.

(** ** The blocks it asks for *)

Section Range.
Context {BP : BlockProto}.
Variable IsPrint : Z → bool.
Variable s : service.

(** A run over the blocks from [from] on: the ones asked for, and all of them printed unless a
    step failed. *)
Definition range_run (raw : bool) (from count : Z) (out : list printed) (r : run) : Prop :=
  ∃ n, r_asked r = seqZ from n ∧ 0 <= n <= count ∧
    (r_failed r = None → n = count ∧ ∃ blocks,
      Forall2 (λ k b, sv_GetBlockByNumber s k = Ok b) (seqZ from n) blocks ∧
      r_printed r = out ++ mjoin ((λ b, (dumpBlock IsPrint b raw).1) <$> blocks)).

Lemma dump_range_ok raw from last out :
  is_uint64 from → last < 2 ^ 64 - 1 → from <= last + 1 →
  ∀ (left : nat) n asked blocks printed,
    Z.of_nat left = last - n + 1 → from <= n → asked = seqZ from (n - from) →
    Forall2 (λ k b, sv_GetBlockByNumber s k = Ok b) asked blocks →
    printed = out ++ mjoin ((λ b, (dumpBlock IsPrint b raw).1) <$> blocks) →
    ∃ r, dump_range IsPrint s (S left) raw last n asked printed = Some r ∧
      range_run raw from (last - from + 1) out r.
Proof.
  unfold is_uint64. intros Hf Hl Hfl left. induction left as [|left IH]; intros n asked blocks prn Hn Hfn -> Hb ->;
    cbn [dump_range].
  { rewrite (proj2 (Z.leb_gt n last)) by lia. eexists. split; [reflexivity|].
    exists (n - from). cbn [r_asked r_failed r_printed]. split; [done|]. split; [lia|]. intros _.
    split; [lia|]. by exists blocks. }
  rewrite (proj2 (Z.leb_le n last)) by lia.
  assert (Hask : seqZ from (n - from) ++ [n] = seqZ from (n + 1 - from)).
  { replace (n + 1 - from) with (n - from + 1) by lia. rewrite seqZ_app by lia.
    f_equal. replace (from + (n - from)) with n by lia. done. }
  assert (Hstop : ∀ step e prn, range_run raw from (last - from + 1) out
    (stopped step e (seqZ from (n - from) ++ [n]) prn)).
  { intros step e prn. exists (n + 1 - from). split; [done|]. split; [lia|done]. }
  destruct (sv_GetBlockByNumber s n) as [block|e] eqn:Hg; [|by eexists].
  cbn zeta. destruct (dumpBlock IsPrint block raw).2 as [[step e]|] eqn:Ho; [by eexists|].
  rewrite uint64_wrap_id by (unfold is_uint64; lia).
  eapply (IH (n + 1) _ (blocks ++ [block])); [lia|lia|exact Hask| |].
  - apply Forall2_app; [done|]. by repeat constructor.
  - rewrite fmap_app, <- app_assoc. f_equal. rewrite join_app. cbn. by rewrite app_nil_r.
Qed.

Lemma last_block_bound height to : is_uint64 height → is_int64 to → 0 <= last_block height to < 2 ^ 64 - 1.
Proof.
  unfold is_uint64, is_int64, last_block. intros Hh Ht.
  destruct (Z.leb_spec 0 to); [lia|]. destruct (Z.ltb_spec 0 height); [|lia].
  rewrite uint64_wrap_id; unfold is_uint64; lia.
Qed.

(** Without a transaction ID the tool asks for the blocks of the range in order, each once, and
    its loop ends: the 64-bit counter never wraps.  It stops at the first block it cannot get or
    print, and when it returns without a failure it has printed every block of the range. *)
Theorem main_prints_range f info :
  queryConn s (fl_artifacts f) (fl_queryAddr f) = Ok () → sv_GetBlockchainInfo s = Ok info →
  fl_txID f = "" → is_uint64 (i_Height info) → is_uint64 (fl_from f) → is_int64 (fl_to f) →
  let last := last_block (i_Height info) (fl_to f) in
  ∃ r, main IsPrint s (S (Z.to_nat (last - fl_from f + 1))) f = Some r ∧
    range_run (fl_rawJSON f) (fl_from f) (Z.max 0 (last - fl_from f + 1))
      (line "height=%d current_hash=%s previous_hash=%s"
         [ANum (i_Height info); AText (base64_std (i_CurrentBlockHash info));
          AText (base64_std (i_PreviousBlockHash info))]) r.
Proof.
  intros Hc Hi Ht Hh Hf Hto last. pose proof (last_block_bound _ _ Hh Hto) as Hl. fold last in Hl.
  unfold main. rewrite Hc, Hi, Ht. cbn [negb bool_decide]. fold last.
  destruct (Z.ltb_spec last (fl_from f)) as [Hlt|Hle].
  - eexists. split; [reflexivity|]. exists 0. cbn. split; [done|]. split; [lia|]. intros _. split; [lia|].
    exists []. split; [constructor|done].
  - rewrite Z.max_r by lia.
    apply (dump_range_ok (fl_rawJSON f) (fl_from f) last _ Hf ltac:(lia) ltac:(lia) (Z.to_nat (last - fl_from f + 1)) (fl_from f) [] []).
    + lia.
    + lia.
    + by rewrite Z.sub_diag.
    + constructor.
    + done.
Qed.

End Range.

(** ** Concrete instances *)

Definition ex_print (v : Z) : bool := (32 <=? v) && (v <? 127).

Lemma ex_rendered :
  renderBytes ex_print None = "<nil>" ∧ renderBytes ex_print (Some "") = text_of [34; 34] ∧
  renderBytes ex_print (Some "k1") = text_of [34] +:+ "k1" +:+ text_of [34] ∧
  renderBytes ex_print (Some (text_of [195; 169])) = text_of [34] +:+ "\u00e9" +:+ text_of [34] ∧
  renderBytes ex_print (Some (text_of [0; 255])) = "base64:AP8=".
Proof. split_and!; vm_compute; reflexivity. Qed.

#[local] Instance ex_proto : BlockProto := {|
  protojson_Marshal _ := Ok "{}";
  unmarshal_Envelope b := Ok (Some b, Some "sig");
  UnmarshalPayload b := Ok (mkPayload (Some "h") b);
  UnmarshalChannelHeader _ := Ok (mkChannelHeader 0 "ch" "tx");
  HeaderType_name _ := "MESSAGE";
  unmarshal_ConfigEnvelope _ := Ok (None, false);
  unmarshal_ConfigUpdateEnvelope _ := Ok (None, 0%nat);
  unmarshal_ConfigUpdate _ := Ok "";
  unmarshal_Transaction _ := Ok 0%nat;
  unmarshal_Tx b := Ok (mkXTx [mkXNamespace "ns" 1 [(Some "r", Some 3)] [(Some "k", None, b)] [(Some "w", None)]] [] [b]);
  DecodeMetadata _ := mkSdkMetadata [] None None "";
  unmarshal_ChaincodeEvent _ := Err (EExt "no event");
  json_Valid _ := false |}.

Definition ex_block (n : Z) : Block := mkBlock (Some (mkBlockHeader n None (Some "hash"))) (Some ["v1"]) None.

(** A chain of three blocks. *)
Definition ex_service : service :=
  mkService (λ _ _, Ok ()) (λ _, Ok ()) (Ok (mkInfo 3 (Some "c") (Some "p"))) (λ _, Err (EExt "no such transaction"))
    (λ n, if n <? 3 then Ok (ex_block n) else Err (EExt "no such block")).

Definition ex_flags : flags := mkFlags "artifacts" "127.0.0.1:4001" 1 (-1) "" false.

Lemma main_prints_range_witness :
  ∃ r, main ex_print ex_service 3 ex_flags = Some r ∧ ∃ n, r_asked r = seqZ 1 n ∧ 0 <= n <= 2.
Proof.
  destruct (main_prints_range ex_print ex_service ex_flags (mkInfo 3 (Some "c") (Some "p")))
    as (r & Hr & n & Ha & Hn & _); [reflexivity|reflexivity|reflexivity|vm_compute; split; congruence..|].
  exists r. split; [exact Hr|]. exists n. split; [exact Ha|exact Hn].
Defined.

Lemma ex_main_asked : r_asked <$> main ex_print ex_service 3 ex_flags = Some [1; 2].
Proof. vm_compute. reflexivity. Qed.

Definition ex_tx : XTx :=
  mkXTx [mkXNamespace "ns" 1 [(Some "r", Some 3)] [(Some "k", None, Some "v")] [(Some "w", None)]] [] [].

Lemma dump_identifies_witness : xt_Namespaces ex_tx = xt_Namespaces ex_tx.
Proof.
  assert (H : Forall versions_ok (xt_Namespaces ex_tx)).
  { constructor; [|constructor]. split; repeat constructor; vm_compute; congruence. }
  exact (dump_identifies ex_print ex_tx ex_tx "tx" "tx" H H eq_refl).
Defined.

(** On an empty chain the default range is block 0, which does not exist: the tool fails. *)
Lemma empty_chain_fails :
  let s := mkService (λ _ _, Ok ()) (λ _, Ok ()) (Ok (mkInfo 0 None None)) (λ _, Err (EExt "no such transaction"))
    (λ _, Err (EExt "no such block")) in
  r_failed <$> main ex_print s 2 (mkFlags "artifacts" "127.0.0.1:4001" 0 (-1) "" false) =
    Some (Some ("get block 0", EExt "no such block")).
Proof. vm_compute. reflexivity. Qed.

End BlockDump.
