(* ===== verification/RwsSmoke.v ===== *)
(** The read-write-set tool, [src/cmd/rws-smoke/main.go]: it endorses and submits one write, and
    may wait for its status and read the key back.

    The SDK is a record of answers; what the run prints and does is its result.  The deferred
    closes run when [main] returns; a failed step ends the process. *)
From Stdlib Require Import ZArith Lia Ascii.
From stdpp Require Import base option list strings.
From S2P Require Import Prelude GoStrings Config Package BlockDump.
Import BlockDump.
Local Open Scope Z_scope.

Module RwsSmoke.

Record flags := mkFlags {
  artifacts : string;
  channel : string;
  namespace : string;
  nsVersion : string;
  key : string;
  value : string;
  readVersion : Z;
  waitStatus : bool;
  queryRow : bool;
  orderers : string;
  queryAddr : string }.

(** [blocks.ReadWriteSet]; a version is a block number. *)
Record ReadWriteSet := mkRWS { Reads : list (string * Z); Writes : list (string * bytes) }.

(** [committerpb.TxStatus]: the status text, the block and the index. *)
Record TxStatus := mkTxStatus { ts_Status : string; ts_Block : Z; ts_TxNum : Z }.

(** [committerpb.Row], and the rows of a namespace. *)
Record Row := mkRow { row_Key : bytes; row_Value : bytes; row_Version : Z }.

Record Rows := mkRows { rs_NsId : string; rs_Rows : list Row }.

(** The SDK: signers, proposals and responses are its own values. *)
Class Sdk := {
  signer : Type;
  invocation : Type;
  response : Type;
  inv_TxID : invocation → string;
  SignerFromMSP : string → string → result signer;
  (** Signer, channel, namespace, version and arguments. *)
  NewInvocation : signer → string → string → string → list bytes → result invocation;
  (** Success with an empty message and no event. *)
  Endorse : signer → invocation → ReadWriteSet → bytes → result response;
  NewSubmitter : list Config.PeerConf → signer → result ();
  Submit : invocation → response → result ();
  LoadClientTLSConfig : Config.TLSConfig → string → result ();
  NewClient : string → result () }.

(** ** Orderers *)

(** [strings.Split(s, ",")]. *)
Fixpoint split_comma (s : string) : list string :=
  match s with
  | EmptyString => [""]
  | String c rest =>
      if Ascii.eqb c ","%char then "" :: split_comma rest
      else match split_comma rest with
           | [] => [String c ""]
           | x :: l => String c x :: l
           end
  end.

Definition serverName (address : string) : string :=
  match GoStrings.SplitHostPort address with
  | Ok (host, _) => if bool_decide (host = "") then "127.0.0.1" else host
  | Err _ => "127.0.0.1"
  end.

(** The TLS configuration of the helper's identity, with one CA. *)
Definition helperTLS (artifacts ca address : string) : Config.TLSConfig :=
  Config.mkTLS "mtls"
    (filepath_Join [artifacts; "peerOrganizations"; "peer-org-0"; "peers"; "helper.peer-org-0"; "tls"; "server.crt"])
    (filepath_Join [artifacts; "peerOrganizations"; "peer-org-0"; "peers"; "helper.peer-org-0"; "tls"; "server.key"])
    [ca] (serverName address).

Definition ordererCA (artifacts : string) (org : nat) : string :=
  let o := GoStrings.FormatInt (Z.of_nat org) in
  filepath_Join [artifacts; "ordererOrganizations"; "orderer-org-" +:+ o; "msp"; "tlscacerts";
                 "tlsca.orderer-org-" +:+ o +:+ "-cert.pem"].

(** The organization of an endpoint is its place in the flag; empty places count. *)
Definition ordererConfs (artifacts endpoints : string) : list Config.PeerConf :=
  omap id (imap (λ i endpoint,
    let endpoint := GoStrings.TrimSpace endpoint in
    if bool_decide (endpoint = "") then None
    else Some (Config.mkPeerConf endpoint (helperTLS artifacts (ordererCA artifacts (S i)) endpoint)))
    (split_comma endpoints)).

(** ** Querying *)

(** What the loop of [waitForStatus] observes: the end of its context, or a tick with the answer of
    the Query Service. *)
Inductive wait_event :=
  | Done (e : goerr)
  | Tick (answer : result (list TxStatus)).

(** [None] while no event ends the loop. *)
Fixpoint waitForStatus (events : list wait_event) : option (result TxStatus) :=
  match events with
  | [] => None
  | Done e :: _ => Some (Err e)
  | Tick (Err e) :: _ => Some (Err e)
  | Tick (Ok (st :: _)) :: _ => Some (Ok st)
  | Tick (Ok []) :: rest => waitForStatus rest
  end.

Definition row_line (ns : string) (r : Row) : printed :=
  mkPrinted "row namespace=%s key=%s value=%s version=%d"
    [AText ns; AText (row_Key r); AText (row_Value r); ANum (row_Version r)].

(** The first row of the answer. *)
Fixpoint first_row (l : list Rows) : option printed :=
  match l with
  | [] => None
  | ns :: rest =>
      match rs_Rows ns with
      | r :: _ => Some (row_line (rs_NsId ns) r)
      | [] => first_row rest
      end
  end.

Definition queryKey (answer : result (list Rows)) : result printed :=
  rows ← answer;
  match first_row rows with
  | Some p => Ok p
  | None => Err (ENew "key %q not found in namespace %q")
  end.

(** ** The program *)

Section Main.
Context {SD : Sdk}.

Definition queryConn (artifacts address : string) : result () :=
  LoadClientTLSConfig
    (helperTLS artifacts (filepath_Join [artifacts; "peerOrganizations"; "peer-org-0"; "msp"; "tlscacerts";
       "tlsca.peer-org-0-cert.pem"]) address) (serverName address);;
  NewClient address.

Definition read_write_set (f : flags) : ReadWriteSet :=
  mkRWS (if 0 <=? readVersion f then [(key f, readVersion f)] else []) [(key f, value f)].

(** What was submitted, printed and left open, and the failed step of [must]. *)
Record run := mkRun {
  r_submitted : option (invocation * response);
  r_printed : list printed;
  r_failed : option (string * goerr) }.

(** A step of [must]. *)
Definition must {A} (st : run) (r : result A) (step : string) (next : A → option run) : option run :=
  match r with
  | Err e => Some (mkRun (r_submitted st) (r_printed st) (Some (step, e)))
  | Ok x => next x
  end.

Definition print (p : printed) (st : run) : run := mkRun (r_submitted st) (r_printed st ++ [p]) (r_failed st).

(** The endorsed write: the invocation and its response. *)
Definition endorsed (f : flags) (st : run) (next : signer → invocation → response → option run) : option run :=
  must st (SignerFromMSP (filepath_Join [artifacts f; "peerOrganizations"; "peer-org-0"; "users";
             "client@peer-org-0"; "msp"]) "org-0") "load signer" (λ sg,
  must st (NewInvocation sg (channel f) (namespace f) (nsVersion f) ["invoke"; key f]) "create invocation" (λ inv,
  must st (Endorse sg inv (read_write_set f) "rws-smoke") "endorse Fabric-X RW set" (λ resp, next sg inv resp))).

Definition status_line (tx : string) (st : TxStatus) : printed :=
  mkPrinted "status tx_id=%s status=%s block=%d tx_num=%d"
    [AText tx; AText (ts_Status st); ANum (ts_Block st); ANum (ts_TxNum st)].

(** After the submission. *)
Definition observe (f : flags) (inv : invocation) (events : list wait_event) (rows : result (list Rows))
    (st : run) : option run :=
  if waitStatus f || queryRow f then
    must st (queryConn (artifacts f) (queryAddr f)) "connect query service" (λ _,
    let query st :=
      if queryRow f then must st (queryKey rows) "query key" (λ p, Some (print p st)) else Some st in
    if waitStatus f then
      status ← waitForStatus events;
      must st status "wait transaction status" (λ s, query (print (status_line (inv_TxID inv) s) st))
    else query st)
  else Some st.

Definition main (f : flags) (events : list wait_event) (rows : result (list Rows)) : option run :=
  let st := mkRun None [] None in
  endorsed f st (λ sg inv resp,
  must st (NewSubmitter (ordererConfs (artifacts f) (orderers f)) sg) "create submitter" (λ _,
  must st (Submit inv resp) "submit transaction" (λ _,
  observe f inv events rows
    (mkRun (Some (inv, resp))
       [mkPrinted "submitted tx_id=%s namespace=%s key=%s value=%s"
          [AText (inv_TxID inv); AText (namespace f); AText (key f); AText (value f)]] None)))).

End Main.

(** ** Properties *)

Lemma elem_of_imap {A B} (f : nat → A → B) l y : y ∈ imap f l ↔ ∃ i x, l !! i = Some x ∧ y = f i x.
Proof.
  rewrite list_elem_of_lookup. setoid_rewrite list_lookup_imap. split.
  - intros [i H]. destruct (l !! i) as [x|] eqn:E; [|done]. injection H as <-. by exists i, x.
  - intros (i & x & Hx & ->). exists i. by rewrite Hx.
Qed.

(** Every endpoint of the flag is an orderer, reached with the CA of the organization whose number
    is the endpoint's place. *)
Theorem ordererConfs_places artifacts endpoints conf :
  conf ∈ ordererConfs artifacts endpoints ↔
  ∃ i endpoint, split_comma endpoints !! i = Some endpoint ∧ GoStrings.TrimSpace endpoint ≠ "" ∧
    conf = Config.mkPeerConf (GoStrings.TrimSpace endpoint)
      (helperTLS artifacts (ordererCA artifacts (S i)) (GoStrings.TrimSpace endpoint)).
Proof.
  unfold ordererConfs. rewrite list_elem_of_omap. setoid_rewrite elem_of_imap. split.
  - intros (y & (i & x & Hx & ->) & H). cbn in H. case_bool_decide as He; [done|]. injection H as <-.
    by exists i, x.
  - intros (i & x & Hx & Hne & ->). eexists. split; [by exists i, x|]. cbn. by rewrite bool_decide_eq_false_2.
Qed.

(** The wait returns the first status that is reported. *)
Lemma waitForStatus_first n st rest events :
  waitForStatus (replicate n (Tick (Ok [])) ++ Tick (Ok (st :: rest)) :: events) = Some (Ok st).
Proof. by induction n. Qed.

Section MainLemmas.
Context {SD : Sdk}.

Lemma must_some {A} st (r : result A) step next out :
  must st r step next = Some out →
  (∃ x, r = Ok x ∧ next x = Some out) ∨
  (∃ e, r = Err e ∧ out = mkRun (r_submitted st) (r_printed st) (Some (step, e))).
Proof. destruct r as [x|e]; cbn; [by left; exists x|intros [= <-]; right; by exists e]. Qed.

Lemma observe_submitted f inv events rows st out :
  observe f inv events rows st = Some out → r_submitted out = r_submitted st.
Proof.
  assert (Hquery : ∀ st out, (if queryRow f then must st (queryKey rows) "query key" (λ p, Some (print p st))
    else Some st) = Some out → r_submitted out = r_submitted st).
  { intros st' out' H. destruct (queryRow f); [|by injection H as <-].
    apply must_some in H as [(x & _ & [= <-])|(e & _ & ->)]; done. }
  unfold observe. destruct (waitStatus f || queryRow f); [|by intros [= <-]].
  intros H. apply must_some in H as [(u & _ & H)|(e & _ & ->)]; [|done].
  destruct (waitStatus f); [|by apply Hquery in H].
  destruct (waitForStatus events) as [r|]; [|done]. cbn [mbind option_bind] in H.
  apply must_some in H as [(s & _ & H)|(e & _ & ->)]; [|done]. by apply Hquery in H.
Qed.

(** The tool submits one transaction at most: the endorsement, by the client of the artifacts, of
    exactly the flag's write, with the read of the same key when a version is given; and without a
    failure it has submitted it. *)
Theorem main_submits f events rows out :
  main f events rows = Some out →
  match r_submitted out with
  | Some (inv, resp) => ∃ sg,
      NewInvocation sg (channel f) (namespace f) (nsVersion f) ["invoke"; key f] = Ok inv ∧
      Endorse sg inv (mkRWS (if 0 <=? readVersion f then [(key f, readVersion f)] else [])
                        [(key f, value f)]) "rws-smoke" = Ok resp ∧ Submit inv resp = Ok ()
  | None => r_failed out ≠ None
  end.
Proof.
  unfold main, endorsed. intros H.
  apply must_some in H as [(sg & _ & H)|(e & _ & ->)]; [|done].
  apply must_some in H as [(inv & Hinv & H)|(e & _ & ->)]; [|done].
  apply must_some in H as [(resp & Hresp & H)|(e & _ & ->)]; [|done].
  apply must_some in H as [(u & _ & H)|(e & _ & ->)]; [|done].
  apply must_some in H as [([] & Hsub & H)|(e & _ & ->)]; [|done].
  apply observe_submitted in H. rewrite H. by exists sg.
Qed.

End MainLemmas.

(** A network that commits in the second second. *)
Definition ex_sdk : Sdk := {|
  signer := string;
  invocation := string;
  response := ReadWriteSet;
  inv_TxID inv := "tx-" +:+ inv;
  SignerFromMSP dir msp := Ok msp;
  NewInvocation _ _ _ _ args := Ok (default "" (args !! 1%nat));
  Endorse _ _ rws _ := Ok rws;
  NewSubmitter confs _ := if (length confs =? 2)%nat then Ok () else Err (EExt "orderers");
  Submit _ _ := Ok ();
  LoadClientTLSConfig _ _ := Ok ();
  NewClient _ := Ok () |}.

Definition ex_flags : flags :=
  mkFlags "artifacts" "ch" "0" "1.0" "asset1" "value1" 4 true true "127.0.0.1:6022, ,127.0.0.1:6222" "127.0.0.1:7001".

Definition ex_events : list wait_event := [Tick (Ok []); Tick (Ok [mkTxStatus "COMMITTED" 7 0])].

Definition ex_rows : list Rows := [mkRows "0" [mkRow "asset1" "value1" 5]].

Lemma ex_run : (λ r : run (SD := ex_sdk), (snd <$> r_submitted r, length (r_printed r), r_failed r)) <$>
    main (SD := ex_sdk) ex_flags ex_events (Ok ex_rows) =
  Some (Some (mkRWS [("asset1", 4)] [("asset1", "value1")]), 3%nat, None).
Proof. vm_compute. reflexivity. Qed.

Lemma ex_orderers :
  (λ c : Config.PeerConf, (Config.pc_Address c, Config.CACertPaths (Config.pc_TLS c))) <$>
    ordererConfs "artifacts" (orderers ex_flags) =
  [("127.0.0.1:6022",
    ["artifacts/ordererOrganizations/orderer-org-1/msp/tlscacerts/tlsca.orderer-org-1-cert.pem"]);
   ("127.0.0.1:6222",
    ["artifacts/ordererOrganizations/orderer-org-3/msp/tlscacerts/tlsca.orderer-org-3-cert.pem"])].
Proof. vm_compute. reflexivity. Qed.

End RwsSmoke.
