(* ===== verification/OrchestratorMain.v ===== *)
(** The orchestrator program, [src/compatibility_service/cmd/orchestrator/main.go]: reading the
    configuration, starting the service of [Startup.v], serving until the context is canceled,
    closing, and the exit code.

    The state of the process is its connections and database ([Startup.world]), the number of
    configuration files it holds open and the log specification it has set.  The operating
    system, the configuration parser and the gRPC server are arguments; the command library runs
    [run] or another command. *)
From Stdlib Require Import ZArith Lia.
From stdpp Require Import base option list strings gmap relations.
From S2P Require Import Prelude OrchestratorTypes GoStrings Msp Auth LifecycleAuth Instances Config Network.
From S2P Require Import ChaincodeResolver RemoteResolver Startup.

Module OrchestratorMain.

Record process := mkProcess {
  p_world : Startup.world;
  p_files : nat;
  p_LogSpec : option string }.

Definition with_world (w : Startup.world) (p : process) : process := mkProcess w (p_files p) (p_LogSpec p).
Definition with_files (k : nat) (p : process) : process := mkProcess (p_world p) k (p_LogSpec p).
Definition with_LogSpec (s : string) (p : process) : process := mkProcess (p_world p) (p_files p) (Some s).

(** The flags: the path of the configuration, and the level when the flag was given. *)
Record flags := mkFlags { f_config : string; f_log_level : option string }.

Section Run.
Context {NL : Network.NetworkLib} {L : Msp.MSPLib}.

(** The content of a file, what the parser reads of it, and the configuration it decodes to.
    [e_valid_spec] tells the log specifications that [flogging] can parse: [flogging.Init] panics on
    any other.  [e_Serve] is the server running for the service: the resolver's use of the connections while it
    runs, and its error. *)
Record run_env := mkRunEnv {
  e_parsed : Type;
  e_Open : string → result bytes;
  e_ReadConfig : bytes → result e_parsed;
  e_Unmarshal : e_parsed → result Config.Config;
  e_valid_spec : string → bool;
  e_start : Startup.start_env;
  e_Serve : Startup.Service → Network.net → Network.net * Remote.resolvers * option goerr }.

Variable e : run_env.
(** How Go visits the maps of the remote resolver when the service is closed: after a failed
    synchronization, and at the end. *)
Variable so dor so2 dor2 : list string.

(** The configuration; the file is closed on both ways. *)
Definition read_config (f : flags) (p : process) : process * result (e_parsed e) :=
  match e_Open e (f_config f) with
  | Err er => (p, Err (EWrap "open config: %w" er))
  | Ok content =>
      let p := with_files (S (p_files p)) p in
      match e_ReadConfig e content with
      | Err er => (with_files (pred (p_files p)) p, Err (EWrap "read config: %w" er))
      | Ok parsed => (with_files (pred (p_files p)) p, Ok parsed)
      end
  end.

Definition load (f : flags) (p : process) : process * result Config.Config :=
  match read_config f p with
  | (p, Err er) => (p, Err er)
  | (p, Ok parsed) => (p, Msp.wrap_err "invalid config: %w" (e_Unmarshal e parsed))
  end.

Definition log_spec (f : flags) : string := default "info:grpc=error" (f_log_level f).

(** The error of serving that [run] returns: a cancellation is not one. *)
Definition serve_error (err : option goerr) : option goerr :=
  match err with
  | Some er => if errors_Is er ECanceled then None else Some er
  | None => None
  end.

(** [flogging.Init]. *)
Definition init_logging (spec : string) (p : process) : option process :=
  if e_valid_spec e spec then Some (with_LogSpec spec p) else None.

(** From the service on, with the deferred [Close]. *)
Definition serve (svc : Startup.Service) (p : process) : process * option goerr :=
  let '(n, r, err) := e_Serve e svc (Startup.w_net (p_world p)) in
  let w := Startup.mkWorld n (Startup.w_db (p_world p)) in
  (with_world (Startup.Close so2 dor2 w (Startup.with_remotes r svc)).1 p, serve_error err).

Definition run (f : flags) (p : process) : option (process * option goerr) :=
  match load f p with
  | (p, Err er) => Some (p, Some er)
  | (p, Ok cfg) =>
      p ← init_logging (log_spec f) p;
      '(w, svc) ← Startup.NewWithLoggers so dor cfg (e_start e) (Startup.w_net (p_world p));
      let p := with_world w p in
      Some (match svc with
            | Err er => (p, Some (EWrap "create orchestrator: %w" er))
            | Ok svc => serve svc p
            end)
  end.

(** What the command library does with the arguments: [run], or another command's error. *)
Inductive invocation :=
  | InvokeRun (f : flags)
  | InvokeOther (err : option goerr).

(** The exit code for the error that the command returned. *)
Definition exit_code (err : option goerr) : Z :=
  match err with
  | Some er => if errors_Is er ECanceled then 0%Z else 1%Z
  | None => 0%Z
  end.

(** The process and its exit code; [None] is a panic. *)
Definition main (i : invocation) (p : process) : option (process * Z) :=
  '(p, err) ← match i with InvokeRun f => run f p | InvokeOther err => Some (p, err) end;
  Some (p, exit_code err).

(** ** Properties *)

Lemma load_process f p : (load f p).1 = p.
Proof.
  unfold load, read_config. destruct (e_Open e (f_config f)) as [content|er]; [|done].
  destruct (e_ReadConfig e content); destruct p; done.
Qed.

(** The server's use of the connections is one of the remote resolver, and [Close] visits all of
    its contacts. *)
Definition serves (cfg : Config.Config) (n : Network.net) : Prop :=
  ∀ w svc, Startup.construct cfg (e_start e) n = Some (w, Ok svc) →
    Remote.visits so dor (Startup.sv_remotes svc) ∧
    ∃ n2 r2 err, e_Serve e svc (Startup.w_net w) = (n2, r2, err) ∧
      rtc Remote.use (Startup.w_net w, Startup.sv_remotes svc) (n2, r2) ∧ Remote.visits so2 dor2 r2.


End Run.

(** ** Concrete instances *)

#[local] Existing Instances Ccr.ex_network Instances.example_msp.

(** A server that runs until it is canceled. *)
Definition ex_run_env : run_env :=
  mkRunEnv () (λ path, if bool_decide (path = "orchestrator.yaml") then Ok "yaml" else Err (EExt "no such file"))
    (λ _, Ok ()) (λ _, Ok Startup.ex_startup_config)
    (λ spec, bool_decide (spec ∈ ["info:grpc=error"; "DEBUG"])) Startup.ex_start
    (λ svc n, (n, Startup.sv_remotes svc, Some (EWrap "serve: %w" ECanceled))).

Definition ex_process : process := mkProcess (Startup.mkWorld Network.no_connections false) 0 None.

Definition ex_main (f : flags) : option (process * Z) :=
  main ex_run_env ["Org2MSP"] [] ["Org2MSP"] [] (InvokeRun f) ex_process.

Lemma ex_main_code : snd <$> ex_main (mkFlags "orchestrator.yaml" None) = Some 0%Z.
Proof. vm_compute. reflexivity. Qed.


(** A level that is no specification. *)
Lemma ex_bad_level : ex_main (mkFlags "orchestrator.yaml" (Some "LOUD")) = None.
Proof. vm_compute. reflexivity. Qed.

Lemma ex_missing_config :
  (λ x : process * Z, (p_files x.1, x.2)) <$>
    main ex_run_env [] [] [] [] (InvokeRun (mkFlags "missing.yaml" (Some "DEBUG"))) ex_process = Some (0%nat, 1%Z).
Proof. vm_compute. reflexivity. Qed.

End OrchestratorMain.
